(* ===== verification/_CoqProject ===== *)
-Q . S2P
Prelude.v
Text.v
Lines.v
Errors.v
Cooldown.v
Provider.v
Retry.v
Fallback.v
Rotation.v
LoopGuard.v
Budget.v
Session.v
Repair.v
Context.v
Compaction.v
Hooks.v
Bus.v
Approval.v
Broker.v
ThreadApproval.v
Gateway.v
Safety.v
Taint.v
AuditChain.v
Gate.v
Sanitize.v
ToolRun.v
Cache.v
AgentLoop.v
RateLimit.v
Pairing.v
Admission.v
Startup.v
Shell.v
Paths.v
Mount.v
Diff.v
Files.v
Quota.v
Registry.v
Chain.v
Sessions.v
Streaming.v
Dispatch.v
Cron.v
CronTool.v
Health.v
Ipc.v
Container.v
LongTerm.v
Switches.v
Manager.v
Web.v
Reminder.v
Wire.v
Claude.v
OpenAI.v
Gemini.v
Facade.v
Delegate.v
