(* ===== verification/Prelude.v ===== *)
(** * Verification of ZeptoClaw

    ZeptoClaw is an agent runtime in Rust: chat channels deliver messages to an
    agent loop, which asks a chain of model providers for completions, runs the
    tool calls the model answers with behind a gate of safety checks, and keeps
    the transcript inside the model's context window. This library models the
    core of that loop, and the security checks around it, as executable functions
    and proves what makes each part correct. File names below are relative to
    src/src/.

    ** The parts, and the files that model them

    Shared:
    - [Prelude] (this file): results and panics, machine integers, strings as
      UTF-8 bytes, lists, the iteration order of maps, and the automation the
      other files share. [Text] and [Lines]: characters, slices, searches, lines,
      words and numbers of [str].
    - [Errors] models error.rs, providers/error_classifier.rs and
      [parse_provider_error] of providers/mod.rs: the error enums, and which of
      them are retried or handed to a fallback.

    Providers:
    - [Cooldown] models providers/cooldown.rs: cooldowns per reason and provider.
    - [Provider] models the trait of providers/types.rs as a record of
      operations ([LLMProvider]) over a world of clocks ([World]); the
      decorators below are providers built from providers. Its module
      [Scripted] is a concrete world for examples.
    - [Retry], [Fallback] and [Rotation] model providers/retry.rs,
      providers/fallback.rs (with its [CircuitBreaker]) and
      providers/rotation.rs: the three decorators of the provider chain.
    - [Quota] models providers/quota.rs: the store of usage, its file and the
      decorator. [Cache] models cache/response_cache.rs.
    - [Registry] models providers/registry.rs and the configuration it reads, and
      [Chain] kernel/provider.rs: which providers a configuration selects, and
      the chain of decorators built from them.
    - [Wire], [Claude], [OpenAI] and [Gemini] model providers/claude.rs,
      providers/openai.rs and providers/gemini.rs: what is sent for a transcript,
      and what is made of the answers. [Wire] holds what they share: options,
      replies, and a stream of bytes read as lines of events.

    The agent loop and its transcript:
    - [LoopGuard] models agent/loop_guard.rs and the two functions of
      agent/loop.rs that apply it: detection of repeated tool calls.
    - [Budget] models agent/tool_call_limit.rs with its use in the tool loop,
      agent/budget.rs and agent/scratchpad.rs.
    - [Session] and [Repair] model session/types.rs and session/repair.rs: the
      transcript, and the passes that make a damaged one acceptable again.
      [Sessions] models session/mod.rs: where transcripts are kept.
    - [Bus] models bus/message.rs and bus/mod.rs, and [Dispatch] the event loop
      of agent/loop.rs on that bus: what is run, queued, answered and published
      again. It is a machine with a step for each point where the code waits,
      and other tasks take steps in between.
    - [Context] and [Compaction] model agent/context_monitor.rs and
      agent/compaction.rs: token estimates, and what is cut when the context
      overflows. The estimates are computed in IEEE doubles, as in the code.
    - [Sanitize] models utils/sanitize.rs and the previews of utils/string.rs:
      tool results on their way to the model.
    - [AgentLoop] models [process_message] of agent/loop.rs, from an inbound
      message to the saved reply. What it asks of the rest is the class
      [Environment]; [ToolRun] models one tool call and provides the execution
      of a batch ([tools_environment]). [Streaming] models
      [process_message_streaming], the run whose answer is delivered in pieces.
    - [Facade] models agent/facade.rs, the agent that is embedded without bus or
      gateway, and [Delegate] tools/delegate.rs and tools/message.rs: the
      sub-agents of an agent, and the messages it sends by itself.
    - [LongTerm] models memory/longterm.rs with its file, the tool of
      tools/longterm_memory.rs and the injection of memory into prompts.

    Approvals:
    - [Hooks] models hooks/mod.rs: rules that block calls or notify.
    - [Approval] models security/agent_mode.rs, tools/approval.rs,
      tools/hard_floor.rs, tools/thread_identity.rs, the key of
      tools/approval_broker.rs and the checks agent/loop.rs makes before a call
      (the streaming loop makes the same ones).
    - [Broker] and [ThreadApproval] model tools/approval_broker.rs and
      tools/thread_approval.rs: requests that wait for a user, and the approval
      mode of a thread with its file.
    - [Gateway] models the approval part of cli/gateway.rs: the interceptor of
      inbound messages, the approval handler and the sweeper.

    Safety and security:
    - [Safety] models safety/validator.rs, leak_detector.rs, policy.rs,
      sanitizer.rs and the pipeline of safety/mod.rs; [Taint] safety/taint.rs
      and safety/chain_alert.rs; [AuditChain] the chain of audit.rs.
    - [Gate] models kernel/gate.rs, which runs a tool between those checks, with
      tools/types.rs, tools/registry.rs and utils/metrics.rs.
    - [Shell] and [Paths] model security/shell.rs and security/path.rs: which
      commands and which files a tool may use.
    - [Diff] models tools/diff.rs and [Files] tools/filesystem.rs: the tools that
      read, write, list and edit files, on the checks of [Paths].
    - [RateLimit] models gateway/rate_limit.rs and gateway/idempotency.rs,
      [Pairing] security/pairing.rs, [Admission] the checks before a message
      reaches an agent (gateway/container_agent.rs and agent/loop.rs) and
      [Startup] gateway/startup_guard.rs with its use in cli/gateway.rs.
    - [Mount] models security/mount.rs: the directories a container may see.
    - [Web] models the checks of tools/web.rs and tools/http_request.rs: which
      hosts and addresses requests may go to.

    Around the agent:
    - [Ipc] and [Container] model gateway/ipc.rs, gateway/container_agent.rs and
      the agent's side of it in cli/agent.rs: agents in containers, what they are
      started with and what is read of their output.
    - [Health] models health.rs: checks, counters, reports.
    - [Cron] models cron/mod.rs: jobs, their file and the scheduler's ticks.
      [CronTool] models tools/cron.rs and [Reminder] tools/reminder.rs, which
      schedule with it.
    - [Switches] models channels/model_switch.rs and channels/persona_switch.rs,
      with their use by channels/telegram.rs; [Manager] models
      channels/manager.rs: channels, their supervisor and the delivery to them.

    A record of the model has the fields of the struct it stands for, an
    inductive type the variants of the enum, and a module the methods of an
    [impl] block, under the names of the source. A method that takes [&mut self]
    returns the new state. Clock readings, calls of remote models and file
    operations are effects: a computation of the monad [M] over a world, or an
    argument in the order in which the code reads it.

    ** What the theorems show

    - Approvals ([Approval], [Broker], [ThreadApproval], [Gateway]): which calls
      the checks let through; that decisions are final and reach only the
      request they answer; that a thread becomes automatic only by a confirmed
      command; and, across all four files, that a hard floor command on a
      gateway runs only after a user agreed to that very request.
    - The agent loop ([ToolRun], [AgentLoop], [LoopGuard], [Budget]): a message
      ends after a bounded number of requests and calls, whatever its
      environment answers; a tool is consulted only by a call that passed every
      check; the transcript that is saved consists of complete rounds; windows,
      counts and detectors equal their specifications.
    - Providers ([Errors], [Cooldown], [Retry], [Fallback], [Rotation]): every
      request comes back, calls each provider a bounded number of times in the
      documented order, and leaves the health and cooldown records its history
      asks for. [retry_run] and [request_run] are the contracts the decorators
      are proved to implement. [Quota]: what a quota weighs, after any
      history, and what it refuses. [Cache]: what a cached answer can be.
    - Edits ([Diff], [Files]): which diffs apply and that printed ones give the
      new text; what a successful edit makes of a file.
    - Safety ([Safety], [Taint], [AuditChain], [Gate]): exactly which texts and calls
      are blocked or changed, after any history; that the gate runs a tool once,
      and only past its checks; that the audit chain cannot be altered below its
      tip.
    - Security ([Shell], [Paths], [Files], [RateLimit], [Pairing], [Admission],
      [Startup]): exactly which commands are accepted; that accepted paths
      resolve in the workspace, and so does everything the file tools touch; how many requests and guesses get through in a
      window; which tokens are accepted after any history.
    - The event loop ([Dispatch] on [Bus]): no message is lost or doubled
      whatever other tasks do; with fair scheduling every accepted message is
      answered, in order; what the messages of an answer look like.
    - Sessions ([Sessions]): any history of operations and restarts is that of a
      map of the saved sessions.
    - Transcripts ([Repair], [Context], [Compaction], [Sanitize]): repair
      establishes the invariants a provider demands; trimming and recovery keep
      them.
    - Streams ([Streaming], [Wire], [Claude], [OpenAI]): a streamed run does the
      work of a plain one and saves what its receiver got; however the bytes of an
      answer are cut, the receiver gets its text, its calls and its counts;
      requests say what the transcript says. [OpenAI] also learns which field of
      the token limit a model takes, and asks at most twice.
    - The chain ([Registry], [Chain]): each request to the provider of a
      configuration asks its providers in order, with the bounds of the
      decorators composed.
    - Containers ([Mount], [Ipc], [Container]): exactly which directories are
      mounted, and how; what of the output is the answer, whatever else is
      printed; each message let through is answered at most once, within the
      slots.
    - Schedules ([Cron], [CronTool], [Reminder]): jobs are published when due and
      never twice for one time, over histories with other tasks in between;
      reminders and their jobs keep up with each other.
    - Memory ([LongTerm]): any history of operations and restarts refines a map
      of what was said, without texts that look like instructions.
    - Channels ([Switches], [Manager], [Health]): the last switch of a chat is in
      force, restarts included; a supervisor restarts only dead channels, a
      bounded number of times, spaced apart.
    - Requests to the web ([Web]): exactly which addresses are refused, and that
      only checked ones are connected to.
    - Embedding and delegation ([Facade], [Delegate]): histories of an embedded
      agent are complete rounds again after every chat and repair; sub-agents do
      not delegate, see the results before them, and run at most so many at a
      time until each is done.
    - Error paths: where the code can panic (a slice or a truncation inside a
      character), the theorem says exactly when, as [Panic] of [outcome].

    ** Conventions and bounds

    - Integers are [Z] with the width written out. Plain [+] and [*] wrap, as
      in the release profile and as atomics do in every profile ([wadd32],
      [wmul64], ...); saturating and wrapping methods are their own functions.
    - A string is its UTF-8 bytes; the characters of a text are the blocks of
      [encodes], so that cuts inside a character are visible.
    - Loops are structural on the list or count they consume, or run on fuel
      that a theorem shows to be enough: [trim_start], the searches of [Text] and
      [Taint.collect_from] take the length of the text, which each step shortens;
      [Files.map_ws] that of the original; [Cache.evict_to] the number of entries; [AgentLoop.tool_loop] the
      configured number of iterations, which the code counts itself.
    - Shared state is modelled at the grain of the code's locks and atomics: a
      history is a sequence of whole operations in any order. The requests of
      the provider decorators, the messages of the gateway and those of the
      agent loop are modelled one at a time; the counters of a run are its own.
    - Third-party code is a parameter: lowercasing beyond ASCII
      ([RustUnicode]), SHA-256, JSON, regular expressions ([RustRegex]), time
      formatting, random numbers. So are the order in which a hash map is
      iterated ([MapOrder], [HashOrder]), the file system ([FileSystem]), and
      what a timeout interrupts. Each has a concrete instance, on which the
      witnesses evaluate.

    ** What is not modelled

    Logging and events for user interfaces; the assembly of prompts; the other
    providers, which are clients of services like the modelled ones; what chat
    channels exchange with their services; the tools that start processes, drive
    browsers or ask fixed services, and the extraction of text from documents;
    searches of memory, by scores in floats or by embeddings; ciphers, sandboxes
    and runtimes; the formats of configuration files, the command line and the
    web panel; skills, plugins and devices. These are third-party code with
    glue around it, or texts; where a modelled part needs one of them it is an
    argument with the laws the part relies on. *)

From Stdlib Require Export ZArith Lia ZifyBool.
From stdpp Require Export base tactics option list gmap strings pretty numbers sorting.

#[global] Open Scope string_scope.
#[global] Open Scope list_scope.
#[global] Open Scope Z_scope.

#[global] Arguments String.append !_ _ / : simpl nomatch.

(** ** Results and panics *)

(** Rust's [Result<A, E>], with the error type first so that [result E] is a
    monad. *)
Inductive result (E A : Type) : Type :=
| Ok (a : A)
| Err (e : E).
Arguments Ok {E A} _.
Arguments Err {E A} _.

(** A computation that may panic. *)
Inductive outcome (A : Type) : Type :=
| Ret (a : A)
| Panic.
Arguments Ret {A} _.
Arguments Panic {A}.

Definition is_ok {E A} (r : result E A) : bool :=
  match r with Ok _ => true | Err _ => false end.

#[export] Instance result_ret {E} : MRet (result E) := λ A a, Ok a.
#[export] Instance result_bind {E} : MBind (result E) := λ A B f m,
  match m with Ok a => f a | Err e => Err e end.
#[export] Instance result_fmap {E} : FMap (result E) := λ A B f m,
  match m with Ok a => Ok (f a) | Err e => Err e end.
#[export] Instance outcome_ret : MRet outcome := λ A a, Ret a.
#[export] Instance outcome_bind : MBind outcome := λ A B f m,
  match m with Ret a => f a | Panic => Panic end.
#[export] Instance outcome_fmap : FMap outcome := λ A B f m,
  match m with Ret a => Ret (f a) | Panic => Panic end.

#[export] Instance result_eq_dec {E A} `{EqDecision E, EqDecision A} :
  EqDecision (result E A).
Proof. solve_decision. Defined.
#[export] Instance outcome_eq_dec {A} `{EqDecision A} : EqDecision (outcome A).
Proof. solve_decision. Defined.

(** ** Machine integers: a [Z] kept in range by the operation the code uses *)

Definition u32_mod : Z := 2 ^ 32.
Definition u64_mod : Z := 2 ^ 64.
Definition u32_max : Z := u32_mod - 1.
Definition u64_max : Z := u64_mod - 1.
Definition i64_max : Z := 2 ^ 63 - 1.

Definition is_u32 (z : Z) : Prop := 0 ≤ z < u32_mod.
Definition is_u64 (z : Z) : Prop := 0 ≤ z < u64_mod.

(** Arithmetic of the release profile, which has no overflow checks, and of
    the atomic [fetch_add], which wraps in every profile. *)
Definition wadd32 (a b : Z) : Z := (a + b) mod u32_mod.
Definition wmul32 (a b : Z) : Z := (a * b) mod u32_mod.
Definition wadd64 (a b : Z) : Z := (a + b) mod u64_mod.
Definition wmul64 (a b : Z) : Z := (a * b) mod u64_mod.

Definition sat_sub (a b : Z) : Z := Z.max 0 (a - b).
Definition sat_add32 (a b : Z) : Z := Z.min u32_max (a + b).
Definition sat_add64 (a b : Z) : Z := Z.min u64_max (a + b).
Definition sat_mul64 (a b : Z) : Z := Z.min u64_max (a * b).
Definition sat_pow64 (a b : Z) : Z := Z.min u64_max (a ^ b).

(** [u64::wrapping_shl]: the shift count is taken modulo 64. *)
Definition wrapping_shl64 (a n : Z) : Z := Z.shiftl a (n mod 64) mod u64_mod.

(** Decimal rendering of an unsigned integer, [format!("{}", n)]. *)
Definition fmt_Z (n : Z) : string := pretty n.
Definition fmt_nat (n : nat) : string := pretty n.

Section machine_integers.
  Implicit Types a b c : Z.

Lemma wadd32_small a b : 0 ≤ a + b < u32_mod → wadd32 a b = a + b.
Proof. apply Z.mod_small. Qed.

Lemma wmul32_small a b : 0 ≤ a * b < u32_mod → wmul32 a b = a * b.
Proof. apply Z.mod_small. Qed.

Lemma wadd64_small a b : 0 ≤ a + b < u64_mod → wadd64 a b = a + b.
Proof. apply Z.mod_small. Qed.

Lemma wmul64_small a b : 0 ≤ a * b < u64_mod → wmul64 a b = a * b.
Proof. apply Z.mod_small. Qed.

Lemma wadd32_range a b : is_u32 (wadd32 a b).
Proof. apply Z.mod_pos_bound. reflexivity. Qed.

Lemma wadd64_range a b : is_u64 (wadd64 a b).
Proof. apply Z.mod_pos_bound. reflexivity. Qed.

Lemma wadd32_assoc a b c : wadd32 (wadd32 a b) c = wadd32 a (b + c).
Proof. unfold wadd32. rewrite Zplus_mod_idemp_l. f_equal. lia. Qed.

Lemma wadd64_assoc a b c : wadd64 (wadd64 a b) c = wadd64 a (b + c).
Proof. unfold wadd64. rewrite Zplus_mod_idemp_l. f_equal. lia. Qed.

Lemma sat_sub_nonneg a b : 0 ≤ sat_sub a b.
Proof. unfold sat_sub. lia. Qed.

Lemma pow2_le_mono a b : 0 ≤ a ≤ b → 2 ^ a ≤ 2 ^ b.
Proof. intros H. apply Z.pow_le_mono_r; lia. Qed.

Lemma sat_pow64_two_small n : 0 ≤ n < 64 → sat_pow64 2 n = 2 ^ n.
Proof.
  intros H. unfold sat_pow64. apply Z.min_r.
  assert (2 ^ n ≤ 2 ^ 63) by (apply pow2_le_mono; lia).
  assert (2 ^ 63 ≤ u64_max) by (vm_compute; discriminate). lia.
Qed.

Lemma sat_pow64_two_large n : 64 ≤ n → sat_pow64 2 n = u64_max.
Proof.
  intros H. unfold sat_pow64. apply Z.min_l.
  assert (2 ^ 64 ≤ 2 ^ n) by (apply pow2_le_mono; lia).
  assert (u64_max ≤ 2 ^ 64) by (vm_compute; discriminate). lia.
Qed.
End machine_integers.

(** ** Strings: the UTF-8 bytes of a Rust [str] *)

(** The double quote, as a one-byte string. *)
Definition dquote : string := String (Ascii.ascii_of_nat 34) EmptyString.
Definition newline : string := String (Ascii.ascii_of_nat 10) EmptyString.

Definition byte_val (c : Ascii.ascii) : N := Ascii.N_of_ascii c.

Fixpoint str_take (n : nat) (s : string) : string :=
  match n, s with
  | S n', String c s' => String c (str_take n' s')
  | _, _ => EmptyString
  end.

Fixpoint str_drop (n : nat) (s : string) : string :=
  match n, s with
  | O, _ => s
  | S n', String _ s' => str_drop n' s'
  | S _, EmptyString => EmptyString
  end.

Definition starts_with (s p : string) : bool := String.prefix p s.

Definition ends_with (s p : string) : bool :=
  Nat.leb (String.length p) (String.length s) &&
  String.eqb (str_drop (String.length s - String.length p)%nat s) p.

Definition strip_prefix (s p : string) : option string :=
  if starts_with s p then Some (str_drop (String.length p) s) else None.

Definition strip_suffix (s p : string) : option string :=
  if ends_with s p
  then Some (str_take (String.length s - String.length p)%nat s) else None.

(** [str::contains] for a string pattern. *)
Fixpoint contains (s p : string) : bool :=
  String.prefix p s ||
  match s with
  | EmptyString => false
  | String _ s' => contains s' p
  end.

Definition str_is_empty (s : string) : bool :=
  match s with EmptyString => true | _ => false end.

(** [Vec<String>::join]. *)
Fixpoint join (sep : string) (l : list string) : string :=
  match l with
  | [] => ""
  | [x] => x
  | x :: l' => x +:+ sep +:+ join sep l'
  end.

(** A continuation byte of UTF-8. *)
Definition is_cont (c : Ascii.ascii) : bool :=
  (N.leb 128 (byte_val c) && N.ltb (byte_val c) 192)%bool.

Fixpoint char_boundary_at (i : nat) (s : string) : bool :=
  match i, s with
  | _, EmptyString => Nat.eqb i 0
  | O, String c _ => negb (is_cont c)
  | S i', String _ s' => char_boundary_at i' s'
  end.

(** [str::is_char_boundary]: the ends are boundaries, an index past the end is
    not, and inside the string the byte must not be a continuation byte. *)
Definition is_char_boundary (s : string) (i : nat) : bool :=
  Nat.eqb i 0 || char_boundary_at i s.

(** The loop [while end > 0 && !s.is_char_boundary(end) { end -= 1 }]. *)
Fixpoint floor_boundary (s : string) (e : nat) : nat :=
  match e with
  | O => O
  | S e' => if is_char_boundary s e then e else floor_boundary s e'
  end.

(** One encoded character: a leading byte and its continuation bytes. *)
Definition is_char (c : string) : Prop :=
  match c with
  | EmptyString => False
  | String b t => is_cont b = false ∧
                  Forall (λ x, is_cont x = true) (String.list_ascii_of_string t)
  end.

Fixpoint str_concat (l : list string) : string :=
  match l with [] => "" | c :: l' => c +:+ str_concat l' end.

(** The text [s] is the characters [cs], each encoded on its own bytes. *)
Definition encodes (cs : list string) (s : string) : Prop :=
  Forall is_char cs ∧ s = str_concat cs.

(** [char::is_whitespace], as the number of bytes of the white space character
    the string starts with, 0 when it starts with none (Unicode White_Space). *)
Definition ws_len (s : string) : nat :=
  match s with
  | EmptyString => 0
  | String a s1 =>
    let x := byte_val a in
    if ((N.leb 9 x && N.leb x 13) || N.eqb x 32)%bool then 1 else
    match s1 with
    | EmptyString => 0
    | String b s2 =>
      let y := byte_val b in
      if (N.eqb x 194 && (N.eqb y 133 || N.eqb y 160))%bool then 2 else
      match s2 with
      | EmptyString => 0
      | String c _ =>
        let z := byte_val c in
        if (N.eqb x 225 && N.eqb y 154 && N.eqb z 128)%bool then 3 else
        if (N.eqb x 226 && N.eqb y 128 &&
            ((N.leb 128 z && N.leb z 138) || N.eqb z 168 || N.eqb z 169 ||
             N.eqb z 175))%bool then 3 else
        if (N.eqb x 226 && N.eqb y 129 && N.eqb z 159)%bool then 3 else
        if (N.eqb x 227 && N.eqb y 128 && N.eqb z 128)%bool then 3 else 0
      end
    end
  end%nat.

Fixpoint trim_start_fuel (fuel : nat) (s : string) : string :=
  match fuel with
  | O => s
  | S f => match ws_len s with
           | O => s
           | n => trim_start_fuel f (str_drop n s)
           end
  end.

Definition trim_start (s : string) : string := trim_start_fuel (String.length s) s.

Fixpoint trim_end (s : string) : string :=
  match s with
  | EmptyString => EmptyString
  | String c s' => if str_is_empty (trim_start s) then EmptyString
                   else String c (trim_end s')
  end.

(** [str::trim]. *)
Definition trim (s : string) : string := trim_end (trim_start s).

Definition is_ascii_char (c : Ascii.ascii) : bool := N.ltb (byte_val c) 128.
Definition is_ascii (s : string) : bool :=
  forallb is_ascii_char (String.list_ascii_of_string s).

Definition ascii_lower (c : Ascii.ascii) : Ascii.ascii :=
  if (N.leb 65 (byte_val c) && N.leb (byte_val c) 90)%bool
  then Ascii.ascii_of_N (byte_val c + 32) else c.

Fixpoint to_ascii_lowercase (s : string) : string :=
  match s with
  | EmptyString => EmptyString
  | String c s' => String (ascii_lower c) (to_ascii_lowercase s')
  end.

(** [str::to_lowercase] is Unicode's table; the code relies only on what it
    does to ASCII text, alone or in front of other text. *)
Class RustUnicode := {
  to_lowercase : string → string;
  to_lowercase_ascii s : is_ascii s = true → to_lowercase s = to_ascii_lowercase s;
  to_lowercase_prefix a b :
    is_ascii a = true → ∃ r, to_lowercase (a +:+ b) = to_ascii_lowercase a +:+ r;
}.

Lemma to_ascii_lowercase_app a b :
  to_ascii_lowercase (a +:+ b) = to_ascii_lowercase a +:+ to_ascii_lowercase b.
Proof. induction a as [|c a IH]; simpl; [done|]. by rewrite IH. Qed.

(** An instance, which leaves every other character alone. *)
#[export] Instance ascii_unicode : RustUnicode | 100.
Proof.
  refine {| to_lowercase := to_ascii_lowercase; to_lowercase_ascii _ _ := eq_refl |}.
  intros a b _. eexists. apply to_ascii_lowercase_app.
Defined.

(** ** Lemmas about strings *)

Lemma str_app_length (a b : string) :
  String.length (a +:+ b) = (String.length a + String.length b)%nat.
Proof. induction a as [|c a IH]; simpl; [done|]. by rewrite IH. Qed.

Lemma str_app_assoc (a b c : string) : (a +:+ b) +:+ c = a +:+ b +:+ c.
Proof. induction a as [|x a IH]; simpl; [done|]. by rewrite IH. Qed.

Lemma str_app_nil_r (a : string) : a +:+ "" = a.
Proof. induction a as [|x a IH]; simpl; [done|]. by rewrite IH. Qed.

Lemma str_take_drop n s : str_take n s +:+ str_drop n s = s.
Proof.
  revert s. induction n as [|n IH]; intros [|c s]; simpl; [done..|]. by rewrite IH.
Qed.

Lemma str_take_length n s : (String.length (str_take n s) ≤ n)%nat.
Proof.
  revert s. induction n as [|n IH]; intros [|c s]; simpl; try lia.
  specialize (IH s). lia.
Qed.

Lemma str_take_length_le n s :
  (n ≤ String.length s)%nat → String.length (str_take n s) = n.
Proof.
  revert s. induction n as [|n IH]; intros [|c s] H; simpl in *; try done; try lia.
  rewrite IH; lia.
Qed.

Lemma str_take_all s n : (String.length s ≤ n)%nat → str_take n s = s.
Proof.
  revert s. induction n as [|n IH]; intros [|c s] H; simpl in *; try done; try lia.
  by rewrite IH by lia.
Qed.

Lemma str_take_app a b n :
  (n ≤ String.length a)%nat → str_take n (a +:+ b) = str_take n a.
Proof.
  revert n. induction a as [|c a IH]; intros [|n] H; simpl in *; try done; try lia.
  by rewrite IH by lia.
Qed.

Lemma str_take_app_exact a b : str_take (String.length a) (a +:+ b) = a.
Proof. rewrite str_take_app by lia. by apply str_take_all. Qed.

Lemma str_drop_app_exact a b : str_drop (String.length a) (a +:+ b) = b.
Proof. induction a as [|c a IH]; simpl; [by destruct b|done]. Qed.

Lemma str_drop_length n s : String.length (str_drop n s) = (String.length s - n)%nat.
Proof. revert s. induction n as [|n IH]; intros [|c s]; simpl; try done. Qed.

Lemma prefix_app p s : String.prefix p (p +:+ s) = true.
Proof.
  induction p as [|c p IH]; simpl; [by destruct s|].
  by destruct (Ascii.ascii_dec c c).
Qed.

Lemma prefix_spec p s : String.prefix p s = true ↔ ∃ t, s = p +:+ t.
Proof.
  split.
  - revert s. induction p as [|c p IH]; intros s H; [by exists s|].
    destruct s as [|d s]; simpl in H; [done|].
    destruct (Ascii.ascii_dec c d) as [->|]; [|done].
    destruct (IH s H) as [t ->]. by exists t.
  - intros [t ->]. apply prefix_app.
Qed.

Lemma starts_with_spec s p : starts_with s p = true ↔ ∃ t, s = p +:+ t.
Proof. apply prefix_spec. Qed.

Lemma ends_with_spec s p : ends_with s p = true ↔ ∃ t, s = t +:+ p.
Proof.
  unfold ends_with. rewrite andb_true_iff, Nat.leb_le, String.eqb_eq. split.
  - intros [Hlen Heq]. exists (str_take (String.length s - String.length p) s).
    rewrite <- Heq at 2. by rewrite str_take_drop.
  - intros [t ->]. rewrite str_app_length. split; [lia|].
    replace (String.length t + String.length p - String.length p)%nat
      with (String.length t) by lia.
    apply str_drop_app_exact.
Qed.

Lemma contains_spec s p : contains s p = true ↔ ∃ a b, s = a +:+ p +:+ b.
Proof.
  split.
  - induction s as [|c s IH]; cbn [contains]; rewrite orb_true_iff, prefix_spec.
    + intros [[t Ht]|]; [|done]. by exists "", t.
    + intros [[t Ht]|Hs]; [by exists "", t|].
      destruct (IH Hs) as (a & b & ->). by exists (String c a), b.
  - intros (a & b & ->). induction a as [|c a IH].
    + pose proof (prefix_app p b) as Hp.
      change ("" +:+ p +:+ b) with (p +:+ b).
      destruct (p +:+ b); cbn [contains]; by rewrite Hp.
    + change (String c a +:+ p +:+ b) with (String c (a +:+ p +:+ b)).
      cbn [contains]. by rewrite IH, orb_true_r.
Qed.

Lemma strip_prefix_Some s p t : strip_prefix s p = Some t ↔ s = p +:+ t.
Proof.
  unfold strip_prefix. destruct (starts_with s p) eqn:E.
  - apply starts_with_spec in E as [u ->]. rewrite str_drop_app_exact.
    split; [by intros [= ->]|]. intros H. f_equal.
    rewrite <- (str_drop_app_exact p u), H. apply str_drop_app_exact.
  - split; [done|]. intros ->.
    assert (starts_with (p +:+ t) p = true) by (apply starts_with_spec; eauto).
    congruence.
Qed.

Lemma strip_suffix_Some s p t : strip_suffix s p = Some t ↔ s = t +:+ p.
Proof.
  unfold strip_suffix. destruct (ends_with s p) eqn:E.
  - apply ends_with_spec in E as [u ->]. rewrite str_app_length.
    assert (∀ v, v +:+ p = u +:+ p → v = u) as Hinj.
    { intros v Hv. pose proof (f_equal String.length Hv) as Hl.
      rewrite !str_app_length in Hl.
      rewrite <- (str_take_app_exact v p), Hv.
      replace (String.length v) with (String.length u) by lia.
      apply str_take_app_exact. }
    replace (String.length u + String.length p - String.length p)%nat
      with (String.length u) by lia.
    rewrite str_take_app_exact. split; [by intros [= ->]|].
    intros H. f_equal. symmetry. by apply Hinj.
  - split; [done|]. intros ->.
    assert (ends_with (t +:+ p) p = true) by (apply ends_with_spec; eauto).
    congruence.
Qed.

Lemma str_concat_app l1 l2 :
  str_concat (l1 ++ l2) = str_concat l1 +:+ str_concat l2.
Proof. induction l1 as [|x l1 IH]; simpl; [done|]. by rewrite IH, str_app_assoc. Qed.

Lemma str_concat_length_cons c l :
  String.length (str_concat (c :: l))
  = (String.length c + String.length (str_concat l))%nat.
Proof. apply str_app_length. Qed.

(** *** Character boundaries *)

Lemma floor_boundary_le s e : (floor_boundary s e ≤ e)%nat.
Proof. induction e as [|e IH]; cbn -[is_char_boundary]; [done|]. case_match; lia. Qed.

Lemma floor_boundary_ok s e : is_char_boundary s (floor_boundary s e) = true.
Proof.
  induction e as [|e IH]; cbn -[is_char_boundary]; [done|].
  by destruct (is_char_boundary s (S e)) eqn:E.
Qed.

Lemma floor_boundary_max s e i :
  (i ≤ e)%nat → is_char_boundary s i = true → (i ≤ floor_boundary s e)%nat.
Proof.
  induction e as [|e IH]; cbn -[is_char_boundary]; intros Hi Hb; [lia|].
  destruct (is_char_boundary s (S e)) eqn:E; [done|].
  destruct (decide (i = S e)) as [->|]; [congruence|]. apply IH; [lia|done].
Qed.

Lemma char_boundary_app a b i :
  char_boundary_at (String.length a + i) (a +:+ b) = char_boundary_at i b.
Proof. induction a as [|c a IH]; simpl; done. Qed.

Lemma char_boundary_inside b t r i :
  Forall (λ x, is_cont x = true) (String.list_ascii_of_string t) →
  (0 < i < S (String.length t))%nat →
  char_boundary_at i (String b t +:+ r) = false.
Proof.
  intros Ht Hi. destruct i as [|i]; [lia|]. simpl.
  revert i Hi. induction t as [|c t IH]; intros i Hi; simpl in *; [lia|].
  apply Forall_cons in Ht as [Hc Ht]. destruct i as [|i]; simpl; [by rewrite Hc|].
  apply IH; [done|lia].
Qed.

Lemma char_boundary_zero cs s : encodes cs s → char_boundary_at 0 s = true.
Proof.
  intros [Hcs ->]. destruct cs as [|c cs]; [done|].
  apply Forall_cons in Hcs as [Hc _]. destruct c as [|b t]; [done|].
  simpl. by destruct Hc as [-> _].
Qed.

(** In a text, the boundaries are exactly the ends of the character prefixes. *)
Lemma boundary_split cs s i :
  encodes cs s → is_char_boundary s i = true →
  ∃ cs1 cs2, cs = cs1 ++ cs2 ∧ str_take i s = str_concat cs1 ∧
             i = String.length (str_concat cs1).
Proof.
  intros Henc Hb.
  assert (char_boundary_at i s = true) as Hb'.
  { unfold is_char_boundary in Hb. apply orb_true_iff in Hb as [Hi|Hi]; [|done].
    apply Nat.eqb_eq in Hi as ->. by eapply char_boundary_zero. }
  clear Hb. revert s i Henc Hb'. induction cs as [|c cs IH]; intros s i [Hcs ->] Hb.
  - exists [], []. simpl in *. destruct i; [done|]. done.
  - apply Forall_cons in Hcs as [Hc Hcs].
    destruct (decide (i = 0%nat)) as [->|Hi0].
    { exists [], (c :: cs). split; [done|]. simpl. by destruct (c +:+ str_concat cs). }
    destruct (decide (i < String.length c)%nat) as [Hlt|Hge].
    { destruct c as [|b t]; [done|]. destruct Hc as [_ Ht].
      change (str_concat (String b t :: cs)) with (String b t +:+ str_concat cs) in Hb.
      rewrite char_boundary_inside in Hb; simpl in *; [done|done|lia]. }
    replace i with (String.length c + (i - String.length c))%nat in Hb by lia.
    simpl in Hb. rewrite char_boundary_app in Hb.
    destruct (IH (str_concat cs) (i - String.length c)%nat) as (c1 & c2 & -> & Ht & Hl);
      [done|done|].
    exists (c :: c1), c2. split; [done|]. rewrite str_concat_length_cons.
    split; [|lia]. simpl. rewrite str_concat_app.
    rewrite <- str_app_assoc. rewrite str_take_app; [apply str_take_all|];
      rewrite str_app_length; lia.
Qed.

Lemma char_prefix_boundary cs1 cs2 s :
  encodes (cs1 ++ cs2) s →
  is_char_boundary s (String.length (str_concat cs1)) = true.
Proof.
  intros [Hcs ->]. unfold is_char_boundary. rewrite str_concat_app.
  rewrite <- (Nat.add_0_r (String.length (str_concat cs1))).
  rewrite char_boundary_app.
  rewrite (char_boundary_zero cs2); [apply orb_true_r|].
  by apply Forall_app in Hcs as [_ ?].
Qed.

(** *** Truncation at a character boundary *)

(** The helper [truncate_utf8], which three modules define for themselves. *)
Definition utf8_truncate (s : string) (max_bytes : nat) : string :=
  if Nat.leb (String.length s) max_bytes then s
  else str_take (floor_boundary s max_bytes) s.

Lemma utf8_truncate_length s n : (String.length (utf8_truncate s n) ≤ n)%nat.
Proof.
  unfold utf8_truncate. destruct (Nat.leb_spec (String.length s) n); [done|].
  pose proof (str_take_length (floor_boundary s n) s).
  pose proof (floor_boundary_le s n). lia.
Qed.

(** The result is the longest run of whole characters that fits. *)
Lemma utf8_truncate_chars cs s n :
  encodes cs s →
  ∃ cs1 cs2, cs = cs1 ++ cs2 ∧ utf8_truncate s n = str_concat cs1 ∧
             (∀ c, head cs2 = Some c →
                   (n < String.length (str_concat (cs1 ++ [c])))%nat).
Proof.
  intros Henc. unfold utf8_truncate.
  destruct (Nat.leb_spec (String.length s) n) as [Hle|Hlt].
  { exists cs, []. rewrite app_nil_r. destruct Henc as [? ->]. by split_and!. }
  destruct (boundary_split cs s (floor_boundary s n)) as (c1 & c2 & -> & Ht & Hl);
    [done|apply floor_boundary_ok|].
  exists c1, c2. split_and!; [done|done|]. intros c Hc.
  destruct c2 as [|c' c2]; [done|]. simplify_eq/=.
  destruct (Nat.lt_ge_cases n (String.length (str_concat (c1 ++ [c])))) as [?|Hge]; [done|].
  exfalso. rewrite cons_middle, app_assoc in Henc.
  pose proof (char_prefix_boundary _ _ _ Henc) as Hb.
  pose proof (floor_boundary_max s n _ Hge Hb) as Hmax.
  destruct Henc as [Hcs _]. apply Forall_app in Hcs as [Hcs _].
  apply Forall_app in Hcs as [_ Hc]. apply Forall_cons in Hc as [Hc _].
  rewrite str_concat_app, str_app_length in Hmax. simpl in Hmax.
  rewrite str_app_nil_r in Hmax. destruct c as [|b t]; [done|]. simpl in Hmax. lia.
Qed.

(** ** Lists *)

Definition any {A} (f : A → bool) (l : list A) : bool := existsb f l.

(** [while q.front() satisfies p { q.pop_front() }]. *)
Fixpoint drop_while {A} (p : A → bool) (l : list A) : list A :=
  match l with
  | [] => []
  | x :: l' => if p x then drop_while p l' else l
  end.

Section lists.
  Context {A : Type}.
  Implicit Types (l : list A) (p : A → bool).

Lemma any_true p l : any p l = true ↔ ∃ x, x ∈ l ∧ p x = true.
Proof.
  unfold any. rewrite existsb_exists. by setoid_rewrite list_elem_of_In.
Qed.

Lemma any_false p l : any p l = false ↔ ∀ x, x ∈ l → p x = false.
Proof.
  rewrite <- not_true_iff_false, any_true. split.
  - intros H x Hx. apply not_true_iff_false. eauto.
  - intros H (x & Hx & Hp). rewrite (H x Hx) in Hp. done.
Qed.

Lemma mjoin_snoc (ls : list (list A)) l : mjoin (ls ++ [l]) = mjoin ls ++ l.
Proof.
  induction ls as [|x ls IH]; [apply app_nil_r|].
  change (x ++ mjoin (ls ++ [l]) = (x ++ mjoin ls) ++ l). by rewrite IH, app_assoc.
Qed.

Lemma drop_while_suffix p l : ∃ k, l = k ++ drop_while p l ∧ Forall (λ x, p x = true) k.
Proof.
  induction l as [|x l (k & Hk & Hp)]; simpl; [by exists []|].
  destruct (p x) eqn:E; [|by exists []].
  exists (x :: k). split; [by rewrite Hk at 1|by constructor].
Qed.

Lemma drop_while_head p l x l' : drop_while p l = x :: l' → p x = false.
Proof.
  induction l as [|y l IH]; simpl; [done|].
  destruct (p y) eqn:E; [done|]. by intros [= -> ->].
Qed.
End lists.

(** ** Sublists *)

Lemma sublist_filter_mono {A} (P : A → Prop) `{∀ x, Decision (P x)} (l1 l2 : list A) :
  sublist l1 l2 → sublist (filter P l1) (filter P l2).
Proof.
  induction 1 as [|x l1 l2 Hs IH|x l1 l2 Hs IH]; [done|..]; rewrite ?filter_cons;
    destruct (decide (P x)); by try constructor.
Qed.

Lemma sublist_map_mono {A B} (f : A → B) l1 l2 : sublist l1 l2 → sublist (map f l1) (map f l2).
Proof. induction 1; by constructor. Qed.

Lemma sublist_elem {A} (l1 l2 : list A) x : sublist l1 l2 → x ∈ l1 → x ∈ l2.
Proof. intros Hs Hx. eapply elem_of_submseteq; [exact Hx|by apply sublist_submseteq]. Qed.

Lemma sublist_sorted {A} (R : relation A) l1 l2 :
  sublist l1 l2 → StronglySorted R l2 → StronglySorted R l1.
Proof.
  induction 1 as [|x l1 l2 Hs IH|x l1 l2 Hs IH]; inversion 1; subst; auto; constructor; auto.
  apply Forall_forall. intros y Hy. eapply Forall_forall; [done|]. by eapply sublist_elem.
Qed.

(** ** The order of a hash map *)

(** [Iterator::min_by_key]: the first of the smallest. *)
Fixpoint min_by {A} (key : A → Z) (l : list A) : option A :=
  match l with
  | [] => None
  | x :: l' =>
    match min_by key l' with
    | Some y => if key y <? key x then Some y else Some x
    | None => Some x
    end
  end.

Lemma min_by_spec {A} (key : A → Z) l :
  match min_by key l with
  | Some x => x ∈ l ∧ ∀ y, y ∈ l → key x ≤ key y
  | None => l = []
  end.
Proof.
  induction l as [|x l IH]; [done|]. cbn [min_by]. destruct (min_by key l) as [y|].
  - destruct IH as [Hin Hmin]. destruct (Z.ltb_spec (key y) (key x)).
    + split; [by right|]. intros z [-> |Hz]%elem_of_cons; [lia|by apply Hmin].
    + split; [by left|]. intros z [-> |Hz]%elem_of_cons; [lia|]. specialize (Hmin z Hz). lia.
  - subst l. split; [by left|]. intros z [-> |Hz]%elem_of_cons; [lia|by apply elem_of_nil in Hz].
Qed.

(** A [HashMap] gives its entries in some order. *)
Class MapOrder (V : Type) := {
  map_iter : gmap string V → list (string * V);
  map_iter_list m : map_iter m ≡ₚ map_to_list m;
}.

Lemma min_by_map `{MapOrder V} (key : V → Z) (m : gmap string V) :
  m ≠ ∅ →
  ∃ k v, min_by (λ kv, key (snd kv)) (map_iter m) = Some (k, v) ∧ m !! k = Some v ∧
         ∀ k' v', m !! k' = Some v' → key v ≤ key v'.
Proof.
  intros Hne. pose proof (min_by_spec (λ kv, key (snd kv)) (map_iter m)) as Hm.
  destruct (min_by _ _) as [[k v]|].
  - destruct Hm as [Hin Hmin]. exists k, v. rewrite map_iter_list in Hin.
    apply elem_of_map_to_list in Hin. split_and!; [done..|]. intros k' v' Hk'.
    apply (Hmin (k', v')). rewrite map_iter_list. by apply elem_of_map_to_list.
  - destruct Hne. apply map_to_list_empty_iff, Permutation_nil_r. by rewrite <- map_iter_list, Hm.
Qed.

(** ** Automation *)

(** Facts the arithmetic and string goals of every component end with. *)
Create HintDb rust discriminated.
#[export] Hint Resolve wadd32_range wadd64_range sat_sub_nonneg
  utf8_truncate_length prefix_app : rust.
#[export] Hint Rewrite str_app_length str_app_assoc str_app_nil_r
  @length_app @length_reverse @length_drop @length_take : rust_len.

(** Case analysis on every condition in the goal, with the arithmetic facts
    left for [lia]. *)
Ltac cases := repeat (case_match; simplify_eq/=).

(** A closed boolean test, decided by evaluation. *)
Ltac by_compute := vm_compute; reflexivity.
