(* ===== verification/Text.v ===== *)
(** Text: characters, slices and searches of the standard library's [str],
    over the UTF-8 bytes of a string. *)

From S2P Require Import Prelude.

(** ** Characters *)

(** [str::chars]: a leading byte takes its continuation bytes along. *)
Fixpoint chars (s : string) : list string :=
  match s with
  | EmptyString => []
  | String b s' =>
    match chars s' with
    | (String c t) :: cs =>
      if is_cont c then String b (String c t) :: cs else String b EmptyString :: String c t :: cs
    | cs => String b EmptyString :: cs
    end
  end.

Definition is_whitespace (c : string) : bool := negb (Nat.eqb (ws_len c) 0).

Definition slice (s : string) (a b : nat) : string := str_take (b - a) (str_drop a s).

(** [str::find] of a string pattern: the leftmost occurrence. *)
Fixpoint find_str (s p : string) : option nat :=
  if String.prefix p s then Some 0%nat
  else match s with
       | EmptyString => None
       | String _ s' => S <$> find_str s' p
       end.

(** ** Slices *)

Lemma str_drop_app_ge (a b : string) n :
  (String.length a ≤ n)%nat → str_drop n (a +:+ b) = str_drop (n - String.length a) b.
Proof.
  revert n. induction a as [|c a IH]; intros n Hn; simpl in *; [by rewrite Nat.sub_0_r|].
  destruct n as [|n]; [lia|]. simpl. apply IH. lia.
Qed.

Lemma str_take_app_le (a b : string) n :
  (n ≤ String.length a)%nat → str_take n (a +:+ b) = str_take n a.
Proof.
  revert n. induction a as [|c a IH]; intros [|n] Hn; simpl in *; try done; try lia.
  f_equal. apply IH. lia.
Qed.

Lemma str_take_take (s : string) n m : (n ≤ m)%nat → str_take n (str_take m s) = str_take n s.
Proof.
  revert n m. induction s as [|c s IH]; intros [|n] [|m] Hle; simpl; try done; try lia.
  f_equal. apply IH. lia.
Qed.

(** A part of a text and the slice that follows it. *)
Lemma take_slice (s : string) a b :
  (a ≤ b)%nat → str_take a s +:+ slice s a b = str_take b s.
Proof.
  unfold slice. revert a b. induction s as [|c s IH]; intros [|a] [|b] Hle; simpl; try done; try lia;
    [by destruct (b - a)%nat|].
  f_equal. apply IH. lia.
Qed.

(** *** Characters *)

Lemma chars_char b t r :
  is_cont b = false → Forall (λ x, is_cont x = true) (String.list_ascii_of_string t) →
  (∀ c s, r = String c s → is_cont c = false) →
  chars (String b t +:+ r) = String b t :: chars r.
Proof.
  intros Hb Ht Hr.
  assert (∀ t b, Forall (λ x, is_cont x = true) (String.list_ascii_of_string t) →
    chars (String b t +:+ r) = String b t :: chars r) as H; [|by apply H].
  clear b t Hb Ht. induction t as [|c t IH]; intros b Ht.
  - change (String b "" +:+ r) with (String b r). cbn [chars].
    destruct r as [|x r]; [done|]. specialize (Hr x r eq_refl).
    destruct (chars (String x r)) as [|[|y s] cs] eqn:E; try done.
    assert (y = x) as ->; [|by rewrite Hr].
    cbn [chars] in E. destruct (chars r) as [|[|z u] ds]; simplify_eq; try done.
    destruct (is_cont z); by simplify_eq.
  - apply Forall_cons in Ht as [Hc Ht].
    change (String b (String c t) +:+ r) with (String b (String c t +:+ r)).
    cbn [chars]. rewrite (IH c Ht). by rewrite Hc.
Qed.

Lemma chars_encodes cs s : encodes cs s → chars s = cs.
Proof.
  intros [Hcs ->]. induction Hcs as [|c cs Hc Hcs IH]; [done|].
  destruct c as [|b t]; [done|]. destruct Hc as [Hb Ht]. cbn [str_concat].
  rewrite chars_char; [by rewrite IH|done|done|]. intros x u Hx.
  destruct Hcs as [|[|y v] cs Hy _]; [done|done|]. simpl in Hx. injection Hx as <- _. apply Hy.
Qed.

(** ** Occurrences *)

(** The pattern stands at byte [i] of the text. *)
Definition occurs (s p : string) (i : nat) : Prop :=
  (i ≤ String.length s)%nat ∧ String.prefix p (str_drop i s) = true.

Lemma str_drop_drop (s : string) i j : str_drop i (str_drop j s) = str_drop (j + i) s.
Proof.
  revert s. induction j as [|j IH]; intros s; [done|].
  destruct s as [|c s]; [by destruct i|]. cbn. apply IH.
Qed.

Lemma contains_occurs s p : contains s p = true ↔ ∃ i, occurs s p i.
Proof.
  rewrite contains_spec. split.
  - intros (a & b & ->). exists (String.length a). unfold occurs.
    rewrite str_app_length, str_drop_app_exact. split; [lia|]. apply prefix_app.
  - intros (i & _ & [t Ht]%prefix_spec). exists (str_take i s), t. by rewrite <- Ht, str_take_drop.
Qed.

Lemma find_str_Some s p i :
  find_str s p = Some i → occurs s p i ∧ ∀ j, (j < i)%nat → ¬ occurs s p j.
Proof.
  revert i. induction s as [|c s IH]; intros i; cbn [find_str].
  - destruct (String.prefix p "") eqn:E; [|done]. intros [= <-]. split; [by split|lia].
  - destruct (String.prefix p (String c s)) eqn:E.
    { intros [= <-]. split; [split; [simpl; lia|done]|lia]. }
    intros (k & Hk & ->)%fmap_Some. destruct (IH _ Hk) as [[Hle Hp] Hmin].
    split; [split; [simpl; lia|done]|]. intros [|j] Hj [Hl Hpj].
    + cbn [str_drop] in Hpj. congruence.
    + apply (Hmin j); [lia|]. split; [simpl in Hl; lia|done].
Qed.

Lemma find_str_None s p : find_str s p = None → ∀ j, ¬ occurs s p j.
Proof.
  induction s as [|c s IH]; cbn [find_str].
  - destruct (String.prefix p "") eqn:E; [done|]. intros _ j [Hj Hp]. simpl in Hj.
    assert (j = 0%nat) as -> by lia. cbn [str_drop] in Hp. congruence.
  - destruct (String.prefix p (String c s)) eqn:E; [done|].
    intros Hn%fmap_None [|j] [Hj Hp]; [cbn [str_drop] in Hp; congruence|].
    apply (IH Hn j). split; [simpl in Hj; lia|done].
Qed.

Lemma occurs_drop s p from j :
  (from ≤ String.length s)%nat → occurs (str_drop from s) p j ↔ occurs s p (from + j).
Proof. intros Hf. unfold occurs. rewrite str_drop_drop, str_drop_length. intuition lia. Qed.

Lemma occurs_length s p i : occurs s p i → (i + String.length p ≤ String.length s)%nat.
Proof.
  intros [Hi [t Ht]%prefix_spec]. pose proof (f_equal String.length Ht) as Hl.
  rewrite str_drop_length, str_app_length in Hl. lia.
Qed.

(** ** A concrete serializer *)

(** Values as numbers, numbers as binary digits: what the examples use for the
    formats that are parameters elsewhere. *)
Module Digits.

Fixpoint digits (p : positive) : string :=
  match p with
  | xH => ""
  | xO p => String (Ascii.ascii_of_nat 48) (digits p)
  | xI p => String (Ascii.ascii_of_nat 49) (digits p)
  end.

Fixpoint number (s : string) : positive :=
  match s with
  | EmptyString => xH
  | String c s => if N.eqb (byte_val c) 48 then xO (number s) else xI (number s)
  end.

Definition to_json {A} `{Countable A} (a : A) : string := digits (encode a).
Definition from_json {A} `{Countable A} (s : string) : option A := decode (number s).

Lemma number_digits p : number (digits p) = p.
Proof. induction p as [p IH|p IH|]; cbn; by rewrite ?IH. Qed.

Lemma round_trip {A} `{Countable A} (a : A) : from_json (to_json a) = Some a.
Proof. unfold from_json, to_json. rewrite number_digits. apply decode_encode. Qed.
End Digits.
