(* ===== verification/Lines.v ===== *)
(** Lines, words and numbers in a text: what the code uses of the standard
    library's [str] and integers beyond [Text]. *)

From S2P Require Import Prelude Text.

(** ** Words *)

(** [str::split_whitespace]. *)
Fixpoint split_whitespace_chars (cs : list string) (current : string) : list string :=
  match cs with
  | [] => if str_is_empty current then [] else [current]
  | c :: cs =>
    if is_whitespace c
    then if str_is_empty current then split_whitespace_chars cs ""
         else current :: split_whitespace_chars cs ""
    else split_whitespace_chars cs (current +:+ c)
  end.

Definition split_whitespace (s : string) : list string := split_whitespace_chars (chars s) "".

(** ** Single bytes *)

Definition lf : Ascii.ascii := Ascii.ascii_of_nat 10.
Definition cr : Ascii.ascii := Ascii.ascii_of_nat 13.

(** [trim_start_matches] and [trim_end_matches] of a character of one byte. *)
Fixpoint trim_start_byte (b : Ascii.ascii) (s : string) : string :=
  match s with
  | String c s' => if Ascii.eqb c b then trim_start_byte b s' else s
  | EmptyString => ""
  end.

Fixpoint trim_end_byte (b : Ascii.ascii) (s : string) : string :=
  match s with
  | EmptyString => ""
  | String c s' =>
    match trim_end_byte b s' with
    | EmptyString => if Ascii.eqb c b then "" else String c ""
    | t => String c t
    end
  end.

(** [s.split_once(b)]. *)
Fixpoint split_once (b : Ascii.ascii) (s : string) : option (string * string) :=
  match s with
  | EmptyString => None
  | String c s' =>
    if Ascii.eqb c b then Some ("", s')
    else '(x, y) ← split_once b s'; Some (String c x, y)
  end.

(** ** Lines *)

(** [str::split_inclusive] at line feeds. *)
Fixpoint lines_inclusive (s : string) : list string :=
  match s with
  | EmptyString => []
  | String c s' =>
    if Ascii.eqb c lf then String c "" :: lines_inclusive s'
    else match lines_inclusive s' with
         | l :: ls => String c l :: ls
         | [] => [String c ""]
         end
  end.

Definition strip_line_end (line : string) : string :=
  match strip_suffix line newline with
  | Some line => default line (strip_suffix line (String cr ""))
  | None => line
  end.

(** [str::lines]. *)
Definition lines (s : string) : list string := map strip_line_end (lines_inclusive s).

(** ** Numbers *)

Definition digit (c : Ascii.ascii) : option N :=
  let n := byte_val c in if N.leb 48 n && N.leb n 57 then Some (n - 48)%N else None.

Fixpoint parse_digits (acc : N) (s : string) : option N :=
  match s with
  | EmptyString => Some acc
  | String c s' => d ← digit c; parse_digits (acc * 10 + d)%N s'
  end.

(** [str::parse::<usize>]: digits after an optional sign, in range. *)
Definition parse_usize (s : string) : option Z :=
  let body := match s with String c s' => if Ascii.eqb c (Ascii.ascii_of_nat 43) then s' else s | "" => "" end in
  if str_is_empty body then None
  else n ← parse_digits 0 body; if Z.of_N n <=? u64_max then Some (Z.of_N n) else None.

(** ** Facts *)

Fixpoint all_bytes (f : Ascii.ascii → bool) (s : string) : bool :=
  match s with
  | EmptyString => true
  | String c s' => f c && all_bytes f s'
  end.

Definition no_byte (b : Ascii.ascii) : string → bool := all_bytes (λ c, negb (Ascii.eqb c b)).

Lemma all_bytes_app f s t : all_bytes f (s +:+ t) = all_bytes f s && all_bytes f t.
Proof. induction s as [|c s IH]; [done|]. cbn. by rewrite IH, andb_assoc. Qed.

Lemma lines_inclusive_concat s : str_concat (lines_inclusive s) = s.
Proof.
  induction s as [|c s IH]; [done|]. cbn [lines_inclusive].
  destruct (Ascii.eqb c lf); [cbn; by rewrite IH|].
  destruct (lines_inclusive s); cbn in *; by rewrite <- IH.
Qed.

Lemma lines_inclusive_app l s :
  no_byte lf l = true → lines_inclusive (l +:+ newline +:+ s) = (l +:+ newline) :: lines_inclusive s.
Proof.
  induction l as [|c l IH]; [done|]. cbn [no_byte all_bytes]. intros [Hc Hl]%andb_prop.
  change (String c l +:+ newline +:+ s) with (String c (l +:+ newline +:+ s)). cbn [lines_inclusive].
  apply negb_true_iff in Hc. rewrite Hc, IH by done. done.
Qed.

Lemma lines_inclusive_last l : no_byte lf l = true → l ≠ "" → lines_inclusive l = [l].
Proof.
  induction l as [|c l IH]; [done|]. cbn [no_byte all_bytes lines_inclusive]. intros [Hc Hl]%andb_prop _.
  apply negb_true_iff in Hc. rewrite Hc. destruct l as [|d l]; [done|]. by rewrite IH.
Qed.

(** Complete lines, and a last one that may lack its line feed. *)
Definition unlines (ls : list string) (last : string) : string :=
  str_concat (map (λ l, l +:+ newline) ls) +:+ last.

Lemma lines_inclusive_unlines ls last :
  Forall (λ l, no_byte lf l = true) ls → no_byte lf last = true →
  lines_inclusive (unlines ls last) =
    map (λ l, l +:+ newline) ls ++ (if str_is_empty last then [] else [last]).
Proof.
  intros Hls Hlast. unfold unlines. induction Hls as [|l ls Hl _ IH].
  - cbn. destruct last as [|c last]; [done|]. by apply lines_inclusive_last.
  - cbn [map str_concat]. rewrite !str_app_assoc, lines_inclusive_app by done. cbn [app].
    by rewrite <- IH.
Qed.

Lemma strip_line_end_lf l :
  strip_line_end (l +:+ newline) = default l (strip_suffix l (String cr "")).
Proof. unfold strip_line_end. by rewrite (proj2 (strip_suffix_Some _ _ l) eq_refl). Qed.

Lemma trim_end_byte_app b s : trim_end_byte b (s +:+ String b "") = trim_end_byte b s.
Proof.
  induction s as [|c s IH]; [cbn; by rewrite Ascii.eqb_refl|].
  change (String c s +:+ String b "") with (String c (s +:+ String b "")). cbn [trim_end_byte].
  by rewrite IH.
Qed.

Lemma trim_end_byte_none b s : (∀ t, s ≠ t +:+ String b "") → trim_end_byte b s = s.
Proof.
  induction s as [|c s IH]; intros Hs; [done|]. cbn [trim_end_byte]. rewrite IH.
  - destruct s; [|done]. destruct (Ascii.eqb_spec c b) as [->|]; [|done]. by destruct (Hs "").
  - intros t ->. by destruct (Hs (String c t)).
Qed.

Lemma str_drop_app_le (a b : string) n :
  (n ≤ String.length a)%nat → str_drop n (a +:+ b) = str_drop n a +:+ b.
Proof.
  revert n. induction a as [|c a IH]; intros [|n] Hn; simpl in *; try done; try lia. apply IH. lia.
Qed.

(** *** Printed numbers are read back *)

Lemma digit_char (d : N) : (d < 10)%N → digit (pretty_N_char d) = Some d.
Proof.
  intros Hd. assert (d = 0 ∨ d = 1 ∨ d = 2 ∨ d = 3 ∨ d = 4 ∨ d = 5 ∨ d = 6 ∨ d = 7 ∨ d = 8 ∨ d = 9)%N
    as Hc by lia. by destruct_or! Hc; subst.
Qed.

Lemma parse_pretty_go x : ∀ s, parse_digits 0 (pretty_N_go x s) = parse_digits x s.
Proof.
  induction (N.lt_wf_0 x) as [x _ IH]. intros s.
  destruct (decide (x = 0%N)) as [->|Hx]; [by rewrite pretty_N_go_0|].
  rewrite pretty_N_go_step by lia. rewrite IH by (apply N.div_lt; lia). cbn [parse_digits].
  rewrite digit_char by (apply N.mod_lt; lia). cbn. f_equal.
  pose proof (N.div_mod x 10). lia.
Qed.

Lemma pretty_go_head x : ∀ s, (0 < x)%N →
  ∃ d t, pretty_N_go x s = String (pretty_N_char d) t ∧ (d < 10)%N.
Proof.
  induction (N.lt_wf_0 x) as [x _ IH]. intros s Hx. rewrite pretty_N_go_step by done.
  destruct (decide (x / 10 = 0)%N) as [->|Hd].
  - rewrite pretty_N_go_0. eexists _, _. split; [done|]. apply N.mod_lt. lia.
  - apply IH; [apply N.div_lt; lia|by apply N.neq_0_lt_0].
Qed.

Lemma fmt_Z_pos n : 0 < n → fmt_Z n = pretty_N_go (Z.to_N n) "".
Proof. intros Hn. by destruct n as [|p|p]. Qed.

Lemma digit_plain (d : N) : (d < 10)%N → ∀ b, digit b = None → Ascii.eqb (pretty_N_char d) b = false.
Proof.
  intros Hd b Hb. destruct (Ascii.eqb_spec (pretty_N_char d) b) as [<-|]; [|done].
  by rewrite digit_char in Hb.
Qed.

Lemma parse_usize_fmt n : 0 < n ≤ u64_max → parse_usize (fmt_Z n) = Some n.
Proof.
  intros [Hn Hmax]. rewrite fmt_Z_pos by done. unfold parse_usize.
  destruct (pretty_go_head (Z.to_N n) "") as (d & t & Ht & Hd); [lia|]. rewrite Ht.
  rewrite (digit_plain d Hd) by done. cbn [str_is_empty]. rewrite <- Ht, parse_pretty_go. cbn.
  rewrite Z2N.id by lia. by rewrite (proj2 (Z.leb_le _ _) Hmax).
Qed.

(** A number is written with digits alone. *)
Lemma all_bytes_fmt f n :
  0 ≤ n → (∀ d, (d < 10)%N → f (pretty_N_char d) = true) → all_bytes f (fmt_Z n) = true.
Proof.
  intros Hn Hf. destruct (decide (n = 0)) as [->|Hn0]; [exact (f_equal (λ b, b && true) (Hf 0%N eq_refl))|].
  assert (0 < n) as Hp by lia. clear Hn Hn0. rewrite fmt_Z_pos by done. generalize (Z.to_N n) as x. clear n Hp.
  assert (∀ x s, all_bytes f s = true → all_bytes f (pretty_N_go x s) = true) as H;
    [|intros x; by apply H].
  intros x. induction (N.lt_wf_0 x) as [x _ IH]. intros s Hs.
  destruct (decide (x = 0%N)) as [->|Hx]; [by rewrite pretty_N_go_0|].
  rewrite pretty_N_go_step by lia. apply IH; [apply N.div_lt; lia|]. cbn [all_bytes].
  rewrite Hf by (apply N.mod_lt; lia). done.
Qed.

(** *** Lines of a text made of lines *)

(** A line that is its own content: no line feed in it, no carriage return at
    its end. *)
Definition is_line (l : string) : bool := no_byte lf l && negb (ends_with l (String cr "")).

Lemma is_line_spec l :
  is_line l = true ↔ no_byte lf l = true ∧ ∀ t, l ≠ t +:+ String cr "".
Proof.
  unfold is_line. rewrite andb_true_iff, negb_true_iff, <- not_true_iff_false, ends_with_spec. naive_solver.
Qed.

Lemma snoc_byte_inj a b x y : a +:+ String x "" = b +:+ String y "" → x = y.
Proof.
  revert b. induction a as [|c a IH]; intros [|d b]; cbn.
  - by intros [= ->].
  - intros [= _ H]. by destruct b.
  - intros [= _ H]. by destruct a.
  - intros [= _ H]. by apply IH in H.
Qed.

Lemma last_byte s : s ≠ "" → ∃ t c, s = t +:+ String c "".
Proof.
  induction s as [|c s IH]; [done|]. intros _. destruct s as [|d s]; [by exists "", c|].
  destruct IH as (t & x & ->); [done|]. by exists (String c t), x.
Qed.

Lemma is_line_app t s : no_byte lf t = true → s ≠ "" → is_line s = true → is_line (t +:+ s) = true.
Proof.
  rewrite !is_line_spec. intros Ht Hs [Hlf Hcr]. split.
  { unfold no_byte in *. by rewrite all_bytes_app, Ht, Hlf. }
  destruct (last_byte s Hs) as (s' & c & ->). intros u. rewrite <- str_app_assoc.
  intros H%snoc_byte_inj. subst. by destruct (Hcr s').
Qed.

Lemma lines_unlines ls : Forall (λ l, is_line l = true) ls → lines (unlines ls "") = ls.
Proof.
  intros Hls. unfold lines. rewrite lines_inclusive_unlines; [|eapply Forall_impl, is_line_spec; done|done].
  cbn. rewrite app_nil_r, map_map. induction Hls as [|l ls [_ Hl]%is_line_spec _ IH]; [done|].
  cbn [map]. rewrite IH, strip_line_end_lf. f_equal.
  destruct (strip_suffix l (String cr "")) as [t|] eqn:Ht; [|done].
  apply strip_suffix_Some in Ht. by destruct (Hl t).
Qed.

Lemma trim_line l :
  is_line l = true → trim_end_byte cr (trim_end_byte lf (l +:+ newline)) = l.
Proof.
  intros [Hlf Hcr]%is_line_spec. unfold newline. fold lf. rewrite trim_end_byte_app.
  rewrite (trim_end_byte_none lf); [by apply trim_end_byte_none|]. intros t ->.
  unfold no_byte in Hlf. rewrite all_bytes_app in Hlf. cbn in Hlf. by rewrite andb_false_r in Hlf.
Qed.

(** *** The first word *)

Definition word_byte (c : Ascii.ascii) : bool := negb (is_cont c) && negb (is_whitespace (String c "")).

Lemma split_whitespace_word w r :
  w ≠ "" → all_bytes word_byte w = true → (∀ c s, r = String c s → is_cont c = false) →
  ∃ l, split_whitespace (w +:+ " " +:+ r) = w :: l.
Proof.
  intros Hw Hbytes Hr. unfold split_whitespace.
  assert (∀ cur, cur +:+ w ≠ "" →
    ∃ l, split_whitespace_chars (chars (w +:+ " " +:+ r)) cur = (cur +:+ w) :: l) as H.
  { clear Hw. induction w as [|c w IH]; intros cur Hcur.
    - change ("" +:+ " " +:+ r) with (" " +:+ r). rewrite (chars_char _ "" r) by done. cbn [split_whitespace_chars].
      rewrite str_app_nil_r in *. replace (str_is_empty cur) with false by by destruct cur. by eexists.
    - cbn [all_bytes] in Hbytes. apply andb_prop in Hbytes as [Hc Hbytes].
      unfold word_byte in Hc. apply andb_prop in Hc as [Hcont Hspace].
      apply negb_true_iff in Hcont. apply negb_true_iff in Hspace.
      change (String c w +:+ " " +:+ r) with (String c "" +:+ (w +:+ " " +:+ r)).
      rewrite chars_char; [|done|done|].
      + cbn [split_whitespace_chars]. rewrite Hspace.
        destruct (IH Hbytes (cur +:+ String c "")) as [l Hl].
        { by destruct cur. }
        rewrite Hl, str_app_assoc. by exists l.
      + intros c' s'. destruct w as [|d w]; cbn; intros [= <- _]; [done|].
        cbn in Hbytes. apply andb_prop in Hbytes as [Hd _]. unfold word_byte in Hd.
        apply andb_prop in Hd as [Hd _]. by apply negb_true_iff. }
  by apply H.
Qed.
