(* ===== verification/Errors.v ===== *)
(** Errors: the provider error classes of src/src/error.rs, the pattern
    classifier of src/src/providers/error_classifier.rs and the HTTP status
    mapping of src/src/providers/mod.rs. *)

From S2P Require Import Prelude.

(** ** Data *)

Inductive ProviderError : Type :=
| Auth (msg : string)
| RateLimit (msg : string)
| Billing (msg : string)
| ServerError (msg : string)
| InvalidRequest (msg : string)
| ModelNotFound (msg : string)
| Timeout (msg : string)
| Unknown (msg : string)
| Overloaded (msg : string)
| Format (msg : string)
| ContextOverflow (msg : string).

(** Errors of the standard library and of third-party crates are kept as the
    text they display. *)
Inductive ZeptoError : Type :=
| Config (msg : string)
| Provider (msg : string)
| ProviderTyped (pe : ProviderError)
| Channel (msg : string)
| Tool (msg : string)
| Session (msg : string)
| Io (msg : string)
| Json (msg : string)
| Http (msg : string)
| BusClosed
| NotFound (msg : string)
| Unauthorized (msg : string)
| SecurityViolation (msg : string)
| Safety (msg : string)
| Mcp (msg : string)
| QuotaExceeded (msg : string)
| QuotaRejected (msg : string).

#[export] Instance ProviderError_eq_dec : EqDecision ProviderError.
Proof. solve_decision. Defined.
#[export] Instance ZeptoError_eq_dec : EqDecision ZeptoError.
Proof. solve_decision. Defined.

(** [Display for ProviderError]. *)
Definition ProviderError_display (e : ProviderError) : string :=
  match e with
  | Auth msg => "Authentication error: " +:+ msg
  | RateLimit msg => "Rate limit error: " +:+ msg
  | Billing msg => "Billing error: " +:+ msg
  | ServerError msg => "Server error: " +:+ msg
  | InvalidRequest msg => "Invalid request: " +:+ msg
  | ModelNotFound msg => "Model not found: " +:+ msg
  | Timeout msg => "Timeout: " +:+ msg
  | Unknown msg => "Unknown provider error: " +:+ msg
  | Overloaded msg => "Overloaded error: " +:+ msg
  | Format msg => "Format error: " +:+ msg
  | ContextOverflow msg => "Context overflow: " +:+ msg
  end.

(** The [#[error("...")]] attributes of [ZeptoError]. *)
Definition ZeptoError_display (e : ZeptoError) : string :=
  match e with
  | Config msg => "Configuration error: " +:+ msg
  | Provider msg => "Provider error: " +:+ msg
  | ProviderTyped pe => "Provider error: " +:+ ProviderError_display pe
  | Channel msg => "Channel error: " +:+ msg
  | Tool msg => "Tool error: " +:+ msg
  | Session msg => "Session error: " +:+ msg
  | Io msg => "IO error: " +:+ msg
  | Json msg => "JSON error: " +:+ msg
  | Http msg => "HTTP error: " +:+ msg
  | BusClosed => "Bus error: channel closed"
  | NotFound msg => "Not found: " +:+ msg
  | Unauthorized msg => "Unauthorized: " +:+ msg
  | SecurityViolation msg => "Security violation: " +:+ msg
  | Safety msg => "Safety violation: " +:+ msg
  | Mcp msg => "MCP error: " +:+ msg
  | QuotaExceeded msg => "Quota exceeded: " +:+ msg
  | QuotaRejected msg => "Quota rejected: " +:+ msg
  end.

(** [ProviderError::is_retryable]. *)
Definition is_retryable (e : ProviderError) : bool :=
  match e with
  | RateLimit _ | ServerError _ | Timeout _ | Overloaded _ => true
  | _ => false
  end.

(** [ProviderError::should_fallback]. *)
Definition should_fallback (e : ProviderError) : bool :=
  negb match e with
       | Auth _ | InvalidRequest _ | Billing _ | Format _ | ContextOverflow _ => true
       | _ => false
       end.

(** [ProviderError::status_code]. *)
Definition status_code (e : ProviderError) : option Z :=
  match e with
  | Auth _ => Some 401
  | RateLimit _ => Some 429
  | Billing _ => Some 402
  | ServerError _ => Some 500
  | InvalidRequest _ => Some 400
  | ModelNotFound _ => Some 404
  | Timeout _ => None
  | Overloaded _ => Some 503
  | Format _ => Some 400
  | ContextOverflow _ => Some 400
  | Unknown _ => None
  end.

(** ** The classifier *)

Definition contains_any (haystack : string) (patterns : list string) : bool :=
  any (λ p, contains haystack p) patterns.

Definition billing_patterns : list string :=
  [ "402"; "payment required"; "insufficient credits"; "credit balance";
    "plans & billing"; "insufficient balance"; "billing" ].

Definition auth_patterns : list string :=
  [ "invalid_api_key"; "invalid api key"; "incorrect api key"; "invalid token";
    "authentication"; "re-authenticate"; "oauth token refresh failed";
    "unauthorized"; "forbidden"; "access denied"; "expired"; "token has expired";
    "401"; "403"; "no credentials found"; "no api key found" ].

Definition rate_limit_patterns : list string :=
  [ "rate_limit"; "rate limit"; "too many requests"; "429";
    "exceeded your current quota"; "resource has been exhausted";
    "resource_exhausted"; "quota exceeded"; "usage limit" ].

Definition overloaded_patterns : list string :=
  [ "overloaded_error";
    dquote +:+ "type" +:+ dquote +:+ ":" +:+ dquote +:+ "overloaded_error" +:+ dquote;
    "overloaded" ].

Definition timeout_patterns : list string :=
  [ "timeout"; "timed out"; "deadline exceeded"; "context deadline exceeded" ].

Definition context_overflow_patterns : list string :=
  [ "context_length_exceeded"; "context length exceeded"; "context window exceeded";
    "prompt is too long"; "maximum context length"; "too many tokens";
    "request too large"; "token limit exceeded"; "input is too long";
    "exceeds the model" ].

Definition format_patterns : list string :=
  [ "string should match pattern"; "tool_use.id"; "tool_use_id";
    "messages.1.content.1.tool_use.id"; "invalid request format" ].

Section classifier.
Context `{RustUnicode}.

Definition classify_error_message (msg : string) : ProviderError :=
  let lower := to_lowercase msg in
  if contains_any lower billing_patterns then Billing msg
  else if contains_any lower auth_patterns then Auth msg
  else if contains_any lower rate_limit_patterns then RateLimit msg
  else if contains_any lower overloaded_patterns then Overloaded msg
  else if contains_any lower timeout_patterns then Timeout msg
  else if contains_any lower context_overflow_patterns then ContextOverflow msg
  else if contains_any lower format_patterns then Format msg
  else Unknown msg.

(** [parse_provider_error]; [status] is a [u16]. *)
Definition parse_provider_error (status : Z) (body : string) : ProviderError :=
  if status =? 401 then Auth body
  else if status =? 402 then Billing body
  else if status =? 404 then ModelNotFound body
  else if status =? 429 then RateLimit body
  else if status =? 400 then
    let classified := classify_error_message body in
    match classified with
    | Format _ | ContextOverflow _ => classified
    | _ => InvalidRequest body
    end
  else if (500 <=? status) && (status <=? 599) then
    let classified := classify_error_message body in
    match classified with
    | Overloaded _ => classified
    | _ => ServerError body
    end
  else
    let msg := "HTTP " +:+ fmt_Z status +:+ ": " +:+ body in
    classify_error_message msg.
End classifier.

(** ** What the classification promises *)

Lemma contains_any_true h ps :
  contains_any h ps = true ↔ ∃ p, p ∈ ps ∧ contains h p = true.
Proof. apply any_true. Qed.

Lemma retryable_falls_back e : is_retryable e = true → should_fallback e = true.
Proof. by destruct e. Qed.

Section theorems.
Context `{RustUnicode}.

(** What a message is classified as: the payload is the message itself, and no
    class the patterns do not name comes out. *)
Lemma classify_cases msg :
  classify_error_message msg ∈
    [Billing msg; Auth msg; RateLimit msg; Overloaded msg; Timeout msg;
     ContextOverflow msg; Format msg; Unknown msg].
Proof. unfold classify_error_message. cases; set_solver. Qed.

Lemma classify_auth_or_billing msg p :
  p ∈ auth_patterns → contains (to_lowercase msg) p = true →
  classify_error_message msg = Billing msg ∨ classify_error_message msg = Auth msg.
Proof.
  intros Hp Hc. unfold classify_error_message.
  destruct (contains_any _ billing_patterns); [by left|].
  replace (contains_any (to_lowercase msg) auth_patterns) with true; [by right|].
  symmetry. apply contains_any_true. eauto.
Qed.

(** how each HTTP status is treated by the retry layer and by the
    fallback layer, whatever the body says. Client errors that every provider
    would repeat (400, 401, 402, 403) are neither retried nor sent to the
    fallback; a missing model (404) is not retried but does fall back; rate
    limits and every 5xx are retried and fall back; and nothing is ever
    retried that would not also fall back. *)
Theorem http_status_policy status body :
  let e := parse_provider_error status body in
  (status ∈ [400; 401; 402; 403] → is_retryable e = false ∧ should_fallback e = false) ∧
  (status = 404 → is_retryable e = false ∧ should_fallback e = true) ∧
  (status = 429 ∨ 500 ≤ status ≤ 599 → is_retryable e = true ∧ should_fallback e = true) ∧
  (is_retryable e = true → should_fallback e = true).
Proof.
  cbn zeta. split_and!; [| | |apply retryable_falls_back].
  - intros Hs. repeat (apply elem_of_cons in Hs as [->|Hs]); [..|set_solver].
    + unfold parse_provider_error. simpl.
      pose proof (classify_cases body) as Hc.
      repeat (apply elem_of_cons in Hc as [->|Hc]); [..|set_solver]; done.
    + done.
    + done.
    + change (parse_provider_error 403 body)
        with (classify_error_message ("HTTP 403: " +:+ body)).
      destruct (to_lowercase_prefix "HTTP 403: " body eq_refl) as [r Hr].
      destruct (classify_auth_or_billing ("HTTP 403: " +:+ body) "403")
        as [-> | ->]; [|rewrite Hr|done..].
      * unfold auth_patterns. set_solver.
      * apply contains_spec. by exists "http ", (": " +:+ r).
  - by intros ->.
  - intros [->|Hs]; [done|]. unfold parse_provider_error.
    repeat (case_match; [lia|]). case_match; [|lia].
    pose proof (classify_cases body) as Hc.
    repeat (apply elem_of_cons in Hc as [->|Hc]); [..|set_solver]; done.
Qed.
End theorems.
