(* ===== verification/Cooldown.v ===== *)
(** Per-reason provider cooldowns: src/src/providers/cooldown.rs.

    Instants are nanoseconds since an arbitrary origin; a function that reads
    the clock takes the instants it reads, in the order it reads them. *)

From S2P Require Import Prelude Errors.

Definition ns_per_sec : Z := 1000000000.

Module FailoverReason.

Inductive t : Type :=
| RateLimit | Overloaded | Timeout | Auth | Billing | Format | Unknown.

#[global] Instance t_eq_dec : EqDecision t.
Proof. solve_decision. Defined.

Definition from_provider_error (err : ProviderError) : t :=
  match err with
  | Errors.RateLimit _ => RateLimit
  | Errors.Overloaded _ => Overloaded
  | Errors.Timeout _ => Timeout
  | Errors.Auth _ => Auth
  | Errors.Billing _ => Billing
  | Errors.Format _ | Errors.InvalidRequest _ => Format
  | _ => Unknown
  end.

(** In seconds. The products of the [Overloaded] and [Timeout] arms are not
    saturating. *)
Definition cooldown_duration (self : t) (consecutive : Z) : Z :=
  match self with
  | Billing =>
    let hours := sat_pow64 2 (sat_sub consecutive 1) in
    wmul64 (Z.min hours 24) 3600
  | RateLimit =>
    let mins := sat_pow64 2 (sat_sub consecutive 1) in
    wmul64 (Z.min mins 30) 60
  | Overloaded =>
    let secs := wmul64 30 (sat_pow64 2 (sat_sub consecutive 1)) in
    Z.min secs 300
  | Timeout =>
    let secs := wmul64 15 (sat_pow64 2 (sat_sub consecutive 1)) in
    Z.min secs 120
  | Auth | Format => 300
  | Unknown => 60
  end.

(** The documented schedule: doubling from [base] up to [cap]. *)
Definition base (r : t) : Z :=
  match r with
  | Billing => 3600 | RateLimit => 60 | Overloaded => 30 | Timeout => 15
  | Auth | Format => 300 | Unknown => 60
  end.
Definition cap (r : t) : Z :=
  match r with
  | Billing => 24 * 3600 | RateLimit => 30 * 60 | Overloaded => 300
  | Timeout => 120 | Auth | Format => 300 | Unknown => 60
  end.
Definition documented (r : t) (consecutive : Z) : Z :=
  Z.min (cap r) (base r * 2 ^ (consecutive - 1)).

Definition all : list t := [RateLimit; Overloaded; Timeout; Auth; Billing; Format; Unknown].

Lemma documented_small (n : nat) r :
  (n < 64)%nat → (r, S n) ≠ (Overloaded, 64%nat) →
  cooldown_duration r (Z.of_nat (S n)) = documented r (Z.of_nat (S n)).
Proof.
  intros Hn Hne.
  assert (Forall (λ n, Forall (λ r, (r, S n) ≠ (Overloaded, 64%nat) →
    cooldown_duration r (Z.of_nat (S n)) = documented r (Z.of_nat (S n))) all)
    (seq 0 64)) as Hall.
  { repeat constructor; intros; try by_compute. exfalso; eauto. }
  rewrite Forall_forall in Hall. specialize (Hall n).
  rewrite elem_of_seq in Hall. specialize (Hall ltac:(lia)).
  rewrite Forall_forall in Hall. apply Hall; [|done].
  unfold all. destruct r; set_solver.
Qed.

Lemma documented_large r n :
  65 ≤ n → cooldown_duration r n = documented r n.
Proof.
  intros Hn. assert (2 ^ 64 ≤ 2 ^ (n - 1)) by (apply pow2_le_mono; lia).
  unfold cooldown_duration, documented.
  assert (sat_sub n 1 = n - 1) as -> by (unfold sat_sub; lia).
  rewrite sat_pow64_two_large by lia.
  rewrite (Z.min_l (cap r)); [by destruct r|].
  destruct r; cbn [base cap]; lia.
Qed.

Lemma cooldown_documented r n :
  1 ≤ n → (r, n) ≠ (Overloaded, 64) → cooldown_duration r n = documented r n.
Proof.
  intros Hn Hne. destruct (decide (n < 65)); [|apply documented_large; lia].
  replace n with (Z.of_nat (S (Z.to_nat (n - 1)))) in * by lia.
  apply documented_small; [lia|]. intros [= -> ?]. apply Hne. f_equal. lia.
Qed.

Lemma documented_mono r k n : 1 ≤ k ≤ n → documented r k ≤ documented r n.
Proof.
  intros Hk. assert (2 ^ (k - 1) ≤ 2 ^ (n - 1)) by (apply pow2_le_mono; lia).
  unfold documented. destruct r; cbn [cap base]; lia.
Qed.

(** the cooldown for the n-th consecutive failure is the documented one,
    doubling from the base of the reason up to its cap, for every reason and
    every 32-bit count from 1 up, with one exception: the 64th consecutive
    overload, for which the unsaturated product wraps to no cooldown at all. *)
Theorem cooldown_schedule r n :
  1 ≤ n < u32_mod →
  cooldown_duration r n =
    if decide (r = Overloaded ∧ n = 64) then 0 else documented r n.
Proof.
  intros Hn. case_decide as Hd; [by destruct Hd as [-> ->]|].
  apply cooldown_documented; [lia|]. intros [= -> ->]. by apply Hd.
Qed.

Lemma cooldown_schedule_witness : cooldown_duration Overloaded 64 = 0.
Proof.
  rewrite (cooldown_schedule Overloaded 64); [reflexivity|].
  split; [discriminate|reflexivity].
Defined.
End FailoverReason.

(** ** The tracker *)

Record CooldownEntry : Type := mkCooldownEntry {
  consecutive : Z;
  cooldown_end : option Z;
  last_failure : option Z;
  billing_disabled_until : option Z;
}.

Module CooldownEntry.

Definition new : CooldownEntry :=
  {| consecutive := 0; cooldown_end := None; last_failure := None;
     billing_disabled_until := None |}.

Definition is_in_cooldown (self : CooldownEntry) (now : Z) : bool :=
  if match billing_disabled_until self with
     | Some billing => now <? billing
     | None => false
     end then true
  else match cooldown_end self with
       | Some end_ => now <? end_
       | None => false
       end.

(** [last.elapsed()] is the time since [last] at the instant [now], zero when
    the clock is behind it. *)
Definition reset_if_stale (self : CooldownEntry) (now : Z) : CooldownEntry :=
  match last_failure self with
  | Some last =>
    if 86400 * ns_per_sec <? sat_sub now last
    then {| consecutive := 0; cooldown_end := None;
            last_failure := last_failure self; billing_disabled_until := None |}
    else self
  | None => self
  end.
End CooldownEntry.

(** [CooldownTracker]: the map behind the lock. *)
Abbreviation CooldownTracker := (gmap string CooldownEntry).

Module CooldownTracker.

Definition new : CooldownTracker := ∅.

Definition is_in_cooldown (self : CooldownTracker) (provider : string) (now : Z) : bool :=
  match self !! provider with
  | Some e => CooldownEntry.is_in_cooldown e now
  | None => false
  end.

(** [t0], [t1] and [t2] are the instants of [elapsed], of [last_failure] and of
    the end of the cooldown. *)
Definition mark_failure (self : CooldownTracker) (provider : string)
    (reason : FailoverReason.t) (t0 t1 t2 : Z) : CooldownTracker :=
  let entry := default CooldownEntry.new (self !! provider) in
  let entry := CooldownEntry.reset_if_stale entry t0 in
  let n := wadd32 (consecutive entry) 1 in
  let duration := FailoverReason.cooldown_duration reason n * ns_per_sec in
  let entry' :=
    if decide (reason = FailoverReason.Billing)
    then {| consecutive := n; cooldown_end := cooldown_end entry;
            last_failure := Some t1;
            billing_disabled_until := Some (t2 + duration) |}
    else {| consecutive := n; cooldown_end := Some (t2 + duration);
            last_failure := Some t1;
            billing_disabled_until := billing_disabled_until entry |} in
  <[provider := entry']> self.

Definition mark_success (self : CooldownTracker) (provider : string) : CooldownTracker :=
  match self !! provider with
  | Some entry =>
    <[provider := {| consecutive := 0; cooldown_end := None;
                     last_failure := last_failure entry;
                     billing_disabled_until := None |}]> self
  | None => self
  end.

Definition before (d : option Z) (now : Z) : bool :=
  match d with Some t => now <? t | None => false end.

Lemma is_in_cooldown_mark_failure_ne self p q r t0 t1 t2 now :
  p ≠ q → is_in_cooldown (mark_failure self p r t0 t1 t2) q now = is_in_cooldown self q now.
Proof. intros Hne. unfold is_in_cooldown, mark_failure. by rewrite lookup_insert_ne. Qed.

Lemma is_in_cooldown_mark_failure_eq self p r t0 t1 t2 now :
  let e := CooldownEntry.reset_if_stale (default CooldownEntry.new (self !! p)) t0 in
  let until := t2 + FailoverReason.cooldown_duration r (wadd32 (consecutive e) 1)
                    * ns_per_sec in
  is_in_cooldown (mark_failure self p r t0 t1 t2) p now =
    (now <? until) ||
    before (if decide (r = FailoverReason.Billing) then cooldown_end e
            else billing_disabled_until e) now.
Proof.
  cbn zeta. unfold is_in_cooldown, mark_failure. rewrite lookup_insert_eq.
  unfold CooldownEntry.is_in_cooldown, before.
  case_decide; cbn -[Z.add Z.mul FailoverReason.cooldown_duration];
    repeat case_match; simplify_eq; by rewrite ?orb_true_r, ?orb_false_r.
Qed.

(** A success clears the cooldown of its provider and of no other. *)
Lemma is_in_cooldown_mark_success self p q now :
  is_in_cooldown (mark_success self p) q now =
    if decide (p = q) then false else is_in_cooldown self q now.
Proof.
  unfold mark_success, is_in_cooldown. case_decide as Hpq.
  - subst q. destruct (self !! p) eqn:E; [by rewrite lookup_insert_eq|by rewrite E].
  - destruct (self !! p); [by rewrite lookup_insert_ne|done].
Qed.
#[export] Hint Rewrite is_in_cooldown_mark_success : cooldown.

(** The entry a tracker holds counts within 32 bits. *)
Definition wf (self : CooldownTracker) : Prop :=
  map_Forall (λ _ e, is_u32 (consecutive e)) self.

Lemma mark_failure_wf self p r t0 t1 t2 : wf self → wf (mark_failure self p r t0 t1 t2).
Proof.
  intros Hwf. apply map_Forall_insert_2; [|done].
  case_decide; simpl; apply wadd32_range.
Qed.

Lemma mark_success_wf self p : wf self → wf (mark_success self p).
Proof.
  intros Hwf. unfold mark_success. case_match; [|done].
  apply map_Forall_insert_2; [|done]. simpl. by split.
Qed.
End CooldownTracker.

(** ** Histories of the tracker *)

(** What the providers layer does to the tracker, with the instants it read. *)
Inductive CooldownEvent : Type :=
| Failed (provider : string) (reason : FailoverReason.t) (t0 t1 t2 : Z)
| Succeeded (provider : string).

Definition event_provider (ev : CooldownEvent) : string :=
  match ev with Failed p _ _ _ _ => p | Succeeded p => p end.

Definition apply_event (self : CooldownTracker) (ev : CooldownEvent) : CooldownTracker :=
  match ev with
  | Failed p r t0 t1 t2 => CooldownTracker.mark_failure self p r t0 t1 t2
  | Succeeded p => CooldownTracker.mark_success self p
  end.

Definition replay (evs : list CooldownEvent) : CooldownTracker :=
  foldl apply_event CooldownTracker.new evs.

Section histories.
Import CooldownTracker.

Lemma apply_event_lookup_ne self ev p :
  event_provider ev ≠ p → apply_event self ev !! p = self !! p.
Proof.
  destruct ev; simpl; intros Hne.
  - unfold mark_failure. by rewrite lookup_insert_ne.
  - unfold mark_success. case_match; [by rewrite lookup_insert_ne|done].
Qed.

Lemma apply_event_lookup_eq s1 s2 ev p :
  s1 !! p = s2 !! p → apply_event s1 ev !! p = apply_event s2 ev !! p.
Proof.
  intros Heq. destruct (decide (event_provider ev = p)) as [<-|Hne].
  - destruct ev; simpl in *.
    + unfold mark_failure. by rewrite Heq, !lookup_insert_eq.
    + unfold mark_success. rewrite Heq.
      destruct (s2 !! provider) eqn:E2; rewrite ?lookup_insert_eq; congruence.
  - by rewrite !apply_event_lookup_ne.
Qed.

Lemma foldl_lookup_filter evs p (s1 s2 : CooldownTracker) :
  s1 !! p = s2 !! p →
  foldl apply_event s1 evs !! p
  = foldl apply_event s2 (filter (λ ev, event_provider ev = p) evs) !! p.
Proof.
  revert s1 s2. induction evs as [|ev evs IH]; intros s1 s2 Heq; [done|].
  rewrite filter_cons. simpl. case_decide as Hp.
  - simpl. apply IH. by apply apply_event_lookup_eq.
  - apply IH. by rewrite apply_event_lookup_ne.
Qed.

(** after any history, whether a provider is cooling down depends on that
    provider's own events alone; its last success leaves no trace; and a
    failure puts it in cooldown from then until at least the end of the
    duration its reason and count ask for. *)
Theorem cooldown_histories evs p now :
  is_in_cooldown (replay evs) p now
    = is_in_cooldown (replay (filter (λ ev, event_provider ev = p) evs)) p now ∧
  is_in_cooldown (replay (evs ++ [Succeeded p])) p now = false ∧
  (∀ r t0 t1 t2,
     let e := CooldownEntry.reset_if_stale
                (default CooldownEntry.new (replay evs !! p)) t0 in
     now < t2 + FailoverReason.cooldown_duration r (wadd32 (consecutive e) 1) * ns_per_sec →
     is_in_cooldown (replay (evs ++ [Failed p r t0 t1 t2])) p now = true).
Proof.
  unfold replay. split_and!.
  - unfold is_in_cooldown. by rewrite (foldl_lookup_filter evs p new new).
  - rewrite foldl_snoc. simpl. rewrite is_in_cooldown_mark_success. by case_decide.
  - intros r t0 t1 t2 Hnow. rewrite foldl_snoc. simpl.
    rewrite is_in_cooldown_mark_failure_eq. apply orb_true_iff. left. lia.
Qed.
End histories.
