(* ===== verification/Provider.v ===== *)
(** The provider interface of src/src/providers/types.rs and the outside world
    its implementations run in: clocks, sleeping, the remote models. *)

From S2P Require Import Prelude Errors.

(** ** Effects *)

(** A computation that reads and changes the world [W]. *)
Definition M (W A : Type) : Type := W → A * W.

Definition ret {W A} (a : A) : M W A := λ w, (a, w).
Definition bind {W A B} (m : M W A) (f : A → M W B) : M W B :=
  λ w, let '(a, w1) := m w in f a w1.

Declare Scope effect_scope.
Delimit Scope effect_scope with M.
Notation "'let*' x := m 'in' k" := (bind m (λ x, k))
  (at level 200, x binder, m at level 100, k at level 200, right associativity)
  : effect_scope.
Notation "'do*' m 'in' k" := (bind m (λ _, k))
  (at level 200, m at level 100, k at level 200, right associativity) : effect_scope.
#[global] Open Scope effect_scope.

(** A step of a run: what the first computation gives, the rest goes on from. *)
Lemma bind_eq {W A B} (m : M W A) (f : A → M W B) w a w1 :
  m w = (a, w1) → bind m f w = f a w1.
Proof. intros H. unfold bind. by rewrite H. Qed.

(** What the providers ask of the operating system. [instant] is
    [Instant::now()] in nanoseconds, [epoch_secs] the seconds of
    [SystemTime::now()] since the epoch (zero before it), [subsec_nanos] the
    nanoseconds of the same clock ([None] before the epoch) and [sleep_ms]
    [tokio::time::sleep]. *)
Class World (W : Type) := {
  instant : M W Z;
  epoch_secs : M W Z;
  subsec_nanos : M W (option Z);
  sleep_ms : Z → M W unit;
}.

(** [start.elapsed().as_millis() as u64]. *)
Definition elapsed_ms {W} `{World W} (start : Z) : M W Z :=
  let* now := instant in ret (sat_sub now start `div` 1000000 mod u64_mod).

(** A provider adds its own state to the world its inner providers run in. *)
Definition lift_world {S W A} (m : M W A) : M (S * W) A :=
  λ '(s, w), let '(a, w1) := m w in (a, (s, w1)).

#[export] Instance stacked_world {S W} `{World W} : World (S * W) := {|
  instant := lift_world instant;
  epoch_secs := lift_world epoch_secs;
  subsec_nanos := lift_world subsec_nanos;
  sleep_ms := λ ms, lift_world (sleep_ms ms);
|}.

(** ** The trait *)

(** [LLMProvider]: the arguments other than the model (messages, tools,
    options) are a payload no decorator looks into, so they are a parameter;
    so are the two kinds of response. *)
Record LLMProvider (W Payload Response Receiver : Type) := mkLLMProvider {
  provider_name : string;
  default_model : string;
  chat : Payload → option string → M W (result ZeptoError Response);
  chat_stream : Payload → option string → M W (result ZeptoError Receiver);
}.
Arguments provider_name {W Payload Response Receiver} _.
Arguments default_model {W Payload Response Receiver} _.
Arguments chat {W Payload Response Receiver} _ _ _ _.
Arguments chat_stream {W Payload Response Receiver} _ _ _ _.

(** The same provider seen from a world with more state. *)
Definition lift_provider {S W P R V} (p : LLMProvider W P R V) : LLMProvider (S * W) P R V :=
  {| provider_name := provider_name p;
     default_model := default_model p;
     chat := λ req model, lift_world (chat p req model);
     chat_stream := λ req model, lift_world (chat_stream p req model) |}.

(** [Option::or] on the model override. *)
Definition or_model (a b : option string) : option string :=
  match a with Some m => Some m | None => b end.

(** ** A scripted world *)

(** Providers that answer from a script, on a clock that moves only when the
    code sleeps or a call takes time. *)
Module Scripted.

Record t : Type := mk {
  now_ns : Z;
  epoch : Z;
  script : list (Z * result ZeptoError string);
  calls : list (string * option string);
  slept : list Z;
}.

Definition tick (ms : Z) (w : t) : t :=
  {| now_ns := now_ns w + ms * 1000000; epoch := epoch w + ms `div` 1000;
     script := script w; calls := calls w; slept := slept w |}.

#[global] Instance world : World t := {|
  instant := λ w, (now_ns w, w);
  epoch_secs := λ w, (epoch w, w);
  subsec_nanos := λ w, (Some 0, w);
  sleep_ms := λ ms w,
    let w1 := tick ms w in
    (tt, {| now_ns := now_ns w1; epoch := epoch w1; script := script w1;
            calls := calls w1; slept := slept w1 ++ [ms] |});
|}.

(** The next answer of the script; a call takes the time the script gives. *)
Definition answer (name : string) (model : option string) : M t (result ZeptoError string) :=
  λ w, match script w with
       | [] => (Err (Provider "script exhausted"), w)
       | (ms, r) :: rest =>
         let w1 := tick ms w in
         (r, {| now_ns := now_ns w1; epoch := epoch w1; script := rest;
                calls := calls w1 ++ [(name, model)]; slept := slept w1 |})
       end.

Definition provider (name : string) : LLMProvider t unit string string :=
  {| provider_name := name; default_model := name +:+ "-model";
     chat := λ _ model, answer name model;
     chat_stream := λ _ model, answer name model |}.

Definition start (s : list (Z * result ZeptoError string)) : t :=
  {| now_ns := 0; epoch := 1000000; script := s; calls := []; slept := [] |}.
End Scripted.
