(* ===== verification/Retry.v ===== *)
(** Automatic retry with exponential backoff: src/src/providers/retry.rs. *)

From S2P Require Import Prelude Errors Provider.

(** ** Which errors are transient *)

Section classification.
Context `{RustUnicode}.

Definition is_context_window_exceeded (msg : string) : bool :=
  let lower := to_lowercase msg in
  let hints :=
    [ "exceeds the context window"; "context window of this model";
      "maximum context length"; "context length exceeded";
      "max_tokens is too large" ] in
  any (λ h, contains lower h) hints.

Definition is_auth_failure (msg : string) : bool :=
  let lower := to_lowercase msg in
  let hints :=
    [ "invalid api key"; "incorrect api key"; "missing api key"; "api key not set";
      "authentication failed"; "auth failed"; "unauthorized"; "forbidden";
      "permission denied"; "access denied"; "invalid_token" ] in
  any (λ h, contains lower h) hints.

Definition is_model_not_found (msg : string) : bool :=
  let lower := to_lowercase msg in
  contains lower "model" &&
  (contains lower "not found" || contains lower "does not exist" ||
   contains lower "unknown model" || contains lower "unsupported model").

Definition is_retryable (err : ZeptoError) : bool :=
  match err with
  | ProviderTyped pe => Errors.is_retryable pe
  | Provider msg =>
    let lower := to_lowercase msg in
    if is_context_window_exceeded msg || is_auth_failure msg || is_model_not_found msg
    then false
    else
      let non_retryable_codes := ["http 400"; "http 401"; "http 403"; "http 404"] in
      if any (λ c, contains lower c) non_retryable_codes then false
      else
        (contains lower "rate limit" || contains lower "rate_limit")
        || contains lower "429"
        || contains lower "500"
        || contains lower "overload"
        || contains lower "server error"
        || contains lower "502"
        || contains lower "503"
        || contains lower "504"
        || contains lower "timeout"
  | _ => false
  end.
End classification.

(** ** Delays *)

(** [base_delay_ms.saturating_mul(1u64 << attempt.min(16))] and the cap. *)
Definition compute_delay (attempt base_delay_ms max_delay_ms jitter_ms : Z) : Z :=
  let exponential := sat_mul64 base_delay_ms (Z.shiftl 1 (Z.min attempt 16)) in
  Z.min (sat_add64 exponential jitter_ms) max_delay_ms.

Definition delay_with_jitter {W} `{World W}
    (attempt base_delay_ms max_delay_ms : Z) : M W unit :=
  let exponential := sat_mul64 base_delay_ms (Z.shiftl 1 (Z.min attempt 16)) in
  let* nanos := subsec_nanos in
  let jitter_ms := match nanos with
                   | Some n => n mod (Z.max base_delay_ms 1)
                   | None => 0
                   end in
  let delay := Z.min (sat_add64 exponential jitter_ms) max_delay_ms in
  sleep_ms delay.

(** ** The provider *)

Record RetryProvider (W P R V : Type) := mkRetryProvider {
  inner : LLMProvider W P R V;
  max_retries : Z;
  base_delay_ms : Z;
  max_delay_ms : Z;
  retry_budget_ms : Z;
}.
Arguments mkRetryProvider {W P R V} _ _ _ _ _.
Arguments inner {W P R V} _.
Arguments max_retries {W P R V} _.
Arguments base_delay_ms {W P R V} _.
Arguments max_delay_ms {W P R V} _.
Arguments retry_budget_ms {W P R V} _.

Module RetryProvider.
Section methods.
Context {W P R V : Type} `{World W} `{RustUnicode}.
Implicit Types self : RetryProvider W P R V.

Definition new (inner : LLMProvider W P R V) : RetryProvider W P R V :=
  {| inner := inner; max_retries := 3; base_delay_ms := 1000;
     max_delay_ms := 30000; retry_budget_ms := 45000 |}.

Definition with_max_retries self (n : Z) : RetryProvider W P R V :=
  {| inner := inner self; max_retries := n; base_delay_ms := base_delay_ms self;
     max_delay_ms := max_delay_ms self; retry_budget_ms := retry_budget_ms self |}.

Definition with_base_delay_ms self (n : Z) : RetryProvider W P R V :=
  {| inner := inner self; max_retries := max_retries self; base_delay_ms := n;
     max_delay_ms := max_delay_ms self; retry_budget_ms := retry_budget_ms self |}.

Definition with_max_delay_ms self (n : Z) : RetryProvider W P R V :=
  {| inner := inner self; max_retries := max_retries self;
     base_delay_ms := base_delay_ms self; max_delay_ms := n;
     retry_budget_ms := retry_budget_ms self |}.

Definition with_retry_budget_ms self (n : Z) : RetryProvider W P R V :=
  {| inner := inner self; max_retries := max_retries self;
     base_delay_ms := base_delay_ms self; max_delay_ms := max_delay_ms self;
     retry_budget_ms := n |}.

(** The clock is read only when there is a budget. *)
Definition budget_exceeded self (start : Z) : M W bool :=
  if 0 <? retry_budget_ms self
  then let* ms := elapsed_ms start in ret (retry_budget_ms self <=? ms)
  else ret false.

(** [last_err.unwrap()]. *)
Definition unwrap_err {A} (last_err : option ZeptoError) : outcome (result ZeptoError A) :=
  match last_err with Some e => Ret (Err e) | None => Panic end.

(** The body [chat] and [chat_stream] share, over the inner method [call]:
    the rest of the loop from [attempt] on, then the final attempt. *)
Fixpoint retry_from {A} self (call : M W (result ZeptoError A)) (start : Z)
    (todo : nat) (attempt : Z) (last_err : option ZeptoError)
    : M W (outcome (result ZeptoError A)) :=
  match todo with
  | S todo' =>
    let* over_budget := (if 0 <? attempt then budget_exceeded self start else ret false) in
    if over_budget then ret (unwrap_err last_err) else
    do* (if 0 <? attempt
         then delay_with_jitter (attempt - 1) (base_delay_ms self) (max_delay_ms self)
         else ret tt) in
    let* r := call in
    match r with
    | Ok response => ret (Ret (Ok response))
    | Err err =>
      if negb (is_retryable err) then ret (Ret (Err err))
      else retry_from self call start todo' (attempt + 1) (Some err)
    end
  | O =>
    let* over_budget := (if 0 <? max_retries self then budget_exceeded self start else ret false) in
    if over_budget then ret (unwrap_err last_err) else
    do* (if 0 <? max_retries self
         then delay_with_jitter (max_retries self - 1) (base_delay_ms self) (max_delay_ms self)
         else ret tt) in
    let* r := call in ret (Ret r)
  end.

Definition chat self (req : P) (model : option string) : M W (outcome (result ZeptoError R)) :=
  let* start := instant in
  retry_from self (Provider.chat (inner self) req model) start
    (Z.to_nat (max_retries self)) 0 None.

Definition chat_stream self (req : P) (model : option string)
    : M W (outcome (result ZeptoError V)) :=
  let* start := instant in
  retry_from self (Provider.chat_stream (inner self) req model) start
    (Z.to_nat (max_retries self)) 0 None.
End methods.
End RetryProvider.

(** ** The schedule of delays *)

Lemma compute_delay_exact attempt base max_delay jitter :
  0 ≤ attempt → 0 ≤ base → 0 ≤ jitter → max_delay ≤ u64_max →
  compute_delay attempt base max_delay jitter =
    Z.min (base * 2 ^ Z.min attempt 16 + jitter) max_delay.
Proof.
  intros Ha Hb Hj Hm. unfold compute_delay, sat_mul64, sat_add64.
  rewrite Z.shiftl_1_l.
  assert (0 ≤ base * 2 ^ Z.min attempt 16)
    by (apply Z.mul_nonneg_nonneg; [lia|apply Z.pow_nonneg; lia]). lia.
Qed.

Lemma pow16_le a b : 0 ≤ a ≤ b → 2 ^ Z.min a 16 ≤ 2 ^ Z.min b 16.
Proof. intros ?. apply pow2_le_mono. lia. Qed.

(** The sleep [delay_with_jitter] asks for is [compute_delay] with a jitter
    below the base. *)
Lemma delay_with_jitter_sleeps {W} `{World W} attempt base max_delay (w : W) :
  ∃ jitter, 0 ≤ jitter < Z.max base 1 ∧
    delay_with_jitter attempt base max_delay w =
      sleep_ms (compute_delay attempt base max_delay jitter) (snd (subsec_nanos w)).
Proof.
  unfold delay_with_jitter, bind. destruct (subsec_nanos w) as [[n|] w1]; simpl.
  - exists (n mod Z.max base 1). split; [apply Z.mod_pos_bound; lia|done].
  - exists 0. split; [lia|done].
Qed.

(** the delay before a retry: never above the cap, the documented
    [min(base * 2^n + jitter, max)] although the code saturates (the exponent
    stops at 16, which no cap up to [65536 * base] can see), and never shorter
    for a later attempt with the same jitter. *)
Theorem backoff_schedule attempt later base max_delay jitter :
  0 ≤ attempt ≤ later → 0 ≤ base → 0 ≤ jitter → 0 ≤ max_delay ≤ u64_max →
  0 ≤ compute_delay attempt base max_delay jitter ≤ max_delay ∧
  (attempt ≤ 16 ∨ max_delay ≤ base * 65536 →
   compute_delay attempt base max_delay jitter
     = Z.min (base * 2 ^ attempt + jitter) max_delay) ∧
  compute_delay attempt base max_delay jitter
    ≤ compute_delay later base max_delay jitter.
Proof.
  intros Ha Hb Hj Hm. rewrite !compute_delay_exact by lia.
  pose proof (pow16_le attempt later Ha).
  assert (0 < 2 ^ Z.min attempt 16) by (apply Z.pow_pos_nonneg; lia).
  split_and!; [nia|nia| |].
  - intros Hsmall. destruct (decide (attempt ≤ 16)) as [?|Hbig].
    { by replace (Z.min attempt 16) with attempt by lia. }
    destruct Hsmall as [?|Hcap]; [lia|]. replace (Z.min attempt 16) with 16 by lia.
    assert (2 ^ 16 ≤ 2 ^ attempt) by (apply pow2_le_mono; lia).
    change (2 ^ 16) with 65536 in *. rewrite !Z.min_r; [done|nia..].
  - assert (base * 2 ^ Z.min attempt 16 ≤ base * 2 ^ Z.min later 16) by nia. lia.
Qed.

Lemma backoff_schedule_witness :
  compute_delay 3 1000 30000 7 = 8007 ∧ compute_delay 3 1000 30000 7 ≤ compute_delay 40 1000 30000 7.
Proof.
  destruct (backoff_schedule 3 40 1000 30000 7) as (_ & Heq & Hle); [lia..| |].
  { unfold u64_max, u64_mod. lia. }
  split; [rewrite Heq; [reflexivity|lia]|exact Hle].
Defined.

(** ** What a request does *)

Section spec.
Context {W P R V : Type} `{World W} `{RustUnicode}.
Import RetryProvider.
Context {A : Type} (self : RetryProvider W P R V).
Context (call : M W (result ZeptoError A)) (start : Z).

Definition transient (r : result ZeptoError A) : bool :=
  match r with Ok _ => false | Err e => is_retryable e end.

(** The steps of the code: from retry number [k], in world [w], the inner provider is
    called, gives [rs] one after the other, and the world ends as [w']. *)
Inductive retry_run : Z → W → list (result ZeptoError A) → W → Prop :=
| run_final k w r w1 :
    call w = (r, w1) → transient r = false ∨ k = max_retries self →
    retry_run k w [r] w1
| run_budget k w r w1 w2 :
    call w = (r, w1) → transient r = true → k < max_retries self →
    budget_exceeded self start w1 = (true, w2) →
    retry_run k w [r] w2
| run_again k w r w1 w2 w3 rs w' :
    call w = (r, w1) → transient r = true → k < max_retries self →
    budget_exceeded self start w1 = (false, w2) →
    delay_with_jitter k (base_delay_ms self) (max_delay_ms self) w2 = (tt, w3) →
    retry_run (k + 1) w3 rs w' →
    retry_run k w (r :: rs) w'.

(** An attempt once the wait before it is over. *)
Definition attempt_now (todo : nat) (k : Z) : M W (outcome (result ZeptoError A)) :=
  let* r := call in
  match todo, r with
  | S todo', Err err =>
    if negb (is_retryable err) then ret (Ret (Err err))
    else retry_from self call start todo' (k + 1) (Some err)
  | _, _ => ret (Ret r)
  end.

Lemma retry_from_first todo last w :
  Z.of_nat todo = max_retries self →
  retry_from self call start todo 0 last w = attempt_now todo 0 w.
Proof.
  intros Hmax. destruct todo as [|todo]; simpl; [by rewrite <- Hmax|].
  unfold attempt_now, bind, ret. by destruct (call w) as [[]].
Qed.

Lemma retry_from_next todo k err w :
  0 < k → k + Z.of_nat todo = max_retries self →
  retry_from self call start todo k (Some err) w =
    let '(over_budget, w2) := budget_exceeded self start w in
    if over_budget then (Ret (Err err), w2)
    else attempt_now todo k
           (snd (delay_with_jitter (k - 1) (base_delay_ms self) (max_delay_ms self) w2)).
Proof.
  intros Hk Hmax. destruct todo as [|todo]; simpl retry_from.
  - rewrite !(proj2 (Z.ltb_lt 0 (max_retries self))) by lia.
    replace (max_retries self) with k by lia. unfold bind at 1.
    destruct (budget_exceeded self start w) as [[] w2]; [done|].
    unfold attempt_now, bind. by destruct (delay_with_jitter _ _ _ w2).
  - rewrite !(proj2 (Z.ltb_lt 0 k)) by lia. unfold bind at 1.
    destruct (budget_exceeded self start w) as [[] w2]; [done|].
    unfold attempt_now, bind. destruct (delay_with_jitter _ _ _ w2) as [u w3]; simpl.
    by destruct (call w3) as [[]].
Qed.

Lemma attempt_now_runs todo k w :
  0 ≤ k → k + Z.of_nat todo = max_retries self →
  ∃ rs r w', attempt_now todo k w = (Ret r, w') ∧ last rs = Some r ∧ retry_run k w rs w'.
Proof.
  revert k w. induction todo as [|todo IH]; intros k w Hk Hmax;
    unfold attempt_now, bind; destruct (call w) as [r w1] eqn:Hcall.
  { exists [r], r, w1. split_and!; [by destruct r|done|].
    apply run_final; [done|right; lia]. }
  destruct r as [a|err].
  { exists [Ok a], (Ok a), w1. split_and!; [done|done|]. apply run_final; auto. }
  destruct (is_retryable err) eqn:Hr; simpl.
  2:{ exists [Err err], (Err err), w1. split_and!; [done|done|]. apply run_final; auto. }
  rewrite retry_from_next by lia.
  destruct (budget_exceeded self start w1) as [[] w2] eqn:Hb.
  { exists [Err err], (Err err), w2. split_and!; [done|done|].
    eapply run_budget; [done|done|lia|done]. }
  replace (k + 1 - 1) with k by lia.
  destruct (delay_with_jitter k _ _ w2) as [[] w3] eqn:Hd. simpl.
  destruct (IH (k + 1) w3) as (rs & r & w' & Heq & Hlast & Hrun); [lia..|].
  exists (Err err :: rs), r, w'. split_and!; [done| |].
  - destruct rs; [inversion Hrun|]. by rewrite last_cons_cons.
  - eapply run_again; try done; lia.
Qed.

Lemma retry_run_shape k w rs w' :
  0 ≤ k ≤ max_retries self → retry_run k w rs w' →
  (∃ r, last rs = Some r) ∧
  Z.of_nat (length rs) ≤ max_retries self - k + 1 ∧
  Forall (λ r, transient r = true) (removelast rs) ∧
  (∀ r, last rs = Some r → transient r = true → retry_budget_ms self = 0 →
        Z.of_nat (length rs) = max_retries self - k + 1).
Proof.
  intros Hk Hrun. revert Hk. induction Hrun as [k w r w1 Hc Hfin|k w r w1 w2 Hc Ht Hlt Hb
    |k w r w1 w2 w3 rs w' Hc Ht Hlt Hb Hd Hrun IHr]; intros Hk.
  - split_and!; [by exists r|simpl; lia|by simpl|].
    intros r' [= <-] Htr _. destruct Hfin as [?| ->]; [congruence|simpl; lia].
  - split_and!; [by exists r|simpl; lia|by simpl|].
    intros r0 [= <-] _ Hz. unfold budget_exceeded in Hb. by rewrite Hz in Hb.
  - destruct IHr as ([x Hx] & Hlen & Hall & Hfull); [lia|].
    destruct rs as [|r2 rs]; [done|]. split_and!.
    + exists x. by rewrite last_cons_cons.
    + cbn [length] in *. lia.
    + by constructor.
    + intros r0 Hr0 Htr Hz. rewrite last_cons_cons in Hr0.
      specialize (Hfull r0 Hr0 Htr Hz). cbn [length] in *. lia.
Qed.

Lemma retry_from_runs w :
  0 ≤ max_retries self →
  ∃ rs r w',
    retry_from self call start (Z.to_nat (max_retries self)) 0 None w = (Ret r, w') ∧
    retry_run 0 w rs w' ∧ last rs = Some r ∧
    Z.of_nat (length rs) ≤ max_retries self + 1 ∧
    Forall (λ r, transient r = true) (removelast rs) ∧
    (transient r = true → retry_budget_ms self = 0 →
     Z.of_nat (length rs) = max_retries self + 1).
Proof.
  intros Hmax. rewrite retry_from_first by lia.
  destruct (attempt_now_runs (Z.to_nat (max_retries self)) 0 w) as (rs & r & w' & Heq & Hl & Hrun);
    [lia..|].
  destruct (retry_run_shape 0 w rs w') as (_ & Hlen & Hall & Hfull); [lia|done|].
  exists rs, r, w'. split_and!; [done..|lia|done|].
  intros Ht Hz. rewrite (Hfull r Hl Ht Hz). lia.
Qed.
End spec.

(** ** The contract *)

Section contract.
Context {W P R V : Type} `{World W} `{RustUnicode}.

Definition transient_hints : list string :=
  ["rate limit"; "rate_limit"; "429"; "500"; "overload"; "server error"; "502"; "503"; "504"; "timeout"].
Definition lasting_hints : list string :=
  ["exceeds the context window"; "context window of this model"; "maximum context length";
   "context length exceeded"; "max_tokens is too large";
   "invalid api key"; "incorrect api key"; "missing api key"; "api key not set"; "authentication failed";
   "auth failed"; "unauthorized"; "forbidden"; "permission denied"; "access denied"; "invalid_token";
   "http 400"; "http 401"; "http 403"; "http 404"].
Definition missing_model_hints : list string :=
  ["not found"; "does not exist"; "unknown model"; "unsupported model"].

(** An error that may go away: of a kind that is known to, or with a text that
    hints at it and at nothing that stays. *)
Definition transient_error (e : ZeptoError) : Prop :=
  (∃ msg, e ∈ map ProviderTyped [RateLimit msg; ServerError msg; Timeout msg; Overloaded msg]) ∨
  ∃ msg, e = Provider msg ∧
    let lower := to_lowercase msg in
    (∃ hint, hint ∈ transient_hints ∧ contains lower hint = true) ∧
    (∀ hint, hint ∈ lasting_hints → contains lower hint = false) ∧
    ¬ (contains lower "model" = true ∧ ∃ hint, hint ∈ missing_model_hints ∧ contains lower hint = true).

Definition failed_transiently {A} (r : result ZeptoError A) : Prop :=
  ∃ e, r = Err e ∧ transient_error e.

Lemma retryable_text msg :
  is_retryable (Provider msg) =
    any (contains (to_lowercase msg)) transient_hints && negb (any (contains (to_lowercase msg)) lasting_hints) &&
    negb (contains (to_lowercase msg) "model" && any (contains (to_lowercase msg)) missing_model_hints).
Proof.
  cbn [is_retryable]. unfold is_context_window_exceeded, is_auth_failure, is_model_not_found.
  set (has := contains (to_lowercase msg)). cbv zeta.
  change (any (λ h, contains (to_lowercase msg) h)) with (any has).
  change (any (λ c, contains (to_lowercase msg) c)) with (any has).
  change lasting_hints with
    ((["exceeds the context window"; "context window of this model"; "maximum context length";
       "context length exceeded"; "max_tokens is too large"] ++
      ["invalid api key"; "incorrect api key"; "missing api key"; "api key not set"; "authentication failed";
       "auth failed"; "unauthorized"; "forbidden"; "permission denied"; "access denied"; "invalid_token"]) ++
     ["http 400"; "http 401"; "http 403"; "http 404"]).
  assert (any_app : ∀ l k, any has (l ++ k) = any has l || any has k) by (intros; apply existsb_app).
  rewrite !any_app.
  assert (any has missing_model_hints =
    has "not found" || has "does not exist" || has "unknown model" || has "unsupported model") as ->
    by (unfold any, missing_model_hints; cbn [existsb]; by rewrite !orb_assoc, orb_false_r).
  assert (any has transient_hints =
    (has "rate limit" || has "rate_limit") || has "429" || has "500" || has "overload" || has "server error" ||
    has "502" || has "503" || has "504" || has "timeout") as ->
    by (unfold any, transient_hints; cbn [existsb]; by rewrite !orb_assoc, orb_false_r).
  set (T := (has "rate limit" || _ || _ || _ || _ || _ || _ || _ || _ || _)).
  set (M := has "model" && _).
  change (λ h : string, has h) with has.
  generalize T M. clear. intros [] []; cbn [andb negb]; rewrite ?orb_true_r, ?andb_true_r, ?andb_false_r;
    repeat destruct (any has _); reflexivity.
Qed.

Lemma retryable_iff e : is_retryable e = true ↔ transient_error e.
Proof.
  unfold transient_error. destruct e as [|msg|pe| | | | | | | | | | | | | |];
    try (split; [done|]; intros [(? & Hin)|(? & ? & _)]; [|done]; cbn in Hin;
         repeat (apply elem_of_cons in Hin as [Hin|Hin]; [done|]); by apply elem_of_nil in Hin).
  - rewrite retryable_text, !andb_true_iff, !negb_true_iff, any_true, any_false. split.
    + intros [[Hh Hl] Hm]. right. exists msg. split_and!; [done..|].
      intros (Hmod & h & Hin & Hc). apply not_true_iff_false in Hm as []. apply andb_true_iff. split; [done|].
      apply any_true. by exists h.
    + intros [(? & Hin)|(? & [= <-] & Hh & Hl & Hm)].
      { cbn in Hin. repeat (apply elem_of_cons in Hin as [Hin|Hin]; [done|]). by apply elem_of_nil in Hin. }
      split_and!; [done..|]. apply not_true_iff_false. by rewrite andb_true_iff, any_true.
  - destruct pe as [msg|msg|msg|msg|msg|msg|msg|msg|msg|msg|msg]; cbn;
      (split; [first [done | intros _; left; exists msg; rewrite !elem_of_cons; tauto]|]); try done;
      (intros [(m & Hin)|(? & ? & _)]; [|done]; cbn in Hin;
       repeat (apply elem_of_cons in Hin as [Hin|Hin]; [done|]); by apply elem_of_nil in Hin).
Qed.

Lemma transient_iff {A} (r : result ZeptoError A) : transient r = true ↔ failed_transiently r.
Proof.
  unfold failed_transiently. destruct r as [a|e]; cbn; [split; [done|]; by intros (? & ? & _)|].
  rewrite retryable_iff. split; [eauto|]. by intros (? & [= ->] & ?).
Qed.

Context {A : Type} (self : RetryProvider W P R V) (call : M W (result ZeptoError A)) (start : Z).

(** Milliseconds since the request began, as 64 bits hold them. *)
Definition spent (now : Z) : Z := Z.max 0 (now - start) `div` 1000000 mod 2 ^ 64.

(** The clock is looked at only if there is a budget. *)
Inductive budget_left : W → W → Prop :=
| no_budget w : retry_budget_ms self ≤ 0 → budget_left w w
| in_budget w now w' :
    0 < retry_budget_ms self → instant w = (now, w') → spent now < retry_budget_ms self → budget_left w w'.
Definition budget_spent (w w' : W) : Prop :=
  ∃ now, 0 < retry_budget_ms self ∧ instant w = (now, w') ∧ retry_budget_ms self ≤ spent now.

(** The delay after call number [k]: it doubles from the base, up to 16 times,
    with less than the base on top, and never exceeds the maximum. *)
Definition slept (k : Z) (w w' : W) : Prop :=
  ∃ nanos w1 jitter, subsec_nanos w = (nanos, w1) ∧
    jitter = match nanos with Some n => n mod Z.max (base_delay_ms self) 1 | None => 0 end ∧
    sleep_ms (Z.min (base_delay_ms self * 2 ^ Z.min k 16 + jitter) (max_delay_ms self)) w1 = (tt, w').

(** Calls one after the other, from number [k] on. *)
Inductive contract : Z → W → list (result ZeptoError A) → W → Prop :=
| contract_last k w r w1 :
    call w = (r, w1) → ¬ failed_transiently r ∨ k = max_retries self → contract k w [r] w1
| contract_over k w r w1 w2 :
    call w = (r, w1) → failed_transiently r → k < max_retries self → budget_spent w1 w2 →
    contract k w [r] w2
| contract_next k w r w1 w2 w3 rs w' :
    call w = (r, w1) → failed_transiently r → k < max_retries self → budget_left w1 w2 → slept k w2 w3 →
    contract (k + 1) w3 rs w' → contract k w (r :: rs) w'.

Lemma budget_exceeded_iff b w w' :
  RetryProvider.budget_exceeded self start w = (b, w') →
  if b then budget_spent w w' else budget_left w w'.
Proof.
  unfold RetryProvider.budget_exceeded, elapsed_ms, bind, ret.
  destruct (Z.ltb_spec 0 (retry_budget_ms self)) as [Hb|Hb]; [|intros [= <- <-]; by constructor].
  destruct (instant w) as [now w1] eqn:Hi. intros [= <- <-].
  change (sat_sub now start `div` 1000000 mod u64_mod) with (spent now).
  destruct (Z.leb_spec (retry_budget_ms self) (spent now)); [by exists now|by eapply in_budget].
Qed.

Lemma delay_slept k w w' :
  0 ≤ k → 0 ≤ base_delay_ms self → max_delay_ms self ≤ u64_max →
  delay_with_jitter k (base_delay_ms self) (max_delay_ms self) w = (tt, w') → slept k w w'.
Proof.
  intros Hk Hb Hm. unfold delay_with_jitter, bind, slept. destruct (subsec_nanos w) as [nanos w1].
  set (jitter := match nanos with Some n => n mod Z.max (base_delay_ms self) 1 | None => 0 end). cbv zeta.
  assert (0 ≤ jitter) as Hj.
  { unfold jitter. destruct nanos as [n|]; [|done]. pose proof (Z.mod_pos_bound n (Z.max (base_delay_ms self) 1)). lia. }
  pose proof (compute_delay_exact k (base_delay_ms self) (max_delay_ms self) jitter Hk Hb Hj Hm) as Hd.
  unfold compute_delay in Hd. cbv zeta in Hd. rewrite Hd. intros Hs. by exists nanos, w1, jitter.
Qed.

Lemma retry_run_contract k w rs w' :
  0 ≤ k → 0 ≤ base_delay_ms self → max_delay_ms self ≤ u64_max →
  retry_run self call start k w rs w' → contract k w rs w'.
Proof.
  intros Hk Hb Hm Hrun. revert Hk.
  induction Hrun as [k w r w1 Hc Hfin|k w r w1 w2 Hc Ht Hlt Hbud|k w r w1 w2 w3 rs w' Hc Ht Hlt Hbud Hd _ IH]; intros Hk.
  - apply contract_last; [done|]. destruct Hfin as [Hn|?]; [left|by right]. by rewrite <- transient_iff, Hn.
  - apply (contract_over k w r w1 w2); [done|by apply transient_iff|done|by apply (budget_exceeded_iff true)].
  - apply (contract_next k w r w1 w2 w3); [done|by apply transient_iff|done|by apply (budget_exceeded_iff false)| |apply IH; lia].
    by apply delay_slept.
Qed.

Lemma retry_from_contract w :
  0 ≤ max_retries self → 0 ≤ base_delay_ms self → max_delay_ms self ≤ u64_max →
  ∃ rs r w',
    RetryProvider.retry_from self call start (Z.to_nat (max_retries self)) 0 None w = (Ret r, w') ∧
    contract 0 w rs w' ∧ last rs = Some r ∧ Z.of_nat (length rs) ≤ max_retries self + 1 ∧
    (failed_transiently r → retry_budget_ms self = 0 → Z.of_nat (length rs) = max_retries self + 1).
Proof.
  intros Hmax Hb Hm. destruct (retry_from_runs self call start w Hmax) as (rs & r & w' & Heq & Hrun & Hl & Hlen & _ & Hfull).
  exists rs, r, w'. split_and!; try done; [by apply retry_run_contract|].
  intros Ht%transient_iff. by apply Hfull.
Qed.
End contract.


(** A concrete run: two overloads, then an answer. *)
Definition flaky : Scripted.t :=
  Scripted.start [(10, Err (ProviderTyped (RateLimit "slow down")));
                  (10, Err (Provider "HTTP 503: overloaded"));
                  (10, Ok "hello")].

