(* ===== verification/Fallback.v ===== *)
(** Primary/fallback chaining with a circuit breaker and per-reason cooldowns:
    src/src/providers/fallback.rs. *)

From S2P Require Import Prelude Errors Provider Cooldown.

(** ** The circuit breaker *)

Inductive CircuitState : Type := Closed | Open | HalfOpen.

#[export] Instance CircuitState_eq_dec : EqDecision CircuitState.
Proof. solve_decision. Defined.

Record CircuitBreaker : Type := mkCircuitBreaker {
  failure_count : Z;
  last_failure_epoch : Z;
  failure_threshold : Z;
  cooldown_secs : Z;
}.

Module CircuitBreaker.

Definition new (threshold cooldown : Z) : CircuitBreaker :=
  {| failure_count := 0; last_failure_epoch := 0;
     failure_threshold := threshold; cooldown_secs := cooldown |}.

(** [state] with the clock reading [now] passed in. *)
Definition state_at (self : CircuitBreaker) (now : Z) : CircuitState :=
  if failure_count self <? failure_threshold self then Closed
  else if cooldown_secs self <=? sat_sub now (last_failure_epoch self)
  then HalfOpen else Open.

Definition state {W} `{World W} (self : CircuitBreaker) : M W CircuitState :=
  if failure_count self <? failure_threshold self then ret Closed
  else let* now := epoch_secs in ret (state_at self now).

Definition record_success (self : CircuitBreaker) : CircuitBreaker :=
  {| failure_count := 0; last_failure_epoch := last_failure_epoch self;
     failure_threshold := failure_threshold self; cooldown_secs := cooldown_secs self |}.

Definition record_failure_at (self : CircuitBreaker) (now : Z) : CircuitBreaker :=
  {| failure_count := wadd32 (failure_count self) 1; last_failure_epoch := now;
     failure_threshold := failure_threshold self; cooldown_secs := cooldown_secs self |}.

Definition record_failure {W} `{World W} (self : CircuitBreaker) : M W CircuitBreaker :=
  let* now := epoch_secs in ret (record_failure_at self now).

(** Histories of outcomes of the primary. *)
Inductive event : Type := Success | Failure (at_epoch : Z).

Definition apply (self : CircuitBreaker) (ev : event) : CircuitBreaker :=
  match ev with
  | Success => record_success self
  | Failure now => record_failure_at self now
  end.

Definition replay (threshold cooldown : Z) (evs : list event) : CircuitBreaker :=
  foldl apply (new threshold cooldown) evs.

(** The failures of a history, the most recent first, up to the last success. *)
Fixpoint leading_failures (recent_first : list event) : list Z :=
  match recent_first with
  | Failure t :: evs => t :: leading_failures evs
  | _ => []
  end.
Definition trailing_failures (evs : list event) : list Z := leading_failures (reverse evs).

(** The time of the last failure, successes or not since. *)
Definition last_failure_time (evs : list event) : Z :=
  default 0 (head (omap (λ ev, match ev with Failure t => Some t | Success => None end)
                        (reverse evs))).

Lemma replay_failure_count threshold cooldown evs :
  failure_count (replay threshold cooldown evs)
    = Z.of_nat (length (trailing_failures evs)) mod u32_mod.
Proof.
  unfold replay, trailing_failures.
  induction evs as [|[|t] evs IH] using rev_ind; [done|..];
    rewrite foldl_snoc, reverse_snoc; simpl; [done|].
  rewrite IH. unfold wadd32. rewrite Zplus_mod_idemp_l. f_equal. lia.
Qed.

Lemma replay_last_failure threshold cooldown evs :
  last_failure_epoch (replay threshold cooldown evs) = last_failure_time evs.
Proof.
  unfold replay, last_failure_time.
  induction evs as [|[|t] evs IH] using rev_ind; [done|..];
    rewrite foldl_snoc, reverse_snoc; simpl; done.
Qed.

Lemma replay_config threshold cooldown evs :
  failure_threshold (replay threshold cooldown evs) = threshold ∧
  cooldown_secs (replay threshold cooldown evs) = cooldown.
Proof.
  unfold replay. induction evs as [|[|t] evs IH] using rev_ind; [done|..];
    rewrite foldl_snoc; done.
Qed.

(** the state of the breaker after any history of outcomes: closed while
    fewer failures than the threshold follow the last success, and otherwise
    open for the cooldown from the last failure and half-open after it. A
    success closes it. A failure of a half-open breaker opens it again for the
    whole cooldown. The count of consecutive failures is taken modulo 2^32. *)
Theorem circuit_breaker_histories threshold cooldown evs now :
  let n := Z.of_nat (length (trailing_failures evs)) mod u32_mod in
  let cb := replay threshold cooldown evs in
  state_at cb now =
    (if n <? threshold then Closed
     else if cooldown <=? sat_sub now (last_failure_time evs) then HalfOpen else Open) ∧
  (0 < threshold →
   state_at (replay threshold cooldown (evs ++ [Success])) now = Closed) ∧
  (∀ t, state_at cb t ≠ Closed → n + 1 < u32_mod → t ≤ now < t + cooldown →
        state_at (replay threshold cooldown (evs ++ [Failure t])) now = Open).
Proof.
  cbn zeta. split_and!.
  - unfold state_at. destruct (replay_config threshold cooldown evs) as [-> ->].
    by rewrite replay_failure_count, replay_last_failure.
  - intros Ht. unfold replay. rewrite foldl_snoc. cbn [apply].
    unfold state_at, record_success. cbn [failure_count failure_threshold].
    destruct (replay_config threshold cooldown evs) as [Hth _]. unfold replay in Hth.
    rewrite Hth. by rewrite (proj2 (Z.ltb_lt 0 threshold)).
  - intros t Hopen Hn Hnow.
    assert (∀ x, failure_count (record_failure_at x t) = wadd32 (failure_count x) 1) as Hc by done.
    unfold replay in *. rewrite foldl_snoc. cbn [apply].
    pose proof (replay_failure_count threshold cooldown evs) as Hcount.
    pose proof (replay_config threshold cooldown evs) as [Hth Hcd]. unfold replay in *.
    set (cb := foldl apply (new threshold cooldown) evs) in *.
    unfold state_at in *. rewrite Hc, wadd32_small; rewrite Hcount in *;
      [|pose proof (Z.mod_pos_bound (Z.of_nat (length (trailing_failures evs))) u32_mod);
        unfold u32_mod in *; lia].
    cbn [failure_threshold last_failure_epoch cooldown_secs record_failure_at].
    rewrite Hth, Hcd in *.
    destruct (Z.ltb_spec (Z.of_nat (length (trailing_failures evs)) mod u32_mod) threshold);
      [done|].
    rewrite (proj2 (Z.ltb_ge _ _)) by lia. unfold sat_sub.
    by rewrite (proj2 (Z.leb_gt _ _)) by lia.
Qed.
End CircuitBreaker.

(** ** The provider *)

Section clock.
Context {W : Type} `{World W}.

(** [CooldownTracker::is_in_cooldown] and [mark_failure] with the clock read
    where the code reads it. *)
Definition is_in_cooldown (self : CooldownTracker) (provider : string) : M W bool :=
  match self !! provider with
  | Some e => let* now := instant in ret (CooldownEntry.is_in_cooldown e now)
  | None => ret false
  end.

Definition mark_failure (self : CooldownTracker) (provider : string)
    (reason : FailoverReason.t) : M W CooldownTracker :=
  let* t0 := (match self !! provider with
              | Some {| last_failure := Some _ |} => instant
              | _ => ret 0
              end) in
  let* t1 := instant in
  let* t2 := instant in
  ret (CooldownTracker.mark_failure self provider reason t0 t1 t2).
End clock.

Record FallbackProvider (W P R V : Type) := mkFallbackProvider {
  primary : LLMProvider W P R V;
  fallback : LLMProvider W P R V;
  composite_name : string;
  circuit_breaker : CircuitBreaker;
  cooldown : CooldownTracker;
  fallback_model : option string;
}.
Arguments mkFallbackProvider {W P R V} _ _ _ _ _ _.
Arguments primary {W P R V} _.
Arguments fallback {W P R V} _.
Arguments composite_name {W P R V} _.
Arguments circuit_breaker {W P R V} _.
Arguments cooldown {W P R V} _.
Arguments fallback_model {W P R V} _.

(** The guard of the error branch: which errors of the primary are passed on
    to the fallback. *)
Definition should_fallback (err : ZeptoError) : bool :=
  match err with
  | ProviderTyped pe => Errors.should_fallback pe
  | QuotaRejected _ => false
  | _ => true
  end.

Definition failover_reason (err : ZeptoError) : FailoverReason.t :=
  match err with
  | ProviderTyped pe => FailoverReason.from_provider_error pe
  | _ => FailoverReason.Unknown
  end.

Module FallbackProvider.
Section methods.
Context {W P R V : Type} `{World W}.
Implicit Types self : FallbackProvider W P R V.

Definition new (primary fallback : LLMProvider W P R V) : FallbackProvider W P R V :=
  {| primary := primary; fallback := fallback;
     composite_name := provider_name primary +:+ " -> " +:+ provider_name fallback;
     circuit_breaker := CircuitBreaker.new 3 30;
     cooldown := CooldownTracker.new;
     fallback_model := None |}.

Definition with_fallback_model self (model : option string) : FallbackProvider W P R V :=
  {| primary := primary self; fallback := fallback self;
     composite_name := composite_name self; circuit_breaker := circuit_breaker self;
     cooldown := cooldown self; fallback_model := model |}.

Definition with_health self (cb : CircuitBreaker) (cd : CooldownTracker)
    : FallbackProvider W P R V :=
  {| primary := primary self; fallback := fallback self;
     composite_name := composite_name self; circuit_breaker := cb;
     cooldown := cd; fallback_model := fallback_model self |}.

(** The first test of a request: is the primary skipped? *)
Definition skip_primary self : M W bool :=
  let* circuit_state := CircuitBreaker.state (circuit_breaker self) in
  if decide (circuit_state = Open) then ret true
  else is_in_cooldown (cooldown self) (provider_name (primary self)).

(** The body [chat] and [chat_stream] share, over the two inner calls. *)
Definition request {A} self (primary_call fallback_call : M W (result ZeptoError A))
    : M W (result ZeptoError A * FallbackProvider W P R V) :=
  let* skip := skip_primary self in
  if skip then let* r := fallback_call in ret (r, self)
  else
    let* r := primary_call in
    match r with
    | Ok response =>
      ret (Ok response,
           with_health self (CircuitBreaker.record_success (circuit_breaker self))
             (CooldownTracker.mark_success (cooldown self) (provider_name (primary self))))
    | Err primary_err =>
      if should_fallback primary_err then
        let* cb := CircuitBreaker.record_failure (circuit_breaker self) in
        let reason := failover_reason primary_err in
        let* cd := mark_failure (cooldown self) (provider_name (primary self)) reason in
        let* r := fallback_call in ret (r, with_health self cb cd)
      else ret (Err primary_err, self)
    end.

Definition chat self (req : P) (model : option string)
    : M W (result ZeptoError R * FallbackProvider W P R V) :=
  let effective_model := or_model (fallback_model self) model in
  request self (Provider.chat (primary self) req model)
    (Provider.chat (fallback self) req effective_model).

Definition chat_stream self (req : P) (model : option string)
    : M W (result ZeptoError V * FallbackProvider W P R V) :=
  let effective_model := or_model (fallback_model self) model in
  request self (Provider.chat_stream (primary self) req model)
    (Provider.chat_stream (fallback self) req effective_model).
End methods.
End FallbackProvider.

(** ** What a request does *)

Section contract.
Context {W P R V : Type} `{World W}.
Implicit Types self : FallbackProvider W P R V.
Import FallbackProvider.

(** The reasons a failure can be recorded for: the guard keeps the others out. *)
Definition marked_reasons : list FailoverReason.t :=
  [FailoverReason.RateLimit; FailoverReason.Overloaded;
   FailoverReason.Timeout; FailoverReason.Unknown].

Lemma should_fallback_reason err :
  should_fallback err = true → failover_reason err ∈ marked_reasons.
Proof. unfold marked_reasons. destruct err as [| |[]| | | | | | | | | | | | | |]; set_solver. Qed.

(** Their shortest cooldowns: 15 seconds at first, and twice the breaker's
    own cooldown by the time it opens. *)
Definition rest_secs (n : Z) : Z := if n <? 3 then 15 else 60.

Lemma marked_cooldown_min r n :
  r ∈ marked_reasons → 1 ≤ n → (r, n) ≠ (FailoverReason.Overloaded, 64) →
  rest_secs n ≤ FailoverReason.cooldown_duration r n.
Proof.
  intros Hr Hn Hne. rewrite FailoverReason.cooldown_documented by done.
  unfold rest_secs. destruct (Z.ltb_spec n 3).
  - pose proof (FailoverReason.documented_mono r 1 n ltac:(lia)) as Hmono.
    enough (15 ≤ FailoverReason.documented r 1) by lia.
    destruct r; vm_compute; discriminate.
  - pose proof (FailoverReason.documented_mono r 3 n ltac:(lia)) as Hmono.
    enough (60 ≤ FailoverReason.documented r 3) by lia.
    destruct r; vm_compute; discriminate.
Qed.

(** The four ways a request can go. *)
Inductive request_run {A} self (primary_call fallback_call : M W (result ZeptoError A)) (w : W)
    : result ZeptoError A → FallbackProvider W P R V → W → Prop :=
| run_skipped w0 r w1 :
    skip_primary self w = (true, w0) → fallback_call w0 = (r, w1) →
    request_run self primary_call fallback_call w r self w1
| run_primary w0 a w1 :
    skip_primary self w = (false, w0) → primary_call w0 = (Ok a, w1) →
    request_run self primary_call fallback_call w (Ok a)
      (with_health self (CircuitBreaker.record_success (circuit_breaker self))
         (CooldownTracker.mark_success (cooldown self) (provider_name (primary self)))) w1
| run_rejected w0 e w1 :
    skip_primary self w = (false, w0) → primary_call w0 = (Err e, w1) →
    should_fallback e = false →
    request_run self primary_call fallback_call w (Err e) self w1
| run_fell_back w0 e w1 now w2 t0 t1 t2 w3 r w4 :
    skip_primary self w = (false, w0) → primary_call w0 = (Err e, w1) →
    should_fallback e = true → epoch_secs w1 = (now, w2) →
    mark_failure (cooldown self) (provider_name (primary self)) (failover_reason e) w2
      = (CooldownTracker.mark_failure (cooldown self) (provider_name (primary self))
           (failover_reason e) t0 t1 t2, w3) →
    fallback_call w3 = (r, w4) →
    request_run self primary_call fallback_call w r
      (with_health self (CircuitBreaker.record_failure_at (circuit_breaker self) now)
         (CooldownTracker.mark_failure (cooldown self) (provider_name (primary self))
           (failover_reason e) t0 t1 t2)) w4.

Lemma mark_failure_instants (cd : CooldownTracker) p r (w : W) :
  ∃ t0 t1 t2 w', mark_failure cd p r w = (CooldownTracker.mark_failure cd p r t0 t1 t2, w').
Proof.
  unfold mark_failure, bind.
  destruct (match cd !! p with Some {| last_failure := Some _ |} => instant | _ => ret 0 end w)
    as [t0 w0].
  destruct (instant w0) as [t1 w1]. destruct (instant w1) as [t2 w2].
  by exists t0, t1, t2, w2.
Qed.

Lemma request_runs {A} self (primary_call fallback_call : M W (result ZeptoError A)) w :
  ∃ r self' w', request self primary_call fallback_call w = ((r, self'), w') ∧
                request_run self primary_call fallback_call w r self' w'.
Proof.
  unfold request, bind at 1. destruct (skip_primary self w) as [[] w0] eqn:Hskip.
  { unfold bind. destruct (fallback_call w0) as [r w1] eqn:Hf.
    exists r, self, w1. split; [done|]. by eapply run_skipped. }
  unfold bind at 1. destruct (primary_call w0) as [[a|e] w1] eqn:Hp.
  { eexists _, _, _. split; [done|]. by eapply run_primary. }
  destruct (should_fallback e) eqn:Hs.
  - unfold CircuitBreaker.record_failure, bind.
    destruct (epoch_secs w1) as [now w2] eqn:He. simpl.
    destruct (mark_failure_instants (cooldown self) (provider_name (primary self))
                (failover_reason e) w2) as (t0 & t1 & t2 & w3 & Hm).
    rewrite Hm. destruct (fallback_call w3) as [r w4] eqn:Hf.
    eexists _, _, _. split; [done|]. by eapply run_fell_back.
  - eexists _, _, _. split; [done|]. by eapply run_rejected.
Qed.

(** A request returns what the last provider it called returned. *)
Lemma request_run_result {A} self (primary_call fallback_call : M W (result ZeptoError A)) w r self' w' :
  request_run self primary_call fallback_call w r self' w' →
  (∃ w1, primary_call w1 = (r, w')) ∨ (∃ w1, fallback_call w1 = (r, w')).
Proof. destruct 1; eauto. Qed.

(** ** Reachable states *)

(** The states a provider goes through, whatever is asked of it and whatever
    the two inner providers answer. *)
Inductive reachable (init : FallbackProvider W P R V) : FallbackProvider W P R V → Prop :=
| reach_init : reachable init init
| reach_chat self req model w r self' w' :
    reachable init self → chat self req model w = ((r, self'), w') → reachable init self'
| reach_chat_stream self req model w r self' w' :
    reachable init self → chat_stream self req model w = ((r, self'), w') →
    reachable init self'.

Record state_ok (init self : FallbackProvider W P R V) : Prop := {
  ok_providers : primary self = primary init ∧ fallback self = fallback init;
  ok_model : fallback_model self = fallback_model init;
  ok_threshold : failure_threshold (circuit_breaker self) = failure_threshold (circuit_breaker init);
  ok_cooldown_secs : cooldown_secs (circuit_breaker self) = cooldown_secs (circuit_breaker init);
  ok_count : is_u32 (failure_count (circuit_breaker self));
  ok_entries q e : cooldown self !! q = Some e →
    q = provider_name (primary init) ∧ billing_disabled_until e = None ∧ is_u32 (consecutive e);
}.

Lemma with_health_ok init self cb cd :
  state_ok init self →
  failure_threshold cb = failure_threshold (circuit_breaker self) →
  cooldown_secs cb = cooldown_secs (circuit_breaker self) →
  is_u32 (failure_count cb) →
  (∀ q e, cd !! q = Some e → q = provider_name (primary init) ∧
     billing_disabled_until e = None ∧ is_u32 (consecutive e)) →
  state_ok init (with_health self cb cd).
Proof. intros [] ? ? ? ?. split; simpl; try done; congruence. Qed.

Lemma reset_if_stale_entry e now :
  billing_disabled_until e = None → is_u32 (consecutive e) →
  let e' := CooldownEntry.reset_if_stale e now in
  billing_disabled_until e' = None ∧ is_u32 (consecutive e').
Proof. intros ? ?. unfold CooldownEntry.reset_if_stale. cases; done. Qed.

Lemma mark_failure_entries init (cd : CooldownTracker) r t0 t1 t2 :
  r ≠ FailoverReason.Billing →
  (∀ q e, cd !! q = Some e → q = provider_name (primary init) ∧
     billing_disabled_until e = None ∧ is_u32 (consecutive e)) →
  ∀ q e, CooldownTracker.mark_failure cd (@provider_name W P R V (primary init)) r t0 t1 t2 !! q
           = Some e →
    q = provider_name (primary init) ∧ billing_disabled_until e = None ∧ is_u32 (consecutive e).
Proof.
  intros Hr Hcd q e. unfold CooldownTracker.mark_failure.
  rewrite lookup_insert_Some. intros [[<- He]|[_ He]]; [|by apply Hcd].
  rewrite decide_False in He by done. simplify_eq/=. split; [done|].
  split; [|apply wadd32_range].
  apply reset_if_stale_entry.
  - destruct (cd !! _) eqn:E; [by apply Hcd in E as (? & ? & ?)|done].
  - destruct (cd !! _) eqn:E; [by apply Hcd in E as (? & ? & ?)|done].
Qed.

Lemma mark_success_entries (cd : CooldownTracker) (p p0 : string) :
  (∀ q e, cd !! q = Some e → q = p0 ∧
     billing_disabled_until e = None ∧ is_u32 (consecutive e)) →
  ∀ q e, CooldownTracker.mark_success cd p !! q = Some e →
    q = p0 ∧ billing_disabled_until e = None ∧ is_u32 (consecutive e).
Proof.
  intros Hcd q e. unfold CooldownTracker.mark_success.
  destruct (cd !! p) eqn:E; [|apply Hcd].
  rewrite lookup_insert_Some. intros [[<- <-]|[_ He]]; [|by apply Hcd].
  apply Hcd in E as [-> _]. done.
Qed.

Lemma request_run_ok {A} init self (pc fc : M W (result ZeptoError A)) w r self' w' :
  state_ok init self → request_run self pc fc w r self' w' → state_ok init self'.
Proof.
  intros Hok Hrun. destruct Hrun; [done| |done|];
    (apply with_health_ok; [done|done|done|..]).
  - done.
  - apply mark_success_entries, Hok.
  - apply wadd32_range.
  - destruct (ok_providers _ _ Hok) as [-> _].
    apply mark_failure_entries; [|apply Hok].
    intros Hb. match goal with Hs : should_fallback _ = true |- _ =>
      apply should_fallback_reason in Hs; rewrite Hb in Hs end.
    unfold marked_reasons in *. set_solver.
Qed.

Lemma request_ok {A} init self (pc fc : M W (result ZeptoError A)) w r self' w' :
  state_ok init self → request self pc fc w = ((r, self'), w') → state_ok init self'.
Proof.
  intros Hok Heq. destruct (request_runs self pc fc w) as (r0 & s0 & w0 & Heq0 & Hrun).
  rewrite Heq in Heq0. simplify_eq. by eapply request_run_ok.
Qed.

Lemma new_ok p f m : let init := with_fallback_model (new p f) m in state_ok init init.
Proof. split; simpl; try done. Qed.

Lemma reachable_ok init self : state_ok init init → reachable init self → state_ok init self.
Proof. intros H0. induction 1; [done| |]; by eapply request_ok. Qed.

(** The provider rests: a test of the skip condition made before the end of
    its cooldown, whatever the breaker says, is positive. *)
Lemma skip_in_cooldown self w :
  (∀ w1, CooldownTracker.is_in_cooldown (cooldown self) (provider_name (primary self))
           (fst (instant w1)) = true) →
  fst (skip_primary self w) = true.
Proof.
  intros Hcool. unfold skip_primary, bind.
  destruct (CircuitBreaker.state (circuit_breaker self) w) as [st w1].
  destruct (decide (st = Open)); [done|].
  specialize (Hcool w1). unfold is_in_cooldown, CooldownTracker.is_in_cooldown, bind in *.
  destruct (cooldown self !! _); [|done]. by destruct (instant w1).
Qed.
End contract.

(** ** Histories *)

(** An error that another provider would give as well, or of a quota. *)
Definition ends_here (err : ZeptoError) : Prop :=
  (∃ q, err = QuotaRejected q) ∨
  ∃ msg, err ∈ map ProviderTyped [Auth msg; InvalidRequest msg; Billing msg; Format msg; ContextOverflow msg].

Lemma should_fallback_iff err :
  should_fallback err = false ↔ ends_here err.
Proof.
  unfold ends_here. split.
  - destruct err as [|msg|pe| | | | | | | | | | | | | |]; cbn; try done; [|intros _; left; by eexists].
    intros He. right. destruct pe as [msg|msg|msg|msg|msg|msg|msg|msg|msg|msg|msg]; try done; exists msg;
      rewrite !elem_of_cons; tauto.
  - intros [[q ->]|[msg Hin]]; [done|]. cbn in Hin.
    by repeat (apply elem_of_cons in Hin as [->|Hin]; [done|]); apply elem_of_nil in Hin.
Qed.

(** What happened to the primary: it answered, or it failed with an error that
    the fallback was asked for, at a time of the calendar and at three instants
    of the clock. A history has the most recent first. *)
Inductive primary_outcome : Type :=
| Answered
| Failed (err : ZeptoError) (epoch t0 t1 t2 : Z).
Definition history : Type := list primary_outcome.

Fixpoint failures_in_row (h : history) : Z :=
  match h with Failed _ _ _ _ _ :: h => 1 + failures_in_row h | _ => 0 end.

(** When the last failure was noted. *)
Fixpoint noted (h : history) : option Z :=
  match h with
  | [] => None
  | Answered :: h => noted h
  | Failed _ _ _ t1 _ :: _ => Some t1
  end.

(** The failures in a row, counted again from one that comes more than a day
    after the failure before it. *)
Fixpoint strikes (h : history) : Z :=
  match h with
  | Failed _ _ t0 _ _ :: before =>
    match noted before with
    | Some t => if 86400 * ns_per_sec <? t0 - t then 1 else 1 + strikes before
    | None => 1 + strikes before
    end
  | _ => 0
  end.

(** The rest after strike [n], in seconds: it doubles from strike to strike. *)
Definition rest_after (err : ZeptoError) (n : Z) : Z :=
  let doubled := 2 ^ Z.max 0 (n - 1) in
  match err with
  | ProviderTyped (RateLimit _) => Z.min 1800 (60 * doubled)
  | ProviderTyped (Overloaded _) => if n =? 64 then 0 else Z.min 300 (30 * doubled)
  | ProviderTyped (Timeout _) => Z.min 120 (15 * doubled)
  | _ => 60
  end.

Section histories.
Context {W : Type} `{World W}.

(** The breaker lets a request through: fewer than three failures in a row, or
    the last of them thirty seconds ago. *)
Inductive let_through (h : history) : W → W → Prop :=
| few_failures w : failures_in_row h mod 2 ^ 32 < 3 → let_through h w w
| probing err epoch t0 t1 t2 before w now w' :
    h = Failed err epoch t0 t1 t2 :: before → 3 ≤ failures_in_row h mod 2 ^ 32 →
    epoch_secs w = (now, w') → 30 ≤ now - epoch → let_through h w w'.

(** The primary is left alone. *)
Inductive rests (h : history) : W → W → Prop :=
| tripped err epoch t0 t1 t2 before w now w' :
    h = Failed err epoch t0 t1 t2 :: before → 3 ≤ failures_in_row h mod 2 ^ 32 →
    epoch_secs w = (now, w') → now - epoch < 30 → rests h w w'
| cooling err epoch t0 t1 t2 before w w1 now w2 :
    h = Failed err epoch t0 t1 t2 :: before → let_through h w w1 → instant w1 = (now, w2) →
    now < t2 + rest_after err (strikes h mod 2 ^ 32) * ns_per_sec → rests h w w2.

(** The primary is asked. *)
Inductive asked (h : history) : W → W → Prop :=
| never_failed w w1 : let_through h w w1 → noted h = None → asked h w w1
| recovered w w1 now w2 :
    let_through h w w1 → noted h ≠ None → instant w1 = (now, w2) →
    (∀ err epoch t0 t1 t2 before, h = Failed err epoch t0 t1 t2 :: before →
       t2 + rest_after err (strikes h mod 2 ^ 32) * ns_per_sec ≤ now) →
    asked h w w2.

(** What is read when a failure is noted; the first instant only when there was one before. *)
Definition noting (h : history) (w : W) (epoch t0 t1 t2 : Z) (w' : W) : Prop :=
  ∃ w1 w2 w3, epoch_secs w = (epoch, w1) ∧
    match noted h with Some _ => instant w1 = (t0, w2) | None => w2 = w1 end ∧
    instant w2 = (t1, w3) ∧ instant w3 = (t2, w').

(** One request, to a pair of providers. *)
Inductive served {A} (primary_call fallback_call : M W (result ZeptoError A)) (h : history) (w : W)
    : result ZeptoError A → history → W → Prop :=
| served_skipped w1 r w' :
    rests h w w1 → fallback_call w1 = (r, w') → served primary_call fallback_call h w r h w'
| served_answered w1 a w' :
    asked h w w1 → primary_call w1 = (Ok a, w') → served primary_call fallback_call h w (Ok a) (Answered :: h) w'
| served_refused w1 err w' :
    asked h w w1 → primary_call w1 = (Err err, w') →
    ends_here err →
    served primary_call fallback_call h w (Err err) h w'
| served_failed_over w1 err w2 epoch t0 t1 t2 w3 r w' :
    asked h w w1 → primary_call w1 = (Err err, w2) → ¬ ends_here err →
    noting h w2 epoch t0 t1 t2 w3 → fallback_call w3 = (r, w') →
    served primary_call fallback_call h w r (Failed err epoch t0 t1 t2 :: h) w'.
End histories.

(** *** The state is the history *)

Definition entry_of (h : history) : CooldownTracker → string → Prop := λ cd name,
  match noted h with
  | None => cd = ∅
  | Some t1 => cd = {[ name := {|
      consecutive := strikes h mod 2 ^ 32;
      cooldown_end := match h with
                      | Failed err _ _ _ t2 :: _ => Some (t2 + rest_after err (strikes h mod 2 ^ 32) * ns_per_sec)
                      | _ => None
                      end;
      last_failure := Some t1; billing_disabled_until := None |} ]}
  end.

Record follows_history {W P R V} (init : FallbackProvider W P R V) (h : history) (self : FallbackProvider W P R V) : Prop := {
  same_primary : primary self = primary init;
  same_fallback : fallback self = fallback init;
  same_model : fallback_model self = fallback_model init;
  counts : failure_count (circuit_breaker self) = failures_in_row h mod 2 ^ 32;
  dated err epoch t0 t1 t2 before :
    h = Failed err epoch t0 t1 t2 :: before → last_failure_epoch (circuit_breaker self) = epoch;
  opens_at : failure_threshold (circuit_breaker self) = 3;
  opens_for : cooldown_secs (circuit_breaker self) = 30;
  tracked : entry_of h (cooldown self) (provider_name (primary init));
}.

Lemma rest_after_cooldown err n :
  should_fallback err = true → 0 ≤ n →
  FailoverReason.cooldown_duration (failover_reason err) n = rest_after err n.
Proof.
  intros Hs Hn. destruct (decide (n = 0)) as [->|Hn0].
  { destruct err as [| |[]| | | | | | | | | | | | | |]; try done; by_compute. }
  destruct (decide (failover_reason err = FailoverReason.Overloaded ∧ n = 64)) as [[Hr ->]|Hne].
  { destruct err as [| |[]| | | | | | | | | | | | | |]; try done; by_compute. }
  rewrite FailoverReason.cooldown_documented; [|lia|by intros [= ??]; apply Hne].
  unfold FailoverReason.documented, rest_after. rewrite (Z.max_r 0 (n - 1)) by lia.
  assert (1 ≤ 2 ^ (n - 1)) by (change 1 with (2 ^ 0) at 1; apply pow2_le_mono; lia).
  destruct err as [| |[]| | | | | | | | | | | | | |]; try done; cbn [failover_reason FailoverReason.from_provider_error
    FailoverReason.cap FailoverReason.base]; try lia.
  destruct (Z.eqb_spec n 64) as [->|]; [|done]. by destruct Hne.
Qed.

Section simulation.
Context {W P R V : Type} `{World W}.
Implicit Types init self : FallbackProvider W P R V.
Import FallbackProvider.

Lemma noted_failed h : noted h = None → failures_in_row h = 0 ∧ strikes h = 0.
Proof. by destruct h as [|[]]. Qed.

Lemma failures_head h : failures_in_row h mod 2 ^ 32 < 3 ∨ ∃ err epoch t0 t1 t2 before, h = Failed err epoch t0 t1 t2 :: before.
Proof. destruct h as [|[|err epoch t0 t1 t2] h]; [by left; cbn..|right]. by eexists _, _, _, _, _, _. Qed.

(** The first test of the code, and that of the history. *)
Lemma skip_primary_history init h self w :
  follows_history init h self →
  let '(skip, w') := skip_primary self w in if skip then rests h w w' else asked h w w'.
Proof.
  intros [Hp Hf Hm Hc Hd Ho Hs Ht]. unfold skip_primary, bind, CircuitBreaker.state.
  rewrite Hc, Ho, Hp. destruct (Z.ltb_spec (failures_in_row h mod 2 ^ 32) 3) as [Hlt|Hge].
  - unfold ret at 1. rewrite decide_False by done. assert (let_through h w w) as Hl by by constructor.
    unfold is_in_cooldown, entry_of in *. destruct (noted h) as [t1|] eqn:Hn; rewrite Ht.
    2:{ rewrite lookup_empty. by apply never_failed. }
    rewrite lookup_singleton_eq. unfold bind, ret. destruct (instant w) as [now w2] eqn:Hi.
    unfold CooldownEntry.is_in_cooldown. cbn [billing_disabled_until cooldown_end].
    destruct h as [|[|err epoch t0 t1' t2] before]; [done| |].
    + by eapply recovered; [exact Hl|rewrite Hn|exact Hi|].
    + destruct (Z.ltb_spec now (t2 + rest_after err (strikes (Failed err epoch t0 t1' t2 :: before) mod 2 ^ 32) * ns_per_sec)).
      * by eapply cooling.
      * eapply recovered; [exact Hl|by rewrite Hn|exact Hi|]. by intros ? ? ? ? ? ? [= <- <- <- <- <- <-].
  - destruct (failures_head h) as [?|(err & epoch & t0 & t1 & t2 & before & Hh)]; [lia|].
    unfold bind. destruct (epoch_secs w) as [now w1] eqn:He. unfold ret at 1, CircuitBreaker.state_at.
    rewrite Hc, Ho, Hs, (Hd _ _ _ _ _ _ Hh). rewrite (proj2 (Z.ltb_ge _ _)) by done.
    destruct (Z.leb_spec 30 (sat_sub now epoch)) as [Hl|Hl]; unfold sat_sub in Hl.
    + rewrite decide_False by done.
      assert (let_through h w w1) as Hlt by (eapply probing; [done..|lia]).
      unfold is_in_cooldown, entry_of in *. subst h. cbn [noted] in Ht. rewrite Ht, lookup_singleton_eq.
      unfold bind, ret. destruct (instant w1) as [now' w2] eqn:Hi.
      unfold CooldownEntry.is_in_cooldown. cbn [billing_disabled_until cooldown_end].
      destruct (Z.ltb_spec now' (t2 + rest_after err (strikes (Failed err epoch t0 t1 t2 :: before) mod 2 ^ 32) * ns_per_sec)).
      * by eapply cooling.
      * eapply recovered; [exact Hlt|done|exact Hi|]. by intros ? ? ? ? ? ? [= <- <- <- <- <- <-].
    + rewrite decide_True by done. eapply tripped; [done..|lia].
Qed.

Lemma wadd32_succ n : wadd32 (n mod 2 ^ 32) 1 = (1 + n) mod 2 ^ 32.
Proof. unfold wadd32. change u32_mod with (2 ^ 32). rewrite Zplus_mod_idemp_l. f_equal. lia. Qed.

(** Noting a failure. *)
Lemma mark_failure_history init h self err epoch w w1 :
  follows_history init h self → should_fallback err = true → epoch_secs w = (epoch, w1) →
  ∃ t0 t1 t2 w2 cd,
    mark_failure (cooldown self) (provider_name (primary self)) (failover_reason err) w1 = (cd, w2) ∧
    noting h w epoch t0 t1 t2 w2 ∧
    follows_history init (Failed err epoch t0 t1 t2 :: h)
      (with_health self (CircuitBreaker.record_failure_at (circuit_breaker self) epoch) cd).
Proof.
  intros [Hp Hf Hm Hc Hd Ho Hs Ht] Hfall He. rewrite Hp.
  assert (∀ t0 t1 t2 cd, entry_of (Failed err epoch t0 t1 t2 :: h) cd (provider_name (primary init)) →
    follows_history init (Failed err epoch t0 t1 t2 :: h)
      (with_health self (CircuitBreaker.record_failure_at (circuit_breaker self) epoch) cd)) as Hfollow.
  { intros t0 t1 t2 cd Hcd. split; cbn; try done; [by rewrite Hc, wadd32_succ|by intros ? ? ? ? ? ? [= _ <- _ _ _ _]]. }
  assert (failover_reason err ≠ FailoverReason.Billing) as Hbill
    by (destruct err as [| |[]| | | | | | | | | | | | | |]; done).
  unfold mark_failure, entry_of in Ht |- *. destruct (noted h) as [last|] eqn:Hn; rewrite Ht.
  - rewrite lookup_singleton_eq. unfold bind, ret. destruct (instant w1) as [t0 w2] eqn:H0.
    destruct (instant w2) as [t1 w3] eqn:H1. destruct (instant w3) as [t2 w4] eqn:H2.
    exists t0, t1, t2, w4. eexists. split; [done|]. split.
    { exists w1, w2, w3. rewrite Hn. done. }
    apply Hfollow. unfold entry_of. cbn [noted]. unfold CooldownTracker.mark_failure.
    rewrite lookup_singleton_eq, insert_singleton_eq, decide_False by done. cbn [default]. unfold id. f_equal.
    unfold CooldownEntry.reset_if_stale. cbn [last_failure].
    assert ((86400 * ns_per_sec <? sat_sub t0 last) = (86400 * ns_per_sec <? t0 - last)) as ->.
    { apply eq_true_iff_eq. rewrite !Z.ltb_lt. unfold sat_sub, ns_per_sec. lia. }
    cbn [strikes]. rewrite Hn. destruct (_ <? t0 - last).
    + cbn [consecutive cooldown_end last_failure billing_disabled_until].
      change (wadd32 0 1) with (1 mod 2 ^ 32). f_equal. by rewrite rest_after_cooldown by (done || by apply Z.mod_pos_bound).
    + cbn [consecutive cooldown_end last_failure billing_disabled_until]. rewrite wadd32_succ. f_equal.
      by rewrite rest_after_cooldown by (done || by apply Z.mod_pos_bound).
  - rewrite lookup_empty. unfold bind, ret.
    destruct (instant w1) as [t1 w3] eqn:H1. destruct (instant w3) as [t2 w4] eqn:H2.
    exists 0, t1, t2, w4. eexists. split; [done|]. split.
    { exists w1, w1, w3. rewrite Hn. done. }
    apply Hfollow. unfold entry_of. cbn [noted]. unfold CooldownTracker.mark_failure.
    rewrite lookup_empty, insert_empty, decide_False by done. cbn [default]. unfold id. f_equal.
    cbn [strikes]. rewrite Hn. destruct (noted_failed h Hn) as [_ ->].
    unfold CooldownEntry.reset_if_stale, CooldownEntry.new.
    cbn [consecutive cooldown_end last_failure billing_disabled_until].
    change (wadd32 0 1) with ((1 + 0) mod 2 ^ 32). f_equal.
    by rewrite rest_after_cooldown by (done || by apply Z.mod_pos_bound).
Qed.

Lemma mark_success_history init h self :
  follows_history init h self →
  follows_history init (Answered :: h)
    (with_health self (CircuitBreaker.record_success (circuit_breaker self))
       (CooldownTracker.mark_success (cooldown self) (provider_name (primary self)))).
Proof.
  intros [Hp Hf Hm Hc Hd Ho Hs Ht]. split; cbn; try done. rewrite Hp.
  unfold entry_of, CooldownTracker.mark_success in *. cbn [noted]. destruct (noted h) as [t1|]; rewrite Ht.
  - rewrite lookup_singleton_eq. apply insert_singleton_eq.
  - by rewrite lookup_empty.
Qed.

Lemma request_served {A} init h self (primary_call fallback_call : M W (result ZeptoError A)) w :
  follows_history init h self →
  ∃ r self' h' w', request self primary_call fallback_call w = ((r, self'), w') ∧
    served primary_call fallback_call h w r h' w' ∧ follows_history init h' self'.
Proof.
  intros Hfol. pose proof (skip_primary_history init h self w Hfol) as Hskip.
  unfold request, bind at 1. destruct (skip_primary self w) as [[] w1].
  { unfold bind, ret. destruct (fallback_call w1) as [r w'] eqn:Hr.
    exists r, self, h, w'. split_and!; [done| |done]. by eapply served_skipped. }
  unfold bind at 1. destruct (primary_call w1) as [[a|err] w2] eqn:Hr.
  { eexists _, _, _, _. split_and!; [done|by eapply served_answered|]. by apply mark_success_history. }
  destruct (should_fallback err) eqn:Hs.
  - unfold CircuitBreaker.record_failure, bind. destruct (epoch_secs w2) as [epoch w3] eqn:He. cbn [ret].
    destruct (mark_failure_history init h self err epoch w2 w3 Hfol Hs He) as (t0 & t1 & t2 & w4 & cd & Hmf & Hnot & Hfol').
    unfold ret at 1. rewrite Hmf. destruct (fallback_call w4) as [r w'] eqn:Hr'.
    exists r. eexists _, _, w'. split_and!; [done| |exact Hfol'].
    eapply served_failed_over; [done|done| |done|done]. rewrite <- should_fallback_iff. congruence.
  - eexists _, _, _, _. split_and!; [done| |exact Hfol]. eapply served_refused; [done..|]. by apply should_fallback_iff.
Qed.
End simulation.

(** *** Requests one after the other *)

Section requests.
Context {W P R V : Type} `{World W}.

Inductive FallbackRequest : Type :=
| Chat (req : P) (model : option string)
| ChatStream (req : P) (model : option string).

Definition fallback_answer : Type := result ZeptoError R + result ZeptoError V.

(** The requests to a provider. *)
Fixpoint request_all (self : FallbackProvider W P R V) (requests : list FallbackRequest) : M W (list fallback_answer) :=
  match requests with
  | [] => ret []
  | Chat req model :: requests =>
    let* x := FallbackProvider.chat self req model in
    let* answers := request_all (snd x) requests in ret (inl (fst x) :: answers)
  | ChatStream req model :: requests =>
    let* x := FallbackProvider.chat_stream self req model in
    let* answers := request_all (snd x) requests in ret (inr (fst x) :: answers)
  end.

(** The same requests to the two providers [p] and [f], of which the fallback
    has a model [m] of its own or none. *)
Inductive served_all (p f : LLMProvider W P R V) (m : option string)
    : history → W → list FallbackRequest → list fallback_answer → W → Prop :=
| served_nil h w : served_all p f m h w [] [] w
| served_chat h w req model r h' w1 requests answers w' :
    served (Provider.chat p req model)
      (Provider.chat f req match m with Some own => Some own | None => model end) h w r h' w1 →
    served_all p f m h' w1 requests answers w' →
    served_all p f m h w (Chat req model :: requests) (inl r :: answers) w'
| served_stream h w req model r h' w1 requests answers w' :
    served (Provider.chat_stream p req model)
      (Provider.chat_stream f req match m with Some own => Some own | None => model end) h w r h' w1 →
    served_all p f m h' w1 requests answers w' →
    served_all p f m h w (ChatStream req model :: requests) (inr r :: answers) w'.

Lemma request_all_served (init : FallbackProvider W P R V) requests : ∀ h self w,
  follows_history init h self →
  ∃ answers w', request_all self requests w = (answers, w') ∧
    served_all (primary init) (fallback init) (fallback_model init) h w requests answers w'.
Proof.
  induction requests as [|[req model|req model] requests IH]; intros h self w Hfol.
  { exists [], w. split; [done|constructor]. }
  - cbn [request_all]. unfold bind at 1, FallbackProvider.chat.
    rewrite (same_primary _ _ _ Hfol), (same_fallback _ _ _ Hfol), (same_model _ _ _ Hfol).
    destruct (request_served init h self (Provider.chat (primary init) req model)
      (Provider.chat (fallback init) req (or_model (fallback_model init) model)) w Hfol)
      as (r & self' & h' & w1 & Heq & Hserved & Hfol'). rewrite Heq.
    destruct (IH h' self' w1 Hfol') as (answers & w' & Hall & Hrest).
    unfold bind, ret. cbn [fst snd]. rewrite Hall. eexists _, w'. split; [done|]. by eapply served_chat.
  - cbn [request_all]. unfold bind at 1, FallbackProvider.chat_stream.
    rewrite (same_primary _ _ _ Hfol), (same_fallback _ _ _ Hfol), (same_model _ _ _ Hfol).
    destruct (request_served init h self (Provider.chat_stream (primary init) req model)
      (Provider.chat_stream (fallback init) req (or_model (fallback_model init) model)) w Hfol)
      as (r & self' & h' & w1 & Heq & Hserved & Hfol'). rewrite Heq.
    destruct (IH h' self' w1 Hfol') as (answers & w' & Hall & Hrest).
    unfold bind, ret. cbn [fst snd]. rewrite Hall. eexists _, w'. split; [done|]. by eapply served_stream.
Qed.
End requests.
Arguments FallbackRequest P : clear implicits.
Arguments fallback_answer R V : clear implicits.

(** C37: any requests, one after the other, to a new provider with a fallback all
    come back, and they are served as the history of the primary says, on which
    alone the state of the provider depends. The primary rests while the last of
    three or more failures in a row is less than thirty seconds old, and for a
    time after each failure that depends on the error and doubles with the
    failures in a row, up to a limit (and is none for an overload counted as the
    64th); it is asked otherwise, and its answer ends the row. An error that
    another provider would give as well, or of a quota, is passed back and does
    not count as a failure; after any other the fallback is asked, with its own
    model if it has one, as it is while the primary rests. Counts are taken
    modulo 2^32, and a row begins anew after more than a day without failures. *)
Theorem fallback_requests_run {W P R V} `{World W} (p f : LLMProvider W P R V) m (requests : list (FallbackRequest P)) w :
  ∃ answers w',
    request_all (FallbackProvider.with_fallback_model (FallbackProvider.new p f) m) requests w = (answers, w') ∧
    served_all p f m [] w requests answers w'.
Proof.
  apply (request_all_served (FallbackProvider.with_fallback_model (FallbackProvider.new p f) m)).
  by split.
Qed.

(** in every state a fallback provider can reach, only the primary has a
    cooldown entry and it is never a billing one; and when a request of the
    primary fails over there, the primary rests: for 15 seconds after a first
    or second consecutive failure and for 60, twice the breaker's own cooldown,
    from the third on, every request skips it, so that the half-open probe
    waits for the per-reason cooldown as well. The one exception is the 64th
    consecutive overload. *)
Theorem fallback_primary_rests {W P R V} `{World W} (p f : LLMProvider W P R V) m self :
  let init := FallbackProvider.with_fallback_model (FallbackProvider.new p f) m in
  reachable init self →
  state_ok init self ∧
  (∀ err t0 t1 t2 now, should_fallback err = true →
     let n := wadd32 (consecutive (CooldownEntry.reset_if_stale
                 (default CooldownEntry.new (cooldown self !! provider_name p)) t0)) 1 in
     let cd := CooldownTracker.mark_failure (cooldown self) (provider_name p)
                 (failover_reason err) t0 t1 t2 in
     1 ≤ n → (failover_reason err, n) ≠ (FailoverReason.Overloaded, 64) →
     now < t2 + rest_secs n * ns_per_sec →
     CooldownTracker.is_in_cooldown cd (provider_name p) now = true) ∧
  (∀ w, (∀ w1, CooldownTracker.is_in_cooldown (cooldown self) (provider_name p)
                 (fst (instant w1)) = true) →
        fst (FallbackProvider.skip_primary self w) = true).
Proof.
  cbn zeta. intros Hreach.
  pose proof (reachable_ok _ _ (new_ok p f m) Hreach) as Hok. split_and!; [done| |].
  - intros err t0 t1 t2 now Herr Hn Hne Hnow.
    rewrite CooldownTracker.is_in_cooldown_mark_failure_eq. apply orb_true_iff. left.
    pose proof (marked_cooldown_min _ _ (should_fallback_reason err Herr) Hn Hne).
    unfold ns_per_sec in *. lia.
  - intros w Hcool. apply skip_in_cooldown. intros w1.
    destruct (ok_providers _ _ Hok) as [-> _]. apply Hcool.
Qed.

(** Claude times out once, and the next request goes straight to OpenAI. *)
Definition two_providers : FallbackProvider Scripted.t unit string string :=
  FallbackProvider.with_fallback_model
    (FallbackProvider.new (Scripted.provider "claude") (Scripted.provider "openai"))
    (Some "gpt").
Definition outage : Scripted.t :=
  Scripted.start [(10, Err (ProviderTyped (Timeout "t"))); (10, Ok "a"); (10, Ok "b")].

Example after_an_outage :
  let '((r1, self1), w1) := FallbackProvider.chat two_providers tt None outage in
  let '((r2, _), w2) := FallbackProvider.chat self1 tt None w1 in
  (r1, r2, Scripted.calls w2) =
  (Ok "a", Ok "b", [("claude", None); ("openai", Some "gpt"); ("openai", Some "gpt")]).
Proof. vm_compute. reflexivity. Qed.
