(* ===== verification/Rotation.v ===== *)
(** Rotation over several providers with health tracking:
    src/src/providers/rotation.rs, with the price table of
    src/src/utils/cost.rs.

    A state of the rotation is threaded through the calls; the order of the
    reads of the clock is the code's. *)

From S2P Require Import Prelude Errors Provider.

(** ** Prices *)

(** Input prices in hundredths of a dollar per million tokens: the [f64]
    literals of the table compare as the decimals they are written as. A model
    without a price costs [f64::MAX], above all of them. *)
Definition default_pricing : gmap string Z :=
  list_to_map
    [ ("claude-sonnet-4-6", 300);
      ("claude-sonnet-4-5-20250929", 300);
      ("claude-3-5-sonnet-20241022", 300);
      ("claude-opus-4-6", 1500);
      ("claude-3-opus-20240229", 1500);
      ("claude-3-haiku-20240307", 25);
      ("gpt-5.1", 250);
      ("gpt-4o-mini", 15);
      ("gpt-4-turbo", 1000) ].

(** [a < b] on costs, [None] standing for [f64::MAX]. *)
Definition cost_lt (a b : option Z) : bool :=
  match a, b with
  | Some x, Some y => x <? y
  | Some _, None => true
  | None, _ => false
  end.

(** ** Health *)

Record ProviderHealth : Type := mkProviderHealth {
  failure_count : Z;
  last_failure_epoch : Z;
  failure_threshold : Z;
  cooldown_secs : Z;
}.

Module ProviderHealth.

Definition new (threshold cooldown : Z) : ProviderHealth :=
  {| failure_count := 0; last_failure_epoch := 0;
     failure_threshold := threshold; cooldown_secs := cooldown |}.

Definition is_healthy {W} `{World W} (self : ProviderHealth) : M W bool :=
  if failure_count self <? failure_threshold self then ret true
  else let* now := epoch_secs in
       ret (cooldown_secs self <=? sat_sub now (last_failure_epoch self)).

Definition record_success (self : ProviderHealth) : ProviderHealth :=
  {| failure_count := 0; last_failure_epoch := last_failure_epoch self;
     failure_threshold := failure_threshold self; cooldown_secs := cooldown_secs self |}.

Definition record_failure {W} `{World W} (self : ProviderHealth) : M W ProviderHealth :=
  let* now := epoch_secs in
  ret {| failure_count := wadd32 (failure_count self) 1; last_failure_epoch := now;
         failure_threshold := failure_threshold self; cooldown_secs := cooldown_secs self |}.
End ProviderHealth.

(** ** The provider *)

Inductive RotationStrategy : Type := Priority | RoundRobin | CostAware.

Record RotationProvider (W P R V : Type) := mkRotationProvider {
  providers : list (LLMProvider W P R V * ProviderHealth);
  strategy : RotationStrategy;
  round_robin_index : Z;
  composite_name : string;
}.
Arguments mkRotationProvider {W P R V} _ _ _ _.
Arguments providers {W P R V} _.
Arguments strategy {W P R V} _.
Arguments round_robin_index {W P R V} _.
Arguments composite_name {W P R V} _.

(** [Iterator::min_by_key], which keeps the first of equal minima. *)
Fixpoint min_index_by {A} (key : A → Z) (l : list A) (i : nat) (best : option (nat * Z))
    : option nat :=
  match l with
  | [] => fst <$> best
  | x :: l' =>
    let best' := match best with
                 | Some (_, k) => if key x <? k then Some (i, key x) else best
                 | None => Some (i, key x)
                 end in
    min_index_by key l' (S i) best'
  end.

(** [RotationProvider::should_rotate]. *)
Definition should_rotate (err : ZeptoError) : bool :=
  match err with
  | ProviderTyped pe => Errors.should_fallback pe
  | _ => true
  end.

Module RotationProvider.
Section methods.
Context {W P R V : Type} `{World W}.
Implicit Types self : RotationProvider W P R V.

(** [new] panics on an empty list. *)
Definition new (ps : list (LLMProvider W P R V)) (strategy : RotationStrategy)
    (threshold cooldown : Z) : outcome (RotationProvider W P R V) :=
  match ps with
  | [] => Panic
  | _ =>
    Ret {| providers := map (λ p, (p, ProviderHealth.new threshold cooldown)) ps;
           strategy := strategy; round_robin_index := 0;
           composite_name := "rotation(" +:+ join ", " (map provider_name ps) +:+ ")" |}
  end.

Definition with_providers self ps : RotationProvider W P R V :=
  {| providers := ps; strategy := strategy self;
     round_robin_index := round_robin_index self; composite_name := composite_name self |}.

Definition oldest_unhealthy_index self : nat :=
  default 0%nat (min_index_by (λ x, last_failure_epoch (snd x)) (providers self) 0 None).

(** The first index of [order] whose provider is healthy; indices past the
    end would panic, and are not healthy here (none occurs). *)
Fixpoint find_healthy self (order : list nat) : M W (option nat) :=
  match order with
  | [] => ret None
  | i :: order' =>
    match providers self !! i with
    | Some (_, h) =>
      let* healthy := ProviderHealth.is_healthy h in
      if healthy then ret (Some i) else find_healthy self order'
    | None => find_healthy self order'
    end
  end.

(** [(start + offset) % len] for [offset] from 0 up. *)
Definition rotated (start len : nat) : list nat :=
  map (λ offset, (start + offset) mod len)%nat (seq 0 len).

Fixpoint cheapest_healthy (ps : list (LLMProvider W P R V * ProviderHealth)) (i : nat)
    (best_cost : option Z) (best_index : option nat) : M W (option nat) :=
  match ps with
  | [] => ret best_index
  | (provider, health) :: ps' =>
    let* healthy := ProviderHealth.is_healthy health in
    if negb healthy then cheapest_healthy ps' (S i) best_cost best_index
    else
      let cost := default_pricing !! default_model provider in
      if cost_lt cost best_cost
      then cheapest_healthy ps' (S i) cost (Some i)
      else cheapest_healthy ps' (S i) best_cost best_index
  end.

Definition select_provider_index self : M W (nat * RotationProvider W P R V) :=
  let len := length (providers self) in
  match strategy self with
  | Priority =>
    let* found := find_healthy self (seq 0 len) in
    ret (default (oldest_unhealthy_index self) found, self)
  | RoundRobin =>
    let start := Z.to_nat (round_robin_index self) in
    let self' := {| providers := providers self; strategy := strategy self;
                    round_robin_index := wadd32 (round_robin_index self) 1;
                    composite_name := composite_name self |} in
    let* found := find_healthy self' (rotated start len) in
    ret (default (oldest_unhealthy_index self') found, self')
  | CostAware =>
    let* found := cheapest_healthy (providers self) 0 None None in
    ret (default (oldest_unhealthy_index self) found, self)
  end.

(** [call] is the inner method, of the provider at hand. *)
Fixpoint try_from {A} self (call : LLMProvider W P R V → M W (result ZeptoError A))
    (exhausted : string) (order : list nat) (is_start : bool) (last_err : option ZeptoError)
    : M W (outcome (result ZeptoError A) * RotationProvider W P R V) :=
  match order with
  | [] => ret (Ret (Err (default (Provider exhausted) last_err)), self)
  | i :: order' =>
    match providers self !! i with
    | None => ret (Panic, self)
    | Some (provider, health) =>
      let* skip := (if is_start then ret false
                    else let* healthy := ProviderHealth.is_healthy health in ret (negb healthy)) in
      if skip then try_from self call exhausted order' false last_err
      else
        let* r := call provider in
        match r with
        | Ok response =>
          ret (Ret (Ok response),
               with_providers self
                 (<[i := (provider, ProviderHealth.record_success health)]> (providers self)))
        | Err err =>
          if should_rotate err then
            let* health' := ProviderHealth.record_failure health in
            try_from (with_providers self (<[i := (provider, health')]> (providers self)))
              call exhausted order' false (Some err)
          else ret (Ret (Err err), self)
        end
    end
  end.

Definition chat self (req : P) (model : option string)
    : M W (outcome (result ZeptoError R) * RotationProvider W P R V) :=
  let* selected := select_provider_index self in
  let '(start_index, self) := selected in
  try_from self (λ p, Provider.chat p req model) "All rotation providers failed"
    (rotated start_index (length (providers self))) true None.

Definition chat_stream self (req : P) (model : option string)
    : M W (outcome (result ZeptoError V) * RotationProvider W P R V) :=
  let* selected := select_provider_index self in
  let '(start_index, self) := selected in
  try_from self (λ p, Provider.chat_stream p req model)
    "All rotation providers failed (streaming)"
    (rotated start_index (length (providers self))) true None.
End methods.
End RotationProvider.

(** ** Selection *)

Section selection.
Context {W P R V : Type} `{World W}.
Implicit Types self : RotationProvider W P R V.
Import RotationProvider.

(** [ans] tells what a read of each provider's health gave, at some time. *)
Definition readings (ps : list (LLMProvider W P R V * ProviderHealth)) (ans : nat → bool) : Prop :=
  ∀ i p h, ps !! i = Some (p, h) → ∃ w, fst (ProviderHealth.is_healthy h w) = ans i.

Lemma readings_exist ps (w : W) : ∃ ans, readings ps ans.
Proof.
  exists (λ i, match ps !! i with
               | Some (_, h) => fst (ProviderHealth.is_healthy h w)
               | None => false
               end).
  intros i p h Hi. exists w. by rewrite Hi.
Qed.

(** One more reading. *)
Lemma readings_update ps ans i p h (w : W) :
  readings ps ans → ps !! i = Some (p, h) →
  readings ps (λ j, if decide (j = i) then fst (ProviderHealth.is_healthy h w) else ans j).
Proof.
  intros Hans Hi j p' h' Hj. case_decide as Hji; [|by eapply Hans].
  subst j. rewrite Hi in Hj. simplify_eq. by exists w.
Qed.

Lemma find_ext_notin (f g : nat → bool) (l : list nat) :
  (∀ j, j ∈ l → f j = g j) → List.find f l = List.find g l.
Proof.
  induction l as [|x l IH]; intros Hfg; simpl; [done|].
  rewrite (Hfg x) by set_solver. rewrite IH; [done|]. intros j Hj. apply Hfg. set_solver.
Qed.

Lemma find_healthy_readings self order (w : W) :
  NoDup order →
  ∃ ans, readings (providers self) ans ∧
    fst (find_healthy self order w) =
      List.find (λ i, ans i && bool_decide (i < length (providers self))%nat) order.
Proof.
  revert w. induction order as [|i order IH]; intros w Hnd; simpl.
  { destruct (readings_exist (providers self) w) as [ans Hans]. by exists ans. }
  apply NoDup_cons in Hnd as [Hi Hnd].
  destruct (providers self !! i) as [[p h]|] eqn:Hp.
  - unfold bind. destruct (ProviderHealth.is_healthy h w) as [b w1] eqn:Hb.
    destruct (IH w1 Hnd) as (ans & Hans & Heq).
    exists (λ j, if decide (j = i) then fst (ProviderHealth.is_healthy h w) else ans j).
    split; [by eapply readings_update|]. rewrite Hb. simpl.
    rewrite decide_True by done.
    rewrite bool_decide_eq_true_2 by (by eapply lookup_lt_Some). rewrite andb_true_r.
    destruct b; [done|]. rewrite Heq. apply find_ext_notin.
    intros j Hj. by rewrite decide_False by (intros ->; done).
  - destruct (IH w Hnd) as (ans & Hans & Heq). exists ans. split; [done|].
    apply lookup_ge_None in Hp.
    rewrite (bool_decide_eq_false_2 (i < _)%nat) by lia. by rewrite andb_false_r.
Qed.

Lemma find_Some_split (f : nat → bool) l i :
  List.find f l = Some i →
  ∃ pre post, l = pre ++ i :: post ∧ f i = true ∧ ∀ j, j ∈ pre → f j = false.
Proof.
  induction l as [|x l IH]; simpl; [done|]. destruct (f x) eqn:Hx.
  - intros [= ->]. exists [], l. set_solver.
  - intros Hf. destruct (IH Hf) as (pre & post & -> & Hi & Hpre).
    exists (x :: pre), post. split_and!; [done..|].
    intros j [->|Hj]%elem_of_cons; auto.
Qed.

Lemma find_None_all (f : nat → bool) l j : List.find f l = None → j ∈ l → f j = false.
Proof.
  intros Hf Hj. by eapply List.find_none in Hf; [|apply list_elem_of_In, Hj].
Qed.

(** *** The oldest failure *)

Lemma min_index_by_spec {A} (key : A → Z) (l : list A) i best :
  (∀ b k, best = Some (b, k) → (b < i)%nat) →
  match min_index_by key l i best with
  | None => l = [] ∧ best = None
  | Some r =>
    (∃ k, best = Some (r, k) ∧ ∀ j x, l !! j = Some x → k ≤ key x) ∨
    (∃ j x, r = (i + j)%nat ∧ l !! j = Some x ∧
       (∀ b k, best = Some (b, k) → key x < k) ∧
       (∀ j' y, l !! j' = Some y → key x ≤ key y ∧ ((j' < j)%nat → key x < key y)))
  end.
Proof.
  revert i best. induction l as [|x l IH]; intros i best Hb; simpl.
  { destruct best as [[b k]|]; simpl; [left|done]. exists k. split; [done|]. intros ? ? [=]. }
  set (best' := match best with
                | Some (_, k) => if key x <? k then Some (i, key x) else best
                | None => Some (i, key x) end).
  assert (best' = best ∧ (∃ b k, best = Some (b, k) ∧ k ≤ key x) ∨
          best' = Some (i, key x) ∧ (∀ b k, best = Some (b, k) → key x < k)) as Hcase.
  { subst best'. destruct best as [[b k]|]; [|right; naive_solver].
    destruct (Z.ltb_spec (key x) k); [right|left]; naive_solver. }
  specialize (IH (S i) best'). destruct (min_index_by key l (S i) best') as [r|].
  - destruct IH as [(k & Hk & Hle)|(j & y & -> & Hj & Hbest & Hmin)].
    + intros b k Hbk. destruct Hcase as [[Heq _]|[Heq _]]; rewrite Heq in Hbk.
      * apply Hb in Hbk. lia.
      * simplify_eq. lia.
    + destruct Hcase as [[Heq (b & k' & Hbk & Hx)]|[Heq Hlt]]; rewrite Heq in Hk.
      * left. exists k. split; [done|]. intros [|j] y Hy; simplify_eq/=; eauto.
      * right. simplify_eq. exists 0%nat, x. split_and!; [lia|done|done|].
        intros [|j'] y Hy; simplify_eq/=; [lia|]. split; [by eapply Hle|lia].
    + right. exists (S j), y. split_and!; [lia|done| |].
      * intros b k Hbk. destruct Hcase as [[Heq _]|[Heq Hlt]].
        -- apply (Hbest b). by rewrite Heq.
        -- specialize (Hbest _ _ Heq). specialize (Hlt _ _ Hbk). lia.
      * intros [|j'] z Hz; simplify_eq/=.
        -- destruct Hcase as [[Heq (b & k & Hbk & Hx)]|[Heq Hlt]].
           ++ specialize (Hbest b k). rewrite Heq in Hbest. specialize (Hbest Hbk). lia.
           ++ specialize (Hbest _ _ Heq). lia.
        -- destruct (Hmin j' z Hz) as [? Hlt]. split; [done|]. intros. apply Hlt. lia.
  - destruct IH as [_ Hn].
    + intros b k Hbk. destruct Hcase as [[Heq _]|[Heq _]]; rewrite Heq in Hbk.
      * apply Hb in Hbk. lia.
      * simplify_eq. lia.
    + destruct Hcase as [[Heq (b & k & Hbk & _)]|[Heq _]]; congruence.
Qed.

(** [i] is the first provider whose last failure is the oldest. *)
Definition is_oldest (ps : list (LLMProvider W P R V * ProviderHealth)) (i : nat) : Prop :=
  ∃ p h, ps !! i = Some (p, h) ∧
    ∀ j p' h', ps !! j = Some (p', h') →
      last_failure_epoch h ≤ last_failure_epoch h' ∧
      ((j < i)%nat → last_failure_epoch h < last_failure_epoch h').

Lemma oldest_unhealthy_spec self :
  providers self ≠ [] → is_oldest (providers self) (oldest_unhealthy_index self).
Proof.
  intros Hne. unfold oldest_unhealthy_index.
  pose proof (min_index_by_spec (λ x : LLMProvider W P R V * ProviderHealth,
    last_failure_epoch (snd x)) (providers self) 0 None) as Hmin.
  destruct (min_index_by _ _ _ _) as [r|]; simpl.
  - destruct Hmin as [(? & [=] & _)|(j & [p h] & -> & Hj & _ & Hmin)]; [done|].
    exists p, h. split; [done|]. intros j' p' h' Hj'. apply (Hmin j' (p', h') Hj').
  - destruct Hmin as [? _]; done.
Qed.

(** *** The cheapest provider *)

Fixpoint cheapest (ans : nat → bool) (ps : list (LLMProvider W P R V * ProviderHealth))
    (i : nat) (best_cost : option Z) (best_index : option nat) : option nat :=
  match ps with
  | [] => best_index
  | (p, _) :: ps' =>
    let cost := default_pricing !! default_model p in
    if ans i && cost_lt cost best_cost then cheapest ans ps' (S i) cost (Some i)
    else cheapest ans ps' (S i) best_cost best_index
  end.

Lemma cheapest_ext (f g : nat → bool) ps i bc bi :
  (∀ j, (i ≤ j)%nat → f j = g j) → cheapest f ps i bc bi = cheapest g ps i bc bi.
Proof.
  revert i bc bi. induction ps as [|[p h] ps IH]; intros i bc bi Hfg; simpl; [done|].
  rewrite (Hfg i) by lia. case_match; apply IH; intros; apply Hfg; lia.
Qed.

Lemma cheapest_healthy_readings all ps i bc bi (w : W) :
  (∀ j, ps !! j = all !! (i + j)%nat) →
  ∃ ans, readings all ans ∧
    fst (cheapest_healthy ps i bc bi w) = cheapest ans ps i bc bi.
Proof.
  revert i bc bi w. induction ps as [|[p h] ps IH]; intros i bc bi w Hall.
  { destruct (readings_exist all w) as [ans Hans]. by exists ans. }
  assert (Hps : ∀ j, ps !! j = all !! (S i + j)%nat).
  { intros j. specialize (Hall (S j)). simpl in Hall. rewrite Hall. f_equal. lia. }
  assert (Hi : all !! i = Some (p, h)) by (rewrite <- (Nat.add_0_r i), <- Hall; done).
  simpl. unfold bind. destruct (ProviderHealth.is_healthy h w) as [b w1] eqn:Hb.
  set (cost := default_pricing !! default_model p).
  assert (∀ bc' bi', ∃ ans, readings all ans ∧ ans i = b ∧
    fst (cheapest_healthy ps (S i) bc' bi' w1) = cheapest ans ps (S i) bc' bi') as Hrest.
  { intros bc' bi'. destruct (IH (S i) bc' bi' w1 Hps) as (ans & Hans & Heq).
    exists (λ j, if decide (j = i) then fst (ProviderHealth.is_healthy h w) else ans j).
    split_and!; [by eapply readings_update|by rewrite decide_True, Hb by done|].
    rewrite Heq. apply cheapest_ext. intros j Hj. by rewrite decide_False by lia. }
  destruct b; simpl.
  - destruct (cost_lt cost bc) eqn:Hc.
    + destruct (Hrest cost (Some i)) as (ans & Hans & Hai & Heq).
      exists ans. by rewrite Hai.
    + destruct (Hrest bc bi) as (ans & Hans & Hai & Heq). exists ans. by rewrite Hai.
  - destruct (Hrest bc bi) as (ans & Hans & Hai & Heq). exists ans. by rewrite Hai.
Qed.

Definition price (x : LLMProvider W P R V * ProviderHealth) : option Z :=
  default_pricing !! default_model (fst x).

Lemma cheapest_spec ans ps i bc bi :
  (cheapest ans ps i bc bi = bi ∧
   ∀ j x, ps !! j = Some x → ans (i + j)%nat = true → cost_lt (price x) bc = false) ∨
  (∃ j x, cheapest ans ps i bc bi = Some (i + j)%nat ∧ ps !! j = Some x ∧
     ans (i + j)%nat = true ∧ cost_lt (price x) bc = true ∧
     ∀ j' y, ps !! j' = Some y → ans (i + j')%nat = true →
       cost_lt (price y) (price x) = false ∧
       ((j' < j)%nat → cost_lt (price x) (price y) = true)).
Proof.
  revert i bc bi. induction ps as [|[p h] ps IH]; intros i bc bi; simpl; [by left|].
  change (default_pricing !! default_model p) with (price (p, h)).
  destruct (ans i && cost_lt (price (p, h)) bc) eqn:Htake.
  - apply andb_true_iff in Htake as [Hai Hlt]. right.
    destruct (IH (S i) (price (p, h)) (Some i)) as [[Heq Hno]|(j & x & Heq & Hj & Hans & Hx & Hmin)].
    + exists 0%nat, (p, h). rewrite Nat.add_0_r. split_and!; try done.
      intros [|j'] y Hy Hay; simplify_eq/=.
      * split; [|lia]. destruct (price _); simpl; [lia|done].
      * split; [|lia]. eapply Hno; [done|]. by rewrite Nat.add_succ_r in Hay.
    + exists (S j), x. rewrite Nat.add_succ_r. split_and!; try done.
      * destruct (price x), (price (p, h)), bc; simpl in *; lia.
      * intros [|j'] y Hy Hay; simplify_eq/=.
        -- split; [|done]. destruct (price x), (price (p, h)); simpl in *; try done; lia.
        -- rewrite Nat.add_succ_r in Hay. destruct (Hmin j' y Hy Hay) as [? Hlt'].
           split; [done|]. intros. apply Hlt'. lia.
  - destruct (IH (S i) bc bi) as [[Heq Hno]|(j & x & Heq & Hj & Hans & Hx & Hmin)].
    + left. split; [done|]. intros [|j'] y Hy Hay; simplify_eq/=.
      * rewrite Nat.add_0_r in Hay. rewrite Hay in Htake. done.
      * eapply Hno; [done|]. by rewrite Nat.add_succ_r in Hay.
    + right. exists (S j), x. rewrite Nat.add_succ_r. split_and!; try done.
      intros [|j'] y Hy Hay; simplify_eq/=.
      * rewrite Nat.add_0_r in Hay. rewrite Hay in Htake. simpl in Htake.
        split; [|intros _]; destruct (price x), (price (p, h)), bc; simpl in *; try done; lia.
      * rewrite Nat.add_succ_r in Hay. destruct (Hmin j' y Hy Hay) as [? Hlt'].
        split; [done|]. intros. apply Hlt'. lia.
Qed.
End selection.

(** ** Trying the providers in turn *)

Section trying.
Context {W P R V : Type} `{World W} {A : Type}.
Implicit Types self : RotationProvider W P R V.
Import RotationProvider.

(** The calls of a request, in order: the index of the provider, its answer. *)
Abbreviation log := (list (nat * result ZeptoError A)).

Definition rotates (x : nat * result ZeptoError A) : Prop :=
  ∃ e, snd x = Err e ∧ should_rotate e = true.

Definition count_after (h : ProviderHealth) (x : option (result ZeptoError A)) : Z :=
  match x with
  | None => failure_count h
  | Some (Ok _) => 0
  | Some (Err e) => if should_rotate e then wadd32 (failure_count h) 1 else failure_count h
  end.

Fixpoint answer_of (l : log) (i : nat) : option (result ZeptoError A) :=
  match l with
  | [] => None
  | (j, r) :: l' => if decide (i = j) then Some r else answer_of l' i
  end.

(** What a request that goes through [order] did, in terms of its calls [l]:
    which were made, what they left in the health of the providers, and which
    result came out of them. *)
Record tried self (order : list nat) (is_start : bool) (otherwise : result ZeptoError A)
    (l : log) (r : result ZeptoError A) (self' : RotationProvider W P R V) : Prop := {
  tried_order : sublist (l.*1) order;
  tried_start : is_start = true → head (l.*1) = head order;
  tried_before : Forall rotates (removelast l);
  tried_result : r = from_option snd otherwise (last l);
  tried_skipped : ∀ i, i ∈ order → answer_of l i = None → (∀ e, r = Err e → should_rotate e = true) →
    (∃ a, r = Ok a) ∨
    ∃ p h w, providers self !! i = Some (p, h) ∧ fst (ProviderHealth.is_healthy h w) = false;
  tried_health : ∀ i p h, providers self !! i = Some (p, h) →
    ∃ h', providers self' !! i = Some (p, h') ∧ failure_count h' = count_after h (answer_of l i);
}.

Lemma answer_of_notin (l : log) i : i ∉ l.*1 → answer_of l i = None.
Proof.
  induction l as [|[j r] l IH]; simpl; [done|]. intros Hi.
  apply not_elem_of_cons in Hi as [? Hi]. rewrite decide_False by done. by apply IH.
Qed.

Lemma answer_of_None_notin (l : log) i : answer_of l i = None → i ∉ l.*1.
Proof.
  induction l as [|[j r] l IH]; simpl; [set_solver|].
  case_decide; [done|]. intros Hi. apply IH in Hi. set_solver.
Qed.

Lemma insert_other_health self i j (x : LLMProvider W P R V * ProviderHealth) :
  i ≠ j → providers (with_providers self (<[i := x]> (providers self))) !! j = providers self !! j.
Proof. intros Hij. simpl. by rewrite list_lookup_insert_ne. Qed.

Lemma insert_own_health self i (x y : LLMProvider W P R V * ProviderHealth) :
  providers self !! i = Some y →
  providers (with_providers self (<[i := x]> (providers self))) !! i = Some x.
Proof. intros Hi. simpl. apply list_lookup_insert_eq. by eapply lookup_lt_Some. Qed.

(** The last call of a request. *)
Lemma tried_one self i order is_start otherwise r p h self' :
  providers self !! i = Some (p, h) →
  (is_start = true → True) →
  (∀ e, r = Err e → should_rotate e = false) →
  (∀ j, j ≠ i → providers self' !! j = providers self !! j) →
  (∃ h', providers self' !! i = Some (p, h') ∧ failure_count h' = count_after h (Some r)) →
  tried self (i :: order) is_start otherwise [(i, r)] r self'.
Proof.
  intros Hi _ Hr Hother Hown. split; simpl.
  - apply sublist_skip, sublist_nil_l.
  - done.
  - constructor.
  - done.
  - intros j _ _ Hrot. left. destruct r as [a|e]; [by exists a|].
    specialize (Hrot e eq_refl). by rewrite (Hr e eq_refl) in Hrot.
  - intros j q k Hj. case_decide as Hji.
    + subst j. rewrite Hi in Hj. by simplify_eq.
    + rewrite Hother by done. by exists k.
Qed.

(** A call that rotates, and the rest of the request. *)
Lemma tried_cons self i order is_start otherwise l e r p h h' self' :
  NoDup (i :: order) → providers self !! i = Some (p, h) →
  should_rotate e = true → failure_count h' = wadd32 (failure_count h) 1 →
  tried (with_providers self (<[i := (p, h')]> (providers self))) order false (Err e) l r self' →
  tried self (i :: order) is_start otherwise ((i, Err e) :: l) r self'.
Proof.
  intros Hnd Hi He Hh'. apply NoDup_cons in Hnd as [Hni Hnd].
  intros [Hsub _ Hbefore Hres Hskip Hhealth]. split; cbn [fmap list_fmap fst].
  - by apply sublist_skip.
  - done.
  - destruct l as [|x l]; simpl; [constructor|]. constructor; [by exists e|done].
  - rewrite Hres. destruct l as [|x l]; [done|]. rewrite last_cons_cons.
    destruct (last (x :: l)) eqn:El; [done|]. by apply last_None in El.
  - intros j Hj. cbn [answer_of]. case_decide as Hji; [done|]. intros Ha Hrot.
    apply elem_of_cons in Hj as [?|Hj]; [done|].
    destruct (Hskip j Hj Ha Hrot) as [?|(q & k & w & Hq & Hw)]; [by left|right].
    rewrite insert_other_health in Hq by congruence. eauto.
  - intros j q k Hj. cbn [answer_of]. case_decide as Hji.
    + subst j. rewrite Hi in Hj. simplify_eq.
      destruct (Hhealth i q h') as (k' & Hk' & Hc); [by eapply insert_own_health|].
      exists k'. split; [done|]. rewrite Hc, answer_of_notin by
        (intros Hin; by apply Hni, (sublist_subseteq _ _ Hsub)).
      simpl. by rewrite Hh', He.
    + apply Hhealth. by rewrite insert_other_health by congruence.
Qed.

Lemma tried_skip self i order otherwise l r self' p h w :
  NoDup (i :: order) → providers self !! i = Some (p, h) →
  fst (ProviderHealth.is_healthy h w) = false →
  tried self order false otherwise l r self' →
  tried self (i :: order) false otherwise l r self'.
Proof.
  intros Hnd Hi Hw [Hsub _ Hbefore Hres Hskip Hhealth]. split; try done.
  - by apply sublist_cons.
  - intros j Hj Ha Hrot. apply elem_of_cons in Hj as [->|Hj]; [|by apply Hskip].
    right. eauto 10.
Qed.

Lemma try_from_tried self (call : LLMProvider W P R V → M W (result ZeptoError A))
    exhausted order is_start last_err (w : W) :
  NoDup order → (∀ i, i ∈ order → (i < length (providers self))%nat) →
  ∃ l r self' w',
    try_from self call exhausted order is_start last_err w = ((Ret r, self'), w') ∧
    tried self order is_start (Err (default (Provider exhausted) last_err)) l r self'.
Proof.
  revert self is_start last_err w.
  induction order as [|i order IH]; intros self is_start last_err w Hnd Hlt.
  { exists [], (Err (default (Provider exhausted) last_err)), self, w. split; [done|].
    split; simpl; try done; try set_solver. }
  assert (is_Some (providers self !! i)) as [[p h] Hi]
    by (apply lookup_lt_is_Some, Hlt; set_solver).
  assert (∀ j, j ∈ order → (j < length (providers self))%nat) as Hlt' by set_solver.
  pose proof Hnd as Hnd'. apply NoDup_cons in Hnd' as [Hni Hnd'].
  cbn [try_from]. rewrite Hi. unfold bind at 1.
  assert (∃ skip w1,
    (if is_start then ret false
     else let* healthy := ProviderHealth.is_healthy h in ret (negb healthy)) w = (skip, w1) ∧
    (skip = true → is_start = false ∧ ∃ w, fst (ProviderHealth.is_healthy h w) = false))
    as (skip & w1 & Heq & Hskip).
  { destruct is_start; [by exists false, w|]. unfold bind.
    destruct (ProviderHealth.is_healthy h w) as [b w1] eqn:Hb.
    exists (negb b), w1. split; [done|]. intros Hneg. split; [done|].
    exists w. rewrite Hb. by destruct b. }
  rewrite Heq. destruct skip.
  { destruct (Hskip eq_refl) as [-> [w2 Hw2]].
    destruct (IH self false last_err w1 Hnd' Hlt') as (l & r & self' & w' & Hrun & Htried).
    exists l, r, self', w'. split; [done|]. by eapply tried_skip. }
  unfold bind at 1. destruct (call p w1) as [[a|e] w2].
  { eexists [(i, Ok a)], (Ok a), _, _. split; [done|].
    eapply tried_one; [done|done|done| |].
    - intros j Hj. by rewrite insert_other_health by congruence.
    - eexists. by rewrite (insert_own_health _ _ _ (p, h)). }
  destruct (should_rotate e) eqn:He.
  - unfold bind at 1, ProviderHealth.record_failure, bind, ret.
    destruct (epoch_secs w2) as [now w3]. cbn beta iota.
    match goal with |- context [<[i := (p, ?h')]> (providers self)] => set (hf := h') end.
    destruct (IH (with_providers self (<[i := (p, hf)]> (providers self))) false (Some e) w3)
      as (l & r & self' & w' & Hrun & Htried); [done| |].
    { intros j Hj. simpl. rewrite length_insert. by apply Hlt'. }
    exists ((i, Err e) :: l), r, self', w'. split; [exact Hrun|].
    by eapply (tried_cons _ _ _ _ _ _ _ _ p h hf).
  - exists [(i, Err e)], (Err e), self, w2. split; [done|].
    eapply tried_one; [done|done|by intros ? [= <-]|done|].
    exists h. split; [done|]. simpl. by rewrite He.
Qed.
End trying.

(** ** The properties of a request *)

Section requests.
Context {W P R V : Type} `{World W}.
Implicit Types self : RotationProvider W P R V.
Import RotationProvider.

Lemma NoDup_rotated start len : NoDup (rotated start len).
Proof.
  apply NoDup_fmap_2_strong; [|apply NoDup_seq].
  intros x y [_ Hx]%elem_of_seq [_ Hy]%elem_of_seq Heq. simpl in *.
  pose proof (Nat.div_mod_eq (start + x) len). pose proof (Nat.div_mod_eq (start + y) len).
  set (q := ((start + x) / len)%nat) in *. set (q' := ((start + y) / len)%nat) in *.
  destruct (Nat.lt_trichotomy q q') as [Hq|[Hq|Hq]]; [|rewrite Hq in *; lia|].
  - assert (len * (q + 1) ≤ len * q')%nat by (apply Nat.mul_le_mono_l; lia). lia.
  - assert (len * (q' + 1) ≤ len * q)%nat by (apply Nat.mul_le_mono_l; lia). lia.
Qed.

Lemma elem_of_rotated start len i : i ∈ rotated start len ↔ (i < len)%nat.
Proof.
  unfold rotated. rewrite list_elem_of_fmap. split.
  - intros (k & -> & Hk%elem_of_seq). apply Nat.mod_upper_bound. lia.
  - intros Hi. exists ((i + (len - start mod len)) mod len)%nat.
    assert (start mod len < len)%nat by (apply Nat.mod_upper_bound; lia).
    split; [|apply elem_of_seq; split; [lia|apply Nat.mod_upper_bound; lia]].
    rewrite Nat.Div0.add_mod_idemp_r.
    rewrite <- (Nat.Div0.add_mod_idemp_l start).
    replace (start mod len + (i + (len - start mod len)))%nat with (i + 1 * len)%nat by lia.
    rewrite Nat.Div0.mod_add. symmetry. by apply Nat.mod_small.
Qed.

Lemma rotated_head start len : (start < len)%nat → head (rotated start len) = Some start.
Proof.
  intros Hs. destruct len as [|len]; [lia|]. unfold rotated. cbn [seq map head]. f_equal.
  rewrite Nat.add_0_r. by apply Nat.mod_small.
Qed.

(** The selection as the code documents it, in terms of the health read. *)
Definition selected self (ans : nat → bool) (i : nat) : Prop :=
  let ps := providers self in
  let len := length ps in
  match strategy self with
  | Priority =>
    (ans i = true ∧ ∀ j, (j < i)%nat → ans j = false) ∨
    ((∀ j, (j < len)%nat → ans j = false) ∧ is_oldest ps i)
  | RoundRobin =>
    (∃ k, (k < len)%nat ∧ i = ((Z.to_nat (round_robin_index self) + k) mod len)%nat ∧
       ans i = true ∧
       ∀ k', (k' < k)%nat → ans ((Z.to_nat (round_robin_index self) + k') mod len)%nat = false) ∨
    ((∀ j, (j < len)%nat → ans j = false) ∧ is_oldest ps i)
  | CostAware =>
    (∃ x c, ps !! i = Some x ∧ price x = Some c ∧ ans i = true ∧
       ∀ j y d, ps !! j = Some y → ans j = true → price y = Some d →
         c ≤ d ∧ ((j < i)%nat → c < d)) ∨
    ((∀ j y, ps !! j = Some y → ans j = true → price y = None) ∧ is_oldest ps i)
  end.

Lemma seq_prefix pre i post len j :
  seq 0 len = pre ++ i :: post → (j < i)%nat → j ∈ pre.
Proof.
  intros Hseq Hj.
  assert (length pre = i) as Hlen.
  { pose proof (f_equal (λ l, l !! length pre) Hseq) as Hl. simpl in Hl.
    rewrite list_lookup_middle in Hl by done.
    apply lookup_seq in Hl as [Hl _]. lia. }
  pose proof (f_equal (λ l, l !! j) Hseq) as Hl. simpl in Hl.
  rewrite lookup_app_l in Hl by lia.
  assert (length (seq 0 len) = length pre + S (length post))%nat as Hn
    by (rewrite Hseq, length_app; done).
  rewrite length_seq in Hn. rewrite (lookup_seq_lt 0 len j) in Hl by lia.
  symmetry in Hl. by apply list_elem_of_lookup_2 in Hl.
Qed.

Lemma is_oldest_lt ps i : is_oldest (W:=W) (P:=P) (R:=R) (V:=V) ps i → (i < length ps)%nat.
Proof. intros (p & h & Hi & _). by eapply lookup_lt_Some. Qed.

Lemma find_in_range self (ans : nat → bool) order :
  (∀ i, i ∈ order ↔ (i < length (providers self))%nat) →
  match List.find (λ i, ans i && bool_decide (i < length (providers self))%nat) order with
  | Some i => (i < length (providers self))%nat ∧ ans i = true ∧
      ∃ pre post, order = pre ++ i :: post ∧ ∀ j, j ∈ pre → ans j = false
  | None => ∀ j, (j < length (providers self))%nat → ans j = false
  end.
Proof.
  intros Horder. destruct (List.find _ order) as [i|] eqn:Hf.
  - apply find_Some_split in Hf as (pre & post & Heq & Hi & Hpre).
    apply andb_true_iff in Hi as [Hi Hlt]. apply bool_decide_eq_true in Hlt.
    split_and!; [done..|]. exists pre, post. split; [done|].
    intros j Hj. specialize (Hpre j Hj). simpl in Hpre.
    rewrite bool_decide_eq_true_2 in Hpre; [by rewrite andb_true_r in Hpre|].
    apply Horder. rewrite Heq. set_solver.
  - intros j Hj. eapply find_None_all in Hf; [|by apply Horder]. simpl in Hf.
    rewrite bool_decide_eq_true_2 in Hf by done. by rewrite andb_true_r in Hf.
Qed.

Lemma select_spec self (w : W) :
  providers self ≠ [] →
  ∃ ans i self' w', readings (providers self) ans ∧
    select_provider_index self w = ((i, self'), w') ∧
    providers self' = providers self ∧ (i < length (providers self))%nat ∧
    selected self ans i.
Proof.
  intros Hne. unfold select_provider_index, selected.
  pose proof (oldest_unhealthy_spec self Hne) as Hold.
  destruct (strategy self).
  - unfold bind.
    destruct (find_healthy_readings self (seq 0 (length (providers self))) w) as (ans & Hans & Heq);
      [apply NoDup_seq|].
    destruct (find_healthy self _ w) as [found w'] eqn:Hf. simpl in Heq.
    exists ans, (default (oldest_unhealthy_index self) found), self, w'.
    pose proof (find_in_range self ans (seq 0 (length (providers self)))) as Hfind.
    rewrite <- Heq in Hfind. specialize (Hfind ltac:(intros; rewrite elem_of_seq; lia)).
    destruct found as [i|]; simpl.
    + destruct Hfind as (Hi & Ha & pre & post & Hseq & Hpre). split_and!; try done.
      left. split; [done|]. intros j Hj. apply Hpre. by eapply seq_prefix.
    + split_and!; try done; [by eapply is_oldest_lt|]. by right.
  - unfold bind. set (self' := mkRotationProvider _ _ _ _).
    set (start := Z.to_nat (round_robin_index self)).
    destruct (find_healthy_readings self' (rotated start (length (providers self))) w)
      as (ans & Hans & Heq); [apply NoDup_rotated|].
    destruct (find_healthy self' _ w) as [found w'] eqn:Hf. simpl in Heq.
    exists ans, (default (oldest_unhealthy_index self') found), self', w'.
    pose proof (find_in_range self ans (rotated start (length (providers self)))) as Hfind.
    rewrite <- Heq in Hfind. specialize (Hfind (elem_of_rotated _ _)).
    destruct found as [i|]; simpl.
    + destruct Hfind as (Hi & Ha & pre & post & Hseq & Hpre). split_and!; try done.
      left. pose proof (f_equal (λ l, l !! length pre) Hseq) as Hl. simpl in Hl.
      rewrite list_lookup_middle in Hl by done. unfold rotated in Hl.
      apply list_lookup_fmap_Some in Hl as (k & -> & Hk).
      apply lookup_seq in Hk as [Hk Hlt]. simpl in Hk. subst k.
      exists (length pre). split_and!; [done..|].
      intros k Hk. apply Hpre.
      assert (rotated start (length (providers self)) !! k
              = Some ((start + k) mod length (providers self))%nat) as Hk'.
      { unfold rotated. apply list_lookup_fmap_Some. exists k. split; [done|].
        apply lookup_seq. lia. }
      rewrite Hseq, lookup_app_l in Hk' by done. by eapply list_elem_of_lookup_2.
    + split_and!; try done; [by eapply (is_oldest_lt (providers self))|]. by right.
  - unfold bind.
    destruct (cheapest_healthy_readings (providers self) (providers self) 0 None None w)
      as (ans & Hans & Heq); [done|].
    destruct (cheapest_healthy (providers self) 0 None None w) as [found w'] eqn:Hf. simpl in Heq.
    exists ans, (default (oldest_unhealthy_index self) found), self, w'. subst found.
    destruct (cheapest_spec ans (providers self) 0 None None)
      as [[-> Hno]|(j & x & -> & Hj & Ha & Hx & Hmin)]; simpl in *.
    + split_and!; try done; [by eapply is_oldest_lt|]. right. split; [|done].
      intros j y Hy Hay. specialize (Hno j y Hy Hay). by destruct (price y).
    + split_and!; try done; [by eapply lookup_lt_Some|]. left.
      destruct (price x) as [c|] eqn:Hc; [|done]. exists x, c. split_and!; try done.
      intros k y d Hy Hay Hd. destruct (Hmin k y Hy Hay) as [Hle Hlt].
      rewrite Hd in *. simpl in *. split; [lia|]. intros Hk. specialize (Hlt Hk). lia.
Qed.
End requests.

(** selection never fails and stays in range, whatever the state of the
    providers; with a reading of every provider's health, it gives the first
    healthy one (Priority), the first healthy one from the round-robin index
    on (RoundRobin), or the cheapest healthy one that has a price, the first of
    equals (CostAware); failing that, the one whose last failure is oldest,
    which for CostAware may be an unhealthy one although a provider without a
    price is healthy. *)
Theorem rotation_selection {W P R V} `{World W} (self : RotationProvider W P R V) (w : W) :
  providers self ≠ [] →
  ∃ ans i self' w', readings (providers self) ans ∧
    RotationProvider.select_provider_index self w = ((i, self'), w') ∧
    providers self' = providers self ∧ (i < length (providers self))%nat ∧
    selected self ans i.
Proof. apply select_spec. Qed.

(** A cheap model that keeps failing, and a healthy one without a price. *)
Definition unpriced_pair : RotationProvider Scripted.t unit string string :=
  let provider name model :=
    {| provider_name := name; default_model := model;
       chat := λ _ m, Scripted.answer name m; chat_stream := λ _ m, Scripted.answer name m |} in
  {| providers :=
       [ (provider "openai" "gpt-4o-mini",
          {| failure_count := 3; last_failure_epoch := 999990;
             failure_threshold := 3; cooldown_secs := 30 |});
         (provider "ollama" "llama3",
          {| failure_count := 1; last_failure_epoch := 999995;
             failure_threshold := 3; cooldown_secs := 30 |}) ];
     strategy := CostAware; round_robin_index := 0; composite_name := "" |}.

(** At second 1000000 the first provider is unhealthy, the second healthy, and
    the first is selected. *)
Lemma rotation_selection_witness :
  let w := Scripted.start [] in
  map (λ x, fst (ProviderHealth.is_healthy (snd x) w)) (providers unpriced_pair) = [false; true] ∧
  fst (fst (RotationProvider.select_provider_index unpriced_pair w)) = 0%nat ∧
  ∃ ans, readings (providers unpriced_pair) ans ∧ selected unpriced_pair ans 0.
Proof.
  cbn zeta. split_and!; [reflexivity|reflexivity|].
  destruct (rotation_selection unpriced_pair (Scripted.start []))
    as (ans & i & self' & w' & Hans & Heq & _ & _ & Hsel); [discriminate|].
  assert (i = 0%nat) as ->.
  { vm_compute in Heq. injection Heq as <- _ _. reflexivity. }
  exists ans. split; assumption.
Defined.

(** a request to a non-empty rotation never panics. It starts with the
    selected provider and goes on through the others in cyclic order, calling
    each at most once; every call before the last failed with an error that
    rotates, and the result is that of the last call. When the last error
    rotates too, every provider not called was unhealthy. A success clears the
    failures of the provider that answered, a rotating error adds one, and
    nothing else changes a count. *)
Theorem rotation_requests_try {W P R V} `{World W} (self : RotationProvider W P R V) req model w :
  providers self ≠ [] →
  (∃ i l r self1 self2 w',
     fst (RotationProvider.select_provider_index self w) = (i, self1) ∧
     RotationProvider.chat self req model w = ((Ret r, self2), w') ∧
     head (l.*1) = Some i ∧ NoDup (l.*1) ∧
     tried self1 (RotationProvider.rotated i (length (providers self1))) true
       (Err (Provider "All rotation providers failed")) l r self2) ∧
  (∃ i l r self1 self2 w',
     fst (RotationProvider.select_provider_index self w) = (i, self1) ∧
     RotationProvider.chat_stream self req model w = ((Ret r, self2), w') ∧
     head (l.*1) = Some i ∧ NoDup (l.*1) ∧
     tried self1 (RotationProvider.rotated i (length (providers self1))) true
       (Err (Provider "All rotation providers failed (streaming)")) l r self2).
Proof.
  intros Hne. unfold RotationProvider.chat, RotationProvider.chat_stream, bind.
  destruct (select_spec self w Hne) as (ans & i & self1 & w1 & _ & Heq & Hps & Hi & _).
  rewrite Heq. rewrite <- Hps in Hi. cbn [fst]. split.
  all: match goal with |- context [RotationProvider.try_from _ ?call ?msg _ _ _ _] =>
    destruct (try_from_tried self1 call msg
                (RotationProvider.rotated i (length (providers self1))) true None w1)
      as (l & r & self2 & w2 & Hrun & Htried);
      [apply NoDup_rotated|intros j; apply elem_of_rotated|] end.
  all: exists i, l, r, self1, self2, w2; split_and!; [done..| | |done].
  all: try (rewrite (tried_start _ _ _ _ _ _ _ Htried) by done; by apply rotated_head).
  all: eapply sublist_NoDup; [apply NoDup_rotated|apply Htried].
Qed.

(** Round robin over three providers, the first of which fails. *)
Definition three_providers : RotationProvider Scripted.t unit string string :=
  match RotationProvider.new
          [Scripted.provider "a"; Scripted.provider "b"; Scripted.provider "c"] RoundRobin 3 30 with
  | Ret self => self
  | Panic => unpriced_pair
  end.
Definition one_timeout : Scripted.t :=
  Scripted.start [(10, Err (ProviderTyped (Timeout "t"))); (10, Ok "hello")].

Lemma rotation_requests_try_witness :
  (∃ l : list (nat * result ZeptoError string), head (l.*1) = Some 0%nat ∧ NoDup (l.*1)) ∧
  (let '((r, self'), w') := RotationProvider.chat three_providers tt None one_timeout in
   r = Ret (Ok "hello") ∧ Scripted.calls w' = [("a", None); ("b", None)] ∧
   map (λ x, failure_count (snd x)) (providers self') = [1; 0; 0]).
Proof.
  split; [|vm_compute; auto].
  destruct (rotation_requests_try three_providers tt None one_timeout)
    as [(i & l & r & self1 & self2 & w' & Hsel & _ & Hhead & Hnd & _) _]; [discriminate|].
  vm_compute in Hsel. injection Hsel as <- _. exists l. split; assumption.
Defined.
