(* ===== verification/LoopGuard.v ===== *)
(** The tool loop guard: src/src/agent/loop_guard.rs, its configuration in
    src/src/config/types.rs and its use in src/src/agent/loop.rs.

    SHA-256 and serde_json are third-party code: [sha256_hex] and
    [json_normalized] are parameters, of which no theorem asks anything. *)

From S2P Require Import Prelude.

(** ** Configuration and state *)

Record LoopGuardConfig : Type := mkLoopGuardConfig {
  enabled : bool;
  warn_threshold : Z;
  block_threshold : Z;
  global_circuit_breaker : Z;
  ping_pong_min_repeats : Z;
  poll_multiplier : Z;
  outcome_warn_threshold : Z;
  outcome_block_threshold : Z;
  window_size : Z;
}.

Definition default_window_size : Z := 200.

Definition LoopGuardConfig_default : LoopGuardConfig := {|
  enabled := true;
  warn_threshold := 3;
  block_threshold := 5;
  global_circuit_breaker := 30;
  ping_pong_min_repeats := 3;
  poll_multiplier := 3;
  outcome_warn_threshold := 2;
  outcome_block_threshold := 3;
  window_size := default_window_size;
|}.

Inductive LoopGuardAction : Type :=
| Allow
| Warn (reason : string) (suggested_delay_ms : option Z)
| Block (reason : string)
| CircuitBreak (total_repetitions : Z).

Record LoopGuardStats : Type := mkLoopGuardStats {
  total_checks : Z;
  warnings : Z;
  blocks : Z;
  circuit_breaks : Z;
  ping_pong_detections : Z;
  outcome_blocks : Z;
}.

Record ToolCallSig : Type := mkToolCallSig { sig_name : string; sig_arguments : string }.

Record LoopGuard : Type := mkLoopGuard {
  config : LoopGuardConfig;
  call_counts : gmap string Z;
  outcome_counts : gmap string Z;
  call_sequence : list string;
  outcome_sequence : list string;
  total_repetitions : Z;
  stats : LoopGuardStats;
}.

Definition POLL_PATTERNS : list string :=
  ["status"; "poll"; "wait"; "docker ps"; "kubectl get"; "git status"].

(** *** Field updates *)

Definition with_calls (g : LoopGuard) (counts : gmap string Z) (seq : list string) : LoopGuard :=
  mkLoopGuard (config g) counts (outcome_counts g) seq (outcome_sequence g)
    (total_repetitions g) (stats g).
Definition with_outcomes (g : LoopGuard) (counts : gmap string Z) (seq : list string) : LoopGuard :=
  mkLoopGuard (config g) (call_counts g) counts (call_sequence g) seq
    (total_repetitions g) (stats g).
Definition with_total (g : LoopGuard) (n : Z) : LoopGuard :=
  mkLoopGuard (config g) (call_counts g) (outcome_counts g) (call_sequence g)
    (outcome_sequence g) n (stats g).
Definition with_stats (g : LoopGuard) (s : LoopGuardStats) : LoopGuard :=
  mkLoopGuard (config g) (call_counts g) (outcome_counts g) (call_sequence g)
    (outcome_sequence g) (total_repetitions g) s.

(** [self.stats.<counter> += 1] for each counter named. *)
Inductive counter : Type :=
| c_checks | c_warnings | c_blocks | c_breaks | c_ping_pong | c_outcome_blocks.
Definition bump (c : counter) (g : LoopGuard) : LoopGuard :=
  let s := stats g in
  let inc (d : counter) (n : Z) :=
    match c, d with
    | c_checks, c_checks | c_warnings, c_warnings | c_blocks, c_blocks
    | c_breaks, c_breaks | c_ping_pong, c_ping_pong
    | c_outcome_blocks, c_outcome_blocks => wadd64 n 1
    | _, _ => n
    end in
  with_stats g
    {| total_checks := inc c_checks (total_checks s);
       warnings := inc c_warnings (warnings s);
       blocks := inc c_blocks (blocks s);
       circuit_breaks := inc c_breaks (circuit_breaks s);
       ping_pong_detections := inc c_ping_pong (ping_pong_detections s);
       outcome_blocks := inc c_outcome_blocks (outcome_blocks s) |}.

Definition new (config : LoopGuardConfig) : LoopGuard :=
  {| config := config; call_counts := ∅; outcome_counts := ∅;
     call_sequence := []; outcome_sequence := []; total_repetitions := 0;
     stats := mkLoopGuardStats 0 0 0 0 0 0 |}.

(** ** Counting *)

(** [*map.entry(h).or_insert(0) += 1]. *)
Definition incr (m : gmap string Z) (h : string) : gmap string Z :=
  <[h := wadd32 (default 0 (m !! h)) 1]> m.

(** [drain(..len - keep/2)]. *)
Definition prune (seq : list string) (keep : nat) : list string :=
  drop (length seq - keep / 2)%nat seq.

(** The counts rebuilt from a sequence. *)
Definition rebuild (seq : list string) : gmap string Z := foldl incr ∅ seq.

Definition prune_call_window (g : LoopGuard) (keep : nat) : LoopGuard :=
  let seq := prune (call_sequence g) keep in with_calls g (rebuild seq) seq.

Definition prune_outcome_window (g : LoopGuard) (keep : nat) : LoopGuard :=
  let seq := prune (outcome_sequence g) keep in with_outcomes g (rebuild seq) seq.

(** ** Ping-pong detection *)

Definition slice (l : list string) (from n : nat) : list string := take n (drop from l).

Definition has_periodic_pattern (seq : list string) (period min_repeats : nat) : bool :=
  if Nat.eqb period 0 || Nat.eqb min_repeats 0 then false
  else
    let needed := (period * min_repeats)%nat in
    if Nat.ltb (length seq) needed then false
    else
      let tail := drop (length seq - needed) seq in
      let pattern := take period tail in
      if forallb (λ h, String.eqb h (nth 0 pattern "")) pattern then false
      else
        forallb (λ cycle,
          let offset := (cycle * period)%nat in
          forallb (λ i, String.eqb (nth (offset + i) tail "") (nth i pattern ""))
            (List.seq 0 period))
          (List.seq 1 (min_repeats - 1)).

(** The response to a pattern found. *)
Definition ping_pong_found (g : LoopGuard) (period : string) (min_repeats : nat)
    : LoopGuardAction * LoopGuard :=
  let g := bump c_ping_pong g in
  let g := bump c_warnings g in
  let g := with_total g (wadd32 (total_repetitions g) 1) in
  if global_circuit_breaker (config g) <=? total_repetitions g
  then (CircuitBreak (total_repetitions g), bump c_breaks g)
  else (Warn ("ping-pong pattern (period " +:+ period +:+ ") detected over "
                +:+ fmt_nat min_repeats +:+ " cycles") None, g).

Definition check_ping_pong (g : LoopGuard) : option LoopGuardAction * LoopGuard :=
  if ping_pong_min_repeats (config g) =? 0 then (None, g)
  else
    let seq := call_sequence g in
    let min_repeats := Z.to_nat (ping_pong_min_repeats (config g)) in
    if Nat.leb (2 * min_repeats) (length seq) && has_periodic_pattern seq 2 min_repeats
    then let '(a, g) := ping_pong_found g "2" min_repeats in (Some a, g)
    else if Nat.leb (3 * min_repeats) (length seq) && has_periodic_pattern seq 3 min_repeats
    then let '(a, g) := ping_pong_found g "3" min_repeats in (Some a, g)
    else (None, g).

(** In milliseconds. *)
Definition backoff_delay (count warn_at : Z) : Z :=
  let exponent := sat_sub count warn_at in
  let delay_secs := Z.min (wrapping_shl64 1 exponent) 30 in
  wmul64 delay_secs 1000.

(** ** Hashing and the two entry points *)

Section guard.
Context `{RustUnicode} (sha256_hex : string → string) (json_normalized : string → option string).

Definition truncate_utf8 (s : string) (max_bytes : nat) : string := utf8_truncate s max_bytes.

Definition normalize_args (raw : string) : string :=
  match json_normalized raw with
  | Some v => v
  | None => trim raw
  end.

Definition hash_call_batch (batch : list ToolCallSig) : string :=
  sha256_hex (str_concat (map (λ call,
    sig_name call +:+ newline +:+ normalize_args (sig_arguments call)
      +:+ newline +:+ "--" +:+ newline) batch)).

Definition hash_outcome (name params result_prefix : string) : string :=
  let params_truncated := truncate_utf8 params 2048 in
  let prefix := truncate_utf8 result_prefix 1000 in
  sha256_hex (name +:+ newline +:+ normalize_args params_truncated
                +:+ newline +:+ "--" +:+ newline +:+ prefix).

Definition is_poll_command (calls : list ToolCallSig) : bool :=
  any (λ call,
    let lower_name := to_lowercase (sig_name call) in
    let lower_args := to_lowercase (sig_arguments call) in
    any (λ pattern, contains lower_name pattern || contains lower_args pattern) POLL_PATTERNS)
    calls.

(** The part of [check] after the hash: [call_hash] is counted and answered. *)
Definition check_hash (g : LoopGuard) (call_hash : string) (is_poll : bool)
    : LoopGuardAction * LoopGuard :=
  let g := with_calls g (call_counts g) (call_sequence g ++ [call_hash]) in
  let window := Z.to_nat (window_size (config g)) in
  let g := if Nat.ltb 0 window && Nat.ltb window (length (call_sequence g))
           then prune_call_window g window else g in
  let g := with_calls g (incr (call_counts g) call_hash) (call_sequence g) in
  let count := default 0 (call_counts g !! call_hash) in
  let multiplier := if is_poll then poll_multiplier (config g) else 1 in
  let warn_at := wmul32 (warn_threshold (config g)) multiplier in
  let block_at := wmul32 (block_threshold (config g)) multiplier in
  match check_ping_pong g with
  | (Some action, g) => (action, g)
  | (None, g) =>
    if warn_at <=? count then
      let g := with_total g (wadd32 (total_repetitions g) 1) in
      if global_circuit_breaker (config g) <=? total_repetitions g
      then (CircuitBreak (total_repetitions g), bump c_breaks g)
      else if block_at <=? count
      then (Block ("tool call repeated " +:+ fmt_Z count +:+ " times (threshold "
                     +:+ fmt_Z block_at +:+ ")"), bump c_blocks g)
      else
        let suggested_delay_ms :=
          if is_poll then Some (backoff_delay count warn_at) else None in
        (Warn ("tool call repeated " +:+ fmt_Z count +:+ " times (warn threshold "
                 +:+ fmt_Z warn_at +:+ ")") suggested_delay_ms, bump c_warnings g)
    else (Allow, g)
  end.

Definition check (g : LoopGuard) (calls : list ToolCallSig) : LoopGuardAction * LoopGuard :=
  if negb (enabled (config g)) || match calls with [] => true | _ => false end
  then (Allow, g)
  else check_hash (bump c_checks g) (hash_call_batch calls) (is_poll_command calls).

Definition record_outcome (g : LoopGuard) (name params result_prefix : string)
    : option LoopGuardAction * LoopGuard :=
  if negb (enabled (config g)) then (None, g)
  else
    let outcome_hash := hash_outcome name params result_prefix in
    let g := with_outcomes g (outcome_counts g) (outcome_sequence g ++ [outcome_hash]) in
    let window := Z.to_nat (window_size (config g)) in
    let g := if Nat.ltb 0 window && Nat.ltb window (length (outcome_sequence g))
             then prune_outcome_window g window else g in
    let g := with_outcomes g (incr (outcome_counts g) outcome_hash) (outcome_sequence g) in
    let count := default 0 (outcome_counts g !! outcome_hash) in
    if outcome_block_threshold (config g) <=? count then
      let g := bump c_outcome_blocks g in
      let g := with_total g (wadd32 (total_repetitions g) 1) in
      if global_circuit_breaker (config g) <=? total_repetitions g
      then (Some (CircuitBreak (total_repetitions g)), bump c_breaks g)
      else (Some (Block ("identical outcome repeated " +:+ fmt_Z count
                           +:+ " times (threshold "
                           +:+ fmt_Z (outcome_block_threshold (config g)) +:+ ")")), g)
    else if outcome_warn_threshold (config g) <=? count
    then (Some (Warn ("identical outcome repeated " +:+ fmt_Z count
                        +:+ " times (warn threshold "
                        +:+ fmt_Z (outcome_warn_threshold (config g)) +:+ ")") None),
          bump c_warnings g)
    else (None, g).

(** ** In the agent loop *)

Record LLMToolCall : Type := mkLLMToolCall {
  call_id : string;
  call_name : string;
  call_arguments : string;
}.

Definition delay_hint (suggested_delay_ms : option Z) : string :=
  match suggested_delay_ms with
  | Some ms => " (suggested delay: " +:+ fmt_Z ms +:+ "ms)"
  | None => ""
  end.

(** The result, the guard, and the text of the system message added to the
    session. *)
Definition check_loop_guard (guard : LoopGuard) (tool_calls : list LLMToolCall)
    : bool * LoopGuard * list string :=
  let call_sigs := map (λ tc, mkToolCallSig (call_name tc) (call_arguments tc)) tool_calls in
  let '(action, guard) := check guard call_sigs in
  match action with
  | Allow => (false, guard, [])
  | Warn reason suggested =>
    (false, guard, ["[LoopGuard] " +:+ reason +:+ delay_hint suggested +:+ "."])
  | Block reason => (true, guard, ["[LoopGuard] blocked: " +:+ reason +:+ "."])
  | CircuitBreak total =>
    (true, guard, ["[LoopGuard] circuit breaker tripped (" +:+ fmt_Z total
                     +:+ " total repetitions)."])
  end.

(** The lookup from call id to name and arguments; of equal ids the last. *)
Definition call_map (tool_calls : list LLMToolCall) : gmap string (string * string) :=
  foldl (λ m tc, <[call_id tc := (call_name tc, call_arguments tc)]> m) ∅ tool_calls.

Fixpoint check_outcomes_from (guard : LoopGuard) (calls : gmap string (string * string))
    (results : list (string * string)) (added : list string) : bool * LoopGuard * list string :=
  match results with
  | [] => (false, guard, added)
  | (id, result) :: results' =>
    match calls !! id with
    | None => check_outcomes_from guard calls results' added
    | Some (name, args) =>
      let '(action, guard) := record_outcome guard name args (truncate_utf8 result 1000) in
      match action with
      | Some (Block reason) =>
        (true, guard, added ++ ["[LoopGuard] blocked: " +:+ reason +:+ "."])
      | Some (CircuitBreak total) =>
        (true, guard, added ++ ["[LoopGuard] circuit breaker tripped (" +:+ fmt_Z total
                                  +:+ " total repetitions)."])
      | Some (Warn reason suggested) =>
        check_outcomes_from guard calls results'
          (added ++ ["[LoopGuard] " +:+ reason +:+ delay_hint suggested +:+ "."])
      | Some Allow | None => check_outcomes_from guard calls results' added
      end
    end
  end.

Definition check_loop_guard_outcomes (guard : LoopGuard) (tool_calls : list LLMToolCall)
    (results : list (string * string)) : bool * LoopGuard * list string :=
  check_outcomes_from guard (call_map tool_calls) results [].
End guard.

(** ** The pattern detector *)

(** The sequence ends with [r] repetitions of a pattern of [p] hashes that are
    not all the same. *)
Definition ends_periodically (seq : list string) (p r : nat) : Prop :=
  (0 < p)%nat ∧ (0 < r)%nat ∧
  ∃ pre pat, length pat = p ∧ (∃ x y, x ∈ pat ∧ y ∈ pat ∧ x ≠ y) ∧
             seq = pre ++ mjoin (replicate r pat).

Lemma mjoin_replicate_length (pat : list string) r :
  length (mjoin (replicate r pat)) = (length pat * r)%nat.
Proof. induction r as [|r IH]; simpl; [lia|]. rewrite length_app, IH. lia. Qed.

Lemma nth_mjoin_replicate (pat : list string) r c i :
  (c < r)%nat → (i < length pat)%nat →
  nth (c * length pat + i) (mjoin (replicate r pat)) "" = nth i pat "".
Proof.
  revert c. induction r as [|r IH]; intros c Hc Hi; [lia|]. simpl.
  destruct c as [|c].
  - simpl. by rewrite app_nth1.
  - rewrite app_nth2 by lia.
    replace (S c * length pat + i - length pat)%nat with (c * length pat + i)%nat by lia.
    apply IH; lia.
Qed.

Lemma periodic_mjoin (pat tail : list string) r :
  length tail = (length pat * r)%nat →
  (∀ c i, (c < r)%nat → (i < length pat)%nat → nth (c * length pat + i) tail "" = nth i pat "") →
  tail = mjoin (replicate r pat).
Proof.
  revert tail. induction r as [|r IH]; intros tail Hlen Hnth.
  { apply nil_length_inv. lia. }
  simpl. rewrite <- (take_drop (length pat) tail). f_equal.
  - apply (List.nth_ext _ _ "" ""); [rewrite length_take; lia|].
    intros i Hi. rewrite length_take in Hi.
    rewrite <- (Hnth 0%nat i) by lia.
    rewrite nth_firstn. destruct (Nat.ltb_spec i (length pat)); [done|lia].
  - apply IH; [rewrite length_drop; lia|].
    intros c i Hc Hi. rewrite nth_skipn. rewrite <- (Hnth (S c) i) by lia. f_equal. lia.
Qed.

Lemma forallb_same (pat : list string) (x : string) :
  forallb (λ h, String.eqb h x) pat = true ↔ ∀ y, y ∈ pat → y = x.
Proof.
  rewrite forallb_forall. setoid_rewrite <- list_elem_of_In.
  split; intros Hall y Hy; [by apply String.eqb_eq, Hall|by apply String.eqb_eq, Hall].
Qed.

Lemma nth_0_elem (pat : list string) : (0 < length pat)%nat → nth 0 pat "" ∈ pat.
Proof. destruct pat; simpl; [lia|]. intros _. left. Qed.

Lemma pattern_uniform (pat : list string) :
  (0 < length pat)%nat →
  forallb (λ h, String.eqb h (nth 0 pat "")) pat = false ↔ ∃ x y, x ∈ pat ∧ y ∈ pat ∧ x ≠ y.
Proof.
  intros Hlen. rewrite <- not_true_iff_false, forallb_same. split.
  - intros Hnot. destruct (decide (Forall (λ y, y = nth 0 pat "") pat)) as [Hall|Hex].
    { exfalso. apply Hnot. by apply Forall_forall. }
    apply not_Forall_Exists in Hex; [|intros ?; apply _].
    apply Exists_exists in Hex as (y & Hy & Hne).
    exists y, (nth 0 pat ""). split_and!; [done|by apply nth_0_elem|done].
  - intros (x & y & Hx & Hy & Hne) Hall. apply Hne.
    by rewrite (Hall x Hx), (Hall y Hy).
Qed.

Lemma has_periodic_pattern_ends seq p r :
  has_periodic_pattern seq p r = true ↔ ends_periodically seq p r.
Proof.
  unfold has_periodic_pattern, ends_periodically.
  destruct (Nat.eqb_spec p 0); [simpl; split; [done|lia]|].
  destruct (Nat.eqb_spec r 0); [simpl; split; [done|lia]|]. cbn [orb].
  destruct (Nat.ltb_spec (length seq) (p * r)) as [Hshort|Hlong].
  { split; [done|]. intros (_ & _ & pre & pat & Hlen & _ & ->).
    rewrite length_app, mjoin_replicate_length, Hlen in Hshort. lia. }
  set (tail := drop (length seq - p * r) seq).
  assert (length tail = (p * r)%nat) as Htail by (subst tail; rewrite length_drop; lia).
  assert (length (take p tail) = p) as Hpat by (rewrite length_take, Htail; nia).
  destruct (forallb _ (take p tail)) eqn:Huni.
  - split; [done|]. intros (_ & _ & pre & pat & Hlen & Hdist & Hseq).
    assert (tail = mjoin (replicate r pat)) as Ht.
    { subst tail. rewrite Hseq, length_app, mjoin_replicate_length, Hlen.
      apply drop_app_length'. lia. }
    assert (take p tail = pat) as Htp.
    { rewrite Ht. destruct r as [|r]; [lia|]. simpl. by apply take_app_length'. }
    rewrite Htp in Huni. apply (pattern_uniform pat) in Hdist; [congruence|lia].
  - rewrite (pattern_uniform (take p tail)) in Huni by lia. split.
    + intros Hall. split_and!; [lia|lia|].
      exists (take (length seq - p * r) seq), (take p tail). split_and!; [done|done|].
      rewrite <- (take_drop (length seq - p * r) seq) at 1. f_equal. fold tail.
      apply periodic_mjoin; [lia|]. rewrite Hpat.
      intros [|c] i Hc Hi.
      { rewrite nth_firstn. simpl. by destruct (Nat.ltb_spec i p); [|lia]. }
      rewrite forallb_forall in Hall. specialize (Hall (S c)). rewrite in_seq in Hall.
      specialize (Hall ltac:(lia)). rewrite forallb_forall in Hall.
      specialize (Hall i). rewrite in_seq in Hall. specialize (Hall ltac:(lia)).
      by apply String.eqb_eq in Hall.
    + intros (_ & _ & pre & pat & Hlen & Hdist & Hseq).
      assert (tail = mjoin (replicate r pat)) as Ht.
      { subst tail. rewrite Hseq, length_app, mjoin_replicate_length, Hlen.
        apply drop_app_length'. lia. }
      assert (take p tail = pat) as Htp.
      { rewrite Ht. destruct r as [|r]; [lia|]. simpl. by apply take_app_length'. }
      rewrite Htp, Ht. apply forallb_forall. intros c [Hc1 Hc2]%in_seq.
      apply forallb_forall. intros i [_ Hi]%in_seq. apply String.eqb_eq.
      rewrite <- Hlen. apply nth_mjoin_replicate; lia.
Qed.

(** the ping-pong detector finds exactly what it is documented to: it
    answers yes when, and only when, the sequence ends with the asked number of
    repetitions of a pattern of the asked length whose hashes are not all the
    same (and neither number is zero); it then works on any sequence, never
    reading outside it. *)
Theorem ping_pong_exact seq period min_repeats :
  has_periodic_pattern seq period min_repeats = true ↔
  ends_periodically seq period min_repeats.
Proof. apply has_periodic_pattern_ends. Qed.

(** the suggested delay: [1000 * 2^(count - warn_at)] milliseconds capped
    at 30 seconds, and growing, as long as the count is less than 64 above the
    threshold; from there on the shift wraps, so that the delay starts again
    from one second every 64 repetitions. *)
Theorem backoff_delay_schedule count warn_at :
  0 ≤ count < u32_mod → 0 ≤ warn_at →
  backoff_delay count warn_at = 1000 * Z.min 30 (2 ^ (Z.max 0 (count - warn_at) `mod` 64)) ∧
  (count - warn_at < 64 →
   backoff_delay count warn_at = 1000 * Z.min 30 (2 ^ Z.max 0 (count - warn_at))).
Proof.
  intros Hc Hw.
  assert (backoff_delay count warn_at
    = 1000 * Z.min 30 (2 ^ (Z.max 0 (count - warn_at) `mod` 64))) as Heq.
  { unfold backoff_delay, wrapping_shl64, sat_sub.
    set (e := Z.max 0 (count - warn_at) `mod` 64).
    assert (0 ≤ e < 64) as He by (apply Z.mod_pos_bound; lia).
    rewrite Z.shiftl_1_l. assert (0 < 2 ^ e) by (apply Z.pow_pos_nonneg; lia).
    assert (2 ^ e < u64_mod) by (apply Z.pow_lt_mono_r; lia).
    rewrite Z.mod_small by lia. rewrite wmul64_small by (unfold u64_mod; lia). lia. }
  split; [done|]. intros Hsmall. rewrite Heq. rewrite Z.mod_small by lia. done.
Qed.

Lemma backoff_delay_schedule_witness :
  backoff_delay 12 9 = 8000 ∧ backoff_delay 72 9 = 30000 ∧ backoff_delay 73 9 = 1000.
Proof.
  split_and!.
  - destruct (backoff_delay_schedule 12 9) as [-> _];
      [unfold u32_mod; lia|lia|reflexivity].
  - destruct (backoff_delay_schedule 72 9) as [-> _];
      [unfold u32_mod; lia|lia|reflexivity].
  - destruct (backoff_delay_schedule 73 9) as [-> _];
      [unfold u32_mod; lia|lia|reflexivity].
Defined.

(** ** The counted windows *)

Definition occ (h : string) (seq : list string) : Z := Z.of_nat (count_occ String.string_dec seq h).

(** The counts are those of the window, up to one occurrence too many of one
    hash: the one recorded last when the window was pruned, which the rebuilt
    counts hold already and the increment counts again. *)
Definition counted (counts : gmap string Z) (seq : list string) (extra : option string) : Prop :=
  ∀ h, default 0 (counts !! h) = (occ h seq + if decide (extra = Some h) then 1 else 0) mod u32_mod.

Lemma occ_snoc h seq x : occ h (seq ++ [x]) = occ h seq + if decide (x = h) then 1 else 0.
Proof.
  unfold occ. rewrite count_occ_app. simpl.
  destruct (String.string_dec x h), (decide (x = h)); simpl; lia || congruence.
Qed.

Lemma default_incr m h h' :
  default 0 (incr m h !! h') =
    if decide (h = h') then wadd32 (default 0 (m !! h)) 1 else default 0 (m !! h').
Proof.
  unfold incr. case_decide as Hh.
  - subst h'. by rewrite lookup_insert_eq.
  - by rewrite lookup_insert_ne.
Qed.

Lemma counted_incr m seq extra h :
  counted m seq extra → counted (incr m h) (seq ++ [h]) extra.
Proof.
  intros Hm h'. rewrite default_incr, occ_snoc. case_decide as Hh; [subst h'|].
  - rewrite Hm. unfold wadd32. rewrite Zplus_mod_idemp_l. f_equal. lia.
  - rewrite Hm. f_equal. lia.
Qed.

Lemma counted_empty : counted ∅ [] None.
Proof. intros h. by rewrite lookup_empty. Qed.

Lemma counted_rebuild seq : counted (rebuild seq) seq None.
Proof.
  unfold rebuild. induction seq as [|x seq IH] using rev_ind; [apply counted_empty|].
  rewrite foldl_snoc. by apply counted_incr.
Qed.

(** One hash recorded in a window, as both entry points do it: what the window
    and the counts become. *)
Definition record_in (window : nat) (counts : gmap string Z) (seq : list string) (h : string)
    : gmap string Z * list string :=
  let seq := (seq ++ [h])%list in
  if Nat.ltb 0 window && Nat.ltb window (length seq)
  then let seq := prune seq window in (incr (rebuild seq) h, seq)
  else (incr counts h, seq).

(** The invariant of a window after the hashes [hist]. *)
Record window_ok (window : nat) (hist : list string) (counts : gmap string Z)
    (seq : list string) : Prop := {
  win_bound : (0 < window)%nat → (length seq ≤ window)%nat;
  win_recent : ∃ old, hist = (old ++ seq)%list;
  win_counts : ∃ extra, counted counts seq extra;
  win_exact : window = 0%nat ∨ (length hist ≤ window)%nat → seq = hist ∧ counted counts hist None;
}.

Lemma window_ok_new window : window_ok window [] ∅ [].
Proof.
  split; simpl; [lia|by exists []|exists None; apply counted_empty|].
  intros _. split; [done|apply counted_empty].
Qed.

Lemma prune_length seq window :
  (window < length seq)%nat → (length (prune seq window) = window / 2)%nat.
Proof.
  intros Hlen. unfold prune. rewrite length_drop.
  pose proof (Nat.div_le_upper_bound window 2 window). lia.
Qed.

Lemma counted_extra m seq h : counted m seq None → counted (incr m h) seq (Some h).
Proof.
  intros Hm h'. rewrite default_incr. rewrite !Hm.
  rewrite !(decide_False (P:=None = Some _)) by done.
  destruct (decide (h = h')) as [->|Hne].
  - rewrite decide_True by done. unfold wadd32. rewrite Zplus_mod_idemp_l. f_equal. lia.
  - by rewrite decide_False by congruence.
Qed.

Lemma window_ok_record window hist counts seq h :
  window_ok window hist counts seq →
  let '(counts', seq') := record_in window counts seq h in
  window_ok window (hist ++ [h]) counts' seq'.
Proof.
  intros [Hbound [old Hold] [extra Hcounts] Hexact]. unfold record_in.
  destruct (Nat.ltb_spec 0 window) as [Hw|Hw];
    destruct (Nat.ltb_spec window (length (seq ++ [h])%list)) as [Hlong|Hshort]; cbn [andb].
  - rewrite length_app in Hlong. cbn [length] in Hlong. specialize (Hbound Hw).
    assert (length (prune (seq ++ [h]) window) = window / 2)%nat as Hprune
      by (apply prune_length; rewrite length_app; simpl; lia).
    assert (window / 2 ≤ window)%nat by (apply Nat.Div0.div_le_upper_bound; lia).
    split.
    + lia.
    + exists (old ++ take (length (seq ++ [h]) - window / 2)%nat (seq ++ [h]))%list.
      unfold prune. by rewrite <- app_assoc, take_drop, Hold, <- app_assoc.
    + exists (Some h). apply counted_extra, counted_rebuild.
    + intros [?|Hlen]; [lia|]. rewrite length_app in Hlen. simpl in Hlen.
      destruct (Hexact ltac:(lia)) as [-> _]. lia.
  - split; [done| |exists extra; by apply counted_incr|].
    + exists old. by rewrite Hold, <- app_assoc.
    + intros Hlen. rewrite length_app in Hlen. destruct (Hexact ltac:(lia)) as [-> ?].
      split; [done|by apply counted_incr].
  - split; [lia| |exists extra; by apply counted_incr|].
    + exists old. by rewrite Hold, <- app_assoc.
    + intros _. destruct (Hexact ltac:(lia)) as [-> ?]. split; [done|by apply counted_incr].
  - split; [lia| |exists extra; by apply counted_incr|].
    + exists old. by rewrite Hold, <- app_assoc.
    + intros _. destruct (Hexact ltac:(lia)) as [-> ?]. split; [done|by apply counted_incr].
Qed.

(** *** What the entry points do to the windows *)

Lemma ping_pong_found_windows g p r :
  let g' := snd (ping_pong_found g p r) in
  config g' = config g ∧ call_counts g' = call_counts g ∧ call_sequence g' = call_sequence g ∧
  outcome_counts g' = outcome_counts g ∧ outcome_sequence g' = outcome_sequence g.
Proof. unfold ping_pong_found. cases; done. Qed.

Lemma check_ping_pong_windows g :
  let g' := snd (check_ping_pong g) in
  config g' = config g ∧ call_counts g' = call_counts g ∧ call_sequence g' = call_sequence g ∧
  outcome_counts g' = outcome_counts g ∧ outcome_sequence g' = outcome_sequence g.
Proof.
  unfold check_ping_pong. case_match; [done|]. case_match.
  - pose proof (ping_pong_found_windows g "2" (Z.to_nat (ping_pong_min_repeats (config g)))) as Hp.
    by destruct (ping_pong_found _ _ _).
  - case_match; [|done].
    pose proof (ping_pong_found_windows g "3" (Z.to_nat (ping_pong_min_repeats (config g)))) as Hp.
    by destruct (ping_pong_found _ _ _).
Qed.

Lemma check_hash_windows g h is_poll :
  let g' := snd (check_hash g h is_poll) in
  config g' = config g ∧
  (call_counts g', call_sequence g')
    = record_in (Z.to_nat (window_size (config g))) (call_counts g) (call_sequence g) h ∧
  outcome_counts g' = outcome_counts g ∧ outcome_sequence g' = outcome_sequence g.
Proof.
  cbn zeta. unfold check_hash, record_in. cbn [call_sequence config with_calls].
  destruct (Nat.ltb 0 _ && Nat.ltb _ _) eqn:Hprune.
  all: match goal with |- context [check_ping_pong ?x] =>
    pose proof (check_ping_pong_windows x) as (Hc & Hn & Hs & Ho & Hos);
    destruct (check_ping_pong x) as [[a|] g2] end.
  all: cbn [snd] in *; cases; by rewrite ?Hc, ?Hn, ?Hs, ?Ho, ?Hos.
Qed.

Section windows.
Context `{RustUnicode} (sha256_hex : string → string) (json_normalized : string → option string).

Lemma record_outcome_windows g name params prefix :
  enabled (config g) = true →
  let g' := snd (record_outcome sha256_hex json_normalized g name params prefix) in
  config g' = config g ∧
  (outcome_counts g', outcome_sequence g')
    = record_in (Z.to_nat (window_size (config g))) (outcome_counts g) (outcome_sequence g)
        (hash_outcome sha256_hex json_normalized name params prefix) ∧
  call_counts g' = call_counts g ∧ call_sequence g' = call_sequence g.
Proof.
  intros Hen. cbn zeta. unfold record_outcome, record_in. rewrite Hen. cbn [negb].
  cbn [outcome_sequence config with_outcomes].
  destruct (Nat.ltb 0 _ && Nat.ltb _ _); cases; done.
Qed.

(** What the agent loop asks of a guard. *)
Inductive request : Type :=
| Check (calls : list ToolCallSig)
| Outcome (name params result_prefix : string).

Definition handle (g : LoopGuard) (r : request) : LoopGuard :=
  match r with
  | Check calls => snd (check sha256_hex json_normalized g calls)
  | Outcome name params prefix =>
    snd (record_outcome sha256_hex json_normalized g name params prefix)
  end.

Definition call_hashes (rs : list request) : list string :=
  omap (λ r, match r with
             | Check (c :: cs) => Some (hash_call_batch sha256_hex json_normalized (c :: cs))
             | _ => None
             end) rs.
Definition outcome_hashes (rs : list request) : list string :=
  omap (λ r, match r with
             | Outcome name params prefix =>
               Some (hash_outcome sha256_hex json_normalized name params prefix)
             | _ => None
             end) rs.

(** after any sequence of requests to an enabled guard, each of its two
    windows holds the most recent hashes, never more than the configured size;
    its counts are those of the window, with at most one occurrence too many
    (counted twice when the window was pruned); and until a window overflows,
    or when it is unbounded, it holds the whole history with its exact
    counts. *)
Theorem guard_windows_ok conf rs :
  enabled conf = true →
  let g := foldl handle (new conf) rs in
  let window := Z.to_nat (window_size conf) in
  config g = conf ∧
  window_ok window (call_hashes rs) (call_counts g) (call_sequence g) ∧
  window_ok window (outcome_hashes rs) (outcome_counts g) (outcome_sequence g).
Proof.
  intros Hen. cbn zeta. induction rs as [|r rs IH] using rev_ind.
  { split_and!; [done|apply window_ok_new..]. }
  rewrite foldl_snoc. unfold call_hashes, outcome_hashes in *. rewrite !omap_app.
  set (g := foldl handle (new conf) rs) in *. destruct IH as (Hconf & Hcall & Hout).
  destruct r as [[|c cs]|name params prefix]; cbn [handle].
  - unfold check. rewrite orb_true_r. cbn [snd]. simpl. by rewrite !app_nil_r.
  - unfold check. rewrite Hconf, Hen. cbn [negb orb].
    set (h := hash_call_batch sha256_hex json_normalized (c :: cs)).
    destruct (check_hash_windows (bump c_checks g) h (is_poll_command (c :: cs)))
      as (Hc & Hw & Ho & Hos).
    change (config (bump c_checks g)) with (config g) in *. rewrite Hconf in *.
    change (call_counts (bump c_checks g)) with (call_counts g) in *.
    change (call_sequence (bump c_checks g)) with (call_sequence g) in *.
    apply (window_ok_record _ _ _ _ h) in Hcall. rewrite <- Hw in Hcall.
    rewrite Ho, Hos. simpl. rewrite app_nil_r. by split_and!.
  - destruct (record_outcome_windows g name params prefix) as (Hc & Hw & Ho & Hos);
      [by rewrite Hconf|].
    rewrite Hconf in *. rewrite Ho, Hos. simpl. rewrite app_nil_r.
    apply (window_ok_record _ _ _ _ (hash_outcome sha256_hex json_normalized name params prefix))
      in Hout.
    rewrite <- Hw in Hout. by split_and!.
Qed.
End windows.

(** Five checks of one call with a window of 4: the fifth prunes the window to
    two entries, and the count is three. *)
Definition five_checks : list request := replicate 5 (Check [mkToolCallSig "read" "{}"]).
Definition small_window : LoopGuardConfig :=
  mkLoopGuardConfig true 3 5 30 3 3 2 3 4.

Lemma guard_windows_ok_witness :
  let g := foldl (handle id Some) (new small_window) five_checks in
  let h := hash_call_batch id Some [mkToolCallSig "read" "{}"] in
  (length (call_sequence g) ≤ 4)%nat ∧ occ h (call_sequence g) = 2 ∧ call_counts g !! h = Some 3.
Proof.
  cbn zeta.
  destruct (guard_windows_ok id Some small_window five_checks) as (_ & Hcall & _); [reflexivity|].
  split_and!; [apply (win_bound _ _ _ _ Hcall); apply Nat.lt_0_succ|vm_compute; reflexivity..].
Defined.

(** ** The graduated response *)

Section graduated.
Context (conf : LoopGuardConfig) (h : string) (is_poll : bool).

Definition multiplier : Z := if is_poll then poll_multiplier conf else 1.
Definition warn_at : Z := wmul32 (warn_threshold conf) multiplier.
Definition block_at : Z := wmul32 (block_threshold conf) multiplier.

(** The number of repetitions charged after [k] identical calls. *)
Definition charged (k : Z) : Z := Z.max 0 (k - Z.max warn_at 1 + 1).

(** The answer to the [k]-th identical call, as documented: allowed below the
    first threshold, then a warning, then a block, and the circuit breaker when
    the repetitions charged reach its limit. *)
Definition graduated (k : Z) : LoopGuardAction :=
  if k <? warn_at then Allow
  else if global_circuit_breaker conf <=? charged k then CircuitBreak (charged k)
  else if block_at <=? k
  then Block ("tool call repeated " +:+ fmt_Z k +:+ " times (threshold "
                +:+ fmt_Z block_at +:+ ")")
  else Warn ("tool call repeated " +:+ fmt_Z k +:+ " times (warn threshold "
               +:+ fmt_Z warn_at +:+ ")")
         (if is_poll then Some (backoff_delay k warn_at) else None).

Record after (k : nat) (g : LoopGuard) : Prop := {
  after_config : config g = conf;
  after_sequence : call_sequence g = replicate k h;
  after_count : default 0 (call_counts g !! h) = Z.of_nat k;
  after_total : total_repetitions g = charged (Z.of_nat k);
}.

Lemma no_ping_pong_uniform k p r : has_periodic_pattern (replicate k h) p r = false.
Proof.
  apply not_true_iff_false. rewrite has_periodic_pattern_ends.
  intros (_ & Hr & pre & pat & _ & (x & y & Hx & Hy & Hne) & Hseq). apply Hne.
  assert (∀ z, z ∈ pat → z = h) as Hz; [|by rewrite (Hz x), (Hz y)].
  intros z Hin. destruct r as [|r]; [lia|].
  eapply (elem_of_replicate_inv z k h). rewrite Hseq. simpl. set_solver.
Qed.

Lemma check_hash_after k g :
  Z.of_nat k + 1 < u32_mod →
  0 < warn_threshold conf → 0 ≤ multiplier →
  (window_size conf = 0 ∨ Z.of_nat k + 1 ≤ window_size conf) →
  after k g →
  fst (check_hash g h is_poll) = graduated (Z.of_nat k + 1) ∧
  after (S k) (snd (check_hash g h is_poll)).
Proof.
  intros Hk Hwarn Hmul Hwin [Hconf Hseq Hcount Htotal].
  assert (0 ≤ warn_at) as Hw by (apply Z.mod_pos_bound; done).
  unfold check_hash. cbn [with_calls config call_sequence call_counts].
  assert (Nat.ltb 0 (Z.to_nat (window_size (config g))) &&
          Nat.ltb (Z.to_nat (window_size (config g))) (length (call_sequence g ++ [h])%list)
          = false) as ->.
  { rewrite Hconf, Hseq, length_app, length_replicate. simpl.
    destruct (Nat.ltb_spec 0 (Z.to_nat (window_size conf))); [|done].
    apply Nat.ltb_ge. lia. }
  unfold check_ping_pong. cbn [with_calls config call_sequence call_counts].
  rewrite Hseq. change [h] with (replicate 1 h). rewrite <- replicate_add.
  rewrite !no_ping_pong_uniform, !andb_false_r.
  assert (default 0 (incr (call_counts g) h !! h) = Z.of_nat k + 1) as Hincr.
  { rewrite default_incr, decide_True, Hcount by done. apply wadd32_small. lia. }
  assert (∀ g1, config g1 = config g → call_sequence g1 = replicate (k + 1) h →
            call_counts g1 = incr (call_counts g) h →
            total_repetitions g1 = charged (Z.of_nat k + 1) → after (S k) g1) as Hafter.
  { intros g1 H1 H2 H3 H4. split; [congruence| | |].
    - rewrite H2. f_equal. lia.
    - rewrite H3, Hincr. lia.
    - rewrite H4. f_equal. lia. }
  rewrite Hconf, Hincr. fold multiplier. fold warn_at. fold block_at.
  unfold graduated.
  assert (∀ A (x : A), (if ping_pong_min_repeats conf =? 0 then x else x) = x) as Hif
    by (intros; by destruct (_ =? 0)).
  rewrite Hif.
  destruct (Z.ltb_spec (Z.of_nat k + 1) warn_at) as [Hlt|Hge].
  - rewrite (proj2 (Z.leb_gt _ _)) by lia. split; [done|].
    apply Hafter; try done. cbn [snd with_calls total_repetitions].
    rewrite Htotal. unfold charged. lia.
  - rewrite (proj2 (Z.leb_le _ _)) by lia.
    assert (wadd32 (total_repetitions g) 1 = charged (Z.of_nat k + 1)) as Ht.
    { rewrite Htotal. rewrite wadd32_small; unfold charged; lia. }
    cbn [with_total config total_repetitions with_calls]. rewrite Ht, Hconf.
    cases; (split; [done|apply Hafter; done]).
Qed.

Lemma after_new : after 0 (new conf).
Proof. split; try done. unfold charged. simpl. lia. Qed.

Lemma after_bump k g c : after k g → after k (bump c g).
Proof. by intros []. Qed.

Lemma graduated_breaks k :
  1 ≤ warn_at → 0 < global_circuit_breaker conf →
  warn_at + global_circuit_breaker conf ≤ k + 1 → graduated k = CircuitBreak (charged k).
Proof.
  intros Hw Hb Hk. unfold graduated, charged.
  rewrite (proj2 (Z.ltb_ge _ _)) by lia. by rewrite (proj2 (Z.leb_le _ _)) by lia.
Qed.
End graduated.

(** the same batch of calls over and over, from a fresh guard whose window
    does not overflow, gets the documented graduated response to its k-th
    occurrence, whatever the hash function: allowed, warned about (with a
    suggested delay for a poll, whose thresholds are multiplied), blocked. No
    thresholds let it go on forever: the circuit breaker stops it at the latest
    at occurrence [warn_at + global_circuit_breaker - 1]. *)
Theorem graduated_response `{RustUnicode} sha json conf calls (k : nat) :
  let is_poll := is_poll_command calls in
  let k' := Z.of_nat k + 1 in
  let g := foldl (handle sha json) (new conf) (replicate k (Check calls)) in
  enabled conf = true → calls ≠ [] → k' < u32_mod →
  0 < warn_threshold conf → 0 ≤ poll_multiplier conf →
  window_size conf = 0 ∨ k' ≤ window_size conf →
  fst (check sha json g calls) = graduated conf is_poll k' ∧
  (1 ≤ warn_at conf is_poll → 0 < global_circuit_breaker conf →
   warn_at conf is_poll + global_circuit_breaker conf ≤ k' + 1 →
   ∃ n, fst (check sha json g calls) = CircuitBreak n).
Proof.
  cbn zeta. intros Hen Hne Hk Hwarn Hpoll Hwin.
  set (h := hash_call_batch sha json calls). set (poll := is_poll_command calls).
  assert (0 ≤ multiplier conf poll) as Hmul by (unfold multiplier; case_match; lia).
  assert (∀ g, config g = conf → check sha json g calls = check_hash (bump c_checks g) h poll)
    as Hcheck.
  { intros g Hg. unfold check. rewrite Hg, Hen. by destruct calls. }
  assert (∀ j, (j ≤ k)%nat →
    after conf h poll j (foldl (handle sha json) (new conf) (replicate j (Check calls)))) as Hafter.
  { induction j as [|j IH]; intros Hj; [apply after_new|].
    rewrite replicate_S_end, foldl_snoc. cbn [handle].
    specialize (IH ltac:(lia)). rewrite Hcheck by apply IH.
    apply check_hash_after; try lia. by apply after_bump. }
  specialize (Hafter k ltac:(lia)).
  assert (fst (check sha json
     (foldl (handle sha json) (new conf) (replicate k (Check calls))) calls)
     = graduated conf poll (Z.of_nat k + 1)) as Heq.
  { rewrite Hcheck by apply Hafter. apply check_hash_after; try lia. by apply after_bump. }
  split; [done|]. intros Hw Hb Hlim. rewrite Heq, graduated_breaks by done. by eexists.
Qed.

Lemma graduated_response_witness :
  let calls := [mkToolCallSig "read" "{}"] in
  let answers := map (λ k, fst (check id Some
                   (foldl (handle id Some) (new LoopGuardConfig_default)
                      (replicate k (Check calls))) calls)) [0; 2; 4; 31]%nat in
  answers = [Allow; Warn "tool call repeated 3 times (warn threshold 3)" None;
             Block "tool call repeated 5 times (threshold 5)"; CircuitBreak 30] ∧
  fst (check id Some (foldl (handle id Some) (new LoopGuardConfig_default)
                        (replicate 31 (Check calls))) calls)
    = graduated LoopGuardConfig_default false 32.
Proof.
  cbn zeta. split; [vm_compute; reflexivity|].
  destruct (graduated_response id Some LoopGuardConfig_default
              [mkToolCallSig "read" "{}"] 31) as [Heq _];
    [reflexivity|discriminate|reflexivity|reflexivity|discriminate|right; discriminate|].
  exact Heq.
Defined.
