(* ===== verification/Budget.v ===== *)
(** Usage limits of an agent run: src/src/agent/tool_call_limit.rs with its
    enforcement in the tool loop of src/src/agent/loop.rs,
    src/src/agent/budget.rs, and the swarm scratchpad of
    src/src/agent/scratchpad.rs. *)

From S2P Require Import Prelude.

(** ** The tool call limit *)

Record ToolCallLimitTracker : Type := mkToolCallLimitTracker {
  limit : option Z;
  count : Z;
}.

Module ToolCallLimitTracker.

Definition new (limit : option Z) : ToolCallLimitTracker := {| limit := limit; count := 0 |}.

Definition increment (self : ToolCallLimitTracker) (n : Z) : ToolCallLimitTracker :=
  {| limit := limit self; count := wadd32 (count self) n |}.

Definition is_exceeded (self : ToolCallLimitTracker) : bool :=
  match limit self with
  | None => false
  | Some max => max <=? count self
  end.

Definition reset (self : ToolCallLimitTracker) : ToolCallLimitTracker :=
  {| limit := limit self; count := 0 |}.

Definition remaining (self : ToolCallLimitTracker) : option Z :=
  (λ max, sat_sub max (count self)) <$> limit self.
End ToolCallLimitTracker.

Section tool_loop.
Context {Call : Type}.

(** The head of an iteration: stop when the limit is reached, or cut the batch
    to what remains of it. *)
Definition limit_batch (tracker : ToolCallLimitTracker) (tool_calls : list Call)
    : option (list Call) :=
  if ToolCallLimitTracker.is_exceeded tracker then None
  else Some match ToolCallLimitTracker.remaining tracker with
            | Some remaining =>
              let allowed := Z.to_nat remaining in
              if Nat.ltb allowed (length tool_calls) then take allowed tool_calls else tool_calls
            | None => tool_calls
            end.

(** The tail of an iteration: the executed calls are counted. *)
Definition count_batch (tracker : ToolCallLimitTracker) (batch : list Call) : ToolCallLimitTracker :=
  ToolCallLimitTracker.increment tracker (Z.of_nat (length batch) `mod` u32_mod).

(** The tool loop as far as the limit goes. [responses] are the batches of tool
    calls the model asks for, one per response; the result is the batches that
    were executed. The loop may stop earlier than it does here, for reasons of
    its other guards. *)
Fixpoint tool_loop (tracker : ToolCallLimitTracker) (max_iterations : nat)
    (responses : list (list Call)) : list (list Call) * ToolCallLimitTracker :=
  match max_iterations, responses with
  | O, _ | _, [] => ([], tracker)
  | S iterations, tool_calls :: responses' =>
    if Nat.eqb (length tool_calls) 0 then ([], tracker) else
    match limit_batch tracker tool_calls with
    | None => ([], tracker)
    | Some batch =>
      let tracker := count_batch tracker batch in
      if ToolCallLimitTracker.is_exceeded tracker then ([batch], tracker)
      else
        let '(rest, tracker) := tool_loop tracker iterations responses' in
        (batch :: rest, tracker)
    end
  end.
End tool_loop.

(** ** The token budget *)

Record TokenBudget : Type := mkTokenBudget {
  token_limit : Z;
  input_used : Z;
  output_used : Z;
}.

Module TokenBudget.

Definition new (limit : Z) : TokenBudget :=
  {| token_limit := limit; input_used := 0; output_used := 0 |}.

Definition unlimited : TokenBudget := new 0.

(** The two atomic additions of [record], in the order they are made. *)
Inductive op : Type := AddInput (n : Z) | AddOutput (n : Z).

Definition fetch_add (self : TokenBudget) (o : op) : TokenBudget :=
  match o with
  | AddInput n => {| token_limit := token_limit self;
                     input_used := wadd64 (input_used self) n;
                     output_used := output_used self |}
  | AddOutput n => {| token_limit := token_limit self; input_used := input_used self;
                      output_used := wadd64 (output_used self) n |}
  end.

Definition record_ops (input_tokens output_tokens : Z) : list op :=
  [AddInput input_tokens; AddOutput output_tokens].

Definition record (self : TokenBudget) (input_tokens output_tokens : Z) : TokenBudget :=
  foldl fetch_add self (record_ops input_tokens output_tokens).

Definition total_used (self : TokenBudget) : Z := wadd64 (input_used self) (output_used self).

Definition is_unlimited (self : TokenBudget) : bool := token_limit self =? 0.

Definition remaining (self : TokenBudget) : option Z :=
  if is_unlimited self then None
  else
    let used := total_used self in
    if token_limit self <=? used then Some 0 else Some (token_limit self - used).

Definition is_exceeded (self : TokenBudget) : bool :=
  if is_unlimited self then false else token_limit self <=? total_used self.

Definition reset (self : TokenBudget) : TokenBudget :=
  {| token_limit := token_limit self; input_used := 0; output_used := 0 |}.
End TokenBudget.

Definition resolve_token_budget (global : Z) (template : option Z) : Z :=
  match template with
  | None => global
  | Some tpl => if tpl =? 0 then global
                else if global =? 0 then tpl else Z.min global tpl
  end.

(** ** The scratchpad *)

Abbreviation SwarmScratchpad := (gmap string string).

Module SwarmScratchpad.

Definition new : SwarmScratchpad := ∅.
Definition write (self : SwarmScratchpad) (role output : string) : SwarmScratchpad :=
  <[role := output]> self.
Definition read (self : SwarmScratchpad) (role : string) : option string := self !! role.
Definition is_empty (self : SwarmScratchpad) : bool := bool_decide (self = ∅).
Definition clear (self : SwarmScratchpad) : SwarmScratchpad := ∅.

Definition key_le (a b : string * string) : Prop := String.leb (fst a) (fst b) = true.

#[global] Instance key_le_dec a b : Decision (key_le a b).
Proof. unfold key_le. apply _. Defined.

#[global] Instance key_le_total : Total key_le.
Proof. intros a b. apply String.leb_total. Qed.

(** [&output[..2000]] panics inside a character. *)
Definition truncated_output (output : string) : outcome string :=
  if Nat.ltb 2000 (String.length output)
  then if is_char_boundary output 2000
       then Ret (str_take 2000 output +:+ "... [truncated]")
       else Panic
  else Ret output.

Fixpoint format_lines (sorted : list (string * string)) : outcome (list string) :=
  match sorted with
  | [] => Ret []
  | (role, output) :: sorted' =>
    truncated ← truncated_output output;
    rest ← format_lines sorted';
    mret (("- " +:+ role +:+ ": " +:+ truncated) :: rest)
  end.

Definition format_for_prompt (self : SwarmScratchpad) : outcome (option string) :=
  if is_empty self then Ret None
  else
    let sorted := merge_sort key_le (map_to_list self) in
    lines ← format_lines sorted;
    mret (Some (join newline ("Previous agent outputs:" :: lines))).
End SwarmScratchpad.

(** ** The limit is never overshot *)

Section tool_loop_theorems.
Context {Call : Type}.
Implicit Types batches : list (list Call).

Definition executed batches : Z := Z.of_nat (length (mjoin batches)).

Lemma executed_cons b bs : executed (b :: bs) = Z.of_nat (length b) + executed bs.
Proof. unfold executed. simpl. rewrite length_app. lia. Qed.

Lemma limit_batch_prefix tracker (calls batch : list Call) :
  limit_batch tracker calls = Some batch →
  ∃ k, batch = take k calls ∧
       match limit tracker with
       | None => batch = calls
       | Some max => count tracker < max ∧
                     Z.of_nat (length batch) = Z.min (max - count tracker) (Z.of_nat (length calls))
       end.
Proof.
  unfold limit_batch, ToolCallLimitTracker.is_exceeded, ToolCallLimitTracker.remaining, sat_sub.
  destruct (limit tracker) as [max|]; simpl.
  - destruct (Z.leb_spec max (count tracker)) as [|Hlt]; [done|]. intros [= <-].
    destruct (Nat.ltb_spec (Z.to_nat (Z.max 0 (max - count tracker))) (length calls)).
    + eexists. split; [done|]. rewrite length_take. lia.
    + exists (length calls). rewrite take_ge by lia. split; [done|]. lia.
  - intros [= <-]. exists (length calls). by rewrite take_ge.
Qed.

(** What the executed batches are: prefixes of the first ones asked for. *)
Definition prefixes_of (batches responses : list (list Call)) : Prop :=
  ∃ rest asked, responses = (asked ++ rest)%list ∧
    Forall2 (λ b r, ∃ k, b = take k r) batches asked.

Lemma tool_loop_ok tracker max_iterations responses :
  is_u32 (count tracker) →
  (∀ max, limit tracker = Some max → is_u32 max) →
  let '(batches, tracker') := tool_loop (Call:=Call) tracker max_iterations responses in
  (length batches ≤ max_iterations)%nat ∧ prefixes_of batches responses ∧
  limit tracker' = limit tracker ∧
  count tracker' = (count tracker + executed batches) `mod` u32_mod ∧
  (∀ max, limit tracker = Some max →
     executed batches ≤ Z.max 0 (max - count tracker)).
Proof.
  revert tracker responses. induction max_iterations as [|iterations IH];
    intros tracker responses Hcount Hlim; cbn [tool_loop].
  { split_and!; [done|by exists responses, []|done| |].
    - unfold executed. simpl. rewrite Z.add_0_r, Z.mod_small; done.
    - intros max Hmax. unfold executed. simpl. lia. }
  destruct responses as [|calls responses]; [|destruct (Nat.eqb_spec (length calls) 0)].
  1,2: split_and!; simpl; [lia|by eexists _, []|done| |];
    [unfold executed; simpl; rewrite Z.add_0_r, Z.mod_small; done
    |intros max Hmax; unfold executed; simpl; lia].
  destruct (limit_batch tracker calls) as [batch|] eqn:Hbatch.
  2: { split_and!; simpl; [lia|by eexists _, []|done| |].
    - unfold executed; simpl. rewrite Z.add_0_r, Z.mod_small; done.
    - intros max Hmax. unfold executed; simpl; lia. }
  apply limit_batch_prefix in Hbatch as (k & Hk & Hmax).
  set (tracker1 := count_batch tracker batch).
  assert (limit tracker1 = limit tracker) as Hl1 by done.
  assert (count tracker1 = (count tracker + Z.of_nat (length batch)) `mod` u32_mod) as Hc1.
  { unfold tracker1, count_batch, ToolCallLimitTracker.increment, wadd32. cbn [count].
    by rewrite Zplus_mod_idemp_r. }
  assert (is_u32 (count tracker1)) as Hu1 by apply wadd32_range.
  assert (∀ max, limit tracker = Some max →
    count tracker1 = count tracker + Z.of_nat (length batch) ∧
    Z.of_nat (length batch) ≤ max - count tracker) as Hexact.
  { intros max Hm. rewrite Hm in Hmax. destruct Hmax as [Hlt Hlen].
    specialize (Hlim max Hm). unfold is_u32 in *. split; [|lia].
    rewrite Hc1. apply Z.mod_small. lia. }
  destruct (ToolCallLimitTracker.is_exceeded tracker1).
  - split_and!; [simpl; lia| |done| |].
    + exists responses, [calls]. split; [done|]. repeat constructor. by exists k.
    + rewrite Hc1, executed_cons. change (executed []) with 0. f_equal. lia.
    + intros max Hm. rewrite executed_cons. unfold executed. simpl.
      destruct (Hexact max Hm). lia.
  - specialize (IH tracker1 responses Hu1 ltac:(rewrite Hl1; exact Hlim)).
    destruct (tool_loop tracker1 iterations responses) as [rest tracker'].
    destruct IH as (Hlen & (tl & asked & -> & Hpre) & Hl & Hc & Hm). split_and!.
    + simpl. lia.
    + exists tl, (calls :: asked). split; [done|]. constructor; [by exists k|done].
    + congruence.
    + rewrite Hc, Hc1, executed_cons. rewrite Zplus_mod_idemp_l. f_equal. lia.
    + intros max Hmx. rewrite executed_cons. destruct (Hexact max Hmx) as [He Hle].
      specialize (Hm max Hmx). lia.
Qed.
End tool_loop_theorems.

(** an agent run never executes more tool calls than its limit, whatever
    batches the model asks for and however large they are. Each batch executed
    is a prefix of the batch asked for, in order; there are at most
    [max_tool_iterations] of them; and the tracker counts exactly the calls
    executed. *)
Theorem tool_calls_within_limit {Call} (max : Z) max_iterations (responses : list (list Call)) :
  is_u32 max →
  let '(batches, tracker) :=
    tool_loop (ToolCallLimitTracker.new (Some max)) max_iterations responses in
  executed batches ≤ max ∧ count tracker = executed batches ∧
  (length batches ≤ max_iterations)%nat ∧ prefixes_of batches responses.
Proof.
  intros Hmax.
  pose proof (tool_loop_ok (ToolCallLimitTracker.new (Some max)) max_iterations responses) as Hok.
  destruct (tool_loop _ _ _) as [batches tracker].
  destruct Hok as (Hlen & Hpre & _ & Hcount & Hle).
  { split; [done|reflexivity]. }
  { by intros ? [= <-]. }
  unfold is_u32 in *. specialize (Hle max eq_refl). cbn [count ToolCallLimitTracker.new] in *.
  split_and!; [lia| |done|done].
  rewrite Hcount, Z.add_0_l. apply Z.mod_small. unfold executed in *. lia.
Qed.

Lemma tool_calls_within_limit_witness :
  let '(batches, tracker) :=
    tool_loop (ToolCallLimitTracker.new (Some 3)) 10 [["a"; "b"]; ["c"; "d"]; ["e"]] in
  executed batches ≤ 3 ∧ batches = [["a"; "b"]; ["c"]] ∧ count tracker = 3.
Proof.
  pose proof (tool_calls_within_limit 3 10 [["a"; "b"]; ["c"; "d"]; ["e"]]) as Hok.
  vm_compute tool_loop in *. destruct Hok as (Hle & Hcount & _).
  - split; [discriminate|reflexivity].
  - split_and!; [exact Hle|reflexivity|reflexivity].
Defined.

(** ** Concurrent recording *)

Section token_theorems.
Import TokenBudget.

Definition inputs (ops : list op) : Z :=
  foldr (λ o n, match o with AddInput k => k + n | AddOutput _ => n end) 0 ops.
Definition outputs (ops : list op) : Z :=
  foldr (λ o n, match o with AddInput _ => n | AddOutput k => k + n end) 0 ops.

Lemma inputs_app a b : inputs (a ++ b) = inputs a + inputs b.
Proof. induction a as [|[] a IH]; simpl; unfold inputs in *; lia. Qed.
Lemma outputs_app a b : outputs (a ++ b) = outputs a + outputs b.
Proof. induction a as [|[] a IH]; simpl; unfold outputs in *; lia. Qed.

#[export] Instance inputs_perm : Proper ((≡ₚ) ==> (=)) inputs.
Proof. induction 1 as [|x|x y|]; simpl; repeat case_match; unfold inputs in *; lia. Qed.
#[export] Instance outputs_perm : Proper ((≡ₚ) ==> (=)) outputs.
Proof. induction 1 as [|x|x y|]; simpl; repeat case_match; unfold outputs in *; lia. Qed.

Lemma fetch_adds b ops :
  is_u64 (input_used b) → is_u64 (output_used b) →
  foldl fetch_add b ops =
    {| token_limit := token_limit b;
       input_used := wadd64 (input_used b) (inputs ops);
       output_used := wadd64 (output_used b) (outputs ops) |}.
Proof.
  revert b. induction ops as [|o ops IH]; intros b Hi Ho; cbn [foldl].
  - unfold wadd64. simpl. rewrite !Z.add_0_r, !Z.mod_small by done. by destruct b.
  - rewrite IH by (destruct o; simpl; auto using wadd64_range).
    destruct o; simpl; by rewrite wadd64_assoc.
Qed.

Definition ops_of (calls : list (Z * Z)) : list op :=
  mjoin (map (λ c, record_ops (fst c) (snd c)) calls).

Lemma foldl_record b calls :
  foldl (λ b c, record b (fst c) (snd c)) b calls = foldl fetch_add b (ops_of calls).
Proof.
  revert b. induction calls as [|[i o] calls IH]; intros b; [done|].
  change (ops_of ((i, o) :: calls)) with (record_ops i o ++ ops_of calls)%list.
  cbn [foldl]. by rewrite IH, foldl_app.
Qed.

Lemma ops_totals calls :
  inputs (ops_of calls) = foldr (λ c n, fst c + n) 0 calls ∧
  outputs (ops_of calls) = foldr (λ c n, snd c + n) 0 calls.
Proof.
  unfold ops_of. induction calls as [|[i o] calls [IHi IHo]]; [done|].
  simpl. unfold inputs, outputs in *. simpl. lia.
Qed.

Lemma spent_split (calls : list (Z * Z)) :
  Forall (λ c, 0 ≤ fst c ∧ 0 ≤ snd c) calls →
  foldr (λ c n, fst c + snd c + n) 0 calls
    = foldr (λ c n, fst c + n) 0 calls + foldr (λ c n, snd c + n) 0 calls ∧
  0 ≤ foldr (λ c n, fst c + n) 0 calls ∧ 0 ≤ foldr (λ c n, snd c + n) 0 calls.
Proof. induction 1 as [|c cs [] Hcs IH]; simpl; lia. Qed.
End token_theorems.

(** the additions of calls recorded by concurrent tasks may interleave in
    any order: the totals are those of recording the calls one after the other,
    the sum of all tokens while it is below 2^64. The budget is exceeded
    exactly when that sum has reached a non-zero limit, which is when nothing
    remains. *)
Theorem budget_interleavings (limit : Z) (calls : list (Z * Z)) ops :
  ops ≡ₚ ops_of calls →
  Forall (λ c, 0 ≤ fst c ∧ 0 ≤ snd c) calls →
  let b := foldl TokenBudget.fetch_add (TokenBudget.new limit) ops in
  let spent := foldr (λ c n, fst c + snd c + n) 0 calls in
  b = foldl (λ b c, TokenBudget.record b (fst c) (snd c)) (TokenBudget.new limit) calls ∧
  (spent < u64_mod →
     TokenBudget.total_used b = spent ∧
     (TokenBudget.is_exceeded b = true ↔ limit ≠ 0 ∧ limit ≤ spent) ∧
     (TokenBudget.is_exceeded b = true ↔ TokenBudget.remaining b = Some 0)).
Proof.
  intros Hops Hpos. cbn zeta. rewrite foldl_record, !fetch_adds by done.
  cbn [TokenBudget.new input_used output_used token_limit]. rewrite !Hops. split; [done|].
  destruct (ops_totals calls) as [-> ->]. intros Hspent.
  set (i := foldr (λ c n, fst c + n) 0 calls) in *.
  set (o := foldr (λ c n, snd c + n) 0 calls) in *.
  destruct (spent_split calls Hpos) as (Hsum & Hi & Ho). fold i o in Hsum, Hi, Ho.
  rewrite Hsum in *.
  assert (wadd64 0 i = i ∧ wadd64 0 o = o) as [Hwi Hwo].
  { split; rewrite wadd64_small; lia. }
  rewrite Hwi, Hwo.
  unfold TokenBudget.is_exceeded, TokenBudget.remaining, TokenBudget.is_unlimited,
    TokenBudget.total_used.
  cbn [input_used output_used token_limit]. rewrite wadd64_small by lia.
  split; [done|]. destruct (Z.eqb_spec limit 0), (Z.leb_spec limit (i + o));
    (split; split; try done; try lia); intros; simplify_eq; lia.
Qed.

Lemma budget_interleavings_witness :
  let ops := [TokenBudget.AddInput 500; TokenBudget.AddInput 300;
              TokenBudget.AddOutput 100; TokenBudget.AddOutput 200] in
  TokenBudget.is_exceeded (foldl TokenBudget.fetch_add (TokenBudget.new 1100) ops) = true.
Proof.
  cbn zeta.
  destruct (budget_interleavings 1100 [(500, 200); (300, 100)]
    [TokenBudget.AddInput 500; TokenBudget.AddInput 300;
     TokenBudget.AddOutput 100; TokenBudget.AddOutput 200]) as (_ & Hb).
  - change (ops_of _) with [TokenBudget.AddInput 500; TokenBudget.AddOutput 200;
                            TokenBudget.AddInput 300; TokenBudget.AddOutput 100].
    apply perm_skip.
    exact (Permutation_app_comm [TokenBudget.AddInput 300; TokenBudget.AddOutput 100]
                                [TokenBudget.AddOutput 200]).
  - repeat constructor; discriminate.
  - apply Hb; [reflexivity|]. split; discriminate.
Defined.

(** a template never widens the global budget: usage is within the
    resolved budget exactly when it is within the global budget and within the
    template's, zero meaning no limit for both. *)
Theorem resolve_token_budget_meet global template used_in used_out :
  let within limit :=
    negb (TokenBudget.is_exceeded
            {| token_limit := limit; input_used := used_in; output_used := used_out |}) in
  0 ≤ global → (∀ t, template = Some t → 0 ≤ t) →
  within (resolve_token_budget global template)
    = within global && within (default 0 template).
Proof.
  cbn zeta. intros Hg Ht. unfold resolve_token_budget, TokenBudget.is_exceeded,
    TokenBudget.is_unlimited, TokenBudget.total_used. simpl.
  destruct template as [t|]; simpl; [specialize (Ht t eq_refl)|by rewrite andb_true_r].
  destruct (Z.eqb_spec t 0) as [->|]; [by rewrite andb_true_r|].
  destruct (Z.eqb_spec global 0) as [->|]; [by rewrite (proj2 (Z.eqb_neq t 0))|].
  rewrite (proj2 (Z.eqb_neq (Z.min global t) 0)) by lia.
  destruct (Z.leb_spec (Z.min global t) (wadd64 used_in used_out)),
    (Z.leb_spec global (wadd64 used_in used_out)),
    (Z.leb_spec t (wadd64 used_in used_out)); simpl; lia || done.
Qed.

Lemma resolve_token_budget_meet_witness :
  let within limit u :=
    negb (TokenBudget.is_exceeded {| token_limit := limit; input_used := u; output_used := 0 |}) in
  within (resolve_token_budget 100 (Some 60)) 70 = within 100 70 && within 60 70 ∧
  within (resolve_token_budget 100 (Some 60)) 70 = false.
Proof.
  cbn zeta. split; [|reflexivity].
  apply (resolve_token_budget_meet 100 (Some 60) 70 0); [discriminate|].
  intros t [= <-]. discriminate.
Defined.

(** ** The scratchpad prompt *)

Section scratchpad_theorems.
Import SwarmScratchpad.

(** An output that can be cut: short enough, or with a character ending at
    byte 2000. *)
Definition cuttable (output : string) : Prop :=
  (String.length output ≤ 2000)%nat ∨ is_char_boundary output 2000 = true.

Definition prompt_line (x : string * string) : string :=
  "- " +:+ fst x +:+ ": " +:+
  if Nat.ltb 2000 (String.length (snd x))
  then str_take 2000 (snd x) +:+ "... [truncated]" else snd x.

Lemma format_lines_Ret sorted :
  Forall (λ x, cuttable (snd x)) sorted → format_lines sorted = Ret (map prompt_line sorted).
Proof.
  induction 1 as [|[role output] l Hc Hl IH]; [done|]. cbn [format_lines map].
  unfold truncated_output, prompt_line. cbn [fst snd] in *.
  destruct (Nat.ltb_spec 2000 (String.length output)).
  - destruct Hc as [?|Hb]; [lia|]. rewrite Hb. simpl. by rewrite IH.
  - simpl. by rewrite IH.
Qed.

Lemma format_lines_Panic sorted x :
  x ∈ sorted → ¬ cuttable (snd x) → format_lines sorted = Panic.
Proof.
  intros Hx Hnc. induction sorted as [|[role output] l IH]; [set_solver|].
  cbn [format_lines]. apply elem_of_cons in Hx as [->|Hx].
  - unfold truncated_output. cbn [snd] in Hnc. unfold cuttable in Hnc.
    destruct (Nat.ltb_spec 2000 (String.length output)); [|by destruct Hnc; left].
    destruct (is_char_boundary output 2000); [by destruct Hnc; right|done].
  - rewrite (IH Hx). by destruct (truncated_output output).
Qed.
End scratchpad_theorems.

(** the prompt made from the scratchpad: none when it is empty; otherwise,
    when every output can be cut, one line per role, each role once and in
    order; and a panic when some output of more than 2000 bytes has a character
    across byte 2000. *)
Theorem scratchpad_prompt (self : SwarmScratchpad) :
  (self = ∅ → SwarmScratchpad.format_for_prompt self = Ret None) ∧
  (self ≠ ∅ → (∀ role output, self !! role = Some output → cuttable output) →
   ∃ sorted, sorted ≡ₚ map_to_list self ∧ Sorted SwarmScratchpad.key_le sorted ∧
     SwarmScratchpad.format_for_prompt self
       = Ret (Some (join newline ("Previous agent outputs:" :: map prompt_line sorted)))) ∧
  (∀ role output, self !! role = Some output → ¬ cuttable output →
   SwarmScratchpad.format_for_prompt self = Panic).
Proof.
  unfold SwarmScratchpad.format_for_prompt, SwarmScratchpad.is_empty.
  set (sorted := merge_sort SwarmScratchpad.key_le (map_to_list self)).
  assert (sorted ≡ₚ map_to_list self) as Hperm by apply merge_sort_Permutation.
  split_and!.
  - by intros ->.
  - intros Hne Hcut. exists sorted. rewrite bool_decide_eq_false_2 by done.
    split_and!; [done|apply Sorted_merge_sort; apply _|].
    rewrite format_lines_Ret; [done|]. rewrite Hperm. apply Forall_forall.
    intros [role output] Hin%elem_of_map_to_list. by eapply Hcut.
  - intros role output Hro Hnc.
    rewrite bool_decide_eq_false_2 by (intros ->; by rewrite lookup_empty in Hro).
    rewrite (format_lines_Panic sorted (role, output)); [done| |done].
    rewrite Hperm. by apply elem_of_map_to_list.
Qed.

(** The second two-byte character of this output starts at byte 1999. *)
Definition long_output : string :=
  str_concat (replicate 1999 "a") +:+
  String (Ascii.ascii_of_nat 195) (String (Ascii.ascii_of_nat 169) "x").

Lemma scratchpad_prompt_witness :
  SwarmScratchpad.format_for_prompt {[ "writer" := long_output ]} = Panic ∧
  SwarmScratchpad.format_for_prompt {[ "writer" := "done" ]}
    = Ret (Some ("Previous agent outputs:" +:+ newline +:+ "- writer: done")).
Proof.
  split; [|vm_compute; reflexivity].
  destruct (scratchpad_prompt {[ "writer" := long_output ]}) as (_ & _ & Hpanic).
  apply (Hpanic "writer" long_output); [reflexivity|].
  intros [Hlen|Hb]; vm_compute in *; [lia|discriminate].
Defined.
