(* ===== verification/Session.v ===== *)
(** Sessions and messages: src/src/session/types.rs. Times are instants passed
    in by the caller. *)

From S2P Require Import Prelude.

Inductive Role : Type := System | User | Assistant | Tool.

#[export] Instance Role_eq_dec : EqDecision Role.
Proof. solve_decision. Defined.

Definition Role_display (r : Role) : string :=
  match r with
  | System => "system" | User => "user" | Assistant => "assistant" | Tool => "tool"
  end.

Inductive ImageSource : Type :=
| Base64 (data : string)
| FilePath (path : string)
| Url (url : string).

Inductive ContentPart : Type :=
| Text (text : string)
| Image (source : ImageSource) (media_type : string).

Record ToolCall : Type := mkToolCall { id : string; name : string; arguments : string }.

#[export] Instance ImageSource_eq_dec : EqDecision ImageSource.
Proof. solve_decision. Defined.
#[export] Instance ContentPart_eq_dec : EqDecision ContentPart.
Proof. solve_decision. Defined.
#[export] Instance ToolCall_eq_dec : EqDecision ToolCall.
Proof. solve_decision. Defined.

Record Message : Type := mkMessage {
  role : Role;
  content : string;
  content_parts : list ContentPart;
  tool_calls : option (list ToolCall);
  tool_call_id : option string;
}.

#[export] Instance Message_eq_dec : EqDecision Message.
Proof. solve_decision. Defined.

Module Message.

Definition user (content : string) : Message :=
  mkMessage User content [Text content] None None.
Definition assistant (content : string) : Message :=
  mkMessage Assistant content [Text content] None None.
Definition system (content : string) : Message :=
  mkMessage System content [Text content] None None.
Definition tool_result (tool_call_id content : string) : Message :=
  mkMessage Tool content [Text content] None (Some tool_call_id).
Definition assistant_with_tools (content : string) (calls : list ToolCall) : Message :=
  mkMessage Assistant content [Text content] (Some calls) None.
Definition user_with_images (text : string) (images : list ContentPart) : Message :=
  mkMessage User text (Text text :: images) None None.

Definition is_image (p : ContentPart) : bool :=
  match p with Image _ _ => true | Text _ => false end.
Definition has_images (self : Message) : bool := any is_image (content_parts self).
Definition images (self : Message) : list ContentPart :=
  List.filter is_image (content_parts self).

Definition has_tool_calls (self : Message) : bool :=
  match tool_calls self with
  | Some tc => negb (Nat.eqb (length tc) 0)
  | None => false
  end.

Definition is_tool_result (self : Message) : bool :=
  bool_decide (role self = Tool) && bool_decide (is_Some (tool_call_id self)).

Definition with_content (self : Message) (s : string) : Message :=
  mkMessage (role self) s (content_parts self) (tool_calls self) (tool_call_id self).
Definition with_tool_calls (self : Message) (tc : option (list ToolCall)) : Message :=
  mkMessage (role self) (content self) (content_parts self) tc (tool_call_id self).
End Message.

(** The ids of the calls a message makes. *)
Definition call_ids (m : Message) : list string := map id (default [] (tool_calls m)).

Record Session : Type := mkSession {
  key : string;
  messages : list Message;
  summary : option string;
  created_at : Z;
  updated_at : Z;
}.

Module Session.

Definition new (key : string) (now : Z) : Session :=
  {| key := key; messages := []; summary := None; created_at := now; updated_at := now |}.

Definition add_message (self : Session) (message : Message) (now : Z) : Session :=
  {| key := key self; messages := (messages self ++ [message])%list; summary := summary self;
     created_at := created_at self; updated_at := now |}.

Definition clear (self : Session) (now : Z) : Session :=
  {| key := key self; messages := []; summary := None;
     created_at := created_at self; updated_at := now |}.

Definition set_summary (self : Session) (summary : string) (now : Z) : Session :=
  {| key := key self; messages := messages self; summary := Some summary;
     created_at := created_at self; updated_at := now |}.

Definition message_count (self : Session) : nat := length (messages self).
Definition is_empty (self : Session) : bool := Nat.eqb (length (messages self)) 0.
Definition last_message (self : Session) : option Message := last (messages self).
Definition messages_by_role (self : Session) (r : Role) : list Message :=
  filter (λ m, role m = r) (messages self).
End Session.

(** ** Well-formed transcripts *)

(** Every tool result answers a call made before it; [seen] are the calls of
    the messages before the list. *)
Fixpoint orphan_free (seen : list string) (msgs : list Message) : Prop :=
  match msgs with
  | [] => True
  | m :: msgs' =>
    let seen' := (seen ++ call_ids m)%list in
    (role m = Tool → ∃ i, tool_call_id m = Some i ∧ i ∈ seen') ∧ orphan_free seen' msgs'
  end.

(** Only the assistant makes tool calls, as in every transcript the code
    builds. *)
Definition calls_by_assistant (msgs : list Message) : Prop :=
  Forall (λ m, tool_calls m ≠ None → role m = Assistant) msgs.

Lemma orphan_free_mono seen seen' msgs :
  seen ⊆ seen' → orphan_free seen msgs → orphan_free seen' msgs.
Proof.
  revert seen seen'. induction msgs as [|m msgs IH]; intros seen seen' Hsub; [done|].
  simpl. intros [Hm Hms]. split.
  - intros Ht. destruct (Hm Ht) as (i & Hi & Hin). exists i. split; [done|]. set_solver.
  - eapply IH; [|done]. set_solver.
Qed.

Lemma orphan_free_app seen a b :
  orphan_free seen (a ++ b) ↔
  orphan_free seen a ∧ orphan_free (seen ++ mjoin (map call_ids a)) b.
Proof.
  revert seen. induction a as [|m a IH]; intros seen; simpl.
  - rewrite app_nil_r. tauto.
  - rewrite IH. rewrite <- app_assoc. simpl. tauto.
Qed.

(** Dropping messages that make no calls, or that are tool results, keeps the
    rest in order. *)
Lemma orphan_free_skip seen m msgs :
  call_ids m = [] → orphan_free seen (m :: msgs) → orphan_free seen msgs.
Proof. simpl. intros ->. rewrite app_nil_r. tauto. Qed.
