(* ===== verification/Repair.v ===== *)
(** Repair of a conversation history before it is sent to a provider:
    src/src/session/repair.rs. *)

From S2P Require Import Prelude Session.

Record RepairStats : Type := mkRepairStats {
  orphan_tool_results_removed : nat;
  empty_messages_removed : nat;
  role_alternation_fixes : nat;
  duplicate_messages_removed : nat;
  truncation_repairs : nat;
}.

Definition total_repairs (s : RepairStats) : nat :=
  (orphan_tool_results_removed s + empty_messages_removed s + role_alternation_fixes s
   + duplicate_messages_removed s + truncation_repairs s)%nat.

(** *** The passes *)

Fixpoint remove_orphans_from (seen_tool_calls : list string) (messages : list Message)
    : list Message * nat :=
  match messages with
  | [] => ([], 0%nat)
  | msg :: messages' =>
    let seen_tool_calls := (seen_tool_calls ++ call_ids msg)%list in
    let '(repaired, removed) := remove_orphans_from seen_tool_calls messages' in
    if decide (role msg = Tool) then
      match tool_call_id msg with
      | Some id => if decide (id ∈ seen_tool_calls) then (msg :: repaired, removed)
                   else (repaired, S removed)
      | None => (repaired, S removed)
      end
    else (msg :: repaired, removed)
  end.

Definition remove_orphan_tool_results (messages : list Message) : list Message * nat :=
  remove_orphans_from [] messages.

Definition kept_by_empty (msg : Message) : bool :=
  let has_tools := match tool_calls msg with
                   | Some calls => negb (Nat.eqb (length calls) 0)
                   | None => false
                   end in
  negb (str_is_empty (trim (content msg))) || has_tools || bool_decide (role msg = Tool).

Definition remove_empty_messages (messages : list Message) : list Message * nat :=
  (List.filter kept_by_empty messages,
   length (List.filter (λ m, negb (kept_by_empty m)) messages)).

(** The previous message with a later one of the same role merged into it. *)
Definition merge_into (prev msg : Message) : Message :=
  let content' :=
    if str_is_empty (content msg) then content prev
    else (if str_is_empty (content prev) then content prev else content prev +:+ newline)
           +:+ content msg in
  let tool_calls' :=
    if decide (role msg = Assistant)
    then match tool_calls msg with
         | Some calls => Some (default [] (tool_calls prev) ++ calls)%list
         | None => tool_calls prev
         end
    else tool_calls prev in
  mkMessage (role prev) content' (content_parts prev) tool_calls' (tool_call_id prev).

(** One message of the loop; [out] is the output with its last message first. *)
Definition alternation_step (acc : list Message * nat) (msg : Message) : list Message * nat :=
  let '(out, fixed) := acc in
  match role msg with
  | User | Assistant =>
    match out with
    | prev :: rest =>
      if decide (role prev = role msg) then (merge_into prev msg :: rest, S fixed)
      else (msg :: out, fixed)
    | [] => (msg :: out, fixed)
    end
  | System | Tool => (msg :: out, fixed)
  end.

Definition fix_role_alternation (messages : list Message) : list Message * nat :=
  let '(out, fixed) := foldl alternation_step ([], 0%nat) messages in (reverse out, fixed).

Definition same_message (prev msg : Message) : bool :=
  bool_decide (role prev = role msg) && String.eqb (content prev) (content msg)
  && bool_decide (tool_call_id prev = tool_call_id msg)
  && bool_decide (tool_calls prev = tool_calls msg).

Definition duplicates_step (acc : list Message * nat) (msg : Message) : list Message * nat :=
  let '(out, removed) := acc in
  match out with
  | prev :: _ => if same_message prev msg then (out, S removed) else (msg :: out, removed)
  | [] => (msg :: out, removed)
  end.

Definition remove_consecutive_duplicates (messages : list Message) : list Message * nat :=
  let '(out, removed) := foldl duplicates_step ([], 0%nat) messages in (reverse out, removed).

(** U+FFFD, the replacement character. *)
Definition replacement_char : string :=
  String (Ascii.ascii_of_nat 239)
    (String (Ascii.ascii_of_nat 191) (String (Ascii.ascii_of_nat 189) "")).

(** [trim_end_matches]: every trailing occurrence goes. *)
Fixpoint trim_end_matches_fuel (fuel : nat) (s p : string) : string :=
  match fuel with
  | O => s
  | S fuel => match strip_suffix s p with
              | Some s' => trim_end_matches_fuel fuel s' p
              | None => s
              end
  end.
Definition trim_end_matches (s p : string) : string :=
  trim_end_matches_fuel (String.length s) s p.

Definition repair_truncation (msg : Message) : Message * bool :=
  let '(msg, changed) :=
    if ends_with (content msg) replacement_char
    then (Message.with_content msg (trim_end_matches (content msg) replacement_char), true)
    else (msg, false) in
  if ends_with (content msg) "[...truncated"
  then (Message.with_content msg (content msg +:+ "...]"), true)
  else (msg, changed).

Definition repair_truncation_artifacts (messages : list Message) : list Message * nat :=
  (map (λ m, fst (repair_truncation m)) messages,
   length (List.filter (λ m, snd (repair_truncation m)) messages)).

Definition repair_messages (messages : list Message) : list Message * RepairStats :=
  let '(messages, orphans) := remove_orphan_tool_results messages in
  let '(messages, empty_removed) := remove_empty_messages messages in
  let '(messages, alt_fixed) := fix_role_alternation messages in
  let '(messages, dup_removed) := remove_consecutive_duplicates messages in
  let '(messages, trunc_repaired) := repair_truncation_artifacts messages in
  (messages,
   {| orphan_tool_results_removed := orphans; empty_messages_removed := empty_removed;
      role_alternation_fixes := alt_fixed; duplicate_messages_removed := dup_removed;
      truncation_repairs := trunc_repaired |}).

(** ** What a repaired transcript is *)

(** Two adjacent messages: no two dialog messages of one role in a row. *)
Definition may_follow (a b : Message) : Prop :=
  role a = role b → role a = System ∨ role a = Tool.
Definition alternates (msgs : list Message) : Prop := Sorted may_follow msgs.

Definition no_repeats (msgs : list Message) : Prop :=
  Sorted (λ a b, same_message a b = false) msgs.

Definition no_artifacts (msgs : list Message) : Prop :=
  Forall (λ m, snd (repair_truncation m) = false) msgs.

Lemma Sorted_cons_head {A} (R : A → A → Prop) x l :
  Sorted R l → (∀ y, head l = Some y → R x y) → Sorted R (x :: l).
Proof.
  intros Hl Hx. constructor; [done|]. destruct l as [|y l]; constructor. by apply Hx.
Qed.

Lemma Sorted_cons_inv {A} (R : A → A → Prop) x l :
  Sorted R (x :: l) → Sorted R l ∧ (∀ y, head l = Some y → R x y).
Proof.
  intros Hs. inversion Hs as [|? ? Hl Hhd]; subst. split; [done|].
  intros y Hy. destruct Hhd; simplify_eq/=. done.
Qed.

(** *** Orphans *)

Lemma tool_has_no_calls m :
  (tool_calls m ≠ None → role m = Assistant) → role m ≠ Assistant → call_ids m = [].
Proof. intros Hm Hr. unfold call_ids. destruct (tool_calls m); [|done]. by destruct Hr; apply Hm. Qed.

Lemma remove_orphans_spec seen msgs :
  calls_by_assistant msgs →
  let '(r, n) := remove_orphans_from seen msgs in
  orphan_free seen r ∧ sublist r msgs ∧ length msgs = (length r + n)%nat ∧
  (orphan_free seen msgs → r = msgs ∧ n = 0%nat).
Proof.
  intros Hwf. revert seen. induction Hwf as [|m msgs Hm Hwf IHm]; intros seen; [by simpl|].
  simpl. specialize (IHm (seen ++ call_ids m)%list).
  destruct (remove_orphans_from _ msgs) as [r n]. destruct IHm as (Hfree & Hsub & Hlen & Hid).
  assert (role m = Tool → call_ids m = []) as Hids
    by (intros Ht; apply tool_has_no_calls; [done|congruence]).
  destruct (decide (role m = Tool)) as [Ht|Ht].
  - destruct (tool_call_id m) as [i|] eqn:Hi; [destruct (decide _)|].
    + simpl. split_and!; [|done|by apply sublist_skip|lia|].
      * intros _. by exists i.
      * intros [_ Hms]. destruct (Hid Hms) as [-> ->]. done.
    + split_and!; [|by apply sublist_cons|lia|].
      * by rewrite (Hids Ht), app_nil_r in Hfree.
      * intros [Hm' _]. destruct (Hm' Ht) as (j & Hj & Hin). simplify_eq. done.
    + split_and!; [|by apply sublist_cons|lia|].
      * by rewrite (Hids Ht), app_nil_r in Hfree.
      * intros [Hm' _]. destruct (Hm' Ht) as (j & Hj & Hin). congruence.
  - simpl. split_and!; [done|done|by apply sublist_skip|lia|].
    intros [_ Hms]. destruct (Hid Hms) as [-> ->]. done.
Qed.

Lemma calls_by_assistant_sublist a b :
  sublist a b → calls_by_assistant b → calls_by_assistant a.
Proof.
  unfold calls_by_assistant. rewrite !Forall_forall. intros Hsub Hb x Hx.
  apply Hb. by apply (sublist_subseteq _ _ Hsub).
Qed.

(** *** Empty messages *)

Lemma kept_false_no_calls m : kept_by_empty m = false → call_ids m = [].
Proof.
  unfold kept_by_empty, call_ids. rewrite !orb_false_iff. intros [[_ Ht] _].
  by destruct (tool_calls m) as [[|]|].
Qed.

Lemma filter_lengths {A} (f : A → bool) (l : list A) :
  length l = (length (List.filter f l) + length (List.filter (λ x, negb (f x)) l))%nat.
Proof. induction l as [|x l IH]; simpl; [done|]. destruct (f x); simpl; lia. Qed.

Lemma filter_sublist {A} (f : A → bool) (l : list A) : sublist (List.filter f l) l.
Proof.
  induction l as [|x l IH]; simpl; [constructor|].
  destruct (f x); [by apply sublist_skip|by apply sublist_cons].
Qed.

Lemma filter_all {A} (f : A → bool) (l : list A) :
  Forall (λ x, f x = true) l → List.filter f l = l ∧ List.filter (λ x, negb (f x)) l = [].
Proof. induction 1 as [|x l Hx Hl [IH1 IH2]]; simpl; [done|]. by rewrite Hx, IH1, IH2. Qed.

Lemma filter_kept_orphan_free seen msgs :
  orphan_free seen msgs → orphan_free seen (List.filter kept_by_empty msgs).
Proof.
  revert seen. induction msgs as [|m msgs IH]; intros seen; simpl; [done|]. intros [Hm Hms].
  destruct (kept_by_empty m) eqn:Hk; simpl; [split; auto|].
  apply kept_false_no_calls in Hk. rewrite Hk, app_nil_r in Hms. auto.
Qed.

(** *** Role alternation *)

Definition merges (prev m : Message) : bool :=
  bool_decide (role prev = role m) &&
  (bool_decide (role m = User) || bool_decide (role m = Assistant)).

(** The loop with the last message of the output in hand. *)
Fixpoint alternate (prev : Message) (msgs : list Message) : list Message * nat :=
  match msgs with
  | [] => ([prev], 0%nat)
  | m :: msgs' =>
    if merges prev m
    then let '(out, n) := alternate (merge_into prev m) msgs' in (out, S n)
    else let '(out, n) := alternate m msgs' in (prev :: out, n)
  end.

Lemma alternation_step_cons prev rest n m :
  alternation_step (prev :: rest, n) m =
    if merges prev m then (merge_into prev m :: rest, S n) else (m :: prev :: rest, n).
Proof.
  unfold alternation_step, merges.
  destruct (role m) eqn:Hm; (destruct (decide (role prev = role m)) as [Hp|Hp];
    rewrite Hm in Hp; [rewrite bool_decide_eq_true_2 by done|
                       rewrite bool_decide_eq_false_2 by done]); simpl;
    rewrite ?decide_True, ?decide_False by done; done.
Qed.

Lemma foldl_alternation prev rest n msgs :
  foldl alternation_step (prev :: rest, n) msgs =
    let '(out, k) := alternate prev msgs in ((reverse out ++ rest)%list, (n + k)%nat).
Proof.
  revert prev rest n. induction msgs as [|m msgs IH]; intros prev rest n.
  { simpl. f_equal. lia. }
  cbn [foldl alternate]. rewrite alternation_step_cons. destruct (merges prev m).
  - rewrite IH. destruct (alternate _ msgs). f_equal. lia.
  - rewrite IH. destruct (alternate m msgs). rewrite reverse_cons, <- app_assoc. done.
Qed.

Lemma fix_role_alternation_eq prev msgs :
  fix_role_alternation (prev :: msgs) = alternate prev msgs.
Proof.
  unfold fix_role_alternation. cbn [foldl].
  replace (alternation_step ([], 0%nat) prev) with ([prev], 0%nat)
    by (unfold alternation_step; by destruct (role prev)).
  rewrite foldl_alternation. destruct (alternate prev msgs). rewrite app_nil_r.
  by rewrite reverse_involutive.
Qed.

Lemma merges_true prev m :
  merges prev m = true → role prev = role m ∧ (role m = User ∨ role m = Assistant).
Proof.
  unfold merges. rewrite andb_true_iff, orb_true_iff, !bool_decide_eq_true. tauto.
Qed.

Lemma merges_false prev m : merges prev m = false → may_follow prev m.
Proof.
  unfold merges, may_follow. rewrite andb_false_iff, orb_false_iff, !bool_decide_eq_false.
  intros [?|[? ?]] Heq; [done|]. rewrite Heq. destruct (role m); auto; done.
Qed.

Lemma may_follow_merges prev m : may_follow prev m → merges prev m = false.
Proof.
  intros Hf. apply not_true_is_false. intros [Heq Hr]%merges_true.
  destruct (Hf Heq); rewrite Heq in *; destruct Hr; congruence.
Qed.

Lemma merge_calls prev m :
  (tool_calls m ≠ None → role m = Assistant) →
  default [] (tool_calls (merge_into prev m)) =
    (default [] (tool_calls prev) ++ default [] (tool_calls m))%list.
Proof.
  intros Hm. unfold merge_into. cbn [tool_calls].
  destruct (decide (role m = Assistant)) as [Ha|Ha].
  - destruct (tool_calls m) as [calls|]; [done|]. cbn. by rewrite app_nil_r.
  - destruct (tool_calls m) as [calls|]; [by destruct Ha; apply Hm|]. cbn. by rewrite app_nil_r.
Qed.

Lemma merge_call_ids prev m :
  (tool_calls m ≠ None → role m = Assistant) →
  call_ids (merge_into prev m) = (call_ids prev ++ call_ids m)%list.
Proof. intros Hm. unfold call_ids. rewrite merge_calls by done. apply map_app. Qed.

Lemma merge_wf prev m :
  (tool_calls prev ≠ None → role prev = Assistant) → role prev = role m →
  tool_calls (merge_into prev m) ≠ None → role (merge_into prev m) = Assistant.
Proof.
  intros Hp Heq. unfold merge_into. cbn [tool_calls role].
  destruct (decide (role m = Assistant)); [congruence|done].
Qed.

Lemma alternate_spec prev msgs :
  let '(out, n) := alternate prev msgs in
  (∃ m, head out = Some m ∧ role m = role prev) ∧ alternates out ∧
  S (length msgs) = (length out + n)%nat ∧
  (alternates (prev :: msgs) → out = prev :: msgs ∧ n = 0%nat) ∧
  (∀ seen, calls_by_assistant (prev :: msgs) → orphan_free seen (prev :: msgs) →
     orphan_free seen out).
Proof.
  revert prev. induction msgs as [|m msgs IH]; intros prev; simpl.
  { split_and!; [by exists prev|repeat constructor|done|done|done]. }
  destruct (merges prev m) eqn:Hmg.
  - specialize (IH (merge_into prev m)). destruct (alternate (merge_into prev m) msgs) as [out n].
    destruct IH as ((x & Hx & Hr) & Halt & Hlen & _ & Hof).
    apply merges_true in Hmg as [Heq Hrole]. split_and!.
    + by exists x.
    + done.
    + lia.
    + intros [_ Hhead]%Sorted_cons_inv.
      specialize (Hhead m eq_refl Heq). rewrite Heq in Hhead.
      destruct Hhead, Hrole; congruence.
    + intros seen [Hp [Hm Hwf]%Forall_cons]%Forall_cons [Hfp [Hfm Hfms]].
      apply Hof; [constructor; [by apply merge_wf|done]|]. simpl.
      rewrite merge_call_ids, app_assoc by done. split; [|done].
      intros Ht. change (role prev = Tool) in Ht. destruct Hrole; congruence.
  - specialize (IH m). destruct (alternate m msgs) as [out n].
    destruct IH as ((x & Hx & Hr) & Halt & Hlen & Hid & Hof). split_and!.
    + by exists prev.
    + apply Sorted_cons_head; [done|]. intros y Hy. rewrite Hx in Hy. simplify_eq.
      apply merges_false in Hmg. unfold may_follow in *. by rewrite Hr.
    + simpl. lia.
    + intros [Hs _]%Sorted_cons_inv. destruct (Hid Hs) as [-> ->]. done.
    + intros seen [Hp Hwf]%Forall_cons [Hfp Hfm]. split; [done|]. by apply Hof.
Qed.

(** *** Duplicates *)

Fixpoint dedup (prev : Message) (msgs : list Message) : list Message * nat :=
  match msgs with
  | [] => ([prev], 0%nat)
  | m :: msgs' =>
    if same_message prev m
    then let '(out, n) := dedup prev msgs' in (out, S n)
    else let '(out, n) := dedup m msgs' in (prev :: out, n)
  end.

Lemma foldl_duplicates prev rest n msgs :
  foldl duplicates_step (prev :: rest, n) msgs =
    let '(out, k) := dedup prev msgs in ((reverse out ++ rest)%list, (n + k)%nat).
Proof.
  revert prev rest n. induction msgs as [|m msgs IH]; intros prev rest n.
  { simpl. f_equal. lia. }
  cbn [foldl dedup]. unfold duplicates_step at 2. destruct (same_message prev m).
  - rewrite IH. destruct (dedup prev msgs). f_equal. lia.
  - rewrite IH. destruct (dedup m msgs). rewrite reverse_cons, <- app_assoc. done.
Qed.

Lemma remove_consecutive_duplicates_eq prev msgs :
  remove_consecutive_duplicates (prev :: msgs) = dedup prev msgs.
Proof.
  unfold remove_consecutive_duplicates. cbn [foldl].
  change (duplicates_step ([], 0%nat) prev) with ([prev], 0%nat). rewrite foldl_duplicates.
  destruct (dedup prev msgs). rewrite app_nil_r. by rewrite reverse_involutive.
Qed.

Lemma same_message_true a b :
  same_message a b = true → role a = role b ∧ call_ids a = call_ids b.
Proof.
  unfold same_message, call_ids. rewrite !andb_true_iff, !bool_decide_eq_true.
  intros [[[? _] _] ->]. done.
Qed.

Lemma dedup_spec prev msgs :
  let '(out, n) := dedup prev msgs in
  head out = Some prev ∧ no_repeats out ∧ S (length msgs) = (length out + n)%nat ∧
  (no_repeats (prev :: msgs) → out = prev :: msgs ∧ n = 0%nat) ∧
  (alternates (prev :: msgs) → alternates out) ∧
  (∀ seen, orphan_free seen (prev :: msgs) → orphan_free seen out).
Proof.
  revert prev. induction msgs as [|m msgs IH]; intros prev; simpl.
  { split_and!; [done|repeat constructor|done..]. }
  destruct (same_message prev m) eqn:Hs.
  - specialize (IH prev). destruct (dedup prev msgs) as [out n].
    destruct IH as (Hhd & Hnr & Hlen & _ & Halt & Hof).
    apply same_message_true in Hs as Hs'. destruct Hs' as [Hrole Hids]. split_and!.
    + done.
    + done.
    + lia.
    + intros [_ Hhead]%Sorted_cons_inv. specialize (Hhead m eq_refl). congruence.
    + intros [[Hms Hm]%Sorted_cons_inv Hp]%Sorted_cons_inv. apply Halt.
      apply Sorted_cons_head; [done|]. intros y Hy. specialize (Hm y Hy).
      unfold may_follow in *. by rewrite Hrole.
    + intros seen [Hfp [Hfm Hfms]]. apply Hof. split; [done|].
      eapply orphan_free_mono; [|exact Hfms]. rewrite <- Hids. set_solver.
  - specialize (IH m). destruct (dedup m msgs) as [out n].
    destruct IH as (Hhd & Hnr & Hlen & Hid & Halt & Hof). split_and!.
    + done.
    + apply Sorted_cons_head; [done|]. intros y Hy. rewrite Hhd in Hy. by simplify_eq.
    + simpl. lia.
    + intros [Hs' _]%Sorted_cons_inv. destruct (Hid Hs') as [-> ->]. done.
    + intros [Hms Hp]%Sorted_cons_inv. apply Sorted_cons_head; [by apply Halt|].
      intros y Hy. rewrite Hhd in Hy. simplify_eq. by apply Hp.
    + intros seen [Hfp Hfm]. split; [done|]. by apply Hof.
Qed.

(** *** Truncation artifacts *)

Lemma repair_truncation_frame m :
  let m' := fst (repair_truncation m) in
  role m' = role m ∧ tool_calls m' = tool_calls m ∧ tool_call_id m' = tool_call_id m ∧
  (snd (repair_truncation m) = false → m' = m).
Proof.
  unfold repair_truncation. destruct (ends_with (content m) replacement_char);
    simpl; case_match; simpl; split_and!; try done.
Qed.

Lemma map_truncation_orphan_free seen msgs :
  orphan_free seen msgs → orphan_free seen (map (λ m, fst (repair_truncation m)) msgs).
Proof.
  revert seen. induction msgs as [|m msgs IH]; intros seen; simpl; [done|]. intros [Hm Hms].
  destruct (repair_truncation_frame m) as (Hr & Hc & Hi & _). unfold call_ids at 1 2.
  rewrite Hr, Hc, Hi. fold (call_ids m). split; auto.
Qed.

Lemma map_truncation_alternates msgs :
  alternates msgs → alternates (map (λ m, fst (repair_truncation m)) msgs).
Proof.
  induction msgs as [|m msgs IH]; simpl; [constructor|].
  intros [Hs Hh]%Sorted_cons_inv. apply Sorted_cons_head; [by apply IH|].
  intros y Hy. destruct msgs as [|m2 msgs]; simplify_eq/=.
  specialize (Hh m2 eq_refl). unfold may_follow in *.
  destruct (repair_truncation_frame m) as (-> & _), (repair_truncation_frame m2) as (-> & _).
  done.
Qed.

Lemma map_truncation_id msgs :
  no_artifacts msgs → map (λ m, fst (repair_truncation m)) msgs = msgs ∧
  List.filter (λ m, snd (repair_truncation m)) msgs = [].
Proof.
  induction 1 as [|m msgs Hm Hms [IH1 IH2]]; simpl; [done|]. rewrite IH1, Hm, IH2.
  destruct (repair_truncation_frame m) as (_ & _ & _ & Hid). by rewrite Hid.
Qed.

(** ** The properties *)

Lemma fix_role_alternation_spec msgs :
  let '(out, n) := fix_role_alternation msgs in
  alternates out ∧ length msgs = (length out + n)%nat ∧
  (alternates msgs → out = msgs ∧ n = 0%nat) ∧
  (∀ seen, calls_by_assistant msgs → orphan_free seen msgs → orphan_free seen out).
Proof.
  destruct msgs as [|prev msgs]; [by split_and!; simpl; try constructor|].
  rewrite fix_role_alternation_eq. pose proof (alternate_spec prev msgs) as Hspec.
  destruct (alternate prev msgs). destruct Hspec as (_ & ? & ? & ? & ?). by split_and!.
Qed.

Lemma remove_consecutive_duplicates_spec msgs :
  let '(out, n) := remove_consecutive_duplicates msgs in
  no_repeats out ∧ length msgs = (length out + n)%nat ∧
  (no_repeats msgs → out = msgs ∧ n = 0%nat) ∧ (alternates msgs → alternates out) ∧
  (∀ seen, orphan_free seen msgs → orphan_free seen out).
Proof.
  destruct msgs as [|prev msgs]; [by split_and!; simpl; try constructor|].
  rewrite remove_consecutive_duplicates_eq. pose proof (dedup_spec prev msgs) as Hspec.
  destruct (dedup prev msgs). destruct Hspec as (_ & ? & ? & ? & ? & ?). by split_and!.
Qed.

(** ** What becomes of each message *)

Definition merged_text (g : list Message) : string :=
  join newline (List.filter (λ c, negb (str_is_empty c)) (map content g)).

(** A message made of adjacent ones of a role: what they say on lines of their own, and all
    their calls. Pictures are those of the first one only. *)
Record merged_of (g : list Message) (o : Message) : Prop := {
  merged_first : ∃ m, head g = Some m ∧ role o = role m ∧ tool_call_id o = tool_call_id m ∧
                      content_parts o = content_parts m;
  merged_roles : Forall (λ m, role m = role o) g;
  merged_many : (1 < length g)%nat → role o = User ∨ role o = Assistant;
  merged_content : content o = merged_text g;
  merged_calls : default [] (tool_calls o) = mjoin (map (λ m, default [] (tool_calls m)) g);
}.

Lemma join_snoc sep l x : join sep (l ++ [x]) = match l with [] => x | _ => join sep l +:+ sep +:+ x end.
Proof.
  induction l as [|y l IH]; [done|]. cbn [app join]. rewrite IH. destruct l as [|z l]; [done|]. cbn [app].
  cbn [join]. by rewrite !str_app_assoc.
Qed.

Lemma join_empty sep l : Forall (λ c, str_is_empty c = false) l → str_is_empty (join sep l) = bool_decide (l = []).
Proof. destruct 1 as [|x [|y l] Hx Hl]; [done|by destruct x|by destruct x]. Qed.

Lemma merged_text_snoc g m :
  merged_text (g ++ [m]) =
    if str_is_empty (content m) then merged_text g
    else (if str_is_empty (merged_text g) then merged_text g else merged_text g +:+ newline) +:+ content m.
Proof.
  unfold merged_text. rewrite map_app, List.filter_app. cbn [map List.filter].
  set (l := List.filter _ (map content g)). destruct (str_is_empty (content m)) eqn:Hm; cbn [negb]; [by rewrite app_nil_r|].
  rewrite join_snoc, join_empty.
  - destruct l as [|x l]; [done|]. rewrite bool_decide_eq_false_2 by done. by rewrite str_app_assoc.
  - apply Forall_forall. intros c [_ Hc]%list_elem_of_In%filter_In. by apply negb_true_iff.
Qed.

Lemma merged_single m : merged_of [m] m.
Proof.
  split; [by exists m|by repeat constructor|cbn; lia| |].
  - unfold merged_text. cbn. by destruct (content m).
  - cbn. by rewrite app_nil_r.
Qed.

Lemma merged_snoc g prev m :
  merged_of g prev → merges prev m = true → (tool_calls m ≠ None → role m = Assistant) →
  merged_of (g ++ [m]) (merge_into prev m).
Proof.
  intros [(x & Hx & Hr & Hi & Hp) Hrs _ Hc Hids] [Heq Hrole]%merges_true Hm. split.
  - exists x. split; [|done]. by destruct g.
  - apply Forall_app. split; [done|]. by repeat constructor.
  - intros _. change (role prev = User ∨ role prev = Assistant). by rewrite Heq.
  - unfold merge_into. cbn [content]. by rewrite Hc, merged_text_snoc.
  - rewrite merge_calls, Hids, map_app, join_app by done. cbn. by rewrite app_nil_r.
Qed.

Lemma alternate_groups prev msgs g :
  merged_of g prev → calls_by_assistant msgs →
  ∃ groups, mjoin groups = g ++ msgs ∧ Forall2 merged_of groups (fst (alternate prev msgs)).
Proof.
  revert prev g. induction msgs as [|m msgs IH]; intros prev g Hg Hwf; cbn [alternate].
  { exists [g]. split; [done|constructor; [done|constructor]]. }
  apply Forall_cons in Hwf as [Hm Hwf]. destruct (merges prev m) eqn:Hmg.
  - destruct (IH (merge_into prev m) (g ++ [m])%list) as (groups & Hj & Hf); [by apply merged_snoc|done|].
    exists groups. split; [by rewrite Hj, <- app_assoc|]. by destruct (alternate (merge_into prev m) msgs).
  - destruct (IH m [m] (merged_single m) Hwf) as (groups & Hj & Hf). exists (g :: groups).
    split; [change (mjoin (g :: groups)) with (g ++ mjoin groups); by rewrite Hj|]. destruct (alternate m msgs). by constructor.
Qed.

(** A run of messages that are the same as its first, which is what remains. *)
Definition run_of (run : list Message) (first : Message) : Prop :=
  ∃ rest, run = first :: rest ∧ Forall (λ m, same_message first m = true) rest.

Lemma dedup_runs prev msgs :
  ∃ run runs, mjoin (run :: runs) = prev :: msgs ∧ Forall2 run_of (run :: runs) (fst (dedup prev msgs)).
Proof.
  revert prev. induction msgs as [|m msgs IH]; intros prev; cbn [dedup].
  { exists [prev], []. split; [done|]. repeat constructor. by exists []. }
  destruct (same_message prev m) eqn:Hs.
  - destruct (IH prev) as (run & runs & Hj & Hf). destruct (dedup prev msgs) as [out n].
    cbn [fst] in *. inversion Hf as [|? d ? ds (rest & -> & Hr) Hrs]; subst. cbn in Hj.
    injection Hj as <- Hj. exists (d :: m :: rest), runs. split; [by rewrite <- Hj|].
    constructor; [|done]. exists (m :: rest). split; [done|by constructor].
  - destruct (IH m) as (run & runs & Hj & Hf). destruct (dedup m msgs) as [out n]. cbn [fst] in *.
    exists [prev], (run :: runs). split; [by rewrite <- Hj|]. constructor; [by exists []|done].
Qed.

(** A text without the mark of a character that was cut at its end, and with the
    mark of a truncation closed. *)
Definition untruncated (text text' : string) : Prop :=
  ∃ body n, text = body +:+ str_concat (replicate n replacement_char) ∧
    (∀ x, body ≠ x +:+ replacement_char) ∧
    ((∃ x, body = x +:+ "[...truncated" ∧ text' = x +:+ "[...truncated...]") ∨
     (∀ x, body ≠ x +:+ "[...truncated") ∧ text' = body).

Lemma replicate_end n s : str_concat (replicate (S n) s) = str_concat (replicate n s) +:+ s.
Proof.
  rewrite <- Nat.add_1_r, replicate_add, str_concat_app. cbn. by rewrite str_app_nil_r.
Qed.

Lemma trim_end_matches_ok s p :
  p ≠ "" → ∃ n, s = trim_end_matches s p +:+ str_concat (replicate n p) ∧
    ∀ x, trim_end_matches s p ≠ x +:+ p.
Proof.
  intros Hp. unfold trim_end_matches.
  assert (∀ fuel s, (String.length s ≤ fuel)%nat →
    ∃ n, s = trim_end_matches_fuel fuel s p +:+ str_concat (replicate n p) ∧
      ∀ x, trim_end_matches_fuel fuel s p ≠ x +:+ p) as Hgo; [|by apply Hgo].
  assert (0 < String.length p)%nat as Hl by (destruct p; cbn; [done|lia]).
  clear s. induction fuel as [|fuel IH]; intros s Hs; cbn [trim_end_matches_fuel].
  { exists 0%nat. split; [by rewrite str_app_nil_r|]. intros x ->. rewrite str_app_length in Hs. lia. }
  destruct (strip_suffix s p) as [s'|] eqn:He.
  - apply strip_suffix_Some in He as ->. rewrite str_app_length in Hs.
    destruct (IH s') as (n & Hn & Hx); [lia|]. exists (S n). split; [|done].
    rewrite replicate_end, <- str_app_assoc. by rewrite <- Hn.
  - exists 0%nat. split; [by rewrite str_app_nil_r|]. intros x Hx.
    by rewrite (proj2 (strip_suffix_Some s p x) Hx) in He.
Qed.

Lemma repair_truncation_ok m :
  let m' := fst (repair_truncation m) in
  m' = Message.with_content m (content m') ∧ untruncated (content m) (content m').
Proof.
  cbv zeta.
  set (body := if ends_with (content m) replacement_char
               then trim_end_matches (content m) replacement_char else content m).
  assert (content (fst (repair_truncation m)) =
            (if ends_with body "[...truncated" then body +:+ "...]" else body) ∧
          fst (repair_truncation m) = Message.with_content m (content (fst (repair_truncation m)))) as [Hc Hw].
  { unfold body, repair_truncation. destruct m. destruct (ends_with _ replacement_char); cbn;
      destruct (ends_with _ "[...truncated"); done. }
  split; [done|]. rewrite Hc.
  assert (∃ n, content m = body +:+ str_concat (replicate n replacement_char) ∧
            ∀ x, body ≠ x +:+ replacement_char) as (n & Hn & Hx).
  { unfold body. destruct (ends_with _ _) eqn:He; [by apply trim_end_matches_ok|].
    exists 0%nat. split; [by rewrite str_app_nil_r|]. intros x Hx.
    apply not_true_iff_false in He as []. apply ends_with_spec. eauto. }
  exists body, n. split_and!; [done..|]. destruct (ends_with body _) eqn:He.
  - apply ends_with_spec in He as [x ->]. left. exists x. by rewrite str_app_assoc.
  - right. split; [|done]. intros x ->. apply not_true_iff_false in He as []. apply ends_with_spec. eauto.
Qed.

Lemma remove_orphans_keep seen msgs pre m post :
  msgs = pre ++ m :: post →
  (role m = Tool → ∃ i, tool_call_id m = Some i ∧ i ∈ seen ++ mjoin (map call_ids pre)) →
  m ∈ fst (remove_orphans_from seen msgs).
Proof.
  revert seen msgs. induction pre as [|x pre IH]; intros seen msgs -> Hm; cbn [app remove_orphans_from].
  - destruct (remove_orphans_from _ post) as [r n]. destruct (decide (role m = Tool)) as [Ht|]; [|by left].
    destruct (Hm Ht) as (i & -> & Hi). cbn in Hi. rewrite app_nil_r in Hi.
    rewrite decide_True by set_solver. by left.
  - specialize (IH (seen ++ call_ids x)%list (pre ++ m :: post) eq_refl).
    destruct (remove_orphans_from _ (pre ++ m :: post)) as [r n]. cbn in IH.
    assert (m ∈ r) as Hr.
    { apply IH. intros Ht. destruct (Hm Ht) as (i & Hi & Hin). exists i. split; [done|]. cbn in Hin. by rewrite <- app_assoc. }
    destruct (decide (role x = Tool)); [|by right]. destruct (tool_call_id x); [destruct (decide _)|]; set_solver.
Qed.

Lemma kept_spec m :
  kept_by_empty m = true ↔ str_is_empty (trim (content m)) = false ∨ call_ids m ≠ [] ∨ role m = Tool.
Proof.
  unfold kept_by_empty, call_ids. rewrite !orb_true_iff, negb_true_iff, bool_decide_eq_true.
  destruct (tool_calls m) as [[|c l]|]; cbn; intuition (discriminate || congruence).
Qed.

Lemma fix_role_alternation_groups msgs :
  calls_by_assistant msgs →
  ∃ groups, mjoin groups = msgs ∧ Forall2 merged_of groups (fst (fix_role_alternation msgs)).
Proof.
  intros Hwf. destruct msgs as [|prev msgs]; [by exists []|]. rewrite fix_role_alternation_eq.
  apply Forall_cons in Hwf as [_ Hwf]. apply (alternate_groups prev msgs [prev]); [apply merged_single|done].
Qed.

Lemma remove_duplicates_runs msgs :
  ∃ runs, mjoin runs = msgs ∧ Forall2 run_of runs (fst (remove_consecutive_duplicates msgs)).
Proof.
  destruct msgs as [|prev msgs]; [by exists []|]. rewrite remove_consecutive_duplicates_eq.
  destruct (dedup_runs prev msgs) as (run & runs & Hj & Hf). eauto.
Qed.

(** C14: the transcript that comes out of a repair, when only messages of the
    assistant call tools: every tool result follows the call it answers, and no
    two user or two assistant messages are adjacent. Nothing else is lost: every
    message stays that says something, calls a tool, or answers an earlier call;
    adjacent ones of the user or of the assistant become one that has all their
    texts, on lines of their own, and all their calls; of equal messages in a row
    one remains; and the text of each is what it was, but for the marks of a cut
    character at its end, which go, and the mark of a truncation, which is closed.
    Every message is counted once, as kept, removed or merged. *)
Theorem repair_well_formed msgs :
  calls_by_assistant msgs →
  let '(out, stats) := repair_messages msgs in
  orphan_free [] out ∧ alternates out ∧
  length msgs =
    (length out + orphan_tool_results_removed stats + empty_messages_removed stats
     + role_alternation_fixes stats + duplicate_messages_removed stats)%nat ∧
  (truncation_repairs stats ≤ length out)%nat ∧
  ∃ kept groups merged runs distinct,
    sublist kept msgs ∧
    (∀ pre m post, msgs = pre ++ m :: post →
       (str_is_empty (trim (content m)) = false ∨ call_ids m ≠ [] ∨ role m = Tool) →
       (role m = Tool → ∃ i, tool_call_id m = Some i ∧ i ∈ mjoin (map call_ids pre)) → m ∈ kept) ∧
    mjoin groups = kept ∧ Forall2 merged_of groups merged ∧
    mjoin runs = merged ∧ Forall2 run_of runs distinct ∧
    Forall2 (λ m o, o = Message.with_content m (content o) ∧ untruncated (content m) (content o))
      distinct out.
Proof.
  intros Hwf. unfold repair_messages, remove_orphan_tool_results, remove_empty_messages,
    repair_truncation_artifacts.
  pose proof (remove_orphans_spec [] msgs Hwf) as H1.
  pose proof (remove_orphans_keep [] msgs) as Hkeep.
  destruct (remove_orphans_from [] msgs) as [m1 n1]. cbn [fst] in Hkeep.
  destruct H1 as (Hfree1 & Hsub1 & Hlen1 & _).
  pose proof (filter_lengths kept_by_empty m1) as Hlen2.
  pose proof (filter_kept_orphan_free [] m1 Hfree1) as Hfree2.
  assert (calls_by_assistant (List.filter kept_by_empty m1)) as Hwf2.
  { eapply calls_by_assistant_sublist; [apply filter_sublist|].
    by eapply calls_by_assistant_sublist. }
  set (m2 := List.filter kept_by_empty m1) in *.
  pose proof (fix_role_alternation_spec m2) as H3.
  destruct (fix_role_alternation_groups m2 Hwf2) as (groups & Hjoin & Hgroups).
  destruct (fix_role_alternation m2) as [m3 n3].
  destruct H3 as (Halt3 & Hlen3 & _ & Hof3).
  pose proof (remove_consecutive_duplicates_spec m3) as H4.
  destruct (remove_duplicates_runs m3) as (runs & Hruns & Hfirst).
  destruct (remove_consecutive_duplicates m3) as [m4 n4].
  destruct H4 as (_ & Hlen4 & _ & Halt4 & Hof4).
  cbn [orphan_tool_results_removed empty_messages_removed role_alternation_fixes
       duplicate_messages_removed truncation_repairs]. split_and!.
  - by apply map_truncation_orphan_free, Hof4, Hof3.
  - by apply map_truncation_alternates, Halt4.
  - rewrite length_map. lia.
  - rewrite length_map. apply List.filter_length_le.
  - exists m2, groups, m3, runs, m4. split_and!; try done.
    + trans m1; [apply filter_sublist|done].
    + intros pre m post Hmsgs Hm Ht. apply list_elem_of_In, filter_In. split; [|by apply kept_spec].
      apply list_elem_of_In. by eapply Hkeep.
    + apply Forall2_fmap_r, Forall_Forall2_diag, Forall_forall. intros m _. apply repair_truncation_ok.
Qed.

(** A transcript with one defect of each kind. *)
Definition broken_transcript : list Message :=
  [ Message.user "hello"; Message.user "are you there";
    Message.tool_result "call_9" "lost";
    Message.assistant_with_tools "" [mkToolCall "call_1" "read" "{}"];
    Message.tool_result "call_1" ("ok" +:+ replacement_char);
    Message.assistant " ";
    Message.system "note"; Message.system "note" ].

Lemma repair_well_formed_witness :
  let '(out, stats) := repair_messages broken_transcript in
  orphan_free [] out ∧ alternates out ∧
  map content out = ["hello" +:+ newline +:+ "are you there"; ""; "ok"; "note"] ∧
  stats = mkRepairStats 1 1 1 1 1.
Proof.
  assert (calls_by_assistant broken_transcript) as Hwf
    by (repeat constructor; simpl; intros Hn; (reflexivity || destruct (Hn eq_refl))).
  pose proof (repair_well_formed broken_transcript Hwf) as Hrep.
  destruct (repair_messages broken_transcript) as [out stats] eqn:Heq.
  destruct Hrep as (Hof & Halt & _).
  vm_compute in Heq. injection Heq as <- <-. split_and!; [exact Hof|exact Halt|..]; reflexivity.
Defined.

(** a repair leaves a healthy transcript alone: when no tool result is an
    orphan, no message is empty, dialog roles alternate, no message repeats the
    one before it and none ends in a truncation artifact, the messages come out
    unchanged and every counter is zero. *)
Theorem repair_identity msgs :
  calls_by_assistant msgs → orphan_free [] msgs →
  Forall (λ m, kept_by_empty m = true) msgs → alternates msgs → no_repeats msgs →
  no_artifacts msgs →
  repair_messages msgs = (msgs, mkRepairStats 0 0 0 0 0) ∧
  total_repairs (snd (repair_messages msgs)) = 0%nat.
Proof.
  intros Hwf Hof Hkept Halt Hrep Hart.
  assert (repair_messages msgs = (msgs, mkRepairStats 0 0 0 0 0)) as Heq; [|by rewrite Heq].
  unfold repair_messages, remove_orphan_tool_results, remove_empty_messages,
    repair_truncation_artifacts.
  pose proof (remove_orphans_spec [] msgs Hwf) as H1.
  destruct (remove_orphans_from [] msgs) as [m1 n1].
  destruct H1 as (_ & _ & _ & Hid). destruct (Hid Hof) as [-> ->].
  destruct (filter_all _ _ Hkept) as [-> ->].
  pose proof (fix_role_alternation_spec msgs) as H3.
  destruct (fix_role_alternation msgs) as [m3 n3].
  destruct H3 as (_ & _ & Hid3 & _). destruct (Hid3 Halt) as [-> ->].
  pose proof (remove_consecutive_duplicates_spec msgs) as H4.
  destruct (remove_consecutive_duplicates msgs) as [m4 n4].
  destruct H4 as (_ & _ & Hid4 & _). destruct (Hid4 Hrep) as [-> ->].
  destruct (map_truncation_id msgs Hart) as [-> ->]. done.
Qed.

Lemma repair_identity_witness :
  let msgs := [ Message.system "rules"; Message.user "hello"; Message.assistant "hi" ] in
  repair_messages msgs = (msgs, mkRepairStats 0 0 0 0 0).
Proof.
  cbn zeta. apply repair_identity.
  - repeat constructor; simpl; intros Hn; destruct (Hn eq_refl).
  - simpl. split_and!; try exact I; intros; discriminate.
  - repeat constructor.
  - repeat first [apply Sorted_nil | apply Sorted_cons | apply HdRel_nil | apply HdRel_cons];
      discriminate.
  - repeat first [apply Sorted_nil | apply Sorted_cons | apply HdRel_nil | apply HdRel_cons];
      reflexivity.
  - repeat constructor.
Defined.
