(* ===== verification/Context.v ===== *)
(** Token estimation and the pre-flight guard: src/src/agent/context_monitor.rs.

    [f64] is the primitive binary64 of the kernel; a conversion [as usize]
    truncates towards zero and saturates. *)

From Stdlib Require Import Floats Uint63.
From S2P Require Import Prelude Session.

(** The literals are rounded to the nearest binary64, as the compiler does. *)
#[local] Set Warnings "-inexact-float".

(** ** Floating point *)

Module F64.
Definition of_usize (n : Z) : float := PrimFloat.of_uint63 (Uint63.of_Z n).

(** The integer part of a finite non-negative float, saturating. *)
Definition to_usize (x : float) : Z :=
  match Prim2SF x with
  | S754_finite false m e =>
    Z.min u64_max (if 0 <=? e then Z.pos m * 2 ^ e else Z.pos m `div` 2 ^ (- e))
  | S754_infinity false => u64_max
  | _ => 0
  end.

Definition mul (a b : float) : float := PrimFloat.mul a b.
Definition div (a b : float) : float := PrimFloat.div a b.
Definition add (a b : float) : float := PrimFloat.add a b.
Definition le (a b : float) : bool := PrimFloat.leb a b.
Definition lt (a b : float) : bool := PrimFloat.ltb a b.
(** [f64::max] on numbers. *)
Definition max (a b : float) : float := if PrimFloat.ltb a b then b else a.
Definition sum (l : list float) : float := foldl add 0%float l.
End F64.

(** ** Configuration *)

Definition CHARS_PER_TOKEN : float := 4%float.
Definition TOOL_RESULT_CHARS_PER_TOKEN : float := 2%float.
Definition IMAGE_TOKEN_ESTIMATE : Z := 2000.
Definition MESSAGE_FRAMING_TOKENS : Z := 4.

Inductive CompactionStrategy : Type :=
| SNone
| Summarize (keep_recent : nat)
| Truncate (keep_recent : nat).

Inductive CompactionUrgency : Type := Normal | Emergency | Critical.

Inductive PreflightAction : Type := POk | Trimmed | NeedsCompaction.

#[export] Instance PreflightAction_eq_dec : EqDecision PreflightAction.
Proof. solve_decision. Defined.

Record ContextMonitor : Type := mkContextMonitor {
  context_limit : Z;
  threshold : float;
  emergency_threshold : float;
  critical_threshold : float;
  input_headroom_ratio : float;
  single_tool_result_share : float;
  safety_margin : float;
}.

Record ToolDefinition : Type := mkToolDefinition {
  td_name : string;
  td_description : string;
  td_parameters : string;
}.

Definition len (s : string) : float := F64.of_usize (Z.of_nat (String.length s)).

(** ** Cutting text *)

Definition safe_truncate (s : string) (max_bytes : nat) : string :=
  if Nat.leb (String.length s) max_bytes then s
  else str_take (floor_boundary s max_bytes) s.

(** The loop that moves a start forward to a boundary. *)
Fixpoint ceil_boundary (s : string) (start fuel : nat) : nat :=
  match fuel with
  | O => start
  | S fuel =>
    if Nat.ltb start (String.length s) && negb (is_char_boundary s start)
    then ceil_boundary s (S start) fuel else start
  end.

Definition safe_truncate_tail (s : string) (max_bytes : nat) : string :=
  if Nat.leb (String.length s) max_bytes then s
  else str_drop (ceil_boundary s (String.length s - max_bytes) max_bytes) s.

Module ContextMonitor.

Definition new_with_thresholds (limit : Z) (threshold emergency critical : float)
    : ContextMonitor :=
  mkContextMonitor limit threshold emergency critical 0.75%float 0.50%float 1.2%float.

Definition new (limit : Z) (threshold : float) : ContextMonitor :=
  new_with_thresholds limit threshold 0.90%float 0.95%float.

Definition default : ContextMonitor :=
  mkContextMonitor 180000 0.70%float 0.90%float 0.95%float 0.75%float 0.50%float 1.2%float.

Definition part_tokens (cpt : float) (part : ContentPart) : float :=
  match part with
  | Text text => F64.div (len text) cpt
  | Image _ _ => F64.of_usize IMAGE_TOKEN_ESTIMATE
  end.

Definition estimate_message_tokens (msg : Message) : float :=
  let is_tool_result := bool_decide (role msg = Tool) in
  let cpt := if is_tool_result then TOOL_RESULT_CHARS_PER_TOKEN else CHARS_PER_TOKEN in
  let content_tokens := F64.div (len (content msg)) cpt in
  let parts_tokens := F64.sum (map (part_tokens cpt) (content_parts msg)) in
  let body_tokens := F64.max content_tokens parts_tokens in
  let tool_call_tokens :=
    F64.sum (map (λ tc, F64.add (F64.div (len (name tc)) CHARS_PER_TOKEN)
                          (F64.div (len (arguments tc)) TOOL_RESULT_CHARS_PER_TOKEN))
                 (stdpp.option.default [] (tool_calls msg))) in
  F64.add (F64.add body_tokens tool_call_tokens) (F64.of_usize MESSAGE_FRAMING_TOKENS).

Definition estimate_tokens_with_margin (messages : list Message) (margin : float) : Z :=
  F64.to_usize (F64.mul (F64.sum (map estimate_message_tokens messages)) margin).

Definition estimate_tokens (messages : list Message) : Z :=
  estimate_tokens_with_margin messages 1.2%float.

Definition tool_definition_tokens (td : ToolDefinition) : float :=
  F64.add
    (F64.div (F64.of_usize (Z.of_nat (String.length (td_name td)
                                        + String.length (td_description td)))) CHARS_PER_TOKEN)
    (F64.div (len (td_parameters td)) TOOL_RESULT_CHARS_PER_TOKEN).

(** [td_parameters] is the schema as it prints. *)
Definition estimate_tokens_full (messages : list Message) (tools : list ToolDefinition)
    (margin : float) : Z :=
  F64.to_usize
    (F64.mul (F64.add (F64.sum (map estimate_message_tokens messages))
                (F64.sum (map tool_definition_tokens tools))) margin).

Definition context_budget (self : ContextMonitor) : Z :=
  F64.to_usize (F64.mul (F64.of_usize (context_limit self)) (input_headroom_ratio self)).

Definition needs_compaction (self : ContextMonitor) (messages : list Message) : bool :=
  let estimated := estimate_tokens_with_margin messages (safety_margin self) in
  F64.lt (F64.mul (threshold self) (F64.of_usize (context_limit self))) (F64.of_usize estimated).

Definition ratio (self : ContextMonitor) (messages : list Message) : float :=
  let estimated := estimate_tokens_with_margin messages (safety_margin self) in
  F64.div (F64.of_usize estimated) (F64.of_usize (context_limit self)).

Definition urgency (self : ContextMonitor) (messages : list Message) : option CompactionUrgency :=
  let r := ratio self messages in
  if F64.le r (threshold self) then None
  else if F64.le (critical_threshold self) r then Some Critical
  else if F64.le (emergency_threshold self) r then Some Emergency
  else Some Normal.

Definition suggest_strategy (self : ContextMonitor) (messages : list Message)
    : CompactionStrategy :=
  match urgency self messages with
  | None => SNone
  | Some Critical => Truncate 3
  | Some Emergency => Truncate 5
  | Some Normal =>
    if F64.lt 0.85%float (ratio self messages) then Summarize 5 else Summarize 8
  end.

(** *** The pre-flight guard *)

Definition with_text (msg : Message) (text : string) : Message :=
  mkMessage (role msg) text
    (match content_parts msg with [] => [] | _ => [Text text] end)
    (tool_calls msg) (tool_call_id msg).

Definition truncated_result (s : string) (cap : nat) : string :=
  let head_budget := (cap * 7 / 10)%nat in
  let tail_budget := (cap * 3 / 10)%nat in
  let head := safe_truncate s head_budget in
  let tail := safe_truncate_tail s tail_budget in
  let truncated := (String.length s - String.length head - String.length tail)%nat in
  head +:+ newline +:+ "...[truncated " +:+ fmt_nat truncated +:+ " bytes]..."
    +:+ newline +:+ tail.

(** Pass 1 on one message, and whether it was cut. *)
Definition cap_result (cap : nat) (msg : Message) : Message * bool :=
  if bool_decide (role msg = Tool) && Nat.ltb cap (String.length (content msg))
  then (with_text msg (truncated_result (content msg) cap), true)
  else (msg, false).

(** The [continue]-less loop of pass 2 over the indices collected before it. *)
Fixpoint compact_results (margin : float) (budget : Z) (indices : list nat)
    (messages : list Message) : list Message * bool :=
  match indices with
  | [] => (messages, false)
  | idx :: indices' =>
    let messages := alter (λ m, with_text m "[compacted]") idx messages in
    let new_total := estimate_tokens_with_margin messages margin in
    if new_total <=? budget then (messages, true)
    else (fst (compact_results margin budget indices' messages), true)
  end.

Definition compactable (m : Message) : bool :=
  bool_decide (role m = Tool) && negb (String.eqb (content m) "[compacted]").

Definition compactable_indices (messages : list Message) : list nat :=
  List.filter (λ i, match messages !! i with Some m => compactable m | None => false end)
    (seq 0 (length messages)).

Definition preflight_check (self : ContextMonitor) (messages : list Message)
    (tools : list ToolDefinition) : PreflightAction * list Message :=
  let budget := context_budget self in
  let cap_tokens :=
    F64.to_usize (F64.mul (F64.of_usize (context_limit self)) (single_tool_result_share self)) in
  let cap_chars :=
    Z.to_nat (F64.to_usize (F64.mul (F64.of_usize cap_tokens) TOOL_RESULT_CHARS_PER_TOKEN)) in
  let capped := map (cap_result cap_chars) messages in
  let trimmed1 := any snd capped in
  let messages := map fst capped in
  let total := estimate_tokens_with_margin messages (safety_margin self) in
  let '(messages, trimmed2) :=
    if budget <? total
    then compact_results (safety_margin self) budget (compactable_indices messages) messages
    else (messages, false) in
  let final_total := estimate_tokens_full messages tools (safety_margin self) in
  let hard_limit :=
    F64.to_usize (F64.mul (F64.of_usize (context_limit self)) (emergency_threshold self)) in
  let compaction_limit := Z.min budget hard_limit in
  if compaction_limit <? final_total then (NeedsCompaction, messages)
  else if trimmed1 || trimmed2 then (Trimmed, messages) else (POk, messages).
End ContextMonitor.

(** ** What the guard may change *)

(** A message is left alone, or is a tool result with another text. *)
Definition trimmed_from (a b : Message) : Prop :=
  a = b ∨ (role a = Tool ∧ ∃ text, b = ContextMonitor.with_text a text).

Lemma trimmed_from_refl a : trimmed_from a a.
Proof. by left. Qed.

Lemma with_text_twice a s t :
  ContextMonitor.with_text (ContextMonitor.with_text a s) t = ContextMonitor.with_text a t.
Proof. unfold ContextMonitor.with_text. simpl. by destruct (content_parts a). Qed.

Lemma trimmed_from_trans a b c : trimmed_from a b → trimmed_from b c → trimmed_from a c.
Proof.
  intros [->|[Ha [s ->]]]; [done|]. intros [<-|[_ [t ->]]]; right; (split; [done|]).
  - by exists s.
  - exists t. apply with_text_twice.
Qed.

Lemma trimmed_from_frame a b :
  trimmed_from a b →
  role b = role a ∧ tool_calls b = tool_calls a ∧ tool_call_id b = tool_call_id a ∧
  (role a ≠ Tool → b = a).
Proof. intros [->|[Ht [s ->]]]; [done|]. split_and!; done. Qed.

(** *** Cutting text *)

Lemma safe_truncate_bound s n : (String.length (safe_truncate s n) ≤ n)%nat.
Proof. apply utf8_truncate_length. Qed.

Lemma ceil_boundary_ge s start fuel : (start ≤ ceil_boundary s start fuel)%nat.
Proof.
  revert start. induction fuel as [|fuel IH]; intros start; simpl; [done|].
  case_match; [|done]. specialize (IH (S start)). lia.
Qed.

Lemma boundary_at_end s : is_char_boundary s (String.length s) = true.
Proof.
  unfold is_char_boundary. apply orb_true_iff. right.
  induction s as [|c s IH]; simpl; done.
Qed.

(** Enough fuel to reach the end of the text: the loop ends at a boundary. *)
Lemma ceil_boundary_ok s start fuel :
  (String.length s ≤ start + fuel)%nat → (start ≤ String.length s)%nat →
  is_char_boundary s (ceil_boundary s start fuel) = true ∧
  (ceil_boundary s start fuel ≤ String.length s)%nat.
Proof.
  revert start. induction fuel as [|fuel IH]; intros start Hf Hs; cbn [ceil_boundary].
  - replace start with (String.length s) by lia. split; [apply boundary_at_end|done].
  - destruct (Nat.ltb_spec start (String.length s)) as [Hlt|Hge]; cbn [andb].
    + destruct (is_char_boundary s start) eqn:Hb; cbn [negb]; [by split; [|lia]|].
      apply IH; lia.
    + replace start with (String.length s) by lia. split; [apply boundary_at_end|done].
Qed.

Lemma safe_truncate_tail_bound s n : (String.length (safe_truncate_tail s n) ≤ n)%nat.
Proof.
  unfold safe_truncate_tail. destruct (Nat.leb_spec (String.length s) n); [done|].
  rewrite str_drop_length. pose proof (ceil_boundary_ge s (String.length s - n) n). lia.
Qed.

(** Both cuts fall on character boundaries. *)
Lemma safe_cuts_at_boundaries s n :
  (n < String.length s)%nat →
  ∃ i j, is_char_boundary s i = true ∧ is_char_boundary s j = true ∧
    safe_truncate s n = str_take i s ∧ safe_truncate_tail s n = str_drop j s.
Proof.
  intros Hn. exists (floor_boundary s n), (ceil_boundary s (String.length s - n) n).
  unfold safe_truncate, safe_truncate_tail.
  rewrite !(proj2 (Nat.leb_gt _ _)) by done.
  split_and!; [apply floor_boundary_ok|apply ceil_boundary_ok; lia|done|done].
Qed.

(** *** The passes *)

Section passes.
Import ContextMonitor.

Lemma cap_result_trims cap m : trimmed_from m (fst (cap_result cap m)).
Proof.
  unfold cap_result. destruct (bool_decide (role m = Tool)) eqn:Ht; simpl; [|by left].
  case_match; [|by left]. right. split; [by apply bool_decide_eq_true in Ht|].
  simpl. eauto.
Qed.

Lemma cap_result_unchanged cap m : snd (cap_result cap m) = false → fst (cap_result cap m) = m.
Proof. unfold cap_result. by case_match. Qed.

Lemma map_cap_result cap msgs :
  Forall2 trimmed_from msgs (map fst (map (cap_result cap) msgs)) ∧
  (any snd (map (cap_result cap) msgs) = false → map fst (map (cap_result cap) msgs) = msgs).
Proof.
  induction msgs as [|m msgs [IH1 IH2]]; simpl; [split; [constructor|done]|]. split.
  - constructor; [apply cap_result_trims|done].
  - intros [Hm Hms]%orb_false_iff. rewrite (cap_result_unchanged cap m Hm). by rewrite IH2.
Qed.

Lemma alter_trims idx msgs text :
  (∀ m, msgs !! idx = Some m → role m = Tool) →
  Forall2 trimmed_from msgs (alter (λ m, with_text m text) idx msgs).
Proof.
  intros Hidx. apply Forall2_same_length_lookup. split; [by rewrite length_alter|].
  intros i x y Hx Hy. destruct (decide (i = idx)) as [->|Hne].
  - rewrite list_lookup_alter_eq, Hx in Hy. simplify_eq/=. right.
    split; [by apply Hidx|]. eauto.
  - rewrite list_lookup_alter_ne, Hx in Hy by done. simplify_eq. by left.
Qed.

Lemma Forall2_trimmed_refl l : Forall2 trimmed_from l l.
Proof. induction l; constructor; [by left|done]. Qed.

Lemma Forall2_trimmed_trans a b c :
  Forall2 trimmed_from a b → Forall2 trimmed_from b c → Forall2 trimmed_from a c.
Proof.
  intros Hab. revert c. induction Hab as [|x y a b Hxy Hab IH]; intros c Hc.
  - by apply Forall2_nil_inv_l in Hc as ->.
  - apply Forall2_cons_inv_l in Hc as (z & c' & Hyz & Hc & ->).
    constructor; [by eapply trimmed_from_trans|by apply IH].
Qed.

Lemma Forall2_trimmed_lookup a b i m :
  Forall2 trimmed_from a b → b !! i = Some m →
  ∃ m0, a !! i = Some m0 ∧ trimmed_from m0 m.
Proof. intros Hab Hi. by eapply Forall2_lookup_r in Hab. Qed.

Lemma compact_results_trims margin budget indices msgs :
  (∀ i m, i ∈ indices → msgs !! i = Some m → role m = Tool) →
  Forall2 trimmed_from msgs (fst (compact_results margin budget indices msgs)) ∧
  (snd (compact_results margin budget indices msgs) = false →
     fst (compact_results margin budget indices msgs) = msgs).
Proof.
  revert msgs. induction indices as [|i indices IH]; intros msgs Hidx; cbn [compact_results].
  { split; [apply Forall2_trimmed_refl|done]. }
  assert (Forall2 trimmed_from msgs (alter (λ m, with_text m "[compacted]") i msgs)) as Halter
    by (apply alter_trims; intros m Hm; eapply Hidx; [left|done]).
  case_match; cbn [fst snd]; (split; [|discriminate]); [exact Halter|].
  eapply Forall2_trimmed_trans; [exact Halter|]. apply IH.
  intros j m Hj Hm. eapply Forall2_trimmed_lookup in Hm as (m0 & Hm0 & Htr); [|exact Halter].
  destruct (trimmed_from_frame _ _ Htr) as (-> & _).
  eapply Hidx; [by right|done].
Qed.

Lemma compactable_indices_tools msgs i m :
  i ∈ compactable_indices msgs → msgs !! i = Some m → role m = Tool.
Proof.
  unfold compactable_indices, compactable. intros Hi Hm.
  apply list_elem_of_In, List.filter_In in Hi as [_ Hi]. rewrite Hm in Hi.
  apply andb_true_iff in Hi as [Hi _]. by apply bool_decide_eq_true in Hi.
Qed.

Lemma preflight_trims self msgs tools :
  let '(action, out) := preflight_check self msgs tools in
  Forall2 trimmed_from msgs out ∧ (action = POk → out = msgs) ∧
  (action = NeedsCompaction ↔
   Z.min (context_budget self)
     (F64.to_usize (F64.mul (F64.of_usize (context_limit self)) (emergency_threshold self)))
   < estimate_tokens_full out tools (safety_margin self)).
Proof.
  unfold preflight_check.
  set (cap := Z.to_nat _). pose proof (map_cap_result cap msgs) as [Hcap Hcap_id].
  set (capped := map (cap_result cap) msgs) in *.
  set (msgs1 := map fst capped) in *.
  assert (∃ msgs2 t2,
    (if context_budget self <? estimate_tokens_with_margin msgs1 (safety_margin self)
     then compact_results (safety_margin self) (context_budget self)
            (compactable_indices msgs1) msgs1
     else (msgs1, false)) = (msgs2, t2) ∧
    Forall2 trimmed_from msgs1 msgs2 ∧ (t2 = false → msgs2 = msgs1))
    as (msgs2 & t2 & -> & Htr & Hid).
  { case_match.
    - pose proof (compact_results_trims (safety_margin self) (context_budget self)
        (compactable_indices msgs1) msgs1) as Hc.
      destruct (compact_results _ _ _ _) as [m2 t2]. exists m2, t2. split; [done|].
      apply Hc. intros i m. apply compactable_indices_tools.
    - exists msgs1, false. split_and!; [done|apply Forall2_trimmed_refl|done]. }
  assert (Forall2 trimmed_from msgs msgs2) as Hall by by eapply Forall2_trimmed_trans.
  destruct (Z.ltb_spec (Z.min (context_budget self) (F64.to_usize (F64.mul
    (F64.of_usize (context_limit self)) (emergency_threshold self))))
    (estimate_tokens_full msgs2 tools (safety_margin self))).
  - split_and!; [done|discriminate|done].
  - destruct (any snd capped) eqn:Ht1; [|destruct t2]; simpl.
    + split_and!; [done|discriminate|]. split; [discriminate|lia].
    + split_and!; [done|discriminate|]. split; [discriminate|lia].
    + split_and!; [done| |].
      * intros _. rewrite Hid by done. by apply Hcap_id.
      * split; [discriminate|lia].
Qed.
End passes.

(** Trimming texts keeps a transcript well formed. *)
Lemma trimmed_orphan_free seen a b :
  Forall2 trimmed_from a b → orphan_free seen a → orphan_free seen b.
Proof.
  intros Hab. revert seen. induction Hab as [|x y a b Hxy Hab IH]; intros seen; simpl; [done|].
  destruct (trimmed_from_frame _ _ Hxy) as (Hr & Hc & Hi & _).
  unfold call_ids. rewrite Hr, Hc, Hi. fold (call_ids x). intros [? ?]. split; auto.
Qed.

(** A text cut to [cap] bytes keeps a head and a tail of it, whole characters,
    of no more than [cap] bytes together. *)
Definition cut_at_boundaries (s : string) (cap : nat) (out : string) : Prop :=
  ∃ i j mid, out = str_take i s +:+ mid +:+ str_drop j s ∧
    is_char_boundary s i = true ∧ is_char_boundary s j = true ∧
    (String.length (str_take i s) + String.length (str_drop j s) ≤ cap)%nat.

Lemma truncated_result_cut s cap :
  (cap < String.length s)%nat →
  cut_at_boundaries s cap (ContextMonitor.truncated_result s cap).
Proof.
  intros Hcap. unfold ContextMonitor.truncated_result.
  set (h := (cap * 7 / 10)%nat). set (t := (cap * 3 / 10)%nat).
  assert (h + t ≤ cap)%nat as Hht.
  { subst h t. pose proof (Nat.Div0.mul_div_le (cap * 7) 10).
    pose proof (Nat.Div0.mul_div_le (cap * 3) 10). lia. }
  destruct (safe_cuts_at_boundaries s h) as (i & _ & Hi & _ & Hhead & _); [lia|].
  destruct (safe_cuts_at_boundaries s t) as (_ & j & _ & Hj & _ & Htail); [lia|].
  pose proof (safe_truncate_bound s h) as Hh. pose proof (safe_truncate_tail_bound s t) as Ht.
  set (n := (String.length s - _ - _)%nat).
  exists i, j, (newline +:+ "...[truncated " +:+ fmt_nat n +:+ " bytes]..." +:+ newline).
  rewrite Hhead, Htail in *. split_and!; [by rewrite !str_app_assoc|done|done|lia].
Qed.

(** the pre-flight guard rewrites nothing but the texts of tool results:
    every message keeps its place, role, calls and call id, messages of other
    roles are untouched, and a transcript without orphans stays so. It answers
    that all is well only when it changed nothing, asks for compaction exactly
    when the full estimate is above the smaller of budget and hard limit, and
    an over-long tool result keeps whole characters of its head and tail within
    the cap. *)
Theorem preflight_trims_tool_results self msgs tools :
  let '(action, out) := ContextMonitor.preflight_check self msgs tools in
  Forall2 trimmed_from msgs out ∧ (action = POk → out = msgs) ∧
  (action = NeedsCompaction ↔
   Z.min (ContextMonitor.context_budget self)
     (F64.to_usize (F64.mul (F64.of_usize (context_limit self)) (emergency_threshold self)))
   < ContextMonitor.estimate_tokens_full out tools (safety_margin self)) ∧
  (orphan_free [] msgs → orphan_free [] out) ∧
  (∀ s cap, (cap < String.length s)%nat →
     cut_at_boundaries s cap (ContextMonitor.truncated_result s cap)).
Proof.
  pose proof (preflight_trims self msgs tools) as Hpre.
  destruct (ContextMonitor.preflight_check self msgs tools) as [action out].
  destruct Hpre as (Htr & Hok & Hneed). split_and!; [done..| |apply truncated_result_cut].
  by apply trimmed_orphan_free.
Qed.
