(* ===== verification/Compaction.v ===== *)
(** Compaction of a conversation: src/src/agent/compaction.rs and the retry
    policy of src/src/agent/loop.rs. *)

From Stdlib Require Import Floats.
From S2P Require Import Prelude Errors Session Context.

#[local] Set Warnings "-inexact-float".

(** ** Truncation and summaries *)

Definition has_system_prefix (messages : list Message) : bool :=
  match messages with
  | first :: _ => bool_decide (role first = System)
  | [] => false
  end.

Definition truncate_messages (messages : list Message) (keep_recent : nat) : list Message :=
  if Nat.leb (length messages) keep_recent then messages
  else if Nat.eqb keep_recent 0 then
    match messages with
    | first :: _ => if decide (role first = System) then [first] else []
    | [] => []
    end
  else if has_system_prefix messages then
    let total := length messages in
    let skip := (total - 1 - keep_recent)%nat in
    match messages with
    | system :: rest => system :: drop skip rest
    | [] => []
    end
  else
    let skip := (length messages - keep_recent)%nat in
    drop skip messages.

Definition strip_images (msg : Message) : Message :=
  if Message.has_images msg
  then mkMessage (role msg) (content msg)
         (List.filter (λ p, negb (Message.is_image p)) (content_parts msg))
         (tool_calls msg) (tool_call_id msg)
  else msg.

Definition strip_images_from_messages (messages : list Message) : list Message :=
  map strip_images messages.

Definition summary_message (summary_text : string) : Message :=
  Message.system ("[Conversation Summary]" +:+ newline +:+ summary_text).

Definition summarize_messages (messages : list Message) (keep_recent : nat)
    (summary_text : string) : list Message :=
  if Nat.eqb (length messages) 0 then [summary_message summary_text]
  else if Nat.leb (length messages) keep_recent then messages
  else
    let summary_msg := summary_message summary_text in
    let result :=
      if has_system_prefix messages then
        let skip := (length messages - 1 - keep_recent)%nat in
        match messages with
        | system :: rest => system :: summary_msg :: drop skip rest
        | [] => []
        end
      else
        let skip := (length messages - keep_recent)%nat in
        summary_msg :: drop skip messages in
    strip_images_from_messages result.

(** ** Shrinking tool results *)

(** [String::truncate] panics inside a character; the loop after it, which pops
    characters while the end is not a boundary, never runs, since the end of a
    text is one. *)
Definition String_truncate (s : string) (n : nat) : outcome string :=
  if Nat.ltb n (String.length s)
  then if is_char_boundary s n then Ret (str_take n s) else Panic
  else Ret s.

Definition shrunk_text (s : string) (budget : nat) : outcome string :=
  cut ← String_truncate s budget;
  mret (cut +:+ newline +:+ "...[shrunk from " +:+ fmt_nat (String.length s) +:+ " to "
          +:+ fmt_nat (String.length cut) +:+ " bytes]").

(** One tool result over its budget; [content_parts] follow the content. *)
Definition shrink_message (budget : nat) (msg : Message) : outcome (Message * bool) :=
  if Nat.ltb budget (String.length (content msg))
  then text ← shrunk_text (content msg) budget; mret (ContextMonitor.with_text msg text, true)
  else mret (msg, false).

Fixpoint shrink_tool_results (messages : list Message) (max_bytes_per_result : nat)
    : outcome (list Message * nat) :=
  match messages with
  | [] => mret ([], 0%nat)
  | msg :: messages' =>
    r ← (if Message.is_tool_result msg then shrink_message max_bytes_per_result msg
         else mret (msg, false));
    rest ← shrink_tool_results messages' max_bytes_per_result;
    mret (fst r :: fst rest, if snd r : bool then S (snd rest) else snd rest)
  end.

(** The loop over the tool results, the [pos]-th of which is at hand. *)
Fixpoint shrink_progressive_from (messages : list Message) (total pos : nat)
    (target_max_bytes recent_count : nat) : outcome (list Message) :=
  match messages with
  | [] => mret []
  | msg :: messages' =>
    if Message.is_tool_result msg then
      let is_recent := Nat.leb (total - recent_count) pos in
      let budget := if is_recent then target_max_bytes else (target_max_bytes / 4)%nat in
      r ← shrink_message budget msg;
      rest ← shrink_progressive_from messages' total (S pos) target_max_bytes recent_count;
      mret (fst r :: rest)
    else
      rest ← shrink_progressive_from messages' total pos target_max_bytes recent_count;
      mret (msg :: rest)
  end.

Definition shrink_tool_results_progressive (messages : list Message)
    (target_max_bytes recent_count : nat) : outcome (list Message) :=
  let total_tool_results := length (List.filter Message.is_tool_result messages) in
  if Nat.eqb total_tool_results 0 then mret messages
  else shrink_progressive_from messages total_tool_results 0 target_max_bytes recent_count.

(** ** Recovery from an overflow *)

(** [estimated as f64 <= target]. *)
Definition fits (context_limit : Z) (safety_margin : float) (messages : list Message) : bool :=
  let target := F64.mul (F64.of_usize context_limit) 0.95%float in
  F64.le (F64.of_usize (ContextMonitor.estimate_tokens_with_margin messages safety_margin)) target.

(** The last two tiers, which emergency and normal recovery share. *)
Definition shrink_or_cut (context_limit : Z) (safety_margin : float) (messages : list Message)
    (budget recent : nat) : outcome (list Message * nat) :=
  recovered ← shrink_tool_results_progressive messages budget recent;
  if fits context_limit safety_margin recovered then mret (recovered, 2%nat)
  else mret (truncate_messages recovered 3, 3%nat).

Definition try_recover_context_with_urgency (messages : list Message) (context_limit : Z)
    (urgency : CompactionUrgency) (keep_recent_tier1 tool_result_budget : nat)
    (safety_margin : float) : outcome (list Message * nat) :=
  if fits context_limit safety_margin messages then mret (messages, 0%nat)
  else
    match urgency with
    | Critical => mret (truncate_messages messages 6, 3%nat)
    | Emergency =>
      let recovered := truncate_messages messages (keep_recent_tier1 `min` 5)%nat in
      if fits context_limit safety_margin recovered then mret (recovered, 1%nat)
      else
        let emergency_budget := ((tool_result_budget / 2) `max` 1 `min` tool_result_budget)%nat in
        shrink_or_cut context_limit safety_margin recovered emergency_budget 2
    | Normal =>
      let recovered := truncate_messages messages keep_recent_tier1 in
      if fits context_limit safety_margin recovered then mret (recovered, 1%nat)
      else shrink_or_cut context_limit safety_margin recovered tool_result_budget 3
    end.

Definition try_recover_context (messages : list Message) (context_limit : Z)
    (keep_recent_tier1 tool_result_budget : nat) (safety_margin : float)
    : outcome (list Message * nat) :=
  try_recover_context_with_urgency messages context_limit Normal keep_recent_tier1
    tool_result_budget safety_margin.

Definition build_summary_prompt (messages : list Message) : string :=
  let transcript := str_concat (map (λ msg,
    Role_display (role msg) +:+ ": " +:+ content msg +:+ newline) messages) in
  "Summarize the following conversation focusing on key decisions, "
    +:+ "information exchanged, and actions taken. Be concise." +:+ newline +:+ newline
    +:+ transcript.

(** The retry policy of the agent loop. *)
Definition is_context_overflow (err : ZeptoError) : bool :=
  match err with ProviderTyped (ContextOverflow _) => true | _ => false end.

Definition overflow_retry_urgency (attempt : Z) : CompactionUrgency :=
  if attempt =? 0 then Normal else if attempt =? 1 then Emergency else Critical.

(** ** Truncation *)

Definition system_prefix (messages : list Message) : list Message :=
  if has_system_prefix messages then take 1 messages else [].
Definition after_prefix (messages : list Message) : list Message :=
  if has_system_prefix messages then drop 1 messages else messages.

Lemma prefix_split messages : messages = (system_prefix messages ++ after_prefix messages)%list.
Proof.
  unfold system_prefix, after_prefix. case_match; [|done]. symmetry. apply take_drop.
Qed.

Lemma truncate_messages_eq messages k :
  truncate_messages messages k =
    (system_prefix messages ++
     drop (length (after_prefix messages) - k) (after_prefix messages))%list.
Proof.
  unfold truncate_messages, system_prefix, after_prefix.
  destruct (Nat.leb_spec (length messages) k) as [Hle|Hgt].
  { destruct (has_system_prefix messages).
    - rewrite length_drop. replace (length messages - 1 - k)%nat with 0%nat by lia.
      rewrite drop_0. symmetry. apply take_drop.
    - by replace (length messages - k)%nat with 0%nat by lia. }
  destruct messages as [|m rest]; [simpl in *; lia|].
  destruct (Nat.eqb_spec k 0) as [->|Hk]; unfold has_system_prefix.
  - destruct (decide (role m = System)) as [Hs|Hs].
    + rewrite bool_decide_eq_true_2 by done. simpl.
      rewrite drop_0, Nat.sub_0_r. by rewrite drop_all.
    + rewrite bool_decide_eq_false_2 by done. rewrite Nat.sub_0_r. by rewrite drop_all.
  - destruct (bool_decide (role m = System)); [|done].
    simpl. rewrite Nat.sub_0_r, drop_0. done.
Qed.

Lemma system_prefix_length messages : (length (system_prefix messages) ≤ 1)%nat.
Proof. unfold system_prefix. case_match; [|simpl; lia]. rewrite length_take. lia. Qed.

Lemma has_system_prefix_truncate messages k :
  has_system_prefix messages = true → has_system_prefix (truncate_messages messages k) = true.
Proof.
  intros Hp. rewrite truncate_messages_eq. unfold system_prefix. rewrite Hp.
  by destruct messages.
Qed.

Lemma truncate_sublist messages k : sublist (truncate_messages messages k) messages.
Proof.
  assert (sublist (truncate_messages messages k) (system_prefix messages ++ after_prefix messages))
    as Hsub; [|by rewrite <- prefix_split in Hsub].
  rewrite truncate_messages_eq. apply sublist_app; [done|]. apply sublist_drop.
Qed.

Lemma truncate_length messages k :
  (length (truncate_messages messages k) ≤ k + length (system_prefix messages))%nat.
Proof. rewrite truncate_messages_eq, length_app, length_drop. lia. Qed.

(** truncation keeps the leading system message, if there is one, and the
    last [keep_recent] of the messages after it, in order and unchanged; the
    result has at most [keep_recent] messages besides the system message, and
    truncating it again changes nothing. *)
Theorem truncate_keeps_recent messages keep_recent :
  truncate_messages messages keep_recent =
    (system_prefix messages ++
     drop (length (after_prefix messages) - keep_recent) (after_prefix messages))%list ∧
  (length (truncate_messages messages keep_recent)
     ≤ keep_recent + length (system_prefix messages))%nat ∧
  (length (system_prefix messages) ≤ 1)%nat ∧
  truncate_messages (truncate_messages messages keep_recent) keep_recent
    = truncate_messages messages keep_recent.
Proof.
  split_and!; [apply truncate_messages_eq|apply truncate_length|apply system_prefix_length|].
  destruct (has_system_prefix messages) eqn:Hp.
  - pose proof (has_system_prefix_truncate messages keep_recent Hp) as Hp'.
    rewrite (truncate_messages_eq (truncate_messages messages keep_recent)).
    rewrite (prefix_split (truncate_messages messages keep_recent)) at 4. f_equal.
    pose proof (truncate_length messages keep_recent) as Hlen.
    pose proof (system_prefix_length messages).
    unfold after_prefix. rewrite Hp', length_drop.
    replace (_ - 1 - keep_recent)%nat with 0%nat by lia. done.
  - unfold truncate_messages at 1.
    rewrite (proj2 (Nat.leb_le _ _)); [done|].
    pose proof (truncate_length messages keep_recent) as Hlen.
    unfold system_prefix in Hlen. rewrite Hp in Hlen. simpl in Hlen. lia.
Qed.

(** ** Shrinking *)

(** A tool result that cannot be cut at [budget]: over it, and with a character
    across it. *)
Definition uncuttable (budget : nat) (m : Message) : Prop :=
  (budget < String.length (content m))%nat ∧ is_char_boundary (content m) budget = false.

Definition shrunk (s : string) (budget : nat) : string :=
  str_take budget s +:+ newline +:+ "...[shrunk from " +:+ fmt_nat (String.length s) +:+ " to "
    +:+ fmt_nat budget +:+ " bytes]".

Lemma shrink_message_cases budget m :
  (uncuttable budget m ∧ shrink_message budget m = Panic) ∨
  (¬ uncuttable budget m ∧
   shrink_message budget m =
     Ret (if Nat.ltb budget (String.length (content m))
          then (ContextMonitor.with_text m (shrunk (content m) budget), true) else (m, false))).
Proof.
  unfold shrink_message, uncuttable, shrunk_text, String_truncate, shrunk.
  destruct (Nat.ltb_spec budget (String.length (content m))) as [Hlt|Hge].
  - destruct (is_char_boundary (content m) budget); [right|left]; (split; [|]).
    + intros [_ [=]].
    + simpl. rewrite (str_take_length_le budget) by lia. done.
    + done.
    + done.
  - right. split; [lia|done].
Qed.

Lemma shrink_message_trims budget m m' b :
  Message.is_tool_result m = true → shrink_message budget m = Ret (m', b) → trimmed_from m m'.
Proof.
  intros Ht. destruct (shrink_message_cases budget m) as [[_ ->]|[_ ->]]; [done|].
  case_match; intros [= <- <-]; [right|by left]. split; [|eauto].
  unfold Message.is_tool_result in Ht. apply andb_true_iff in Ht as [Ht _].
  by apply bool_decide_eq_true in Ht.
Qed.

Definition over (max : nat) (m : Message) : bool :=
  Message.is_tool_result m && Nat.ltb max (String.length (content m)).

Definition shrink_one (max : nat) (m : Message) : Message :=
  if over max m then ContextMonitor.with_text m (shrunk (content m) max) else m.

(** shrinking to [max] bytes: when every over-long tool result has a
    character boundary there, each of them keeps its first [max] bytes with a
    note of both lengths, nothing else changes, and the count says how many
    were cut; and when one of them has a character across the limit, the whole
    call panics. *)
Theorem shrink_tool_results_exact messages max :
  (Forall (λ m, Message.is_tool_result m = true → ¬ uncuttable max m) messages →
   shrink_tool_results messages max =
     Ret (map (shrink_one max) messages, length (List.filter (over max) messages))) ∧
  (Exists (λ m, Message.is_tool_result m = true ∧ uncuttable max m) messages →
   shrink_tool_results messages max = Panic).
Proof.
  split.
  - induction 1 as [|m messages Hm Hms IH]; [done|]. cbn [shrink_tool_results map List.filter].
    rewrite IH. assert (shrink_one max m = if over max m
      then ContextMonitor.with_text m (shrunk (content m) max) else m) as -> by done.
    assert (over max m = Message.is_tool_result m && Nat.ltb max (String.length (content m)))
      as -> by done.
    destruct (Message.is_tool_result m); [|done].
    destruct (shrink_message_cases max m) as [[Hu _]|[_ ->]]; [by destruct (Hm eq_refl)|].
    by destruct (Nat.ltb _ _).
  - induction 1 as [m messages [Ht Hu]|m messages Hms IH]; cbn [shrink_tool_results].
    + rewrite Ht. destruct (shrink_message_cases max m) as [[_ ->]|[Hnu _]]; [done|].
      by destruct Hnu.
    + rewrite IH. destruct (if Message.is_tool_result m then _ else _); done.
Qed.

(** A result of 30 two-byte characters and a limit of 25 bytes. *)
Definition accents : string :=
  str_concat (replicate 30 (String (Ascii.ascii_of_nat 195) (String (Ascii.ascii_of_nat 169) ""))).

Lemma shrink_tool_results_exact_witness :
  shrink_tool_results [Message.tool_result "call_1" accents] 25 = Panic.
Proof.
  apply shrink_tool_results_exact. constructor. split; [reflexivity|].
  split; [apply Nat.ltb_lt; vm_compute; reflexivity|vm_compute; reflexivity].
Defined.

(** ** Recovery *)

Lemma shrink_progressive_trims messages total pos target recent :
  match shrink_progressive_from messages total pos target recent with
  | Ret out => Forall2 trimmed_from messages out
  | Panic => ∃ m budget, m ∈ messages ∧ Message.is_tool_result m = true ∧ uncuttable budget m
  end.
Proof.
  revert pos. induction messages as [|m messages IH]; intros pos; [constructor|].
  cbn [shrink_progressive_from]. destruct (Message.is_tool_result m) eqn:Ht.
  - set (budget := if Nat.leb _ _ then _ else _).
    destruct (shrink_message budget m) as [[m' b]|] eqn:Hs; simpl.
    + specialize (IH (S pos)).
      destruct (shrink_progressive_from messages total (S pos) target recent) as [rest|]; simpl.
      * constructor; [by eapply shrink_message_trims|done].
      * destruct IH as (x & n & Hx & ?). exists x, n. split; [by right|done].
    + exists m, budget. destruct (shrink_message_cases budget m) as [[Hu _]|[_ Hr]];
        [|congruence]. split_and!; [by left|done|apply Hu..].
  - specialize (IH pos). simpl.
    destruct (shrink_progressive_from messages total pos target recent) as [rest|]; simpl.
    + constructor; [by left|done].
    + destruct IH as (x & n & Hx & ?). exists x, n. split; [by right|done].
Qed.

Lemma shrink_tool_results_progressive_trims messages target recent :
  match shrink_tool_results_progressive messages target recent with
  | Ret out => Forall2 trimmed_from messages out
  | Panic => ∃ m budget, m ∈ messages ∧ Message.is_tool_result m = true ∧ uncuttable budget m
  end.
Proof.
  unfold shrink_tool_results_progressive.
  destruct (Nat.eqb _ 0); [apply Forall2_trimmed_refl|].
  apply shrink_progressive_trims.
Qed.

Lemma truncate_trimmed a b k :
  Forall2 trimmed_from a b → Forall2 trimmed_from (truncate_messages a k) (truncate_messages b k).
Proof.
  intros Hab. rewrite !truncate_messages_eq.
  assert (has_system_prefix a = has_system_prefix b) as Hp.
  { destruct Hab as [|x y a b Hxy _]; [done|]. simpl.
    by destruct (trimmed_from_frame _ _ Hxy) as (-> & _). }
  unfold system_prefix, after_prefix. rewrite Hp. pose proof (Forall2_length _ _ _ Hab) as Hlen.
  case_match.
  - apply Forall2_app; [by apply Forall2_take|].
    rewrite !length_drop, Hlen. by apply Forall2_drop, Forall2_drop.
  - apply Forall2_app; [constructor|]. rewrite Hlen. by apply Forall2_drop.
Qed.

(** What a recovery gives: some of the messages, in order, among them the
    leading system message, with at most the texts of tool results shrunk. *)
Record recovered_from (messages : list Message) (limit : Z) (margin : float)
    (out : list Message) (tier : nat) : Prop := {
  rec_kept : ∃ recent, sublist (system_prefix messages ++ recent) messages ∧
                       Forall2 trimmed_from (system_prefix messages ++ recent) out;
  rec_tier : (tier ≤ 3)%nat;
  rec_none : tier = 0%nat → out = messages;
  rec_fits : (tier < 3)%nat → fits limit margin out = true;
  rec_hard : tier = 3%nat → (length out ≤ 7)%nat;
}.

Lemma kept_truncate messages k :
  ∃ recent, truncate_messages messages k = (system_prefix messages ++ recent)%list.
Proof. rewrite truncate_messages_eq. by eexists. Qed.

Lemma kept_truncate_twice messages k j :
  ∃ recent, truncate_messages (truncate_messages messages k) j
            = (system_prefix messages ++ recent)%list.
Proof.
  destruct (has_system_prefix messages) eqn:Hp.
  - rewrite truncate_messages_eq. eexists. f_equal.
    unfold system_prefix. rewrite has_system_prefix_truncate, Hp by done.
    rewrite truncate_messages_eq. unfold system_prefix. rewrite Hp. by destruct messages.
  - unfold system_prefix. rewrite Hp. by eexists.
Qed.

Lemma truncate_length_le messages k : (length (truncate_messages messages k) ≤ S k)%nat.
Proof.
  pose proof (truncate_length messages k). pose proof (system_prefix_length messages). lia.
Qed.

Lemma truncated_recovered messages limit margin k tier :
  fits limit margin (truncate_messages messages k) = true →
  tier = 1%nat → recovered_from messages limit margin (truncate_messages messages k) tier.
Proof.
  intros Hfit ->. split; try done; try lia.
  destruct (kept_truncate messages k) as [recent Hr]. exists recent. rewrite <- Hr.
  split; [apply truncate_sublist|apply Forall2_trimmed_refl].
Qed.

Lemma shrink_or_cut_recovered messages limit margin k budget recent :
  match shrink_or_cut limit margin (truncate_messages messages k) budget recent with
  | Ret (out, tier) => recovered_from messages limit margin out tier
  | Panic => ∃ m n, m ∈ messages ∧ Message.is_tool_result m = true ∧ uncuttable n m
  end.
Proof.
  unfold shrink_or_cut.
  pose proof (shrink_tool_results_progressive_trims (truncate_messages messages k) budget recent)
    as Htr.
  destruct (shrink_tool_results_progressive _ _ _) as [out|]; simpl.
  - destruct (fits limit margin out) eqn:Hfit; simpl.
    + split; try done; try lia. destruct (kept_truncate messages k) as [r Hr].
      exists r. rewrite <- Hr. split; [apply truncate_sublist|done].
    + split; try done; try lia.
      * destruct (kept_truncate_twice messages k 3) as [r Hr]. exists r. rewrite <- Hr.
        split; [|by apply truncate_trimmed].
        etrans; apply truncate_sublist.
      * intros _. pose proof (truncate_length_le out 3). lia.
  - destruct Htr as (m & n & Hm & ? & ?). exists m, n. split_and!; [|done..].
    by apply (sublist_subseteq _ _ (truncate_sublist messages k)).
Qed.

(** overflow recovery, at every urgency: it gives the leading system
    message and some of the others, in order, with at most the texts of tool
    results shrunk; tier 0 is the conversation unchanged, tiers 1 and 2 are
    reported only for a result that fits the target, and the last tier leaves
    no more than seven messages. It can fail only by the panic of a tool result
    with a character across its budget. *)
Theorem recovery_tiers messages limit urgency keep budget margin :
  match try_recover_context_with_urgency messages limit urgency keep budget margin with
  | Ret (out, tier) => recovered_from messages limit margin out tier
  | Panic => ∃ m n, m ∈ messages ∧ Message.is_tool_result m = true ∧ uncuttable n m
  end.
Proof.
  unfold try_recover_context_with_urgency. destruct (fits limit margin messages) eqn:Hfit.
  { split; try done; try lia. exists (after_prefix messages). rewrite <- prefix_split.
    split; [done|apply Forall2_trimmed_refl]. }
  destruct urgency.
  - destruct (fits limit margin (truncate_messages messages keep)) eqn:Hfit1.
    + by apply truncated_recovered.
    + apply shrink_or_cut_recovered.
  - destruct (fits limit margin (truncate_messages messages (keep `min` 5))) eqn:Hfit1.
    + by apply truncated_recovered.
    + apply shrink_or_cut_recovered.
  - split; try done; try lia.
    + destruct (kept_truncate messages 6) as [r Hr]. exists r. rewrite <- Hr.
      split; [apply truncate_sublist|apply Forall2_trimmed_refl].
    + intros _. pose proof (truncate_length_le messages 6). lia.
Qed.
