(* ===== verification/Hooks.v ===== *)
(** Configured hooks around tool calls: src/src/hooks/mod.rs. Logging is left
    out; a notification is the outbound message it publishes. *)

From S2P Require Import Prelude.

Inductive HookAction : Type := Log | Block | Notify.

Record HookRule : Type := mkHookRule {
  action : HookAction;
  tools : list string;
  channels : list string;
  level : option string;
  message : option string;
  channel : option string;
  chat_id : option string;
}.

Module HookRule.
Definition default : HookRule := mkHookRule Log [] [] None None None None.

Definition matches_tool (self : HookRule) (tool_name : string) : bool :=
  any (λ t, String.eqb t "*" || String.eqb t tool_name) (tools self).

Definition matches_channel (self : HookRule) (channel_name : string) : bool :=
  match channels self with
  | [] => true
  | cs => any (λ c, String.eqb c "*" || String.eqb c channel_name) cs
  end.
End HookRule.

Record HooksConfig : Type := mkHooksConfig {
  enabled : bool;
  before_tool_rules : list HookRule;
  after_tool_rules : list HookRule;
  on_error_rules : list HookRule;
}.

Inductive HookResult : Type := Continue | Blocked (msg : string).

(** Channel, chat and text of a published notification. *)
Definition Notification : Type := string * string * string.

(** The engine: its configuration, and whether a bus is attached. *)
Record HookEngine : Type := mkHookEngine { config : HooksConfig; has_bus : bool }.

Module HookEngine.
Definition new (config : HooksConfig) : HookEngine := mkHookEngine config false.
Definition with_bus (self : HookEngine) : HookEngine := mkHookEngine (config self) true.

Definition resolve_notify_target (rule : HookRule) (current_channel current_chat_id : string)
    : option (string * string) :=
  let target_channel := trim (default current_channel (channel rule)) in
  let target_chat_id := trim (default current_chat_id (chat_id rule)) in
  if str_is_empty target_channel || str_is_empty target_chat_id then None
  else Some (target_channel, target_chat_id).

Definition emit_notify (self : HookEngine) (rule : HookRule)
    (current_channel current_chat_id message : string) : list Notification :=
  if has_bus self then
    match resolve_notify_target rule current_channel current_chat_id with
    | Some (c, i) => [(c, i, message)]
    | None => []
    end
  else [].

Definition rule_applies (rule : HookRule) (tool_name channel : string) : bool :=
  HookRule.matches_tool rule tool_name && HookRule.matches_channel rule channel.

Fixpoint before_tool_from (self : HookEngine) (rules : list HookRule)
    (tool_name channel chat_id : string) : HookResult * list Notification :=
  match rules with
  | [] => (Continue, [])
  | rule :: rules' =>
    if negb (rule_applies rule tool_name channel)
    then before_tool_from self rules' tool_name channel chat_id
    else
      match action rule with
      | Log => before_tool_from self rules' tool_name channel chat_id
      | Block =>
        (Blocked (default ("Tool '" +:+ tool_name +:+ "' blocked by hook") (message rule)), [])
      | Notify =>
        let text := default ("Hook notify (before_tool): tool '" +:+ tool_name
                               +:+ "' called in " +:+ channel +:+ ":" +:+ chat_id)
                            (message rule) in
        let sent := emit_notify self rule channel chat_id text in
        let '(r, rest) := before_tool_from self rules' tool_name channel chat_id in
        (r, (sent ++ rest)%list)
      end
  end.

Definition before_tool (self : HookEngine) (tool_name channel chat_id : string)
    : HookResult * list Notification :=
  if negb (enabled (config self)) then (Continue, [])
  else before_tool_from self (before_tool_rules (config self)) tool_name channel chat_id.

(** The loop of [after_tool] and [on_error]: [text] is the default message. *)
Definition notify_all (self : HookEngine) (rules : list HookRule)
    (tool_name channel chat_id text : string) : list Notification :=
  mjoin (map (λ rule,
    if negb (rule_applies rule tool_name channel) then []
    else match action rule with
         | Notify => emit_notify self rule channel chat_id (default text (message rule))
         | Log | Block => []
         end) rules).

Definition after_tool (self : HookEngine) (tool_name : string) (elapsed_ms : Z)
    (channel chat_id : string) : list Notification :=
  if negb (enabled (config self)) then []
  else notify_all self (after_tool_rules (config self)) tool_name channel chat_id
         ("Hook notify (after_tool): tool '" +:+ tool_name +:+ "' succeeded in "
            +:+ fmt_Z elapsed_ms +:+ "ms (" +:+ channel +:+ ":" +:+ chat_id +:+ ")").

Definition on_error (self : HookEngine) (tool_name error channel chat_id : string)
    : list Notification :=
  if negb (enabled (config self)) then []
  else notify_all self (on_error_rules (config self)) tool_name channel chat_id
         ("Hook notify (on_error): tool '" +:+ tool_name +:+ "' failed: " +:+ error
            +:+ " (" +:+ channel +:+ ":" +:+ chat_id +:+ ")").
End HookEngine.

(** ** Which rule decides *)

(** The first applicable blocking rule, which is what the documentation says
    wins. *)
Definition first_block (rules : list HookRule) (tool_name channel : string) : option HookRule :=
  List.find (λ r, HookEngine.rule_applies r tool_name channel
                  && match action r with Block => true | _ => false end) rules.

Lemma before_tool_decides self rules tool_name channel chat_id :
  fst (HookEngine.before_tool_from self rules tool_name channel chat_id) =
    match first_block rules tool_name channel with
    | Some r => Blocked (default ("Tool '" +:+ tool_name +:+ "' blocked by hook") (message r))
    | None => Continue
    end.
Proof.
  unfold first_block. induction rules as [|r rules IH]; [done|].
  cbn [HookEngine.before_tool_from List.find].
  destruct (HookEngine.rule_applies r tool_name channel); cbn [negb andb]; [|done].
  destruct (action r); [done|done|].
  by destruct (HookEngine.before_tool_from self rules tool_name channel chat_id).
Qed.

Lemma blocked_iff self tool_name channel chat_id :
  fst (HookEngine.before_tool self tool_name channel chat_id) ≠ Continue ↔
  enabled (config self) = true ∧
  ∃ r, r ∈ before_tool_rules (config self) ∧ action r = Block ∧
       HookEngine.rule_applies r tool_name channel = true.
Proof.
  unfold HookEngine.before_tool. destruct (enabled (config self)); cbn [negb];
    [|split; [done|by intros [? _]]].
  rewrite before_tool_decides. unfold first_block. split.
  - destruct (List.find _ _) as [r|] eqn:Hf; [intros _|done]. split; [done|].
    apply List.find_some in Hf as [Hin Hr]. apply andb_true_iff in Hr as [Ha Hb].
    exists r. split_and!; [by apply list_elem_of_In|by destruct (action r)|done].
  - intros (_ & r & Hin & Hb & Ha). destruct (List.find _ _) as [x|] eqn:Hf; [done|].
    apply list_elem_of_In in Hin. apply List.find_none with (x := r) in Hf; [|done].
    rewrite Ha, Hb in Hf. done.
Qed.

(** The rules of a list that apply, up to and without the first that blocks. *)
Fixpoint reached (rules : list HookRule) (tool_name channel : string) : list HookRule :=
  match rules with
  | [] => []
  | r :: rules' =>
    if HookEngine.rule_applies r tool_name channel
    then match action r with
         | Block => []
         | _ => r :: reached rules' tool_name channel
         end
    else reached rules' tool_name channel
  end.

Definition is_notify (r : HookRule) : bool :=
  match action r with Notify => true | _ => false end.

(** What a notifying rule publishes: its text, or a default, to its target. *)
Definition notice (self : HookEngine) (channel chat_id text : string) (r : HookRule)
    : list Notification :=
  if is_notify r
  then HookEngine.emit_notify self r channel chat_id (default text (message r)) else [].

Lemma before_tool_notices self rules tool_name channel chat_id :
  snd (HookEngine.before_tool_from self rules tool_name channel chat_id) =
    mjoin (map (notice self channel chat_id
                  ("Hook notify (before_tool): tool '" +:+ tool_name
                     +:+ "' called in " +:+ channel +:+ ":" +:+ chat_id))
               (reached rules tool_name channel)).
Proof.
  induction rules as [|r rules IH]; [done|].
  cbn [HookEngine.before_tool_from reached].
  destruct (HookEngine.rule_applies r tool_name channel); cbn [negb]; [|done].
  destruct (action r) eqn:Ea; [|done|].
  - rewrite IH. cbn [map mjoin list_join]. unfold notice at 2, is_notify. by rewrite Ea.
  - destruct (HookEngine.before_tool_from self rules tool_name channel chat_id) as [res rest].
    cbn [snd] in *. rewrite IH. cbn [map mjoin list_join].
    unfold notice at 2, is_notify. by rewrite Ea.
Qed.

Lemma emit_notify_routed self r channel chat_id text n :
  n ∈ HookEngine.emit_notify self r channel chat_id text →
  has_bus self = true ∧ n.2 = text ∧ n.1.1 ≠ "" ∧ n.1.2 ≠ "".
Proof.
  unfold HookEngine.emit_notify, HookEngine.resolve_notify_target.
  destruct (has_bus self); [|by intros ?%elem_of_nil].
  destruct (str_is_empty (trim (default channel (Hooks.channel r)))) eqn:E1; cbn [orb];
    [by intros ?%elem_of_nil|].
  destruct (str_is_empty (trim (default chat_id (Hooks.chat_id r)))) eqn:E2; cbn [orb];
    [by intros ?%elem_of_nil|].
  intros ->%list_elem_of_singleton. cbn. split_and!; [done|done|by intros Ht; rewrite Ht in E1|].
  by intros Ht; rewrite Ht in E2.
Qed.

Lemma notify_all_applying self rules tool_name channel chat_id text :
  HookEngine.notify_all self rules tool_name channel chat_id text =
    mjoin (map (notice self channel chat_id text)
             (filter (λ r, HookEngine.rule_applies r tool_name channel = true) rules)).
Proof.
  unfold HookEngine.notify_all. induction rules as [|r rules IH]; [done|].
  rewrite filter_cons. cbn [map mjoin list_join].
  destruct (HookEngine.rule_applies r tool_name channel); cbn [negb].
  - rewrite decide_True by done. cbn [map mjoin list_join]. f_equal; [|exact IH].
    unfold notice, is_notify. by destruct (action r).
  - rewrite decide_False by done. done.
Qed.

(** The hooks before a call: the first rule of the list that applies to the
    tool and the channel and blocks decides, with its message, whatever stands
    after it; the notifications published are those of the applying notify
    rules in front of it, in order; a disabled engine does nothing. A
    notification is only published on an attached bus, with a target that has a
    channel and a chat, and never blocks a call; after a call and after an error
    no rule blocks, and every applying notify rule publishes. *)
Theorem hooks_decide self tool_name channel chat_id :
  (let rules := if enabled (config self) then before_tool_rules (config self) else [] in
   fst (HookEngine.before_tool self tool_name channel chat_id) =
     match first_block rules tool_name channel with
     | Some r => Blocked (default ("Tool '" +:+ tool_name +:+ "' blocked by hook") (message r))
     | None => Continue
     end ∧
   snd (HookEngine.before_tool self tool_name channel chat_id) =
     mjoin (map (notice self channel chat_id
                   ("Hook notify (before_tool): tool '" +:+ tool_name
                      +:+ "' called in " +:+ channel +:+ ":" +:+ chat_id))
                (reached rules tool_name channel))) ∧
  (∀ elapsed error,
     let applying rules := if enabled (config self)
       then filter (λ r, HookEngine.rule_applies r tool_name channel = true) rules else [] in
     HookEngine.after_tool self tool_name elapsed channel chat_id =
       mjoin (map (notice self channel chat_id
                     ("Hook notify (after_tool): tool '" +:+ tool_name +:+ "' succeeded in "
                        +:+ fmt_Z elapsed +:+ "ms (" +:+ channel +:+ ":" +:+ chat_id +:+ ")"))
                  (applying (after_tool_rules (config self)))) ∧
     HookEngine.on_error self tool_name error channel chat_id =
       mjoin (map (notice self channel chat_id
                     ("Hook notify (on_error): tool '" +:+ tool_name +:+ "' failed: " +:+ error
                        +:+ " (" +:+ channel +:+ ":" +:+ chat_id +:+ ")"))
                  (applying (on_error_rules (config self))))) ∧
  (∀ r text n, n ∈ notice self channel chat_id text r →
     has_bus self = true ∧ is_notify r = true ∧ n.1.1 ≠ "" ∧ n.1.2 ≠ "" ∧
     n.2 = default text (message r)).
Proof.
  split_and!.
  - unfold HookEngine.before_tool. destruct (enabled (config self)); cbn [negb]; [|done].
    by rewrite before_tool_decides, before_tool_notices.
  - intros elapsed error. unfold HookEngine.after_tool, HookEngine.on_error.
    destruct (enabled (config self)); cbn [negb]; [|done].
    by rewrite !notify_all_applying.
  - unfold notice. intros r text n. destruct (is_notify r); [|by intros ?%elem_of_nil].
    by intros (? & ? & ? & ?)%emit_notify_routed.
Qed.
