(* ===== verification/Bus.v ===== *)
(** The message bus: src/src/bus/message.rs and src/src/bus/mod.rs.

    A channel of tokio is a bounded queue. An asynchronous send waits while the
    queue is full: it has no result yet ([None]), and nothing changes; a
    publication is one step, at the moment its send completes. The interceptor
    runs before a message is queued; it has state of its own, the type [I]. *)

From S2P Require Import Prelude Errors.

(** ** Messages *)

Definition OUTBOUND_ERROR_KEY : string := "error".
Definition OUTBOUND_CUSTOM_NAME_KEY : string := "custom.name".
Definition OUTBOUND_CUSTOM_PAYLOAD_KEY : string := "custom.payload".
Definition OUTBOUND_CUSTOM_SUMMARY_KEY : string := "custom.summary".

Inductive MediaType : Type := MediaImage | Audio | Video | Document.

Record MediaAttachment : Type := mkMediaAttachment {
  media_type : MediaType;
  url : option string;
  data : option (list Byte.byte);
  filename : option string;
  mime_type : option string;
}.

Record InboundMessage : Type := mkInboundMessage {
  channel : string;
  sender_id : string;
  chat_id : string;
  content : string;
  media : list MediaAttachment;
  session_key : string;
  metadata : gmap string string;
}.

Inductive OutboundMessageKind : Type := Full | Chunk | ChunkEnd | Custom.

Record OutboundMessage : Type := mkOutboundMessage {
  out_channel : string;
  out_chat_id : string;
  out_content : string;
  reply_to : option string;
  out_metadata : gmap string string;
  kind : OutboundMessageKind;
}.

#[export] Instance MediaType_eq_dec : EqDecision MediaType.
Proof. solve_decision. Defined.
#[export] Instance byte_eq_dec : EqDecision Byte.byte := Byte.byte_eq_dec.
#[export] Instance MediaAttachment_eq_dec : EqDecision MediaAttachment.
Proof. solve_decision. Defined.
#[export] Instance InboundMessage_eq_dec : EqDecision InboundMessage.
Proof. solve_decision. Defined.
#[export] Instance OutboundMessageKind_eq_dec : EqDecision OutboundMessageKind.
Proof. solve_decision. Defined.
#[export] Instance OutboundMessage_eq_dec : EqDecision OutboundMessage.
Proof. solve_decision. Defined.

Module InboundMessage.
Definition new (channel sender_id chat_id content : string) : InboundMessage :=
  mkInboundMessage channel sender_id chat_id content [] (channel +:+ ":" +:+ chat_id) ∅.

Definition with_media (self : InboundMessage) (m : MediaAttachment) : InboundMessage :=
  mkInboundMessage (channel self) (sender_id self) (chat_id self) (content self)
    (media self ++ [m]) (session_key self) (metadata self).

Definition with_metadata (self : InboundMessage) (k v : string) : InboundMessage :=
  mkInboundMessage (channel self) (sender_id self) (chat_id self) (content self)
    (media self) (session_key self) (<[k := v]> (metadata self)).

Definition has_media (self : InboundMessage) : bool :=
  negb (Nat.eqb (length (media self)) 0).
End InboundMessage.

Module OutboundMessage.
Definition new (channel chat_id content : string) : OutboundMessage :=
  mkOutboundMessage channel chat_id content None ∅ Full.

Definition with_kind (self : OutboundMessage) (k : OutboundMessageKind) : OutboundMessage :=
  mkOutboundMessage (out_channel self) (out_chat_id self) (out_content self) (reply_to self)
    (out_metadata self) k.

Definition with_metadata (self : OutboundMessage) (k v : string) : OutboundMessage :=
  mkOutboundMessage (out_channel self) (out_chat_id self) (out_content self) (reply_to self)
    (<[k := v]> (out_metadata self)) (kind self).

Definition with_reply (self : OutboundMessage) (message_id : string) : OutboundMessage :=
  mkOutboundMessage (out_channel self) (out_chat_id self) (out_content self) (Some message_id)
    (out_metadata self) (kind self).

Definition mark_error (self : OutboundMessage) : OutboundMessage :=
  with_metadata self OUTBOUND_ERROR_KEY "true".

Definition is_error (self : OutboundMessage) : bool :=
  bool_decide (out_metadata self !! OUTBOUND_ERROR_KEY = Some "true").

Definition reply_to (msg : InboundMessage) (content : string) : OutboundMessage :=
  new (channel msg) (chat_id msg) content.
End OutboundMessage.

(** ** Bounded channels *)

Record Chan (A : Type) : Type := mkChan {
  buffer : list A;
  capacity : nat;
  closed : bool;
}.
Arguments mkChan {A} _ _ _.
Arguments buffer {A} _.
Arguments capacity {A} _.
Arguments closed {A} _.

Inductive TrySendError : Type := FullError | ClosedError.

Module Chan.
Section operations.
Context {A : Type}.
Implicit Types (self : Chan A) (a : A).

Definition new (capacity : nat) : Chan A := mkChan [] capacity false.

Definition has_room self : bool := Nat.ltb (length (buffer self)) (capacity self).

Definition push self a : Chan A :=
  mkChan (buffer self ++ [a]) (capacity self) (closed self).

Definition try_send self a : result TrySendError unit * Chan A :=
  if closed self then (Err ClosedError, self)
  else if has_room self then (Ok tt, push self a)
  else (Err FullError, self).

(** [Sender::send]; [false] stands for its error. *)
Definition send self a : option (bool * Chan A) :=
  if closed self then Some (false, self)
  else if has_room self then Some (true, push self a)
  else None.

Definition recv self : option (A * Chan A) :=
  match buffer self with
  | a :: q => Some (a, mkChan q (capacity self) (closed self))
  | [] => None
  end.
End operations.
End Chan.

(** ** The bus *)

Record MessageBus (I : Type) : Type := mkMessageBus {
  inbound : Chan InboundMessage;
  outbound : Chan OutboundMessage;
  inbound_interceptor : option (I → InboundMessage → bool * I);
  interceptor_state : I;
}.
Arguments mkMessageBus {I} _ _ _ _.
Arguments inbound {I} _.
Arguments outbound {I} _.
Arguments inbound_interceptor {I} _.
Arguments interceptor_state {I} _.

Definition DEFAULT_BUFFER_SIZE : nat := 100.

Module MessageBus.
Section bus.
Context {I : Type}.
Implicit Types (self : MessageBus I) (msg : InboundMessage) (out : OutboundMessage).

Definition with_buffer_size (buffer_size : nat) (i : I) : MessageBus I :=
  mkMessageBus (Chan.new buffer_size) (Chan.new buffer_size) None i.
Definition new (i : I) : MessageBus I := with_buffer_size DEFAULT_BUFFER_SIZE i.

Definition set_inbound self (c : Chan InboundMessage) : MessageBus I :=
  mkMessageBus c (outbound self) (inbound_interceptor self) (interceptor_state self).
Definition set_outbound self (c : Chan OutboundMessage) : MessageBus I :=
  mkMessageBus (inbound self) c (inbound_interceptor self) (interceptor_state self).
Definition set_inbound_interceptor self (f : I → InboundMessage → bool * I) : MessageBus I :=
  mkMessageBus (inbound self) (outbound self) (Some f) (interceptor_state self).

(** Whether the interceptor consumes the message. *)
Definition intercept self msg : bool * MessageBus I :=
  match inbound_interceptor self with
  | None => (false, self)
  | Some f =>
    let '(b, i) := f (interceptor_state self) msg in
    (b, mkMessageBus (inbound self) (outbound self) (inbound_interceptor self) i)
  end.

(** Queueing a message the interceptor did not consume. *)
Definition enqueue self msg : option (result ZeptoError bool * MessageBus I) :=
  match Chan.send (inbound self) msg with
  | None => None
  | Some (true, c) => Some (Ok false, set_inbound self c)
  | Some (false, _) => Some (Err BusClosed, self)
  end.

Definition publish_inbound_with_status self msg : option (result ZeptoError bool * MessageBus I) :=
  let '(consumed, self) := intercept self msg in
  if consumed then Some (Ok true, self) else enqueue self msg.

Definition publish_inbound self msg : option (result ZeptoError unit * MessageBus I) :=
  match publish_inbound_with_status self msg with
  | Some (Ok _, self) => Some (Ok tt, self)
  | Some (Err e, self) => Some (Err e, self)
  | None => None
  end.

Definition try_publish_inbound_with_status self msg : result ZeptoError bool * MessageBus I :=
  let '(consumed, self) := intercept self msg in
  if consumed then (Ok true, self)
  else
    match Chan.try_send (inbound self) msg with
    | (Ok _, c) => (Ok false, set_inbound self c)
    | (Err FullError, _) => (Err (Channel "inbound buffer full"), self)
    | (Err ClosedError, _) => (Err BusClosed, self)
    end.

Definition try_publish_inbound self msg : result ZeptoError unit * MessageBus I :=
  let '(r, self) := try_publish_inbound_with_status self msg in
  (match r with Ok _ => Ok tt | Err e => Err e end, self).

Definition consume_inbound self : option (InboundMessage * MessageBus I) :=
  '(msg, c) ← Chan.recv (inbound self); Some (msg, set_inbound self c).

Definition publish_outbound self out : option (result ZeptoError unit * MessageBus I) :=
  match Chan.send (outbound self) out with
  | None => None
  | Some (true, c) => Some (Ok tt, set_outbound self c)
  | Some (false, _) => Some (Err BusClosed, self)
  end.

Definition try_publish_outbound self out : result ZeptoError unit * MessageBus I :=
  match Chan.try_send (outbound self) out with
  | (Ok _, c) => (Ok tt, set_outbound self c)
  | (Err FullError, _) => (Err (Channel "outbound buffer full"), self)
  | (Err ClosedError, _) => (Err BusClosed, self)
  end.

Definition consume_outbound self : option (OutboundMessage * MessageBus I) :=
  '(out, c) ← Chan.recv (outbound self); Some (out, set_outbound self c).
End bus.
End MessageBus.
