(* ===== verification/Approval.v ===== *)
(** Who may run a tool: agent modes (src/src/security/agent_mode.rs), the
    approval gate (src/src/tools/approval.rs), the hard floor
    (src/src/tools/hard_floor.rs) and the checks the agent loop makes before it
    executes a call (src/src/agent/loop.rs).

    JSON values and regular expressions are third-party code: the arguments of
    a call are an opaque [Value], and [regex_is_match], [command_arg] and
    [pretty_json] are parameters. *)

From S2P Require Import Prelude Provider Hooks.

(** ** Agent modes *)

Inductive ToolCategory : Type :=
| FilesystemRead | FilesystemWrite | NetworkRead | NetworkWrite | Shell | Hardware
| Memory | Messaging | Destructive.

#[export] Instance ToolCategory_eq_dec : EqDecision ToolCategory.
Proof. solve_decision. Defined.

Module ToolCategory.
Definition all : list ToolCategory :=
  [FilesystemRead; FilesystemWrite; NetworkRead; NetworkWrite; Shell; Hardware;
   Memory; Messaging; Destructive].

Definition display (c : ToolCategory) : string :=
  match c with
  | FilesystemRead => "filesystem_read"
  | FilesystemWrite => "filesystem_write"
  | NetworkRead => "network_read"
  | NetworkWrite => "network_write"
  | Shell => "shell"
  | Hardware => "hardware"
  | Memory => "memory"
  | Messaging => "messaging"
  | Destructive => "destructive"
  end.
End ToolCategory.

Inductive AgentMode : Type := Observer | Assistant | Autonomous.

#[export] Instance AgentMode_eq_dec : EqDecision AgentMode.
Proof. solve_decision. Defined.

Inductive CategoryPermission : Type := Allowed | RequiresApproval | ModeBlocked.

#[export] Instance CategoryPermission_eq_dec : EqDecision CategoryPermission.
Proof. solve_decision. Defined.

Module AgentMode.
Definition display (m : AgentMode) : string :=
  match m with
  | Observer => "observer" | Assistant => "assistant" | Autonomous => "autonomous"
  end.

Section parsing.
Context `{RustUnicode}.

Definition from_str (s : string) : result string AgentMode :=
  let lower := to_lowercase s in
  if String.eqb lower "observer" then Ok Observer
  else if String.eqb lower "assistant" then Ok Assistant
  else if String.eqb lower "autonomous" then Ok Autonomous
  else Err ("unknown agent mode: '" +:+ s +:+ "' (expected observer/assistant/autonomous)").

(** [AgentModeConfig::resolve]: an unknown mode is [Autonomous]. *)
Definition resolve (mode : string) : AgentMode :=
  match from_str mode with Ok m => m | Err _ => Autonomous end.
End parsing.
End AgentMode.

Module ModePolicy.
Definition check (mode : AgentMode) (category : ToolCategory) : CategoryPermission :=
  match mode with
  | Autonomous => Allowed
  | Observer =>
    match category with
    | FilesystemRead | NetworkRead | Memory => Allowed
    | _ => ModeBlocked
    end
  | Assistant =>
    match category with
    | FilesystemRead | FilesystemWrite | NetworkRead | NetworkWrite | Memory | Messaging => Allowed
    | Shell | Hardware | Destructive => RequiresApproval
    end
  end.

Definition blocked_categories (mode : AgentMode) : list ToolCategory :=
  filter (λ c, check mode c = ModeBlocked) ToolCategory.all.

Definition approval_categories (mode : AgentMode) : list ToolCategory :=
  filter (λ c, check mode c = RequiresApproval) ToolCategory.all.
End ModePolicy.

(** ** The approval gate *)

Inductive ApprovalPolicy : Type :=
| AlwaysAllow
| AlwaysRequire
| RequireForTools (tools : list string)
| RequireForDangerous.

Inductive ApprovalPolicyConfig : Type :=
| CfgAlwaysAllow | CfgAlwaysRequire | CfgRequireForTools | CfgRequireForDangerous.

Record ApprovalConfig : Type := mkApprovalConfig {
  enabled : bool;
  policy : ApprovalPolicyConfig;
  require_for : list string;
  dangerous_tools : list string;
  auto_approve_timeout_secs : Z;
  approval_timeout_secs : Z;
}.

Definition DEFAULT_APPROVAL_TIMEOUT_SECS : Z := 120.

Definition default_dangerous_tools : list string := ["shell"; "write_file"; "edit_file"].

Definition ApprovalConfig_default : ApprovalConfig :=
  {| enabled := true; policy := CfgRequireForDangerous; require_for := [];
     dangerous_tools := default_dangerous_tools;
     auto_approve_timeout_secs := 0; approval_timeout_secs := 0 |}.

Definition matches_tool_pattern (pattern tool_name : string) : bool :=
  if String.eqb pattern "*" then true
  else match strip_suffix pattern "*" with
       | Some prefix => starts_with tool_name prefix
       | None =>
         match strip_prefix pattern "*" with
         | Some suffix => ends_with tool_name suffix
         | None => String.eqb pattern tool_name
         end
       end.

Record ApprovalGate : Type := mkApprovalGate {
  gate_enabled : bool;
  gate_policy : ApprovalPolicy;
  gate_auto_approve_timeout_secs : Z;
}.

Record ApprovalRequest (Value : Type) : Type := mkApprovalRequest {
  tool_name : string;
  arguments : Value;
  timestamp : Z;
  auto_approve_at : option Z;
  req_channel : option string;
  req_chat_id : option string;
  user_id : option string;
  agent_id : option string;
  hard_floor_reason : option string;
}.
Arguments mkApprovalRequest {Value} _ _ _ _ _ _ _ _ _.
Arguments tool_name {Value} _.
Arguments arguments {Value} _.
Arguments timestamp {Value} _.
Arguments auto_approve_at {Value} _.
Arguments req_channel {Value} _.
Arguments req_chat_id {Value} _.
Arguments user_id {Value} _.
Arguments agent_id {Value} _.
Arguments hard_floor_reason {Value} _.

Inductive ApprovalResponse : Type :=
| Approved
| Denied (reason : string)
| TimedOut.

Module ApprovalRequest.
Section methods.
Context {Value : Type}.
Implicit Types self : ApprovalRequest Value.

(** Instants are nanoseconds. Timeouts are those chrono can represent, below
    [i64::MAX / 1000] seconds; it panics on larger ones. *)
Definition new (tool : string) (args : Value) (auto_approve_timeout_secs now : Z)
    : ApprovalRequest Value :=
  {| tool_name := tool; arguments := args; timestamp := now;
     auto_approve_at := if 0 <? auto_approve_timeout_secs
                        then Some (now + auto_approve_timeout_secs * 1000000000) else None;
     req_channel := None; req_chat_id := None; user_id := None; agent_id := None;
     hard_floor_reason := None |}.

Definition with_routing self (channel chat_id : option string) : ApprovalRequest Value :=
  mkApprovalRequest (tool_name self) (arguments self) (timestamp self) (auto_approve_at self)
    channel chat_id (user_id self) (agent_id self) (hard_floor_reason self).

Definition with_thread self (user agent : option string) : ApprovalRequest Value :=
  mkApprovalRequest (tool_name self) (arguments self) (timestamp self) (auto_approve_at self)
    (req_channel self) (req_chat_id self) user agent (hard_floor_reason self).

Definition with_hard_floor self (reason : string) : ApprovalRequest Value :=
  mkApprovalRequest (tool_name self) (arguments self) (timestamp self) (auto_approve_at self)
    (req_channel self) (req_chat_id self) (user_id self) (agent_id self) (Some reason).

Definition is_auto_approved self (now : Z) : bool :=
  match auto_approve_at self with Some deadline => deadline <=? now | None => false end.
End methods.
End ApprovalRequest.

Module ApprovalGate.
Definition new (config : ApprovalConfig) : ApprovalGate :=
  {| gate_enabled := enabled config;
     gate_policy :=
       match policy config with
       | CfgAlwaysAllow => AlwaysAllow
       | CfgAlwaysRequire => AlwaysRequire
       | CfgRequireForTools => RequireForTools (require_for config)
       | CfgRequireForDangerous => RequireForTools (dangerous_tools config)
       end;
     gate_auto_approve_timeout_secs := auto_approve_timeout_secs config |}.

Definition requires_approval (self : ApprovalGate) (tool : string) : bool :=
  if negb (gate_enabled self) then false
  else match gate_policy self with
       | AlwaysAllow => false
       | AlwaysRequire => true
       | RequireForTools tools => any (λ p, matches_tool_pattern p tool) tools
       | RequireForDangerous => any (λ p, matches_tool_pattern p tool) default_dangerous_tools
       end.
End ApprovalGate.

(** ** The hard floor *)

Record HardFloorRule : Type := mkHardFloorRule {
  rule_id : string;
  rule_reason : string;
  rule_pattern : string;
}.

Definition DEFAULT_RULES : list HardFloorRule :=
  [ mkHardFloorRule "rm_rf_root"
      "`rm -rf /` or `rm -rf /*` would wipe the entire filesystem."
      "\brm\s+(-[rRfF]+\s+)+/(\s|\*|$)";
    mkHardFloorRule "rm_rf_home"
      "`rm -rf` against $HOME / ~ recursively deletes the user's data."
      "\brm\s+(-[rRfF]+\s+)+(\$HOME|\$\{HOME\}|~)(\s|$)";
    mkHardFloorRule "mkfs_any"
      "`mkfs.*` formats a filesystem, destroying all data on the target."
      "\bmkfs(\.\w+)?\s+\S";
    mkHardFloorRule "dd_to_block_device"
      "`dd of=/dev/...` writes raw bytes to a block device."
      "\bdd\s+([^|;]*\s)?of=/dev/(sd[a-z]\d*|nvme\d+n\d+(p\d+)?|hd[a-z]\d*|xvd[a-z]\d*|vd[a-z]\d*|disk\d*)(\s|$)";
    mkHardFloorRule "wipefs_or_partition_destroy"
      "`wipefs` / destructive `parted` removes partition tables."
      "\b(wipefs\s+\S|parted\s+[^|;]*\b(mklabel|rm)\b)";
    mkHardFloorRule "fork_bomb"
      "Classic fork-bomb pattern exhausts process limits."
      ":\s*\(\s*\)\s*\{\s*:\s*\|\s*:\s*&\s*\}\s*;\s*:";
    mkHardFloorRule "chmod_777_root_recursive"
      "`chmod -R 777 /` makes the entire filesystem world-writable."
      "\bchmod\s+(-R\s+)?[0-7]*7[0-7]*7[0-7]*7\s+/(\s|$)";
    mkHardFloorRule "shutdown_or_reboot"
      "`shutdown` / `reboot` / `halt` takes the host offline."
      "\b(shutdown\s+\S|reboot\b|halt\b|poweroff\b|init\s+[06]\b)" ].

(** ** Threads *)

Record ThreadKey : Type := mkThreadKey { user : string; agent : string }.

#[export] Instance ThreadKey_eq_dec : EqDecision ThreadKey.
Proof. solve_decision. Defined.
#[export] Program Instance ThreadKey_countable : Countable ThreadKey :=
  inj_countable' (λ k, (user k, agent k)) (λ p, mkThreadKey (fst p) (snd p)) _.
Next Obligation. by intros []. Qed.

Module ThreadKey.
Definition new (user agent : string) : ThreadKey := mkThreadKey user agent.
Definition from_chat_id_fallback (chat_id : string) : ThreadKey := mkThreadKey chat_id "".
Definition is_fallback (self : ThreadKey) : bool := str_is_empty (agent self).
End ThreadKey.

Inductive ThreadIdentity : Type := Known (key : ThreadKey) | Unknown.

Module ThreadIdentity.
(** [read] is what reading and parsing the file gives: the two ids, or any
    error. *)
Definition load_from_config_dir (read : option (string * string)) : ThreadIdentity :=
  match read with
  | Some (user_id, agent_id) =>
    if str_is_empty user_id || str_is_empty agent_id then Unknown
    else Known (ThreadKey.new user_id agent_id)
  | None => Unknown
  end.

Definition resolve_key (self : ThreadIdentity) (chat_id_fallback : string) : ThreadKey :=
  match self with
  | Known key => key
  | Unknown => ThreadKey.from_chat_id_fallback chat_id_fallback
  end.

Definition is_known (self : ThreadIdentity) : bool :=
  match self with Known _ => true | Unknown => false end.
Definition as_known (self : ThreadIdentity) : option ThreadKey :=
  match self with Known k => Some k | Unknown => None end.
End ThreadIdentity.

(** ** The checks before a call *)

Section checks.
Context {Value W : Type}.
Context (regex_is_match : string → string → bool).
Context (command_arg : Value → option string) (pretty_json : Value → string).
Context (utc_now : M W Z).

(** [HardFloorMatcher::check]. *)
Definition hard_floor_check (tool : string) (args : Value) : option HardFloorRule :=
  if negb (String.eqb tool "shell") then None
  else match command_arg args with
       | Some command => List.find (λ r, regex_is_match (rule_pattern r) command) DEFAULT_RULES
       | None => None
       end.

Definition create_request (gate : ApprovalGate) (tool : string) (args : Value)
    : M W (ApprovalRequest Value) :=
  let* now := utc_now in
  ret (ApprovalRequest.new tool args (gate_auto_approve_timeout_secs gate) now).

Definition format_approval_request (tool : string) (args : Value) : string :=
  "[Approval Required]" +:+ newline +:+ "Tool: " +:+ tool +:+ newline +:+ "Arguments:"
    +:+ newline +:+ pretty_json args +:+ newline +:+ newline +:+ "Approve execution? (yes/no)".

Definition ApprovalHandler : Type := ApprovalRequest Value → M W ApprovalResponse.

(** [None] lets the call through; a text is the refusal the model is given. *)
Definition resolve_tool_approval (gate : ApprovalGate) (approval_handler : option ApprovalHandler)
    (thread_identity : ThreadIdentity) (tool : string) (args : Value)
    (channel chat_id : option string) : M W (option string) :=
  let hard_floor := hard_floor_check tool args in
  if match hard_floor with None => negb (ApprovalGate.requires_approval gate tool) | _ => false end
  then ret None
  else match approval_handler with
       | Some handler =>
         let '(uid, aid) := match ThreadIdentity.as_known thread_identity with
                            | Some k => (Some (user k), Some (agent k))
                            | None => (None, None)
                            end in
         let* request := create_request gate tool args in
         let request := ApprovalRequest.with_thread
                          (ApprovalRequest.with_routing request channel chat_id) uid aid in
         let request := match hard_floor with
                        | Some rule => ApprovalRequest.with_hard_floor request (rule_reason rule)
                        | None => request
                        end in
         let* response := handler request in
         ret match response with
             | Approved => None
             | Denied reason =>
               Some ("Tool '" +:+ tool +:+ "' was denied by user approval. " +:+ reason)
             | TimedOut =>
               match hard_floor with
               | Some rule => Some ("Tool '" +:+ tool +:+ "' was denied: HardFloor approval ("
                                      +:+ rule_id rule +:+ ") timed out.")
               | None => Some ("Tool '" +:+ tool +:+ "' approval timed out and was not executed.")
               end
             end
       | None =>
         ret (Some ("Tool '" +:+ tool +:+ "' requires user approval and was not executed. "
                      +:+ format_approval_request tool args))
       end.

(** What the checks of one call read. [category] is that of a registered tool. *)
Record CallContext : Type := mkCallContext {
  hooks : HookEngine;
  agent_mode : AgentMode;
  category : string → option ToolCategory;
  trusted_local_session : bool;
  gate : ApprovalGate;
  approval_handler : option ApprovalHandler;
  thread_identity : ThreadIdentity;
  ctx_channel : option string;
  ctx_chat_id : option string;
}.

(** Agent mode enforcement. *)
Definition mode_refusal (c : CallContext) (name : string) : option string :=
  match category c name with
  | None => None
  | Some cat =>
    match ModePolicy.check (agent_mode c) cat with
    | ModeBlocked =>
      Some ("Tool '" +:+ name +:+ "' is blocked in " +:+ AgentMode.display (agent_mode c)
              +:+ " mode (category: " +:+ ToolCategory.display cat +:+ ")")
    | RequiresApproval =>
      if trusted_local_session c then None
      else if negb (ApprovalGate.requires_approval (gate c) name)
      then Some ("Tool '" +:+ name +:+ "' requires approval in "
                   +:+ AgentMode.display (agent_mode c) +:+ " mode (category: "
                   +:+ ToolCategory.display cat +:+ "). Not executed.")
      else None
    | Allowed => None
    end
  end.

(** The checks of one tool call, in the order the agent loop makes them. [None]
    means that it goes on to the dry run or the execution. The notifications of
    hooks are left out. *)
Definition check_tool_call (c : CallContext) (name : string) (args : Value) : M W (option string) :=
  let channel_name := default "cli" (ctx_channel c) in
  let chat_id := default channel_name (ctx_chat_id c) in
  match fst (HookEngine.before_tool (hooks c) name channel_name chat_id) with
  | Blocked msg => ret (Some ("Tool '" +:+ name +:+ "' blocked by hook: " +:+ msg))
  | Continue =>
    match mode_refusal c name with
    | Some refusal => ret (Some refusal)
    | None =>
      if trusted_local_session c then ret None
      else resolve_tool_approval (gate c) (approval_handler c) (thread_identity c) name args
             (ctx_channel c) (ctx_chat_id c)
    end
  end.
End checks.

(** ** Which tools a gate asks for *)

(** What a pattern means: everything, the names with a prefix, the names with a
    suffix, or one name. *)
Definition pattern_matches (pattern tool : string) : Prop :=
  pattern = "*" ∨
  (∃ prefix rest, pattern = prefix +:+ "*" ∧ tool = prefix +:+ rest) ∨
  (∃ suffix rest, (∀ x, pattern ≠ x +:+ "*") ∧ pattern = "*" +:+ suffix ∧
                  tool = rest +:+ suffix) ∨
  pattern = tool.

Lemma strip_suffix_None s p : strip_suffix s p = None ↔ ∀ x, s ≠ x +:+ p.
Proof.
  destruct (strip_suffix s p) as [t|] eqn:E; split; try done.
  - intros H. apply strip_suffix_Some in E. by destruct (H t).
  - intros _ x Hx. apply strip_suffix_Some in Hx. congruence.
Qed.

Lemma strip_prefix_None s p : strip_prefix s p = None ↔ ∀ x, s ≠ p +:+ x.
Proof.
  destruct (strip_prefix s p) as [t|] eqn:E; split; try done.
  - intros H. apply strip_prefix_Some in E. by destruct (H t).
  - intros _ x Hx. apply strip_prefix_Some in Hx. congruence.
Qed.

Lemma append_inj_l (a b c : string) : a +:+ b = a +:+ c → b = c.
Proof. induction a as [|x a IH]; simpl; [done|]. intros [= H]. auto. Qed.

Lemma append_inj_r (a b c : string) : a +:+ c = b +:+ c → a = b.
Proof.
  intros H. assert (strip_suffix (a +:+ c) c = Some a) as Ha by by apply strip_suffix_Some.
  rewrite H in Ha. apply strip_suffix_Some in Ha.
  assert (strip_suffix (a +:+ c) c = Some b) as Hb by by apply strip_suffix_Some.
  assert (strip_suffix (a +:+ c) c = Some a) as Ha' by by apply strip_suffix_Some.
  congruence.
Qed.

Lemma matches_tool_pattern_spec pattern tool :
  matches_tool_pattern pattern tool = true ↔ pattern_matches pattern tool.
Proof.
  unfold matches_tool_pattern, pattern_matches.
  destruct (String.eqb_spec pattern "*") as [->|Hstar]; [by split; [left|]|].
  destruct (strip_suffix pattern "*") as [p|] eqn:Es.
  { apply strip_suffix_Some in Es. rewrite starts_with_spec. split.
    - intros [t ->]. right; left. eauto.
    - intros [?|[(p' & r & Hp & ->)|[(? & ? & Hn & _)|Heq]]]; [done| |by destruct (Hn p)|].
      + rewrite Es in Hp. apply append_inj_r in Hp as ->. eauto.
      + exists "*". congruence. }
  rewrite strip_suffix_None in Es.
  destruct (strip_prefix pattern "*") as [q|] eqn:Ep.
  - apply strip_prefix_Some in Ep. rewrite ends_with_spec. split.
    + intros [t ->]. right; right; left. eauto.
    + intros [?|[(p' & r & Hp & ->)|[(q' & r & _ & Hq & ->)|Heq]]]; [done|by destruct (Es p')| |].
      * rewrite Ep in Hq. apply append_inj_l in Hq as ->. eauto.
      * exists "*". congruence.
  - rewrite strip_prefix_None in Ep. rewrite String.eqb_eq. split; [auto|].
    intros [?|[(p' & r & Hp & _)|[(q' & r & _ & Hq & _)|Heq]]]; [done|by destruct (Es p')| |done].
    by destruct (Ep q').
Qed.

(** The patterns a configuration asks for. *)
Definition asked_patterns (config : ApprovalConfig) : list string :=
  match policy config with
  | CfgAlwaysAllow => []
  | CfgAlwaysRequire => ["*"]
  | CfgRequireForTools => require_for config
  | CfgRequireForDangerous => dangerous_tools config
  end.

(** The gate built from a configuration asks for approval exactly when approval
    is enabled and one of the configured patterns matches the tool. *)
Lemma gate_asks config tool :
  ApprovalGate.requires_approval (ApprovalGate.new config) tool = true ↔
  enabled config = true ∧ ∃ p, p ∈ asked_patterns config ∧ pattern_matches p tool.
Proof.
  unfold ApprovalGate.requires_approval, ApprovalGate.new, asked_patterns.
  cbn [gate_enabled gate_policy].
  destruct (enabled config); cbn [negb]; [|naive_solver].
  destruct (policy config); rewrite ?any_true; setoid_rewrite <- matches_tool_pattern_spec.
  - split; [done|]. intros (_ & p & Hp & _). by apply elem_of_nil in Hp.
  - split; [|done]. intros _. split; [done|]. exists "*". by rewrite list_elem_of_singleton.
  - naive_solver.
  - naive_solver.
Qed.

Lemma matches_plain p tool :
  p ≠ "*" → strip_suffix p "*" = None → strip_prefix p "*" = None →
  matches_tool_pattern p tool = String.eqb p tool.
Proof.
  intros Hp Hs Hf. unfold matches_tool_pattern. rewrite Hs, Hf.
  by destruct (String.eqb_spec p "*").
Qed.

(** A gate built from a configuration asks for approval exactly when
    approval is enabled and a configured pattern matches the tool: the star
    matches every tool, a trailing star is a prefix, else a leading star is a
    suffix, else the name has to be equal. The default configuration asks for
    shell, write_file and edit_file and for nothing else, and a mode name that
    is not one of the three modes in any capitalisation is the mode without
    restrictions. *)
Theorem configured_gate_asks `{RustUnicode} config tool mode :
  (ApprovalGate.requires_approval (ApprovalGate.new config) tool = true ↔
     enabled config = true ∧ ∃ p, p ∈ asked_patterns config ∧ pattern_matches p tool) ∧
  (ApprovalGate.requires_approval (ApprovalGate.new ApprovalConfig_default) tool = true ↔
     tool ∈ ["shell"; "write_file"; "edit_file"]) ∧
  (∀ m, AgentMode.resolve (AgentMode.display m) = m) ∧
  (to_lowercase mode ∉ map AgentMode.display [Observer; Assistant; Autonomous] →
     AgentMode.resolve mode = Autonomous).
Proof.
  split; [apply gate_asks|]. split_and!.
  - unfold ApprovalGate.requires_approval, ApprovalGate.new, ApprovalConfig_default,
      default_dangerous_tools.
    cbn [gate_enabled gate_policy enabled policy dangerous_tools negb any existsb].
    rewrite !matches_plain by done. rewrite !orb_true_iff, !String.eqb_eq. set_solver.
  - intros []; unfold AgentMode.resolve, AgentMode.from_str;
      by rewrite to_lowercase_ascii.
  - intros Hm. unfold AgentMode.resolve, AgentMode.from_str. simpl in Hm.
    repeat (match goal with |- context [String.eqb ?a ?b] =>
              destruct (String.eqb_spec a b) as [Heq|] end; [by rewrite Heq in Hm; set_solver|]).
    done.
Qed.

(** ** What the checks let through *)

Section checks_spec.
Context {Value W : Type}.
Context (regex_is_match : string → string → bool).
Context (command_arg : Value → option string) (pretty_json : Value → string).
Context (utc_now : M W Z).
Implicit Types (c : CallContext (Value := Value) (W := W)) (args : Value) (w : W).

Local Notation floor := (hard_floor_check regex_is_match command_arg).
Local Notation decide_call := (check_tool_call regex_is_match command_arg pretty_json utc_now).

(** The request the approval handler is asked with, at time [now]. *)
Definition call_request c name args (now : Z) : ApprovalRequest Value :=
  {| tool_name := name; arguments := args; timestamp := now;
     auto_approve_at := auto_approve_at
       (ApprovalRequest.new name args (gate_auto_approve_timeout_secs (gate c)) now);
     req_channel := ctx_channel c; req_chat_id := ctx_chat_id c;
     user_id := user <$> ThreadIdentity.as_known (thread_identity c);
     agent_id := agent <$> ThreadIdentity.as_known (thread_identity c);
     hard_floor_reason := rule_reason <$> floor name args |}.

(** A call must be asked about: the gate wants it, or a hard floor rule is hit. *)
Definition must_ask c name args : Prop :=
  ApprovalGate.requires_approval (gate c) name = true ∨ floor name args ≠ None.

(** The user agreed to the call in world [w]. *)
Definition handler_agrees c name args w : Prop :=
  ∃ handler, approval_handler c = Some handler ∧
    let '(now, w1) := utc_now w in
    fst (handler (call_request c name args now) w1) = Approved.

Lemma resolve_tool_approval_None c name args w :
  fst (resolve_tool_approval regex_is_match command_arg pretty_json utc_now (gate c)
         (approval_handler c) (thread_identity c) name args (ctx_channel c) (ctx_chat_id c) w)
    = None ↔ (must_ask c name args → handler_agrees c name args w).
Proof.
  unfold resolve_tool_approval, must_ask, handler_agrees, call_request, bind, ret.
  unfold create_request, bind, ret.
  destruct (ApprovalGate.requires_approval (gate c) name) eqn:Er, (floor name args) as [r|] eqn:Ef;
    cbn [negb].
  4: naive_solver.
  all: destruct (approval_handler c) as [h|]; [|naive_solver].
  all: destruct (ThreadIdentity.as_known (thread_identity c)) as [k|]; cbn;
    destruct (utc_now w) as [now w1]; cbn;
    match goal with |- context [match ?X with pair _ _ => _ end] => destruct X as [[| |] ?] eqn:? end;
    cbn; split; try done; intros H.
  all: try (intros _; eexists; split; [reflexivity|];
            match goal with E : _ = (_, _) |- _ => exact (f_equal fst E) end).
  all: destruct H as (? & ? & H); [by auto|]; simplify_eq;
    match goal with E : _ = (_, _) |- _ =>
      by pose proof (eq_trans (eq_sym H) (f_equal fst E)) end.
Qed.

(** A configured hook rule blocks the call. *)
Definition hook_blocks c name : Prop :=
  let channel_name := default "cli" (ctx_channel c) in
  Hooks.enabled (config (hooks c)) = true ∧
  ∃ r, r ∈ before_tool_rules (config (hooks c)) ∧ action r = Block ∧
       HookEngine.rule_applies r name channel_name = true.

(** The tool may run in the agent's mode. *)
Definition mode_permits c name : Prop :=
  ∀ cat, category c name = Some cat →
    match agent_mode c with
    | Autonomous => True
    | Observer => cat ∈ [FilesystemRead; NetworkRead; Memory]
    | Assistant =>
      cat ∈ [Shell; Hardware; Destructive] →
      trusted_local_session c = true ∨ ApprovalGate.requires_approval (gate c) name = true
    end.

Lemma mode_refusal_None c name : mode_refusal c name = None ↔ mode_permits c name.
Proof.
  unfold mode_refusal, mode_permits. destruct (category c name) as [cat|]; [|by split].
  transitivity (match agent_mode c with
    | Autonomous => True
    | Observer => cat ∈ [FilesystemRead; NetworkRead; Memory]
    | Assistant =>
      cat ∈ [Shell; Hardware; Destructive] →
      trusted_local_session c = true ∨ ApprovalGate.requires_approval (gate c) name = true
    end); [|naive_solver].
  destruct (agent_mode c), cat; cbn [ModePolicy.check]; try (split; [|set_solver]; set_solver).
  all: destruct (trusted_local_session c), (ApprovalGate.requires_approval (gate c) name);
    cbn [negb]; split; try done; try naive_solver; intros H.
  all: by destruct H; [set_solver|..].
Qed.

Lemma check_tool_call_None c name args w :
  fst (decide_call c name args w) = None ↔
    ¬ hook_blocks c name ∧ mode_permits c name ∧
    (trusted_local_session c = true ∨ (must_ask c name args → handler_agrees c name args w)).
Proof.
  pose proof (blocked_iff (hooks c) name (default "cli" (ctx_channel c))
                (default (default "cli" (ctx_channel c)) (ctx_chat_id c))) as Hb.
  rewrite <- mode_refusal_None, <- resolve_tool_approval_None.
  unfold check_tool_call, hook_blocks.
  destruct (fst (HookEngine.before_tool _ _ _ _)) as [|msg].
  - assert (H := proj2 Hb). split.
    + intros Hd. split; [by intros ?%H|]. split.
      * destruct (mode_refusal c name); [done|done].
      * destruct (mode_refusal c name); [done|].
        destruct (trusted_local_session c); [by left|by right].
    + intros (_ & -> & Ht). destruct (trusted_local_session c); [done|].
      by destruct Ht as [|?].
  - split; [done|]. intros [Hn _]. destruct Hn. by apply Hb.
Qed.

(** C11: The agent loop runs a tool call exactly when no configured hook rule
    blocks it, the agent's mode permits the tool's category, and, unless the
    session is a trusted local one, every call that the approval gate or the
    hard floor asks about was approved by the approval handler. So in Observer
    mode a registered tool runs only if it reads or touches memory, in every
    session; in Assistant mode a shell, hardware or destructive tool never runs
    unasked in a session that is not trusted; and a shell command that a hard
    floor rule matches never runs there without an approval of a request that
    carries the rule's reason, whatever the gate's policy is. *)
Theorem call_checks c name args w :
  (fst (decide_call c name args w) = None ↔
     ¬ hook_blocks c name ∧ mode_permits c name ∧
     (trusted_local_session c = true ∨ (must_ask c name args → handler_agrees c name args w))) ∧
  (fst (decide_call c name args w) = None → ∀ cat, category c name = Some cat →
     (agent_mode c = Observer → cat ∈ [FilesystemRead; NetworkRead; Memory]) ∧
     (agent_mode c = Assistant → cat ∈ [Shell; Hardware; Destructive] →
        trusted_local_session c = true ∨ handler_agrees c name args w)) ∧
  (fst (decide_call c name args w) = None → trusted_local_session c = false →
     ∀ rule, floor name args = Some rule →
       name = "shell" ∧ rule ∈ DEFAULT_RULES ∧
       ∃ handler request w1, approval_handler c = Some handler ∧
         hard_floor_reason request = Some (rule_reason rule) ∧
         fst (handler request w1) = Approved).
Proof.
  split; [apply check_tool_call_None|]. split.
  - intros (_ & Hmode & Hask)%check_tool_call_None cat Hcat. specialize (Hmode cat Hcat).
    split; [by intros Hm; rewrite Hm in Hmode|].
    intros Hm Hin. rewrite Hm in Hmode. destruct Hask as [?|Hask]; [by left|].
    destruct (Hmode Hin) as [?|Hr]; [by left|]. right. apply Hask. by left.
  - intros (_ & _ & Hask)%check_tool_call_None Ht rule Hf.
    destruct Hask as [Ht'|Hask]; [by rewrite Ht in Ht'|].
    destruct Hask as (h & Hh & Ha); [right; by rewrite Hf|].
    assert (hard_floor_reason (call_request c name args 0) = Some (rule_reason rule)) as Hr.
    { unfold call_request. cbn [hard_floor_reason]. by rewrite Hf. }
    unfold hard_floor_check in Hf.
    destruct (String.eqb_spec name "shell") as [->|]; cbn [negb] in Hf; [|done].
    destruct (command_arg args) as [cmd|] eqn:Ec; [|done].
    pose proof (List.find_some _ _ Hf) as [Hin _]. apply list_elem_of_In in Hin.
    split_and!; [done..|]. destruct (utc_now w) as [now w1].
    by exists h, (call_request c "shell" args now), w1.
Qed.

(** The answer to a call that has to be asked about, on every branch: with
    no handler it is refused, with the arguments shown; an approval lets it
    through; a denial and a time-out refuse it with their texts, and the
    time-out of a hard floor request reads as a denial that names the rule. The
    handler is asked once, with the request of the call, and a call that needs
    no approval asks nobody. *)
Theorem approval_answers c name args w :
  let resolve h := resolve_tool_approval regex_is_match command_arg pretty_json utc_now (gate c)
                     h (thread_identity c) name args (ctx_channel c) (ctx_chat_id c) in
  let '(now, w1) := utc_now w in
  (¬ must_ask c name args → ∀ h, resolve h w = (None, w)) ∧
  (must_ask c name args →
   resolve None w = (Some ("Tool '" +:+ name +:+ "' requires user approval and was not executed. "
                             +:+ format_approval_request pretty_json name args), w) ∧
   ∀ handler response w2, handler (call_request c name args now) w1 = (response, w2) →
     snd (resolve (Some handler) w) = w2 ∧
     match response with
     | Approved => fst (resolve (Some handler) w) = None
     | Denied reason =>
       fst (resolve (Some handler) w)
         = Some ("Tool '" +:+ name +:+ "' was denied by user approval. " +:+ reason)
     | TimedOut =>
       fst (resolve (Some handler) w)
         = Some match floor name args with
                | Some rule => "Tool '" +:+ name +:+ "' was denied: HardFloor approval ("
                                 +:+ rule_id rule +:+ ") timed out."
                | None => "Tool '" +:+ name +:+ "' approval timed out and was not executed."
                end
     end).
Proof.
  unfold resolve_tool_approval, must_ask, call_request, create_request, bind, ret. cbv zeta.
  destruct (utc_now w) as [now w1] eqn:Hu.
  destruct (ApprovalGate.requires_approval (gate c) name) eqn:Er, (floor name args) as [r|] eqn:Ef;
    cbn [negb]; (split; [naive_solver|]); intros Hask; try naive_solver.
  all: split; [done|]; intros handler response w2 Hh.
  all: destruct (ThreadIdentity.as_known (thread_identity c)) as [k|];
    match goal with H : utc_now _ = _ |- _ => rewrite H end;
    match goal with
    | H : ?h ?r ?v = (?a, ?b) |- context [?h ?req ?v] =>
      change (h req v = (a, b)) in H; rewrite H; by destruct a
    end.
Qed.
End checks_spec.
