(* ===== verification/Broker.v ===== *)
(** The approval broker (src/src/tools/approval_broker.rs): requests that wait
    for a user, by thread, and the one-shot channels their handlers wait on.

    Every operation holds the broker's mutex from start to end, so a history is
    a sequence of whole operations, interleaved with handlers that stop waiting. *)

From S2P Require Import Prelude Approval.

(** ** State *)

(** A tokio one-shot channel: nothing was sent yet; the decision that was sent;
    the receiver or the sender was dropped first. *)
Inductive Channel : Type := Open | Sent (approved : bool) | ReceiverGone | SenderGone.

#[export] Instance Channel_eq_dec : EqDecision Channel.
Proof. solve_decision. Defined.

(** [tx] is the channel, an index into the channels made so far. *)
Record PendingEntry : Type := mkPendingEntry {
  request_id : string;
  hard_floor : bool;
  created_at : Z;
  tx : nat;
}.

#[export] Instance PendingEntry_eq_dec : EqDecision PendingEntry.
Proof. solve_decision. Defined.

Record ApprovalBroker : Type := mkApprovalBroker {
  pending : gmap ThreadKey (list PendingEntry);
  channels : list Channel;
}.

(** [oneshot::Sender::send], which takes the sender: whether the receiver was
    still there. *)
Definition send (tx : nat) (approved : bool) (cs : list Channel) : bool * list Channel :=
  match cs !! tx with
  | Some Open => (true, <[tx := Sent approved]> cs)
  | _ => (false, cs)
  end.

Definition close (to : Channel) (c : Channel) : Channel :=
  match c with Open => to | _ => c end.
Definition drop_sender (tx : nat) (cs : list Channel) : list Channel := alter (close SenderGone) tx cs.
Definition drop_receiver (tx : nat) (cs : list Channel) : list Channel :=
  alter (close ReceiverGone) tx cs.

(** ** Operations *)

Module ApprovalBroker.
Implicit Types self : ApprovalBroker.

Definition new : ApprovalBroker := {| pending := ∅; channels := [] |}.

(** [HashMap::get_mut] with the empty queue removed afterwards. *)
Definition put_queue (thread : ThreadKey) (queue : list PendingEntry)
    (m : gmap ThreadKey (list PendingEntry)) : gmap ThreadKey (list PendingEntry) :=
  match queue with [] => delete thread m | _ => <[thread := queue]> m end.

Definition register self (thread : ThreadKey) (request_id : string) (hard_floor : bool) (now : Z)
    : nat * ApprovalBroker :=
  let rx := length (channels self) in
  let entry := mkPendingEntry request_id hard_floor now rx in
  (rx, {| pending := <[thread := default [] (pending self !! thread) ++ [entry]]> (pending self);
          channels := channels self ++ [Open] |}).

Definition resolve_by_id self (thread : ThreadKey) (id : string) (approved : bool)
    : bool * ApprovalBroker :=
  match pending self !! thread with
  | None => (false, self)
  | Some queue =>
    match list_find (λ e, request_id e = id) queue with
    | None => (false, self)
    | Some (idx, entry) =>
      let '(ok, cs) := send (tx entry) approved (channels self) in
      (ok, {| pending := put_queue thread (delete idx queue) (pending self); channels := cs |})
    end
  end.

Definition resolve_fifo self (thread : ThreadKey) (approved : bool) : bool * ApprovalBroker :=
  match pending self !! thread with
  | None => (false, self)
  | Some [] => (false, self)
  | Some (entry :: queue) =>
    let '(ok, cs) := send (tx entry) approved (channels self) in
    (ok, {| pending := put_queue thread queue (pending self); channels := cs |})
  end.

(** The loop of [resolve_all]: what stays in the queue, the number drained and
    the channels. *)
Fixpoint drain (queue : list PendingEntry) (approved : bool) (cs : list Channel)
    : list PendingEntry * nat * list Channel :=
  match queue with
  | [] => ([], 0%nat, cs)
  | entry :: queue' =>
    if hard_floor entry then
      let '(kept, n, cs') := drain queue' approved cs in (entry :: kept, n, cs')
    else
      let '(kept, n, cs') := drain queue' approved (snd (send (tx entry) approved cs)) in
      (kept, S n, cs')
  end.

Definition resolve_all self (thread : ThreadKey) (approved : bool) : nat * ApprovalBroker :=
  match pending self !! thread with
  | None => (0%nat, self)
  | Some queue =>
    let '(kept, drained, cs) := drain queue approved (channels self) in
    (drained, {| pending := put_queue thread kept (pending self); channels := cs |})
  end.

Definition pending_count self (thread : ThreadKey) : nat :=
  match pending self !! thread with Some q => length q | None => 0 end.

Definition has_pending self (thread : ThreadKey) : bool := Nat.ltb 0 (pending_count self thread).

(** [now.duration_since(entry.created_at) > max_age], which is zero for an
    instant in the future. *)
Definition aged_out (max_age now : Z) (e : PendingEntry) : bool :=
  max_age <? sat_sub now (created_at e).

Definition sweep_expired self (max_age now : Z) : nat * ApprovalBroker :=
  let swept := mjoin (map (λ kq, filter (λ e, aged_out max_age now e = true) (snd kq))
                          (map_to_list (pending self))) in
  let retain queue :=
    match filter (λ e, aged_out max_age now e = false) queue with [] => None | q => Some q end in
  (length swept,
   {| pending := omap retain (pending self);
      channels := foldr (λ e, drop_sender (tx e)) (channels self) swept |}).
End ApprovalBroker.

(** ** Histories *)

(** [Abandoned] is a handler that stops waiting: its time is up, or its task is
    cancelled. *)
Inductive Event : Type :=
| Registered (thread : ThreadKey) (id : string) (hard_floor : bool) (now : Z)
| ResolvedById (thread : ThreadKey) (id : string) (approved : bool)
| ResolvedFifo (thread : ThreadKey) (approved : bool)
| ResolvedAll (thread : ThreadKey) (approved : bool)
| Swept (max_age now : Z)
| Abandoned (tx : nat).

Definition step (self : ApprovalBroker) (e : Event) : ApprovalBroker :=
  match e with
  | Registered thread id hf now => snd (ApprovalBroker.register self thread id hf now)
  | ResolvedById thread id approved => snd (ApprovalBroker.resolve_by_id self thread id approved)
  | ResolvedFifo thread approved => snd (ApprovalBroker.resolve_fifo self thread approved)
  | ResolvedAll thread approved => snd (ApprovalBroker.resolve_all self thread approved)
  | Swept max_age now => snd (ApprovalBroker.sweep_expired self max_age now)
  | Abandoned tx =>
    {| pending := pending self; channels := drop_receiver tx (channels self) |}
  end.

Definition run (self : ApprovalBroker) (es : list Event) : ApprovalBroker := fold_left step es self.

(** [e] waits in the queue of [thread]. *)
Definition waits (self : ApprovalBroker) (thread : ThreadKey) (e : PendingEntry) : Prop :=
  ∃ queue, pending self !! thread = Some queue ∧ e ∈ queue.

(** What every reachable broker satisfies. *)
Record wf (self : ApprovalBroker) : Prop := mkWf {
  wf_nonempty : ∀ thread, pending self !! thread ≠ Some [];
  wf_undecided : ∀ thread e, waits self thread e →
    channels self !! tx e = Some Open ∨ channels self !! tx e = Some ReceiverGone;
  wf_unique : ∀ t1 t2 e1 e2, waits self t1 e1 → waits self t2 e2 → tx e1 = tx e2 →
    t1 = t2 ∧ e1 = e2;
  wf_order : ∀ thread queue, pending self !! thread = Some queue →
    StronglySorted lt (map tx queue);
  wf_reachable : ∀ i, channels self !! i = Some Open → ∃ thread e, waits self thread e ∧ tx e = i;
}.

(** ** Channels *)

Lemma send_eq tx b cs :
  send tx b cs = (bool_decide (cs !! tx = Some Open), alter (close (Sent b)) tx cs).
Proof.
  unfold send. destruct (cs !! tx) as [c|] eqn:E.
  - assert (∀ c', close (Sent b) c = c' → alter (close (Sent b)) tx cs = <[tx:=c']> cs) as Ha.
    { intros c' <-. apply list_eq. intros i. rewrite list_lookup_alter.
      destruct (decide (tx = i)) as [<-|Hne]; [|rewrite list_lookup_insert_ne; done].
      rewrite list_lookup_insert_eq by (by eapply lookup_lt_Some). by rewrite E. }
    rewrite (Ha _ eq_refl). destruct c; cbn [close]; [done|by rewrite list_insert_id..].
  - f_equal. apply list_eq. intros i. rewrite list_lookup_alter.
    destruct (decide (tx = i)) as [<-|]; [by rewrite E|done].
Qed.

(** The channels of the entries [gone] that were open became [d]. *)
Definition settles (gone : list PendingEntry) (d : Channel) (cs cs' : list Channel) : Prop :=
  ∀ i, cs' !! i = if decide (i ∈ map tx gone) then close d <$> cs !! i else cs !! i.

Lemma settles_nil d cs : settles [] d cs cs.
Proof. intros i. by rewrite decide_False by (by intros ?%elem_of_nil). Qed.

Lemma settles_cons e gone d cs cs' :
  settles gone d (alter (close d) (tx e) cs) cs' → settles (e :: gone) d cs cs'.
Proof.
  intros H i. rewrite H, list_lookup_alter. cbn [map].
  destruct (decide (tx e = i)) as [<-|Hne].
  - rewrite (decide_True (P := tx e ∈ tx e :: _)) by left.
    destruct (decide _); [|done]. destruct (cs !! tx e) as [c|]; [|done]. by destruct c, d.
  - destruct (decide (i ∈ map tx gone)) as [Hi|Hi].
    + by rewrite decide_True by (by right).
    + rewrite decide_False; [done|]. by intros [->|?]%elem_of_cons.
Qed.

Lemma settles_cons_r e gone d cs cs' :
  settles gone d cs cs' → settles (e :: gone) d cs (alter (close d) (tx e) cs').
Proof.
  intros H i. rewrite list_lookup_alter, !H. cbn [map].
  destruct (decide (tx e = i)) as [<-|Hne].
  - rewrite (decide_True (P := tx e ∈ tx e :: _)) by left.
    destruct (decide _); [|done]. destruct (cs !! tx e) as [c|]; [|done]. by destruct c, d.
  - destruct (decide (i ∈ map tx gone)) as [Hi|Hi].
    + by rewrite decide_True by (by right).
    + rewrite decide_False; [done|]. by intros [->|?]%elem_of_cons.
Qed.

(** ** Taking entries out *)

(** [self'] is [self] without the waiting entries [gone], whose channels were
    settled with [d]; every queue keeps its order. *)
Record takes (self self' : ApprovalBroker) (gone : list PendingEntry) (d : Channel) : Prop :=
  mkTakes {
  takes_queue : ∀ thread queue', pending self' !! thread = Some queue' →
    queue' ≠ [] ∧ ∃ queue, pending self !! thread = Some queue ∧ queue' `sublist_of` queue;
  takes_waits : ∀ thread e, waits self thread e → (waits self' thread e ↔ e ∉ gone);
  takes_gone : ∀ e, e ∈ gone → ∃ thread, waits self thread e;
  takes_settles : settles gone d (channels self) (channels self');
}.

Lemma takes_waits_back self self' gone d thread e :
  takes self self' gone d → waits self' thread e → waits self thread e.
Proof.
  intros Ht (q' & Hq' & He). destruct (takes_queue _ _ _ _ Ht _ _ Hq') as (_ & q & Hq & Hsub).
  exists q. split; [done|]. by eapply elem_of_sublist.
Qed.

Lemma StronglySorted_sublist {A} (R : relation A) (l1 l2 : list A) :
  l1 `sublist_of` l2 → StronglySorted R l2 → StronglySorted R l1.
Proof.
  induction 1 as [|x l1 l2 Hs IH|x l1 l2 Hs IH]; intros H; [constructor| |].
  - apply StronglySorted_inv in H as [H Hx]. constructor; [auto|].
    rewrite Forall_forall in Hx |- *. intros y Hy. apply Hx. by eapply elem_of_sublist.
  - apply StronglySorted_inv in H as [H _]. auto.
Qed.

Lemma sublist_map {A B} (f : A → B) l1 l2 : l1 `sublist_of` l2 → map f l1 `sublist_of` map f l2.
Proof. induction 1; cbn; by constructor. Qed.

Lemma takes_wf self self' gone d :
  d ≠ Open → wf self → takes self self' gone d → wf self'.
Proof.
  intros Hd Hwf Ht. split.
  - intros thread H. by destruct (takes_queue _ _ _ _ Ht _ _ H).
  - intros thread e He. assert (H0 := takes_waits_back _ _ _ _ _ _ Ht He).
    rewrite (takes_settles _ _ _ _ Ht).
    destruct (decide (tx e ∈ map tx gone)) as [Hin|]; [|by eapply wf_undecided].
    exfalso. apply list_elem_of_fmap in Hin as (e' & Hee & Hin).
    destruct (takes_gone _ _ _ _ Ht _ Hin) as [t' H'].
    destruct (wf_unique _ Hwf _ _ _ _ H0 H' Hee) as [_ <-].
    by apply (takes_waits _ _ _ _ Ht _ _ H0) in He.
  - intros t1 t2 e1 e2 H1 H2. eapply wf_unique; [done|by eapply takes_waits_back..].
  - intros thread q' Hq'. destruct (takes_queue _ _ _ _ Ht _ _ Hq') as (_ & q & Hq & Hs).
    eapply StronglySorted_sublist; [by apply sublist_map|by eapply wf_order].
  - intros i Hi. rewrite (takes_settles _ _ _ _ Ht) in Hi.
    destruct (decide (i ∈ map tx gone)) as [|Hn].
    + exfalso. destruct (channels self !! i) as [[]|]; simplify_eq/=; by destruct d.
    + destruct (wf_reachable _ Hwf _ Hi) as (t & e & He & <-). exists t, e. split; [|done].
      apply (takes_waits _ _ _ _ Ht _ _ He). intros Hin. apply Hn. by apply list_elem_of_fmap_2.
Qed.

Lemma put_queue_lookup thread queue m t :
  ApprovalBroker.put_queue thread queue m !! t =
    if decide (thread = t) then match queue with [] => None | _ => Some queue end else m !! t.
Proof.
  destruct queue as [|e q]; cbn [ApprovalBroker.put_queue].
  - destruct (decide (thread = t)) as [<-|]; [apply lookup_delete_eq|by apply lookup_delete_ne].
  - destruct (decide (thread = t)) as [<-|]; [apply lookup_insert_eq|by apply lookup_insert_ne].
Qed.

(** One queue is replaced by a part of it. *)
Lemma takes_from_queue self thread queue kept gone d cs' :
  wf self → pending self !! thread = Some queue → kept `sublist_of` queue →
  (∀ e, e ∈ queue → (e ∈ kept ↔ e ∉ gone)) → (∀ e, e ∈ gone → e ∈ queue) →
  settles gone d (channels self) cs' →
  takes self {| pending := ApprovalBroker.put_queue thread kept (pending self); channels := cs' |}
    gone d.
Proof.
  intros Hwf Hq Hsub Hk Hg Hs. split; [| | |done]; cbn [pending].
  - intros t q'. rewrite put_queue_lookup. destruct (decide (thread = t)) as [<-|].
    + destruct kept as [|k ks]; [done|]. intros [= <-]. split; [done|]. eauto.
    + intros H. split; [|by exists q']. intros ->. by eapply wf_nonempty.
  - intros t e He. unfold waits at 1. cbn [pending]. setoid_rewrite put_queue_lookup.
    destruct (decide (thread = t)) as [<-|Hne].
    + destruct He as (q & Hq' & He). rewrite Hq in Hq'. injection Hq' as <-.
      rewrite <- (Hk e He). destruct kept as [|k ks].
      * split; [by intros (? & ? & _)|by intros ?%elem_of_nil].
      * split; [by intros (? & [= <-] & ?)|]. intros Hin. by eexists.
    + split; [|intros _; exact He]. intros _ Hin. apply Hne.
      eapply wf_unique; [done|exists queue; split; [done|by apply Hg]|exact He|done].
  - intros e He. exists thread, queue. auto.
Qed.

Lemma queue_nodup self thread l1 e l2 :
  wf self → pending self !! thread = Some (l1 ++ e :: l2) → e ∉ l1 ++ l2.
Proof.
  intros Hwf Hq Hin. apply wf_order in Hq; [|done]. rewrite map_app in Hq. cbn [map] in Hq.
  apply elem_of_app in Hin as [Hin|Hin]; apply (list_elem_of_fmap_2 tx) in Hin.
  - assert (tx e < tx e)%nat; [|lia].
    eapply StronglySorted_app_1_elem_of; [exact Hq|exact Hin|by left].
  - apply StronglySorted_app_1_r, StronglySorted_inv in Hq as [_ Hq].
    rewrite Forall_forall in Hq. specialize (Hq _ Hin). lia.
Qed.

Lemma take_one self thread l1 e l2 b :
  wf self → pending self !! thread = Some (l1 ++ e :: l2) →
  takes self {| pending := ApprovalBroker.put_queue thread (l1 ++ l2) (pending self);
                channels := alter (close (Sent b)) (tx e) (channels self) |} [e] (Sent b).
Proof.
  intros Hwf Hq. pose proof (queue_nodup _ _ _ _ _ Hwf Hq) as Hn.
  eapply takes_from_queue; [done|done|..].
  - apply sublist_app; [done|]. by apply sublist_cons.
  - intros x Hx. rewrite list_elem_of_singleton. split; [by intros ? ->|]. set_solver.
  - intros x ->%list_elem_of_singleton. set_solver.
  - apply settles_cons, settles_nil.
Qed.

(** ** What each operation takes out *)

Lemma resolve_by_id_takes self thread id b :
  wf self →
  (∃ l1 e l2, pending self !! thread = Some (l1 ++ e :: l2) ∧ request_id e = id ∧
     (∀ x, x ∈ l1 → request_id x ≠ id) ∧
     let '(ok, self') := ApprovalBroker.resolve_by_id self thread id b in
     ok = bool_decide (channels self !! tx e = Some Open) ∧ takes self self' [e] (Sent b)) ∨
  ((∀ e, waits self thread e → request_id e ≠ id) ∧
   ApprovalBroker.resolve_by_id self thread id b = (false, self)).
Proof.
  intros Hwf. unfold ApprovalBroker.resolve_by_id.
  destruct (pending self !! thread) as [q|] eqn:Hq.
  2: { right. split; [|done]. intros e (q & Hq' & _). congruence. }
  destruct (list_find _ q) as [[i e]|] eqn:Hf.
  - apply list_find_Some in Hf as (Hi & Hid & Hbefore). left.
    rewrite send_eq, delete_take_drop. pose proof (take_drop_middle _ _ _ Hi) as Hmid.
    exists (take i q), e, (drop (S i) q). rewrite Hmid. split_and!; [done|done| |done|].
    + intros x (j & Hj)%list_elem_of_lookup_1. apply lookup_take_Some in Hj as [Hj Hlt]. eauto.
    + apply take_one; [done|]. by rewrite Hmid.
  - right. split; [|done]. intros e (q' & Hq' & He) Hid. rewrite Hq in Hq'. injection Hq' as <-.
    rewrite list_find_None in Hf. rewrite Forall_forall in Hf. by apply (Hf e).
Qed.

Lemma resolve_fifo_takes self thread b :
  wf self →
  (∃ e l, pending self !! thread = Some (e :: l) ∧
     let '(ok, self') := ApprovalBroker.resolve_fifo self thread b in
     ok = bool_decide (channels self !! tx e = Some Open) ∧ takes self self' [e] (Sent b)) ∨
  (pending self !! thread = None ∧ ApprovalBroker.resolve_fifo self thread b = (false, self)).
Proof.
  intros Hwf. unfold ApprovalBroker.resolve_fifo.
  destruct (pending self !! thread) as [[|e q]|] eqn:Hq; [|left|by right].
  - by apply wf_nonempty in Hq.
  - exists e, q. rewrite send_eq. split_and!; [done|done|]. by apply (take_one self thread []).
Qed.

Lemma drain_eq queue b cs :
  let gone := filter (λ e, hard_floor e = false) queue in
  let '(kept, n, cs') := ApprovalBroker.drain queue b cs in
  kept = filter (λ e, hard_floor e = true) queue ∧ n = length gone ∧ settles gone (Sent b) cs cs'.
Proof.
  revert cs. induction queue as [|e q IH]; intros cs; cbn [ApprovalBroker.drain].
  { split_and!; [done..|apply settles_nil]. }
  rewrite !filter_cons. destruct (hard_floor e) eqn:Eh.
  - specialize (IH cs). destruct (ApprovalBroker.drain q b cs) as [[kept n] cs'].
    destruct IH as (-> & -> & Hs). rewrite decide_True, decide_False by done. done.
  - rewrite send_eq. cbn [snd]. specialize (IH (alter (close (Sent b)) (tx e) cs)).
    destruct (ApprovalBroker.drain q b _) as [[kept n] cs'].
    destruct IH as (-> & -> & Hs). rewrite decide_False, decide_True by done.
    split_and!; [done..|]. by apply settles_cons.
Qed.

Lemma resolve_all_takes self thread b :
  wf self →
  let queue := default [] (pending self !! thread) in
  let gone := filter (λ e, hard_floor e = false) queue in
  let '(n, self') := ApprovalBroker.resolve_all self thread b in
  n = length gone ∧ takes self self' gone (Sent b) ∧
  default [] (pending self' !! thread) = filter (λ e, hard_floor e = true) queue.
Proof.
  intros Hwf. cbv zeta. unfold ApprovalBroker.resolve_all.
  destruct (pending self !! thread) as [q|] eqn:Hq; cbn [default].
  2: { rewrite Hq. split_and!; [done| |done]. split.
       - intros t q Hq'. split; [|by exists q]. intros ->. by eapply wf_nonempty.
       - intros t e He. split; [by intros _ ?%elem_of_nil|done].
       - by intros e ?%elem_of_nil.
       - apply settles_nil. }
  pose proof (drain_eq q b (channels self)) as Hd. cbv zeta in Hd.
  destruct (ApprovalBroker.drain q b (channels self)) as [[kept n] cs'].
  destruct Hd as (-> & -> & Hs). split_and!; [done| |].
  - eapply takes_from_queue; [done|done|apply sublist_filter| | |done].
    + intros e He. rewrite !list_elem_of_filter. destruct (hard_floor e); naive_solver.
    + intros e. rewrite list_elem_of_filter. naive_solver.
  - cbn [pending]. rewrite put_queue_lookup, decide_True by done. cbn [default id].
    by destruct (filter (λ e, hard_floor e = true) q).
Qed.

Lemma foldr_drop_settles gone cs :
  settles gone SenderGone cs (foldr (λ e, drop_sender (tx e)) cs gone).
Proof.
  induction gone as [|e gone IH]; [apply settles_nil|]. by apply settles_cons_r.
Qed.

Lemma sweep_takes self max_age now :
  wf self →
  let aged e := ApprovalBroker.aged_out max_age now e = true in
  ∃ gone, (∀ e, e ∈ gone ↔ aged e ∧ ∃ thread, waits self thread e) ∧
    let '(n, self') := ApprovalBroker.sweep_expired self max_age now in
    n = length gone ∧ takes self self' gone SenderGone.
Proof.
  intros Hwf. cbv zeta. unfold ApprovalBroker.sweep_expired.
  set (gone := mjoin (map _ (map_to_list (pending self)))). exists gone.
  assert (∀ e, e ∈ gone ↔ ApprovalBroker.aged_out max_age now e = true ∧
                          ∃ thread, waits self thread e) as Hgone.
  { intros e. unfold gone. rewrite list_elem_of_join. split.
    - intros (l & He & Hl). apply list_elem_of_fmap in Hl as ([t q] & -> & Hl).
      apply elem_of_map_to_list in Hl. apply list_elem_of_filter in He as [? ?].
      split; [done|]. by exists t, q.
    - intros (Ha & t & q & Hq & He). exists (filter (λ e, ApprovalBroker.aged_out max_age now e = true) q).
      split; [by apply list_elem_of_filter|]. apply list_elem_of_fmap. exists (t, q).
      split; [done|]. by apply elem_of_map_to_list. }
  split; [done|]. split; [done|].
  set (fresh := filter (λ e, ApprovalBroker.aged_out max_age now e = false)).
  assert (∀ t q', omap (λ queue, match fresh queue with [] => None | q => Some q end)
                    (pending self) !! t = Some q' →
                  q' ≠ [] ∧ ∃ q, pending self !! t = Some q ∧ q' = fresh q) as Hq.
  { intros t q' H. apply lookup_omap_Some in H as (q & H & Hq).
    destruct (fresh q) eqn:E; [done|]. injection H as <-. split; [done|]. by exists q. }
  split; cbn [pending channels].
  - intros t q' (Hne & q & Hp & ->)%Hq. split; [done|]. exists q. split; [done|].
    apply sublist_filter.
  - intros t e He. rewrite Hgone. split.
    + intros (q' & (_ & q & _ & ->)%Hq & Hin) [Ha _].
      apply list_elem_of_filter in Hin as [Hin _]. congruence.
    + intros Hn. destruct He as (q & Hp & He).
      assert (e ∈ fresh q) as Hf.
      { apply list_elem_of_filter. split; [|done].
        destruct (ApprovalBroker.aged_out max_age now e) eqn:Ea; [|done].
        destruct Hn. split; [done|]. by exists t, q. }
      exists (fresh q). split; [|done]. cbn [pending]. apply lookup_omap_Some. exists q.
      split; [|done]. destruct (fresh q); [by apply elem_of_nil in Hf|done].
  - intros e (_ & Ht)%Hgone. done.
  - apply foldr_drop_settles.
Qed.

(** ** Reachable brokers *)

Lemma wf_new : wf ApprovalBroker.new.
Proof.
  assert (∀ t e, ¬ waits ApprovalBroker.new t e) as Hn.
  { intros t e (q & Hq & _). cbn [pending ApprovalBroker.new] in Hq. by rewrite lookup_empty in Hq. }
  split; cbn [pending channels ApprovalBroker.new]; try (intros; naive_solver).
Qed.

Lemma register_waits self thread id hf now t e :
  let self' := snd (ApprovalBroker.register self thread id hf now) in
  waits self' t e ↔ waits self t e ∨
    t = thread ∧ e = mkPendingEntry id hf now (length (channels self)).
Proof.
  cbv zeta. unfold waits. cbn [ApprovalBroker.register snd pending]. split.
  - intros (q & Hq & He). destruct (decide (t = thread)) as [->|Hne].
    + rewrite lookup_insert_eq in Hq. injection Hq as <-.
      apply elem_of_app in He as [He|He%list_elem_of_singleton]; [|by right].
      left. destruct (pending self !! thread) as [q|]; [by exists q|by apply elem_of_nil in He].
    + rewrite lookup_insert_ne in Hq by done. left. by exists q.
  - intros [(q & Hq & He)|[-> ->]].
    + destruct (decide (t = thread)) as [->|Hne].
      * rewrite lookup_insert_eq. eexists. split; [done|]. rewrite Hq. set_solver.
      * rewrite lookup_insert_ne by done. by exists q.
    + rewrite lookup_insert_eq. eexists. split; [done|]. set_solver.
Qed.

Lemma waits_tx_bound self t e : wf self → waits self t e → (tx e < length (channels self))%nat.
Proof.
  intros Hwf He. apply (wf_undecided _ Hwf) in He. destruct He; by eapply lookup_lt_Some.
Qed.

Lemma wf_register self thread id hf now :
  wf self → wf (snd (ApprovalBroker.register self thread id hf now)).
Proof.
  intros Hwf. pose proof (register_waits self thread id hf now) as Hw. cbv zeta in Hw.
  split.
  - intros t. cbn [ApprovalBroker.register snd pending].
    destruct (decide (t = thread)) as [->|Hne].
    + rewrite lookup_insert_eq. intros [= H]. by apply app_nil in H as [_ ?].
    + rewrite lookup_insert_ne by done. by apply wf_nonempty.
  - intros t e He. cbn [ApprovalBroker.register snd channels].
    apply Hw in He as [He|[-> ->]]; cbn [tx].
    + rewrite lookup_app_l by eauto using waits_tx_bound. by eapply wf_undecided.
    + left. apply list_lookup_middle. done.
  - intros t1 t2 e1 e2 H1 H2 Htx. apply Hw in H1 as [H1|[-> ->]], H2 as [H2|[-> ->]].
    + by eapply wf_unique.
    + apply waits_tx_bound in H1; [|done]. simpl in Htx. lia.
    + apply waits_tx_bound in H2; [|done]. simpl in Htx. lia.
    + done.
  - intros t q. cbn [ApprovalBroker.register snd pending].
    destruct (decide (t = thread)) as [->|Hne].
    + rewrite lookup_insert_eq. intros [= <-]. rewrite map_app. apply StronglySorted_app_2.
      * intros i j (e & -> & He)%list_elem_of_fmap ->%list_elem_of_singleton. cbn [tx].
        apply (waits_tx_bound _ thread); [done|].
        destruct (pending self !! thread) as [q|] eqn:Hq; [by exists q|by apply elem_of_nil in He].
      * destruct (pending self !! thread) as [q|] eqn:Hq; [by eapply wf_order|constructor].
      * cbn. repeat constructor.
    + rewrite lookup_insert_ne by done. by apply wf_order.
  - intros i. cbn [ApprovalBroker.register snd channels].
    intros [Hi|[Hge Hi]]%lookup_app_Some.
    + destruct (wf_reachable _ Hwf _ Hi) as (t & e & He & <-). exists t, e.
      split; [|done]. apply Hw. by left.
    + apply list_lookup_singleton_Some in Hi as [Hi _]. exists thread.
      eexists. split; [apply Hw; by right|]. cbn [tx]. lia.
Qed.

Lemma wf_abandoned self i :
  wf self → wf {| pending := pending self; channels := drop_receiver i (channels self) |}.
Proof.
  intros Hwf. split; cbn [pending channels]; [apply Hwf| |apply Hwf|apply Hwf|].
  - intros t e He. unfold drop_receiver. rewrite list_lookup_alter.
    pose proof (wf_undecided _ Hwf _ _ He) as [H|H];
      (destruct (decide (i = tx e)) as [->|]; [rewrite H; auto|auto]).
  - intros j. unfold drop_receiver. rewrite list_lookup_alter.
    destruct (decide (i = j)) as [->|]; [|apply Hwf].
    by destruct (channels self !! j) as [[]|].
Qed.

(** How one event relates two brokers. *)
Lemma step_takes self ev :
  wf self →
  (∃ thread id hf now, ev = Registered thread id hf now) ∨ (∃ i, ev = Abandoned i) ∨
  ∃ gone d, d ≠ Open ∧ takes self (step self ev) gone d ∧
    ∀ b, d = Sent b → ∀ e, e ∈ gone → ∃ thread, waits self thread e ∧
      (ev = ResolvedById thread (request_id e) b ∨
       (ev = ResolvedFifo thread b ∧ ∃ q, pending self !! thread = Some (e :: q)) ∨
       (ev = ResolvedAll thread b ∧ hard_floor e = false)).
Proof.
  assert (∀ d, wf self → takes self self [] d) as Hnop.
  { intros d Hwf. split; [|..|apply settles_nil].
    - intros t q Hq. split; [intros ->; by eapply wf_nonempty|by exists q].
    - intros t e He. split; [by intros _ ?%elem_of_nil|done].
    - by intros e ?%elem_of_nil. }
  intros Hwf. destruct ev as [t id hf now|t id b|t b|t b|max_age now|i]; cbn [step].
  - left. by exists t, id, hf, now.
  - right; right. destruct (resolve_by_id_takes self t id b Hwf)
      as [(l1 & e & l2 & Hq & Hid & _ & H)|[_ ->]].
    + destruct (ApprovalBroker.resolve_by_id self t id b) as [ok self'].
      destruct H as [_ Ht]. exists [e], (Sent b). split_and!; [done|done|].
      intros b' [= <-] x ->%list_elem_of_singleton. exists t. split; [|left; by rewrite Hid].
      exists (l1 ++ e :: l2). split; [done|set_solver].
    + exists [], (Sent b). split_and!; [done|by apply Hnop|]. by intros ? _ ? ?%elem_of_nil.
  - right; right. destruct (resolve_fifo_takes self t b Hwf) as [(e & q & Hq & H)|[_ ->]].
    + destruct (ApprovalBroker.resolve_fifo self t b) as [ok self'].
      destruct H as [_ Ht]. exists [e], (Sent b). split_and!; [done|done|].
      intros b' [= <-] x ->%list_elem_of_singleton. exists t. split; [|right; left; eauto].
      exists (e :: q). split; [done|set_solver].
    + exists [], (Sent b). split_and!; [done|by apply Hnop|]. by intros ? _ ? ?%elem_of_nil.
  - right; right. pose proof (resolve_all_takes self t b Hwf) as H. cbv zeta in H.
    destruct (ApprovalBroker.resolve_all self t b) as [n self']. destruct H as (_ & Ht & _).
    eexists _, (Sent b). split_and!; [done|exact Ht|]. intros b' [= <-] e.
    rewrite list_elem_of_filter. intros [Hh He]. exists t. split; [|right; by right].
    destruct (pending self !! t) as [q|] eqn:Hq; [by exists q|by apply elem_of_nil in He].
  - right; right. destruct (sweep_takes self max_age now Hwf) as (gone & _ & H).
    destruct (ApprovalBroker.sweep_expired self max_age now) as [n self'].
    destruct H as [_ Ht]. by exists gone, SenderGone.
  - right; left. by exists i.
Qed.

Lemma wf_step self ev : wf self → wf (step self ev).
Proof.
  intros Hwf. destruct (step_takes self ev Hwf)
    as [(t & id & hf & now & ->)|[[i ->]|(gone & d & Hd & Ht & _)]].
  - by apply wf_register.
  - by apply wf_abandoned.
  - by eapply takes_wf.
Qed.

Lemma wf_run self es : wf self → wf (run self es).
Proof. revert self. induction es as [|e es IH]; intros self H; [done|]. by apply IH, wf_step. Qed.

Lemma wf_reached es : wf (run ApprovalBroker.new es).
Proof. apply wf_run, wf_new. Qed.

Lemma close_Sent d c b : d ≠ Open → close d c = Sent b → c = Sent b ∨ (c = Open ∧ d = Sent b).
Proof. destruct c; cbn; auto. Qed.

(** A channel that is settled keeps its state. *)
Lemma step_settled self ev i c :
  wf self → channels self !! i = Some c → c ≠ Open → channels (step self ev) !! i = Some c.
Proof.
  intros Hwf Hi Hc. assert (∀ d, close d c = c) as Hclose by by destruct c.
  destruct (step_takes self ev Hwf) as [(t & id & hf & now & ->)|[[j ->]|(gone & d & _ & Ht & _)]].
  - cbn. by apply lookup_app_l_Some.
  - cbn. unfold drop_receiver. rewrite list_lookup_alter.
    destruct (decide (j = i)) as [->|]; rewrite Hi; [|done]. cbn. by rewrite Hclose.
  - rewrite (takes_settles _ _ _ _ Ht), Hi. cbn. rewrite Hclose. by case_decide.
Qed.

Lemma run_settled self es i c :
  wf self → channels self !! i = Some c → c ≠ Open → channels (run self es) !! i = Some c.
Proof.
  revert self. induction es as [|e es IH]; intros self Hwf Hi Hc; [done|].
  apply IH; [by apply wf_step| |done]. by apply step_settled.
Qed.

(** The event [ev] is an answer of a user to the waiting request [e]. *)
Definition answers (self : ApprovalBroker) (ev : Event) (thread : ThreadKey) (e : PendingEntry)
    (b : bool) : Prop :=
  ev = ResolvedById thread (request_id e) b ∨
  (ev = ResolvedFifo thread b ∧ ∃ q, pending self !! thread = Some (e :: q)) ∨
  (ev = ResolvedAll thread b ∧ hard_floor e = false).

(** A decision comes from an answer to that very request. *)
Lemma step_sends self ev i b :
  wf self → channels (step self ev) !! i = Some (Sent b) →
  channels self !! i = Some (Sent b) ∨
  channels self !! i = Some Open ∧
    ∃ thread e, waits self thread e ∧ tx e = i ∧ answers self ev thread e b.
Proof.
  intros Hwf Hi.
  destruct (step_takes self ev Hwf) as [(t & id & hf & now & ->)|[[j ->]|(gone & d & Hd & Ht & Ha)]].
  - cbn in Hi. apply lookup_app_Some in Hi as [?|[_ Hi]]; [by left|].
    by apply list_lookup_singleton_Some in Hi as [_ ?].
  - cbn in Hi. unfold drop_receiver in Hi. rewrite list_lookup_alter in Hi.
    destruct (decide (j = i)) as [->|]; [|by left].
    destruct (channels self !! i) as [[]|]; naive_solver.
  - rewrite (takes_settles _ _ _ _ Ht) in Hi.
    destruct (decide (i ∈ map tx gone)) as [Hin|]; [|by left].
    destruct (channels self !! i) as [c|] eqn:Hc; [|done].
    injection Hi as Hi. apply close_Sent in Hi as [->|[-> ->]]; [by left| |done].
    right. split; [done|]. apply list_elem_of_fmap in Hin as (e & -> & He).
    destruct (Ha b eq_refl e He) as (t & Hw & Hans). by exists t, e.
Qed.

(** ** What the broker promises *)

(** After any history of registrations, answers, sweeps and handlers that
    stop waiting: no queue is empty; a queue holds its requests in the order
    they were registered; every handler that still waits has its request in
    exactly one queue, and nothing that waits was decided; a handler gets at
    most one decision, which no later event changes. *)
Theorem broker_histories es :
  let self := run ApprovalBroker.new es in
  (∀ thread, pending self !! thread ≠ Some []) ∧
  (∀ thread queue, pending self !! thread = Some queue → StronglySorted lt (map tx queue)) ∧
  (∀ i, channels self !! i = Some Open → ∃ thread e, waits self thread e ∧ tx e = i ∧
     ∀ thread' e', waits self thread' e' → tx e' = i → thread' = thread ∧ e' = e) ∧
  (∀ thread e b, waits self thread e → channels self !! tx e ≠ Some (Sent b)) ∧
  (∀ es' i b, channels self !! i = Some (Sent b) → channels (run self es') !! i = Some (Sent b)).
Proof.
  cbv zeta. pose proof (wf_reached es) as Hwf. split_and!.
  - apply Hwf.
  - apply Hwf.
  - intros i Hi. destruct (wf_reachable _ Hwf _ Hi) as (t & e & He & <-). exists t, e.
    split_and!; [done..|]. intros t' e' He' Htx. by eapply wf_unique.
  - intros t e b He Hb. destruct (wf_undecided _ Hwf _ _ He); congruence.
  - intros es' i b Hi. by apply run_settled.
Qed.

(** C12: Every decision a handler receives was given by an answer to its own
    request, while it was waiting: an answer that names the request, an answer
    to the oldest request of its thread when it was the oldest, or an answer to
    all requests of its thread, and never the last for a hard floor request. *)
Theorem broker_decisions es i b :
  channels (run ApprovalBroker.new es) !! i = Some (Sent b) →
  ∃ es1 ev es2 thread e, es = es1 ++ ev :: es2 ∧
    let before := run ApprovalBroker.new es1 in
    channels before !! i = Some Open ∧ waits before thread e ∧ tx e = i ∧
    answers before ev thread e b ∧
    (hard_floor e = true → ev ≠ ResolvedAll thread b).
Proof.
  induction es as [|ev es IH] using rev_ind; [done|].
  unfold run at 1. rewrite fold_left_app. cbn [fold_left]. intros Hi.
  destruct (step_sends _ _ _ _ (wf_reached es) Hi) as [Hi'|(Ho & t & e & He & Htx & Ha)].
  - destruct (IH Hi') as (es1 & ev1 & es2 & t & e & -> & H).
    exists es1, ev1, (es2 ++ [ev]), t, e. by rewrite <- app_assoc.
  - exists es, ev, [], t, e. split; [done|]. split_and!; [done..|].
    intros Hh ->. destruct Ha as [?|[[? _]|[_ ?]]]; congruence.
Qed.

Lemma broker_decisions_witness :
  let k := ThreadKey.new "alice" "zc" in
  let es := [Registered k "a" false 0; Registered k "b" true 1;
             ResolvedAll k true; ResolvedById k "b" false] in
  ∃ es1 ev es2 thread e, es = es1 ++ ev :: es2 ∧
    let before := run ApprovalBroker.new es1 in
    channels before !! 1%nat = Some Open ∧ waits before thread e ∧ tx e = 1%nat ∧
    answers before ev thread e false ∧
    (hard_floor e = true → ev ≠ ResolvedAll thread false).
Proof. intros k es. apply (broker_decisions es 1 false). vm_compute. reflexivity. Defined.

(** What an answer does, in every reachable broker. An answer that names a
    request takes out that request of the thread and nothing else, and reports
    whether its handler was still waiting, and when no request of the thread has
    the name nothing happens; a plain answer does so for the oldest request of
    the thread; an answer to all takes out every request that is not a hard
    floor one, reports how many, and keeps the others in order. A request whose
    handler has stopped waiting stays in front of its thread, and then a plain
    answer reaches nobody: it is spent on that request, even when another
    handler of the thread waits behind it. *)
Theorem broker_answers es thread b :
  let self := run ApprovalBroker.new es in
  (∀ id, let '(ok, self') := ApprovalBroker.resolve_by_id self thread id b in
     (∃ e, waits self thread e ∧ request_id e = id ∧ takes self self' [e] (Sent b) ∧
           ok = bool_decide (channels self !! tx e = Some Open)) ∨
     ((∀ e, waits self thread e → request_id e ≠ id) ∧ ok = false ∧ self' = self)) ∧
  (let '(ok, self') := ApprovalBroker.resolve_fifo self thread b in
     (∃ e l, pending self !! thread = Some (e :: l) ∧ takes self self' [e] (Sent b) ∧
             ok = bool_decide (channels self !! tx e = Some Open)) ∨
     ((∀ e, ¬ waits self thread e) ∧ ok = false ∧ self' = self)) ∧
  (let '(n, self') := ApprovalBroker.resolve_all self thread b in
     let queue := default [] (pending self !! thread) in
     let gone := filter (λ e, hard_floor e = false) queue in
     n = length gone ∧ takes self self' gone (Sent b) ∧
     default [] (pending self' !! thread) = filter (λ e, hard_floor e = true) queue) ∧
  (∀ e l, pending self !! thread = Some (e :: l) → channels self !! tx e = Some ReceiverGone →
     let '(ok, self') := ApprovalBroker.resolve_fifo self thread b in
     ok = false ∧ default [] (pending self' !! thread) = l ∧ channels self' = channels self).
Proof.
  cbv zeta. pose proof (wf_reached es) as Hwf. split_and!.
  - intros id. destruct (resolve_by_id_takes _ thread id b Hwf)
      as [(l1 & e & l2 & Hq & Hid & _ & H)|[Hn ->]]; [|by right].
    destruct (ApprovalBroker.resolve_by_id _ thread id b) as [ok self']. destruct H as [-> Ht].
    left. exists e. split_and!; [|done..]. eexists. split; [exact Hq|]. set_solver.
  - destruct (resolve_fifo_takes _ thread b Hwf) as [(e & l & Hq & H)|[Hn ->]].
    + destruct (ApprovalBroker.resolve_fifo _ thread b) as [ok self']. destruct H as [-> Ht].
      left. by exists e, l.
    + right. split; [|done]. intros e (q & Hq & _). congruence.
  - pose proof (resolve_all_takes _ thread b Hwf) as H. cbv zeta in H.
    by destruct (ApprovalBroker.resolve_all _ thread b).
  - intros e l Hq Hgone. unfold ApprovalBroker.resolve_fifo. rewrite Hq. unfold send.
    rewrite Hgone. split_and!; [done| |done]. cbn [pending].
    rewrite put_queue_lookup, decide_True by done. by destruct l.
Qed.

(** A sweep takes out exactly the requests older than the limit, reports
    how many, and leaves their handlers without a decision; a request that is
    younger stays, with its handler waiting. *)
Theorem broker_sweep es max_age now :
  let self := run ApprovalBroker.new es in
  let '(n, self') := ApprovalBroker.sweep_expired self max_age now in
  (∀ thread e, waits self' thread e ↔
     waits self thread e ∧ sat_sub now (created_at e) ≤ max_age) ∧
  (∀ thread e, waits self thread e → max_age < sat_sub now (created_at e) →
     channels self !! tx e = Some Open → channels self' !! tx e = Some SenderGone) ∧
  (∀ thread e, waits self' thread e → channels self' !! tx e = channels self !! tx e) ∧
  (∀ i b, channels self' !! i = Some (Sent b) ↔ channels self !! i = Some (Sent b)).
Proof.
  cbv zeta. pose proof (wf_reached es) as Hwf.
  destruct (sweep_takes _ max_age now Hwf) as (gone & Hgone & H).
  destruct (ApprovalBroker.sweep_expired _ max_age now) as [n self']. destruct H as [_ Ht].
  assert (∀ e, ApprovalBroker.aged_out max_age now e = true ↔
               max_age < sat_sub now (created_at e)) as Haged.
  { intros e. unfold ApprovalBroker.aged_out. lia. }
  split_and!.
  - intros t e. split.
    + intros He. assert (H0 := takes_waits_back _ _ _ _ _ _ Ht He). split; [done|].
      apply (takes_waits _ _ _ _ Ht _ _ H0) in He.
      destruct (Z.le_gt_cases (sat_sub now (created_at e)) max_age) as [|Hlt]; [done|].
      destruct He. apply Hgone. rewrite Haged. split; [lia|by exists t].
    + intros [He Hle]. apply (takes_waits _ _ _ _ Ht _ _ He). rewrite Hgone, Haged. lia.
  - intros t e He Hlt Ho. rewrite (takes_settles _ _ _ _ Ht), Ho, decide_True; [done|].
    apply list_elem_of_fmap_2, Hgone. rewrite Haged. split; [lia|by exists t].
  - intros t e He. assert (H0 := takes_waits_back _ _ _ _ _ _ Ht He).
    rewrite (takes_settles _ _ _ _ Ht), decide_False; [done|].
    intros (e' & Htx & Hin)%list_elem_of_fmap.
    destruct (takes_gone _ _ _ _ Ht _ Hin) as [t' He'].
    destruct (wf_unique _ Hwf _ _ _ _ H0 He' Htx) as [_ <-].
    by apply (takes_waits _ _ _ _ Ht _ _ H0) in He.
  - intros i b. rewrite (takes_settles _ _ _ _ Ht). case_decide; [|done].
    destruct (channels _ !! i) as [[]|]; cbn; naive_solver.
Qed.
