(* ===== verification/ThreadApproval.v ===== *)
(** The approval mode of a thread and the file it is kept in:
    src/src/tools/thread_approval.rs.

    serde_json and the file system are not code of the repository: a body is an
    opaque [Body], [to_json] and [from_json] are parameters with the law that
    reading back what was written gives the file, and a write and a rename
    report whether they worked. The temporary file is never read and is left
    out. *)

From S2P Require Import Prelude Approval.

Inductive ThreadApprovalMode : Type := RequireApproval | AutoApprove.

#[export] Instance ThreadApprovalMode_eq_dec : EqDecision ThreadApprovalMode.
Proof. solve_decision. Defined.

Definition ThreadApprovalMode_default : ThreadApprovalMode := RequireApproval.

Record ThreadApprovalState : Type := mkThreadApprovalState {
  mode : ThreadApprovalMode;
  updated_at : Z;
  updated_by : string;
}.

Definition ThreadApprovalState_default (now : Z) : ThreadApprovalState :=
  {| mode := ThreadApprovalMode_default; updated_at := now; updated_by := "" |}.

Record PersistedThread : Type := mkPersistedThread {
  user_id : string;
  agent_id : string;
  thread_mode : ThreadApprovalMode;
  thread_updated_at : Z;
  thread_updated_by : string;
}.

Record PersistedFile : Type := mkPersistedFile { version : Z; threads : list PersistedThread }.

Definition FILE_VERSION : Z := 1.

(** What is found at the store's path. *)
Inductive File (Body : Type) : Type := Missing | Unreadable | Content (body : Body).
Arguments Missing {Body}.
Arguments Unreadable {Body}.
Arguments Content {Body} body.

Record ThreadApprovalStore : Type := mkStore {
  states : gmap ThreadKey ThreadApprovalState;
  root : string;
}.

Definition to_persisted (kv : ThreadKey * ThreadApprovalState) : PersistedThread :=
  let '(k, v) := kv in
  {| user_id := user k; agent_id := agent k; thread_mode := mode v;
     thread_updated_at := updated_at v; thread_updated_by := updated_by v |}.

Definition from_persisted (t : PersistedThread) : ThreadKey * ThreadApprovalState :=
  (ThreadKey.new (user_id t) (agent_id t),
   {| mode := thread_mode t; updated_at := thread_updated_at t;
      updated_by := thread_updated_by t |}).

(** [collect] into a [HashMap]: a later record of a thread replaces an earlier
    one. *)
Definition collect (l : list (ThreadKey * ThreadApprovalState))
    : gmap ThreadKey ThreadApprovalState :=
  fold_left (λ m kv, <[fst kv := snd kv]> m) l ∅.

Module ThreadApprovalStore.
Definition get (self : ThreadApprovalStore) (thread : ThreadKey) (now : Z) : ThreadApprovalState :=
  default (ThreadApprovalState_default now) (states self !! thread).

(** The clock only dates a state that is made up, so it is left out here. *)
Definition is_auto_approve (self : ThreadApprovalStore) (thread : ThreadKey) : bool :=
  match mode (get self thread 0) with AutoApprove => true | RequireApproval => false end.

Section persistence.
Context {Body : Type}.
Context (to_json : PersistedFile → result string Body) (from_json : Body → option PersistedFile).

Definition load_from_disk (file : File Body) : gmap ThreadKey ThreadApprovalState :=
  match file with
  | Content body =>
    match from_json body with
    | Some f => collect (map from_persisted (threads f))
    | None => ∅
    end
  | Missing | Unreadable => ∅
  end.

Definition open (root : string) (file : File Body) : ThreadApprovalStore :=
  {| states := load_from_disk file; root := root |}.

(** [write] and [rename] are the errors of the two file operations, if any. The
    order in which a [HashMap] is walked is not specified; the model takes the
    one of [map_to_list]. *)
Definition save_to_disk (write rename : option string)
    (m : gmap ThreadKey ThreadApprovalState) (file : File Body)
    : result string unit * File Body :=
  let payload := {| version := FILE_VERSION; threads := map to_persisted (map_to_list m) |} in
  match to_json payload with
  | Err e => (Err ("serializing approval_thread.json: " +:+ e), file)
  | Ok body =>
    match write, rename with
    | Some e, _ => (Err e, file)
    | None, Some e => (Err e, file)
    | None, None => (Ok tt, Content body)
    end
  end.

Definition set (self : ThreadApprovalStore) (thread : ThreadKey) (m : ThreadApprovalMode)
    (source : string) (now : Z) (write rename : option string) (file : File Body)
    : result string ThreadApprovalState * ThreadApprovalStore * File Body :=
  let state := {| mode := m; updated_at := now; updated_by := source |} in
  let self' := {| states := <[thread := state]> (states self); root := root self |} in
  if str_is_empty (root self') then (Ok state, self', file)
  else
    let '(saved, file') := save_to_disk write rename (states self') file in
    (match saved with Ok _ => Ok state | Err e => Err e end, self', file').
End persistence.
End ThreadApprovalStore.

(** ** Reading back *)

Lemma collect_snoc l kv : collect (l ++ [kv]) = <[fst kv := snd kv]> (collect l).
Proof. unfold collect. by rewrite fold_left_app. Qed.

Lemma collect_lookup l k :
  collect l !! k = snd <$> last (filter (λ kv, fst kv = k) l).
Proof.
  induction l as [|kv l IH] using rev_ind; [apply lookup_empty|].
  rewrite collect_snoc, filter_app, filter_cons, filter_nil.
  destruct (decide (fst kv = k)) as [<-|Hne].
  - by rewrite lookup_insert_eq, last_snoc.
  - by rewrite lookup_insert_ne, app_nil_r.
Qed.

Lemma collect_map_to_list (m : gmap ThreadKey ThreadApprovalState) :
  collect (map_to_list m) = m.
Proof.
  apply map_eq. intros k. rewrite collect_lookup.
  assert (∀ kv, kv ∈ filter (λ kv, fst kv = k) (map_to_list m) → m !! k = Some (snd kv)) as H.
  { intros [k' v] [<- Hin]%list_elem_of_filter. by apply elem_of_map_to_list. }
  destruct (last _) as [kv|] eqn:Hl; cbn.
  - symmetry. apply H. by apply last_Some_elem_of.
  - destruct (m !! k) as [v|] eqn:Hm; [|done].
    apply last_None in Hl. exfalso. apply (proj1 (elem_of_nil (k, v))). rewrite <- Hl.
    apply list_elem_of_filter. split; [done|]. by apply elem_of_map_to_list.
Qed.

Lemma from_to_persisted l : map from_persisted (map to_persisted l) = l.
Proof. rewrite map_map. rewrite <- (map_id l) at 2. apply map_ext. by intros [[] []]. Qed.

Section store_spec.
Context {Body : Type}.
Context (to_json : PersistedFile → result string Body) (from_json : Body → option PersistedFile).

Notation load := (ThreadApprovalStore.load_from_disk from_json).
Notation store_set := (ThreadApprovalStore.set to_json).

Lemma set_states self thread m source now write rename file :
  let '(_, self', _) := store_set self thread m source now write rename file in
  states self' = <[thread := mkThreadApprovalState m now source]> (states self) ∧
  root self' = root self.
Proof.
  unfold ThreadApprovalStore.set. cbn [root]. destruct (str_is_empty (root self)); [done|].
  by destruct (ThreadApprovalStore.save_to_disk _ _ _ _ _) as [[] ?].
Qed.

Lemma set_auto_approve self thread m source now write rename file t :
  let '(_, self', _) := store_set self thread m source now write rename file in
  ThreadApprovalStore.is_auto_approve self' t =
    if decide (t = thread) then bool_decide (m = AutoApprove)
    else ThreadApprovalStore.is_auto_approve self t.
Proof.
  pose proof (set_states self thread m source now write rename file) as H.
  destruct (store_set _ _ _ _ _ _ _ _) as [[res self'] file'].
  destruct H as [H _]. unfold ThreadApprovalStore.is_auto_approve, ThreadApprovalStore.get.
  rewrite H. destruct (decide (t = thread)) as [->|Hne].
  - rewrite lookup_insert_eq. by destruct m.
  - by rewrite lookup_insert_ne.
Qed.

(** Setting the mode of a thread changes that thread's mode in memory and no
    other's, whether or not the file could be written, and reports a failure
    exactly when the store has a directory and the file was not replaced; then
    the file is as it was, so that the process and a restarted one disagree
    about the thread. After a success a store opened from the file has exactly
    the modes, dates and sources of this one. *)
Theorem store_persists self thread m source now write rename file
    (codec : ∀ f, ∃ body, to_json f = Ok body ∧ from_json body = Some f) :
  let '(res, self', file') := store_set self thread m source now write rename file in
  (∀ t later, ThreadApprovalStore.get self' t later =
     if decide (t = thread) then mkThreadApprovalState m now source
     else ThreadApprovalStore.get self t later) ∧
  (is_ok res = false ↔ root self ≠ "" ∧ (write ≠ None ∨ rename ≠ None)) ∧
  (is_ok res = false → file' = file) ∧
  (is_ok res = true → root self ≠ "" → load file' = states self' ∧
     ThreadApprovalStore.open from_json (root self) file' = self') ∧
  (root self = "" → file' = file).
Proof.
  pose proof (set_states self thread m source now write rename file) as Hs.
  destruct (store_set _ _ _ _ _ _ _ _) as [[res self'] file'] eqn:Hset.
  destruct Hs as [Hs Hr]. split.
  { intros t later. unfold ThreadApprovalStore.get. rewrite Hs.
    destruct (decide (t = thread)) as [->|]; [by rewrite lookup_insert_eq|].
    by rewrite lookup_insert_ne. }
  unfold ThreadApprovalStore.set in Hset. cbn [root states] in Hset.
  destruct (root self) as [|c s] eqn:Hroot; cbn [str_is_empty] in Hset.
  { simplify_eq. split_and!; try done. naive_solver. }
  unfold ThreadApprovalStore.save_to_disk in Hset.
  set (f := {| version := _; threads := _ |}) in Hset.
  destruct (codec f) as (body & Hto & Hfrom). rewrite Hto in Hset.
  destruct write as [e|]; [|destruct rename as [e|]]; simplify_eq/=;
    split_and!; try done; try naive_solver.
  intros _ _. unfold ThreadApprovalStore.open. cbn [ThreadApprovalStore.load_from_disk].
  rewrite Hfrom. unfold f. cbn [threads]. by rewrite from_to_persisted, collect_map_to_list.
Qed.
End store_spec.

Lemma store_persists_witness :
  let k := ThreadKey.new "alice" "zc" in
  let s := mkStore ∅ "/config" in
  let '(res, self', file') :=
    ThreadApprovalStore.set (Body := PersistedFile) Ok s k AutoApprove "discord" 7
      None (Some "disk full") Missing in
  res = Err "disk full" ∧ file' = Missing ∧ ThreadApprovalStore.is_auto_approve self' k = true ∧
  (is_ok res = false ↔ root s ≠ "" ∧ (@None string ≠ None ∨ Some "disk full" ≠ None)).
Proof.
  intros k s.
  pose proof (store_persists Ok Some s k AutoApprove "discord" 7 None (Some "disk full") Missing
                (λ f, ex_intro _ f (conj eq_refl eq_refl))) as H.
  cbn in H. split_and!; [done|done|reflexivity|]. apply H.
Defined.
