(* ===== verification/Gateway.v ===== *)
(** Approvals in the gateway (src/src/cli/gateway.rs): the inbound interceptor,
    with the commands that switch a thread's approval mode, and the approval
    handler that asks the user and waits for the answer.

    The interceptor runs one inbound message at a time. Replies are sent by
    spawned tasks: [outbox] records what is handed to them, in the order of the
    hand-over. Clock readings and the outcomes of file operations come with each
    input. *)

From S2P Require Import Prelude Bus Approval Broker ThreadApproval.

Section gateway.
Context `{RustUnicode}.
Context {Value Body : Type}.
Context (to_json : PersistedFile → result string Body).
Context (command_arg : Value → option string) (timeout_arg : Value → option Z).
Context (pretty_json : Value → string) (rfc3339 : Z → string).

(** ** Data *)

(** What the gateway sends: a text, or for the ACP channels a card of an
    approval request and the card's resolution (their JSON payloads are the
    arguments). *)
Inductive Outbound : Type :=
| Text (channel chat_id body : string)
| ApprovalCard (channel chat_id request_id tool_name prompt : string) (hard_floor : bool)
    (pending_total : nat)
| ApprovalResolved (channel chat_id request_id decision : string).

Inductive ThreadCommand : Type := SkipApproval | RequireApprovalCmd | Status | Help.

Record ConfirmPending : Type := mkConfirmPending {
  deadline : Z;
  confirm_channel : string;
  confirm_chat_id : string;
}.

Inductive ConfirmOutcome : Type := Consumed | Fallthrough.

Record Gateway : Type := mkGateway {
  broker : ApprovalBroker;
  store : ThreadApprovalStore;
  file : File Body;
  confirms : gmap ThreadKey ConfirmPending;
  outbox : list Outbound;
}.

(** What handling one message reads: [now] when it looks for a pending confirm,
    [later] when it stores one (both [Instant]s, in nanoseconds), the calendar
    clock, and the errors of the two file operations. *)
Record Readings : Type := mkReadings {
  now : Z;
  later : Z;
  utc : Z;
  write_error : option string;
  rename_error : option string;
}.

Definition seconds (n : Z) : Z := n * 1000000000.
Definition CONFIRM_WINDOW : Z := seconds 60.
Definition SWEEP_INTERVAL : Z := seconds 30.
Definition ENTRY_TTL : Z := seconds 600.

Definition THREAD_HELP_TEXT : string :=
  join newline
    ["**zeptoclaw — available commands**"; "";
     "Approval mode (per-thread, persistent):";
     "• `/skip-approval` — disable manual approval. Reply `confirm` within 60s to take effect.";
     "• `/require-approval` — re-enable manual approval (default).";
     "• `/approval-status` — show current mode + pending count."; "";
     "Misc:";
     "• `/help` — show this message."; "";
     "While an approval card is active, reply `yes` / `no` to that specific card.";
     "HardFloor rules (destructive shell commands) always require approval and cannot be skipped by `/skip-approval`."].

(** ** Parsing *)

Definition resolve_approval_timeout (config : ApprovalConfig) : Z :=
  let t := approval_timeout_secs config in
  if 0 <? t then t else DEFAULT_APPROVAL_TIMEOUT_SECS.

Definition parse_approval_reply (text : string) : option bool :=
  let s := to_lowercase (trim text) in
  if any (String.eqb s) ["yes"; "y"; "approve"; "是"] then Some true
  else if any (String.eqb s) ["no"; "n"; "deny"; "否"] then Some false
  else None.

Definition is_acp_channel (channel : string) : bool :=
  String.eqb channel "acp" || String.eqb channel "acp_http".

Definition approval_decision_label (outcome : ApprovalResponse) : option string :=
  match outcome with
  | Approved => Some "approve"
  | Denied _ => Some "deny"
  | TimedOut => None
  end.

Definition parse_thread_command (text : string) : option ThreadCommand :=
  let lower := to_ascii_lowercase text in
  if any (String.eqb lower) ["/skip-approval"; "/skip_approval"] then Some SkipApproval
  else if any (String.eqb lower) ["/require-approval"; "/require_approval"]
  then Some RequireApprovalCmd
  else if any (String.eqb lower) ["/approval-status"; "/approval_status"] then Some Status
  else if any (String.eqb lower) ["/help"; "/?"] then Some Help
  else None.

Definition eq_ignore_ascii_case (a b : string) : bool :=
  String.eqb (to_ascii_lowercase a) (to_ascii_lowercase b).

(** ** The interceptor *)

Definition spawn_reply (g : Gateway) (channel chat_id body : string) : Gateway :=
  {| broker := broker g; store := store g; file := file g; confirms := confirms g;
     outbox := outbox g ++ [Text channel chat_id body] |}.

Definition with_confirms (g : Gateway) (c : gmap ThreadKey ConfirmPending) : Gateway :=
  {| broker := broker g; store := store g; file := file g; confirms := c; outbox := outbox g |}.

Definition with_broker (g : Gateway) (b : ApprovalBroker) : Gateway :=
  {| broker := b; store := store g; file := file g; confirms := confirms g; outbox := outbox g |}.

Definition set_mode (g : Gateway) (thread : ThreadKey) (m : ThreadApprovalMode) (source : string)
    (r : Readings) : bool * Gateway :=
  let '(res, s, f) := ThreadApprovalStore.set to_json (store g) thread m source (utc r)
                        (write_error r) (rename_error r) (file g) in
  (is_ok res,
   {| broker := broker g; store := s; file := f; confirms := confirms g; outbox := outbox g |}).

Definition handle_pending_confirm (g : Gateway) (thread : ThreadKey) (trimmed : string)
    (msg : InboundMessage) (r : Readings) : ConfirmOutcome * Gateway :=
  match confirms g !! thread with
  | None => (Fallthrough, g)
  | Some entry =>
    let g := with_confirms g (delete thread (confirms g)) in
    if now r <? deadline entry then
      if eq_ignore_ascii_case trimmed "confirm" then
        let '(ok, g) := set_mode g thread AutoApprove (channel msg) r in
        (Consumed,
         spawn_reply g (confirm_channel entry) (confirm_chat_id entry)
           (if ok
            then "✅ AutoApprove enabled for this thread. Use `/require-approval` to switch back."
            else "⚠️ Couldn't persist the change. Try again."))
      else (Fallthrough, g)
    else (Fallthrough, g)
  end.

Definition status_text (g : Gateway) (thread : ThreadKey) (r : Readings) : string :=
  let state := ThreadApprovalStore.get (store g) thread (utc r) in
  let pending_count := ApprovalBroker.pending_count (broker g) thread in
  let mode_label := match mode state with
                    | RequireApproval => "RequireApproval (default)"
                    | AutoApprove => "AutoApprove"
                    end in
  let updated := if str_is_empty (updated_by state) then "never changed"
                 else "last changed by `" +:+ updated_by state +:+ "` at "
                        +:+ rfc3339 (updated_at state) in
  let pending_line := if Nat.eqb pending_count 0 then "no pending approvals"
                      else fmt_nat pending_count +:+ " pending approval(s) on this thread" in
  "**Approval status**" +:+ newline +:+ "• Mode: `" +:+ mode_label +:+ "`" +:+ newline
    +:+ "• " +:+ updated +:+ newline +:+ "• " +:+ pending_line +:+ newline +:+ newline
    +:+ "Send `/help` for the full command list.".

Definition handle_thread_command (g : Gateway) (cmd : ThreadCommand) (thread : ThreadKey)
    (msg : InboundMessage) (r : Readings) : Gateway :=
  match cmd with
  | SkipApproval =>
    match mode (ThreadApprovalStore.get (store g) thread (utc r)) with
    | AutoApprove =>
      spawn_reply g (channel msg) (chat_id msg)
        "ℹ️ AutoApprove is already active for this thread. Use `/require-approval` to switch back."
    | RequireApproval =>
      let slot := mkConfirmPending (later r + CONFIRM_WINDOW) (channel msg) (chat_id msg) in
      spawn_reply (with_confirms g (<[thread := slot]> (confirms g))) (channel msg) (chat_id msg)
        "⚠️ You're about to disable manual approval for this thread. Dangerous tools will run without prompting. Reply `confirm` within 60s to proceed (any other reply cancels)."
    end
  | RequireApprovalCmd =>
    let g := with_confirms g (delete thread (confirms g)) in
    let '(ok, g) := set_mode g thread RequireApproval (channel msg) r in
    spawn_reply g (channel msg) (chat_id msg)
      (if ok then "✅ Manual approval is back on for this thread."
       else "⚠️ Couldn't persist the change. Try again.")
  | Status => spawn_reply g (channel msg) (chat_id msg) (status_text g thread r)
  | Help => spawn_reply g (channel msg) (chat_id msg) THREAD_HELP_TEXT
  end.

(** The third job: which answer, if any, a yes or no is to the broker. *)
Definition route_reply (b : ApprovalBroker) (thread : ThreadKey) (msg : InboundMessage)
    (approved : bool) : bool * ApprovalBroker :=
  match metadata msg !! "inject_kind" with
  | Some kind =>
    if String.eqb kind "approval_response" then
      match metadata msg !! "request_id" with
      | None => (false, b)
      | Some id =>
        if str_is_empty id then ApprovalBroker.resolve_fifo b thread approved
        else ApprovalBroker.resolve_by_id b thread id approved
      end
    else (false, b)
  | None => ApprovalBroker.resolve_fifo b thread approved
  end.

(** [true] when the message is consumed and does not reach the agent. *)
Definition interceptor (identity : ThreadIdentity) (g : Gateway) (msg : InboundMessage)
    (r : Readings) : bool * Gateway :=
  let thread := ThreadIdentity.resolve_key identity (chat_id msg) in
  let trimmed := trim (content msg) in
  let '(confirm_result, g) := handle_pending_confirm g thread trimmed msg r in
  match confirm_result with
  | Consumed => (true, g)
  | Fallthrough =>
    match parse_thread_command trimmed with
    | Some cmd => (true, handle_thread_command g cmd thread msg r)
    | None =>
      match parse_approval_reply (content msg) with
      | None => (false, g)
      | Some approved =>
        let '(ok, b) := route_reply (broker g) thread msg approved in
        (ok, with_broker g b)
      end
    end
  end.

(** ** The approval handler *)

Definition args_display (request : ApprovalRequest Value) : string :=
  let args := arguments request in
  if String.eqb (tool_name request) "shell" then
    let cmd := default "<no command>" (command_arg args) in
    let timeout := match timeout_arg args with
                   | Some t => newline +:+ "  timeout: " +:+ fmt_Z t +:+ "s"
                   | None => ""
                   end in
    "```sh" +:+ newline +:+ cmd +:+ newline +:+ "```" +:+ timeout
  else "```json" +:+ newline +:+ pretty_json args +:+ newline +:+ "```".

Definition approval_prompt (request : ApprovalRequest Value) (pending : nat) (auto : bool)
    : string :=
  let queue_hint :=
    if Nat.ltb 1 pending
    then newline +:+ "(" +:+ fmt_nat pending +:+ " more approval(s) queued — each will be asked separately)"
    else "" in
  let hard_floor_badge :=
    match hard_floor_reason request with
    | Some reason => newline +:+ "🚨 **[HARD FLOOR]** " +:+ reason
                       +:+ " (cannot be auto-approved by `/skip-approval`)"
    | None => ""
    end in
  let mode_hint :=
    match hard_floor_reason request with
    | Some _ => ""
    | None =>
      if auto
      then newline +:+ "_This thread is in **AutoApprove** mode — send `/require-approval` to re-enable per-tool prompts._"
      else newline +:+ "_This thread requires approval for every tool call. Send `/skip-approval` (then `confirm` within 60s) to auto-approve all future tool calls in this channel._"
    end in
  "**[Approval Required]** — `" +:+ tool_name request +:+ "`" +:+ newline
    +:+ args_display request +:+ hard_floor_badge +:+ newline +:+ "Reply **yes** / **no**."
    +:+ queue_hint +:+ mode_hint.

(** The thread a request belongs to. *)
Definition request_thread (identity : ThreadIdentity) (request : ApprovalRequest Value)
    (chat_id : string) : ThreadKey :=
  match Approval.user_id request, Approval.agent_id request with
  | Some u, Some a =>
    if negb (str_is_empty u) && negb (str_is_empty a) then ThreadKey.new u a
    else ThreadIdentity.resolve_key identity chat_id
  | _, _ => ThreadIdentity.resolve_key identity chat_id
  end.

(** A request that was put to the user: its channel, its thread and where the
    prompt went. *)
Record Asked : Type := mkAsked {
  rx : nat;
  asked_thread : ThreadKey;
  asked_id : string;
  asked_channel : string;
  asked_chat_id : string;
}.

Definition non_empty (s : option string) : option string :=
  match s with Some x => if str_is_empty x then None else Some x | None => None end.

(** The handler up to the wait: an answer at once, or the request is registered
    under the fresh id [id] and the prompt is published. *)
Definition ask (identity : ThreadIdentity) (g : Gateway) (request : ApprovalRequest Value)
    (id : string) (instant : Z) : (ApprovalResponse + Asked) * Gateway :=
  match non_empty (req_chat_id request) with
  | None => (inl (Denied "No chat routing context for approval"), g)
  | Some chat_id =>
    match non_empty (req_channel request) with
    | None => (inl (Denied "No channel routing context for approval"), g)
    | Some channel =>
      let thread := request_thread identity request chat_id in
      let is_hard := match hard_floor_reason request with Some _ => true | None => false end in
      if negb is_hard && ThreadApprovalStore.is_auto_approve (store g) thread
      then (inl Approved, g)
      else
        let '(rx, b) := ApprovalBroker.register (broker g) thread id is_hard instant in
        let prompt := approval_prompt request (ApprovalBroker.pending_count b thread)
                        (ThreadApprovalStore.is_auto_approve (store g) thread) in
        let out := if is_acp_channel channel
                   then ApprovalCard channel chat_id id (tool_name request) prompt is_hard 1
                   else Text channel chat_id prompt in
        (inr (mkAsked rx thread id channel chat_id),
         {| broker := b; store := store g; file := file g; confirms := confirms g;
            outbox := outbox g ++ [out] |})
    end
  end.

(** The handler after the wait, which ended because the channel was settled or
    because the time was up: the receiver is gone from here on. *)
Definition conclude (g : Gateway) (a : Asked) : ApprovalResponse * Gateway :=
  let outcome := match channels (broker g) !! rx a with
                 | Some (Sent true) => Approved
                 | Some (Sent false) => Denied "User denied"
                 | _ => TimedOut
                 end in
  let b := {| pending := pending (broker g); channels := drop_receiver (rx a) (channels (broker g)) |} in
  let out := match approval_decision_label outcome with
             | Some d => if is_acp_channel (asked_channel a)
                         then [ApprovalResolved (asked_channel a) (asked_chat_id a) (asked_id a) d]
                         else []
             | None => []
             end in
  (outcome,
   {| broker := b; store := store g; file := file g; confirms := confirms g;
      outbox := outbox g ++ out |}).

(** ** Runs *)

(** One thing that happens to a gateway: a message arrives, a call asks for
    approval, the sweeper ticks, a handler that waits is cancelled or ends. *)
Inductive Input : Type :=
| Inbound (msg : InboundMessage) (r : Readings)
| Ask (request : ApprovalRequest Value) (id : string) (instant : Z)
| Sweep (instant : Z)
| Cancelled (rx : nat)
| Concluded (a : Asked).

Definition gateway_step (identity : ThreadIdentity) (g : Gateway) (i : Input) : Gateway :=
  match i with
  | Inbound msg r => snd (interceptor identity g msg r)
  | Ask request id instant => snd (ask identity g request id instant)
  | Sweep instant => with_broker g (snd (ApprovalBroker.sweep_expired (broker g) ENTRY_TTL instant))
  | Cancelled rx =>
    with_broker g {| pending := pending (broker g); channels := drop_receiver rx (channels (broker g)) |}
  | Concluded a => snd (conclude g a)
  end.

Definition gateway_run (identity : ThreadIdentity) (g : Gateway) (inputs : list Input) : Gateway :=
  fold_left (gateway_step identity) inputs g.

(** The approval handler: it asks, [during] happens, it concludes. *)
Definition approval_handler (identity : ThreadIdentity) (g : Gateway)
    (request : ApprovalRequest Value) (id : string) (instant : Z) (during : list Input)
    : ApprovalResponse * Gateway :=
  let '(answer, g) := ask identity g request id instant in
  match answer with
  | inl response => (response, g)
  | inr a => conclude (gateway_run identity g during) a
  end.
End gateway.

#[export] Instance ThreadCommand_eq_dec : EqDecision ThreadCommand.
Proof. solve_decision. Defined.

(** ** One message *)

Section messages.
Context `{RustUnicode}.
Context {Value Body : Type}.
Context (to_json : PersistedFile → result string Body).
Context (command_arg : Value → option string) (timeout_arg : Value → option Z).
Context (pretty_json : Value → string) (rfc3339 : Z → string).
Implicit Types (g : Gateway (Body := Body)) (identity : ThreadIdentity) (msg : InboundMessage).
Implicit Types (r : Readings) (t thread : ThreadKey).

Local Notation intercept := (interceptor to_json rfc3339).
Local Notation auto g t := (ThreadApprovalStore.is_auto_approve (store g) t).
Local Notation thread_of identity msg := (ThreadIdentity.resolve_key identity (chat_id msg)).

Definition command_of msg : option ThreadCommand := parse_thread_command (trim (content msg)).

(** A confirmation of a pending switch, in time. *)
Definition confirms_switch g thread msg r : bool :=
  match confirms g !! thread with
  | Some slot => (now r <? deadline slot) && eq_ignore_ascii_case (trim (content msg)) "confirm"
  | None => false
  end.

Lemma set_mode_spec g thread m source r :
  let '(_, g') := set_mode to_json g thread m source r in
  broker g' = broker g ∧ confirms g' = confirms g ∧ outbox g' = outbox g ∧
  ∀ t, auto g' t = if decide (t = thread) then bool_decide (m = AutoApprove) else auto g t.
Proof.
  unfold set_mode.
  pose proof (λ t, set_auto_approve to_json (store g) thread m source (utc r)
                     (write_error r) (rename_error r) (file g) t) as Hs.
  destruct (ThreadApprovalStore.set _ _ _ _ _ _ _ _ _) as [[res s] f]. cbn. auto.
Qed.

Lemma confirm_is_no_command s :
  eq_ignore_ascii_case s "confirm" = true → parse_thread_command s = None.
Proof.
  unfold eq_ignore_ascii_case, parse_thread_command. intros ->%String.eqb_eq. reflexivity.
Qed.

Lemma pending_confirm_spec g thread msg r :
  let '(res, g') := handle_pending_confirm to_json g thread (trim (content msg)) msg r in
  res = (if confirms_switch g thread msg r then Consumed else Fallthrough) ∧
  broker g' = broker g ∧ confirms g' = delete thread (confirms g) ∧
  (∀ t, auto g' t = if decide (t = thread) then confirms_switch g thread msg r || auto g t
                    else auto g t).
Proof.
  unfold handle_pending_confirm, confirms_switch.
  destruct (confirms g !! thread) as [slot|] eqn:Hc.
  2: { split_and!; [done|done|by rewrite delete_id|]. intros t. by case_decide. }
  destruct (now r <? deadline slot); cbn [andb].
  2: { split_and!; [done..|]. intros t. cbn. by case_decide. }
  destruct (eq_ignore_ascii_case _ _).
  2: { split_and!; [done..|]. intros t. cbn. by case_decide. }
  pose proof (set_mode_spec (with_confirms g (delete thread (confirms g))) thread AutoApprove
                (channel msg) r) as Hs.
  destruct (set_mode _ _ _ _ _ _) as [ok g1]. destruct Hs as (Hb & Hcf & _ & Ha).
  split_and!; [done|done|done|]. intros t. cbn [orb]. exact (Ha t).
Qed.

(** How one message changes the modes and the pending confirmations. *)
Lemma interceptor_modes identity g msg r :
  let thread := thread_of identity msg in
  let g' := snd (intercept identity g msg r) in
  (∀ t, auto g' t =
     if decide (t = thread) then
       confirms_switch g thread msg r ||
       (auto g t && negb (bool_decide (command_of msg = Some RequireApprovalCmd)))
     else auto g t) ∧
  (∀ t, confirms g' !! t =
     if decide (t = thread) then
       if bool_decide (command_of msg = Some SkipApproval) && negb (auto g t)
       then Some (mkConfirmPending (later r + CONFIRM_WINDOW) (channel msg) (chat_id msg))
       else None
     else confirms g !! t).
Proof.
  cbv zeta. set (thread := thread_of identity msg). unfold interceptor. fold thread.
  pose proof (pending_confirm_spec g thread msg r) as Hp.
  destruct (handle_pending_confirm _ _ _ _ _ _) as [res g1].
  destruct Hp as (-> & Hb & Hc & Ha). fold (command_of msg).
  destruct (confirms_switch g thread msg r) eqn:Hsw.
  { assert (command_of msg = None) as ->.
    { unfold confirms_switch in Hsw. destruct (confirms g !! thread); [|done].
      apply andb_true_iff in Hsw as [_ Hsw]. by apply confirm_is_no_command. }
    cbn [snd]. split; intros t; [rewrite Ha; by case_decide|]. rewrite Hc.
    destruct (decide (t = thread)) as [->|]; [by rewrite lookup_delete_eq|].
    by rewrite lookup_delete_ne. }
  cbn [orb] in *.
  assert (∀ t, confirms g1 !! t = if decide (t = thread) then None else confirms g !! t) as Hc'.
  { intros t. rewrite Hc. destruct (decide (t = thread)) as [->|]; [apply lookup_delete_eq|].
    by rewrite lookup_delete_ne. }
  destruct (command_of msg) as [[]|]; cbn [snd handle_thread_command].
  - assert (mode (ThreadApprovalStore.get (store g1) thread (utc r)) =
            if auto g1 thread then AutoApprove else RequireApproval) as ->.
    { unfold ThreadApprovalStore.is_auto_approve, ThreadApprovalStore.get.
      destruct (states (store g1) !! thread) as [st|]; cbn; [by destruct (mode st)|done]. }
    rewrite (Ha thread), decide_True by done.
    destruct (auto g thread) eqn:Hau; cbn [spawn_reply store confirms with_confirms];
      split; intros t; rewrite ?Ha, ?Hc'; destruct (decide (t = thread)) as [->|];
      rewrite ?Hau; try done.
    + rewrite lookup_insert_eq. done.
    + rewrite lookup_insert_ne by done. by rewrite Hc', decide_False.
  - pose proof (set_mode_spec (with_confirms g1 (delete thread (confirms g1))) thread
                  RequireApproval (channel msg) r) as Hs.
    destruct (set_mode _ _ _ _ _ _) as [ok g2]. destruct Hs as (_ & Hcf & _ & Ha2).
    cbn [spawn_reply store confirms]. split; intros t.
    + rewrite Ha2. cbn [with_confirms store]. rewrite Ha.
      destruct (decide (t = thread)); [|done]. by destruct (auto g t).
    + rewrite Hcf. cbn [with_confirms confirms]. rewrite Hc.
      destruct (decide (t = thread)) as [->|]; [by rewrite lookup_delete_eq|].
      by rewrite !lookup_delete_ne.
  - split; intros t; cbn; rewrite ?Ha, ?Hc'; destruct (decide (t = thread)); by rewrite ?andb_true_r.
  - split; intros t; cbn; rewrite ?Ha, ?Hc'; destruct (decide (t = thread)); by rewrite ?andb_true_r.
  - destruct (parse_approval_reply (content msg)) as [b|].
    + destruct (route_reply (broker g1) thread msg b) as [ok bk].
      split; intros t; cbn; rewrite ?Ha, ?Hc'; destruct (decide (t = thread)); by rewrite ?andb_true_r.
    + split; intros t; cbn; rewrite ?Ha, ?Hc'; destruct (decide (t = thread)); by rewrite ?andb_true_r.
Qed.

(** ** Histories *)

Local Notation gstep := (gateway_step to_json command_arg timeout_arg pretty_json rfc3339).
Local Notation grun := (gateway_run to_json command_arg timeout_arg pretty_json rfc3339).
Local Notation gask := (ask command_arg timeout_arg pretty_json).
Implicit Types (inputs h : list (Input (Value := Value))) (i : Input (Value := Value)).

Lemma grun_snoc identity g h i : grun identity g (h ++ [i]) = gstep identity (grun identity g h) i.
Proof. unfold gateway_run. by rewrite fold_left_app. Qed.

Lemma ask_modes identity g request id instant :
  let g' := snd (gask identity g request id instant) in
  store g' = store g ∧ confirms g' = confirms g.
Proof.
  cbv zeta. unfold ask. destruct (non_empty (req_chat_id request)) as [c|]; [|done].
  destruct (non_empty (req_channel request)) as [ch|]; [|done].
  by case_match.
Qed.

(** Only messages change modes and confirmations. *)
Lemma other_modes identity g i :
  (∀ msg r, i ≠ Inbound msg r) →
  store (gstep identity g i) = store g ∧ confirms (gstep identity g i) = confirms g.
Proof.
  intros Hi. destruct i as [msg r|request id instant|instant|rx|a]; cbn [gateway_step].
  - by destruct (Hi msg r).
  - apply ask_modes.
  - done.
  - done.
  - done.
Qed.

(** No message of [thread] is among the inputs. *)
Definition silent identity thread h : Prop :=
  ∀ msg r, Inbound msg r ∈ h → thread_of identity msg ≠ thread.

(** The inputs [h] end with a request of [thread] to switch, stored at [at_],
    and no later message of it. *)
Definition switch_requested identity thread h (at_ : Z) : Prop :=
  ∃ h1 msg r h2, h = h1 ++ Inbound msg r :: h2 ∧ thread_of identity msg = thread ∧
    command_of msg = Some SkipApproval ∧ later r = at_ ∧ silent identity thread h2.

(** The inputs [h] hold a request of [thread] to switch, confirmed in time by
    the next message of the thread and not taken back since. *)
Definition switch_confirmed identity thread h : Prop :=
  ∃ h1 at_ msg r h2, h = h1 ++ Inbound msg r :: h2 ∧
    switch_requested identity thread h1 at_ ∧
    thread_of identity msg = thread ∧
    eq_ignore_ascii_case (trim (content msg)) "confirm" = true ∧
    now r < at_ + CONFIRM_WINDOW ∧
    (∀ msg' r', Inbound msg' r' ∈ h2 → thread_of identity msg' = thread →
       command_of msg' ≠ Some RequireApprovalCmd).

Lemma silent_snoc identity thread h i :
  silent identity thread h → (∀ msg r, i = Inbound msg r → thread_of identity msg ≠ thread) →
  silent identity thread (h ++ [i]).
Proof.
  intros Hh Hi msg r [Hin|Hin%list_elem_of_singleton]%elem_of_app; [by eapply Hh|by eapply Hi].
Qed.

Lemma switch_requested_snoc identity thread h at_ i :
  switch_requested identity thread h at_ →
  (∀ msg r, i = Inbound msg r → thread_of identity msg ≠ thread) →
  switch_requested identity thread (h ++ [i]) at_.
Proof.
  intros (h1 & msg & r & h2 & -> & Ht & Hc & Hl & Hs) Hi.
  exists h1, msg, r, (h2 ++ [i]). rewrite <- app_assoc. split_and!; [done..|].
  by apply silent_snoc.
Qed.

Lemma switch_confirmed_snoc identity thread h i :
  switch_confirmed identity thread h →
  (∀ msg r, i = Inbound msg r → thread_of identity msg = thread →
     command_of msg ≠ Some RequireApprovalCmd) →
  switch_confirmed identity thread (h ++ [i]).
Proof.
  intros (h1 & at_ & msg & r & h2 & -> & Hr & Ht & Hc & Hn & Hs) Hi.
  exists h1, at_, msg, r, (h2 ++ [i]). rewrite <- app_assoc. split_and!; [done..|].
  intros msg' r' [Hin|Hin%list_elem_of_singleton]%elem_of_app; [by eapply Hs|by eapply Hi].
Qed.

(** What the modes and the pending confirmations say about the history. *)
Lemma history_modes identity g0 h thread :
  confirms g0 = ∅ → auto g0 thread = false →
  let g := grun identity g0 h in
  (∀ slot, confirms g !! thread = Some slot →
     ∃ at_, deadline slot = at_ + CONFIRM_WINDOW ∧ switch_requested identity thread h at_) ∧
  (auto g thread = true → switch_confirmed identity thread h).
Proof.
  intros Hc0 Ha0. cbv zeta. induction h as [|i h [IHc IHa]] using rev_ind.
  { cbn. rewrite Hc0, lookup_empty, Ha0. done. }
  rewrite grun_snoc. set (g := grun identity g0 h) in *.
  assert ((∃ msg r, i = Inbound msg r ∧ thread_of identity msg = thread) ∨
          (∀ msg r, i = Inbound msg r → thread_of identity msg ≠ thread)) as [Hi|Hi].
  { destruct i as [msg r| | | |]; [|naive_solver..].
    destruct (decide (thread_of identity msg = thread)); [left|right]; naive_solver. }
  - destruct Hi as (msg & r & -> & Ht). cbn [gateway_step].
    pose proof (interceptor_modes identity g msg r) as [Ha Hc]. cbv zeta in Ha, Hc.
    rewrite Ha, Hc, Ht, !decide_True by done. split.
    + intros slot. destruct (bool_decide _ && _) eqn:Hb; [|done]. intros [= <-].
      apply andb_true_iff in Hb as [Hb _]. apply bool_decide_eq_true in Hb.
      exists (later r). split; [done|]. exists h, msg, r, []. split_and!; try done.
      by intros ? ? ?%elem_of_nil.
    + intros [Hs|Hs]%orb_true_iff.
      * unfold confirms_switch in Hs. destruct (confirms g !! thread) as [slot|] eqn:Hslot; [|done].
        destruct (IHc slot eq_refl) as (at_ & Hd & Hreq).
        apply andb_true_iff in Hs as [Hlt Hcf].
        exists h, at_, msg, r, []. split_and!; try done; [lia|]. by intros ? ? ?%elem_of_nil.
      * apply andb_true_iff in Hs as [Hau Hn]. apply switch_confirmed_snoc; [by apply IHa|].
        intros ? ? [= <- <-] _. by rewrite negb_true_iff, bool_decide_eq_false in Hn.
  - assert (auto (gstep identity g i) thread = auto g thread ∧
            confirms (gstep identity g i) !! thread = confirms g !! thread) as [-> ->].
    { destruct i as [msg r| | | |].
      { pose proof (interceptor_modes identity g msg r) as [Ha Hc]. cbv zeta in Ha, Hc.
        cbn [gateway_step]. specialize (Hi msg r eq_refl).
        rewrite Ha, Hc, !decide_False by congruence. done. }
      all: match goal with |- context [gstep _ _ ?i] =>
               destruct (other_modes identity g i) as [-> ->]; [done|done] end. }
    split.
    + intros slot Hslot. destruct (IHc slot Hslot) as (at_ & Hd & Hr). exists at_.
      split; [done|]. by apply switch_requested_snoc.
    + intros Hau. apply switch_confirmed_snoc; [by apply IHa|]. intros msg r Heq Ht.
      by destruct (Hi msg r Heq).
Qed.

(** ** Answers *)

(** The answer to the broker that a yes or no of [thread] is. *)
Definition reply_event thread msg (approved : bool) : option Event :=
  match metadata msg !! "inject_kind" with
  | None => Some (ResolvedFifo thread approved)
  | Some kind =>
    if String.eqb kind "approval_response" then
      match metadata msg !! "request_id" with
      | None => None
      | Some id => if str_is_empty id then Some (ResolvedFifo thread approved)
                   else Some (ResolvedById thread id approved)
      end
    else None
  end.

Definition apply_event (b : ApprovalBroker) (ev : option Event) : ApprovalBroker :=
  match ev with Some ev => Broker.step b ev | None => b end.

(** A decision was delivered to a handler that waited for it. *)
Definition delivered (b b' : ApprovalBroker) (approved : bool) : Prop :=
  ∃ j : nat, channels b !! j = Some Open ∧ channels b' !! j = Some (Sent approved).

Lemma takes_delivered b b' e approved :
  takes b b' [e] (Sent approved) → channels b !! tx e = Some Open ↔ delivered b b' approved.
Proof.
  intros Ht. split.
  - intros Ho. exists (tx e). split; [done|].
    rewrite (takes_settles _ _ _ _ Ht), decide_True, Ho by (by left). done.
  - intros (j & Ho & Hs). rewrite (takes_settles _ _ _ _ Ht) in Hs.
    destruct (decide _) as [Hin|]; [|congruence]. apply list_elem_of_singleton in Hin as ->. done.
Qed.

Lemma not_delivered b approved : ¬ delivered b b approved.
Proof. intros (j & Ho & Hs). congruence. Qed.

Lemma route_reply_spec b thread msg approved :
  wf b →
  let '(ok, b') := route_reply b thread msg approved in
  b' = apply_event b (reply_event thread msg approved) ∧
  (ok = true ↔ delivered b b' approved).
Proof.
  intros Hwf. unfold route_reply, reply_event.
  assert (let '(ok, b') := ApprovalBroker.resolve_fifo b thread approved in
          b' = Broker.step b (ResolvedFifo thread approved) ∧
          (ok = true ↔ delivered b b' approved)) as Hfifo.
  { cbn [Broker.step]. destruct (resolve_fifo_takes b thread approved Hwf) as [(e & l & _ & He)|[_ ->]].
    - destruct (ApprovalBroker.resolve_fifo b thread approved) as [ok b']. destruct He as [-> Ht].
      split; [done|]. by rewrite bool_decide_eq_true, takes_delivered.
    - split; [done|]. split; [done|]. by intros ?%not_delivered. }
  destruct (metadata msg !! "inject_kind") as [kind|]; [|exact Hfifo].
  destruct (String.eqb kind "approval_response").
  2: { split; [done|]. split; [done|]. by intros ?%not_delivered. }
  destruct (metadata msg !! "request_id") as [id|].
  2: { split; [done|]. split; [done|]. by intros ?%not_delivered. }
  destruct (str_is_empty id); [exact Hfifo|]. cbn [apply_event Broker.step].
  destruct (resolve_by_id_takes b thread id approved Hwf)
    as [(l1 & e & l2 & _ & _ & _ & He)|[_ ->]].
  - destruct (ApprovalBroker.resolve_by_id b thread id approved) as [ok b'].
    destruct He as [-> Ht]. split; [done|]. by rewrite bool_decide_eq_true, takes_delivered.
  - split; [done|]. split; [done|]. by intros ?%not_delivered.
Qed.

(** The event of the broker that a message is, if any. *)
Definition message_event identity g msg r : option Event :=
  let thread := thread_of identity msg in
  if confirms_switch g thread msg r then None
  else match command_of msg, parse_approval_reply (content msg) with
       | None, Some approved => reply_event thread msg approved
       | _, _ => None
       end.

Lemma interceptor_broker identity g msg r :
  wf (broker g) →
  let '(consumed, g') := intercept identity g msg r in
  broker g' = apply_event (broker g) (message_event identity g msg r) ∧
  (consumed = true ↔
     confirms_switch g (thread_of identity msg) msg r = true ∨ is_Some (command_of msg) ∨
     ∃ approved, parse_approval_reply (content msg) = Some approved ∧
                 delivered (broker g) (broker g') approved).
Proof.
  intros Hwf. unfold interceptor, message_event. set (thread := thread_of identity msg).
  pose proof (pending_confirm_spec g thread msg r) as Hp.
  destruct (handle_pending_confirm _ _ _ _ _ _) as [res g1]. destruct Hp as (-> & Hb & _ & _).
  fold (command_of msg). destruct (confirms_switch g thread msg r) eqn:Hsw.
  { cbn. rewrite Hb. split; [done|]. split; [by left|done]. }
  destruct (command_of msg) as [cmd|] eqn:Hcmd.
  { split; [|split; [by right; left|done]]. cbn [apply_event]. rewrite <- Hb.
    destruct cmd; cbn [handle_thread_command]; [by destruct (mode _)| |done|done].
    pose proof (set_mode_spec (with_confirms g1 (delete thread (confirms g1))) thread
                  RequireApproval (channel msg) r) as Hs.
    destruct (set_mode _ _ _ _ _ _) as [ok g2]. by destruct Hs as (Hb2 & _). }
  destruct (parse_approval_reply (content msg)) as [approved|].
  2: { split; [done|]. split; [done|]. by intros [?|[[? ?]|(? & ? & _)]]. }
  pose proof (route_reply_spec (broker g1) thread msg approved) as Hr. rewrite Hb in Hr.
  rewrite Hb. destruct (route_reply (broker g) thread msg approved) as [ok b'].
  destruct (Hr Hwf) as [-> Hok]. cbn [with_broker broker]. split; [done|]. rewrite Hok.
  split; [intros; right; right; eauto|].
  by intros [?|[[? ?]|(? & [= <-] & ?)]].
Qed.

(** The event of the broker that an input is. *)
Definition input_event identity g i : option Event :=
  match i with
  | Inbound msg r => message_event identity g msg r
  | Ask request id instant =>
    match fst (gask identity g request id instant) with
    | inl _ => None
    | inr a => Some (Registered (asked_thread a) id
                       (match hard_floor_reason request with Some _ => true | None => false end)
                       instant)
    end
  | Sweep instant => Some (Swept ENTRY_TTL instant)
  | Cancelled rx => Some (Abandoned rx)
  | Concluded a => Some (Abandoned (rx a))
  end.

Lemma ask_broker identity g request id instant :
  let '(answer, g') := gask identity g request id instant in
  match answer with
  | inl _ => g' = g
  | inr a => let b' := Broker.step (broker g) (Registered (asked_thread a) id
                         (match hard_floor_reason request with Some _ => true | None => false end)
                         instant) in
             broker g' = b' ∧ rx a = length (channels (broker g)) ∧ asked_id a = id
  end.
Proof.
  unfold ask. destruct (non_empty (req_chat_id request)) as [c|]; [|done].
  destruct (non_empty (req_channel request)) as [ch|]; [|done].
  by destruct (_ && _).
Qed.

Lemma gstep_broker identity g i :
  wf (broker g) →
  broker (gstep identity g i) = apply_event (broker g) (input_event identity g i).
Proof.
  intros Hwf. destruct i as [msg r|request id instant|instant|rx|a]; cbn [gateway_step input_event].
  - pose proof (interceptor_broker identity g msg r Hwf) as Hi.
    destruct (intercept identity g msg r) as [c g']. apply Hi.
  - pose proof (ask_broker identity g request id instant) as Ha.
    destruct (gask identity g request id instant) as [[?|a] g']; cbn; [by subst|apply Ha].
  - done.
  - done.
  - done.
Qed.

Lemma gstep_wf identity g i : wf (broker g) → wf (broker (gstep identity g i)).
Proof.
  intros Hwf. rewrite gstep_broker by done.
  destruct (input_event identity g i); [by apply wf_step|done].
Qed.

Lemma grun_wf identity g h : wf (broker g) → wf (broker (grun identity g h)).
Proof.
  intros Hwf. induction h as [|i h IH] using rev_ind; [done|]. rewrite grun_snoc.
  by apply gstep_wf.
Qed.

(** ** The request of a handler *)

(** [e] is the only request with its channel, and [thread] is its thread. *)
Definition owned thread (e : PendingEntry) (b : ApprovalBroker) : Prop :=
  is_Some (channels b !! tx e) ∧
  ∀ t x, waits b t x → tx x = tx e → t = thread ∧ x = e.

Lemma owned_step thread e b ev : wf b → owned thread e b → owned thread e (Broker.step b ev).
Proof.
  intros Hwf [Hs Ho].
  destruct (step_takes b ev Hwf) as [(t & id & hf & n & ->)|[[j ->]|(gone & d & _ & Ht & _)]].
  - cbn [Broker.step]. split.
    + cbn. destruct Hs as [c Hc]. exists c. by apply lookup_app_l_Some.
    + intros t' x Hx Htx. apply register_waits in Hx as [Hx|[-> ->]]; [by apply Ho|].
      cbn [tx] in Htx. destruct Hs as [c Hc]. apply lookup_lt_Some in Hc. lia.
  - cbn [Broker.step]. split; [|exact Ho]. cbn [channels]. unfold drop_receiver.
    rewrite list_lookup_alter. case_decide as Hd; [|done]. rewrite Hd. by apply fmap_is_Some.
  - split.
    + rewrite (takes_settles _ _ _ _ Ht). case_decide; [by apply fmap_is_Some|done].
    + intros t x Hx. apply Ho. by eapply takes_waits_back.
Qed.

(** An answer to the broker is a message that says yes or no. *)
Lemma input_answers identity g i ev thread e approved :
  input_event identity g i = Some ev → answers (broker g) ev thread e approved →
  ∃ msg r, i = Inbound msg r ∧ thread_of identity msg = thread ∧
    parse_approval_reply (content msg) = Some approved ∧
    reply_event thread msg approved = Some ev ∧
    (ev = ResolvedById thread (request_id e) approved ∨
     (ev = ResolvedFifo thread approved ∧ ∃ q, pending (broker g) !! thread = Some (e :: q))).
Proof.
  intros Hev Ha. destruct i as [msg r|request id instant|instant|j|a]; cbn [input_event] in Hev.
  2: { destruct (fst _); simplify_eq. destruct Ha as [?|[[? _]|[? _]]]; congruence. }
  2-4: simplify_eq; destruct Ha as [?|[[? _]|[? _]]]; congruence.
  unfold message_event in Hev. destruct (confirms_switch _ _ _ _); [done|].
  destruct (command_of msg); [done|].
  destruct (parse_approval_reply (content msg)) as [b|] eqn:Hp; [|done].
  exists msg, r. split; [done|].
  assert (ev = ResolvedFifo (thread_of identity msg) b ∨
          ∃ id, ev = ResolvedById (thread_of identity msg) id b) as Hev'.
  { unfold reply_event in Hev. cases; eauto. }
  destruct Ha as [->|[[-> Hq]|[-> _]]], Hev' as [?|[id ?]]; simplify_eq; eauto 10.
Qed.

(** A request that waits and is decided in the end was answered on the way. *)
Lemma run_delivers identity g thread e h approved :
  wf (broker g) → owned thread e (broker g) →
  channels (broker g) !! tx e = Some Open →
  channels (broker (grun identity g h)) !! tx e = Some (Sent approved) →
  ∃ pre msg r post, h = pre ++ Inbound msg r :: post ∧
    thread_of identity msg = thread ∧
    parse_approval_reply (content msg) = Some approved ∧
    (reply_event thread msg approved = Some (ResolvedById thread (request_id e) approved) ∨
     (reply_event thread msg approved = Some (ResolvedFifo thread approved) ∧
      ∃ q, pending (broker (grun identity g pre)) !! thread = Some (e :: q))).
Proof.
  intros Hwf Ho Hopen.
  assert (∀ h, owned thread e (broker (grun identity g h))) as Hown.
  { intros h'. induction h' as [|i h' IH] using rev_ind; [done|]. rewrite grun_snoc.
    rewrite gstep_broker by (by apply grun_wf). destruct (input_event _ _ _); [|done].
    apply owned_step; [by apply grun_wf|done]. }
  induction h as [|i h IH] using rev_ind; [intros Hs; cbn in Hs; congruence|].
  rewrite grun_snoc. set (g1 := grun identity g h) in *. intros Hs.
  assert (wf (broker g1)) as Hwf1 by by apply grun_wf.
  rewrite gstep_broker in Hs by done.
  assert (channels (broker g1) !! tx e = Some (Sent approved) →
    ∃ pre msg r post, h ++ [i] = pre ++ Inbound msg r :: post ∧
      thread_of identity msg = thread ∧
      parse_approval_reply (content msg) = Some approved ∧
      (reply_event thread msg approved = Some (ResolvedById thread (request_id e) approved) ∨
       (reply_event thread msg approved = Some (ResolvedFifo thread approved) ∧
        ∃ q, pending (broker (grun identity g pre)) !! thread = Some (e :: q)))) as Hbefore.
  { intros (pre & msg & r & post & -> & H0)%IH. exists pre, msg, r, (post ++ [i]).
    by rewrite <- app_assoc. }
  destruct (input_event identity g1 i) as [ev|] eqn:Hev; [|by apply Hbefore].
  destruct (step_sends _ _ _ _ Hwf1 Hs) as [?|(_ & t & x & Hx & Htx & Ha)]; [by apply Hbefore|].
  destruct (Hown h) as [_ Hu]. destruct (Hu t x Hx Htx) as [-> ->].
  destruct (input_answers _ _ _ _ _ _ _ Hev Ha) as (msg & r & -> & Ht & Hp & Hr & Hkind).
  exists h, msg, r, []. split_and!; [done..|].
  destruct Hkind as [->|[-> Hq]]; [by left|by right].
Qed.

(** The user said yes to the request of a handler while it waited: a message of
    its thread that names the request, or a plain one when it was the oldest. *)
Definition user_agreed identity g thread (id : string) (rx : nat) during : Prop :=
  ∃ pre msg r post, during = pre ++ Inbound msg r :: post ∧
    thread_of identity msg = thread ∧ parse_approval_reply (content msg) = Some true ∧
    (reply_event thread msg true = Some (ResolvedById thread id true) ∨
     (reply_event thread msg true = Some (ResolvedFifo thread true) ∧
      ∃ e q, pending (broker (grun identity g pre)) !! thread = Some (e :: q) ∧ tx e = rx)).

Local Notation handler := (approval_handler to_json command_arg timeout_arg pretty_json rfc3339).

Definition chat_of (request : ApprovalRequest Value) : string := default "" (req_chat_id request).

Lemma handler_approved identity g request id instant during :
  wf (broker g) →
  fst (handler identity g request id instant during) = Approved →
  let thread := request_thread identity request (chat_of request) in
  (hard_floor_reason request = None ∧ auto g thread = true) ∨
  user_agreed identity (snd (gask identity g request id instant)) thread id
    (length (channels (broker g))) during.
Proof.
  intros Hwf. cbv zeta. unfold approval_handler.
  pose proof (ask_broker identity g request id instant) as Hb.
  destruct (gask identity g request id instant) as [[resp|a] g1] eqn:Hask.
  - cbn [fst]. intros ->. left. unfold ask, chat_of in *.
    destruct (req_chat_id request) as [c|]; cbn [non_empty default] in *; [|done].
    destruct (str_is_empty c); [done|].
    destruct (non_empty (req_channel request)) as [ch|]; [|done].
    destruct (hard_floor_reason request); cbn [negb andb] in Hask; [done|].
    split; [done|]. change (Datatypes.id c) with c.
    by destruct (ThreadApprovalStore.is_auto_approve _ _).
  - destruct Hb as (Hb & Hrx & Hid). intros Hcl. right. cbn [snd].
    assert (asked_thread a = request_thread identity request (chat_of request)) as Hth.
    { unfold ask, chat_of in *. destruct (req_chat_id request) as [c|]; cbn [non_empty default] in *; [|done].
      destruct (str_is_empty c); [done|].
      destruct (non_empty (req_channel request)) as [ch|]; [|done].
      destruct (_ && _); [done|]. by injection Hask as <- _. }
    rewrite <- Hth. set (hf := match hard_floor_reason request with Some _ => true | None => false end) in *.
    set (e := mkPendingEntry id hf instant (length (channels (broker g)))).
    assert (wf (broker g1)) as Hwf1 by (rewrite Hb; by apply wf_step).
    assert (channels (broker g1) !! tx e = Some Open) as Ho.
    { rewrite Hb. cbn. by apply list_lookup_middle. }
    assert (owned (asked_thread a) e (broker g1)) as Hown.
    { split; [by rewrite Ho|]. rewrite Hb. intros t x Hx Htx. cbn [Broker.step] in Hx.
      apply register_waits in Hx as [Hx|[-> ->]]; [|done].
      apply waits_tx_bound in Hx; [|done]. cbn [tx e] in Htx. lia. }
    unfold conclude in Hcl. cbn [fst] in Hcl. rewrite Hrx in Hcl.
    change (length (channels (broker g))) with (tx e) in Hcl.
    destruct (channels (broker (grun identity g1 during)) !! tx e) as [[|[|]| |]|] eqn:Hc; try done.
    destruct (run_delivers _ _ _ _ _ _ Hwf1 Hown Ho Hc)
      as (pre & msg & r & post & -> & Ht & Hp & Hk).
    exists pre, msg, r, post. split_and!; [done..|]. destruct Hk as [?|[? [q Hq]]]; [by left|].
    right. split; [done|]. by exists e, q.
Qed.

(** ** What the gateway promises *)

(** C2: A thread that starts in manual mode, on a gateway without pending
    confirmations, is in automatic mode after a run only if its history holds a
    skip command of the thread whose very next message in the thread was
    "confirm", in any capitalisation and less than 60 seconds after the command
    was stored, and no later message of the thread asked for approvals again.
    Nothing else, no reply, no other thread, no request of the agent, switches a
    thread. *)
Theorem auto_approve_needs_confirm identity g0 h thread
    (Hconfirms : confirms g0 = ∅) (Hmanual : auto g0 thread = false)
    (Hauto : auto (grun identity g0 h) thread = true) :
  switch_confirmed identity thread h.
Proof. by apply (history_modes identity g0 h thread). Qed.

(** What one message does, in every reachable gateway. It is kept from the
    agent exactly when it confirms a pending switch in time, is a thread command,
    or is a yes or no that was delivered to a waiting handler; a yes or no that
    reaches nobody goes on to the agent. It touches the broker only as the one
    answer it is, for its own thread: by name when it is a card's reply that
    carries a request id, which never decides another request, to the oldest
    request when it is plain, and not at all when it is injected for another
    purpose. It changes no other thread's mode or pending confirmation; it leaves
    its thread automatic only if it confirmed in time or the thread was so and it
    does not ask for approvals again; and it drops the thread's pending
    confirmation, unless it is itself a skip command in manual mode, which starts
    a new one of 60 seconds. *)
Theorem interceptor_message identity g0 h msg r (Hnew : broker g0 = ApprovalBroker.new) :
  let g := grun identity g0 h in
  let thread := thread_of identity msg in
  let '(consumed, g') := intercept identity g msg r in
  (consumed = true ↔
     confirms_switch g thread msg r = true ∨ is_Some (command_of msg) ∨
     ∃ approved, parse_approval_reply (content msg) = Some approved ∧
                 delivered (broker g) (broker g') approved) ∧
  broker g' = apply_event (broker g) (message_event identity g msg r) ∧
  (∀ id, metadata msg !! "inject_kind" = Some "approval_response" →
     metadata msg !! "request_id" = Some id → id ≠ "" →
     ∀ j b, channels (broker g) !! j = Some Open → channels (broker g') !! j = Some (Sent b) →
       ∃ e, waits (broker g) thread e ∧ tx e = j ∧ request_id e = id) ∧
  (∀ t, auto g' t =
     if decide (t = thread) then
       confirms_switch g thread msg r ||
       (auto g t && negb (bool_decide (command_of msg = Some RequireApprovalCmd)))
     else auto g t) ∧
  (∀ t, confirms g' !! t =
     if decide (t = thread) then
       if bool_decide (command_of msg = Some SkipApproval) && negb (auto g t)
       then Some (mkConfirmPending (later r + CONFIRM_WINDOW) (channel msg) (chat_id msg))
       else None
     else confirms g !! t).
Proof.
  cbv zeta. set (g := grun identity g0 h).
  assert (wf (broker g)) as Hwf by (apply grun_wf; rewrite Hnew; apply wf_new).
  pose proof (interceptor_broker identity g msg r Hwf) as Hb.
  pose proof (interceptor_modes identity g msg r) as Hm. cbv zeta in Hm.
  destruct (intercept identity g msg r) as [consumed g']. cbn [snd] in Hm.
  destruct Hb as [Hb Hc]. split_and!; [done|done| |apply Hm|apply Hm].
  intros id Hkind Hid Hne j b Hopen Hsent. rewrite Hb in Hsent.
  unfold message_event in Hsent.
  destruct (confirms_switch _ _ _ _); [cbn in Hsent; congruence|].
  destruct (command_of msg); [cbn in Hsent; congruence|].
  destruct (parse_approval_reply (content msg)) as [ok|]; [|cbn in Hsent; congruence].
  unfold reply_event in Hsent. rewrite Hkind, Hid in Hsent.
  change (String.eqb "approval_response" "approval_response") with true in Hsent.
  cbn match in Hsent. replace (str_is_empty id) with false in Hsent by by destruct id.
  destruct (step_sends _ _ _ _ Hwf Hsent) as [?|(_ & t & e & He & Htx & Ha)]; [congruence|].
  exists e. destruct Ha as [Ha|[[Ha _]|[Ha _]]]; simplify_eq. auto.
Qed.

(** C1: A call of a shell command that a hard floor rule matches, made by an
    agent whose approval handler is the gateway's and whose session is not a
    trusted local one, runs only if, while the handler waited, a message in the
    thread of the call's chat said yes to that very request: it named the
    request's id, or it was plain and the request was the oldest one of the
    thread. Automatic mode, the gate's policy and answers to other requests do
    not let it through. *)
Theorem hard_floor_asks_user (regex_is_match : string → string → bool)
    identity g0 h id instant during clock
    (c : CallContext (Value := Value) (W := Gateway (Body := Body))) name args rule
    (Hnew : broker g0 = ApprovalBroker.new)
    (Hhandler : Approval.approval_handler c =
       Some (λ request g, handler identity g request id instant during))
    (Hidentity : thread_identity c = identity)
    (Hsession : trusted_local_session c = false)
    (Hfloor : hard_floor_check regex_is_match command_arg name args = Some rule)
    (Hruns : fst (check_tool_call regex_is_match command_arg pretty_json
                    (λ g, (clock, g)) c name args (grun identity g0 h)) = None) :
  ∃ request, hard_floor_reason request = Some (rule_reason rule) ∧
    user_agreed identity (snd (gask identity (grun identity g0 h) request id instant))
      (ThreadIdentity.resolve_key identity (default "" (ctx_chat_id c))) id
      (length (channels (broker (grun identity g0 h)))) during.
Proof.
  set (g := grun identity g0 h) in *.
  assert (wf (broker g)) as Hwf by (apply grun_wf; rewrite Hnew; apply wf_new).
  apply check_tool_call_None in Hruns as (_ & _ & [Ht|Hask]); [congruence|].
  destruct Hask as (hd & Hh & Ha); [right; by rewrite Hfloor|].
  rewrite Hhandler in Hh. injection Hh as <-.
  set (request := call_request regex_is_match command_arg c name args clock) in Ha.
  assert (hard_floor_reason request = Some (rule_reason rule)) as Hr.
  { unfold request, call_request. cbn [hard_floor_reason]. by rewrite Hfloor. }
  exists request. split; [done|].
  destruct (handler_approved _ _ _ _ _ _ Hwf Ha) as [[Hn _]|Hu]; [congruence|].
  replace (ThreadIdentity.resolve_key identity (default "" (ctx_chat_id c)))
    with (request_thread identity request (chat_of request)); [done|].
  unfold request_thread, request, call_request, chat_of. cbn [Approval.user_id agent_id req_chat_id].
  rewrite Hidentity. destruct identity as [[u a]|]; cbn; [|done]. by destruct (_ && _).
Qed.

Lemma ask_registers identity g request id instant cid ch :
  non_empty (req_chat_id request) = Some cid → non_empty (req_channel request) = Some ch →
  let thread := request_thread identity request cid in
  is_Some (hard_floor_reason request) ∨ auto g thread = false →
  ∃ g1, gask identity g request id instant =
          (inr (mkAsked (length (channels (broker g))) thread id ch cid), g1) ∧
    confirms g1 = confirms g ∧ store g1 = store g ∧
    broker g1 = Broker.step (broker g) (Registered thread id
                  (match hard_floor_reason request with Some _ => true | None => false end) instant).
Proof.
  intros Hcid Hch. cbv zeta. intros Hask. unfold ask. rewrite Hcid, Hch. cbv zeta.
  replace (_ && _) with false; [by eexists|].
  destruct Hask as [[x Hx]| ->]; [rewrite Hx; done|]. by rewrite andb_false_r.
Qed.

(** A reply of yes or no to the request [id], as a card sends it. *)
Definition card_reply msg (id : string) (yes : bool) : Prop :=
  content msg = (if yes then "yes" else "no") ∧
  metadata msg !! "inject_kind" = Some "approval_response" ∧
  metadata msg !! "request_id" = Some id.

Lemma card_reply_event identity g msg r id yes :
  card_reply msg id yes → id ≠ "" →
  message_event identity g msg r = Some (ResolvedById (thread_of identity msg) id yes).
Proof.
  intros (Hc & Hk & Hi) Hne. unfold message_event.
  replace (confirms_switch g (thread_of identity msg) msg r) with false.
  2: { unfold confirms_switch. destruct (confirms g !! _); [|done]. rewrite Hc.
       destruct yes; by rewrite andb_false_r. }
  replace (command_of msg) with (@None ThreadCommand) by (unfold command_of; rewrite Hc; by destruct yes).
  replace (parse_approval_reply (content msg)) with (Some yes).
  2: { rewrite Hc. unfold parse_approval_reply.
       destruct yes; rewrite to_lowercase_ascii; reflexivity. }
  cbn match. unfold reply_event. rewrite Hk, Hi. cbn. by destruct id.
Qed.

(** The gateway's handler, for a request with a chat and a channel, under an
    id that is not pending in its thread: it answers at once, approving, exactly
    when the request is not a hard floor one and the thread is in automatic mode;
    otherwise a card reply that names the request decides it as the user said,
    and when nothing comes it is a time-out. A request without a chat or a
    channel is denied. *)
Theorem handler_outcomes identity g0 h request id instant
    (Hnew : broker g0 = ApprovalBroker.new) :
  let g := grun identity g0 h in
  let wait during := fst (handler identity g request id instant during) in
  (non_empty (req_chat_id request) = None ∨ non_empty (req_channel request) = None →
     ∀ during, ∃ reason, wait during = Denied reason) ∧
  (∀ cid ch, non_empty (req_chat_id request) = Some cid → non_empty (req_channel request) = Some ch →
     id ≠ "" →
     let thread := request_thread identity request cid in
     (∀ e, waits (broker g) thread e → request_id e ≠ id) →
     if negb (bool_decide (is_Some (hard_floor_reason request))) && auto g thread
     then ∀ during, handler identity g request id instant during = (Approved, g)
     else wait [] = TimedOut ∧
          ∀ msg r yes, thread_of identity msg = thread → card_reply msg id yes →
            wait [Inbound msg r] = if yes then Approved else Denied "User denied").
Proof.
  cbv zeta. set (g := grun identity g0 h).
  assert (wf (broker g)) as Hwf by (apply grun_wf; rewrite Hnew; apply wf_new).
  split.
  - intros Hn during. unfold approval_handler, ask.
    destruct (non_empty (req_chat_id request)); [|by eexists].
    destruct Hn as [?| ->]; [done|by eexists].
  - intros cid ch Hcid Hch Hne Hfresh.
    destruct (negb _ && _) eqn:Hauto.
    { intros during. unfold approval_handler, ask. rewrite Hcid, Hch. cbv zeta.
      apply andb_true_iff in Hauto as [Hf ->]. apply negb_true_iff, bool_decide_eq_false in Hf.
      destruct (hard_floor_reason request); [by destruct Hf|done]. }
    destruct (ask_registers identity g request id instant cid ch Hcid Hch)
      as (g1 & Hask & Hcf & Hst & Hb).
    { destruct (hard_floor_reason request); [left; by eexists|]. right.
      by rewrite bool_decide_eq_false_2 in Hauto by by intros []. }
    set (thread := request_thread identity request cid) in *.
    set (hf := match hard_floor_reason request with Some _ => true | None => false end) in *.
    set (e := mkPendingEntry id hf instant (length (channels (broker g)))).
    assert (wf (broker g1)) as Hwf1 by (rewrite Hb; by apply wf_step).
    assert (channels (broker g1) !! tx e = Some Open) as Ho
      by (rewrite Hb; cbn; by apply list_lookup_middle).
    unfold approval_handler. rewrite Hask. unfold conclude. cbn [rx gateway_run fold_left fst].
    change (length (channels (broker g))) with (tx e). split; [by rewrite Ho|].
    intros msg r yes Ht Hcard. rewrite gstep_broker by done. cbn [input_event].
    rewrite (card_reply_event _ _ _ _ id yes), Ht by done. cbn [apply_event Broker.step].
    destruct (resolve_by_id_takes (broker g1) thread id yes Hwf1)
      as [(l1 & x & l2 & Hq & Hid & _ & Hx)|[Hno _]].
    + destruct (ApprovalBroker.resolve_by_id (broker g1) thread id yes) as [ok b'].
      destruct Hx as [_ Htk]. cbn [snd].
      assert (waits (broker g1) thread x) as Hw by (eexists; split; [exact Hq|set_solver]).
      rewrite Hb in Hw. cbn [Broker.step] in Hw.
      apply register_waits in Hw as [Hw|[_ Hxe]]; [by destruct (Hfresh x Hw)|subst x].
      change (mkPendingEntry _ _ _ _) with e in Htk.
      rewrite (takes_settles _ _ _ _ Htk), decide_True, Ho by (by left). by destruct yes.
    + destruct (Hno e); [|done]. rewrite Hb. apply register_waits. by right.
Qed.
End messages.

(** ** Concrete runs *)

(** A gateway for text arguments, with a codec that keeps the file as it is. *)
Module Demo.
Definition fresh : Gateway (Body := PersistedFile) :=
  mkGateway ApprovalBroker.new (mkStore ∅ "/config") Missing ∅ [].
Definition alice : ThreadKey := ThreadKey.new "alice" "zc".
Definition identity : ThreadIdentity := Known alice.
Definition at_second (n : Z) : Readings := mkReadings (seconds n) (seconds n) n None None.
Definition say (text : string) : InboundMessage := InboundMessage.new "discord" "user" "42" text.
Definition card (id text : string) : InboundMessage :=
  InboundMessage.with_metadata
    (InboundMessage.with_metadata (InboundMessage.new "acp" "user" "42" text)
       "inject_kind" "approval_response") "request_id" id.
Definition on (msg : InboundMessage) (n : Z) : Input (Value := string) := Inbound msg (at_second n).
Definition switching : list (Input (Value := string)) :=
  [on (say " /Skip-Approval ") 0; on (say "CONFIRM") 59].
Definition steps (h : list (Input (Value := string))) : Gateway :=
  gateway_run (Body := PersistedFile) Ok Some (λ _, None) (λ s, s) fmt_Z identity fresh h.
Definition rule_matches (pattern command : string) : bool :=
  String.eqb command "rm -rf /" && starts_with pattern "\brm\s+(-[rRfF]+\s+)+/(".
Definition handler (during : list (Input (Value := string))) :=
  λ (request : ApprovalRequest string) (g : Gateway (Body := PersistedFile)),
    approval_handler Ok Some (λ _, None) (λ s, s) fmt_Z identity g request "01A" 0 during.
Definition ctx (during : list (Input (Value := string))) :
    CallContext (Value := string) (W := Gateway (Body := PersistedFile)) :=
  {| hooks := Hooks.HookEngine.new (Hooks.mkHooksConfig false [] [] []);
     agent_mode := Autonomous; category := λ _, Some Shell; trusted_local_session := false;
     gate := ApprovalGate.new {| enabled := false; policy := CfgAlwaysAllow; require_for := [];
                                 dangerous_tools := []; auto_approve_timeout_secs := 0;
                                 approval_timeout_secs := 0 |};
     Approval.approval_handler := Some (handler during); thread_identity := identity;
     ctx_channel := Some "discord"; ctx_chat_id := Some "42" |}.
Definition request : ApprovalRequest string :=
  ApprovalRequest.with_routing (ApprovalRequest.new "shell" "ls" 0 0) (Some "discord") (Some "42").
End Demo.

Lemma auto_approve_needs_confirm_witness :
  ThreadApprovalStore.is_auto_approve (store (Demo.steps Demo.switching)) Demo.alice = true ∧
  switch_confirmed Demo.identity Demo.alice Demo.switching.
Proof.
  split; [vm_compute; reflexivity|].
  apply (auto_approve_needs_confirm Ok Some (λ _, None) (λ s, s) fmt_Z Demo.identity Demo.fresh
           Demo.switching Demo.alice); vm_compute; reflexivity.
Defined.

Lemma interceptor_message_witness :
  let h := [Ask Demo.request "01A" 0] in
  let out := interceptor Ok fmt_Z Demo.identity (Demo.steps h) (Demo.card "01A" "yes")
               (Demo.at_second 1) in
  fst out = true ∧ channels (broker (snd out)) = [Sent true] ∧
  (let '(consumed, g') := out in
   consumed = true ↔
     confirms_switch (Demo.steps h) Demo.alice (Demo.card "01A" "yes") (Demo.at_second 1) = true ∨
     is_Some (command_of (Demo.card "01A" "yes")) ∨
     ∃ approved, parse_approval_reply (content (Demo.card "01A" "yes")) = Some approved ∧
                 delivered (broker (Demo.steps h)) (broker g') approved).
Proof.
  cbv zeta. split; [vm_compute; reflexivity|]. split; [vm_compute; reflexivity|].
  pose proof (interceptor_message Ok Some (λ _, None) (λ s, s) fmt_Z Demo.identity Demo.fresh
                [Ask Demo.request "01A" 0] (Demo.card "01A" "yes") (Demo.at_second 1) eq_refl) as H.
  cbv zeta in H. unfold Demo.steps.
  destruct (interceptor _ _ _ _ _ _) as [consumed g']. apply H.
Defined.

Lemma hard_floor_asks_user_witness :
  let during := [Demo.on (Demo.say "yes") 5] in
  fst (check_tool_call Demo.rule_matches Some (λ s, s) (λ g, (0, g)) (Demo.ctx during) "shell"
         "rm -rf /" (Demo.steps Demo.switching)) = None ∧
  ∃ request : ApprovalRequest string,
    hard_floor_reason request = Some "`rm -rf /` or `rm -rf /*` would wipe the entire filesystem." ∧
    user_agreed Ok Some (λ _, None) (λ s, s) fmt_Z Demo.identity
      (snd (ask Some (λ _, None) (λ s, s) Demo.identity (Demo.steps Demo.switching) request "01A" 0))
      Demo.alice "01A" 0 during.
Proof.
  cbv zeta. split; [vm_compute; reflexivity|].
  apply (hard_floor_asks_user Ok Some (λ _, None) (λ s, s) fmt_Z Demo.rule_matches Demo.identity
           Demo.fresh Demo.switching "01A" 0 [Demo.on (Demo.say "yes") 5] 0
           (Demo.ctx [Demo.on (Demo.say "yes") 5]) "shell" "rm -rf /"
           (mkHardFloorRule "rm_rf_root"
              "`rm -rf /` or `rm -rf /*` would wipe the entire filesystem."
              "\brm\s+(-[rRfF]+\s+)+/(\s|\*|$)")); try reflexivity; vm_compute; reflexivity.
Defined.

Lemma handler_outcomes_witness :
  let wait during := fst (Demo.handler during Demo.request Demo.fresh) in
  wait [] = TimedOut ∧ wait [Demo.on (Demo.card "01A" "no") 3] = Denied "User denied" ∧
  ((non_empty (req_chat_id Demo.request) = None ∨ non_empty (req_channel Demo.request) = None) →
   ∀ during, ∃ reason, wait during = Denied reason).
Proof.
  cbv zeta. split; [vm_compute; reflexivity|]. split; [vm_compute; reflexivity|].
  apply (handler_outcomes Ok Some (λ _, None) (λ s, s) fmt_Z Demo.identity Demo.fresh []
           Demo.request "01A" 0 eq_refl).
Defined.
