(* ===== verification/Taint.v ===== *)
(** Tracking of what tools returned: src/src/safety/taint.rs and
    src/src/safety/chain_alert.rs.

    A hash set is a [gset]; the order in which it is iterated is not specified,
    so it is a parameter ([HashOrder]). The serializer of JSON values is a
    parameter too. Logging and audit events are left out. *)

From S2P Require Import Prelude Text Safety.

(** ** Labels, violations and sinks *)

Inductive TaintLabel : Type := ExternalNetwork | UserInput | Pii | Secret | UntrustedAgent.

#[export] Instance TaintLabel_eq_dec : EqDecision TaintLabel.
Proof. solve_decision. Defined.

#[export] Instance TaintLabel_countable : Countable TaintLabel.
Proof.
  refine (inj_countable'
    (λ l, match l with
          | ExternalNetwork => 0 | UserInput => 1 | Pii => 2 | Secret => 3 | UntrustedAgent => 4
          end%nat)
    (λ n, match n with
          | 0 => ExternalNetwork | 1 => UserInput | 2 => Pii | 3 => Secret | _ => UntrustedAgent
          end%nat) _).
  by intros [].
Defined.

Definition TaintLabel_display (self : TaintLabel) : string :=
  match self with
  | ExternalNetwork => "ExternalNetwork"
  | UserInput => "UserInput"
  | Pii => "Pii"
  | Secret => "Secret"
  | UntrustedAgent => "UntrustedAgent"
  end.

Record TaintViolation : Type := mkTaintViolation {
  sink : string;
  label : TaintLabel;
  violation_source : option string;
  violation_message : string;
}.

Definition TaintViolation_display (self : TaintViolation) : string :=
  "Taint violation at sink '" +:+ sink self +:+ "': " +:+ violation_message self.

Record TaintSink : Type := mkTaintSink {
  sink_name : string;
  blocked_labels : list TaintLabel;
}.

Definition SNIPPET_MAX_LEN : nat := 200.

Record TaintedSnippet : Type := mkTaintedSnippet {
  snippet : string;
  labels : gset TaintLabel;
  source_tool : string;
  secret_markers : list string;
}.

Definition SINKS : list TaintSink :=
  [ mkTaintSink "shell_execute" [ExternalNetwork; Secret];
    mkTaintSink "web_fetch" [Secret];
    mkTaintSink "http_request" [Secret];
    mkTaintSink "message" [Secret] ].

Definition NETWORK_SOURCE_TOOLS : list string := ["web_fetch"; "http_request"; "web_search"].

Definition SECRET_PREFIXES : list string :=
  ["sk-"; "AKIA"; "github_pat_"; "ghp_"; "gho_"; "glpat-"; "xoxb-"; "xoxp-"; "Bearer "].

(** ** Secret markers *)

(** The [while let] loop for one prefix. Each turn moves [search_from] past an
    occurrence, so that one turn per byte of the content is enough. The prefixes
    are ASCII, so that the slices start and end at character boundaries. *)
Fixpoint collect_from (fuel : nat) (content prefix : string) (search_from : nat) : list string :=
  match fuel with
  | O => []
  | S fuel =>
    match find_str (str_drop search_from content) prefix with
    | None => []
    | Some pos =>
      let abs_pos := (search_from + pos)%nat in
      let end_ := Nat.min (String.length content) (abs_pos + String.length prefix + 20) in
      utf8_truncate (str_drop abs_pos content) (end_ - abs_pos)
        :: collect_from fuel content prefix (abs_pos + String.length prefix)
    end
  end.

Definition collect_secret_markers (content : string) : list string :=
  mjoin (map (λ prefix, collect_from (S (String.length content)) content prefix 0) SECRET_PREFIXES).

(** ** The engine *)

Record TaintEngine : Type := mkTaintEngine {
  config : TaintConfig;
  tainted_snippets : list TaintedSnippet;
  tainted_outputs : gmap string (gset TaintLabel);
  external_tool_names : gset string;
  trusted : gset string;
}.

Class HashOrder := {
  hash_iter : gset TaintLabel → list TaintLabel;
  hash_iter_elements s : hash_iter s ≡ₚ elements s;
}.

Module TaintEngine.

Definition new (config : TaintConfig) : TaintEngine :=
  mkTaintEngine config [] ∅ ∅ (list_to_set (trusted_tools config)).

Definition register_external_tools (self : TaintEngine) (names : gset string) : TaintEngine :=
  mkTaintEngine (config self) (tainted_snippets self) (tainted_outputs self) names (trusted self).

(** The labels of an output. *)
Definition output_labels (self : TaintEngine) (tool_name : string) (markers : list string)
    : gset TaintLabel :=
  let labels : gset TaintLabel :=
    if any (String.eqb tool_name) NETWORK_SOURCE_TOOLS then {[ExternalNetwork]} else ∅ in
  let labels :=
    if bool_decide (ExternalNetwork ∉ labels) && bool_decide (tool_name ∈ external_tool_names self)
       && bool_decide (tool_name ∉ trusted self)
    then {[ExternalNetwork]} ∪ labels else labels in
  match markers with [] => labels | _ => {[Secret]} ∪ labels end.

Definition label_output (self : TaintEngine) (tool_name output : string)
    : gset TaintLabel * TaintEngine :=
  if negb (taint_enabled (config self)) then (∅, self)
  else
    let markers := collect_secret_markers output in
    let labels := output_labels self tool_name markers in
    if bool_decide (labels ≠ ∅) && negb (str_is_empty output) then
      (labels,
       mkTaintEngine (config self)
         (tainted_snippets self ++
          [mkTaintedSnippet (utf8_truncate output SNIPPET_MAX_LEN) labels tool_name markers])
         (tainted_outputs self) (external_tool_names self) (trusted self))
    else (labels, self).

Definition register_taint (self : TaintEngine) (tool_call_id : string) (ls : gset TaintLabel)
    : TaintEngine :=
  if negb (taint_enabled (config self)) || bool_decide (ls = ∅) then self
  else
    mkTaintEngine (config self) (tainted_snippets self)
      (<[tool_call_id := default ∅ (tainted_outputs self !! tool_call_id) ∪ ls]>
         (tainted_outputs self))
      (external_tool_names self) (trusted self).

Section sinks.
Context `{HashOrder}.

(** The blocking label of one snippet that the content carries. *)
Definition snippet_hit (content : string) (s : TaintSink) (sn : TaintedSnippet)
    : option TaintLabel :=
  List.find (λ l,
    bool_decide (l ∈ blocked_labels s) &&
    if decide (l = Secret) then any (contains content) (secret_markers sn)
    else contains content (snippet sn)) (hash_iter (labels sn)).

Fixpoint tainted_in (snippets : list TaintedSnippet) (content : string) (s : TaintSink)
    : option (string * TaintLabel) :=
  match snippets with
  | [] => None
  | sn :: rest =>
    match snippet_hit content s sn with
    | Some l => Some (source_tool sn, l)
    | None => tainted_in rest content s
    end
  end.

Definition contains_tainted_content (self : TaintEngine) (content : string) (s : TaintSink)
    : option (string * TaintLabel) :=
  tainted_in (tainted_snippets self) content s.

(** [input_str] is the input as [serde_json::to_string] gives it. *)
Definition check_sink (self : TaintEngine) (sink_tool input_str : string)
    : result TaintViolation unit :=
  if negb (taint_enabled (config self)) then Ok tt
  else
    match List.find (λ s, String.eqb (sink_name s) sink_tool) SINKS with
    | None => Ok tt
    | Some s =>
      match contains_tainted_content self input_str s with
      | Some (source, l) =>
        let violation :=
          mkTaintViolation sink_tool l (Some source)
            (TaintLabel_display l +:+ " content from '" +:+ source +:+ "' detected in '"
               +:+ sink_tool +:+ "' input -- data flow blocked") in
        if block_on_violation (config self) then Err violation else Ok tt
      | None => Ok tt
      end
    end.
End sinks.
End TaintEngine.

(** ** Chains of tools *)

Definition DANGEROUS_CHAINS : list (list string * string) :=
  [ (["filesystem_write"; "shell_execute"], "write-then-execute: possible code injection");
    (["shell_execute"; "web_fetch"], "execute-then-fetch: possible data exfiltration");
    (["longterm_memory"; "shell_execute"],
     "memory-then-execute: possible memory poisoning exploitation") ].

Record ChainTracker : Type := mkChainTracker {
  history : list string;
  alerted : list bool;
}.

Module ChainTracker.
Definition new : ChainTracker :=
  mkChainTracker [] (replicate (length DANGEROUS_CHAINS) false).

(** The loop of [contains_subsequence]: the index of the next name to see. *)
Fixpoint subsequence_from (haystack needle : list string) (needle_idx : nat) : nat :=
  match haystack with
  | [] => needle_idx
  | item :: rest =>
    subsequence_from rest needle
      (match needle !! needle_idx with
       | Some n => if String.eqb item n then S needle_idx else needle_idx
       | None => needle_idx
       end)
  end.

Definition contains_subsequence (haystack needle : list string) : bool :=
  Nat.eqb (subsequence_from haystack needle 0) (length needle).

(** The new flags and the descriptions of the alerts raised. *)
Fixpoint check_patterns (history : list string) (chains : list (list string * string))
    (alerted : list bool) : list bool * list string :=
  match chains, alerted with
  | (pattern, description) :: chains, a :: alerted =>
    let '(flags, alerts) := check_patterns history chains alerted in
    if a then (true :: flags, alerts)
    else if contains_subsequence history pattern then (true :: flags, description :: alerts)
    else (false :: flags, alerts)
  | _, _ => (alerted, [])
  end.

Definition record (self : ChainTracker) (tool_names : list string) : ChainTracker * list string :=
  let h := history self ++ tool_names in
  let '(flags, alerts) := check_patterns h DANGEROUS_CHAINS (alerted self) in
  (mkChainTracker h flags, alerts).
End ChainTracker.

(** What is kept of an occurrence: the prefix and up to 20 bytes after it. *)
Definition marker_at (content p : string) (i : nat) : string :=
  utf8_truncate (str_drop i content) (String.length p + 20).

Lemma collect_marker content p i :
  utf8_truncate (str_drop i content)
    (Nat.min (String.length content) (i + String.length p + 20) - i) = marker_at content p i.
Proof.
  unfold marker_at, utf8_truncate. rewrite !str_drop_length.
  destruct (Nat.leb_spec (String.length content - i) (String.length p + 20));
    destruct (Nat.leb_spec (String.length content - i)
                (Nat.min (String.length content) (i + String.length p + 20) - i)); try done; try lia.
  do 2 f_equal. lia.
Qed.

Lemma collect_sound fuel content p from m :
  (from ≤ String.length content)%nat → m ∈ collect_from fuel content p from →
  ∃ i, occurs content p i ∧ m = marker_at content p i.
Proof.
  revert from. induction fuel as [|fuel IH]; intros from Hfrom; cbn [collect_from];
    [by intros ?%elem_of_nil|].
  destruct (find_str _ p) as [pos|] eqn:E; [|by intros ?%elem_of_nil].
  apply find_str_Some in E as [Hocc _]. rewrite occurs_drop in Hocc by done.
  rewrite collect_marker. intros [-> |Hm]%elem_of_cons; [by eexists|].
  apply (IH (from + pos + String.length p)%nat); [|done].
  by apply occurs_length.
Qed.

(** Enough fuel finds, for every occurrence, one that overlaps it. *)
Lemma collect_complete fuel content p from i :
  p ≠ "" → (String.length content < fuel + from)%nat → (from ≤ i)%nat → occurs content p i →
  ∃ i', (i' ≤ i < i' + String.length p)%nat ∧ occurs content p i' ∧
        marker_at content p i' ∈ collect_from fuel content p from.
Proof.
  intros Hp. revert from. induction fuel as [|fuel IH]; intros from Hfuel Hfrom Hocc.
  { destruct Hocc as [Hl _]. lia. }
  assert (from ≤ String.length content)%nat as Hle by (destruct Hocc; lia).
  assert (0 < String.length p)%nat as Hp0 by by (destruct p; [done|simpl; lia]).
  cbn [collect_from]. destruct (find_str _ p) as [pos|] eqn:E.
  2: { destruct (find_str_None _ _ E (i - from)%nat). rewrite occurs_drop by done.
       by replace (from + (i - from))%nat with i by lia. }
  apply find_str_Some in E as [Hpos Hmin]. rewrite occurs_drop in Hpos by done.
  rewrite collect_marker.
  assert (from + pos ≤ i)%nat as Hpi.
  { destruct (Nat.le_gt_cases pos (i - from)) as [|Hlt]; [lia|].
    destruct (Hmin _ Hlt). rewrite occurs_drop by done.
    by replace (from + (i - from))%nat with i by lia. }
  destruct (Nat.lt_ge_cases i (from + pos + String.length p)) as [Hlt|Hge].
  - exists (from + pos)%nat. split_and!; [lia..|done|]. by left.
  - destruct (IH (from + pos + String.length p)%nat) as (i' & ? & ? & ?); [lia..|done|].
    exists i'. split_and!; [lia..|done|]. by right.
Qed.

Lemma collect_fuel fuel fuel' content p from :
  p ≠ "" → (String.length content < fuel + from)%nat → (String.length content < fuel' + from)%nat →
  (from ≤ String.length content)%nat →
  collect_from fuel content p from = collect_from fuel' content p from.
Proof.
  intros Hp. assert (0 < String.length p)%nat as Hp0 by by (destruct p; [done|simpl; lia]).
  revert fuel' from.
  induction fuel as [|fuel IH]; intros [|fuel'] from H1 H2 Hle; [lia..|]. cbn [collect_from].
  destruct (find_str _ p) as [pos|] eqn:E; [|done].
  apply find_str_Some in E as [Hpos _]. rewrite occurs_drop in Hpos by done.
  apply occurs_length in Hpos. f_equal. apply IH; lia.
Qed.

Lemma secret_prefixes_nonempty p : p ∈ SECRET_PREFIXES → p ≠ "".
Proof. unfold SECRET_PREFIXES. set_solver. Qed.

Lemma elem_of_markers content m :
  m ∈ collect_secret_markers content ↔
  ∃ p, p ∈ SECRET_PREFIXES ∧ m ∈ collect_from (S (String.length content)) content p 0.
Proof.
  unfold collect_secret_markers. rewrite list_elem_of_join. split.
  - intros (l & Hm & (p & -> & Hp)%list_elem_of_fmap). eauto.
  - intros (p & Hp & Hm). eexists. split; [done|]. apply list_elem_of_fmap. eauto.
Qed.

Section taint_spec.
Context `{HashOrder}.

Definition is_secret_text (content : string) : Prop :=
  ∃ p, p ∈ SECRET_PREFIXES ∧ contains content p = true.

Lemma markers_nonempty content : collect_secret_markers content ≠ [] ↔ is_secret_text content.
Proof.
  unfold is_secret_text. setoid_rewrite contains_occurs. split.
  - destruct (collect_secret_markers content) as [|m ms] eqn:E; [done|]. intros _.
    assert (m ∈ collect_secret_markers content) as Hm by by (rewrite E; left).
    apply elem_of_markers in Hm as (p & Hp & Hm).
    apply collect_sound in Hm as (i & Hi & _); [|lia]. eauto.
  - intros (p & Hp & i & Hi) Hn.
    destruct (collect_complete (S (String.length content)) content p 0 i) as (i' & _ & _ & Hm);
      [by apply secret_prefixes_nonempty|lia|lia|done|].
    assert (marker_at content p i' ∈ collect_secret_markers content) as Hin
      by by (apply elem_of_markers; eauto).
    rewrite Hn in Hin. by apply elem_of_nil in Hin.
Qed.

(** ** Histories *)

Inductive TaintEvent : Type :=
| RegisterTools (names : gset string)
| LabelOutput (tool output : string)
| RegisterTaint (id : string) (ls : gset TaintLabel).

Definition taint_step (e : TaintEngine) (ev : TaintEvent) : TaintEngine :=
  match ev with
  | RegisterTools names => TaintEngine.register_external_tools e names
  | LabelOutput tool output => snd (TaintEngine.label_output e tool output)
  | RegisterTaint id ls => TaintEngine.register_taint e id ls
  end.

Definition taint_run (cfg : TaintConfig) (h : list TaintEvent) : TaintEngine :=
  foldl taint_step (TaintEngine.new cfg) h.

(** The external tools after a history: those of the last registration. *)
Definition external_after (h : list TaintEvent) : gset string :=
  foldl (λ ext ev, match ev with RegisterTools names => names | _ => ext end) ∅ h.

Definition network_source (cfg : TaintConfig) (ext : gset string) (tool : string) : Prop :=
  tool ∈ NETWORK_SOURCE_TOOLS ∨ tool ∈ ext ∧ tool ∉ trusted_tools cfg.

(** The input carries what the output of [tool] was marked for with [l]. *)
Definition carries (cfg : TaintConfig) (ext : gset string) (tool output : string) (l : TaintLabel)
    (input : string) : Prop :=
  match l with
  | Secret => ∃ m, m ∈ collect_secret_markers output ∧ contains input m = true
  | ExternalNetwork =>
    network_source cfg ext tool ∧ contains input (utf8_truncate output SNIPPET_MAX_LEN) = true
  | _ => False
  end.

(** Some output of the history, labelled [l], is in the input. *)
Definition tainted (cfg : TaintConfig) (h : list TaintEvent) (l : TaintLabel) (source input : string)
    : Prop :=
  ∃ h1 output h2, h = h1 ++ LabelOutput source output :: h2 ∧ output ≠ "" ∧
    carries cfg (external_after h1) source output l input.

Definition blocks (tool : string) (l : TaintLabel) : Prop :=
  match l with
  | Secret => tool ∈ ["shell_execute"; "web_fetch"; "http_request"; "message"]
  | ExternalNetwork => tool = "shell_execute"
  | _ => False
  end.

Lemma taint_run_snoc cfg h ev : taint_run cfg (h ++ [ev]) = taint_step (taint_run cfg h) ev.
Proof. unfold taint_run. by rewrite foldl_app. Qed.

Lemma external_after_snoc h ev :
  external_after (h ++ [ev]) =
    match ev with RegisterTools names => names | _ => external_after h end.
Proof. unfold external_after. rewrite foldl_app. by destruct ev. Qed.

Lemma label_output_config e tool output :
  config (snd (TaintEngine.label_output e tool output)) = config e ∧
  external_tool_names (snd (TaintEngine.label_output e tool output)) = external_tool_names e ∧
  trusted (snd (TaintEngine.label_output e tool output)) = trusted e.
Proof. unfold TaintEngine.label_output. cbv zeta. by repeat case_match. Qed.

Lemma taint_run_config cfg h :
  config (taint_run cfg h) = cfg ∧ external_tool_names (taint_run cfg h) = external_after h ∧
  trusted (taint_run cfg h) = list_to_set (trusted_tools cfg).
Proof.
  induction h as [|ev h (IH1 & IH2 & IH3)] using rev_ind; [done|].
  rewrite taint_run_snoc, external_after_snoc.
  destruct ev as [names|tool output|id ls]; cbn [taint_step].
  - done.
  - by destruct (label_output_config (taint_run cfg h) tool output) as (-> & -> & ->).
  - unfold TaintEngine.register_taint. by case_match.
Qed.

Lemma elem_of_output_labels e tool ms l :
  l ∈ TaintEngine.output_labels e tool ms ↔
    (l = Secret ∧ ms ≠ []) ∨
    (l = ExternalNetwork ∧
     (tool ∈ NETWORK_SOURCE_TOOLS ∨ tool ∈ external_tool_names e ∧ tool ∉ trusted e)).
Proof.
  unfold TaintEngine.output_labels.
  assert (any (String.eqb tool) NETWORK_SOURCE_TOOLS = true ↔ tool ∈ NETWORK_SOURCE_TOOLS) as Hn.
  { rewrite any_true. setoid_rewrite String.eqb_eq. naive_solver. }
  destruct (any _ _) eqn:E.
  - rewrite bool_decide_eq_false_2 by set_solver. cbn [andb].
    destruct ms; set_solver.
  - assert (tool ∉ NETWORK_SOURCE_TOOLS) by by rewrite <- Hn.
    rewrite bool_decide_eq_true_2 by set_solver. cbn [andb].
    destruct (bool_decide (tool ∈ external_tool_names e)) eqn:E1; cbn [andb];
      [apply bool_decide_eq_true in E1|apply bool_decide_eq_false in E1].
    + destruct (bool_decide (tool ∉ trusted e)) eqn:E2;
        [apply bool_decide_eq_true in E2|apply bool_decide_eq_false in E2];
        destruct ms; set_solver.
    + destruct ms; set_solver.
Qed.

Definition snippet_of (e : TaintEngine) (tool output : string) : TaintedSnippet :=
  let ms := collect_secret_markers output in
  mkTaintedSnippet (utf8_truncate output SNIPPET_MAX_LEN) (TaintEngine.output_labels e tool ms)
    tool ms.

Lemma label_output_snippets e tool output sn :
  sn ∈ tainted_snippets (snd (TaintEngine.label_output e tool output)) ↔
    sn ∈ tainted_snippets e ∨
    (taint_enabled (config e) = true ∧ output ≠ "" ∧ labels (snippet_of e tool output) ≠ ∅ ∧
     sn = snippet_of e tool output).
Proof.
  unfold TaintEngine.label_output, snippet_of. destruct (taint_enabled (config e)); [|naive_solver].
  cbn [negb labels]. case_bool_decide as Hl; cbn [andb]; [|naive_solver].
  destruct output as [|c o]; cbn [negb str_is_empty snd]; [naive_solver|].
  cbn [tainted_snippets]. rewrite elem_of_app, list_elem_of_singleton. naive_solver.
Qed.

Lemma run_snippets cfg h sn :
  sn ∈ tainted_snippets (taint_run cfg h) ↔
    taint_enabled cfg = true ∧
    ∃ h1 tool output h2, h = h1 ++ LabelOutput tool output :: h2 ∧ output ≠ "" ∧
      labels (snippet_of (taint_run cfg h1) tool output) ≠ ∅ ∧
      sn = snippet_of (taint_run cfg h1) tool output.
Proof.
  induction h as [|ev h IH] using rev_ind.
  { cbn. split; [by intros ?%elem_of_nil|]. intros (_ & h1 & ? & ? & ? & Hh & _). by destruct h1. }
  rewrite taint_run_snoc.
  assert (sn ∈ tainted_snippets (taint_step (taint_run cfg h) ev) ↔
    sn ∈ tainted_snippets (taint_run cfg h) ∨
    (taint_enabled cfg = true ∧ ∃ tool output, ev = LabelOutput tool output ∧ output ≠ "" ∧
       labels (snippet_of (taint_run cfg h) tool output) ≠ ∅ ∧
       sn = snippet_of (taint_run cfg h) tool output)) as ->.
  { destruct ev as [names|tool output|id ls]; cbn [taint_step].
    - cbn. naive_solver.
    - rewrite label_output_snippets. destruct (taint_run_config cfg h) as (-> & _). naive_solver.
    - unfold TaintEngine.register_taint. case_match; cbn; naive_solver. }
  rewrite IH. split.
  - intros [(He & h1 & t & o & h2 & -> & ?)|(He & t & o & -> & ?)]; split; try done.
    + exists h1, t, o, (h2 ++ [ev]). by rewrite <- app_assoc.
    + by exists h, t, o, [].
  - intros (He & h1 & t & o & h2 & Hh & Hrest).
    destruct h2 as [|x h2 _] using rev_ind.
    + apply app_inj_tail in Hh as [-> ->]. right. eauto 8.
    + rewrite app_comm_cons, app_assoc in Hh. apply app_inj_tail in Hh as [-> ->].
      left. eauto 9.
Qed.

Lemma tainted_in_Some snippets content s src l :
  TaintEngine.tainted_in snippets content s = Some (src, l) →
  ∃ sn, sn ∈ snippets ∧ source_tool sn = src ∧ TaintEngine.snippet_hit content s sn = Some l.
Proof.
  induction snippets as [|sn rest IH]; cbn [TaintEngine.tainted_in]; [done|].
  destruct (TaintEngine.snippet_hit content s sn) eqn:E.
  - intros [= <- <-]. exists sn. split_and!; [by left|done|done].
  - intros Hr. destruct (IH Hr) as (x & ? & ? & ?). exists x. split_and!; [by right|done|done].
Qed.

Lemma tainted_in_None snippets content s :
  TaintEngine.tainted_in snippets content s = None →
  ∀ sn, sn ∈ snippets → TaintEngine.snippet_hit content s sn = None.
Proof.
  induction snippets as [|sn rest IH]; cbn [TaintEngine.tainted_in]; [by intros _ ? ?%elem_of_nil|].
  destruct (TaintEngine.snippet_hit content s sn) eqn:E; [done|].
  intros Hr x [-> |Hx]%elem_of_cons; [done|]. by apply IH.
Qed.

(** The test a label of a snippet has to pass. *)
Definition hits (content : string) (s : TaintSink) (sn : TaintedSnippet) (l : TaintLabel) : Prop :=
  l ∈ labels sn ∧ l ∈ blocked_labels s ∧
  if decide (l = Secret) then ∃ m, m ∈ secret_markers sn ∧ contains content m = true
  else contains content (snippet sn) = true.

Lemma snippet_hit_spec content s sn :
  (∀ l, TaintEngine.snippet_hit content s sn = Some l → hits content s sn l) ∧
  (TaintEngine.snippet_hit content s sn = None → ∀ l, ¬ hits content s sn l).
Proof.
  unfold TaintEngine.snippet_hit, hits. split.
  - intros l [Hin Hb]%List.find_some. apply list_elem_of_In in Hin.
    rewrite hash_iter_elements, elem_of_elements in Hin.
    apply andb_true_iff in Hb as [Hb%bool_decide_eq_true Hc]. split_and!; [done|done|].
    case_decide; [|done]. by apply any_true.
  - intros Hn l (Hl & Hb & Hc).
    assert (In l (hash_iter (labels sn))) as Hin.
    { apply list_elem_of_In. by rewrite hash_iter_elements, elem_of_elements. }
    pose proof (List.find_none _ _ Hn l Hin) as Hf. cbn beta in Hf.
    rewrite bool_decide_eq_true_2 in Hf by done. cbn [andb] in Hf.
    case_decide; [|congruence]. by apply any_true in Hc; rewrite Hc in Hf.
Qed.

Lemma sink_blocks s tool l :
  List.find (λ s, String.eqb (sink_name s) tool) SINKS = Some s → l ∈ blocked_labels s ↔ blocks tool l.
Proof.
  unfold blocks. cbn [SINKS List.find sink_name].
  repeat match goal with
  | |- context [String.eqb ?n tool] =>
    destruct (String.eqb_spec n tool) as [<-|?];
      [intros [= <-]; cbn [blocked_labels]; destruct l; split; try done; set_solver|]
  end. done.
Qed.

Lemma no_sink tool l :
  List.find (λ s, String.eqb (sink_name s) tool) SINKS = None → ¬ blocks tool l.
Proof.
  unfold blocks. cbn [SINKS List.find sink_name].
  repeat match goal with
  | |- context [String.eqb ?n tool] => destruct (String.eqb_spec n tool) as [<-|?]; [done|]
  end.
  intros _. destruct l; set_solver.
Qed.

Lemma hits_carries cfg h1 tool output content s l :
  hits content s (snippet_of (taint_run cfg h1) tool output) l ↔
  l ∈ blocked_labels s ∧ carries cfg (external_after h1) tool output l content.
Proof.
  unfold hits, snippet_of. cbn [labels secret_markers snippet].
  rewrite elem_of_output_labels. destruct (taint_run_config cfg h1) as (_ & -> & ->).
  unfold carries, network_source. rewrite elem_of_list_to_set.
  destruct l; case_decide; try done; [naive_solver..| |naive_solver]. split.
  - naive_solver.
  - intros (Hb & m & Hm & Hc). split_and!; [left; split; [done|]|done|eauto].
    intros Hn. rewrite Hn in Hm. by apply elem_of_nil in Hm.
Qed.
End taint_spec.

(** ** What is found *)

(** Secret markers. The search for one prefix ends within one turn per byte,
    and more turns find nothing more. A text gets a marker exactly when one of
    the prefixes stands in it; every marker is an occurrence of a prefix with up
    to 20 bytes after it, cut at a character boundary; and no secret is passed
    over: every occurrence of a prefix overlaps one that has its marker. *)
Theorem secret_markers_exact content :
  (∀ fuel p, p ∈ SECRET_PREFIXES → (String.length content < fuel)%nat →
     collect_from fuel content p 0 = collect_from (S (String.length content)) content p 0) ∧
  (collect_secret_markers content ≠ [] ↔ is_secret_text content) ∧
  (∀ m, m ∈ collect_secret_markers content →
     ∃ p i, p ∈ SECRET_PREFIXES ∧ occurs content p i ∧ m = marker_at content p i) ∧
  (∀ p i, p ∈ SECRET_PREFIXES → occurs content p i →
     ∃ i', (i' ≤ i < i' + String.length p)%nat ∧ occurs content p i' ∧
           marker_at content p i' ∈ collect_secret_markers content).
Proof.
  split_and!.
  - intros fuel p Hp Hf. apply collect_fuel; [by apply secret_prefixes_nonempty|lia..].
  - apply markers_nonempty.
  - intros m (p & Hp & Hm)%elem_of_markers.
    apply collect_sound in Hm as (i & ? & ?); [eauto|lia].
  - intros p i Hp Hi.
    destruct (collect_complete (S (String.length content)) content p 0 i) as (i' & ? & ? & ?);
      [by apply secret_prefixes_nonempty|lia|lia|done|].
    exists i'. split_and!; [lia..|done|]. apply elem_of_markers. eauto.
Qed.

(** A sink gets the violation of one hit, and one is found when there is any. *)
Lemma contains_tainted_spec `{HashOrder} cfg h tool s input :
  List.find (λ s, String.eqb (sink_name s) tool) SINKS = Some s →
  match TaintEngine.contains_tainted_content (taint_run cfg h) input s with
  | Some (source, l) =>
    taint_enabled cfg = true ∧ blocks tool l ∧ tainted cfg h l source input
  | None => taint_enabled cfg = true → ∀ source l, blocks tool l → ¬ tainted cfg h l source input
  end.
Proof.
  intros Hs. unfold TaintEngine.contains_tainted_content.
  destruct (TaintEngine.tainted_in _ _ _) as [[source l]|] eqn:E.
  - apply tainted_in_Some in E as (sn & Hsn & <- & Hit). apply snippet_hit_spec in Hit.
    apply run_snippets in Hsn as (He & h1 & t & o & h2 & -> & Ho & _ & ->).
    apply hits_carries in Hit as [Hb Hc]. split_and!; [done|by eapply sink_blocks|].
    exists h1, o, h2. done.
  - intros He source l Hb (h1 & o & h2 & -> & Ho & Hc).
    apply (sink_blocks s) in Hb; [|done].
    assert (hits input s (snippet_of (taint_run cfg h1) source o) l) as Hh
      by by apply hits_carries.
    eapply (proj2 (snippet_hit_spec input s _)); [|exact Hh].
    eapply tainted_in_None; [done|]. apply run_snippets. split; [done|].
    exists h1, source, o, h2. split_and!; try done.
    destruct Hh as [Hl _]. set_solver.
Qed.

(** C26: Taint tracking over any history of registrations and labelled outputs.
    A call is refused only when tracking is enabled and blocks, and then exactly
    when a label the tool may not receive is carried by its input: a marker of a
    secret in an earlier output (for the sinks of secrets), or the first 200
    bytes of an earlier output of a network tool or of an external tool that was
    not trusted (for [shell_execute]). The violation names the tool, such a
    label, and a tool whose output carried it. *)
Theorem taint_histories `{HashOrder} cfg h tool input :
  (∀ v, TaintEngine.check_sink (taint_run cfg h) tool input = Err v →
     taint_enabled cfg = true ∧ block_on_violation cfg = true ∧ sink v = tool ∧
     blocks tool (label v) ∧
     ∃ source, violation_source v = Some source ∧ tainted cfg h (label v) source input) ∧
  (taint_enabled cfg = true → block_on_violation cfg = true →
   (∃ l source, blocks tool l ∧ tainted cfg h l source input) →
   ∃ v, TaintEngine.check_sink (taint_run cfg h) tool input = Err v).
Proof.
  unfold TaintEngine.check_sink. destruct (taint_run_config cfg h) as (-> & _).
  destruct (taint_enabled cfg) eqn:He; [|done]. cbn [negb].
  destruct (List.find _ SINKS) as [s|] eqn:Es.
  2: { split; [done|]. intros _ _ (l & source & Hb & _). by apply (no_sink tool l) in Es. }
  pose proof (contains_tainted_spec cfg h tool s input Es) as Hc.
  destruct (TaintEngine.contains_tainted_content _ _ _) as [[source l]|].
  - destruct Hc as (_ & Hb & Ht). split; [|intros _ ->; eauto].
    destruct (block_on_violation cfg); [|done]. intros v [= <-]. cbn. eauto 8.
  - split; [done|]. intros _ _ (l & source & Hb & Ht). by destruct (Hc He source l).
Qed.

(** A snippet with a byte the input lacks is not found in it: the serializer
    escapes quotes and control characters, so that a page with a line break in
    its first 200 bytes passes. *)
Lemma escaped_snippet_missed cfg ext tool output input c :
  c ∈ String.list_ascii_of_string (utf8_truncate output SNIPPET_MAX_LEN) →
  c ∉ String.list_ascii_of_string input →
  ¬ carries cfg ext tool output ExternalNetwork input.
Proof.
  intros Hc Hn [_ (a & b & ->)%contains_spec]. apply Hn.
  assert (∀ x y, String.list_ascii_of_string (x +:+ y) =
                 String.list_ascii_of_string x ++ String.list_ascii_of_string y) as Happ.
  { intros x y. induction x as [|z x IH]; [done|]. cbn. by rewrite IH. }
  rewrite !Happ. set_solver.
Qed.

(** ** Chains *)

Lemma subsequence_from_spec haystack needle i :
  (i ≤ length needle)%nat →
  ChainTracker.subsequence_from haystack needle i = length needle ↔
    drop i needle `sublist_of` haystack.
Proof.
  revert i. induction haystack as [|x xs IH]; intros i Hi; cbn [ChainTracker.subsequence_from].
  { rewrite sublist_nil_r. split.
    - intros ->. apply drop_all.
    - intros Hd. pose proof (f_equal length Hd) as Hl. rewrite length_drop in Hl. simpl in Hl. lia. }
  destruct (needle !! i) as [n|] eqn:E.
  - pose proof (lookup_lt_Some _ _ _ E). rewrite (drop_S _ _ _ E).
    destruct (String.eqb_spec x n) as [-> |Hne].
    + rewrite IH by lia. split; [by apply sublist_skip|].
      intros Hs. apply sublist_cons_r in Hs as [Hs|(l' & [= <-] & Hs)]; [|done].
      by apply sublist_cons_l in Hs as (k1 & k2 & -> & Hs); apply sublist_inserts_l, sublist_cons.
    + rewrite IH by lia. rewrite (drop_S _ _ _ E). split; [by apply sublist_cons|].
      intros Hs. apply sublist_cons_r in Hs as [Hs|(l' & [= <- _] & Hs)]; done.
  - apply lookup_ge_None in E. rewrite IH by lia. rewrite !drop_ge by lia.
    split; intros; apply sublist_nil_l.
Qed.

Lemma contains_subsequence_spec haystack needle :
  ChainTracker.contains_subsequence haystack needle = true ↔ needle `sublist_of` haystack.
Proof.
  unfold ChainTracker.contains_subsequence. rewrite Nat.eqb_eq.
  apply (subsequence_from_spec haystack needle 0). lia.
Qed.

(** The alerts of a sequence of batches. *)
Definition chain_run (batches : list (list string)) : ChainTracker * list string :=
  foldl (λ '(t, alerts) batch,
           let '(t, new) := ChainTracker.record t batch in (t, alerts ++ new))
    (ChainTracker.new, []) batches.

Lemma check_patterns_spec old new chains :
  old `sublist_of` new →
  ChainTracker.check_patterns new chains
    (map (λ c, ChainTracker.contains_subsequence old (fst c)) chains) =
  (map (λ c, ChainTracker.contains_subsequence new (fst c)) chains,
   map snd (filter (λ c, ChainTracker.contains_subsequence new (fst c) = true ∧
                         ChainTracker.contains_subsequence old (fst c) = false) chains)).
Proof.
  intros Hsub. induction chains as [|[p d] chains IH]; [done|].
  cbn [map fst ChainTracker.check_patterns]. rewrite IH, filter_cons. cbn [fst].
  assert (ChainTracker.contains_subsequence old p = true →
          ChainTracker.contains_subsequence new p = true) as Hmono.
  { rewrite !contains_subsequence_spec. intros. by etrans. }
  destruct (ChainTracker.contains_subsequence old p) eqn:Eo.
  - rewrite Hmono by done. rewrite decide_False by naive_solver. done.
  - destruct (ChainTracker.contains_subsequence new p) eqn:En; case_decide as Hd; naive_solver.
Qed.

Lemma chain_run_snoc batches batch :
  chain_run (batches ++ [batch]) =
    (let '(t, new) := ChainTracker.record (fst (chain_run batches)) batch in
     (t, snd (chain_run batches) ++ new)).
Proof.
  unfold chain_run at 1. rewrite foldl_app. fold (chain_run batches).
  by destruct (chain_run batches).
Qed.

Lemma chain_run_tracker batches :
  fst (chain_run batches) =
    mkChainTracker (mjoin batches)
      (map (λ c, ChainTracker.contains_subsequence (mjoin batches) (fst c)) DANGEROUS_CHAINS).
Proof.
  induction batches as [|batch batches IH] using rev_ind; [done|].
  rewrite chain_run_snoc, IH. unfold ChainTracker.record. cbn [history alerted].
  rewrite (check_patterns_spec (mjoin batches)) by apply sublist_inserts_r, reflexivity.
  by rewrite mjoin_snoc.
Qed.

(** Alerts on chains of tools, over any sequence of batches. A batch raises
    the alert of a chain exactly when the names called so far contain the chain
    as a subsequence and those before the batch did not: every chain is reported
    in the batch that completes it, and only once. *)
Theorem chain_alerts batches batch :
  snd (ChainTracker.record (fst (chain_run batches)) batch) =
    map snd (filter (λ c, ChainTracker.contains_subsequence (mjoin batches ++ batch) (fst c) = true ∧
                          ChainTracker.contains_subsequence (mjoin batches) (fst c) = false)
               DANGEROUS_CHAINS) ∧
  ∀ haystack needle, ChainTracker.contains_subsequence haystack needle = true ↔
    needle `sublist_of` haystack.
Proof.
  split; [|apply contains_subsequence_spec].
  rewrite chain_run_tracker. unfold ChainTracker.record. cbn [history alerted].
  by rewrite (check_patterns_spec (mjoin batches)) by apply sublist_inserts_r, reflexivity.
Qed.
