(* ===== verification/AuditChain.v ===== *)
(** The audit chain: src/src/audit.rs.

    Every execution of a tool appends an entry to a chain in memory; the hash of
    an entry covers its fields and the hash of the one before. SHA-256 (with its
    hexadecimal form) is a parameter [sha256] over the hashed bytes. The mutex
    makes [record] one step; the clock's text is an argument. *)

From S2P Require Import Prelude Text.

(** ** Data *)

Inductive AuditAction : Type :=
| ToolInvoke | ShellExec | NetworkAccess | AgentSpawn | AgentMessage | MemoryAccess | FileAccess
| AuthAttempt | ConfigChange.

Definition AuditAction_display (self : AuditAction) : string :=
  match self with
  | ToolInvoke => "tool_invoke"
  | ShellExec => "shell_exec"
  | NetworkAccess => "network_access"
  | AgentSpawn => "agent_spawn"
  | AgentMessage => "agent_message"
  | MemoryAccess => "memory_access"
  | FileAccess => "file_access"
  | AuthAttempt => "auth_attempt"
  | ConfigChange => "config_change"
  end.

Record AuditEntry : Type := mkAuditEntry {
  seq : Z;
  timestamp : string;
  agent_id : string;
  action : AuditAction;
  detail : string;
  outcome_text : string;
  prev_hash : string;
  hash : string;
}.

Definition MAX_AUDIT_ENTRIES : nat := Z.to_nat 10000.

Record AuditChainState : Type := mkChain {
  entries : list AuditEntry;
  tip : string;
  window_base_hash : string;
  next_seq : Z;
}.

(** ** Hashing *)

(** [u64::to_le_bytes]. *)
Fixpoint le_bytes (n : nat) (z : Z) : string :=
  match n with
  | O => EmptyString
  | S n => String (Ascii.ascii_of_N (Z.to_N (z mod 256))) (le_bytes n (z / 256))
  end.

Definition to_le_bytes (z : Z) : string := le_bytes 8 z.

Definition hash_string_field (value : string) : string :=
  to_le_bytes (Z.of_nat (String.length value)) +:+ value.

(** The bytes fed to the hasher. *)
Definition entry_bytes (seq : Z) (timestamp agent_id : string) (action : AuditAction)
    (detail outcome prev_hash : string) : string :=
  to_le_bytes seq +:+ hash_string_field timestamp +:+ hash_string_field agent_id
    +:+ hash_string_field (AuditAction_display action) +:+ hash_string_field detail
    +:+ hash_string_field outcome +:+ hash_string_field prev_hash.

(** [value.replace(['\n', '\r'], ' ')]. *)
Fixpoint replace_newlines (s : string) : string :=
  match s with
  | EmptyString => EmptyString
  | String c s =>
    String (if N.eqb (byte_val c) 10 || N.eqb (byte_val c) 13 then Ascii.ascii_of_nat 32 else c)
      (replace_newlines s)
  end.

Definition sanitize_text (value : string) (max_len : nat) : string :=
  str_concat (take max_len (chars (replace_newlines (trim value)))).

Definition genesis_hash : string := str_concat (replicate 64 "0").

Module AuditHashChain.
Section chain.
Context (sha256 : string → string).

Definition default : AuditChainState := mkChain [] genesis_hash genesis_hash 1.

Definition compute_entry_hash (seq : Z) (timestamp agent_id : string) (action : AuditAction)
    (detail outcome prev_hash : string) : string :=
  sha256 (entry_bytes seq timestamp agent_id action detail outcome prev_hash).

Definition record (state : AuditChainState) (agent_id : string) (action : AuditAction)
    (detail outcome : string) (timestamp : string) : AuditEntry * AuditChainState :=
  let seq := next_seq state in
  let agent_id := sanitize_text agent_id 120 in
  let detail := sanitize_text detail 512 in
  let outcome := sanitize_text outcome 120 in
  let prev_hash := tip state in
  let hash := compute_entry_hash seq timestamp agent_id action detail outcome prev_hash in
  let entry := mkAuditEntry seq timestamp agent_id action detail outcome prev_hash hash in
  let pushed := entries state ++ [entry] in
  (entry,
   if Nat.ltb MAX_AUDIT_ENTRIES (length pushed) then
     match pushed with
     | evicted :: rest => mkChain rest hash (AuditChain.hash evicted) (sat_add64 (next_seq state) 1)
     | [] => mkChain pushed hash (window_base_hash state) (sat_add64 (next_seq state) 1)
     end
   else mkChain pushed hash (window_base_hash state) (sat_add64 (next_seq state) 1)).

(** The loop of [verify_integrity], then the two final tests. *)
Fixpoint verify_from (es : list AuditEntry) (expected_prev : string) (expected_seq : Z)
    (state : AuditChainState) : result string unit :=
  match es with
  | [] =>
    if negb (String.eqb (tip state) expected_prev)
    then Err "chain broken: tip does not match final entry hash"
    else if negb (next_seq state =? expected_seq)
    then Err "chain broken: next sequence mismatch"
    else Ok tt
  | e :: rest =>
    if negb (seq e =? expected_seq)
    then Err ("chain broken at seq " +:+ fmt_Z (seq e) +:+ ": sequence mismatch")
    else if negb (String.eqb (AuditChain.prev_hash e) expected_prev)
    then Err ("chain broken at seq " +:+ fmt_Z (seq e) +:+ ": prev hash mismatch")
    else if negb (String.eqb (AuditChain.hash e)
                    (compute_entry_hash (seq e) (AuditChain.timestamp e) (AuditChain.agent_id e)
                       (AuditChain.action e) (AuditChain.detail e) (outcome_text e) expected_prev))
    then Err ("chain broken at seq " +:+ fmt_Z (seq e) +:+ ": hash mismatch")
    else verify_from rest (AuditChain.hash e) (sat_add64 expected_seq 1) state
  end.

Definition verify_integrity (state : AuditChainState) : result string unit :=
  verify_from (entries state) (window_base_hash state)
    (match entries state with e :: _ => seq e | [] => next_seq state end) state.

Definition recent (state : AuditChainState) (n : nat) : list AuditEntry :=
  if Nat.eqb n 0 || match entries state with [] => true | _ => false end then []
  else drop (length (entries state) - n) (entries state).

Definition tip_hash (state : AuditChainState) : string := tip state.
End chain.
End AuditHashChain.

(** ** The encoding is unambiguous *)

Lemma le_bytes_length n z : String.length (le_bytes n z) = n.
Proof. revert z. induction n as [|n IH]; intros z; [done|]. cbn. by rewrite IH. Qed.

Lemma le_bytes_inj n a b :
  0 ≤ a < 256 ^ Z.of_nat n → 0 ≤ b < 256 ^ Z.of_nat n → le_bytes n a = le_bytes n b → a = b.
Proof.
  revert a b. induction n as [|n IH]; intros a b Ha Hb; [simpl in *; lia|].
  rewrite Nat2Z.inj_succ, Z.pow_succ_r in Ha, Hb by lia. cbn [le_bytes]. intros [= Hc Hr].
  assert (∀ x, Z.to_N (x mod 256) < 256)%N as Hlt.
  { intros x. pose proof (Z.mod_pos_bound x 256). lia. }
  apply (f_equal Ascii.N_of_ascii) in Hc.
  rewrite !Ascii.N_ascii_embedding in Hc by apply Hlt.
  apply IH in Hr; [|split; [apply Z.div_pos; lia|apply Z.div_lt_upper_bound; lia]..].
  pose proof (Z.div_mod a 256). pose proof (Z.div_mod b 256).
  pose proof (Z.mod_pos_bound a 256). pose proof (Z.mod_pos_bound b 256). lia.
Qed.

Lemma str_app_inj (a b c d : string) :
  String.length a = String.length c → a +:+ b = c +:+ d → a = c ∧ b = d.
Proof.
  revert c. induction a as [|x a IH]; intros [|y c]; simpl; try done.
  intros [= Hl] [= -> Hr]. by destruct (IH c Hl Hr) as [-> ->].
Qed.

(** A length that fits in 64 bits, as every length in memory. *)
Definition short (s : string) : Prop := is_u64 (Z.of_nat (String.length s)).

Lemma u64_le_bytes_inj a b r r' :
  is_u64 a → is_u64 b → to_le_bytes a +:+ r = to_le_bytes b +:+ r' → a = b ∧ r = r'.
Proof.
  intros Ha Hb H. apply str_app_inj in H as [H ->]; [|by unfold to_le_bytes; rewrite !le_bytes_length].
  split; [|done]. by apply (le_bytes_inj 8).
Qed.

Lemma field_inj a b r r' :
  short a → short b →
  hash_string_field a +:+ r = hash_string_field b +:+ r' → a = b ∧ r = r'.
Proof.
  unfold hash_string_field. rewrite !str_app_assoc. intros Ha Hb H.
  apply u64_le_bytes_inj in H as [Hl H]; [|done..]. apply str_app_inj in H; [done|lia].
Qed.

Lemma action_inj a b : AuditAction_display a = AuditAction_display b → a = b.
Proof. by destruct a, b. Qed.

Lemma action_short a : short (AuditAction_display a).
Proof. destruct a; split; by vm_compute. Qed.

(** An entry as memory can hold it. *)
Definition entry_ok (e : AuditEntry) : Prop :=
  is_u64 (seq e) ∧ short (timestamp e) ∧ short (agent_id e) ∧ short (detail e) ∧
  short (outcome_text e) ∧ short (prev_hash e).

#[export] Instance entry_ok_dec e : Decision (entry_ok e).
Proof. unfold entry_ok, short, is_u64. apply _. Defined.

Definition bytes_of (e : AuditEntry) : string :=
  entry_bytes (seq e) (timestamp e) (agent_id e) (action e) (detail e) (outcome_text e) (prev_hash e).

Lemma bytes_of_inj e1 e2 :
  entry_ok e1 → entry_ok e2 → bytes_of e1 = bytes_of e2 → hash e1 = hash e2 → e1 = e2.
Proof.
  intros (H1 & H2 & H3 & H4 & H5 & H6) (K1 & K2 & K3 & K4 & K5 & K6). unfold bytes_of, entry_bytes.
  intros H Hh. apply u64_le_bytes_inj in H as [Hs H]; [|done..].
  apply field_inj in H as [Ht H]; [|done..]. apply field_inj in H as [Ha H]; [|done..].
  apply field_inj in H as [Hc%action_inj H]; [|apply action_short..].
  apply field_inj in H as [Hd H]; [|done..]. apply field_inj in H as [Ho H]; [|done..].
  rewrite <- (str_app_nil_r (hash_string_field (prev_hash e1))),
          <- (str_app_nil_r (hash_string_field (prev_hash e2))) in H.
  apply field_inj in H as [Hp _]; [|done..]. destruct e1, e2; simpl in *. by subst.
Qed.

(** ** The chain *)

Section chain_spec.
Context (sha256 : string → string).
Implicit Types (e : AuditEntry) (es : list AuditEntry) (s : AuditChainState).
#[local] Abbreviation verify := (AuditHashChain.verify_integrity sha256).
#[local] Abbreviation record := (AuditHashChain.record sha256).

(** Every entry carries the hash of the one before and its own, from [base] to
    [last]. *)
Fixpoint linked (base : string) es (last : string) : Prop :=
  match es with
  | [] => last = base
  | e :: rest => prev_hash e = base ∧ hash e = sha256 (bytes_of e) ∧ linked (hash e) rest last
  end.

(** Sequence numbers count up and saturate. *)
Fixpoint numbered (first : Z) es (next : Z) : Prop :=
  match es with
  | [] => next = first
  | e :: rest => seq e = first ∧ numbered (sat_add64 first 1) rest next
  end.

Lemma verify_from_ok es base first s :
  AuditHashChain.verify_from sha256 es base first s = Ok tt ↔
    linked base es (tip s) ∧ numbered first es (next_seq s).
Proof.
  revert base first. induction es as [|e es IH]; intros base first;
    cbn [AuditHashChain.verify_from linked numbered].
  - destruct (String.eqb_spec (tip s) base), (Z.eqb_spec (next_seq s) first); naive_solver.
  - destruct (Z.eqb_spec (seq e) first); cbn [negb]; [|naive_solver].
    destruct (String.eqb_spec (prev_hash e) base) as [Hp|]; cbn [negb]; [|naive_solver].
    unfold AuditHashChain.compute_entry_hash. rewrite <- Hp at 1. fold (bytes_of e).
    destruct (String.eqb_spec (hash e) (sha256 (bytes_of e))); cbn [negb]; [|naive_solver].
    rewrite IH. naive_solver.
Qed.

Lemma verify_ok s :
  verify s = Ok tt ↔
    linked (window_base_hash s) (entries s) (tip s) ∧
    numbered (match entries s with e :: _ => seq e | [] => next_seq s end) (entries s) (next_seq s).
Proof. apply verify_from_ok. Qed.

Lemma linked_snoc base es e last :
  linked base (es ++ [e]) last ↔
    linked base es (prev_hash e) ∧ hash e = sha256 (bytes_of e) ∧ last = hash e.
Proof.
  revert base. induction es as [|x es IH]; intros base; cbn [app linked]; [naive_solver|].
  rewrite IH. naive_solver.
Qed.

Lemma numbered_snoc first es e next :
  numbered first (es ++ [e]) next ↔ numbered first es (seq e) ∧ next = sat_add64 (seq e) 1.
Proof.
  revert first. induction es as [|x es IH]; intros first; cbn [app numbered]; [naive_solver|].
  rewrite IH. naive_solver.
Qed.

(** The last place where two chains differ gives two texts with one hash. *)
Definition collision es1 es2 : Prop :=
  ∃ before1 e1 before2 e2 after, es1 = before1 ++ e1 :: after ∧ es2 = before2 ++ e2 :: after ∧
    bytes_of e1 ≠ bytes_of e2 ∧ sha256 (bytes_of e1) = sha256 (bytes_of e2).

(** Two chains that end in the same hash agree on the entries they share, or
    give a collision. *)
Lemma linked_suffix es1 es2 base1 base2 last :
  Forall entry_ok es1 → Forall entry_ok es2 → linked base1 es1 last → linked base2 es2 last →
  (es1 `suffix_of` es2 ∨ es2 `suffix_of` es1) ∨ collision es1 es2.
Proof.
  revert es2 base1 base2 last. induction es1 as [|e1 es1 IH] using rev_ind; intros es2 base1 base2 last.
  { intros. left. left. apply suffix_nil. }
  destruct es2 as [|e2 es2 _] using rev_ind; [intros; left; right; apply suffix_nil|].
  intros [H1 [He1 _]%Forall_cons_1]%Forall_app [H2 [He2 _]%Forall_cons_1]%Forall_app
    (L1 & Hh1 & ->)%linked_snoc
    (L2 & Hh2 & Ht)%linked_snoc.
  destruct (decide (bytes_of e1 = bytes_of e2)) as [Hb|Hb].
  2: { right. exists es1, e1, es2, e2, []. split_and!; [done..|congruence]. }
  assert (e1 = e2) as <- by (by apply bytes_of_inj).
  destruct (IH es2 base1 base2 (prev_hash e1)) as [[[k ->]|[k ->]]|Hc]; [done..| | |].
  - left. left. exists k. by rewrite app_assoc.
  - left. right. exists k. by rewrite app_assoc.
  - right. destruct Hc as (b1 & x1 & b2 & x2 & after & -> & -> & Hx).
    exists b1, x1, b2, x2, (after ++ [e1]). by rewrite <- !app_assoc.
Qed.

(** ** Histories *)

(** What a caller records, and the text of the clock. *)
Record Event : Type := mkEvent {
  ev_agent : string;
  ev_action : AuditAction;
  ev_detail : string;
  ev_outcome : string;
  ev_time : string;
}.

Definition record_event s (ev : Event) : AuditEntry * AuditChainState :=
  record s (ev_agent ev) (ev_action ev) (ev_detail ev) (ev_outcome ev) (ev_time ev).

(** All the entries ever recorded, and the state they leave. *)
Definition audit_run (h : list Event) : list AuditEntry * AuditChainState :=
  foldl (λ '(all, s) ev, let '(e, s) := record_event s ev in (all ++ [e], s))
    ([], AuditHashChain.default) h.

Lemma audit_run_snoc h ev :
  audit_run (h ++ [ev]) =
    (let '(e, s) := record_event (snd (audit_run h)) ev in (fst (audit_run h) ++ [e], s)).
Proof. unfold audit_run at 1. rewrite foldl_app. fold (audit_run h). by destruct (audit_run h). Qed.

(** The state after [record]: the window moves by one when it is full. *)
Lemma record_state s agent a d o t :
  let '(e, s1) := record s agent a d o t in
  seq e = next_seq s ∧ prev_hash e = tip s ∧ hash e = sha256 (bytes_of e) ∧
  tip s1 = hash e ∧ next_seq s1 = sat_add64 (next_seq s) 1 ∧
  if decide (length (entries s) < MAX_AUDIT_ENTRIES)%nat
  then entries s1 = entries s ++ [e] ∧ window_base_hash s1 = window_base_hash s
  else ∃ x rest, entries s ++ [e] = x :: rest ∧ entries s1 = rest ∧ window_base_hash s1 = hash x.
Proof.
  unfold AuditHashChain.record. cbv zeta.
  match goal with |- context [entries s ++ [?e]] => set (entry := e) end.
  destruct (Nat.ltb_spec MAX_AUDIT_ENTRIES (length (entries s ++ [entry]))) as [Hlt|Hge];
    rewrite length_app in *; cbn [length] in *.
  - destruct (entries s ++ [entry]) as [|x rest] eqn:E;
      [by apply app_eq_nil in E as [_ ?]|]. split_and!; try done.
    rewrite decide_False by lia. eauto.
  - split_and!; try done. by rewrite decide_True by lia.
Qed.

(** The entries recorded first, which a full window has dropped. *)
Definition dropped (all : list AuditEntry) : nat := (length all - MAX_AUDIT_ENTRIES)%nat.

Lemma audit_run_state h :
  let '(all, s) := audit_run h in
  length all = length h ∧ linked genesis_hash all (tip s) ∧ numbered 1 all (next_seq s) ∧
  entries s = drop (dropped all) all ∧ linked (window_base_hash s) (entries s) (tip s).
Proof.
  induction h as [|ev h IH] using rev_ind; [by vm_compute|].
  rewrite audit_run_snoc. destruct (audit_run h) as [all s].
  destruct IH as (Hlen & Hall & Hnum & Hes & Hl). cbn [fst snd]. unfold record_event.
  pose proof (record_state s (ev_agent ev) (ev_action ev) (ev_detail ev) (ev_outcome ev) (ev_time ev))
    as Hr. destruct (record s _ _ _ _ _) as [e s1]. destruct Hr as (Hseq & Hp & Hh & Ht & Hn & Hw).
  assert (linked (window_base_hash s) (entries s ++ [e]) (tip s1)) as Hpush.
  { rewrite linked_snoc, Hp. done. }
  split_and!.
  - rewrite !length_app. simpl. lia.
  - rewrite linked_snoc, Hp. done.
  - rewrite numbered_snoc, Hseq. by rewrite Hn.
  - rewrite Hes in Hw. unfold dropped in *. rewrite length_drop, length_app in *. simpl.
    destruct (decide (length all < MAX_AUDIT_ENTRIES)%nat) as [Hlt|Hge].
    + rewrite decide_True in Hw by lia. destruct Hw as [-> _].
      replace (length all - MAX_AUDIT_ENTRIES)%nat with 0%nat by lia.
      by replace (length all + 1 - MAX_AUDIT_ENTRIES)%nat with 0%nat by lia.
    + rewrite decide_False in Hw by lia. destruct Hw as (x & rest & Hx & -> & _).
      replace (length all + 1 - MAX_AUDIT_ENTRIES)%nat
        with ((length all - MAX_AUDIT_ENTRIES) + 1)%nat by lia.
      rewrite <- drop_app_le in Hx by lia. by rewrite <- drop_drop, Hx.
  - destruct (decide (length (entries s) < MAX_AUDIT_ENTRIES)%nat).
    + by destruct Hw as [-> ->].
    + destruct Hw as (x & rest & Hx & -> & ->). rewrite Hx in Hpush. apply Hpush.
Qed.
End chain_spec.

(** ** What the chain promises *)

Lemma numbered_app first k es next :
  numbered first (k ++ es) next →
  numbered (match es with e :: _ => seq e | [] => next end) es next.
Proof.
  revert first. induction k as [|x k IH]; intros first.
  - destruct es as [|e es]; [done|]. cbn [app numbered]. intros [-> ?]. done.
  - intros [_ H]. by apply IH in H.
Qed.

Lemma numbered_seq first es next :
  0 ≤ first ≤ u64_max → numbered first es next →
  next = Z.min u64_max (first + Z.of_nat (length es)) ∧
  ∀ i e, es !! i = Some e → seq e = Z.min u64_max (first + Z.of_nat i).
Proof.
  revert first. induction es as [|x es IH]; intros first Hf; cbn [numbered].
  - intros ->. cbn [length]. split; [lia|done].
  - intros [Hx Hn]. unfold sat_add64 in Hn. apply IH in Hn as [-> Hes]; [|lia]. cbn [length].
    split; [lia|]. intros [|i] e; cbn; [intros [= <-]; lia|]. intros He. rewrite (Hes i e He). lia.
Qed.

(** The entry of an event, apart from its place in the chain. *)
Definition describes (e : AuditEntry) (ev : Event) : Prop :=
  agent_id e = sanitize_text (ev_agent ev) 120 ∧ action e = ev_action ev ∧
  detail e = sanitize_text (ev_detail ev) 512 ∧
  outcome_text e = sanitize_text (ev_outcome ev) 120 ∧ timestamp e = ev_time ev.

Lemma audit_run_describes sha256 h : Forall2 describes (fst (audit_run sha256 h)) h.
Proof.
  induction h as [|ev h IH] using rev_ind; [constructor|].
  rewrite audit_run_snoc. unfold record_event, AuditHashChain.record. cbv zeta.
  cbn [fst snd]. apply Forall2_app; [done|]. by repeat constructor.
Qed.

(** The audit chain after any history of recorded events, with any hash
    function. It verifies. It holds the last 10000 entries, in order, one for
    each event, with the fields of the event trimmed to one line and to their
    lengths; sequence numbers count from one and saturate; and its tip is the
    hash of the last entry, or the genesis hash. *)
Theorem audit_chain_verifies (sha256 : string → string) h :
  let '(all, s) := audit_run sha256 h in
  AuditHashChain.verify_integrity sha256 s = Ok tt ∧
  Forall2 describes all h ∧
  entries s = drop (length h - MAX_AUDIT_ENTRIES) all ∧
  (∀ i e, all !! i = Some e → seq e = Z.min u64_max (1 + Z.of_nat i)) ∧
  next_seq s = Z.min u64_max (1 + Z.of_nat (length h)) ∧
  tip s = (match last all with Some e => hash e | None => genesis_hash end).
Proof.
  pose proof (audit_run_state sha256 h) as Hs. pose proof (audit_run_describes sha256 h) as Hd.
  destruct (audit_run sha256 h) as [all s]. destruct Hs as (Hlen & Hall & Hnum & Hes & Hl).
  assert (0 ≤ 1 ≤ u64_max) as H1 by (split; [done|by vm_compute]).
  unfold dropped in Hes. rewrite Hlen in Hes.
  destruct (numbered_seq 1 all _ H1 Hnum) as [Hn Hseq]. rewrite Hlen in Hn.
  split_and!; try done.
  - apply verify_ok. split; [done|].
    apply (numbered_app 1 (take (length h - MAX_AUDIT_ENTRIES) all)).
    by rewrite Hes, take_drop.
  - destruct all as [|e all _] using rev_ind; [done|]. rewrite last_snoc.
    by apply linked_snoc in Hall as (_ & _ & ->).
Qed.


(** ** Evaluation *)

Definition shell_event : Event := mkEvent "cli:1" ShellExec "tool=shell" "success" "2024-01-01T00:00:00+00:00".
Definition echo_event : Event := mkEvent "cli:1" ToolInvoke "tool=echo" "success" "2024-01-01T00:00:01+00:00".

(** A chain of two entries, and the chain with only the last of them. *)
Definition two_entries (sha256 : string → string) : AuditChainState :=
  snd (audit_run sha256 [shell_event; echo_event]).
Definition last_entry (sha256 : string → string) : AuditChainState :=
  let s := two_entries sha256 in
  mkChain (drop 1 (entries s)) (tip s)
    (match entries s with e :: _ => hash e | [] => window_base_hash s end) (next_seq s).


(** With a hash that only keeps the length, a changed entry goes unnoticed, and
    the two chains contain the collision. *)
Example collision_unnoticed :
  let sha256 x := fmt_nat (String.length x) in
  let s := two_entries sha256 in
  let forged := mkChain (map (λ e, mkAuditEntry (seq e) (timestamp e) (agent_id e) (action e)
                          (if String.eqb (detail e) "tool=echo" then "tool=grep" else detail e)
                          (outcome_text e) (prev_hash e) (hash e)) (entries s))
                  (tip s) (window_base_hash s) (next_seq s) in
  AuditHashChain.verify_integrity sha256 forged = Ok tt ∧ tip forged = tip s ∧ entries forged ≠ entries s.
Proof. split_and!; [vm_compute; reflexivity|reflexivity|vm_compute; discriminate]. Qed.

Example tampered_detail_found :
  let s := snd (audit_run (λ x, x) [shell_event; shell_event]) in
  AuditHashChain.verify_integrity (λ x, x)
    (mkChain (map (λ e, mkAuditEntry (seq e) (timestamp e) (agent_id e) (action e) "tool=echo"
                          (outcome_text e) (prev_hash e) (hash e)) (entries s))
       (tip s) (window_base_hash s) (next_seq s)) = Err "chain broken at seq 1: hash mismatch".
Proof. by_compute. Qed.
