(* ===== verification/Sanitize.v ===== *)
(** Tool results on their way to the model: src/src/utils/sanitize.rs and the
    previews of src/src/utils/string.rs and src/src/agent/loop.rs. *)

From Stdlib Require Import Floats.
From S2P Require Import Prelude Text Session Context Safety.

#[local] Set Warnings "-inexact-float".

Definition DEFAULT_MAX_RESULT_BYTES : nat := Z.to_nat 20480.
Definition MIN_RESULT_BUDGET : Z := 1024.
Definition BYTES_PER_TOKEN : Z := 4.
Definition DEFAULT_TRUNCATION_HEAD_BYTES : nat := Z.to_nat 10240.
Definition DEFAULT_TRUNCATION_TAIL_BYTES : nat := 2048.

Definition BASE64_URI_RE : string := "data:[a-zA-Z0-9/+\-\.]+;base64,[A-Za-z0-9+/=]+".
Definition HEX_BLOB_RE : string := "[0-9a-fA-F]{200,}".

(** ** Cutting at characters *)

Definition take_prefix_charsafe (s : string) (max_bytes : nat) : string :=
  str_take (floor_boundary s (Nat.min max_bytes (String.length s))) s.

Definition take_suffix_charsafe (s : string) (max_bytes : nat) : string :=
  if Nat.leb (String.length s) max_bytes then s
  else
    let start := (String.length s - max_bytes)%nat in
    str_drop (ceil_boundary s start (String.length s - start)) s.

Definition prefix_chars (s : string) (n : nat) : string := str_concat (take n (chars s)).

Definition preview (s : string) (n : nat) : string :=
  let prefix := prefix_chars s n in
  if Nat.ltb n (length (chars s)) then prefix +:+ "..." else prefix.

(** ** Sanitizing *)

Definition truncation_mark (truncated : nat) : string :=
  newline +:+ "...[truncated " +:+ fmt_nat truncated +:+ " bytes]...".

(** The cut of a text that is over the limit. *)
Definition truncate_result (out : string) (max_bytes : nat) : string :=
  let total := String.length out in
  let head := take_prefix_charsafe out (Nat.min DEFAULT_TRUNCATION_HEAD_BYTES max_bytes) in
  let remaining_budget := (max_bytes - String.length head)%nat in
  let tail_candidate_budget := Nat.min DEFAULT_TRUNCATION_TAIL_BYTES remaining_budget in
  let tail :=
    if Nat.ltb 0 tail_candidate_budget && Nat.ltb (String.length head) total then
      let tail := take_suffix_charsafe out tail_candidate_budget in
      if Nat.ltb total (String.length head + String.length tail) then "" else tail
    else "" in
  let kept := (String.length head + String.length tail)%nat in
  let truncated := (total - kept)%nat in
  if str_is_empty tail then head +:+ truncation_mark truncated
  else head +:+ truncation_mark truncated +:+ newline +:+ tail.

Section sanitize.
Context `{RustRegex}.

(** The two replacements. *)
Definition strip_blobs (result : string) : string :=
  let out := replace_all BASE64_URI_RE result
    (λ m, "[base64 data removed, " +:+ fmt_nat (String.length m) +:+ " bytes]") in
  replace_all HEX_BLOB_RE out
    (λ m, "[hex data removed, " +:+ fmt_nat (String.length m) +:+ " chars]").

Definition sanitize_tool_result (result : string) (max_bytes : nat) : string :=
  let out := strip_blobs result in
  if Nat.ltb max_bytes (String.length out) then truncate_result out max_bytes else out.
End sanitize.

(** ** Budgets *)

(** [usize::clamp], which panics when the bounds are out of order. *)
Definition clamp (x lo hi : Z) : outcome Z :=
  if hi <? lo then Panic else Ret (Z.max lo (Z.min x hi)).

Definition compute_tool_result_budget_with_share
    (context_limit current_usage_tokens pending_result_count max_result_bytes : Z)
    (single_result_share : float) : outcome Z :=
  let remaining_tokens := sat_sub context_limit current_usage_tokens in
  let remaining_bytes := wmul64 remaining_tokens BYTES_PER_TOKEN in
  let count := Z.max pending_result_count 1 in
  let per_result := remaining_bytes / count in
  let share_cap_bytes :=
    wmul64 (F64.to_usize (F64.mul (F64.of_usize context_limit) single_result_share))
      BYTES_PER_TOKEN in
  let max_budget :=
    Z.max (Z.min (Z.max max_result_bytes MIN_RESULT_BUDGET) share_cap_bytes) MIN_RESULT_BUDGET in
  clamp per_result MIN_RESULT_BUDGET max_budget.

Definition compute_tool_result_budget
    (context_limit current_usage_tokens pending_result_count max_result_bytes : Z) : outcome Z :=
  compute_tool_result_budget_with_share context_limit current_usage_tokens pending_result_count
    max_result_bytes 0.50%float.

(** ** What the user interface is shown *)

Definition build_tool_result_preview (result : string) : option string :=
  let trimmed := trim result in
  if str_is_empty trimmed then None
  else
    let preview := utf8_truncate trimmed 2000 in
    Some (if Nat.ltb (String.length preview) (String.length trimmed)
          then preview +:+ newline +:+ "..." else preview).

(** ** Bounds *)

Lemma take_prefix_charsafe_cut s n :
  ∃ i, take_prefix_charsafe s n = str_take i s ∧ is_char_boundary s i = true ∧
       (i ≤ Nat.min n (String.length s))%nat ∧ String.length (take_prefix_charsafe s n) = i.
Proof.
  unfold take_prefix_charsafe. eexists. split_and!; [done|apply floor_boundary_ok|..].
  - apply floor_boundary_le.
  - apply str_take_length_le.
    pose proof (floor_boundary_le s (Nat.min n (String.length s))). lia.
Qed.

Lemma take_suffix_charsafe_cut s n :
  ∃ j, take_suffix_charsafe s n = str_drop j s ∧ is_char_boundary s j = true ∧
       (String.length s - n ≤ j ≤ String.length s)%nat.
Proof.
  unfold take_suffix_charsafe. destruct (Nat.leb_spec (String.length s) n) as [Hle|Hgt].
  - exists 0%nat. split_and!; [by destruct s|done|lia..].
  - eexists. split; [done|].
    destruct (ceil_boundary_ok s (String.length s - n) (String.length s - (String.length s - n)))
      as [Hb Hl]; [lia..|].
    split; [done|]. split; [apply ceil_boundary_ge|done].
Qed.

(** What is kept of a text that is cut. *)
Lemma truncate_result_cut out max :
  (max < String.length out)%nat →
  ∃ i j, (i ≤ j ≤ String.length out)%nat ∧
    is_char_boundary out i = true ∧ is_char_boundary out j = true ∧
    (i ≤ DEFAULT_TRUNCATION_HEAD_BYTES)%nat ∧
    (String.length out - j ≤ DEFAULT_TRUNCATION_TAIL_BYTES)%nat ∧
    (i + (String.length out - j) ≤ max)%nat ∧
    truncate_result out max =
      str_take i out +:+ truncation_mark (j - i)
        +:+ (if Nat.eqb j (String.length out) then "" else newline +:+ str_drop j out).
Proof.
  intros Hmax. unfold truncate_result.
  destruct (take_prefix_charsafe_cut out (Nat.min DEFAULT_TRUNCATION_HEAD_BYTES max))
    as (i & Hhead & Hbi & Hi & Hli). rewrite Hli, Hhead.
  assert (str_is_empty "" = true) as He by done.
  destruct (Nat.ltb_spec 0 (Nat.min DEFAULT_TRUNCATION_TAIL_BYTES (max - i))) as [Htail|Hno];
    cbn [andb].
  - destruct (Nat.ltb_spec i (String.length out)) as [_|?]; [|lia].
    destruct (take_suffix_charsafe_cut out (Nat.min DEFAULT_TRUNCATION_TAIL_BYTES (max - i)))
      as (j & -> & Hbj & Hj).
    assert (String.length (str_drop j out) = String.length out - j)%nat as Hlj
      by apply str_drop_length.
    destruct (Nat.ltb_spec (String.length out) (i + String.length (str_drop j out))); [lia|].
    exists i, j. split_and!; try done; try lia. rewrite Hlj.
    replace (String.length out - (i + (String.length out - j)))%nat with (j - i)%nat by lia.
    destruct (Nat.eqb_spec j (String.length out)) as [Hj'|Hne].
    + rewrite str_app_nil_r. destruct (str_drop j out); [done|simpl in Hlj; lia].
    + destruct (str_drop j out); [simpl in Hlj; lia|done].
  - exists i, (String.length out). rewrite Nat.eqb_refl, !str_app_nil_r, He.
    change (String.length "") with 0%nat. rewrite Nat.add_0_r.
    split_and!; try done; try lia. apply boundary_at_end.
Qed.

(** Tool results and their budget. A result that fits is only stripped of
    its encoded blobs. One that does not keeps a head of at most 10 KiB and a
    tail of at most 2 KiB, within the limit together, cut at character
    boundaries, with the number of bytes between them written out. The budget of
    a result never panics and is at least 1 KiB; beyond that it is at most the
    configured maximum, an equal share of the room left in the context, and the
    single-result share of the window. *)
Theorem tool_result_bounds `{RustRegex} :
  (∀ result max, (String.length (strip_blobs result) ≤ max)%nat →
     sanitize_tool_result result max = strip_blobs result) ∧
  (∀ result max, (max < String.length (strip_blobs result))%nat →
     let out := strip_blobs result in
     ∃ i j, (i ≤ j ≤ String.length out)%nat ∧
       is_char_boundary out i = true ∧ is_char_boundary out j = true ∧
       (i ≤ DEFAULT_TRUNCATION_HEAD_BYTES)%nat ∧
       (String.length out - j ≤ DEFAULT_TRUNCATION_TAIL_BYTES)%nat ∧
       (i + (String.length out - j) ≤ max)%nat ∧
       sanitize_tool_result result max =
         str_take i out +:+ truncation_mark (j - i)
           +:+ (if Nat.eqb j (String.length out) then "" else newline +:+ str_drop j out)) ∧
  (∀ limit used count max share, ∃ b,
     compute_tool_result_budget_with_share limit used count max share = Ret b ∧
     MIN_RESULT_BUDGET ≤ b ∧
     b ≤ Z.max MIN_RESULT_BUDGET max ∧
     b ≤ Z.max MIN_RESULT_BUDGET (sat_sub limit used * BYTES_PER_TOKEN / Z.max count 1) ∧
     b ≤ Z.max MIN_RESULT_BUDGET
           (F64.to_usize (F64.mul (F64.of_usize limit) share) * BYTES_PER_TOKEN)).
Proof.
  split_and!.
  - intros result max Hle. unfold sanitize_tool_result.
    by destruct (Nat.ltb_spec max (String.length (strip_blobs result))); [lia|].
  - intros result max Hlt. cbv zeta. unfold sanitize_tool_result.
    destruct (Nat.ltb_spec max (String.length (strip_blobs result))); [|lia].
    by apply truncate_result_cut.
  - intros limit used count max share.
    unfold compute_tool_result_budget_with_share, clamp.
    set (cap := F64.to_usize _).
    assert (wmul64 (sat_sub limit used) BYTES_PER_TOKEN ≤ sat_sub limit used * BYTES_PER_TOKEN) as H1.
    { apply Z.mod_le; [|done]. pose proof (sat_sub_nonneg limit used). unfold BYTES_PER_TOKEN. lia. }
    assert (0 ≤ cap) as H0.
    { unfold cap, F64.to_usize. repeat case_match; try lia; try (by vm_compute).
      - apply Z.min_glb; [by vm_compute|]. apply Z.mul_nonneg_nonneg; [lia|]. apply Z.pow_nonneg. lia.
      - apply Z.min_glb; [by vm_compute|]. apply Z.div_pos; [lia|]. apply Z.pow_pos_nonneg; lia. }
    assert (wmul64 cap BYTES_PER_TOKEN ≤ cap * BYTES_PER_TOKEN) as H2.
    { apply Z.mod_le; [|done]. unfold BYTES_PER_TOKEN. lia. }
    assert (wmul64 (sat_sub limit used) BYTES_PER_TOKEN / Z.max count 1 ≤
            sat_sub limit used * BYTES_PER_TOKEN / Z.max count 1) as H3
      by (apply Z.div_le_mono; lia).
    destruct (Z.ltb_spec (Z.max (Z.min (Z.max max MIN_RESULT_BUDGET) (wmul64 cap BYTES_PER_TOKEN))
                MIN_RESULT_BUDGET) MIN_RESULT_BUDGET); [lia|].
    eexists. split; [done|]. split_and!; lia.
Qed.

(** The cut drops nothing silently: head, the bytes counted, and tail make up
    the text. *)
Lemma cut_accounts out i j :
  (i ≤ j ≤ String.length out)%nat →
  out = str_take i out +:+ slice out i j +:+ str_drop j out ∧
  String.length (slice out i j) = (j - i)%nat.
Proof.
  intros Hij. split.
  - rewrite <- str_app_assoc, take_slice by lia. by rewrite str_take_drop.
  - unfold slice. apply str_take_length_le. rewrite str_drop_length. lia.
Qed.

Example sanitize_cuts :
  truncate_result "hello wörld, goodbye" 8 =
    "hello w" +:+ newline +:+ "...[truncated 13 bytes]..." +:+ newline +:+ "e".
Proof. by_compute. Qed.
