(* ===== verification/ToolRun.v ===== *)
(** One tool call of the agent loop, from the model's request to the text the
    model gets back: the closure over [tool_call] in [process_message] of
    src/src/agent/loop.rs, around the checks of [Approval] and the gate of
    [Gate].

    JSON parsing is a parameter. The time limit is the environment's decision:
    [interrupted] looks at the states before and after the call and may cut it
    short in any state. Events for user interfaces and usage counters are left
    out; what is published on the bus to users is part of the outcome. *)

From S2P Require Import Prelude Text Errors Provider Context Session Hooks Approval Safety Taint.
From S2P Require Import AuditChain Gate Sanitize LoopGuard.

Section run.
Context {Value W : Type} `{World W} `{RustRegex} `{RustFormat} `{HashOrder}.
Context (sha256 : string → string) (utc_now : M W string).
Context (get_str : Value → string → option string).
Context (json_to_string pretty_json : Value → string).
Context (regex_is_match : string → string → bool) (command_arg : Value → option string).
Context (now_secs : M (Kernel * W) Z).
Context (parse_json : string → result string Value) (parse_error_args : string → Value).
Context (interrupted : Z → Kernel * W → Kernel * W → option (Kernel * W)).

(** What the calls of one message share. [approvals] are the checks, whose
    categories are those of the registry. *)
Record CallSettings : Type := mkCallSettings {
  registry : ToolRegistry Value (Kernel * W);
  hook_engine : HookEngine;
  mode : AgentMode;
  trusted : bool;
  approval : ApprovalGate;
  handler : option (ApprovalHandler (Value := Value) (W := Kernel * W));
  identity : ThreadIdentity;
  tool_ctx : ToolContext;
  safety : option SafetyConfig;
  dry_run : bool;
  budget : nat;
  tool_timeout : Z;
}.

(** The configured limits; at least a second. *)
Definition tool_timeout_of (tool_timeout_secs agent_timeout_secs : Z) : Z :=
  Z.max (if 0 <? tool_timeout_secs then tool_timeout_secs else agent_timeout_secs) 1.

Definition checks_of (s : CallSettings) : CallContext (Value := Value) (W := Kernel * W) :=
  mkCallContext (hook_engine s) (mode s)
    (λ name, Gate.category <$> ToolRegistry.get (registry s) name)
    (trusted s) (approval s) (handler s) (identity s)
    (Gate.channel (tool_ctx s)) (Gate.chat_id (tool_ctx s)).

Record CallOutcome : Type := mkCallOutcome {
  out_id : string;
  out_text : string;
  out_pause : bool;
  out_published : list Notification;
}.

(** [tokio::time::timeout]. *)
Definition with_timeout {A} (secs : Z) (m : M (Kernel * W) A) : M (Kernel * W) (option A) :=
  λ st, let '(a, st') := m st in
        match interrupted secs st st' with
        | Some dropped => (None, dropped)
        | None => (Some a, st')
        end.

Definition call_args (tc : LLMToolCall) : Value :=
  match parse_json (call_arguments tc) with
  | Ok v => v
  | Err e => parse_error_args ("Invalid arguments JSON: " +:+ e)
  end.

Definition dry_run_result (name : string) (args : Value) (budget : nat) : string :=
  "[DRY RUN] Would execute tool '" +:+ name +:+ "' with arguments: "
    +:+ sanitize_tool_result (pretty_json args) budget.

(** The text of a result, whether it succeeded, and the output if there is one.
    [catch_unwind] turns a panic of the gate into an error. *)
Definition result_of (s : CallSettings) (name : string)
    (ran : option (outcome (result ZeptoError ToolOutput))) : string * bool * option ToolOutput :=
  match ran with
  | Some (Ret (Ok output)) => (for_llm output, negb (is_error output), Some output)
  | Some (Ret (Err e)) => ("Error: " +:+ ZeptoError_display e, false, None)
  | Some Panic => ("Error: Tool '" +:+ name +:+ "' panicked during execution", false, None)
  | None =>
    ("Error: Tool '" +:+ name +:+ "' timed out after " +:+ fmt_Z (tool_timeout s) +:+ "s", false,
     None)
  end.

Definition call_channel (s : CallSettings) : string := default "cli" (Gate.channel (tool_ctx s)).
Definition call_chat (s : CallSettings) : string :=
  default (call_channel s) (Gate.chat_id (tool_ctx s)).

Definition execute_call (s : CallSettings) (name : string) (args : Value) : Run (Kernel * W) :=
  Gate.execute_tool sha256 utc_now get_str json_to_string (registry s) name args (tool_ctx s)
    (safety s).

Definition run_tool_call (s : CallSettings) (tc : LLMToolCall) : M (Kernel * W) CallOutcome :=
  let name := call_name tc in
  let args := call_args tc in
  let notices := snd (HookEngine.before_tool (hook_engine s) name (call_channel s) (call_chat s)) in
  let* refusal :=
    check_tool_call regex_is_match command_arg pretty_json now_secs (checks_of s) name args in
  match refusal with
  | Some msg => ret (mkCallOutcome (call_id tc) msg false notices)
  | None =>
    if dry_run s
    then ret (mkCallOutcome (call_id tc) (dry_run_result name args (budget s)) false notices)
    else
      let* tool_start := lift_world instant in
      let* ran := with_timeout (tool_timeout s) (execute_call s name args) in
      let* now := lift_world instant in
      let '(text, success, output) := result_of s name ran in
      let pause := match output with Some o => pause_for_input o | None => false end in
      let user_msg := match output with
                      | Some o => match for_user o with
                                  | Some m => [(default "" (Gate.channel (tool_ctx s)),
                                                default "" (Gate.chat_id (tool_ctx s)), m)]
                                  | None => []
                                  end
                      | None => []
                      end in
      let after :=
        if success
        then HookEngine.after_tool (hook_engine s) name (sat_sub now tool_start / 1000000)
               (call_channel s) (call_chat s)
        else HookEngine.on_error (hook_engine s) name text (call_channel s) (call_chat s) in
      ret (mkCallOutcome (call_id tc) (sanitize_tool_result text (budget s)) pause
             (notices ++ user_msg ++ after))
  end.

(** ** Batches *)

(** Anything that may write files or run commands, or that is unknown. *)
Definition needs_sequential_execution (tools : ToolRegistry Value (Kernel * W))
    (tool_calls : list LLMToolCall) : bool :=
  any (λ tc, match ToolRegistry.get tools (call_name tc) with
             | Some t => match Gate.category t with FilesystemWrite | Shell => true | _ => false end
             | None => true
             end) tool_calls.

Definition run_sequential (s : CallSettings) (tool_calls : list LLMToolCall) : bool :=
  (negb (trusted s) && bool_decide (is_Some (handler s)) &&
   any (λ tc, ApprovalGate.requires_approval (approval s) (call_name tc)) tool_calls)
  || needs_sequential_execution (registry s) tool_calls.

Fixpoint run_in_order (s : CallSettings) (tool_calls : list LLMToolCall)
    : M (Kernel * W) (list CallOutcome) :=
  match tool_calls with
  | [] => ret []
  | tc :: rest =>
    let* out := run_tool_call s tc in
    let* outs := run_in_order s rest in
    ret (out :: outs)
  end.

(** [join_all] gives the results in the order of the calls; in which order the
    calls take effect is the scheduler's decision. *)
Context (join_all : list (M (Kernel * W) CallOutcome) → M (Kernel * W) (list CallOutcome)).

Definition run_batch (s : CallSettings) (tool_calls : list LLMToolCall)
    : M (Kernel * W) (list CallOutcome) :=
  if run_sequential s tool_calls then run_in_order s tool_calls
  else join_all (map (run_tool_call s) tool_calls).
End run.

(** ** What a call may do *)

Section run_spec.
Context {Value W : Type} `{World W} `{RustRegex} `{RustFormat} `{HashOrder}.
Context (sha256 : string → string) (utc_now : M W string).
Context (get_str : Value → string → option string).
Context (json_to_string pretty_json : Value → string).
Context (regex_is_match : string → string → bool) (command_arg : Value → option string).
Context (now_secs : M (Kernel * W) Z).
Context (parse_json : string → result string Value) (parse_error_args : string → Value).
Context (interrupted : Z → Kernel * W → Kernel * W → option (Kernel * W)).
Implicit Types (s : CallSettings (Value := Value) (W := W)) (tc : LLMToolCall) (st : Kernel * W).

#[local] Abbreviation run_tool_call :=
  (run_tool_call sha256 utc_now get_str json_to_string pretty_json regex_is_match command_arg
     now_secs parse_json parse_error_args interrupted).
#[local] Abbreviation args_of := (call_args parse_json parse_error_args).
#[local] Abbreviation checks s tc :=
  (check_tool_call regex_is_match command_arg pretty_json now_secs (checks_of s) (call_name tc)
     (args_of tc)).
#[local] Abbreviation execution s tc :=
  (with_timeout interrupted (tool_timeout s)
     (execute_call sha256 utc_now get_str json_to_string s (call_name tc) (args_of tc))).

Definition with_registry s (r : ToolRegistry Value (Kernel * W)) : CallSettings :=
  mkCallSettings r (hook_engine s) (mode s) (trusted s) (approval s) (handler s) (identity s)
    (tool_ctx s) (safety s) (dry_run s) (budget s) (tool_timeout s).

Definition same_categories (r r' : ToolRegistry Value (Kernel * W)) : Prop :=
  ∀ name, Gate.category <$> ToolRegistry.get r name = Gate.category <$> ToolRegistry.get r' name.

(** The call must not reach the tool: a check refuses it, or it is a dry run, or
    the gate finds its input not clean or tainted. *)
Definition refused s tc st : Prop :=
  let '(refusal, (k, w)) := checks s tc st in
  is_Some refusal ∨ dry_run s = true ∨
  ¬ input_clean get_str json_to_string (safety s) (call_name tc) (args_of tc) ∨
  taint_refuses json_to_string k (call_name tc) (args_of tc).

Lemma checks_registry s r' tc :
  same_categories (registry s) r' → checks (with_registry s r') tc = checks s tc.
Proof.
  intros Hr. unfold check_tool_call, mode_refusal, checks_of, with_registry. cbn.
  by rewrite <- (Hr (call_name tc)).
Qed.

Lemma execution_registry s r' tc k w :
  ¬ input_clean get_str json_to_string (safety s) (call_name tc) (args_of tc) ∨
    taint_refuses json_to_string k (call_name tc) (args_of tc) →
  execution (with_registry s r') tc (k, w) = execution s tc (k, w).
Proof.
  intros Href. unfold with_timeout, execute_call. cbn.
  by rewrite (refused_without_tool sha256 utc_now get_str json_to_string r' (registry s)
                (call_name tc) (args_of tc) (tool_ctx s) (safety s) k w Href).
Qed.

Lemma run_checked s tc st msg st1 :
  checks s tc st = (Some msg, st1) →
  ∃ published, run_tool_call s tc st = (mkCallOutcome (call_id tc) msg false published, st1).
Proof. intros Hc. eexists. unfold ToolRun.run_tool_call. by rewrite (bind_eq _ _ _ _ _ Hc). Qed.

Lemma run_dry s tc st st1 :
  checks s tc st = (None, st1) → dry_run s = true →
  ∃ published, run_tool_call s tc st =
    (mkCallOutcome (call_id tc) (dry_run_result pretty_json (call_name tc) (args_of tc) (budget s))
       false published, st1).
Proof.
  intros Hc Hd. eexists. unfold ToolRun.run_tool_call. by rewrite (bind_eq _ _ _ _ _ Hc), Hd.
Qed.

(** The text the model gets, and whether the loop pauses. *)
Definition model_text s tc (ran : option (outcome (result ZeptoError ToolOutput))) : string :=
  sanitize_tool_result (fst (fst (result_of s (call_name tc) ran))) (budget s).

Definition pauses (ran : option (outcome (result ZeptoError ToolOutput))) : bool :=
  match ran with Some (Ret (Ok o)) => pause_for_input o | _ => false end.

Lemma run_executed s tc st k w start w1 ran k2 w2 :
  checks s tc st = (None, (k, w)) → dry_run s = false → instant w = (start, w1) →
  execution s tc (k, w1) = (ran, (k2, w2)) →
  ∃ published w3, run_tool_call s tc st =
    (mkCallOutcome (call_id tc) (model_text s tc ran) (pauses ran) published, (k2, w3)).
Proof.
  intros Hc Hd Hi He. unfold ToolRun.run_tool_call. rewrite (bind_eq _ _ _ _ _ Hc), Hd.
  rewrite (bind_eq (lift_world instant) _ (k, w) start (k, w1)) by (cbn; by rewrite Hi).
  rewrite (bind_eq _ _ _ _ _ He).
  destruct (instant w2) as [now w3] eqn:Hn.
  rewrite (bind_eq (lift_world instant) _ (k2, w2) now (k2, w3)) by (cbn; by rewrite Hn).
  unfold model_text. destruct ran as [[[o|e]|]|]; by eexists _, _.
Qed.

(** Every call answers with its own id. *)
Lemma run_tool_call_id s tc st : out_id (fst (run_tool_call s tc st)) = call_id tc.
Proof.
  destruct (checks s tc st) as [[msg|] [k w]] eqn:Hc.
  - by destruct (run_checked s tc st msg (k, w) Hc) as [p ->].
  - destruct (dry_run s) eqn:Hd; [by destruct (run_dry s tc st (k, w) Hc Hd) as [p ->]|].
    destruct (instant w) as [start w1] eqn:Hi.
    destruct (execution s tc (k, w1)) as [ran [k2 w2]] eqn:He.
    by destruct (run_executed s tc st k w start w1 ran k2 w2 Hc Hd Hi He) as (p & w3 & ->).
Qed.

(** C3: A tool is consulted only by a call that passed every check: when a hook,
    the agent mode or a user refused it, in a dry run, and when the gate found
    its input not clean or tainted, the outcome and the state are the same with
    any other tools of the same categories. Every call answers with its own id.
    The model gets the refusal; in a dry run the name and the arguments of the
    call; and else, cut to the budget, the output of the one execution through
    the gate, the text of its error, or the words for a panic or the time limit.
    Only an output that asks for it makes the loop pause. *)
Theorem tool_call_guarded s tc st :
  (refused s tc st → ∀ r', same_categories (registry s) r' →
     run_tool_call (with_registry s r') tc st = run_tool_call s tc st) ∧
  let '(out, st') := run_tool_call s tc st in
  out_id out = call_id tc ∧
  match checks s tc st with
  | (Some msg, st1) => out_text out = msg ∧ out_pause out = false ∧ st' = st1
  | (None, (k, w)) =>
    if dry_run s
    then out_text out = "[DRY RUN] Would execute tool '" +:+ call_name tc +:+ "' with arguments: "
                          +:+ sanitize_tool_result (pretty_json (args_of tc)) (budget s) ∧
         out_pause out = false ∧ st' = (k, w)
    else
      let '(start, w1) := instant w in
      let '(ran, (k2, w2)) :=
        Gate.execute_tool sha256 utc_now get_str json_to_string (registry s) (call_name tc)
          (args_of tc) (tool_ctx s) (safety s) (k, w1) in
      match interrupted (tool_timeout s) (k, w1) (k2, w2) with
      | Some (k', w') =>
        out_text out = sanitize_tool_result
          ("Error: Tool '" +:+ call_name tc +:+ "' timed out after " +:+ fmt_Z (tool_timeout s) +:+ "s")
          (budget s) ∧ out_pause out = false ∧ fst st' = k'
      | None =>
        fst st' = k2 ∧
        match ran with
        | Ret (Ok output) =>
          out_text out = sanitize_tool_result (for_llm output) (budget s) ∧
          out_pause out = pause_for_input output
        | Ret (Err e) =>
          out_text out = sanitize_tool_result ("Error: " +:+ ZeptoError_display e) (budget s) ∧
          out_pause out = false
        | Panic =>
          out_text out = sanitize_tool_result
            ("Error: Tool '" +:+ call_name tc +:+ "' panicked during execution") (budget s) ∧
          out_pause out = false
        end
      end
  end.
Proof.
  unfold refused. destruct (checks s tc st) as [[msg|] [k w]] eqn:Hc.
  - split.
    + intros _ r' Hr. pose proof Hc as Hc'. rewrite <- (checks_registry s r' tc Hr) in Hc'.
      unfold ToolRun.run_tool_call at 1 2.
      change (hook_engine (with_registry s r')) with (hook_engine s).
      rewrite (bind_eq _ _ _ _ _ Hc), (bind_eq _ _ _ _ _ Hc'). done.
    + destruct (run_checked s tc st msg (k, w) Hc) as [published ->]. done.
  - destruct (instant w) as [start w1] eqn:Hi. split.
    + intros Href r' Hr. pose proof Hc as Hc'. rewrite <- (checks_registry s r' tc Hr) in Hc'.
      unfold ToolRun.run_tool_call. rewrite (bind_eq _ _ _ _ _ Hc), (bind_eq _ _ _ _ _ Hc').
      change (dry_run (with_registry s r')) with (dry_run s).
      destruct (dry_run s) eqn:Hd; [done|].
      rewrite !(bind_eq (lift_world instant) _ (k, w) start (k, w1)) by (cbn; by rewrite Hi).
      destruct (execution s tc (k, w1)) as [ran st2] eqn:He.
      assert (execution (with_registry s r') tc (k, w1) = (ran, st2)) as He'.
      { rewrite <- He. apply execution_registry.
        destruct Href as [[? ?]|[?|[?|(e & v & ?)]]]; [done|done|by left|right; by exists e, v]. }
      rewrite (bind_eq _ _ _ _ _ He), (bind_eq _ _ _ _ _ He'). done.
    + destruct (dry_run s) eqn:Hd.
      * destruct (run_dry s tc st (k, w) Hc Hd) as [published ->]. done.
      * pose proof (run_executed s tc st k w start w1) as Hrun. revert Hrun.
        unfold with_timeout, execute_call.
        destruct (Gate.execute_tool _ _ _ _ _ _ _ _ _ _) as [ran [k2 w2]]. intros Hrun.
        destruct (interrupted _ _ _) as [[k' w']|].
        -- destruct (Hrun None k' w' Hc Hd Hi eq_refl) as (published & w3 & ->). done.
        -- destruct (Hrun (Some ran) k2 w2 Hc Hd Hi eq_refl) as (published & w3 & ->).
           by destruct ran as [[o|e]|].
Qed.

(** *** Batches *)

Context (join_all : list (M (Kernel * W) CallOutcome) → M (Kernel * W) (list CallOutcome)).

(** [join_all] gives one result per future, in order, each that of its future
    run from some state. *)
Definition joins : Prop := ∀ ms st,
  Forall2 (λ (m : M (Kernel * W) CallOutcome) o, ∃ st1, fst (m st1) = o) ms (fst (join_all ms st)).

Lemma run_in_order_ids s calls st :
  map out_id (fst (run_in_order sha256 utc_now get_str json_to_string pretty_json regex_is_match
                     command_arg now_secs parse_json parse_error_args interrupted s calls st)) =
  map call_id calls.
Proof.
  revert st. induction calls as [|tc calls IH]; intros st; [done|]. cbn [run_in_order map].
  unfold bind. pose proof (run_tool_call_id s tc st) as Hid.
  destruct (run_tool_call s tc st) as [out st1]. specialize (IH st1).
  destruct (run_in_order _ _ _ _ _ _ _ _ _ _ _ s calls st1) as [outs st2]. cbn in *. by rewrite Hid, IH.
Qed.

(** Sequential or parallel, a batch is answered in the order of its calls. *)
Lemma run_batch_ids s calls st :
  joins →
  map out_id (fst (run_batch sha256 utc_now get_str json_to_string pretty_json regex_is_match
                     command_arg now_secs parse_json parse_error_args interrupted join_all s calls st)) =
  map call_id calls.
Proof.
  intros Hjoin. unfold run_batch. destruct (run_sequential s calls); [apply run_in_order_ids|].
  specialize (Hjoin (map (run_tool_call s) calls) st). revert Hjoin.
  generalize (fst (join_all (map (run_tool_call s) calls) st)). clear st.
  induction calls as [|tc calls IH]; intros outs Hj; cbn [map] in *.
  - by apply Forall2_nil_inv_l in Hj as ->.
  - apply Forall2_cons_inv_l in Hj as (o & outs' & (st1 & <-) & Hj & ->). cbn [map].
    by rewrite run_tool_call_id, (IH outs' Hj).
Qed.
End run_spec.
