(* ===== verification/Cache.v ===== *)
(** The cache of responses: src/src/cache/response_cache.rs.

    The order in which a hash map is iterated decides which of several entries
    that were used at the same second goes first; it is a parameter
    ([MapOrder CacheEntry]), as are SHA-256 and the JSON of the file. A write of the file
    that fails changes nothing and is ignored, as in the code. *)

From S2P Require Import Prelude Text AuditChain.

Record CacheEntry : Type := mkCacheEntry {
  response : string;
  token_count : Z;
  created_at : Z;
  accessed_at : Z;
  hit_count : Z;
}.

Definition CacheStore : Type := gmap string CacheEntry.

Record ResponseCache : Type := mkResponseCache {
  store : gmap string CacheEntry;
  file : option string;
  ttl_secs : Z;
  max_entries : nat;
}.

Record CacheStats : Type := mkCacheStats {
  total_entries : nat;
  total_hits : Z;
  total_tokens_saved : Z;
}.

Definition min_by_accessed (l : list (string * CacheEntry)) : option (string * CacheEntry) :=
  min_by (λ ke, accessed_at (snd ke)) l.

Module ResponseCache.
Section cache.
Context `{MapOrder CacheEntry}.
Context (sha256 : string → string).
Context (to_json : gmap string CacheEntry → string)
        (from_json : string → option (gmap string CacheEntry)).

Definition load_from_disk (file : option string) : gmap string CacheEntry :=
  match file with
  | Some data => default ∅ (from_json data)
  | None => ∅
  end.

Definition with_path (file : option string) (ttl_secs : Z) (max_entries : nat) : ResponseCache :=
  mkResponseCache (load_from_disk file) file ttl_secs (Nat.max max_entries 1).

Definition cache_key (model system_prompt user_prompt : string) : string :=
  sha256 (hash_string_field model +:+ hash_string_field system_prompt
            +:+ hash_string_field user_prompt).

Definition with_store (self : ResponseCache) (s : gmap string CacheEntry) : ResponseCache :=
  mkResponseCache s (file self) (ttl_secs self) (max_entries self).

Definition expired (self : ResponseCache) (now : Z) (e : CacheEntry) : bool :=
  ttl_secs self <? sat_sub now (created_at e).

Definition get (self : ResponseCache) (key : string) (now : Z) : option string * ResponseCache :=
  match store self !! key with
  | None => (None, self)
  | Some e =>
    if expired self now e then (None, with_store self (delete key (store self)))
    else
      (Some (response e),
       with_store self
         (<[key := mkCacheEntry (response e) (token_count e) (created_at e) now
                     (sat_add32 (hit_count e) 1)]> (store self)))
  end.

Definition evict_expired (self : ResponseCache) (now : Z) : ResponseCache :=
  with_store self (filter (λ ke, expired self now (snd ke) = false) (store self)).

Definition evict_lru (self : ResponseCache) : ResponseCache :=
  match min_by_accessed (map_iter (store self)) with
  | Some (k, _) => with_store self (delete k (store self))
  | None => self
  end.

(** [while len >= effective_max { evict_lru() }]; every turn takes one entry out,
    so that as many turns as there are entries are enough. *)
Fixpoint evict_to (fuel : nat) (self : ResponseCache) (effective_max : nat) : ResponseCache :=
  match fuel with
  | O => self
  | S fuel =>
    if Nat.leb effective_max (size (store self)) then evict_to fuel (evict_lru self) effective_max
    else self
  end.

(** [writable]: whether the file system takes the file. *)
Definition save_to_disk (self : ResponseCache) (writable : bool) : ResponseCache :=
  if writable
  then mkResponseCache (store self) (Some (to_json (store self))) (ttl_secs self) (max_entries self)
  else self.

Definition put (self : ResponseCache) (key response : string) (token_count now : Z)
    (writable : bool) : ResponseCache :=
  let self := evict_expired self now in
  let self := evict_to (size (store self)) self (Nat.max (max_entries self) 1) in
  save_to_disk
    (with_store self (<[key := mkCacheEntry response token_count now now 0]> (store self)))
    writable.

Definition stats (self : ResponseCache) : CacheStats :=
  mkCacheStats (size (store self))
    (map_fold (λ _ e acc, wadd64 acc (hit_count e)) 0 (store self))
    (map_fold (λ _ e acc, wadd64 acc (wmul64 (hit_count e) (token_count e))) 0 (store self)).

Definition clear (self : ResponseCache) (writable : bool) : ResponseCache :=
  save_to_disk (with_store self ∅) writable.

Definition len (self : ResponseCache) : nat := size (store self).
Definition is_empty (self : ResponseCache) : bool := bool_decide (store self = ∅).
End cache.
End ResponseCache.

(** ** Eviction *)

Section eviction.
Context `{MapOrder CacheEntry}.
Implicit Types (self : ResponseCache) (k : string) (e : CacheEntry).

Lemma evict_lru_store self :
  store self ≠ ∅ →
  ∃ k e, store self !! k = Some e ∧
    (∀ k' e', store self !! k' = Some e' → accessed_at e ≤ accessed_at e') ∧
    ResponseCache.evict_lru self = ResponseCache.with_store self (delete k (store self)).
Proof.
  intros Hne. unfold ResponseCache.evict_lru, min_by_accessed.
  destruct (min_by_map accessed_at (store self) Hne) as (k & e & -> & Hk & Hmin). by exists k, e.
Qed.

(** The loop ends below the limit, takes out no more than it has to, and only
    entries that were used no later than any that stay. *)
Lemma evict_to_spec fuel self max :
  (0 < max)%nat → (size (store self) ≤ fuel)%nat →
  let s' := store (ResponseCache.evict_to fuel self max) in
  size s' = Nat.min (size (store self)) (max - 1) ∧ s' ⊆ store self ∧
  (∀ k e k' e', store self !! k = Some e → s' !! k = None → s' !! k' = Some e' →
     accessed_at e ≤ accessed_at e') ∧
  file (ResponseCache.evict_to fuel self max) = file self ∧
  ttl_secs (ResponseCache.evict_to fuel self max) = ttl_secs self ∧
  max_entries (ResponseCache.evict_to fuel self max) = max_entries self.
Proof.
  intros Hmax. cbv zeta. revert self. induction fuel as [|fuel IH]; intros self Hfuel;
    cbn [ResponseCache.evict_to].
  { assert (store self = ∅) as Hs by (apply map_size_empty_inv; lia).
    split_and!; try done; [lia|]. intros k e k' e' Hk. rewrite Hs in Hk. done. }
  destruct (Nat.leb_spec max (size (store self))) as [Hle|Hgt].
  2: { split_and!; try done; [lia|]. intros k e k' e' H1 H2. congruence. }
  destruct (evict_lru_store self) as (k0 & e0 & Hk0 & Hmin & Heq).
  { intros Hs. rewrite Hs, map_size_empty in Hle. lia. }
  rewrite Heq. set (self1 := ResponseCache.with_store self (delete k0 (store self))).
  assert (size (store self1) = size (store self) - 1)%nat as Hsize.
  { unfold self1. cbn [store ResponseCache.with_store].
    rewrite map_size_delete_Some by by eexists. lia. }
  destruct (IH self1) as (H1 & H2 & H3 & H4 & H5 & H6); [lia|]. split_and!; try done.
  - rewrite H1, Hsize. lia.
  - etrans; [done|]. apply delete_subseteq.
  - intros k e k' e' Hk Hn Hk'.
    assert (store self !! k' = Some e') as Hold.
    { eapply lookup_weaken; [done|]. etrans; [done|]. apply delete_subseteq. }
    destruct (decide (k = k0)) as [->|Hne].
    + assert (e = e0) as -> by congruence. by apply (Hmin k').
    + apply (H3 k e k' e'); [|done|done]. cbn. by rewrite lookup_delete_ne.
Qed.
End eviction.

Section put_spec.
Context `{MapOrder CacheEntry}.
Context (to_json : gmap string CacheEntry → string).

(** The entries that are not expired. *)
Definition live self now : gmap string CacheEntry :=
  filter (λ ke, ResponseCache.expired self now (snd ke) = false) (store self).

(** The new entry is added to what the eviction left. *)
Lemma put_store self key response token_count now writable :
  let self' := ResponseCache.put to_json self key response token_count now writable in
  ∃ s, store self' = <[key := mkCacheEntry response token_count now now 0]> s ∧
    s ⊆ live self now ∧
    size s = Nat.min (size (live self now)) (Nat.max (max_entries self) 1 - 1) ∧
    (∀ k e k' e', live self now !! k = Some e → s !! k = None → s !! k' = Some e' →
       accessed_at e ≤ accessed_at e') ∧
    ttl_secs self' = ttl_secs self ∧ max_entries self' = max_entries self ∧
    file self' = (if writable then Some (to_json (store self')) else file self).
Proof.
  cbv zeta. unfold ResponseCache.put. cbv zeta.
  set (self1 := ResponseCache.evict_expired self now).
  change (max_entries self1) with (max_entries self).
  destruct (evict_to_spec (size (store self1)) self1 (Nat.max (max_entries self) 1))
    as (Hsize & Hsub & Hlru & Hfile & Httl & Hmax); [lia|done|].
  eexists. split; [by destruct writable|]. split_and!; [exact Hsub|exact Hsize|exact Hlru|..].
  - by destruct writable.
  - by destruct writable.
  - by destruct writable.
Qed.

(** What [put] does, for every cache, key and time. The new entry is there,
    fresh. Any other entry that is there was there before, unchanged and not
    expired; what was not expired and is gone had been used no later than any
    entry that stays, and is only gone because the cache was full. The number
    of entries never passes the limit, the file holds the new entries when it
    could be written, and is as it was otherwise. *)
Theorem cache_put_evicts_lru self key response token_count now writable :
  let self' := ResponseCache.put to_json self key response token_count now writable in
  store self' !! key = Some (mkCacheEntry response token_count now now 0) ∧
  (∀ k e, k ≠ key → store self' !! k = Some e → live self now !! k = Some e) ∧
  (∀ k e, k ≠ key → live self now !! k = Some e → store self' !! k = None →
     (Nat.max (max_entries self) 1 ≤ size (live self now))%nat ∧
     ∀ k' e', k' ≠ key → store self' !! k' = Some e' → accessed_at e ≤ accessed_at e') ∧
  (size (store self') ≤ Nat.max (max_entries self) 1)%nat ∧
  file self' = (if writable then Some (to_json (store self')) else file self).
Proof.
  cbv zeta. destruct (put_store self key response token_count now writable)
    as (s & -> & Hsub & Hsize & Hlru & _ & _ & Hfile).
  split_and!; [by rewrite lookup_insert_eq|..|done].
  - intros k e Hne. rewrite lookup_insert_ne by done. intros Hk.
    by apply (lookup_weaken _ _ _ _ Hk Hsub).
  - intros k e Hne Hk. rewrite lookup_insert_ne by done. intros Hn. split.
    + destruct (Nat.le_gt_cases (Nat.max (max_entries self) 1) (size (live self now))) as [|Hlt];
        [done|]. exfalso.
      assert (s = live self now) as -> by (apply map_subseteq_size_eq; [done|lia]). congruence.
    + intros k' e' Hne'. rewrite lookup_insert_ne by done. by apply (Hlru k e).
  - rewrite map_size_insert. destruct (s !! key); unfold Datatypes.id; lia.
Qed.
End put_spec.

(** ** Histories *)

Inductive CacheOp : Type :=
| Lookup (key : string) (now : Z)
| Put (key response : string) (token_count now : Z) (writable : bool)
| Clear (writable : bool).

Section histories.
Context `{MapOrder CacheEntry}.
Context (to_json : gmap string CacheEntry → string)
        (from_json : string → option (gmap string CacheEntry)).
Implicit Types (c : ResponseCache) (h : list CacheOp).

Definition cache_step c (op : CacheOp) : ResponseCache :=
  match op with
  | Lookup key now => snd (ResponseCache.get c key now)
  | Put key r n now writable => ResponseCache.put to_json c key r n now writable
  | Clear writable => ResponseCache.clear to_json c writable
  end.

(** A cache that starts without a file. *)
Definition cache_run (ttl : Z) (max : nat) h : ResponseCache :=
  foldl cache_step (ResponseCache.with_path from_json None ttl max) h.

(** The response stored last under a key, and when, unless it was cleared. *)
Definition last_put h (key : string) : option (string * Z) :=
  foldl (λ acc op, match op with
                   | Put k r _ now _ => if String.eqb k key then Some (r, now) else acc
                   | Clear _ => None
                   | Lookup _ _ => acc
                   end) None h.

Lemma cache_run_snoc ttl max h op :
  cache_run ttl max (h ++ [op]) = cache_step (cache_run ttl max h) op.
Proof. unfold cache_run. by rewrite foldl_app. Qed.

Lemma cache_run_ok ttl max h :
  let c := cache_run ttl max h in
  ttl_secs c = ttl ∧ max_entries c = Nat.max max 1 ∧ (size (store c) ≤ Nat.max max 1)%nat ∧
  ∀ k e, store c !! k = Some e → last_put h k = Some (response e, created_at e).
Proof.
  cbv zeta. induction h as [|op h (Httl & Hmax & Hsize & Hlast)] using rev_ind.
  { cbn. rewrite map_size_empty. split_and!; [done|done|lia|done]. }
  rewrite cache_run_snoc. unfold last_put. setoid_rewrite foldl_app. fold (last_put h). cbn [foldl].
  set (c := cache_run ttl max h) in *.
  destruct op as [key now|key r n now writable|writable]; cbn [cache_step].
  - unfold ResponseCache.get. destruct (store c !! key) as [e|] eqn:Hk; [|done].
    destruct (ResponseCache.expired c now e); cbn [snd ResponseCache.with_store store ttl_secs max_entries].
    + split_and!; [done|done| |].
      * rewrite map_size_delete, Hk. lia.
      * intros k e' Hk'. apply lookup_delete_Some in Hk' as [_ Hk']. by apply Hlast.
    + split_and!; [done|done| |].
      * by rewrite map_size_insert, Hk.
      * intros k e'. rewrite lookup_insert_Some. intros [[<- <-]|[_ Hk']]; [|by apply Hlast].
        cbn. by apply (Hlast key e).
  - destruct (put_store to_json c key r n now writable)
      as (s & Hst & Hsub & Hsz & _ & Ht & Hm & _).
    rewrite Hst, Ht, Hm. split_and!; [done|done| |].
    + rewrite map_size_insert. destruct (s !! key); unfold Datatypes.id; lia.
    + intros k e Hk. destruct (String.eqb_spec key k) as [->|Hne].
      * rewrite lookup_insert_eq in Hk. by injection Hk as <-.
      * rewrite lookup_insert_ne in Hk by done. apply (lookup_weaken _ _ _ _ Hk) in Hsub.
        apply map_lookup_filter_Some in Hsub as [Hk' _]. by apply Hlast.
  - destruct writable; cbn; rewrite map_size_empty; (split_and!; [done|done|lia|done]).
Qed.

(** The cache over any history of lookups, stores and clears. What a lookup
    returns is what was stored last under the key, not cleared since, and not
    older than the time to live; there are never more entries than the limit;
    and a cache opened again on a file that was just written is the same cache.
    When the hash has no collisions, different questions have different keys. *)
Theorem cache_histories (sha256 : string → string) ttl max h :
  let c := cache_run ttl max h in
  (∀ key now r, fst (ResponseCache.get c key now) = Some r →
     ∃ t, last_put h key = Some (r, t) ∧ sat_sub now t ≤ ttl) ∧
  (size (store c) ≤ Nat.max max 1)%nat ∧
  ((∀ s, from_json (to_json s) = Some s) → ∀ key r n now,
     let c' := ResponseCache.put to_json c key r n now true in
     ResponseCache.with_path from_json (file c') ttl max = c') ∧
  ((∀ x y, sha256 x = sha256 y → x = y) → ∀ m s u m' s' u',
     Forall short [m; s; u; m'; s'; u'] →
     ResponseCache.cache_key sha256 m s u = ResponseCache.cache_key sha256 m' s' u' →
     m = m' ∧ s = s' ∧ u = u').
Proof.
  cbv zeta. destruct (cache_run_ok ttl max h) as (Httl & Hmax & Hsize & Hlast).
  set (c := cache_run ttl max h) in *. split_and!.
  - intros key now r. unfold ResponseCache.get. destruct (store c !! key) as [e|] eqn:Hk; [|done].
    destruct (ResponseCache.expired c now e) eqn:He; [done|]. intros [= <-].
    exists (created_at e). split; [by apply Hlast|].
    unfold ResponseCache.expired in He. rewrite Httl in He. lia.
  - done.
  - intros Hjson key r n now.
    destruct (put_store to_json c key r n now true) as (s & Hst & _ & _ & _ & Ht & Hm & Hfile).
    destruct (ResponseCache.put _ _ _ _ _ _ _) as [st f t m].
    cbn [store file ttl_secs max_entries] in *. rewrite Hfile, Ht, Hm, Httl, Hmax.
    unfold ResponseCache.with_path, ResponseCache.load_from_disk. by rewrite Hjson.
  - intros Hinj m s u m' s' u' Hshort Hkey. apply Hinj in Hkey.
    rewrite !Forall_cons in Hshort. destruct Hshort as (? & ? & ? & ? & ? & ? & _).
    apply field_inj in Hkey as [-> Hkey]; [|done..]. apply field_inj in Hkey as [-> Hkey]; [|done..].
    rewrite <- (str_app_nil_r (hash_string_field u)), <- (str_app_nil_r (hash_string_field u')) in Hkey.
    by apply field_inj in Hkey as [-> _].
Qed.
End histories.

(** ** Evaluation *)

Module Example_cache.

#[global] Instance order : MapOrder CacheEntry := {|
  map_iter s := map_to_list s; map_iter_list s := reflexivity (map_to_list s); |}.

#[global] Instance entry_eq_dec : EqDecision CacheEntry.
Proof. solve_decision. Defined.

#[global] Instance entry_countable : Countable CacheEntry.
Proof.
  refine (inj_countable'
    (λ e, (response e, token_count e, created_at e, accessed_at e, hit_count e))
    (λ '(r, n, c, a, hc), mkCacheEntry r n c a hc) _).
  by intros [].
Defined.

Definition history : list CacheOp :=
  [Put "a" "1" 10 100 false; Put "b" "2" 10 101 false; Lookup "a" 102; Put "c" "3" 10 103 false].

(** The entry that was looked up stays; the other one goes. *)
Example lru_goes :
  map fst (map_to_list (store (cache_run Digits.to_json Digits.from_json 3600 2 history))) = ["c"; "a"] ∨
  map fst (map_to_list (store (cache_run Digits.to_json Digits.from_json 3600 2 history))) = ["a"; "c"].
Proof. vm_compute. auto. Qed.
End Example_cache.

Lemma cache_histories_witness :
  let c := cache_run Digits.to_json Digits.from_json 3600 2 Example_cache.history in
  (∃ t, last_put Example_cache.history "a" = Some ("1", t) ∧ sat_sub 200 t ≤ 3600) ∧
  ResponseCache.with_path Digits.from_json
    (file (ResponseCache.put Digits.to_json c "d" "4" 1 104 true)) 3600 2 =
  ResponseCache.put Digits.to_json c "d" "4" 1 104 true.
Proof.
  destruct (cache_histories Digits.to_json Digits.from_json (λ x, x) 3600 2
              Example_cache.history) as (Hget & _ & Hfile & _).
  split.
  - apply (Hget "a" 200 "1"). vm_compute. reflexivity.
  - apply Hfile. apply Digits.round_trip.
Defined.
