(* ===== verification/AgentLoop.v ===== *)
(** The message loop of the agent: [process_message] of src/src/agent/loop.rs,
    from the inbound message to the saved reply.

    What the loop asks of the rest of the agent is the class [Environment]: the
    provider, the prompt builder, the execution of a batch of tool calls (which
    [ToolRun] implements), the cache, the session store, and for the flush of
    memory the definitions of its tool, a request under a time limit ([None] when
    it elapses), and the execution of a call by its name and its arguments. The
    counters of a run belong to it alone here; the streaming variant, feedback to
    user interfaces and logging are left out. A session is its messages. *)

From Stdlib Require Import Floats.
From S2P Require Import Prelude Errors Provider Hooks Approval Context Compaction Budget LoopGuard.
From S2P Require Import Safety Taint AuditChain Gate Sanitize ToolRun Cache Session.

(** ** Data *)

Record LLMResponse : Type := mkLLMResponse {
  lr_content : string;
  lr_tool_calls : list LLMToolCall;
  lr_usage : option (Z * Z);
}.

Definition has_tool_calls (r : LLMResponse) : bool :=
  negb (Nat.eqb (length (lr_tool_calls r)) 0).

Definition with_reply (r : LLMResponse) (content : string) : LLMResponse :=
  mkLLMResponse content (lr_tool_calls r) (lr_usage r).
Definition with_batch (r : LLMResponse) (batch : list LLMToolCall) : LLMResponse :=
  mkLLMResponse (lr_content r) batch (lr_usage r).

Record LoopConfig : Type := mkLoopConfig {
  max_tool_iterations : nat;
  max_tool_calls : option Z;
  token_limit_of_run : Z;
  overflow_retries : nat;
  window_tokens : Z;
  margin : float;
  max_tool_result_bytes : nat;
  result_share : float;
  monitor : option ContextMonitor;
  guard_config : LoopGuardConfig;
  scan_inbound : bool;
  cache_enabled : bool;
  configured_model : string;
}.

(** What the loop carries from one iteration to the next. *)
Record LoopState : Type := mkLoopState {
  session : list Message;
  reply : LLMResponse;
  tracker : ToolCallLimitTracker;
  tokens : TokenBudget;
  chain : ChainTracker;
  guard : option LoopGuard;
}.

Definition with_session (st : LoopState) (s : list Message) : LoopState :=
  mkLoopState s (reply st) (tracker st) (tokens st) (chain st) (guard st).
Definition with_response (st : LoopState) (r : LLMResponse) : LoopState :=
  mkLoopState (session st) r (tracker st) (tokens st) (chain st) (guard st).
Definition with_guard (st : LoopState) (g : option LoopGuard) : LoopState :=
  mkLoopState (session st) (reply st) (tracker st) (tokens st) (chain st) g.
Definition with_tracker (st : LoopState) (t : ToolCallLimitTracker) : LoopState :=
  mkLoopState (session st) (reply st) t (tokens st) (chain st) (guard st).

Class Environment (S : Type) := {
  provider_configured : M S bool;
  chat : list Message → list ToolDefinition → M S (result ZeptoError LLMResponse);
  build_resolved_messages : list Message → M S (list Message);
  tool_definitions : M S (list ToolDefinition);
  run_calls : nat → list LLMToolCall → M S (list CallOutcome);
  flush_definitions : M S (list ToolDefinition);
  flush_chat : list Message → list ToolDefinition → M S (option (result ZeptoError LLMResponse));
  flush_tool : string → string → M S (outcome unit);
  get_or_create : M S (result ZeptoError (list Message));
  save_session : list Message → M S (result ZeptoError unit);
  cache_lookup : string → M S (option string);
  cache_store : string → string → Z → M S unit;
  (** A batch is answered call by call, in order, under the ids of the calls. *)
  run_calls_ids budget calls s :
    map out_id (fst (run_calls budget calls s)) = map call_id calls;
}.

(** ** Fallible computations *)

(** A computation that may panic or fail. *)
Definition Res (S A : Type) : Type := M S (outcome (result ZeptoError A)).

Definition bindR {S A B} (m : Res S A) (f : A → Res S B) : Res S B :=
  λ s, let '(r, s1) := m s in
       match r with
       | Ret (Ok a) => f a s1
       | Ret (Err e) => (Ret (Err e), s1)
       | Panic => (Panic, s1)
       end.
Definition retR {S A} (a : A) : Res S A := ret (Ret (Ok a)).
Definition failR {S A} (e : ZeptoError) : Res S A := ret (Ret (Err e)).
(** Effects that always succeed, and pure steps that may panic. *)
Definition effR {S A} (m : M S A) : Res S A := λ s, let '(a, s1) := m s in (Ret (Ok a), s1).
Definition pureR {S A} (o : outcome A) : Res S A := ret (Ok <$> o).
Definition tryO {S A} (m : M S (outcome A)) : Res S A := λ s, let '(o, s1) := m s in (Ok <$> o, s1).
Definition tryR {S A} (m : M S (result ZeptoError A)) : Res S A :=
  λ s, let '(r, s1) := m s in (Ret r, s1).

Notation "'let!' x := m 'in' k" := (bindR m (λ x, k))
  (at level 200, x binder, m at level 100, k at level 200, right associativity) : effect_scope.

(** ** The session during a run *)

(** Changes the last message that satisfies [p]. *)
Fixpoint update_last {A} (p : A → bool) (f : A → A) (l : list A) : list A * bool :=
  match l with
  | [] => ([], false)
  | x :: l' =>
    let '(l', done) := update_last p f l' in
    if done then (x :: l', true) else if p x then (f x :: l', true) else (x :: l', false)
  end.

Definition sync_trimmed_tool_results (session_messages resolved_messages : list Message)
    : list Message :=
  foldl (λ s resolved,
    if negb (bool_decide (role resolved = Tool)) then s
    else fst (update_last
      (λ m, bool_decide (role m = Tool) && bool_decide (tool_call_id m = tool_call_id resolved))
      (λ m, if String.eqb (content m) (content resolved) then m
            else mkMessage (role m) (content resolved) (content_parts resolved) (tool_calls m)
                   (tool_call_id m)) s))
    session_messages resolved_messages.

Definition call_of (tc : LLMToolCall) : ToolCall :=
  mkToolCall (call_id tc) (call_name tc) (call_arguments tc).

Definition request_message (r : LLMResponse) : Message :=
  Message.assistant_with_tools (lr_content r) (map call_of (lr_tool_calls r)).

Definition result_message (o : CallOutcome) : Message := Message.tool_result (out_id o) (out_text o).

Section loop.
Context {S : Type} `{Environment S} `{RustUnicode} `{RustRegex}.
Context (sha256 : string → string) (json_normalized : string → option string).
Context (budget_summary : TokenBudget → string).
Implicit Types (cfg : LoopConfig) (st : LoopState).

Definition recover cfg (messages : list Message) (urgency : CompactionUrgency) (keep : nat)
    : outcome (list Message) :=
  r ← try_recover_context_with_urgency messages (window_tokens cfg) urgency keep
        (max_tool_result_bytes cfg) (margin cfg);
  mret (fst r).

(** The guard before a request: the session and the messages to send. *)
Definition preflight cfg (sess messages : list Message) (defs : list ToolDefinition)
    : Res S (list Message * list Message) :=
  match monitor cfg with
  | None => retR (sess, messages)
  | Some mon =>
    match ContextMonitor.preflight_check mon messages defs with
    | (POk, messages) => retR (sess, messages)
    | (Trimmed, messages) => retR (sync_trimmed_tool_results sess messages, messages)
    | (NeedsCompaction, _) =>
      let! recovered := pureR (recover cfg sess Emergency 5) in
      let! messages := effR (build_resolved_messages recovered) in
      retR (recovered, messages)
    end
  end.

(** The same guard before the synthesis call, which keeps no trims. *)
Definition preflight_synthesis cfg (sess messages : list Message)
    : Res S (list Message * list Message) :=
  match monitor cfg with
  | None => retR (sess, messages)
  | Some mon =>
    match ContextMonitor.preflight_check mon messages [] with
    | (NeedsCompaction, _) =>
      let! recovered := pureR (recover cfg sess Emergency 5) in
      let! messages := effR (build_resolved_messages recovered) in
      retR (recovered, messages)
    | (_, messages) => retR (sess, messages)
    end
  end.

(** [while let Err(ref e) = result]: on a context overflow the session is cut
    and the request made again. [defs] are the tools of the next attempt. *)
Fixpoint overflow_retry cfg (retries : nat) (attempt : Z) (keep : nat)
    (defs : M S (list ToolDefinition)) (sess : list Message)
    (r : result ZeptoError LLMResponse) : Res S (result ZeptoError LLMResponse * list Message) :=
  match r with
  | Ok _ => retR (r, sess)
  | Err e =>
    if negb (is_context_overflow e) then retR (r, sess)
    else
      match retries with
      | O => retR (r, sess)
      | Datatypes.S retries =>
        match monitor cfg with
        | None => retR (r, sess)
        | Some _ =>
          let! sess := pureR (recover cfg sess (overflow_retry_urgency attempt) keep) in
          let! messages := effR (build_resolved_messages sess) in
          let! last_tool_defs := effR defs in
          let! r := effR (chat messages last_tool_defs) in
          overflow_retry cfg retries (attempt + 1) keep defs sess r
        end
      end
  end.

(** A request with its retries. *)
Definition llm_call cfg (keep : nat) (first_defs : list ToolDefinition)
    (defs : M S (list ToolDefinition)) (sess messages : list Message)
    : Res S (LLMResponse * list Message) :=
  let! r := effR (chat messages first_defs) in
  let! final := overflow_retry cfg (overflow_retries cfg) 0 keep defs sess r in
  match final with
  | (Ok response, sess) => retR (response, sess)
  | (Err e, _) => failR e
  end.

Definition record_usage (b : TokenBudget) (r : LLMResponse) : TokenBudget :=
  match lr_usage r with
  | Some (prompt, completion) => TokenBudget.record b prompt completion
  | None => b
  end.

Definition add_notes (sess : list Message) (notes : list string) : list Message :=
  sess ++ map Message.system notes.

(** *** One iteration *)

(** The request of the model joins the session, its calls are executed, and
    their results join it. *)
Definition execute_batch cfg st (batch : list LLMToolCall)
    : Res S (LoopState * list CallOutcome) :=
  let response := with_batch (reply st) batch in
  let sess := session st ++ [request_message response] in
  let! budget := pureR (compute_tool_result_budget_with_share (window_tokens cfg)
                          (ContextMonitor.estimate_tokens_with_margin sess (margin cfg))
                          (Z.of_nat (length batch)) (Z.of_nat (max_tool_result_bytes cfg))
                          (result_share cfg)) in
  let! results := effR (run_calls (Z.to_nat budget) batch) in
  let '(chain', _) := ChainTracker.record (chain st) (map call_name batch) in
  retR (mkLoopState (sess ++ map result_message results) response (tracker st) (tokens st) chain'
          (guard st), results).

(** Compaction between iterations. *)
Definition compact_in_loop cfg (sess : list Message) : outcome (list Message) :=
  match monitor cfg with
  | None => mret sess
  | Some mon =>
    match ContextMonitor.urgency mon sess with
    | Some urgency => recover cfg sess urgency 8
    | None => mret sess
    end
  end.

(** The last request of a run that has used up its tool calls, without tools. *)
Definition synthesize cfg st : Res S LoopState :=
  if TokenBudget.is_exceeded (tokens st)
  then retR (with_response st
               (with_reply (reply st) "Tool call limit reached. Token budget exceeded."))
  else
    let! messages := effR (build_resolved_messages (session st)) in
    let! checked := preflight_synthesis cfg (session st) messages in
    let '(sess, messages) := checked in
    let! called := llm_call cfg 5 [] (ret []) sess messages in
    let '(response, sess) := called in
    retR (mkLoopState sess response (tracker st) (record_usage (tokens st) response) (chain st)
            (guard st)).

(** The two checks of the loop guard; [true] ends the loop. *)
Definition guard_checks st (results : list CallOutcome) : bool * LoopState :=
  match guard st with
  | None => (false, st)
  | Some g =>
    let calls := lr_tool_calls (reply st) in
    let '(stop, g, notes) := check_loop_guard sha256 json_normalized g calls in
    let st := with_guard (with_session st (add_notes (session st) notes)) (Some g) in
    if stop
    then (true, with_response st
                  (with_reply (reply st) "Stopped tool loop due to repeated tool-call pattern."))
    else
      let '(stop, g, notes) :=
        check_loop_guard_outcomes sha256 json_normalized g calls
          (map (λ o, (out_id o, out_text o)) results) in
      let st := with_guard (with_session st (add_notes (session st) notes)) (Some g) in
      if stop
      then (true, with_response st
                    (with_reply (reply st) "Stopped tool loop due to repeated identical outcomes."))
      else (false, st)
  end.

(** The next request of the loop. *)
Definition ask_again cfg st : Res S LoopState :=
  let! defs := effR tool_definitions in
  let! messages := effR (build_resolved_messages (session st)) in
  let! checked := preflight cfg (session st) messages defs in
  let '(sess, messages) := checked in
  let! called := llm_call cfg 8 defs tool_definitions sess messages in
  let '(response, sess) := called in
  retR (mkLoopState sess response (tracker st) (record_usage (tokens st) response) (chain st)
          (guard st)).

Inductive Next : Type := Stop (st : LoopState) | Again (st : LoopState).

(** The body of the loop. The definitions of the tools are read before the token
    budget is checked, to no effect when that stops the loop. *)
Definition iterate cfg st : Res S Next :=
  match limit_batch (tracker st) (lr_tool_calls (reply st)) with
  | None => retR (Stop st)
  | Some batch =>
    let! executed := execute_batch cfg st batch in
    let '(st, results) := executed in
    let! sess := pureR (compact_in_loop cfg (session st)) in
    let st := with_session st sess in
    if any out_pause results then retR (Stop st)
    else
      let st := with_tracker st (count_batch (tracker st) batch) in
      if ToolCallLimitTracker.is_exceeded (tracker st)
      then let! st := synthesize cfg st in retR (Stop st)
      else
        let '(stop, st) := guard_checks st results in
        if stop then retR (Stop st)
        else if TokenBudget.is_exceeded (tokens st) then retR (Stop st)
        else let! st := ask_again cfg st in retR (Again st)
  end.

Fixpoint tool_loop cfg (iterations : nat) st : Res S LoopState :=
  if negb (has_tool_calls (reply st)) then retR st
  else
    match iterations with
    | O => retR st
    | Datatypes.S iterations =>
      let! next := iterate cfg st in
      match next with
      | Stop st => retR st
      | Again st => tool_loop cfg iterations st
      end
    end.

(** *** One message *)

(** The reply and the session that is saved with it. *)
Definition finish (sess : list Message) (text : string) : Res S (string * list Message) :=
  let saved := sess ++ [Message.assistant text] in
  let! _ := tryR (save_session saved) in
  retR (text, saved).

Definition MEMORY_FLUSH_PROMPT : string :=
  "Review the conversation above. Save any important facts, decisions, "
  +:+ "user preferences, or learnings to long-term memory using the longterm_memory tool. "
  +:+ "Also review existing memories for duplicates — merge or delete stale entries. "
  +:+ "Be selective: only save what would be useful in future conversations.".

(** The calls of the flush: whatever tools they name. *)
Fixpoint flush_calls (calls : list LLMToolCall) : Res S unit :=
  match calls with
  | [] => retR tt
  | tc :: calls =>
    let! _ := tryO (flush_tool (call_name tc) (call_arguments tc)) in
    flush_calls calls
  end.

Definition flush_messages (messages : list Message) : list Message :=
  Message.system "You are a memory management assistant." :: messages ++ [Message.user MEMORY_FLUSH_PROMPT].

Definition memory_flush (messages : list Message) : Res S unit :=
  let! configured := effR provider_configured in
  if negb configured then retR tt
  else
    let! defs := effR flush_definitions in
    match defs with
    | [] => retR tt
    | _ =>
      let! response := effR (flush_chat (flush_messages messages) defs) in
      match response with
      | Some (Ok response) => flush_calls (lr_tool_calls response)
      | _ => retR tt
      end
    end.

(** The recovery before the first request. *)
Definition recover_first cfg (sess : list Message) : Res S (list Message) :=
  match monitor cfg with
  | None => retR sess
  | Some mon =>
    match ContextMonitor.urgency mon sess with
    | None => retR sess
    | Some urgency =>
      let! _ := match urgency with Normal => memory_flush sess | _ => retR tt end in
      pureR (recover cfg sess urgency 8)
    end
  end.

Definition system_prompt_of (messages : list Message) : string :=
  match messages with
  | m :: _ => if bool_decide (role m = System) then content m else ""
  | [] => ""
  end.

Definition run_message cfg (channel : string) (user_message : Message)
    : Res S (string * list Message) :=
  let tokens := TokenBudget.reset (TokenBudget.new (token_limit_of_run cfg)) in
  let tracker := ToolCallLimitTracker.reset (ToolCallLimitTracker.new (max_tool_calls cfg)) in
  if scan_inbound cfg && s_was_modified (check_injection (content user_message))
     && String.eqb channel "webhook"
  then failR (Errors.Tool "Message rejected: potential prompt injection detected")
  else
    let! configured := effR provider_configured in
    if negb configured then failR (Errors.Provider "No provider configured")
    else
    let! history := tryR get_or_create in
    let! sess := recover_first cfg (history ++ [user_message]) in
    let! messages := effR (build_resolved_messages sess) in
    let! defs := effR tool_definitions in
    let! checked := preflight cfg sess messages defs in
    let '(sess, messages) := checked in
    if TokenBudget.is_exceeded tokens
    then failR (Errors.Provider ("Token budget exceeded: " +:+ budget_summary tokens))
    else
      let key := ResponseCache.cache_key sha256 (configured_model cfg) (system_prompt_of messages)
                   (content user_message) in
      let! hit := effR (if cache_enabled cfg then cache_lookup key else ret None) in
      match hit with
      | Some cached => finish sess cached
      | None =>
        let! called := llm_call cfg 8 defs tool_definitions sess messages in
        let '(response, sess) := called in
        let! _ := effR (if cache_enabled cfg && negb (has_tool_calls response)
                        then cache_store key (lr_content response)
                               (match lr_usage response with Some (_, c) => c | None => 0 end)
                        else ret tt) in
        let! st := tool_loop cfg (max_tool_iterations cfg)
                     (mkLoopState sess response tracker (record_usage tokens response)
                        ChainTracker.new
                        (if LoopGuard.enabled (guard_config cfg)
                         then Some (LoopGuard.new (guard_config cfg)) else None)) in
        finish (session st) (lr_content (reply st))
      end.

Definition process_message cfg (channel : string) (user_message : Message) : Res S string :=
  let! done := run_message cfg channel user_message in retR (fst done).
End loop.

(** ** Reasoning about runs *)

Section runs.
Context {S : Type}.

Lemma bindR_ok {A B} (m : Res S A) (f : A → Res S B) s b s2 :
  bindR m f s = (Ret (Ok b), s2) →
  ∃ a s1, m s = (Ret (Ok a), s1) ∧ f a s1 = (Ret (Ok b), s2).
Proof. unfold bindR. destruct (m s) as [[[a|e]|] s1]; [by eauto|done..]. Qed.

Lemma retR_ok {A} (a b : A) (s s2 : S) : retR a s = (Ret (Ok b), s2) → a = b ∧ s = s2.
Proof. by intros [= -> ->]. Qed.

Lemma effR_ok {A} (m : M S A) s a s2 : effR m s = (Ret (Ok a), s2) → m s = (a, s2).
Proof. unfold effR. destruct (m s) as [x s1]. by intros [= -> ->]. Qed.

Lemma pureR_ok {A} (o : outcome A) s (a : A) (s2 : S) :
  pureR o s = (Ret (Ok a), s2) → o = Ret a ∧ s = s2.
Proof. unfold pureR, ret. destruct o; [|done]. by intros [= -> ->]. Qed.

(** No more than [n] is added to the meter, and a value satisfies [Q]. *)
Definition grows {A} (f : S → nat) (m : Res S A) (n : nat) (Q : A → Prop) : Prop :=
  ∀ s, (f (snd (m s)) ≤ f s + n)%nat ∧ ∀ a, fst (m s) = Ret (Ok a) → Q a.

Lemma grows_bind {A B} f (m : Res S A) (k : A → Res S B) n1 n2 n Q1 Q2 :
  grows f m n1 Q1 → (∀ a, Q1 a → grows f (k a) n2 Q2) → (n1 + n2 ≤ n)%nat →
  grows f (bindR m k) n Q2.
Proof.
  intros Hm Hk Hle s. unfold bindR. specialize (Hm s).
  destruct (m s) as [[[a|e]|] s1]; cbn in *; [|split; [lia|done]..].
  destruct Hm as [Hm HQ]. destruct (Hk a (HQ a eq_refl) s1) as [Hf Hq]. split; [lia|done].
Qed.

Lemma grows_after {A B} f (m : Res S A) (k : A → Res S B) n Q1 Q2 :
  grows f m 0 Q1 → (∀ a, Q1 a → grows f (k a) n Q2) → grows f (bindR m k) n Q2.
Proof. intros. by eapply grows_bind. Qed.

Lemma grows_retR {A} f (a : A) n (Q : A → Prop) : Q a → grows f (retR a) n Q.
Proof. intros HQ s. cbn. split; [lia|]. by intros ? [= <-]. Qed.

Lemma grows_failR {A} f e n (Q : A → Prop) : grows f (failR e) n Q.
Proof. intros s. cbn. split; [lia|done]. Qed.

Lemma grows_pureR {A} f (o : outcome A) n : grows f (pureR o) n (λ _, True).
Proof. intros s. cbn. split; [lia|done]. Qed.

Lemma grows_effR {A} f (m : M S A) n :
  (∀ s, (f (snd (m s)) ≤ f s + n)%nat) → grows f (effR m) n (λ _, True).
Proof. intros Hm s. specialize (Hm s). unfold effR. by destruct (m s). Qed.

Lemma grows_tryR {A} f (m : M S (result ZeptoError A)) n :
  (∀ s, (f (snd (m s)) ≤ f s + n)%nat) → grows f (tryR m) n (λ _, True).
Proof. intros Hm s. specialize (Hm s). unfold tryR. by destruct (m s). Qed.

Lemma grows_tryO {A} f (m : M S (outcome A)) n :
  (∀ s, (f (snd (m s)) ≤ f s + n)%nat) → grows f (tryO m) n (λ _, True).
Proof. intros Hm s. specialize (Hm s). unfold tryO. by destruct (m s). Qed.

Lemma grows_weaken {A} f (m : Res S A) n n' (Q Q' : A → Prop) :
  grows f m n Q → (n ≤ n')%nat → (∀ a, Q a → Q' a) → grows f m n' Q'.
Proof. intros Hm Hle HQ s. destruct (Hm s) as [Hf Hq]. split; [lia|auto]. Qed.
End runs.

(** ** Transcripts *)

(** Every request for tools is followed by the results of its calls, in order,
    and there are no other tool results. *)
Inductive rounds : list Message → Prop :=
| rounds_nil : rounds []
| rounds_plain m l : role m ≠ Tool → tool_calls m = None → rounds l → rounds (m :: l)
| rounds_calls m calls results l :
    role m = Assistant → tool_calls m = Some calls →
    map tool_call_id results = map (λ c, Some (id c)) calls →
    Forall (λ r, role r = Tool ∧ tool_calls r = None) results →
    rounds l → rounds (m :: results ++ l).

Lemma rounds_app a b : rounds a → rounds b → rounds (a ++ b).
Proof.
  induction 1 as [|m l|m calls results l]; intros Hb; cbn [app]; [done|by constructor; auto|].
  rewrite <- app_assoc. by eapply rounds_calls; eauto.
Qed.

Lemma rounds_systems notes : rounds (map Message.system notes).
Proof. induction notes as [|n notes IH]; by constructor. Qed.

Section transcript.
Context {S : Type} `{Environment S} `{RustUnicode} `{RustRegex}.
Context (sha256 : string → string) (json_normalized : string → option string).
Context (budget_summary : TokenBudget → string).
Context (cfg : LoopConfig) (Hmonitor : monitor cfg = None).
Implicit Types (st : LoopState).

Lemma preflight_same sess messages defs s r s2 :
  preflight cfg sess messages defs s = (Ret (Ok r), s2) → r = (sess, messages) ∧ s = s2.
Proof. unfold preflight. rewrite Hmonitor. by intros [<- <-]%retR_ok. Qed.

Lemma preflight_synthesis_same sess messages s r s2 :
  preflight_synthesis cfg sess messages s = (Ret (Ok r), s2) → r = (sess, messages) ∧ s = s2.
Proof. unfold preflight_synthesis. rewrite Hmonitor. by intros [<- <-]%retR_ok. Qed.

Lemma overflow_retry_same retries attempt keep defs sess r s x s2 :
  overflow_retry cfg retries attempt keep defs sess r s = (Ret (Ok x), s2) → x = (r, sess) ∧ s = s2.
Proof.
  destruct retries; cbn [overflow_retry]; rewrite ?Hmonitor; destruct r as [a|e];
    try (by intros [<- <-]%retR_ok); destruct (is_context_overflow e);
    by intros [<- <-]%retR_ok.
Qed.

Lemma llm_call_same keep fdefs defs sess messages s r sess' s2 :
  llm_call cfg keep fdefs defs sess messages s = (Ret (Ok (r, sess')), s2) → sess' = sess.
Proof.
  unfold llm_call. intros (x & s1 & _ & (y & s3 & Hy & Hr)%bindR_ok)%bindR_ok.
  apply overflow_retry_same in Hy as [-> _]. destruct x; [|done].
  by apply retR_ok in Hr as [[= _ <-] _].
Qed.

(** The session grows by complete rounds. *)
Definition extends st st' : Prop := ∃ added, session st' = session st ++ added ∧ rounds added.

Lemma extends_refl st : extends st st.
Proof. exists []. by rewrite app_nil_r; split; [|constructor]. Qed.

Lemma extends_trans st1 st2 st3 : extends st1 st2 → extends st2 st3 → extends st1 st3.
Proof.
  intros (a & Ha & Hra) (b & Hb & Hrb). exists (a ++ b). split; [|by apply rounds_app].
  by rewrite Hb, Ha, app_assoc.
Qed.

Lemma execute_batch_extends st batch s st' results s2 :
  execute_batch cfg st batch s = (Ret (Ok (st', results)), s2) → extends st st'.
Proof.
  unfold execute_batch.
  intros (b & s1 & _ & (rs & s3 & Hrun & Hret)%bindR_ok)%bindR_ok.
  apply effR_ok in Hrun. destruct (ChainTracker.record _ _) as [ch al].
  apply retR_ok in Hret as [[= <- <-] _]. unfold extends. cbn [session].
  eexists. split; [by rewrite <- app_assoc|]. cbn [app].
  pose proof (run_calls_ids (Z.to_nat b) batch s1) as Hids. rewrite Hrun in Hids. cbn [fst] in Hids.
  rewrite <- (app_nil_r (map result_message rs)).
  apply (rounds_calls _ (map call_of batch)); [done|done| | |constructor].
  - rewrite !map_map. change (λ x, tool_call_id (result_message x)) with (λ x, Some (out_id x)).
    change (λ x, Some (id (call_of x))) with (λ x, Some (call_id x)).
    rewrite <- (map_map out_id Some), <- (map_map call_id Some). by rewrite Hids.
  - apply Forall_map, Forall_true. done.
Qed.

Lemma synthesize_extends st s st' s2 :
  synthesize cfg st s = (Ret (Ok st'), s2) → extends st st'.
Proof.
  unfold synthesize. destruct (TokenBudget.is_exceeded (tokens st)).
  { intros [<- _]%retR_ok. exists []. by rewrite app_nil_r; split; [|constructor]. }
  intros (ms & s1 & _ & (x & s3 & Hx & Hrest)%bindR_ok)%bindR_ok.
  apply preflight_synthesis_same in Hx as [-> _].
  apply bindR_ok in Hrest as ([r sess] & s4 & Hcall & Hret).
  apply llm_call_same in Hcall as ->. apply retR_ok in Hret as [<- _].
  exists []. by rewrite app_nil_r; split; [|constructor].
Qed.

Lemma ask_again_extends st s st' s2 :
  ask_again cfg st s = (Ret (Ok st'), s2) → extends st st'.
Proof.
  unfold ask_again.
  intros (defs & s0 & _ & (ms & s1 & _ & (x & s3 & Hx & Hrest)%bindR_ok)%bindR_ok)%bindR_ok.
  apply preflight_same in Hx as [-> _].
  apply bindR_ok in Hrest as ([r sess] & s4 & Hcall & Hret).
  apply llm_call_same in Hcall as ->. apply retR_ok in Hret as [<- _].
  exists []. by rewrite app_nil_r; split; [|constructor].
Qed.

Lemma guard_checks_extends st results :
  extends st (snd (guard_checks sha256 json_normalized st results)).
Proof.
  unfold guard_checks. destruct (guard st) as [g|]; [|apply extends_refl].
  destruct (check_loop_guard _ _ g _) as [[[] g1] notes]; cbn [snd].
  { exists (map Message.system notes). split; [done|apply rounds_systems]. }
  destruct (check_loop_guard_outcomes _ _ g1 _ _) as [[[] g2] notes2]; cbn [snd];
    exists (map Message.system notes ++ map Message.system notes2);
    (split; [cbn; unfold add_notes; by rewrite app_assoc|]);
    apply rounds_app; apply rounds_systems.
Qed.

Lemma iterate_extends st s next s2 :
  iterate sha256 json_normalized cfg st s = (Ret (Ok next), s2) →
  match next with Stop st' | Again st' => extends st st' end.
Proof.
  unfold iterate. destruct (limit_batch _ _) as [batch|].
  2: { intros [<- _]%retR_ok. apply extends_refl. }
  intros ([st1 results] & s1 & Hex & (sess & s3 & Hc & Hrest)%bindR_ok)%bindR_ok.
  apply execute_batch_extends in Hex.
  unfold compact_in_loop in Hc. rewrite Hmonitor in Hc. apply pureR_ok in Hc as [[= <-] _].
  assert (∀ t, extends st (with_tracker (with_session st1 (session st1)) t)) as Ht.
  { intros t. destruct Hex as (a & Ha & Hr). by exists a. }
  destruct (any out_pause results).
  { apply retR_ok in Hrest as [<- _]. destruct Hex as (a & Ha & Hr). by exists a. }
  destruct (ToolCallLimitTracker.is_exceeded _).
  { apply bindR_ok in Hrest as (st2 & s4 & Hs & Hret). apply retR_ok in Hret as [<- _].
    apply synthesize_extends in Hs. by eapply extends_trans. }
  specialize (Ht (count_batch (tracker (with_session st1 (session st1))) batch)).
  pose proof (guard_checks_extends (with_tracker (with_session st1 (session st1))
    (count_batch (tracker (with_session st1 (session st1))) batch)) results) as Hg.
  destruct (guard_checks _ _ _ results) as [stop st2]. cbn [snd] in Hg.
  assert (extends st st2) as H2 by by eapply extends_trans.
  destruct stop; [by apply retR_ok in Hrest as [<- _]|].
  destruct (TokenBudget.is_exceeded _); [by apply retR_ok in Hrest as [<- _]|].
  apply bindR_ok in Hrest as (st3 & s4 & Ha & Hret). apply retR_ok in Hret as [<- _].
  apply ask_again_extends in Ha. by eapply extends_trans.
Qed.

Lemma tool_loop_extends iterations st s st' s2 :
  tool_loop sha256 json_normalized cfg iterations st s = (Ret (Ok st'), s2) → extends st st'.
Proof.
  revert st s. induction iterations as [|n IH]; intros st s; cbn [tool_loop];
    destruct (negb (has_tool_calls (reply st)));
    try (intros [<- _]%retR_ok; apply extends_refl).
  intros (next & s1 & Hi & Hrest)%bindR_ok. apply iterate_extends in Hi.
  destruct next as [st1|st1]; [by apply retR_ok in Hrest as [<- _]|].
  eapply extends_trans; [done|]. by eapply IH.
Qed.
End transcript.

(** ** Bounds *)

(** A meter of the world that a request of the provider moves by at most [a], a
    call of a batch by at most [b], a call of the memory flush by at most [c], and
    nothing else moves. *)
Record Meter {S : Type} `{Environment S} (f : S → nat) (a b c : nat) : Prop := {
  meter_chat ms ds s : (f (snd (chat ms ds s)) ≤ f s + a)%nat;
  meter_calls n calls s : (f (snd (run_calls n calls s)) ≤ f s + b * length calls)%nat;
  meter_flush_chat ms ds s : (f (snd (flush_chat ms ds s)) ≤ f s + a)%nat;
  meter_flush_tool n v s : (f (snd (flush_tool n v s)) ≤ f s + c)%nat;
  meter_flush_defs s : (f (snd (flush_definitions s)) ≤ f s + 0)%nat;
  meter_provider s : (f (snd (provider_configured s)) ≤ f s + 0)%nat;
  meter_build ms s : (f (snd (build_resolved_messages ms s)) ≤ f s + 0)%nat;
  meter_defs s : (f (snd (tool_definitions s)) ≤ f s + 0)%nat;
  meter_get s : (f (snd (get_or_create s)) ≤ f s + 0)%nat;
  meter_save ms s : (f (snd (save_session ms s)) ≤ f s + 0)%nat;
  meter_lookup k s : (f (snd (cache_lookup k s)) ≤ f s + 0)%nat;
  meter_store k r n s : (f (snd (cache_store k r n s)) ≤ f s + 0)%nat;
}.

(** No answer to a flush asks for more than [n] calls. *)
Definition flush_asks {S : Type} `{Environment S} (n : nat) : Prop :=
  ∀ ms ds s r, fst (flush_chat ms ds s) = Some (Ok r) → (length (lr_tool_calls r) ≤ n)%nat.

Section bounds.
Context {S : Type} `{Environment S} `{RustUnicode} `{RustRegex}.
Context (sha256 : string → string) (json_normalized : string → option string).
Context (budget_summary : TokenBudget → string).
Context (cfg : LoopConfig) (f : S → nat) (a b c : nat) (Hmeter : Meter f a b c).
Implicit Types (st : LoopState).

(** What one request costs with its retries. *)
Definition call_cost : nat := a * (overflow_retries cfg + 1).

(** A step that does not move the meter. *)
Ltac quiet :=
  eapply grows_after;
  [first [apply grows_pureR
         | first [apply grows_effR | apply grows_tryR]; intros ?;
           first [apply (meter_provider _ _ _ _ Hmeter) | apply (meter_build _ _ _ _ Hmeter) | apply (meter_defs _ _ _ _ Hmeter)
                 | apply (meter_flush_defs _ _ _ _ Hmeter) | apply (meter_lookup _ _ _ _ Hmeter)
                 | apply (meter_store _ _ _ _ Hmeter) | apply (meter_get _ _ _ _ Hmeter)
                 | apply (meter_save _ _ _ _ Hmeter) | by auto]]
  |intros ? _].

Lemma preflight_quiet sess messages defs :
  grows f (preflight cfg sess messages defs) 0 (λ _, True).
Proof.
  unfold preflight. destruct (monitor cfg); [|by apply grows_retR].
  destruct (ContextMonitor.preflight_check _ _ _) as [[] ms]; try by apply grows_retR.
  quiet. quiet. by apply grows_retR.
Qed.

Lemma preflight_synthesis_quiet sess messages :
  grows f (preflight_synthesis cfg sess messages) 0 (λ _, True).
Proof.
  unfold preflight_synthesis. destruct (monitor cfg); [|by apply grows_retR].
  destruct (ContextMonitor.preflight_check _ _ _) as [[] ms]; try by apply grows_retR.
  quiet. quiet. by apply grows_retR.
Qed.

Lemma overflow_retry_cost retries attempt keep defs sess r :
  (∀ s, (f (snd (defs s)) ≤ f s + 0)%nat) →
  grows f (overflow_retry cfg retries attempt keep defs sess r) (a * retries) (λ _, True).
Proof.
  intros Hdefs. revert attempt sess r. induction retries as [|n IH]; intros attempt sess r;
    cbn [overflow_retry]; destruct r as [x|e]; try (by apply grows_retR);
    destruct (is_context_overflow e); try (by apply grows_retR).
  destruct (monitor cfg); [|by apply grows_retR]. cbn [negb].
  quiet. quiet. quiet.
  eapply grows_bind; [apply (grows_effR f _ a); apply Hmeter|intros r _; apply IH|lia].
Qed.

Lemma llm_call_cost keep fdefs defs sess messages :
  (∀ s, (f (snd (defs s)) ≤ f s + 0)%nat) →
  grows f (llm_call cfg keep fdefs defs sess messages) call_cost (λ _, True).
Proof.
  intros Hdefs. unfold llm_call, call_cost.
  apply (grows_bind f _ _ a (a * overflow_retries cfg) _ (λ _, True)); [|intros r _|lia].
  { apply grows_effR, Hmeter. }
  apply (grows_bind f _ _ (a * overflow_retries cfg) 0 _ (λ _, True)); [|intros x _|lia].
  { by apply overflow_retry_cost. }
  destruct x as [[r'|e] sess']; [by apply grows_retR|apply grows_failR].
Qed.

Lemma execute_batch_cost st batch :
  grows f (execute_batch cfg st batch) (b * length batch) (λ r, tracker (fst r) = tracker st).
Proof.
  unfold execute_batch. quiet.
  eapply (grows_bind f _ _ (b * length batch) 0 _ (λ _, True));
    [apply grows_effR, Hmeter|intros results _|lia].
  destruct (ChainTracker.record _ _) as [ch al]. by apply grows_retR.
Qed.

Lemma synthesize_cost st : grows f (synthesize cfg st) call_cost (λ _, True).
Proof.
  unfold synthesize. destruct (TokenBudget.is_exceeded (tokens st)); [by apply grows_retR|].
  quiet. eapply grows_after; [apply preflight_synthesis_quiet|]. intros [sess ms] _.
  apply (grows_bind f _ _ call_cost 0 _ (λ _, True)); [|intros [r sess'] _; by apply grows_retR|lia].
  apply llm_call_cost. intros s. cbn. lia.
Qed.

Lemma ask_again_cost st :
  grows f (ask_again cfg st) call_cost (λ st', tracker st' = tracker st).
Proof.
  unfold ask_again. quiet. quiet. eapply grows_after; [apply preflight_quiet|]. intros [sess ms] _.
  apply (grows_bind f _ _ call_cost 0 _ (λ _, True)); [|intros [r sess'] _; by apply grows_retR|lia].
  apply llm_call_cost. apply Hmeter.
Qed.

Lemma guard_checks_tracker st results :
  tracker (snd (guard_checks sha256 json_normalized st results)) = tracker st.
Proof. unfold guard_checks. by repeat case_match. Qed.

Lemma iterate_cost st batch :
  limit_batch (tracker st) (lr_tool_calls (reply st)) = Some batch →
  grows f (iterate sha256 json_normalized cfg st) (b * length batch + call_cost)
    (λ next, match next with
             | Again st' => tracker st' = count_batch (tracker st) batch
             | Stop _ => True
             end).
Proof.
  intros Hbatch. unfold iterate. rewrite Hbatch.
  eapply grows_bind; [apply execute_batch_cost| |reflexivity]. intros [st1 results] Ht. cbn [fst] in Ht.
  quiet. cbv zeta. cbn [tracker with_session]. rewrite Ht.
  destruct (any out_pause results); [by apply grows_retR|].
  destruct (ToolCallLimitTracker.is_exceeded _).
  { apply (grows_bind f _ _ call_cost 0 _ (λ _, True)); [apply synthesize_cost| |lia].
    intros st2 _. by apply grows_retR. }
  match goal with |- context [guard_checks _ _ ?st2 results] =>
    pose proof (guard_checks_tracker st2 results) as Hg end.
  destruct (guard_checks _ _ _ results) as [stop st2]. cbn [snd tracker with_tracker] in Hg.
  destruct stop; [by apply grows_retR|].
  destruct (TokenBudget.is_exceeded _); [by apply grows_retR|].
  eapply (grows_bind f _ _ call_cost 0); [apply ask_again_cost| |lia].
  intros st3 Ht3. apply grows_retR. congruence.
Qed.

Lemma limit_batch_small t L (calls batch : list LLMToolCall) :
  limit t = Some L → limit_batch t calls = Some batch →
  count t < L ∧ Z.of_nat (length batch) ≤ L - count t.
Proof.
  intros HL. unfold limit_batch, ToolCallLimitTracker.is_exceeded, ToolCallLimitTracker.remaining.
  rewrite HL. cbn [fmap option_fmap option_map]. unfold sat_sub.
  destruct (Z.leb_spec L (count t)); [done|]. intros [= <-].
  destruct (Nat.ltb_spec (Z.to_nat (Z.max 0 (L - count t))) (length calls));
    rewrite ?length_take; lia.
Qed.

Lemma tool_loop_cost L iterations st :
  limit (tracker st) = Some L → L < u32_mod → 0 ≤ count (tracker st) →
  grows f (tool_loop sha256 json_normalized cfg iterations st)
    (call_cost * iterations + b * Z.to_nat (L - count (tracker st))) (λ _, True).
Proof.
  intros HL HL32. revert st HL. induction iterations as [|n IH]; intros st HL Hc; cbn [tool_loop];
    destruct (negb (has_tool_calls (reply st))); try (by apply grows_retR).
  destruct (limit_batch (tracker st) (lr_tool_calls (reply st))) as [batch|] eqn:Hb.
  - destruct (limit_batch_small _ L _ _ HL Hb) as [Hlt Hlen].
    apply (grows_bind f _ _ (b * length batch + call_cost)
             (call_cost * n + b * Z.to_nat (L - count (tracker st) - Z.of_nat (length batch))) _
             (λ next, match next with
                      | Again st' => tracker st' = count_batch (tracker st) batch
                      | Stop _ => True
                      end)).
    + by apply iterate_cost.
    + intros [st'|st'] Ht; [by apply grows_retR|].
      assert (count (tracker st') = count (tracker st) + Z.of_nat (length batch)) as Hcount.
      { rewrite Ht. unfold count_batch, ToolCallLimitTracker.increment. cbn [count].
        rewrite (Z.mod_small (Z.of_nat (length batch))) by lia. apply wadd32_small. lia. }
      replace (L - count (tracker st) - Z.of_nat (length batch)) with (L - count (tracker st')) by lia.
      apply IH; [by rewrite Ht|lia].
    + replace (Z.to_nat (L - count (tracker st)))
        with (length batch + Z.to_nat (L - count (tracker st) - Z.of_nat (length batch)))%nat by lia.
      rewrite Nat.mul_succ_r, Nat.mul_add_distr_l. lia.
  - unfold iterate. rewrite Hb. apply (grows_after f _ _ _ (λ next, ∃ st', next = Stop st')).
    + apply grows_retR. by eexists.
    + intros next [st' ->]. by apply grows_retR.
Qed.

Lemma finish_quiet sess text : grows f (finish sess text) 0 (λ _, True).
Proof. unfold finish. quiet. by apply grows_retR. Qed.

Lemma flush_calls_cost calls : grows f (flush_calls calls) (c * length calls) (λ _, True).
Proof.
  induction calls as [|tc calls IH]; cbn [flush_calls]; [by apply grows_retR|].
  eapply (grows_bind f _ _ c (c * length calls)); [apply grows_tryO, Hmeter|intros _ _; exact IH|cbn; lia].
Qed.

(** The flush: one request, and the calls of its answer. *)
Lemma memory_flush_cost n sess :
  flush_asks n ∨ c = 0%nat → grows f (memory_flush sess) (a + c * n) (λ _, True).
Proof.
  intros Hn. unfold memory_flush. quiet.
  match goal with |- context [negb ?b] => destruct b end; [|by apply grows_retR]. cbn [negb]. quiet.
  match goal with |- context [match ?l with [] => _ | _ => _ end] => destruct l as [|d ds] end; [by apply grows_retR|].
  eapply (grows_bind f _ _ a (c * n) _ (λ r, ∀ r', r = Some (Ok r') → (c * length (lr_tool_calls r') ≤ c * n)%nat));
    [|intros [[r|e]|] Hr; try by apply grows_retR|lia].
  - intros s. pose proof (meter_flush_chat _ _ _ _ Hmeter (flush_messages sess) (d :: ds) s) as Hf.
    unfold effR. destruct (flush_chat (flush_messages sess) (d :: ds) s) as [x s1] eqn:Hc. split; [exact Hf|].
    cbn. intros x' [= <-] r' ->. destruct Hn as [Hn|Hn]; [|rewrite Hn; lia].
    apply Nat.mul_le_mono_l, (Hn (flush_messages sess) (d :: ds) s). by rewrite Hc.
  - eapply grows_weaken; [apply flush_calls_cost|by apply Hr|done].
Qed.

Lemma recover_first_cost n sess :
  flush_asks n ∨ c = 0%nat → grows f (recover_first cfg sess) (a + c * n) (λ _, True).
Proof.
  intros Hn. unfold recover_first. destruct (monitor cfg) as [mon|]; [|by apply grows_retR].
  destruct (ContextMonitor.urgency mon sess) as [u|]; [|by apply grows_retR].
  eapply (grows_bind f _ _ (a + c * n) 0 _ (λ _, True)); [|intros [] _; apply grows_pureR|lia].
  destruct u; [by apply memory_flush_cost|by apply grows_retR..].
Qed.

(** The loop without a limit, for a meter that executed calls do not move. *)
Lemma tool_loop_requests iterations st :
  b = 0%nat →
  grows f (tool_loop sha256 json_normalized cfg iterations st) (call_cost * iterations) (λ _, True).
Proof.
  intros Hb0. revert st. induction iterations as [|n IH]; intros st; cbn [tool_loop];
    destruct (negb (has_tool_calls (reply st))); try (by apply grows_retR).
  destruct (limit_batch (tracker st) (lr_tool_calls (reply st))) as [batch|] eqn:Hb.
  - eapply (grows_bind f _ _ (b * length batch + call_cost) (call_cost * n));
      [by apply (iterate_cost st batch)| |rewrite Hb0; lia].
    intros [st'|st'] _; [by apply grows_retR|apply IH].
  - unfold iterate. rewrite Hb. apply (grows_after f _ _ _ (λ next, ∃ st', next = Stop st')).
    + apply grows_retR. by eexists.
    + intros next [st' ->]. by apply grows_retR.
Qed.

(** A message costs the flush, one request, and what its loop costs. *)
Lemma process_message_cost channel user_message n k :
  flush_asks k ∨ c = 0%nat →
  (∀ st, tracker st = ToolCallLimitTracker.reset (ToolCallLimitTracker.new (max_tool_calls cfg)) →
     grows f (tool_loop sha256 json_normalized cfg (max_tool_iterations cfg) st) n (λ _, True)) →
  grows f (process_message sha256 json_normalized budget_summary cfg channel user_message)
    (a + c * k + call_cost + n) (λ _, True).
Proof.
  intros Hk Hloop. unfold process_message.
  eapply (grows_bind f _ _ (a + c * k + call_cost + n) 0); [|intros r _; by apply grows_retR|lia].
  unfold run_message. destruct (scan_inbound cfg && _ && _); [apply grows_failR|].
  quiet. match goal with |- context [negb ?b] => destruct b end; [|apply grows_failR].
  cbn [negb]. quiet.
  eapply (grows_bind f _ _ (a + c * k) (call_cost + n)); [by apply recover_first_cost|intros sess _|lia].
  quiet. quiet.
  eapply grows_after; [apply preflight_quiet|]. intros [sess1 messages] _.
  destruct (TokenBudget.is_exceeded _); [apply grows_failR|].
  apply (grows_after f _ _ _ (λ _, True)).
  { apply grows_effR. intros s. destruct (cache_enabled cfg); [apply (meter_lookup _ _ _ _ Hmeter)|cbn; lia]. }
  intros hit _. destruct hit as [cached|].
  { eapply grows_weaken; [apply finish_quiet|lia|done]. }
  eapply (grows_bind f _ _ call_cost n); [apply llm_call_cost, Hmeter| |lia].
  intros [response sess2] _. apply (grows_after f _ _ _ (λ _, True)).
  { apply grows_effR. intros s.
    destruct (cache_enabled cfg && _); [apply (meter_store _ _ _ _ Hmeter)|cbn; lia]. }
  intros _ _. eapply (grows_bind f _ _ n 0); [by apply Hloop|intros st _; apply finish_quiet|lia].
Qed.
End bounds.


(** C8: The transcript of a message, when compaction is off. A message from a
    webhook that looks like a prompt injection is rejected with nothing read or
    changed. Otherwise, when a reply is returned, the last thing that was done was
    to save, with success, the session of the history, the message, complete
    rounds (each request for tools followed by the results of its calls in
    order, and notes of the loop guard) and that reply: no tool result without its
    request, and no request left unanswered. *)
Theorem message_transcript {S : Type} `{Environment S} `{RustUnicode} `{RustRegex} (sha256 : string → string)
    (json_normalized : string → option string) (budget_summary : TokenBudget → string)
    cfg channel user_message s :
  let run := run_message sha256 json_normalized budget_summary cfg channel user_message s in
  (scan_inbound cfg = true → channel = "webhook" →
   s_was_modified (check_injection (content user_message)) = true →
   run = (Ret (Err (Errors.Tool "Message rejected: potential prompt injection detected")), s)) ∧
  (monitor cfg = None → ∀ history s1 text saved s2,
   fst (provider_configured s) = true →
   get_or_create (snd (provider_configured s)) = (Ok history, s1) → rounds history →
   role user_message = User → tool_calls user_message = None →
   run = (Ret (Ok (text, saved)), s2) →
   ∃ added s',
     save_session (history ++ [user_message] ++ added ++ [Message.assistant text]) s' = (Ok tt, s2) ∧
     saved = history ++ [user_message] ++ added ++ [Message.assistant text] ∧ rounds saved).
Proof.
  cbv zeta. split.
  { intros Hs -> Hi. unfold run_message. by rewrite Hs, Hi. }
  intros Hmon history s1 text saved s2 Hprov Hget Hh Hu Hc. unfold run_message.
  destruct (scan_inbound cfg && _ && _); [done|].
  intros (configured & s0 & Hp%effR_ok & Hrun)%bindR_ok. rewrite Hp in Hprov, Hget.
  cbn [fst snd] in Hprov, Hget. subst configured. cbn [negb] in Hrun.
  apply bindR_ok in Hrun as (h & s3 & Hg & (sess & s4 & Hr & Hrest)%bindR_ok). clear Hp.
  unfold tryR in Hg. rewrite Hget in Hg. injection Hg as <- <-.
  unfold recover_first in Hr. rewrite Hmon in Hr. apply retR_ok in Hr as [<- _].
  apply bindR_ok in Hrest as (messages & s5 & _ & (defs & s6 & _ & Hrest)%bindR_ok).
  apply bindR_ok in Hrest as ([sess1 messages1] & s7 & Hp & Hrest).
  apply preflight_same in Hp as [[= -> ->] _]; [|done].
  destruct (TokenBudget.is_exceeded _); [done|].
  assert (∀ added, rounds added → rounds (history ++ [user_message] ++ added ++ [Message.assistant text]))
    as Hsaved.
  { intros added Ha. apply rounds_app; [done|]. cbn [app].
    constructor; [by rewrite Hu|done|]. apply rounds_app; [done|]. by repeat constructor. }
  assert (∀ sess t s3 s4, finish sess t s3 = (Ret (Ok (text, saved)), s4) →
            t = text ∧ saved = sess ++ [Message.assistant text] ∧
            save_session (sess ++ [Message.assistant text]) s3 = (Ok tt, s4)) as Hfinish.
  { intros sess t s8 s9 (x & s10 & Hsv & Hf)%bindR_ok. destruct x. apply retR_ok in Hf as [Hf <-].
    injection Hf as <- <-. split; [done|]. split; [done|].
    unfold tryR in Hsv. destruct (save_session _ s8). by injection Hsv as -> ->. }
  apply bindR_ok in Hrest as (hit & s8 & _ & Hrest). destruct hit as [cached|].
  { apply Hfinish in Hrest as (<- & -> & Hsv). exists [], s8. cbn [app] in *. rewrite <- app_assoc in *.
    split; [done|]. split; [done|]. by apply (Hsaved []); constructor. }
  apply bindR_ok in Hrest as ([response sess2] & s9 & Hcall & Hrest).
  apply llm_call_same in Hcall as ->; [|done].
  apply bindR_ok in Hrest as (x & s10 & _ & (st & s11 & Hloop & Hrest)%bindR_ok).
  apply tool_loop_extends in Hloop as (added & Hsess & Ha); [|done]. cbn [session] in Hsess.
  apply Hfinish in Hrest as (<- & -> & Hsv). rewrite Hsess, <- !app_assoc in *.
  exists added, s11. split; [done|]. split; [done|]. by apply Hsaved.
Qed.

(** ** The batches of [ToolRun] in the loop *)

Section tools.
Context {Value W : Type} `{World W} `{RustRegex} `{RustFormat} `{HashOrder}.
Context (sha256 : string → string) (utc_now : M W string).
Context (get_str : Value → string → option string).
Context (json_to_string pretty_json : Value → string).
Context (regex_is_match : string → string → bool) (command_arg : Value → option string).
Context (now_secs : M (Kernel * W) Z).
Context (parse_json : string → result string Value) (parse_error_args : string → Value).
Context (interrupted : Z → Kernel * W → Kernel * W → option (Kernel * W)).
Context (join_all : list (M (Kernel * W) CallOutcome) → M (Kernel * W) (list CallOutcome)).
Context (Hjoin : joins join_all).
Context (has_provider : M (Kernel * W) bool).
Context (ask : list Message → list ToolDefinition → M (Kernel * W) (result ZeptoError LLMResponse)).
Context (prompt : list Message → M (Kernel * W) (list Message)) (definitions : M (Kernel * W) (list ToolDefinition)).
Context (flush_defs : M (Kernel * W) (list ToolDefinition)).
Context (ask_flush : list Message → list ToolDefinition → M (Kernel * W) (option (result ZeptoError LLMResponse))).
Context (workspace_path : string).
Context (load : M (Kernel * W) (result ZeptoError (list Message))).
Context (save : list Message → M (Kernel * W) (result ZeptoError unit)).
Context (lookup_cache : string → M (Kernel * W) (option string)).
Context (store_cache : string → string → Z → M (Kernel * W) unit).
Context (settings : CallSettings (Value := Value) (W := W)).

Definition with_budget (s : CallSettings (Value := Value) (W := W)) (n : nat) : CallSettings :=
  mkCallSettings (registry s) (hook_engine s) (mode s) (trusted s) (approval s) (handler s)
    (identity s) (tool_ctx s) (safety s) (dry_run s) n (tool_timeout s).

(** The environment whose batches are those of [run_batch], with the tools, the
    checks and the gate behind them; the calls of a flush go straight to the
    registry. *)
Definition tools_environment : Environment (Kernel * W) := {|
  provider_configured := has_provider;
  chat := ask;
  build_resolved_messages := prompt;
  tool_definitions := definitions;
  run_calls budget calls :=
    run_batch sha256 utc_now get_str json_to_string pretty_json regex_is_match command_arg now_secs
      parse_json parse_error_args interrupted join_all (with_budget settings budget) calls;
  flush_definitions := flush_defs;
  flush_chat := ask_flush;
  flush_tool name arguments :=
    match parse_json arguments with
    | Err _ => ret (Ret tt)
    | Ok args =>
      let* ran := ToolRegistry.execute_with_context (registry settings) name args
                    (ToolContext.with_workspace ToolContext.new workspace_path) in
      ret (match ran with Panic => Panic | Ret _ => Ret tt end)
    end;
  get_or_create := load;
  save_session := save;
  cache_lookup := lookup_cache;
  cache_store := store_cache;
  run_calls_ids budget calls st :=
    run_batch_ids sha256 utc_now get_str json_to_string pretty_json regex_is_match command_arg
      now_secs parse_json parse_error_args interrupted join_all (with_budget settings budget) calls
      st Hjoin;
|}.
End tools.

(** ** A scripted environment *)

Module Example_agent.

Record Script : Type := mkScript {
  replies : list LLMResponse;
  requests : list (list Message);
  executed : list string;
  stored : list Message;
  flushed : list string;
}.

#[global] Instance scripted : Environment Script := {|
  provider_configured s := (true, s);
  chat ms _ s :=
    match replies s with
    | [] => (Err (Errors.Provider "no more replies"), mkScript [] (requests s ++ [ms]) (executed s) (stored s) (flushed s))
    | r :: rs => (Ok r, mkScript rs (requests s ++ [ms]) (executed s) (stored s) (flushed s))
    end;
  build_resolved_messages ms s := (ms, s);
  tool_definitions s := ([], s);
  run_calls _ calls s :=
    (map (λ c, mkCallOutcome (call_id c) ("ran " +:+ call_id c) false []) calls,
     mkScript (replies s) (requests s) (executed s ++ map call_name calls) (stored s) (flushed s));
  flush_definitions s := ([mkToolDefinition "longterm_memory" "" ""], s);
  flush_chat ms _ s :=
    match replies s with
    | [] => (None, mkScript [] (requests s ++ [ms]) (executed s) (stored s) (flushed s))
    | r :: rs => (Some (Ok r), mkScript rs (requests s ++ [ms]) (executed s) (stored s) (flushed s))
    end;
  flush_tool name _ s := (Ret tt, mkScript (replies s) (requests s) (executed s) (stored s) (flushed s ++ [name]));
  get_or_create s := (Ok (stored s), s);
  save_session ms s := (Ok tt, mkScript (replies s) (requests s) (executed s) ms (flushed s));
  cache_lookup _ s := (None, s);
  cache_store _ _ _ s := (tt, s);
  run_calls_ids _ calls s := eq_trans (map_map _ _ calls) eq_refl;
|}.

Definition config (window : Z) (mon : option ContextMonitor) (limit : option Z) : LoopConfig :=
  mkLoopConfig 10 limit 0 2 window 1.25%float 5000 0.5%float mon LoopGuardConfig_default true false
    "model".

Definition wants (ids : list string) : LLMResponse :=
  mkLLMResponse "" (map (λ i, mkLLMToolCall i "echo" i) ids) None.
Definition says (text : string) : LLMResponse := mkLLMResponse text [] None.

Definition run (cfg : LoopConfig) (script : list LLMResponse) (stored : list Message) :=
  run_message (H1 := Literal.regex) (λ x, x) Some (λ _, "") cfg "cli" (Message.user "hi")
    (mkScript script [] [] stored []).

Definition replied (r : outcome (result ZeptoError (string * list Message))) : option string :=
  match r with Ret (Ok (text, _)) => Some text | _ => None end.

(** Three calls are asked for in two batches, the second is cut to the limit,
    and a last request without tools ends the run. *)
Example limited_run :
  let '(r, s) := run (config 1000 None (Some 2)) [wants ["a"]; wants ["b"; "c"]; says "done"] [] in
  replied r = Some "done" ∧ executed s = ["echo"; "echo"] ∧ length (requests s) = 3%nat ∧
  map role (stored s) = [User; Assistant; Tool; Assistant; Tool; Assistant].
Proof. vm_compute. split_and!; reflexivity. Qed.

(** With compaction on, the session is cut to its last messages between two
    iterations, wherever that falls: the next request holds results of calls
    that it does not ask for. *)
Example orphaned_results :
  let calls := ["1"; "2"; "3"; "4"; "5"; "6"; "7"; "8"; "9"] in
  let '(_, s) := run (config 100 (Some (ContextMonitor.new 100 0.5%float)) None)
                     [wants calls; says "ok"] [] in
  map (map role) (drop 1 (requests s)) = [[Tool; Tool; Tool; Tool; Tool; Tool]].
Proof. vm_compute. reflexivity. Qed.
(** The flush before a compaction runs whatever tool the model names, although the
    run may not execute a call. *)
Example flush_unchecked :
  let '(_, s) := run (config 100 (Some (ContextMonitor.new 100 0.5%float)) (Some 0))
                     [wants ["rm"]; says "ok"] (repeat (Message.user "some words to compact") 5) in
  flushed s = ["echo"] ∧ executed s = [].
Proof. vm_compute. split; reflexivity. Qed.
End Example_agent.

Lemma message_transcript_witness :
  ∃ added saved s' s2,
    save_session ([] ++ [Message.user "hi"] ++ added ++ [Message.assistant "done"]) s' = (Ok tt, s2) ∧
    Example_agent.run (Example_agent.config 1000 None (Some 2))
      [Example_agent.wants ["a"]; Example_agent.says "done"] [] = (Ret (Ok ("done", saved)), s2) ∧
    saved = [] ++ [Message.user "hi"] ++ added ++ [Message.assistant "done"] ∧ rounds saved.
Proof.
  destruct (message_transcript (H1 := Literal.regex) (λ x, x) Some (λ _, "")
    (Example_agent.config 1000 None (Some 2)) "cli" (Message.user "hi")
    (Example_agent.mkScript [Example_agent.wants ["a"]; Example_agent.says "done"] [] [] [] []))
    as [_ H].
  edestruct H as (added & s' & Hsave & Hs); [reflexivity|reflexivity|vm_compute; reflexivity|constructor|reflexivity..|
    vm_compute; reflexivity|].
  exists added. eexists _, s', _. split; [exact Hsave|]. split; [vm_compute; reflexivity|exact Hs].
Defined.

