(* ===== verification/RateLimit.v ===== *)
(** The limits on inbound traffic of a gateway: the sliding window of
    src/src/gateway/rate_limit.rs and the store of message identifiers of
    src/src/gateway/idempotency.rs.

    An [Instant] is its nanoseconds; instants before the boot of the machine
    exist, as on Linux. The reading of the clock, which the code takes before it
    takes the lock, is an argument. *)

From S2P Require Import Prelude.

(** ** The sliding window *)

Section limiter.
Context {IpAddr : Type} `{Countable IpAddr}.

Record SlidingWindowRateLimiter : Type := mkSlidingWindowRateLimiter {
  limit : Z;
  window : Z;
  entries : gmap IpAddr (list Z);
}.

Definition with_entries (self : SlidingWindowRateLimiter) (e : gmap IpAddr (list Z))
    : SlidingWindowRateLimiter :=
  mkSlidingWindowRateLimiter (limit self) (window self) e.

(** [while timestamps.front() <= cutoff { pop_front() }]. *)
Fixpoint pop_expired (cutoff : Z) (timestamps : list Z) : list Z :=
  match timestamps with
  | t :: rest => if t <=? cutoff then pop_expired cutoff rest else timestamps
  | [] => []
  end.
End limiter.
Arguments SlidingWindowRateLimiter _ {_ _}.

Module SlidingWindowRateLimiter.
Section methods.
Context {IpAddr : Type} `{Countable IpAddr}.
Implicit Types (self : SlidingWindowRateLimiter IpAddr) (ip : IpAddr) (now : Z).

Definition new (limit window : Z) : SlidingWindowRateLimiter IpAddr :=
  mkSlidingWindowRateLimiter limit window ∅.

Definition check self ip now : bool * SlidingWindowRateLimiter IpAddr :=
  if limit self =? 0 then (true, self)
  else
    let cutoff := now - window self in
    let timestamps := pop_expired cutoff (default [] (entries self !! ip)) in
    if limit self <=? Z.of_nat (length timestamps)
    then (false, with_entries self (<[ip := timestamps]> (entries self)))
    else (true, with_entries self (<[ip := timestamps ++ [now]]> (entries self))).

Definition sweep self now : SlidingWindowRateLimiter IpAddr :=
  let cutoff := now - window self in
  with_entries self
    (omap (λ timestamps, match pop_expired cutoff timestamps with [] => None | l => Some l end)
       (entries self)).
End methods.
End SlidingWindowRateLimiter.

Module GatewayRateLimiter.
Section methods.
Context {IpAddr : Type} `{Countable IpAddr}.

Record t : Type := mk {
  pair : SlidingWindowRateLimiter IpAddr;
  webhook : SlidingWindowRateLimiter IpAddr;
}.

Definition new (pair_per_min webhook_per_min window : Z) : t :=
  mk (SlidingWindowRateLimiter.new pair_per_min window)
     (SlidingWindowRateLimiter.new webhook_per_min window).

Definition check_pair (self : t) (ip : IpAddr) (now : Z) : bool * t :=
  let '(ok, p) := SlidingWindowRateLimiter.check (pair self) ip now in (ok, mk p (webhook self)).

Definition check_webhook (self : t) (ip : IpAddr) (now : Z) : bool * t :=
  let '(ok, w) := SlidingWindowRateLimiter.check (webhook self) ip now in (ok, mk (pair self) w).

Definition sweep (self : t) (now : Z) : t :=
  mk (SlidingWindowRateLimiter.sweep (pair self) now)
     (SlidingWindowRateLimiter.sweep (webhook self) now).
End methods.
End GatewayRateLimiter.
Arguments GatewayRateLimiter.t _ {_ _}.

(** *** The window over histories *)

Section windows.
Context {IpAddr : Type} `{Countable IpAddr}.
Context (lim win : Z).
Implicit Types (ip : IpAddr) (now : Z).

Inductive LimiterOp : Type :=
| Request (ip : IpAddr) (now : Z)
| Sweep (now : Z).

Definition op_time (op : LimiterOp) : Z := match op with Request _ t | Sweep t => t end.

(** The limiter, and the requests it let through with their times. *)
Definition limiter_step (s : SlidingWindowRateLimiter IpAddr * list (IpAddr * Z)) (op : LimiterOp)
    : SlidingWindowRateLimiter IpAddr * list (IpAddr * Z) :=
  let '(l, adm) := s in
  match op with
  | Request ip now =>
    let '(ok, l') := SlidingWindowRateLimiter.check l ip now in
    (l', if ok then adm ++ [(ip, now)] else adm)
  | Sweep now => (SlidingWindowRateLimiter.sweep l now, adm)
  end.

Definition limiter_run (h : list LimiterOp) : SlidingWindowRateLimiter IpAddr * list (IpAddr * Z) :=
  foldl limiter_step (SlidingWindowRateLimiter.new lim win, []) h.

(** When the requests of one address were let through. *)
Definition admitted ip (adm : list (IpAddr * Z)) : list Z :=
  map snd (filter (λ e, fst e = ip) adm).

(** The history is in the order of the clock. *)
Definition in_order (h : list LimiterOp) : Prop := StronglySorted Z.le (map op_time h).

Definition after c (ts : list Z) : list Z := filter (λ t, c < t) ts.

Lemma after_all c ts : Forall (λ t, c < t) ts → after c ts = ts.
Proof.
  unfold after. induction 1 as [|t ts Ht _ IH]; [done|]. rewrite filter_cons_True by done. by f_equal.
Qed.

Lemma pop_expired_after c ts : StronglySorted Z.le ts → pop_expired c ts = after c ts.
Proof.
  induction 1 as [|t ts Hs IH Hall]; [done|]. cbn [pop_expired].
  destruct (Z.leb_spec t c) as [Hle|Hlt].
  - unfold after. rewrite filter_cons_False by lia. done.
  - rewrite after_all; [done|]. apply Forall_cons. split; [done|].
    eapply Forall_impl; [exact Hall|cbn; lia].
Qed.

Lemma after_sorted c ts : StronglySorted Z.le ts → StronglySorted Z.le (after c ts).
Proof.
  unfold after. induction 1 as [|t ts Hs IH Hall]; [constructor|].
  rewrite filter_cons. destruct (decide _); [|done]. constructor; [done|].
  apply Forall_forall. intros x [_ Hx]%list_elem_of_filter. by eapply Forall_forall in Hall.
Qed.

Lemma after_after c c' ts : c ≤ c' → after c' (after c ts) = after c' ts.
Proof. intros. apply list_filter_filter_l. lia. Qed.

Lemma admitted_snoc ip ip' t adm :
  admitted ip (adm ++ [(ip', t)]) = if decide (ip' = ip) then admitted ip adm ++ [t] else admitted ip adm.
Proof.
  unfold admitted. rewrite filter_app, map_app. cbn. unfold filter. cbn.
  destruct (decide (ip' = ip)); cbn; [done|]. by rewrite app_nil_r.
Qed.

(** The limiter holds, for every address, the admitted times since some moment
    that is out of the window. *)
Definition limiter_ok now (s : SlidingWindowRateLimiter IpAddr * list (IpAddr * Z)) : Prop :=
  let '(l, adm) := s in
  limit l = lim ∧ window l = win ∧
  ∀ ip, StronglySorted Z.le (admitted ip adm) ∧ Forall (λ t, t ≤ now) (admitted ip adm) ∧
        ∃ c, c ≤ now - win ∧ default [] (entries l !! ip) = after c (admitted ip adm).

Lemma limiter_ok_later now now' s : now ≤ now' → limiter_ok now s → limiter_ok now' s.
Proof.
  destruct s as [l adm]. intros Hle (Hl & Hw & Hs). split_and!; [done..|]. intros ip.
  destruct (Hs ip) as (? & ? & c & ? & ?). split_and!; [done| |].
  - eapply Forall_impl; [done|cbn; lia].
  - exists c. split; [lia|done].
Qed.

(** What the limiter finds for an address when it is asked. *)
Lemma limiter_ok_pop now l adm ip :
  limiter_ok now (l, adm) →
  pop_expired (now - win) (default [] (entries l !! ip)) = after (now - win) (admitted ip adm).
Proof.
  intros (_ & _ & Hs). destruct (Hs ip) as (Hsort & _ & c & Hc & ->).
  rewrite pop_expired_after by by apply after_sorted. by apply after_after.
Qed.

Lemma sorted_snoc ts t : StronglySorted Z.le ts → Forall (λ x, x ≤ t) ts → StronglySorted Z.le (ts ++ [t]).
Proof.
  intros Hs Hf. apply StronglySorted_app. split_and!; [|done|by repeat constructor].
  intros x y Hx ->%list_elem_of_singleton. by eapply Forall_forall in Hf.
Qed.

Lemma limiter_step_ok now s op :
  lim ≠ 0 → 0 < win → op_time op = now → limiter_ok now s → limiter_ok now (limiter_step s op).
Proof.
  destruct s as [l adm]. intros Hlim Hwin Ht Hok. destruct op as [ip t|t]; cbn in Ht; subst t.
  - cbn [limiter_step]. unfold SlidingWindowRateLimiter.check.
    pose proof Hok as (Hl & Hw & Hs). rewrite Hl, Hw, (limiter_ok_pop _ _ _ _ Hok).
    destruct (Z.eqb_spec lim 0) as [|_]; [done|].
    destruct (Z.leb_spec lim (Z.of_nat (length (after (now - win) (admitted ip adm))))).
    + split_and!; [done..|]. intros ip'. destruct (Hs ip') as (? & ? & c & ? & Hc).
      split_and!; [done..|]. cbn [with_entries entries].
      destruct (decide (ip = ip')) as [<-|Hne].
      * rewrite lookup_insert_eq. exists (now - win). split; [lia|done].
      * rewrite lookup_insert_ne by done. by exists c.
    + split_and!; [done..|]. intros ip'. rewrite admitted_snoc. destruct (Hs ip') as (? & ? & c & ? & Hc).
      cbn [with_entries entries]. destruct (decide (ip = ip')) as [<-|Hne].
      * rewrite lookup_insert_eq. split_and!; [by apply sorted_snoc| |].
        { apply Forall_app. split; [done|]. by repeat constructor. }
        exists (now - win). split; [lia|]. unfold after. rewrite filter_app. unfold default, id. f_equal. symmetry.
        apply (after_all (now - win) [now]). repeat constructor. lia.
      * rewrite lookup_insert_ne by done. split_and!; [done..|]. by exists c.
  - cbn [limiter_step]. pose proof Hok as (Hl & Hw & Hs). split_and!; [done..|]. intros ip.
    destruct (Hs ip) as (? & ? & _). split_and!; [done..|]. exists (now - win). split; [lia|].
    cbn [SlidingWindowRateLimiter.sweep with_entries entries]. rewrite <- (limiter_ok_pop _ _ _ _ Hok), lookup_omap, Hw.
    destruct (entries l !! ip) as [ts|]; cbn; [|done]. by destruct (pop_expired _ ts).
Qed.

Lemma limiter_run_ok now h :
  lim ≠ 0 → 0 < win → in_order h → Forall (λ op, op_time op ≤ now) h →
  limiter_ok now (limiter_run h).
Proof.
  intros Hlim Hwin. revert now. induction h as [|op h IH] using rev_ind; intros now Ho Hf.
  - split_and!; [done..|]. intros ip. split_and!; [constructor..|]. exists (now - win).
    split; [lia|]. cbn. by rewrite lookup_empty.
  - unfold in_order in Ho. rewrite map_app in Ho. unfold limiter_run. rewrite foldl_app. cbn [foldl].
    apply Forall_app in Hf as [Hf Hop]. rewrite Forall_singleton in Hop.
    apply (limiter_ok_later (op_time op)); [done|]. apply limiter_step_ok; [done..|].
    apply IH; [by eapply StronglySorted_app_1_l|].
    apply Forall_forall. intros op' Hin.
    eapply (StronglySorted_app_1_elem_of _ _ _ (op_time op') (op_time op) Ho);
      [by apply list_elem_of_fmap_2|by apply list_elem_of_singleton].
Qed.

(** A request is let through exactly when fewer than the limit were in the
    window that ends with it. *)
Lemma limiter_verdict h ip now :
  lim ≠ 0 → 0 < win → in_order h → Forall (λ op, op_time op ≤ now) h →
  fst (SlidingWindowRateLimiter.check (fst (limiter_run h)) ip now) =
  bool_decide (Z.of_nat (length (after (now - win) (admitted ip (snd (limiter_run h))))) < lim).
Proof.
  intros Hlim Hwin Ho Hf. pose proof (limiter_run_ok now h Hlim Hwin Ho Hf) as Hok.
  destruct (limiter_run h) as [l adm]. cbn [fst snd] in *. unfold SlidingWindowRateLimiter.check.
  pose proof Hok as (Hl & Hw & _). rewrite Hl, Hw, (limiter_ok_pop _ _ _ _ Hok).
  destruct (Z.eqb_spec lim 0) as [|_]; [done|]. match goal with |- context [lim <=? ?n] => destruct (Z.leb_spec lim n) end;
    case_bool_decide; cbn; try done; lia.
Qed.

(** The admitted times in the window that ends at [t]. *)
Definition within t (ts : list Z) : list Z := filter (λ x, t - win < x ∧ x ≤ t) ts.

Lemma within_after t t0 ts : t0 ≤ t → (length (within t ts) ≤ length (after (t0 - win) ts))%nat.
Proof.
  intros Hle. unfold within, after. rewrite <- (list_filter_filter_l (λ x, t - win < x ∧ x ≤ t)
    (λ x, t0 - win < x)) by lia. apply length_filter.
Qed.

Lemma limiter_bound h ip t :
  0 < lim → 0 < win → in_order h → Z.of_nat (length (within t (admitted ip (snd (limiter_run h))))) ≤ lim.
Proof.
  intros Hlim Hwin. induction h as [|op h IH] using rev_ind; intros Ho; [cbn; lia|].
  unfold in_order in Ho. rewrite map_app in Ho.
  specialize (IH (StronglySorted_app_1_l _ _ _ Ho)). unfold limiter_run. rewrite foldl_app. cbn [foldl].
  fold (limiter_run h). destruct op as [ip' t0|t0]; [|by destruct (limiter_run h)].
  assert (Forall (λ op, op_time op ≤ t0) h) as Hf.
  { apply Forall_forall. intros op' Hin. eapply (StronglySorted_app_1_elem_of _ _ _ (op_time op') t0 Ho);
      [by apply list_elem_of_fmap_2|by apply list_elem_of_singleton]. }
  pose proof (limiter_verdict h ip' t0 ltac:(lia) Hwin (StronglySorted_app_1_l _ _ _ Ho) Hf) as Hv.
  destruct (limiter_run h) as [l adm]. cbn [fst snd limiter_step] in *.
  destruct (SlidingWindowRateLimiter.check l ip' t0) as [ok l']. cbn [fst snd] in *. subst ok.
  case_bool_decide as Hc; cbn [snd]; [|done]. rewrite admitted_snoc.
  destruct (decide (ip' = ip)) as [->|]; [|done]. unfold within. rewrite filter_app, length_app.
  fold (within t (admitted ip adm)). cbn. unfold filter. cbn. destruct (decide _) as [[_ Hle]|_]; cbn; [|lia].
  pose proof (within_after t t0 (admitted ip adm) Hle). lia.
Qed.
End windows.

(** The limiter over any history of requests and sweeps in the order of the
    clock. A request is let through exactly when fewer than the limit of
    requests of the same address were let through in the window that ends with
    it; so no window ever holds more of them than the limit, and addresses do
    not affect each other. After a sweep exactly the addresses with an admitted
    request in the window are kept. A limit of zero lets everything through. *)
Theorem rate_limit_windows {IpAddr : Type} `{Countable IpAddr} lim win (h : list (LimiterOp (IpAddr := IpAddr))) :
  0 ≤ lim → 0 < win → in_order h →
  let s := limiter_run lim win h in
  (lim = 0 → ∀ ip now, fst (SlidingWindowRateLimiter.check (fst s) ip now) = true) ∧
  (0 < lim →
   (∀ ip now, Forall (λ op, op_time op ≤ now) h →
      fst (SlidingWindowRateLimiter.check (fst s) ip now) =
      bool_decide (Z.of_nat (length (after (now - win) (admitted ip (snd s)))) < lim)) ∧
   (∀ ip t, Z.of_nat (length (within win t (admitted ip (snd s)))) ≤ lim) ∧
   (∀ ip now, Forall (λ op, op_time op ≤ now) h →
      is_Some (entries (SlidingWindowRateLimiter.sweep (fst s) now) !! ip) ↔
      after (now - win) (admitted ip (snd s)) ≠ [])).
Proof.
  intros Hlim Hwin Ho. cbv zeta. split.
  - intros ->. assert (limit (fst (limiter_run 0 win h)) = 0) as Hl.
    { induction h as [|op h IH] using rev_ind; [done|]. unfold in_order in Ho. rewrite map_app in Ho.
      specialize (IH (StronglySorted_app_1_l _ _ _ Ho)). unfold limiter_run. rewrite foldl_app. cbn [foldl].
      fold (limiter_run 0 win h). destruct (limiter_run 0 win h) as [l adm]. cbn [fst] in *.
      destruct op; cbn; [|done]. unfold SlidingWindowRateLimiter.check. by rewrite IH. }
    intros ip now. unfold SlidingWindowRateLimiter.check. by rewrite Hl.
  - intros Hpos. split_and!.
    + intros ip now Hf. apply limiter_verdict; [lia|done..].
    + intros ip t. by apply limiter_bound.
    + intros ip now Hf. pose proof (limiter_run_ok lim win now h ltac:(lia) Hwin Ho Hf) as Hok.
      destruct (limiter_run lim win h) as [l adm]. cbn [fst snd].
      rewrite <- (limiter_ok_pop _ _ _ _ _ _ Hok). destruct Hok as (_ & Hw & _).
      cbn [SlidingWindowRateLimiter.sweep with_entries entries]. rewrite lookup_omap, Hw.
      destruct (entries l !! ip) as [ts|]; cbn; [|by rewrite is_Some_alt].
      destruct (pop_expired _ ts); [by rewrite is_Some_alt|]. split; [done|by eexists].
Qed.

(** ** The identifiers of messages *)

Record IdempotencyStore : Type := mkIdempotencyStore {
  recorded : gmap string Z;
  ttl : Z;
  max_entries : nat;
}.

Module IdempotencyStore.
Section methods.
Context `{MapOrder Z}.
Implicit Types (self : IdempotencyStore) (key : string) (now : Z).

Definition new (ttl : Z) (max_entries : nat) : IdempotencyStore :=
  mkIdempotencyStore ∅ ttl max_entries.

Definition with_recorded self (r : gmap string Z) : IdempotencyStore :=
  mkIdempotencyStore r (ttl self) (max_entries self).

Definition evict_expired self now : gmap string Z :=
  let cutoff := now - ttl self in filter (λ kt, cutoff < snd kt) (recorded self).

Definition evict_oldest (max_entries : nat) (r : gmap string Z) : gmap string Z :=
  if Nat.leb max_entries (size r)
  then match min_by snd (map_iter r) with
       | Some (k, _) => delete k r
       | None => r
       end
  else r.

Definition check_and_record self key now : bool * IdempotencyStore :=
  let duplicate := match recorded self !! key with
                   | Some recorded_at => sat_sub now recorded_at <? ttl self
                   | None => false
                   end in
  if duplicate then (false, self)
  else (true, with_recorded self
                (<[key := now]> (evict_oldest (max_entries self) (evict_expired self now)))).

Definition len self : nat := size (recorded self).
Definition is_empty self : bool := Nat.eqb (len self) 0.
End methods.
End IdempotencyStore.

Section duplicates.
Context `{MapOrder Z}.
Context (ttl : Z) (max : nat).
Implicit Types (key : string) (now : Z) (h : list (string * Z)).

(** The store after the messages [h], and the messages it took for new. *)
Definition store_step (s : IdempotencyStore * list (string * Z)) (m : string * Z)
    : IdempotencyStore * list (string * Z) :=
  let '(new, store) := IdempotencyStore.check_and_record (fst s) (fst m) (snd m) in
  (store, if new then snd s ++ [m] else snd s).

Definition store_run h : IdempotencyStore * list (string * Z) :=
  foldl store_step (IdempotencyStore.new ttl max, []) h.

Lemma store_run_snoc h m : store_run (h ++ [m]) = store_step (store_run h) m.
Proof. unfold store_run. by rewrite foldl_app. Qed.

Lemma evict_oldest_spec n (r : gmap string Z) :
  let r' := IdempotencyStore.evict_oldest n r in
  r' ⊆ r ∧ (size r' = if Nat.leb n (size r) then size r - 1 else size r)%nat ∧
  ∀ k t k' t', r !! k = Some t → r' !! k = None → r' !! k' = Some t' → t ≤ t'.
Proof.
  cbv zeta. unfold IdempotencyStore.evict_oldest. destruct (Nat.leb n (size r)).
  2: { split_and!; [done|done|]. intros k t k' t' H1 H2. congruence. }
  destruct (decide (r = ∅)) as [->|Hne].
  { pose proof (min_by_spec snd (map_iter (∅ : gmap string Z))) as Hm.
    assert (map_iter (∅ : gmap string Z) = []) as ->.
    { apply Permutation_nil_r. rewrite map_iter_list. by rewrite map_to_list_empty. }
    cbn. split_and!; [done|by rewrite map_size_empty|]. intros k t k' t' H1. by rewrite lookup_empty in H1. }
  destruct (min_by_map Datatypes.id r Hne) as (k0 & t0 & Hm & Hk & Hmin).
  change (λ kv : string * Z, Datatypes.id (snd kv)) with (@snd string Z) in Hm. rewrite Hm.
  split_and!.
  - apply delete_subseteq.
  - rewrite map_size_delete_Some by by eexists. lia.
  - intros k t k' t' H1 H2 H3. destruct (decide (k = k0)) as [->|].
    + apply lookup_delete_Some in H3 as [_ H3]. rewrite Hk in H1. injection H1 as <-. by apply (Hmin k').
    + rewrite lookup_delete_ne in H2 by done. congruence.
Qed.

(** When a key was last taken for new. *)
Definition last_new (fresh : list (string * Z)) key : option Z :=
  foldl (λ acc m, if decide (fst m = key) then Some (snd m) else acc) None fresh.

(** The messages with other keys that were taken for new at or after [t]. *)
Definition others (fresh : list (string * Z)) key (t : Z) : list (string * Z) :=
  filter (λ m, fst m ≠ key ∧ t ≤ snd m) fresh.

Lemma last_new_snoc fresh m key :
  last_new (fresh ++ [m]) key = if decide (fst m = key) then Some (snd m) else last_new fresh key.
Proof. unfold last_new. by rewrite foldl_app. Qed.

Lemma last_new_in fresh key t : last_new fresh key = Some t → (key, t) ∈ fresh.
Proof.
  induction fresh as [|[k t'] fresh IH] using rev_ind; [done|]. rewrite last_new_snoc. cbn [fst snd].
  rewrite elem_of_app, list_elem_of_singleton. destruct (decide (k = key)) as [->|]; [|by left; apply IH].
  intros [= ->]. by right.
Qed.

Definition store_ok now (s : IdempotencyStore * list (string * Z)) : Prop :=
  let '(store, fresh) := s in
  RateLimit.ttl store = ttl ∧ max_entries store = max ∧
  (size (recorded store) ≤ Nat.max max 1)%nat ∧
  (∀ k t, (k, t) ∈ fresh → t ≤ now ∧ ∃ t', last_new fresh k = Some t' ∧ t ≤ t') ∧
  (∀ k t, recorded store !! k = Some t → (k, t) ∈ fresh) ∧
  (∀ k t, last_new fresh k = Some t → now - t < ttl →
     recorded store !! k = Some t ∨ (max ≤ length (others fresh k t))%nat).

Lemma store_ok_later now now' s : now ≤ now' → store_ok now s → store_ok now' s.
Proof.
  destruct s as [store fresh]. intros Hle (? & ? & ? & Hf & ? & Hl). split_and!; [done..| |done|].
  - intros k t Hin. destruct (Hf k t Hin) as [? ?]. split; [lia|done].
  - intros k t Hk Ht. apply Hl; [done|lia].
Qed.

(** Entries of the map are messages, so that there are no more of them. *)
Lemma others_size fresh key t (r : gmap string Z) :
  (∀ k' t', r !! k' = Some t' → (k', t') ∈ others fresh key t) → (size r ≤ length (others fresh key t))%nat.
Proof.
  intros Hr. rewrite <- length_map_to_list. apply submseteq_length, NoDup_submseteq; [apply NoDup_map_to_list|].
  intros [k' t'] Hin%elem_of_map_to_list. by apply Hr.
Qed.

Lemma store_step_ok now s m :
  0 < ttl → snd m = now → store_ok now s → store_ok now (store_step s m).
Proof.
  destruct s as [store fresh], m as [key t0]. cbn [fst snd]. intros Httl -> Hok.
  unfold store_step, IdempotencyStore.check_and_record. cbn [fst snd].
  pose proof Hok as (Ht & Hm & Hsize & Hf & Hr & Hl). rewrite Ht.
  destruct (match recorded store !! key with Some r => sat_sub now r <? ttl | None => false end) eqn:Hd;
    [done|].
  set (r := IdempotencyStore.evict_expired store now).
  destruct (evict_oldest_spec (max_entries store) r) as (Hsub & Hsz & Hold).
  set (r' := IdempotencyStore.evict_oldest (max_entries store) r) in *.
  assert (∀ k t, r !! k = Some t ↔ recorded store !! k = Some t ∧ now - ttl < t) as Hrr.
  { intros k t. unfold r, IdempotencyStore.evict_expired. rewrite Ht, map_lookup_filter_Some. done. }
  assert (r !! key = None) as Hkey.
  { apply eq_None_not_Some. intros [t [Hk Hlt]%Hrr]. rewrite Hk in Hd. unfold sat_sub in Hd. lia. }
  assert (∀ k t, r' !! k = Some t → (k, t) ∈ fresh ∧ k ≠ key) as Hr'.
  { intros k t Hk. apply (lookup_weaken _ _ _ _ Hk) in Hsub. split; [by apply Hr, Hrr|].
    intros ->. congruence. }
  unfold IdempotencyStore.with_recorded. split_and!; cbn [recorded max_entries RateLimit.ttl]; [done|done|..].
  - rewrite map_size_insert_None.
    2: { apply eq_None_not_Some. intros [t Hk]. by destruct (Hr' key t Hk). }
    assert (size r ≤ size (recorded store))%nat as Hle.
    { apply map_subseteq_size. apply map_filter_subseteq. }
    rewrite Hm in Hsz. destruct (Nat.leb_spec max (size r)); lia.
  - intros k t [Hin|Hin%list_elem_of_singleton]%elem_of_app; rewrite last_new_snoc; cbn [fst snd].
    + destruct (Hf k t Hin) as (? & t' & ? & ?). split; [done|].
      destruct (decide (key = k)); [by exists now|by exists t'].
    + injection Hin as -> ->. rewrite decide_True by done. split; [done|by exists now].
  - intros k t. rewrite lookup_insert_Some, elem_of_app, list_elem_of_singleton.
    intros [[-> ->]|[Hne Hk]]; [by right|left; by apply Hr'].
  - intros k t. rewrite last_new_snoc. cbn [fst snd]. destruct (decide (key = k)) as [->|Hne].
    { intros [= ->] _. left. by rewrite lookup_insert_eq. }
    intros Hlast Hlive. rewrite lookup_insert_ne by done.
    assert (others (fresh ++ [(key, now)]) k t = others fresh k t ++ [(key, now)]) as Ho.
    { unfold others. rewrite filter_app, filter_cons_True; [done|]. cbn. split; [done|].
      by apply last_new_in, Hf in Hlast as [? _]. }
    rewrite Ho, length_app. cbn [length].
    destruct (Hl k t Hlast Hlive) as [Hk|?]; [|right; lia].
    destruct (r' !! k) as [t1|] eqn:Hk'.
    { left. apply (lookup_weaken _ _ _ _ Hk') in Hsub. apply Hrr in Hsub as [? _]. congruence. }
    right. destruct (decide (max = 0%nat)) as [->|Hmax]; [lia|].
    assert (r !! k = Some t) as Hrk by (apply Hrr; split; [done|lia]).
    assert (size r' ≤ length (others fresh k t))%nat as Hle.
    { apply others_size. intros k' t' Hin. apply list_elem_of_filter. split; [|by apply Hr'].
      cbn. split; [by intros ->; congruence|]. by apply (Hold k t k' t'). }
    rewrite Hm in Hsz. destruct (Nat.leb_spec max (size r)); [lia|].
    exfalso. assert (r' = r) as He by (apply map_subseteq_size_eq; [done|lia]). congruence.
Qed.

Lemma store_run_ok now h :
  0 < ttl → StronglySorted Z.le (map snd h) → Forall (λ m, snd m ≤ now) h → store_ok now (store_run h).
Proof.
  intros Httl. revert now. induction h as [|m h IH] using rev_ind; intros now Ho Hf.
  - split_and!; cbn; try done;
      first [rewrite map_size_empty; lia|by intros ?? ?%elem_of_nil].
  - rewrite map_app in Ho. rewrite store_run_snoc.
    apply Forall_app in Hf as [Hf Hm]. rewrite Forall_singleton in Hm.
    apply (store_ok_later (snd m)); [done|]. apply store_step_ok; [done..|].
    apply IH; [by eapply StronglySorted_app_1_l|]. apply Forall_forall. intros m' Hin.
    eapply (StronglySorted_app_1_elem_of _ _ _ (snd m') (snd m) Ho);
      [by apply list_elem_of_fmap_2|by apply list_elem_of_singleton].
Qed.

(** A recent message is refused unless many others came since. *)
Lemma duplicate_refused now store fresh key t :
  store_ok now (store, fresh) → (key, t) ∈ fresh → now - t < ttl →
  (length (others fresh key t) < max)%nat →
  fst (IdempotencyStore.check_and_record store key now) = false.
Proof.
  intros (Ht & _ & _ & Hfresh & Hr & Hl) Hin Hlt Hfew.
  destruct (Hfresh key t Hin) as (Hle & t' & Hlast & Hle').
  unfold IdempotencyStore.check_and_record. rewrite Ht.
  destruct (Hl key t' Hlast) as [->|Hmany]; [lia| |].
  - destruct (Z.ltb_spec (sat_sub now t') ttl) as [|Hge]; [done|]. unfold sat_sub in Hge. lia.
  - exfalso. assert (length (others fresh key t') ≤ length (others fresh key t))%nat; [|lia].
    unfold others. rewrite <- (list_filter_filter_l (λ m, fst m ≠ key ∧ t' ≤ snd m)
      (λ m, fst m ≠ key ∧ t ≤ snd m)); [apply length_filter|]. intros m [? ?]. split; [done|lia].
Qed.
End duplicates.

(** The store over any history in the order of the clock. A message that is
    refused has the key of one that was taken for new less than the time to
    live before. Conversely such a message is refused, unless as many other
    messages as the store may hold were taken for new since then. The store
    never holds more than its limit (and always one). *)
Theorem idempotency_windows `{MapOrder Z} ttl max (h : list (string * Z)) :
  0 < ttl → StronglySorted Z.le (map snd h) →
  let '(store, fresh) := store_run ttl max h in
  (size (recorded store) ≤ Nat.max max 1)%nat ∧
  ∀ key now, Forall (λ m, snd m ≤ now) h →
    (fst (IdempotencyStore.check_and_record store key now) = false →
     ∃ t, (key, t) ∈ fresh ∧ now - t < ttl) ∧
    (∀ t, (key, t) ∈ fresh → now - t < ttl → (length (others fresh key t) < max)%nat →
     fst (IdempotencyStore.check_and_record store key now) = false).
Proof.
  intros Httl Ho.
  assert (∀ now, Forall (λ m, snd m ≤ now) h → store_ok ttl max now (store_run ttl max h)) as Hok
    by (intros now Hf; by apply store_run_ok).
  destruct (store_run ttl max h) as [store fresh]. split.
  { destruct (Hok (foldr Z.max 0 (map snd h))) as (_ & _ & ? & _); [|done].
    clear. induction h as [|m h IH]; constructor; cbn; [lia|].
    eapply Forall_impl; [exact IH|cbn; lia]. }
  intros key now Hf. specialize (Hok now Hf). split.
  - destruct Hok as (Ht & _ & _ & _ & Hr & _). unfold IdempotencyStore.check_and_record. rewrite Ht.
    destruct (recorded store !! key) as [t|] eqn:Hk; [|done].
    destruct (Z.ltb_spec (sat_sub now t) ttl) as [Hlt|]; [|done]. intros _. exists t.
    split; [by apply Hr|]. unfold sat_sub in Hlt. lia.
  - intros t. by apply (duplicate_refused ttl max).
Qed.

(** ** Evaluation *)

Module Example_limits.

#[global] Instance order : MapOrder Z := {|
  map_iter m := map_to_list m; map_iter_list m := reflexivity (map_to_list m); |}.

(** Two requests a minute; [b] is not affected by [a]. *)
Definition requests : list (LimiterOp (IpAddr := string)) :=
  [Request "a" 1; Request "a" 2; Request "b" 3; Request "a" 4].

Definition messages : list (string * Z) := [("m1", 0); ("m2", 1); ("m1", 2); ("m3", 3)].

Example third_refused :
  snd (limiter_run 2 60 requests) = [("a", 1); ("a", 2); ("b", 3)] ∧
  fst (SlidingWindowRateLimiter.check (fst (limiter_run 2 60 requests)) "a" 61) = true.
Proof. split; by_compute. Qed.

(** With room for two, the first message is forgotten when the third comes. *)
Example repeated_refused :
  snd (store_run 300 2 messages) = [("m1", 0); ("m2", 1); ("m3", 3)] ∧
  fst (IdempotencyStore.check_and_record (fst (store_run 300 2 messages)) "m1" 4) = true.
Proof. split; by_compute. Qed.
End Example_limits.

Lemma rate_limit_windows_witness :
  fst (SlidingWindowRateLimiter.check (fst (limiter_run 2 60 Example_limits.requests)) "a" 5) =
  bool_decide (Z.of_nat (length (after (5 - 60)
    (admitted "a" (snd (limiter_run 2 60 Example_limits.requests))))) < 2) ∧
  admitted "a" (snd (limiter_run 2 60 Example_limits.requests)) = [1; 2].
Proof.
  split; [|vm_compute; reflexivity].
  destruct (rate_limit_windows 2 60 Example_limits.requests) as [_ Hw];
    [lia|lia|repeat constructor; cbn; lia|].
  destruct Hw as (Hw & _); [lia|]. apply Hw. repeat constructor; cbn; lia.
Defined.

Lemma idempotency_windows_witness :
  fst (IdempotencyStore.check_and_record (fst (store_run 300 2 [("m1", 0); ("m2", 1)])) "m1" 2) = false.
Proof.
  pose proof (idempotency_windows 300 2 [("m1", 0); ("m2", 1)]) as Hw.
  destruct Hw as [_ Hw]; [lia|repeat constructor; cbn; lia|].
  destruct (Hw "m1" 2) as [_ Hd]; [repeat constructor; cbn; lia|].
  apply (Hd 0); [vm_compute; constructor|lia|vm_compute; lia].
Defined.
