(* ===== verification/Pairing.v ===== *)
(** Device pairing: src/src/security/pairing.rs. One-time codes, bearer tokens
    of which only the hash is kept, and the lockout of an identifier that fails
    too often.

    SHA-256, JSON and the random numbers are parameters; comparisons in constant
    time are comparisons. An operation reads the clock at several places; each
    place has its own reading ([Readings]), in the order of the code. What is
    written to the file is [saved]: writing is best effort. *)

From S2P Require Import Prelude.

(** ** Data *)

Record PairedDevice : Type := mkPairedDevice {
  name : string;
  token_hash : string;
  paired_at : Z;
  last_seen : Z;
}.

Record DeviceInfo : Type := mkDeviceInfo {
  info_name : string;
  info_paired_at : Z;
  info_last_seen : Z;
}.

Record PendingCode : Type := mkPendingCode {
  code : string;
  expires_at : Z;
}.

Record LockoutEntry : Type := mkLockoutEntry {
  attempts : Z;
  locked_until : option Z;
}.

Record PairingManager : Type := mkPairingManager {
  devices : list PairedDevice;
  pending_code : option PendingCode;
  lockouts : gmap string LockoutEntry;
  max_attempts : Z;
  lockout_duration : Z;
  saved : option string;
}.

(** The readings of [Instant::now()] of one operation, and of the wall clock. *)
Record Readings : Type := mkReadings {
  at_lock_check : Z;
  at_code_check : Z;
  at_prune : Z;
  at_reset : Z;
  at_deadline : Z;
  wall_secs : Z;
}.

Definition PAIRING_WINDOW : Z := 300 * 1000000000.

Module PairingManager.
Section methods.
Context (sha256 : string → string).
Context (to_json : list PairedDevice → string) (from_json : string → option (list PairedDevice)).
Implicit Types (self : PairingManager) (id : string) (r : Readings).

Definition hash_token (raw_token : string) : string := sha256 raw_token.

Definition load_from_disk (file : option string) : list PairedDevice :=
  match file with
  | Some data => default [] (from_json data)
  | None => []
  end.

Definition new (file : option string) (max_attempts lockout_secs : Z) : PairingManager :=
  mkPairingManager (load_from_disk file) None ∅ max_attempts (lockout_secs * 1000000000) file.

Definition with_lockouts self (l : gmap string LockoutEntry) : PairingManager :=
  mkPairingManager (devices self) (pending_code self) l (max_attempts self) (lockout_duration self)
    (saved self).

(** [writable]: whether the file system takes the file. *)
Definition save_to_disk self (writable : bool) : PairingManager :=
  if writable
  then mkPairingManager (devices self) (pending_code self) (lockouts self) (max_attempts self)
         (lockout_duration self) (Some (to_json (devices self)))
  else self.

(** [format!("{:06}", n % 1_000_000)] of four random bytes. *)
Definition random_6_digit_code (n : Z) : string :=
  let digits := fmt_Z (n `mod` 1000000) in
  str_concat (repeat "0" (6 - String.length digits)) +:+ digits.

Definition generate_pairing_code self (random now : Z) : string * PairingManager :=
  let c := random_6_digit_code random in
  (c, mkPairingManager (devices self) (Some (mkPendingCode c (now + PAIRING_WINDOW)))
        (lockouts self) (max_attempts self) (lockout_duration self) (saved self)).

Definition is_locked_out self id (now : Z) : bool :=
  match lockouts self !! id with
  | Some e => match locked_until e with Some t => now <? t | None => false end
  | None => false
  end.

Definition failed_attempts self id : Z :=
  match lockouts self !! id with Some e => attempts e | None => 0 end.

Definition prune_expired_lockouts self (now : Z) : PairingManager :=
  with_lockouts self
    (filter (λ ie, match locked_until (snd ie) with Some t => now <? t | None => true end = true)
       (lockouts self)).

Definition clear_lockout self id : PairingManager := with_lockouts self (delete id (lockouts self)).

(** Counts one more failure; a lockout that has expired starts over. *)
Definition fail_entry (max duration : Z) (e : LockoutEntry) r : LockoutEntry :=
  let e := match locked_until e with
           | Some t => if t <=? at_reset r then mkLockoutEntry 0 None else e
           | None => e
           end in
  let n := wadd32 (attempts e) 1 in
  mkLockoutEntry n (if max <=? n then Some (at_deadline r + duration) else locked_until e).

Definition record_failed_attempt self id r : PairingManager :=
  let self := if Nat.ltb 100 (size (lockouts self))
              then prune_expired_lockouts self (at_prune r) else self in
  let e := default (mkLockoutEntry 0 None) (lockouts self !! id) in
  with_lockouts self (<[id := fail_entry (max_attempts self) (lockout_duration self) e r]> (lockouts self)).

Definition code_valid self (input : string) r : bool :=
  match pending_code self with
  | Some pc => String.eqb (code pc) input && (at_code_check r <? expires_at pc)
  | None => false
  end.

(** [raw_token] is the fresh UUID. *)
Definition complete_pairing self (input device_name id raw_token : string) r (writable : bool)
    : option string * PairingManager :=
  if is_locked_out self id (at_lock_check r) then (None, self)
  else if negb (code_valid self input r) then (None, record_failed_attempt self id r)
  else
    let self := clear_lockout self id in
    let others := filter (λ d, name d ≠ device_name) (devices self) in
    let d := mkPairedDevice device_name (hash_token raw_token) (wall_secs r) (wall_secs r) in
    (Some raw_token,
     save_to_disk
       (mkPairingManager (others ++ [d]) None (lockouts self) (max_attempts self)
          (lockout_duration self) (saved self)) writable).

(** The scan looks at every device; the last match counts. *)
Fixpoint matched_idx (hash : string) (i : nat) (ds : list PairedDevice) (found : option nat) : option nat :=
  match ds with
  | [] => found
  | d :: ds => matched_idx hash (S i) ds (if String.eqb (token_hash d) hash then Some i else found)
  end.

Definition validate_token self (raw_token id : string) r : option string * PairingManager :=
  if is_locked_out self id (at_lock_check r) then (None, self)
  else
    match matched_idx (hash_token raw_token) 0 (devices self) None with
    | Some idx =>
      match devices self !! idx with
      | Some d =>
        let d' := mkPairedDevice (name d) (token_hash d) (paired_at d) (wall_secs r) in
        (Some (name d),
         clear_lockout
           (mkPairingManager (<[idx := d']> (devices self)) (pending_code self) (lockouts self)
              (max_attempts self) (lockout_duration self) (saved self)) id)
      | None => (None, self)
      end
    | None => (None, record_failed_attempt self id r)
    end.

Definition revoke self (device_name : string) (writable : bool) : bool * PairingManager :=
  let kept := filter (λ d, name d ≠ device_name) (devices self) in
  let removed := Nat.ltb (length kept) (length (devices self)) in
  let self' := mkPairingManager kept (pending_code self) (lockouts self) (max_attempts self)
                 (lockout_duration self) (saved self) in
  (removed, if removed then save_to_disk self' writable else self').

Definition list_devices self : list DeviceInfo :=
  map (λ d, mkDeviceInfo (name d) (paired_at d) (last_seen d)) (devices self).

Definition has_devices self : bool := negb (Nat.eqb (length (devices self)) 0).
End methods.
End PairingManager.

(** ** Histories *)

Inductive PairingOp : Type :=
| Generate (random now : Z)
| Complete (input device_name id raw_token : string) (r : Readings) (writable : bool)
| Validate (raw_token id : string) (r : Readings)
| Revoke (device_name : string) (writable : bool)
| Prune (now : Z).

(** An attempt that was looked at: by whom, when, and whether it succeeded. *)
Record Attempt : Type := mkAttempt {
  who : string;
  started : Z;
  accepted : bool;
}.

Definition ticks (r : Readings) : Prop :=
  at_lock_check r ≤ at_code_check r ∧ at_code_check r ≤ at_prune r ∧ at_prune r ≤ at_reset r ∧
  at_reset r ≤ at_deadline r.

(** The first and the last reading of an operation. *)
Definition op_from (op : PairingOp) : option Z :=
  match op with
  | Generate _ now | Prune now => Some now
  | Complete _ _ _ _ r _ | Validate _ _ r => Some (at_lock_check r)
  | Revoke _ _ => None
  end.
Definition op_until (op : PairingOp) (before : Z) : Z :=
  match op with
  | Generate _ now | Prune now => now
  | Complete _ _ _ _ r _ | Validate _ _ r => at_deadline r
  | Revoke _ _ => before
  end.

(** The history follows the clock: it goes from [start] to [now]. *)
Inductive clocked (start : Z) : list PairingOp → Z → Prop :=
| clocked_nil : clocked start [] start
| clocked_snoc h op t t' :
    clocked start h t →
    match op_from op with Some from => t ≤ from | None => True end →
    match op with Complete _ _ _ _ r _ | Validate _ _ r => ticks r | _ => True end →
    t' = op_until op t → clocked start (h ++ [op]) t'.

Section histories.
Context (sha256 : string → string).
Context (to_json : list PairedDevice → string) (from_json : string → option (list PairedDevice)).
Implicit Types (m : PairingManager) (op : PairingOp) (h : list PairingOp) (log : list Attempt).

Definition pairing_step (s : PairingManager * list Attempt) op : PairingManager * list Attempt :=
  let '(m, log) := s in
  match op with
  | Generate random now => (snd (PairingManager.generate_pairing_code m random now), log)
  | Complete input device id token r writable =>
    let '(res, m') := PairingManager.complete_pairing sha256 to_json m input device id token r writable in
    (m', if PairingManager.is_locked_out m id (at_lock_check r) then log
         else log ++ [mkAttempt id (at_lock_check r) (bool_decide (is_Some res))])
  | Validate token id r =>
    let '(res, m') := PairingManager.validate_token sha256 m token id r in
    (m', if PairingManager.is_locked_out m id (at_lock_check r) then log
         else log ++ [mkAttempt id (at_lock_check r) (bool_decide (is_Some res))])
  | Revoke device writable => (snd (PairingManager.revoke to_json m device writable), log)
  | Prune now => (PairingManager.prune_expired_lockouts m now, log)
  end.

Definition pairing_run (file : option string) (max secs : Z) h : PairingManager * list Attempt :=
  foldl pairing_step (PairingManager.new from_json file max secs, []) h.

Lemma pairing_run_snoc file max secs h op :
  pairing_run file max secs (h ++ [op]) = pairing_step (pairing_run file max secs h) op.
Proof. unfold pairing_run. by rewrite foldl_app. Qed.

(** An attempt either finds its identifier locked and changes nothing, or fails
    and is counted, or succeeds and clears the count. *)
Lemma complete_cases m input device id' token r writable :
  let '(res, m') := PairingManager.complete_pairing sha256 to_json m input device id' token r writable in
  (PairingManager.is_locked_out m id' (at_lock_check r) = true ∧ res = None ∧ m' = m) ∨
  (PairingManager.is_locked_out m id' (at_lock_check r) = false ∧
   (res = None ∧ m' = PairingManager.record_failed_attempt m id' r ∨
    res = Some token ∧ PairingManager.code_valid m input r = true ∧
    ∃ f, m' = mkPairingManager
                (filter (λ d, name d ≠ device) (devices m) ++
                 [mkPairedDevice device (sha256 token) (wall_secs r) (wall_secs r)])
                None (delete id' (lockouts m)) (max_attempts m) (lockout_duration m) f ∧
              (writable = true → f = Some (to_json (devices m'))))).
Proof.
  unfold PairingManager.complete_pairing. destruct (PairingManager.is_locked_out _ _ _); [by left|].
  destruct (PairingManager.code_valid m input r) eqn:Hv; cbn [negb]; right; (split; [done|]); [|by left].
  right. split_and!; [done..|]. destruct writable; cbn; by eexists.
Qed.

Lemma matched_idx_spec hash ds : ∀ i found,
  match PairingManager.matched_idx hash i ds found with
  | Some k => found = Some k ∨ ∃ j d, (k = i + j)%nat ∧ ds !! j = Some d ∧ token_hash d = hash
  | None => found = None ∧ Forall (λ d, token_hash d ≠ hash) ds
  end.
Proof.
  induction ds as [|d ds IH]; intros i found; cbn [PairingManager.matched_idx].
  { destruct found; [by left|by split]. }
  specialize (IH (S i) (if String.eqb (token_hash d) hash then Some i else found)).
  destruct (PairingManager.matched_idx _ _ _ _) as [k|].
  - destruct IH as [IH|(j & d' & -> & Hj & Hh)]; [|right; exists (S j), d'; split_and!; [lia|done..]].
    destruct (String.eqb_spec (token_hash d) hash) as [Hh|]; [|by left].
    injection IH as <-. right. exists 0%nat, d. split_and!; [lia|done..].
  - destruct IH as [IH Hall]. destruct (String.eqb_spec (token_hash d) hash); [done|]. by split; [|constructor].
Qed.

Lemma validate_cases m token id' r :
  let '(res, m') := PairingManager.validate_token sha256 m token id' r in
  (PairingManager.is_locked_out m id' (at_lock_check r) = true ∧ res = None ∧ m' = m) ∨
  (PairingManager.is_locked_out m id' (at_lock_check r) = false ∧
   (res = None ∧ Forall (λ d, token_hash d ≠ sha256 token) (devices m) ∧
    m' = PairingManager.record_failed_attempt m id' r ∨
    ∃ idx d, devices m !! idx = Some d ∧ token_hash d = sha256 token ∧ res = Some (name d) ∧
      m' = mkPairingManager
             (<[idx := mkPairedDevice (name d) (token_hash d) (paired_at d) (wall_secs r)]> (devices m))
             (pending_code m) (delete id' (lockouts m)) (max_attempts m) (lockout_duration m) (saved m))).
Proof.
  unfold PairingManager.validate_token, PairingManager.hash_token.
  destruct (PairingManager.is_locked_out _ _ _); [by left|].
  pose proof (matched_idx_spec (sha256 token) (devices m) 0 None) as Hs.
  destruct (PairingManager.matched_idx _ _ _ _) as [k|]; [|destruct Hs as [_ Hs]; right; split; [done|by left]].
  destruct Hs as [?|(j & d & -> & Hj & Hh)]; [done|]. cbn [Nat.add]. rewrite Hj.
  right. split; [done|]. right. by exists j, d.
Qed.

(** *** Guesses *)

Section guesses.
Context (max secs : Z) (id : string) (Hmax : 0 ≤ max < u32_mod) (Hsecs : 0 ≤ secs).
Let D := secs * 1000000000.

(** When attempts of [id] were looked at. *)
Definition tries log : list Z := map started (filter (λ a, who a = id) log).

Definition since (t : Z) (ts : list Z) : list Z := filter (λ a, t < a) ts.

Lemma since_nil t ts : Forall (λ a, a ≤ t) ts → since t ts = [].
Proof.
  unfold since. induction 1 as [|a ts Ha _ IH]; [done|]. rewrite filter_cons_False by lia. done.
Qed.

Lemma since_shorter t t' ts : t ≤ t' → (length (since t' ts) ≤ length (since t ts))%nat.
Proof.
  intros Hle. unfold since. rewrite <- (list_filter_filter_l (λ a, t' < a) (λ a, t < a)) by lia.
  apply length_filter.
Qed.

(** What the entry of [id] says about its failures so far. *)
Definition entry_says (now : Z) (ts : list Z) (e : option LockoutEntry) : Prop :=
  match e with
  | None => Forall (λ a, a + D ≤ now) ts
  | Some (mkLockoutEntry _ (Some L)) => Forall (λ a, a + D ≤ L) ts
  | Some (mkLockoutEntry n None) =>
    0 ≤ n ∧ n < Z.max 1 max ∧ Z.of_nat (length (since (now - D) ts)) ≤ n
  end.

Definition lock_ok (now : Z) (s : PairingManager * list Attempt) : Prop :=
  let '(m, log) := s in
  max_attempts m = max ∧ lockout_duration m = D ∧ Forall (λ a, a ≤ now) (tries log) ∧
  entry_says now (tries log) (lockouts m !! id).

Lemma entry_says_later now now' ts e : now ≤ now' → entry_says now ts e → entry_says now' ts e.
Proof.
  intros Hle. destruct e as [[n [L|]]|]; cbn; [done| |].
  - intros (? & ? & Hc). split_and!; [done..|]. pose proof (since_shorter (now - D) (now' - D) ts). lia.
  - intros Hf. eapply Forall_impl; [exact Hf|cbn; lia].
Qed.

(** Entries only go when their lockout is over. *)
Lemma entry_says_pruned now t ts (l : gmap string LockoutEntry) :
  t ≤ now → entry_says now ts (l !! id) →
  entry_says now ts (filter (λ ie : string * LockoutEntry,
    match locked_until (snd ie) with Some L => t <? L | None => true end = true) l !! id).
Proof.
  intros Hle He. destruct (filter _ l !! id) as [e|] eqn:Hf.
  - apply map_lookup_filter_Some in Hf as [Hl _]. by rewrite Hl in He.
  - apply map_lookup_filter_None in Hf as [Hl|Hf]; [by rewrite Hl in He|].
    destruct (l !! id) as [[n [L|]]|] eqn:Hl; cbn in *; [|by destruct (Hf _ eq_refl)|done].
    specialize (Hf _ eq_refl). cbn in Hf. eapply Forall_impl; [exact He|cbn; lia].
Qed.

(** One more failure, looked at from [s] on. *)
Lemma entry_says_failed now ts e r :
  now ≤ at_lock_check r → ticks r → Forall (λ a, a ≤ now) ts → entry_says now ts e →
  match e with Some (mkLockoutEntry _ (Some L)) => L ≤ at_lock_check r | _ => True end →
  entry_says (at_deadline r) (ts ++ [at_lock_check r])
    (Some (PairingManager.fail_entry max D (default (mkLockoutEntry 0 None) e) r)).
Proof.
  intros Hnow (? & ? & ? & ?) Hts He Hunlocked.
  assert (∃ n, 0 ≤ n ∧ n < Z.max 1 max ∧
            (Z.of_nat (length (since (at_deadline r - D) ts)) ≤ n) ∧
            PairingManager.fail_entry max D (default (mkLockoutEntry 0 None) e) r =
            PairingManager.fail_entry max D (mkLockoutEntry n None) r) as (n & Hn & Hlt & Hc & ->).
  { destruct e as [[n [L|]]|]; cbn in *.
    - exists 0. split_and!; [lia..| |].
      + rewrite since_nil; [done|]. eapply Forall_impl; [exact He|cbn; lia].
      + unfold PairingManager.fail_entry. cbn. destruct (Z.leb_spec L (at_reset r)); [done|lia].
    - exists n. destruct He as (? & ? & Hc). split_and!; [done..| |done].
      pose proof (since_shorter (now - D) (at_deadline r - D) ts). lia.
    - exists 0. split_and!; [lia..| |done]. rewrite since_nil; [done|].
      eapply Forall_impl; [exact He|cbn; lia]. }
  unfold PairingManager.fail_entry. cbn [locked_until attempts].
  assert (wadd32 n 1 = n + 1) as ->.
  { unfold wadd32. apply Z.mod_small. unfold u32_mod in *. lia. }
  destruct (Z.leb_spec max (n + 1)); cbn [entry_says].
  - apply Forall_app. split; [eapply Forall_impl; [exact Hts|cbn; lia]|]. repeat constructor. lia.
  - split_and!; [lia..|]. unfold since. rewrite filter_app, length_app.
    fold (since (at_deadline r - D) ts). pose proof (length_filter (λ a, at_deadline r - D < a) [at_lock_check r]) as Hl.
    cbn [length] in Hl. lia.
Qed.

Lemma tries_snoc log a :
  tries (log ++ [a]) = if decide (who a = id) then tries log ++ [started a] else tries log.
Proof.
  unfold tries. rewrite filter_app, map_app. cbn. unfold filter. cbn.
  destruct (decide (who a = id)); cbn; [done|]. by rewrite app_nil_r.
Qed.

Lemma lock_ok_later now now' s : now ≤ now' → lock_ok now s → lock_ok now' s.
Proof.
  destruct s as [m log]. intros Hle (? & ? & Hf & ?). split_and!; [done..| |by eapply entry_says_later].
  eapply Forall_impl; [exact Hf|cbn; lia].
Qed.

(** Operations that leave the entry of [id] alone. *)
Lemma lock_ok_same now m log m' log' :
  max_attempts m' = max_attempts m → lockout_duration m' = lockout_duration m →
  lockouts m' !! id = lockouts m !! id → tries log' = tries log →
  lock_ok now (m, log) → lock_ok now (m', log').
Proof. intros H1 H2 H3 H4. unfold lock_ok. by rewrite H1, H2, H3, H4. Qed.

Lemma lock_ok_pruned now t m log :
  t ≤ now → lock_ok now (m, log) → lock_ok now (PairingManager.prune_expired_lockouts m t, log).
Proof.
  intros Hle (? & ? & ? & ?). split_and!; [done..|]. by apply entry_says_pruned.
Qed.

Lemma unlocked m t :
  PairingManager.is_locked_out m id t = false →
  match lockouts m !! id with Some (mkLockoutEntry _ (Some L)) => L ≤ t | _ => True end.
Proof.
  unfold PairingManager.is_locked_out. destruct (lockouts m !! id) as [[n [L|]]|]; cbn; [lia|done..].
Qed.

Lemma lock_ok_failed now m log id' r :
  now ≤ at_lock_check r → ticks r → PairingManager.is_locked_out m id' (at_lock_check r) = false →
  lock_ok now (m, log) →
  lock_ok (at_deadline r)
    (PairingManager.record_failed_attempt m id' r, log ++ [mkAttempt id' (at_lock_check r) false]).
Proof.
  intros Hnow Hr Hu Hok. pose proof Hr as (? & ? & ? & ?).
  unfold PairingManager.record_failed_attempt.
  set (m1 := if Nat.ltb _ _ then _ else m).
  assert (lock_ok (at_deadline r) (m1, log)) as Hok1.
  { unfold m1. destruct (Nat.ltb _ _); [apply lock_ok_pruned; [lia|]|];
      (eapply lock_ok_later; [|done]; lia). }
  destruct (decide (id' = id)) as [->|Hne].
  - assert (max_attempts m1 = max ∧ lockout_duration m1 = D) as [Hm HD] by (destruct Hok1; tauto).
    assert (lock_ok (at_lock_check r) (m, log)) as (_ & _ & Hts & He) by by eapply lock_ok_later.
    split_and!; [done..| |].
    + rewrite tries_snoc, decide_True by done. cbn [started]. apply Forall_app.
      split; [|repeat constructor; lia]. by destruct Hok1 as (_ & _ & ? & _).
    + rewrite tries_snoc, decide_True by done. cbn [started PairingManager.with_lockouts lockouts].
      rewrite lookup_insert_eq, Hm, HD.
      assert (entry_says (at_lock_check r) (tries log) (lockouts m1 !! id) ∧
              match lockouts m1 !! id with
              | Some (mkLockoutEntry _ (Some L)) => L ≤ at_lock_check r | _ => True end) as [He1 Hu1].
      { pose proof (unlocked m _ Hu) as Hu0. unfold m1. destruct (Nat.ltb _ _); [|done].
        cbn [PairingManager.prune_expired_lockouts PairingManager.with_lockouts lockouts].
        destruct (filter _ (lockouts m) !! id) as [e|] eqn:Hf.
        - apply map_lookup_filter_Some in Hf as [Hl _]. by rewrite Hl in He, Hu0.
        - split; [|done]. apply map_lookup_filter_None in Hf as [Hl|Hf]; [by rewrite Hl in He|].
          destruct (lockouts m !! id) as [[n [L|]]|] eqn:Hl; cbn in *; [|by destruct (Hf _ eq_refl)|done].
          eapply Forall_impl; [exact He|cbn; lia]. }
      by apply (entry_says_failed (at_lock_check r)); try done; lia.
  - eapply lock_ok_same; [..|exact Hok1]; [done..| |].
    + cbn. by rewrite lookup_insert_ne.
    + by rewrite tries_snoc, decide_False.
Qed.

Lemma lock_ok_cleared now m log id' t ds pc f :
  id' ≠ id → lock_ok now (m, log) →
  lock_ok now
    (mkPairingManager ds pc (delete id' (lockouts m)) (max_attempts m) (lockout_duration m) f,
     log ++ [mkAttempt id' t true]).
Proof.
  intros Hne. apply lock_ok_same; [done..| |].
  - cbn. by rewrite lookup_delete_ne.
  - by rewrite tries_snoc, decide_False.
Qed.

(** An attempt that is looked at now: there is room for one more failure. *)
Lemma room now m log :
  lock_ok now (m, log) → PairingManager.is_locked_out m id now = false →
  Z.of_nat (length (since (now - D) (tries log))) ≤ Z.max 1 max - 1.
Proof.
  intros (_ & _ & _ & He) Hu%unlocked. destruct (lockouts m !! id) as [[n [L|]]|]; cbn in He.
  - rewrite since_nil; [cbn; lia|]. eapply Forall_impl; [exact He|cbn; lia].
  - lia.
  - rewrite since_nil; [cbn; lia|]. eapply Forall_impl; [exact He|cbn; lia].
Qed.

(** The attempts looked at in the lockout time from [t] on. *)
Definition burst (t : Z) (ts : list Z) : list Z := filter (λ a, t ≤ a ∧ a < t + D) ts.

Definition no_success log : Prop := Forall (λ a, who a = id → accepted a = false) log.

Lemma burst_snoc now m log s t :
  now ≤ s → lock_ok now (m, log) → PairingManager.is_locked_out m id s = false →
  Z.of_nat (length (burst t (tries log))) ≤ Z.max 1 max →
  Z.of_nat (length (burst t (tries log ++ [s]))) ≤ Z.max 1 max.
Proof.
  intros Hle Hok Hu Hb. pose proof (room s m log ltac:(by eapply lock_ok_later) Hu) as Hr.
  unfold burst. rewrite filter_app, length_app. fold (burst t (tries log)).
  destruct (decide (t ≤ s ∧ s < t + D)) as [[H1 H2]|Hn].
  - rewrite filter_cons_True by done. cbn [length filter list_filter].
    assert (length (burst t (tries log)) ≤ length (since (s - D) (tries log)))%nat; [|lia].
    unfold burst, since. rewrite <- (list_filter_filter_l (λ a, t ≤ a ∧ a < t + D) (λ a, s - D < a)) by lia.
    apply length_filter.
  - rewrite filter_cons_False by done. cbn. lia.
Qed.

Lemma guesses_run start h now file t :
  clocked start h now → no_success (snd (pairing_run file max secs h)) →
  lock_ok now (pairing_run file max secs h) ∧
  Z.of_nat (length (burst t (tries (snd (pairing_run file max secs h))))) ≤ Z.max 1 max.
Proof.
  intros Hc. induction Hc as [|h op t0 t1 Hc IH Hfrom Hticks ->]; intros Hns.
  { split; [|cbn; lia]. split_and!; [done|done|constructor|]. cbn. rewrite lookup_empty. constructor. }
  rewrite pairing_run_snoc in *. destruct (pairing_run file max secs h) as [m log].
  cbn [snd] in IH.
  assert (no_success log) as Hlog.
  { unfold no_success in *. destruct op; cbn in Hns; [done| | |done..].
    - destruct (PairingManager.complete_pairing _ _ _ _ _ _ _ _ _). cbn [snd] in Hns.
      case_match; [done|]. by apply Forall_app in Hns as [? _].
    - destruct (PairingManager.validate_token _ _ _ _ _). cbn [snd] in Hns.
      case_match; [done|]. by apply Forall_app in Hns as [? _]. }
  destruct (IH Hlog) as [Hok Hb]. cbn [snd] in Hb.
  destruct op as [random now|input device id' token r writable|token id' r|device writable|now];
    cbn [op_from op_until pairing_step] in *.
  - split; [|done]. eapply lock_ok_later; [exact Hfrom|]. done.
  - pose proof (complete_cases m input device id' token r writable) as Hcase.
    destruct (PairingManager.complete_pairing _ _ _ _ _ _ _ _ _) as [res m'].
    destruct Hcase as [(-> & -> & ->)|(Hu & Hcase)]; [|rewrite Hu in *].
    + split; [|done]. eapply lock_ok_later; [|exact Hok]. destruct Hticks as (?&?&?&?). lia.
    + destruct Hcase as [[-> ->]|(-> & _ & f & -> & _)]; cbn [snd] in Hns |- *.
      * rewrite bool_decide_eq_false_2 by by intros [? ?]. split; [by eapply lock_ok_failed|].
        rewrite tries_snoc. cbn [who started]. destruct (decide (id' = id)) as [->|]; [|done].
        by eapply burst_snoc.
      * rewrite bool_decide_eq_true_2 in * by by eexists.
        apply Forall_app in Hns as [_ Hns]. rewrite Forall_singleton in Hns. cbn in Hns.
        assert (id' ≠ id) as Hne by (intros ->; by specialize (Hns eq_refl)).
        split; [|by rewrite tries_snoc, decide_False].
        apply lock_ok_cleared; [done|]. eapply lock_ok_later; [|exact Hok].
        destruct Hticks as (?&?&?&?). lia.
  - pose proof (validate_cases m token id' r) as Hcase.
    destruct (PairingManager.validate_token _ _ _ _ _) as [res m'].
    destruct Hcase as [(-> & -> & ->)|(Hu & Hcase)]; [|rewrite Hu in *].
    + split; [|done]. eapply lock_ok_later; [|exact Hok]. destruct Hticks as (?&?&?&?). lia.
    + destruct Hcase as [(-> & _ & ->)|(idx & d & _ & _ & -> & ->)]; cbn [snd] in Hns |- *.
      * rewrite bool_decide_eq_false_2 by by intros [? ?]. split; [by eapply lock_ok_failed|].
        rewrite tries_snoc. cbn [who started]. destruct (decide (id' = id)) as [->|]; [|done].
        by eapply burst_snoc.
      * rewrite bool_decide_eq_true_2 in * by by eexists.
        apply Forall_app in Hns as [_ Hns]. rewrite Forall_singleton in Hns. cbn in Hns.
        assert (id' ≠ id) as Hne by (intros ->; by specialize (Hns eq_refl)).
        split; [|by rewrite tries_snoc, decide_False].
        apply lock_ok_cleared; [done|]. eapply lock_ok_later; [|exact Hok].
        destruct Hticks as (?&?&?&?). lia.
  - split; [|done]. unfold PairingManager.revoke. cbn [snd]. by case_match; [destruct writable|].
  - split; [|done]. eapply lock_ok_pruned; [lia|]. by eapply lock_ok_later.
Qed.
End guesses.

(** *** Tokens *)

(** What a user knows: the token every device was given last, unless it was
    revoked, and the code that is open. *)
Record Known : Type := mkKnown {
  live : gmap string string;
  open_code : option (string * Z);
}.

Definition known_step (s : PairingManager * Known) op : PairingManager * Known :=
  let '(m, k) := s in
  let m' := fst (pairing_step (m, []) op) in
  match op with
  | Generate random now =>
    (m', mkKnown (live k) (Some (PairingManager.random_6_digit_code random, now + PAIRING_WINDOW)))
  | Complete input device id token r writable =>
    (m', match fst (PairingManager.complete_pairing sha256 to_json m input device id token r writable) with
         | Some t => mkKnown (<[device := t]> (live k)) None
         | None => k
         end)
  | Revoke device _ => (m', mkKnown (delete device (live k)) (open_code k))
  | Validate _ _ _ | Prune _ => (m', k)
  end.

Definition known_run (max secs : Z) h : PairingManager * Known :=
  foldl known_step (PairingManager.new from_json None max secs, mkKnown ∅ None) h.

Definition op_writable op : Prop :=
  match op with Complete _ _ _ _ _ w | Revoke _ w => w = true | _ => True end.

Definition credentials (ds : list PairedDevice) : list (string * string) :=
  map (λ d, (name d, token_hash d)) ds.

Lemma credentials_seen ds idx d t :
  ds !! idx = Some d →
  credentials (<[idx := mkPairedDevice (name d) (token_hash d) (paired_at d) t]> ds) = credentials ds.
Proof.
  intros Hd. unfold credentials. apply list_eq. intros i. rewrite !list_lookup_fmap.
  destruct (decide (i = idx)) as [->|Hne].
  - rewrite list_lookup_insert_eq by by eapply lookup_lt_Some. by rewrite Hd.
  - by rewrite list_lookup_insert_ne.
Qed.

Lemma credentials_kept ds device :
  credentials (filter (λ d, name d ≠ device) ds) = filter (λ c, fst c ≠ device) (credentials ds).
Proof.
  induction ds as [|d ds IH]; [done|]. rewrite filter_cons. unfold credentials. cbn [map].
  rewrite filter_cons. cbn [fst]. destruct (decide (name d ≠ device)); cbn; by f_equal.
Qed.

Lemma record_failed_same m id r :
  let m' := PairingManager.record_failed_attempt m id r in
  devices m' = devices m ∧ pending_code m' = pending_code m ∧ saved m' = saved m.
Proof. cbn. unfold PairingManager.record_failed_attempt. by case_match. Qed.

(** Validation leaves the credentials alone, and only accepts one of them. *)
Lemma validate_credentials m token id r :
  let '(res, m') := PairingManager.validate_token sha256 m token id r in
  credentials (devices m') = credentials (devices m) ∧
  ∀ n, res = Some n → (n, sha256 token) ∈ credentials (devices m).
Proof.
  pose proof (validate_cases m token id r) as Hcase.
  destruct (PairingManager.validate_token _ _ _ _ _) as [res m'].
  destruct Hcase as [(_ & -> & ->)|(_ & [(-> & _ & ->)|(idx & d & Hd & Hh & -> & ->)])]; [done|..].
  - by destruct (record_failed_same m id r) as (-> & _).
  - cbn [devices]. rewrite credentials_seen by done. split; [done|]. intros n [= <-].
    apply list_elem_of_fmap. exists d. rewrite Hh. split; [done|by eapply list_elem_of_lookup_2].
Qed.

(** The devices hold exactly the hashes of the live tokens, and so does the file. *)
Definition known_ok (written : Prop) (s : PairingManager * Known) : Prop :=
  let '(m, k) := s in
  (∀ n hash, (n, hash) ∈ credentials (devices m) ↔ ∃ t, live k !! n = Some t ∧ hash = sha256 t) ∧
  pending_code m = (λ c, mkPendingCode (fst c) (snd c)) <$> open_code k ∧
  (written →
   match saved m with
   | Some f => ∃ ds, f = to_json ds ∧ credentials ds = credentials (devices m)
   | None => devices m = []
   end).

Lemma known_step_ok (P : Prop) s op : (P → op_writable op) → known_ok P s → known_ok P (known_step s op).
Proof.
  destruct s as [m k]. intros Hw (Hc & Hp & Hs).
  destruct op as [random now|input device id token r writable|token id r|device writable|now];
    cbn [known_step pairing_step fst].
  - by split_and!.
  - pose proof (complete_cases m input device id token r writable) as Hcase.
    destruct (PairingManager.complete_pairing _ _ _ _ _ _ _ _ _) as [res m']. cbn [fst].
    destruct Hcase as [(_ & -> & ->)|(_ & [[-> ->]|(-> & _ & f & -> & Hf)])]; [by split_and!| |].
    + destruct (record_failed_same m id r) as (H1 & H2 & H3). unfold known_ok. by rewrite H1, H2, H3.
    + unfold known_ok. cbn [devices pending_code saved live open_code]. split_and!; [|done|].
      * intros n hash. unfold credentials at 1. rewrite map_app. fold (credentials (filter (λ d, name d ≠ device) (devices m))).
        rewrite credentials_kept, elem_of_app, list_elem_of_filter, Hc. cbn [map]. cbn.
        rewrite list_elem_of_singleton. setoid_rewrite lookup_insert_Some. naive_solver.
      * intros HP. rewrite (Hf (Hw HP)). by eexists.
  - pose proof (validate_cases m token id r) as Hcase.
    destruct (PairingManager.validate_token _ _ _ _ _) as [res m']. cbn [fst].
    destruct Hcase as [(_ & -> & ->)|(_ & [(-> & _ & ->)|(idx & d & Hd & _ & -> & ->)])]; [by split_and!| |].
    + destruct (record_failed_same m id r) as (H1 & H2 & H3). unfold known_ok. by rewrite H1, H2, H3.
    + unfold known_ok. cbn [devices pending_code saved]. rewrite credentials_seen by done.
      split_and!; [done..|]. intros HP. specialize (Hs HP). destruct (saved m); [done|].
      by rewrite Hs in Hd.
  - unfold PairingManager.revoke.
    set (kept := filter (λ d, name d ≠ device) (devices m)). cbn [snd].
    assert (∀ n hash, (n, hash) ∈ credentials kept ↔
              ∃ t, delete device (live k) !! n = Some t ∧ hash = sha256 t) as Hk.
    { intros n hash. unfold kept. rewrite credentials_kept, list_elem_of_filter, Hc. cbn [fst].
      setoid_rewrite lookup_delete_Some. naive_solver. }
    destruct (Nat.ltb_spec (length kept) (length (devices m))) as [Hlt|Hge].
    + destruct writable; (split_and!; [exact Hk|exact Hp|]); cbn [PairingManager.save_to_disk saved devices].
      * intros _. by eexists.
      * intros HP. by specialize (Hw HP).
    + split_and!; [exact Hk|exact Hp|]. cbn [saved devices]. intros HP.
      assert (kept = devices m) as ->; [|by apply Hs].
      unfold kept in *. clear -Hge. induction (devices m) as [|d ds IH]; [done|].
      rewrite filter_cons in *. pose proof (length_filter (λ d, name d ≠ device) ds).
      destruct (decide _); cbn [length] in Hge; [|lia]. f_equal. apply IH. lia.
  - by split_and!.
Qed.

Lemma known_run_ok max secs h : known_ok (Forall op_writable h) (known_run max secs h).
Proof.
  induction h as [|op h IH] using rev_ind.
  { split_and!; [|done|done]. intros n hash. cbn. rewrite elem_of_nil. setoid_rewrite lookup_empty. naive_solver. }
  unfold known_run. rewrite foldl_app. cbn [foldl]. apply known_step_ok.
  { intros Hf. apply Forall_app in Hf as [_ Hf]. by rewrite Forall_singleton in Hf. }
  destruct (foldl _ _ h) as [m k] eqn:E. unfold known_run in IH. rewrite E in IH.
  destruct IH as (? & ? & Hs). split_and!; [done..|]. intros Hf. apply Hs. by apply Forall_app in Hf as [? _].
Qed.
End histories.

(** C33: Guessing is slow. While an identifier is locked out nothing it sends is
    looked at or changes anything. Over any history that follows the clock in
    which an identifier has no success, at most [max_attempts] of its attempts
    (and always one) are looked at within any lockout time, whatever the others
    do, and although entries are pruned. *)
Theorem pairing_guesses_bounded (sha256 : string → string) to_json from_json file max secs id start h now :
  0 ≤ max < u32_mod → 0 ≤ secs → clocked start h now →
  (∀ m r input device token writable, PairingManager.is_locked_out m id (at_lock_check r) = true →
     PairingManager.complete_pairing sha256 to_json m input device id token r writable = (None, m) ∧
     PairingManager.validate_token sha256 m token id r = (None, m)) ∧
  let log := snd (pairing_run sha256 to_json from_json file max secs h) in
  (no_success id log → ∀ t, Z.of_nat (length (burst secs t (tries id log))) ≤ Z.max 1 max).
Proof.
  intros Hmax Hsecs Hc. split.
  - intros m r input device token writable Hl.
    unfold PairingManager.complete_pairing, PairingManager.validate_token. by rewrite Hl.
  - cbv zeta. intros Hns t.
    by destruct (guesses_run sha256 to_json from_json max secs id Hmax start h now file t Hc Hns).
Qed.

Lemma validated (sha256 : string → string) (l : gmap string string) m token id r :
  (∀ x y, sha256 x = sha256 y → x = y) →
  (∀ n hash, (n, hash) ∈ credentials (devices m) ↔ ∃ t, l !! n = Some t ∧ hash = sha256 t) →
  PairingManager.is_locked_out m id (at_lock_check r) = false →
  match fst (PairingManager.validate_token sha256 m token id r) with
  | Some n => l !! n = Some token
  | None => ∀ n, l !! n ≠ Some token
  end.
Proof.
  intros Hinj Hc Hu. pose proof (validate_cases sha256 m token id r) as Hcase.
  destruct (PairingManager.validate_token _ _ _ _ _) as [res m']. cbn [fst].
  destruct Hcase as [(? & _)|(_ & [(-> & Hno & _)|(idx & d & Hd & Hh & -> & _)])]; [congruence|..].
  - intros n Hn. assert ((n, sha256 token) ∈ credentials (devices m)) as Hin by (apply Hc; by eexists).
    apply list_elem_of_fmap in Hin as (d & [= -> Hh] & Hd). by eapply Forall_forall in Hno.
  - assert ((name d, token_hash d) ∈ credentials (devices m)) as Hin.
    { apply list_elem_of_fmap. exists d. split; [done|by eapply list_elem_of_lookup_2]. }
    apply Hc in Hin as (t & Ht & He). rewrite Hh in He. apply Hinj in He. by subst t.
Qed.

(** Who gets in. After any history from an empty file, a token is accepted
    for a device exactly when it is the one the device was given last and was
    not revoked since; a code pairs a device exactly when it was generated last,
    has not been used and is not older than five minutes. When every write
    succeeded, a manager that starts from the file accepts the same tokens. *)
Theorem pairing_tokens (sha256 : string → string) to_json from_json max secs h :
  (∀ x y, sha256 x = sha256 y → x = y) →
  let '(m, k) := known_run sha256 to_json from_json max secs h in
  (∀ token id r, PairingManager.is_locked_out m id (at_lock_check r) = false →
     match fst (PairingManager.validate_token sha256 m token id r) with
     | Some n => live k !! n = Some token
     | None => ∀ n, live k !! n ≠ Some token
     end) ∧
  (∀ input device id token r writable, PairingManager.is_locked_out m id (at_lock_check r) = false →
     fst (PairingManager.complete_pairing sha256 to_json m input device id token r writable) =
     match open_code k with
     | Some (c, e) => if String.eqb c input && (at_code_check r <? e) then Some token else None
     | None => None
     end) ∧
  (Forall op_writable h → (∀ ds, from_json (to_json ds) = Some ds) → ∀ max' secs' token id r,
     match fst (PairingManager.validate_token sha256
                  (PairingManager.new from_json (saved m) max' secs') token id r) with
     | Some n => live k !! n = Some token
     | None => ∀ n, live k !! n ≠ Some token
     end).
Proof.
  intros Hinj. pose proof (known_run_ok sha256 to_json from_json max secs h) as Hok.
  destruct (known_run _ _ _ _ _ h) as [m k]. destruct Hok as (Hc & Hp & Hs). split_and!.
  - intros token id r Hu. by apply validated.
  - intros input device id token r writable Hu.
    pose proof (complete_cases sha256 to_json m input device id token r writable) as Hcase.
    unfold PairingManager.complete_pairing, PairingManager.code_valid in *. rewrite Hu, Hp in *.
    destruct (open_code k) as [[c e]|]; cbn in *; [|done].
    destruct (String.eqb c input && _); done.
  - intros Hw Hjson max' secs' token id r. specialize (Hs Hw).
    apply validated; [done| |unfold PairingManager.is_locked_out; cbn; by rewrite lookup_empty].
    cbn [PairingManager.new devices]. unfold PairingManager.load_from_disk.
    destruct (saved m) as [f|]; [|by rewrite Hs in Hc]. destruct Hs as (ds & -> & He).
    by rewrite Hjson, <- He in *.
Qed.

(** ** Evaluation *)

Module Example_pairing.

Definition at_ (t : Z) : Readings := mkReadings t t t t t (t `div` 1000000000).
Definition sec (t : Z) : Z := t * 1000000000.

Definition paired : list PairingOp :=
  [Generate 1000007 0; Complete "000007" "phone" "x" "tok" (at_ (sec 10)) true].

Definition guesses : list PairingOp :=
  [Validate "a" "x" (at_ 0); Validate "b" "x" (at_ 1); Validate "c" "x" (at_ 2);
   Validate "d" "x" (at_ (sec 61))].

Lemma guesses_clocked : clocked 0 guesses (sec 61).
Proof.
  refine (clocked_snoc 0 [_; _; _] _ _ _ (clocked_snoc 0 [_; _] _ _ _ (clocked_snoc 0 [_] _ _ _
    (clocked_snoc 0 [] _ _ _ (clocked_nil 0) _ _ eq_refl) _ _ eq_refl) _ _ eq_refl) _ _ eq_refl);
    vm_compute; repeat split; congruence.
Qed.

Definition run (h : list PairingOp) : PairingManager * list Attempt :=
  pairing_run (λ t, "#" +:+ t) (λ _, "") (λ _, None) None 2 60 h.

(** The third guess is not looked at; the fourth comes after the lockout. *)
Example guesses_locked :
  map started (snd (run guesses)) = [0; 1; sec 61] ∧
  PairingManager.failed_attempts (fst (run guesses)) "x" = 1.
Proof. split; by_compute. Qed.

(** A code pairs one device. *)
Example code_used_once :
  let m := fst (run paired) in
  map name (devices m) = ["phone"] ∧
  fst (PairingManager.complete_pairing (λ t, "#" +:+ t) (λ _, "") m "000007" "other" "x" "tok2"
         (at_ (sec 11)) true) = None.
Proof. split; by_compute. Qed.
End Example_pairing.

Lemma pairing_guesses_bounded_witness :
  Z.of_nat (length (burst 60 0 (tries "x" (snd (Example_pairing.run Example_pairing.guesses))))) ≤
  Z.max 1 2.
Proof.
  destruct (pairing_guesses_bounded (λ t, "#" +:+ t) (λ _, "") (λ _, None) None 2 60 "x" 0
    Example_pairing.guesses (Example_pairing.sec 61)) as [_ H].
  - unfold u32_mod. lia.
  - lia.
  - exact Example_pairing.guesses_clocked.
  - apply H. repeat constructor; cbn; intros; reflexivity.
Defined.

Lemma pairing_tokens_witness :
  fst (PairingManager.validate_token (λ t, "#" +:+ t)
         (fst (known_run (λ t, "#" +:+ t) (λ _, "") (λ _, None) 2 60 Example_pairing.paired))
         "tok" "y" (Example_pairing.at_ (Example_pairing.sec 20))) = Some "phone" ∧
  live (snd (known_run (λ t, "#" +:+ t) (λ _, "") (λ _, None) 2 60 Example_pairing.paired))
    !! "phone" = Some "tok".
Proof.
  split; [vm_compute; reflexivity|].
  destruct (pairing_tokens (λ t, "#" +:+ t) (λ _, "") (λ _, None) 2 60 Example_pairing.paired) as (H & _).
  { intros x y E. by injection E. }
  exact (H "tok" "y" (Example_pairing.at_ (Example_pairing.sec 20)) eq_refl).
Defined.
