(* ===== verification/Admission.v ===== *)
(** Which inbound messages reach an agent: the loop of
    [ContainerAgentProxy::start] in src/src/gateway/container_agent.rs with its
    rate limit, its duplicate check and its pairing check, and the pairing check
    of [AgentLoop::start] in src/src/agent/loop.rs.

    Parsing an address is a parameter (the standard library's). The loop handles
    one message at a time up to the point where the agent takes it. *)

From S2P Require Import Prelude Bus RateLimit Pairing.

(** The readings of the clock of one message, in the order of the code. *)
Record Clock : Type := mkClock {
  at_rate : Z;
  at_dedup : Z;
  at_pairing : Readings;
}.

Inductive Verdict : Type :=
| Rejected (text : string)
| Skipped
| Processed.

Definition RATE_TEXT : string := "Rate limit exceeded. Please wait before sending another message.".
Definition DENIED_TEXT : string :=
  "Access denied: device not paired. Use `zeptoclaw pair new` to generate a pairing code.".

Section admission.
Context {IpAddr : Type} `{Countable IpAddr} `{MapOrder Z}.
Context (parse_ip : string → option IpAddr) (sha256 : string → string).
Implicit Types (msg : InboundMessage) (c : Clock).

Record ContainerAgentProxy : Type := mkContainerAgentProxy {
  rate_limiter : option (GatewayRateLimiter.t IpAddr);
  idempotency : IdempotencyStore;
  pairing : option PairingManager;
}.

Definition DEDUP_WINDOW : Z := 300 * 1000000000.
Definition MAX_TRACKED : nat := Z.to_nat 10000.
Definition RATE_WINDOW : Z := 60 * 1000000000.

Definition new (pair_per_min webhook_per_min : Z) (pairing : option PairingManager)
    : ContainerAgentProxy :=
  mkContainerAgentProxy
    (if (0 <? pair_per_min) || (0 <? webhook_per_min)
     then Some (GatewayRateLimiter.new pair_per_min webhook_per_min RATE_WINDOW) else None)
    (IdempotencyStore.new DEDUP_WINDOW MAX_TRACKED) pairing.

Definition source_ip msg : option IpAddr := metadata msg !! "source_ip" ≫= parse_ip.

Definition message_key msg : option string :=
  (λ msg_id, channel msg +:+ ":" +:+ msg_id) <$> metadata msg !! "message_id".

Definition check_rate (p : ContainerAgentProxy) msg (now : Z) : bool * ContainerAgentProxy :=
  match rate_limiter p, source_ip msg with
  | Some limiter, Some ip =>
    let '(ok, limiter) := GatewayRateLimiter.check_webhook limiter ip now in
    (ok, mkContainerAgentProxy (Some limiter) (idempotency p) (pairing p))
  | _, _ => (true, p)
  end.

Definition check_duplicate (p : ContainerAgentProxy) msg (now : Z) : bool * ContainerAgentProxy :=
  match message_key msg with
  | Some key =>
    let '(new, store) := IdempotencyStore.check_and_record (idempotency p) key now in
    (new, mkContainerAgentProxy (rate_limiter p) store (pairing p))
  | None => (true, p)
  end.

(** The pairing check; the agent loop makes the same one. *)
Definition check_paired (pairing : option PairingManager) msg (r : Readings)
    : bool * option PairingManager :=
  match pairing with
  | None => (true, None)
  | Some mgr =>
    match metadata msg !! "auth_token" with
    | Some raw_token =>
      let '(device, mgr) := PairingManager.validate_token sha256 mgr raw_token (sender_id msg) r in
      (bool_decide (is_Some device), Some mgr)
    | None => (false, Some mgr)
    end
  end.

Definition admit_message (p : ContainerAgentProxy) msg c : Verdict * ContainerAgentProxy :=
  let '(allowed, p) := check_rate p msg (at_rate c) in
  if negb allowed then (Rejected RATE_TEXT, p)
  else
    let '(new, p) := check_duplicate p msg (at_dedup c) in
    if negb new then (Skipped, p)
    else
      let '(valid, pairing') := check_paired (pairing p) msg (at_pairing c) in
      let p := mkContainerAgentProxy (rate_limiter p) (idempotency p) pairing' in
      if negb valid then (Rejected DENIED_TEXT, p) else (Processed, p).

(** [AgentLoop::start]. *)
Definition agent_admit (pairing : option PairingManager) msg (r : Readings)
    : Verdict * option PairingManager :=
  let '(valid, pairing) := check_paired pairing msg r in
  if negb valid then (Rejected DENIED_TEXT, pairing) else (Processed, pairing).

(** *** Histories *)

(** The proxy after the messages [h], and the messages that were processed. *)
Definition admit_step (s : ContainerAgentProxy * list (InboundMessage * Clock))
    (mc : InboundMessage * Clock) : ContainerAgentProxy * list (InboundMessage * Clock) :=
  let '(p, done) := s in
  let '(v, p) := admit_message p (fst mc) (snd mc) in
  (p, match v with Processed => done ++ [mc] | _ => done end).

Definition admit_run (p : ContainerAgentProxy) (h : list (InboundMessage * Clock))
    : ContainerAgentProxy * list (InboundMessage * Clock) :=
  foldl admit_step (p, []) h.

(** The requests the rate limiter counts, and the messages with a key. *)
Definition rate_op (mc : InboundMessage * Clock) : option LimiterOp :=
  (λ ip, Request ip (at_rate (snd mc))) <$> source_ip (fst mc).
Definition keyed (mc : InboundMessage * Clock) : option (string * Z) :=
  (λ key, (key, at_dedup (snd mc))) <$> message_key (fst mc).

Definition in_clock_order (h : list (InboundMessage * Clock)) : Prop :=
  StronglySorted Z.le (map (λ mc, at_rate (snd mc)) h) ∧
  StronglySorted Z.le (map (λ mc, at_dedup (snd mc)) h).

Lemma store_run_fresh ttl max h : sublist (snd (store_run ttl max h)) h.
Proof.
  induction h as [|m h IH] using rev_ind; [done|]. rewrite store_run_snoc. unfold store_step.
  destruct (IdempotencyStore.check_and_record _ _ _) as [[] store]; cbn [snd].
  - by apply sublist_app.
  - by apply sublist_inserts_r.
Qed.

Section invariant.
Context (pair_per_min L : Z) (mgr0 : option PairingManager).
Implicit Types (p : ContainerAgentProxy) (h done : list (InboundMessage * Clock)).

Definition timed (mc : InboundMessage * Clock) : option (IpAddr * Z) :=
  (λ ip, (ip, at_rate (snd mc))) <$> source_ip (fst mc).

(** The webhook limiter has seen the requests of the history, and every
    processed message is one that it let through. *)
Definition rate_ok h p done : Prop :=
  match rate_limiter p with
  | Some limiter =>
    let run := limiter_run L RATE_WINDOW (omap rate_op h) in
    GatewayRateLimiter.webhook limiter = fst run ∧ sublist (omap timed done) (snd run)
  | None => L ≤ 0
  end.

Lemma check_rate_spec h p done mc :
  rate_ok h p done →
  let '(allowed, p1) := check_rate p (fst mc) (at_rate (snd mc)) in
  idempotency p1 = idempotency p ∧ pairing p1 = pairing p ∧
  rate_ok (h ++ [mc]) p1 (if allowed then done ++ [mc] else done) ∧ rate_ok (h ++ [mc]) p1 done.
Proof.
  unfold rate_ok, check_rate, timed, rate_op. rewrite !omap_app. cbn [omap list_omap].
  destruct (rate_limiter p) as [limiter|] eqn:Hl.
  2: { intros Hle. rewrite Hl. done. }
  intros [Hw Hs]. destruct (source_ip (fst mc)) as [ip|] eqn:Hip; cbn.
  - unfold GatewayRateLimiter.check_webhook. rewrite Hw. unfold limiter_run. rewrite foldl_app.
    fold (limiter_run L RATE_WINDOW (omap (λ mc, (λ ip, Request ip (at_rate (snd mc))) <$> source_ip (fst mc)) h)) in *.
    cbn [foldl]. destruct (limiter_run L RATE_WINDOW _) as [l adm]. cbn [fst snd limiter_step] in *.
    destruct (SlidingWindowRateLimiter.check l ip _) as [[] l']; cbn; [|done].
    split_and!; [done..| |done|by apply sublist_inserts_r].
    rewrite omap_app. cbn. rewrite Hip. cbn. by apply sublist_app.
  - rewrite Hl, !app_nil_r, omap_app. cbn. rewrite Hip, app_nil_r. done.
Qed.

Lemma rates_in_order h :
  StronglySorted Z.le (map (λ mc, at_rate (snd mc)) h) → in_order (omap rate_op h).
Proof.
  apply sublist_sorted. induction h as [|mc h IH]; [constructor|]. cbn.
  unfold rate_op at 1. destruct (source_ip (fst mc)); cbn; by constructor.
Qed.

(** The store has seen the keyed messages that passed the rate limit, and took
    every processed one for new. *)
Definition dedup_ok h p done : Prop :=
  ∃ passed, sublist passed (omap keyed h) ∧
    idempotency p = fst (store_run DEDUP_WINDOW MAX_TRACKED passed) ∧
    ∀ mc key, mc ∈ done → message_key (fst mc) = Some key →
      (key, at_dedup (snd mc)) ∈ snd (store_run DEDUP_WINDOW MAX_TRACKED passed).

(** Two processed messages with one key are five minutes apart, or many others
    came between them. *)
Definition apart h (x y : InboundMessage * Clock) : Prop :=
  ∀ key, message_key (fst x) = Some key → message_key (fst y) = Some key →
    DEDUP_WINDOW ≤ at_dedup (snd y) - at_dedup (snd x) ∨
    (MAX_TRACKED ≤ length (others (omap keyed h) key (at_dedup (snd x))))%nat.

Lemma others_mono l1 l2 key t : sublist l1 l2 → (length (others l1 key t) ≤ length (others l2 key t))%nat.
Proof. intros Hs. by apply sublist_length, sublist_filter_mono. Qed.

Lemma keyed_in_order h :
  StronglySorted Z.le (map (λ mc, at_dedup (snd mc)) h) → StronglySorted Z.le (map snd (omap keyed h)).
Proof.
  apply sublist_sorted. induction h as [|mc h IH]; [constructor|]. cbn.
  unfold keyed at 1. destruct (message_key (fst mc)); cbn; by constructor.
Qed.

Lemma check_duplicate_spec h p done mc :
  StronglySorted Z.le (map (λ mc, at_dedup (snd mc)) (h ++ [mc])) → dedup_ok h p done →
  let '(new, p1) := check_duplicate p (fst mc) (at_dedup (snd mc)) in
  rate_limiter p1 = rate_limiter p ∧ pairing p1 = pairing p ∧
  (∀ done', (∀ x, x ∈ done' → x ∈ done ∨ x = mc ∧ new = true) → dedup_ok (h ++ [mc]) p1 done') ∧
  (new = true → ∀ x, x ∈ done → apart h x mc).
Proof.
  intros Ho (passed & Hsub & Hi & Hin). unfold check_duplicate.
  destruct (message_key (fst mc)) as [key|] eqn:Hk.
  2: { split_and!; [done|done| |].
       - intros done' Hd. exists passed. split_and!; [|done|].
         + rewrite omap_app. by apply sublist_inserts_r.
         + intros x key Hx Hxk. destruct (Hd x Hx) as [Hx'|[-> _]]; [by apply Hin|congruence].
       - intros _ x Hx key _ Hkey. congruence. }
  assert (store_ok DEDUP_WINDOW MAX_TRACKED (at_dedup (snd mc)) (store_run DEDUP_WINDOW MAX_TRACKED passed)) as Hok.
  { rewrite map_app in Ho. apply store_run_ok; [done| |].
    - eapply sublist_sorted; [by apply sublist_map_mono|]. apply keyed_in_order.
      by eapply StronglySorted_app_1_l.
    - apply Forall_forall. intros [k t] Hkt. eapply sublist_elem in Hkt; [|done].
      apply list_elem_of_omap in Hkt as (x & Hx & Hkx). unfold keyed in Hkx.
      apply fmap_Some in Hkx as (k' & _ & [= -> ->]). cbn.
      eapply (StronglySorted_app_1_elem_of _ _ _ _ _ Ho); [|by apply list_elem_of_singleton].
      apply (list_elem_of_fmap_2 (λ mc, at_dedup (snd mc)) h x Hx). }
  destruct (IdempotencyStore.check_and_record (idempotency p) key (at_dedup (snd mc))) as [new store] eqn:Hc.
  split_and!; [done|done| |].
  - intros done' Hd. exists (passed ++ [(key, at_dedup (snd mc))]).
    rewrite store_run_snoc. unfold store_step. cbn [fst snd]. rewrite <- Hi, Hc. split_and!.
    + rewrite omap_app. cbn. unfold keyed at 2. rewrite Hk. cbn. by apply sublist_app.
    + done.
    + intros x key' Hx Hxk. destruct (Hd x Hx) as [Hx'|[-> ->]].
      * specialize (Hin x key' Hx' Hxk). cbn. destruct new; [apply elem_of_app; by left|done].
      * rewrite Hk in Hxk. injection Hxk as <-. cbn. apply elem_of_app. right. by apply list_elem_of_singleton.
  - intros -> x Hx key' Hxk Hmk. rewrite Hk in Hmk. injection Hmk as <-.
    specialize (Hin x key Hx Hxk).
    destruct (Z.le_gt_cases DEDUP_WINDOW (at_dedup (snd mc) - at_dedup (snd x))) as [|Hlt]; [by left|right].
    destruct (store_run DEDUP_WINDOW MAX_TRACKED passed) as [st fresh] eqn:Hrun. cbn [fst snd] in *.
    destruct (Nat.le_gt_cases MAX_TRACKED (length (others fresh key (at_dedup (snd x))))) as [Hm|Hfew].
    + etrans; [exact Hm|]. apply others_mono. etrans; [|exact Hsub].
      pose proof (store_run_fresh DEDUP_WINDOW MAX_TRACKED passed) as Hf. by rewrite Hrun in Hf.
    + pose proof (duplicate_refused _ _ _ _ _ _ _ Hok Hin ltac:(lia) Hfew) as Hd.
      rewrite <- Hi, Hc in Hd. done.
Qed.

(** With pairing on, every processed message carried the token of a device. *)
Definition carries_token (m0 : PairingManager) (mc : InboundMessage * Clock) : Prop :=
  ∃ token device, metadata (fst mc) !! "auth_token" = Some token ∧
    (device, sha256 token) ∈ credentials (devices m0).

Definition pairing_ok p done : Prop :=
  match mgr0 with
  | None => pairing p = None
  | Some m0 => (∃ m, pairing p = Some m ∧ credentials (devices m) = credentials (devices m0)) ∧
               Forall (carries_token m0) done
  end.

Lemma check_paired_spec p done mc :
  pairing_ok p done →
  let '(valid, pairing') := check_paired (pairing p) (fst mc) (at_pairing (snd mc)) in
  ∀ l s done', done' = (if valid then done ++ [mc] else done) ∨ done' = done →
    pairing_ok (mkContainerAgentProxy l s pairing') done'.
Proof.
  unfold pairing_ok, check_paired. destruct mgr0 as [m0|]; [|by intros ->].
  intros [(m & -> & Hm) Hd]. destruct (metadata (fst mc) !! "auth_token") as [token|] eqn:Ht.
  2: { intros l s done' Hdone. split; [by exists m|]. by destruct Hdone as [->| ->]. }
  pose proof (validate_credentials sha256 m token (sender_id (fst mc)) (at_pairing (snd mc))) as Hv.
  destruct (PairingManager.validate_token _ _ _ _ _) as [res m']. destruct Hv as [Hc Hv].
  intros l s done' Hdone. split; [exists m'; split; [done|congruence]|].
  destruct res as [device|]; cbn in Hdone; [|by destruct Hdone as [->| ->]].
  destruct Hdone as [->| ->]; [|done]. apply Forall_app. split; [done|]. apply Forall_singleton.
  exists token, device. split; [done|]. rewrite <- Hm. by apply Hv.
Qed.

(** Processed messages are pairwise apart. *)
Definition all_apart h done : Prop :=
  ∀ i j x y, (i < j)%nat → done !! i = Some x → done !! j = Some y → apart h x y.

Lemma apart_mono h mc x y : apart h x y → apart (h ++ [mc]) x y.
Proof.
  intros Ha key Hx Hy. destruct (Ha key Hx Hy) as [|Hm]; [by left|right]. etrans; [exact Hm|].
  apply others_mono. rewrite omap_app. by apply sublist_inserts_r.
Qed.

Lemma all_apart_snoc h done mc b :
  all_apart h done → (b = true → ∀ x, x ∈ done → apart h x mc) →
  all_apart (h ++ [mc]) (if b then done ++ [mc] else done).
Proof.
  intros Ha Hnew. destruct b; intros i j x y Hij Hx Hy; [|by apply apart_mono; eapply Ha].
  apply apart_mono. apply lookup_snoc_Some in Hx as [[Hi Hx]|[-> ->]].
  - apply lookup_snoc_Some in Hy as [[Hj Hy]|[-> <-]]; [by apply (Ha i j x y)|].
    apply Hnew; [done|by eapply list_elem_of_lookup_2].
  - apply lookup_snoc_Some in Hy as [[Hj Hy]|[-> <-]]; lia.
Qed.

Lemma admit_run_ok h :
  StronglySorted Z.le (map (λ mc, at_dedup (snd mc)) h) →
  let '(p, done) := admit_run (new pair_per_min L mgr0) h in
  rate_ok h p done ∧ dedup_ok h p done ∧ pairing_ok p done ∧ all_apart h done.
Proof.
  induction h as [|mc h IH] using rev_ind; intros Ho.
  { split_and!.
    - unfold rate_ok, new. cbn. destruct (Z.ltb_spec 0 pair_per_min), (Z.ltb_spec 0 L); cbn; try done; lia.
    - exists []. split_and!; [done|done|]. by intros mc key ?%elem_of_nil.
    - unfold pairing_ok. cbn. destruct mgr0; [|done]. split; [by eexists|constructor].
    - intros i j x y _. by rewrite lookup_nil. }
  unfold admit_run. rewrite foldl_app. cbn [foldl]. fold (admit_run (new pair_per_min L mgr0) h).
  assert (StronglySorted Z.le (map (λ mc, at_dedup (snd mc)) h)) as Hoh.
  { rewrite map_app in Ho. by eapply StronglySorted_app_1_l. }
  specialize (IH Hoh). destruct (admit_run _ h) as [p done]. destruct IH as (Hr & Hd & Hp & Ha).
  unfold admit_step, admit_message.
  pose proof (check_rate_spec h p done mc Hr) as Hrate.
  destruct (check_rate p (fst mc) (at_rate (snd mc))) as [allowed p1].
  destruct Hrate as (Hid1 & Hpa1 & Hr1 & Hr1').
  assert (dedup_ok h p1 done) as Hd1 by (destruct Hd as (passed & ?); exists passed; by rewrite Hid1).
  assert (pairing_ok p1 done) as Hp1 by (unfold pairing_ok in *; by rewrite Hpa1).
  destruct allowed; cbn [negb].
  2: { split_and!; [done| |done|by apply (all_apart_snoc h done mc false)].
       destruct Hd1 as (passed & Hs & Hi & Hin). exists passed. split_and!; [|done|done].
       rewrite omap_app. by apply sublist_inserts_r. }
  pose proof (check_duplicate_spec h p1 done mc Ho Hd1) as Hdup.
  destruct (check_duplicate p1 (fst mc) (at_dedup (snd mc))) as [fresh p2].
  destruct Hdup as (Hl2 & Hpa2 & Hd2 & Hap).
  assert (pairing_ok p2 done) as Hp2 by (unfold pairing_ok in *; by rewrite Hpa2).
  destruct fresh; cbn [negb].
  2: { split_and!; [unfold rate_ok in *; by rewrite Hl2|apply Hd2; by left|done|].
       by apply (all_apart_snoc h done mc false). }
  pose proof (check_paired_spec p2 done mc Hp2) as Hpair.
  destruct (check_paired (pairing p2) (fst mc) (at_pairing (snd mc))) as [valid pairing'].
  destruct valid; cbn [negb].
  - split_and!; [unfold rate_ok in *; cbn; by rewrite Hl2| |apply Hpair; by left|].
    + destruct (Hd2 (done ++ [mc])) as (passed & ?); [|by exists passed].
      intros x. rewrite elem_of_app, list_elem_of_singleton. naive_solver.
    + apply (all_apart_snoc h done mc true); [done|]. intros _. by apply Hap.
  - split_and!; [unfold rate_ok in *; cbn; by rewrite Hl2| |apply Hpair; by right|].
    + destruct (Hd2 done) as (passed & ?); [by left|by exists passed].
    + by apply (all_apart_snoc h done mc false).
Qed.

(** The processed messages of an address in a window are among the requests
    that its limiter let through in it. *)
Lemma admitted_count done adm ip (t : Z) :
  sublist (omap timed done) adm →
  (length (filter (λ mc, source_ip (fst mc) = Some ip ∧
     (t - RATE_WINDOW < at_rate (snd mc) ∧ at_rate (snd mc) ≤ t)%Z) done) ≤
   length (within RATE_WINDOW t (admitted ip adm)))%nat.
Proof.
  intros Hs. etrans.
  2: { apply sublist_length, sublist_filter_mono, sublist_map_mono, sublist_filter_mono. exact Hs. }
  apply Nat.eq_le_incl. clear Hs. induction done as [|mc done IH]; [done|]. cbn [omap list_omap].
  unfold timed at 1. destruct (source_ip (fst mc)) as [ip'|] eqn:Hip; cbn.
  - destruct (decide (ip' = ip)) as [->|Hne]; [|by rewrite decide_False by naive_solver].
    cbn [map snd]. rewrite (filter_cons _ (at_rate (snd mc))).
    destruct (decide (t - RATE_WINDOW < at_rate (snd mc) ∧ at_rate (snd mc) ≤ t)%Z) as [Hw|Hw].
    + rewrite decide_True by done. cbn [length]. f_equal. apply IH.
    + rewrite decide_False by naive_solver. apply IH.
  - rewrite decide_False by naive_solver. apply IH.
Qed.
End invariant.
End admission.
Arguments ContainerAgentProxy _ {_ _}.

(** The messages a containerised gateway lets through to its agents, for any
    sequence of messages in the order of the clock. With a rate limit, no minute
    holds more processed messages of one address than the limit. Two processed
    messages of a channel with one identifier are five minutes apart, unless
    10,000 others with an identifier came from the first one on. With pairing
    on, every processed message carried the token of a paired device. *)
Theorem admitted_messages {IpAddr : Type} `{Countable IpAddr} `{MapOrder Z}
    (parse_ip : string → option IpAddr) sha256 pair_per_min L mgr0 h :
  in_clock_order h →
  let '(p, done) := admit_run parse_ip sha256 (new pair_per_min L mgr0) h in
  (0 < L → ∀ ip t,
     Z.of_nat (length (filter (λ mc, source_ip parse_ip (fst mc) = Some ip ∧
       t - RATE_WINDOW < at_rate (snd mc) ∧ at_rate (snd mc) ≤ t) done)) ≤ L) ∧
  (∀ i j x y key, (i < j)%nat → done !! i = Some x → done !! j = Some y →
     message_key (fst x) = Some key → message_key (fst y) = Some key →
     DEDUP_WINDOW ≤ at_dedup (snd y) - at_dedup (snd x) ∨
     (MAX_TRACKED ≤ length (others (omap keyed h) key (at_dedup (snd x))))%nat) ∧
  match mgr0 with
  | Some m0 => Forall (carries_token sha256 m0) done
  | None => True
  end.
Proof.
  intros [Hor Hod]. pose proof (admit_run_ok parse_ip sha256 pair_per_min L mgr0 h Hod) as Hok.
  destruct (admit_run _ _ _ h) as [p done]. destruct Hok as (Hr & _ & Hp & Ha). split_and!.
  - intros HL ip t. unfold rate_ok in Hr. destruct (rate_limiter p); [|lia]. destruct Hr as [_ Hs].
    etrans; [|apply (limiter_bound L RATE_WINDOW (omap (rate_op parse_ip) h) ip t); [done|done|]].
    + apply inj_le. by apply admitted_count.
    + by apply rates_in_order.
  - intros i j x y key Hij Hx Hy Hkx Hky. by apply (Ha i j x y).
  - destruct mgr0; [by destruct Hp|done].
Qed.

(** ** Evaluation *)

Module Example_admission.

Definition mail (ip msg_id : string) (t : Z) : InboundMessage * Clock :=
  (InboundMessage.with_metadata
     (InboundMessage.with_metadata (InboundMessage.new "webhook" "sender" "chat" "Hello")
        "message_id" msg_id) "source_ip" ip,
   mkClock t t (Example_pairing.at_ t)).

Definition inbox : list (InboundMessage * Clock) :=
  [mail "a" "1" 1; mail "a" "1" 2; mail "a" "2" 3; mail "b" "3" 4; mail "a" "4" 5].

Definition run (pairing : option PairingManager) :=
  admit_run (IpAddr := string) Some (λ t, t) (new 0 3 pairing) inbox.

(** The second is a duplicate, the last one over the limit. *)
Example delivered : map (λ mc, at_rate (snd mc)) (snd (run None)) = [1; 3; 4].
Proof. by_compute. Qed.

(** With pairing on and no device, nothing is. *)
Example unpaired : snd (run (Some (PairingManager.new (λ _, None) None 5 60))) = [].
Proof. by_compute. Qed.
End Example_admission.

Lemma admitted_messages_witness :
  Z.of_nat (length (filter (λ mc, source_ip Some (fst mc) = Some "a" ∧
    5 - RATE_WINDOW < at_rate (snd mc) ∧ at_rate (snd mc) ≤ 5)
    (snd (Example_admission.run None)))) ≤ 3.
Proof.
  pose proof (admitted_messages (IpAddr := string) Some (λ t, t) 0 3 None Example_admission.inbox) as H.
  assert (in_clock_order Example_admission.inbox) as Ho
    by (split; repeat constructor; cbn; lia).
  specialize (H Ho). unfold Example_admission.run.
  destruct (admit_run _ _ _ _) as [p done]. destruct H as (H & _). apply H. lia.
Defined.
