(* ===== verification/Startup.v ===== *)
(** The startup guard of a gateway: src/src/gateway/startup_guard.rs, and its
    use in [cmd_gateway] of src/src/cli/gateway.rs.

    The file is the only state. JSON is a parameter; whether the file can be read
    and written is the environment's decision and part of every operation. *)

From S2P Require Import Prelude Text Errors.

Record CrashState : Type := mkCrashState {
  consecutive_crashes : Z;
  last_crash_ts : Z;
  total_crashes : Z;
}.

Definition CrashState_default : CrashState := mkCrashState 0 0 0.

Record StartupGuard : Type := mkStartupGuard {
  threshold : Z;
  window_secs : Z;
}.

(** What the file system does for one operation; an error is its message. *)
Record Disk : Type := mkDisk {
  read_error : option string;
  write_error : option string;
}.

Module StartupGuard.
Section methods.
Context (to_json : CrashState → string) (from_json : string → option CrashState).
Implicit Types (self : StartupGuard) (file : option string) (d : Disk).

Definition load_state file d : result ZeptoError CrashState :=
  match file with
  | None => Ok CrashState_default
  | Some content =>
    match read_error d with
    | Some e => Err (Errors.Io e)
    | None => Ok (default CrashState_default (from_json content))
    end
  end.

Definition save_state file d (state : CrashState) : result ZeptoError unit * option string :=
  match write_error d with
  | Some e => (Err (Errors.Io e), file)
  | None => (Ok tt, Some (to_json state))
  end.

Definition check self file d (now : Z) : result ZeptoError bool :=
  if threshold self =? 0 then Ok false
  else
    match load_state file d with
    | Err e => Err e
    | Ok state =>
      if consecutive_crashes state <? threshold self then Ok false
      else if window_secs self <? sat_sub now (last_crash_ts state) then Ok false
      else Ok true
    end.

Definition record_crash self file d (now : Z) : result ZeptoError CrashState * option string :=
  match load_state file d with
  | Err e => (Err e, file)
  | Ok state =>
    let consecutive :=
      if (0 <? last_crash_ts state) && (window_secs self <? sat_sub now (last_crash_ts state))
      then 0 else consecutive_crashes state in
    let state := mkCrashState (wadd32 consecutive 1) now (wadd32 (total_crashes state) 1) in
    match save_state file d state with
    | (Ok _, file) => (Ok state, file)
    | (Err e, file) => (Err e, file)
    end
  end.

Definition record_clean_start file d : result ZeptoError unit * option string :=
  match load_state file d with
  | Err e => (Err e, file)
  | Ok state => save_state file d (mkCrashState 0 0 (total_crashes state))
  end.
End methods.
End StartupGuard.

(** *** The use of the guard in [cmd_gateway] *)

Section gateway.
Context (to_json : CrashState → string) (from_json : string → option CrashState).
Implicit Types (self : StartupGuard) (file : option string).

(** The tools that are denied in degraded mode. *)
Definition degraded_deny : list string := ["shell"; "write_file"; "edit_file"].

(** The beginning of [cmd_gateway]: what is denied. Errors are logged. *)
Definition startup_deny self file d now (deny : list string) : list string :=
  match StartupGuard.check from_json self file d now with
  | Ok true => degraded_deny
  | _ => deny
  end.

Inductive GuardOp : Type :=
| Crash (now : Z) (d : Disk)
| CleanStart (d : Disk).

Definition guard_step self file (op : GuardOp) : option string :=
  match op with
  | Crash now d => snd (StartupGuard.record_crash to_json from_json self file d now)
  | CleanStart d => snd (StartupGuard.record_clean_start to_json from_json file d)
  end.

Definition guard_run self (h : list GuardOp) : option string := foldl (guard_step self) None h.

Definition works (d : Disk) : Prop := read_error d = None ∧ write_error d = None.

(** The crashes in a row at the end of a history, the last first: none since a
    clean start, and no two further apart than the window. *)
Fixpoint streak (window : Z) (rh : list GuardOp) : list Z :=
  match rh with
  | [] | CleanStart _ :: _ => []
  | Crash now _ :: rh =>
    now :: match streak window rh with
           | prev :: rest => if window <? sat_sub now prev then [] else prev :: rest
           | [] => []
           end
  end.

Fixpoint crashes (h : list GuardOp) : nat :=
  match h with [] => 0 | Crash _ _ :: h => S (crashes h) | CleanStart _ :: h => crashes h end.

Definition sane (h : list GuardOp) : Prop :=
  Forall (λ op, match op with Crash now d => 0 < now ∧ works d | CleanStart d => works d end) h ∧
  Z.of_nat (length h) < u32_mod.

Definition state_of (file : option string) : CrashState :=
  match file with Some f => default CrashState_default (from_json f) | None => CrashState_default end.

Lemma streak_length window rh : (length (streak window rh) ≤ length rh)%nat.
Proof.
  induction rh as [|[now d|d] rh IH]; cbn [streak length]; [lia| |lia].
  destruct (streak window rh) as [|prev rest]; cbn [length] in *; [lia|]. case_match; cbn [length]; lia.
Qed.

Lemma crashes_app h1 h2 : crashes (h1 ++ h2) = (crashes h1 + crashes h2)%nat.
Proof. induction h1 as [|[] h1 IH]; cbn; lia. Qed.

Lemma crashes_length h : (crashes h ≤ length h)%nat.
Proof. induction h as [|[] h IH]; cbn; lia. Qed.

(** The file says how many crashes there were in a row, when the last one was,
    and how many there ever were. *)
Lemma guard_run_state self h :
  (∀ s, from_json (to_json s) = Some s) → sane h →
  state_of (guard_run self h) =
    mkCrashState (Z.of_nat (length (streak (window_secs self) (reverse h))))
      (match streak (window_secs self) (reverse h) with t :: _ => t | [] => 0 end)
      (Z.of_nat (crashes h)) ∧
  (∀ t, t ∈ streak (window_secs self) (reverse h) → 0 < t).
Proof.
  intros Hjson. induction h as [|op h IH] using rev_ind; intros [Hf Hlen]; [split; [done|by intros ? ?%elem_of_nil]|].
  apply Forall_app in Hf as [Hf Hop]. rewrite Forall_singleton in Hop.
  rewrite length_app in Hlen. cbn [length] in Hlen.
  destruct IH as [IH Hpos]; [by split; [|lia]|].
  unfold guard_run. rewrite foldl_app. cbn [foldl]. fold (guard_run self h).
  rewrite reverse_app. cbn [reverse rev_append app]. rewrite crashes_app.
  assert (∀ d, works d → StartupGuard.load_state from_json (guard_run self h) d = Ok (state_of (guard_run self h))) as Hload.
  { intros d [Hr _]. unfold StartupGuard.load_state, state_of. by destruct (guard_run self h); [rewrite Hr|]. }
  pose proof (streak_length (window_secs self) (reverse h)) as Hsl. rewrite length_reverse in Hsl.
  pose proof (crashes_length h) as Hcl.
  destruct op as [now d|d]; cbn [guard_step streak crashes].
  - destruct Hop as [Hnow Hd]. unfold StartupGuard.record_crash, StartupGuard.save_state.
    rewrite (Hload d Hd), IH. destruct Hd as [_ ->]. cbn [snd state_of last_crash_ts consecutive_crashes total_crashes].
    rewrite Hjson. cbn [default]. unfold wadd32, id.
    rewrite (Z.mod_small (Z.of_nat (crashes h) + 1)) by lia.
    destruct (streak (window_secs self) (reverse h)) as [|prev rest] eqn:Hs.
    + cbn. split; [|by intros t ->%list_elem_of_singleton].
      replace (Z.of_nat (crashes h + 1)) with (Z.of_nat (crashes h) + 1) by lia. done.
    + assert (0 < prev) as Hprev by (apply Hpos; by left).
      destruct (Z.ltb_spec 0 prev); [|lia]. cbn [andb].
      replace (Z.of_nat (crashes h + 1)) with (Z.of_nat (crashes h) + 1) by lia.
      destruct (Z.ltb_spec (window_secs self) (sat_sub now prev)).
      * split; [by rewrite Z.mod_small by (cbn; lia)|by intros t ->%list_elem_of_singleton].
      * rewrite Z.mod_small by (cbn [length] in Hsl |- *; lia). split.
        -- f_equal. cbn [length]. lia.
        -- intros t [->|Ht]%elem_of_cons; [done|by apply Hpos].
  - unfold StartupGuard.record_clean_start, StartupGuard.save_state. rewrite (Hload d Hop), IH.
    destruct Hop as [_ ->]. cbn [snd state_of]. rewrite Hjson. cbn.
    split; [by rewrite Nat.add_0_r|by intros ? ?%elem_of_nil].
Qed.
End gateway.

(** The startup guard over any history of crashes and clean starts whose
    writes succeed. It asks for degraded mode exactly when it is enabled, the
    crashes in a row since the last clean start, no two further apart than the
    window, reach the threshold, and the last of them is within the window. The
    total counts every crash. An unreadable file is an error, a failing write
    leaves the file alone. *)
Theorem startup_guard_histories to_json from_json self h now d :
  (∀ s, from_json (to_json s) = Some s) → sane h → works d → 0 ≤ threshold self →
  let file := guard_run to_json from_json self h in
  let row := streak (window_secs self) (reverse h) in
  StartupGuard.check from_json self file d now =
    Ok (negb (threshold self =? 0) && (threshold self <=? Z.of_nat (length row)) &&
        match row with last :: _ => sat_sub now last <=? window_secs self | [] => true end) ∧
  total_crashes (state_of from_json file) = Z.of_nat (crashes h) ∧
  (∀ e d', read_error d' = Some e → threshold self ≠ 0 → is_Some file →
     StartupGuard.check from_json self file d' now = Err (Errors.Io e)) ∧
  (∀ e d', write_error d' = Some e →
     snd (StartupGuard.record_crash to_json from_json self file d' now) = file ∧
     snd (StartupGuard.record_clean_start to_json from_json file d') = file).
Proof.
  intros Hjson Hs Hd Hth. cbv zeta.
  destruct (guard_run_state to_json from_json self h Hjson Hs) as [Hst Hpos].
  set (file := guard_run to_json from_json self h) in *. split_and!.
  - unfold StartupGuard.check. destruct (Z.eqb_spec (threshold self) 0) as [_|Hne]; [done|].
    assert (StartupGuard.load_state from_json file d = Ok (state_of from_json file)) as ->.
    { unfold StartupGuard.load_state, state_of. destruct Hd as [Hr _]. by destruct file; [rewrite Hr|]. }
    rewrite Hst. cbn [consecutive_crashes last_crash_ts negb andb].
    rewrite (Z.leb_antisym _ (threshold self)).
    destruct (_ <? threshold self) eqn:Hlt; cbn [negb andb]; [done|].
    destruct (streak (window_secs self) (reverse h)) as [|t row]; [cbn in Hlt; lia|].
    rewrite Z.leb_antisym. by destruct (window_secs self <? sat_sub now t).
  - by rewrite Hst.
  - intros e d' Hr Hne [f Hf]. unfold StartupGuard.check, StartupGuard.load_state.
    destruct (Z.eqb_spec (threshold self) 0); [done|]. by rewrite Hf, Hr.
  - intros e d' Hw. unfold StartupGuard.record_crash, StartupGuard.record_clean_start, StartupGuard.save_state.
    rewrite Hw. by destruct (StartupGuard.load_state _ _ _).
Qed.

(** In [cmd_gateway] every start is recorded as a clean one, after which one run
    of the agent can fail at most once before the next start (a rebuilt agent
    aside). With a threshold of two or more degraded mode is never entered. *)
Lemma starts_never_degraded to_json from_json self (runs : list (list GuardOp)) now d deny :
  (∀ s, from_json (to_json s) = Some s) → works d → 2 ≤ threshold self →
  Forall (λ run, ∃ d rest, run = CleanStart d :: rest ∧ (length rest ≤ 1)%nat) runs →
  sane (concat runs) →
  startup_deny from_json self (guard_run to_json from_json self (concat runs)) d now deny = deny.
Proof.
  intros Hjson Hd Hth Hruns Hs. unfold startup_deny, StartupGuard.check.
  destruct (Z.eqb_spec (threshold self) 0); [done|].
  destruct (guard_run_state to_json from_json self (concat runs) Hjson Hs) as [Hst _].
  set (file := guard_run _ _ _ _) in *.
  assert (StartupGuard.load_state from_json file d = Ok (state_of from_json file)) as ->.
  { unfold StartupGuard.load_state, state_of. destruct Hd as [Hr _]. by destruct file; [rewrite Hr|]. }
  rewrite Hst. cbn [consecutive_crashes].
  assert (length (streak (window_secs self) (reverse (concat runs))) ≤ 1)%nat as Hle.
  { clear -Hruns. induction runs as [|run runs _] using rev_ind; [cbn; lia|].
    apply Forall_app in Hruns as [_ Hrun]. rewrite Forall_singleton in Hrun.
    destruct Hrun as (d & rest & -> & Hlen). rewrite concat_app. cbn [concat]. rewrite app_nil_r, reverse_app.
    destruct rest as [|op [|]]; cbn in Hlen; [|destruct op; cbn|lia]; cbn; lia. }
  destruct (Z.ltb_spec (Z.of_nat (length (streak (window_secs self) (reverse (concat runs))))) (threshold self));
    [done|lia].
Qed.

Module Example_startup.

Definition good : Disk := mkDisk None None.

#[global] Instance state_eq_dec : EqDecision CrashState.
Proof. solve_decision. Defined.

#[global] Instance state_countable : Countable CrashState.
Proof.
  refine (inj_countable' (λ s, (consecutive_crashes s, last_crash_ts s, total_crashes s))
    (λ '(c, l, t), mkCrashState c l t) _).
  by intros [].
Defined.

Definition guard : StartupGuard := mkStartupGuard 2 300.
Definition history : list GuardOp := [Crash 10 good; CleanStart good; Crash 500 good; Crash 700 good].

Example degraded :
  StartupGuard.check Digits.from_json guard (guard_run Digits.to_json Digits.from_json guard history)
    good 800 = Ok true.
Proof. by_compute. Qed.
End Example_startup.

Lemma startup_guard_histories_witness :
  total_crashes (state_of Digits.from_json
    (guard_run Digits.to_json Digits.from_json Example_startup.guard Example_startup.history)) = 3.
Proof.
  destruct (startup_guard_histories Digits.to_json Digits.from_json Example_startup.guard
    Example_startup.history 800 Example_startup.good) as (_ & H & _).
  - apply Digits.round_trip.
  - split; [repeat constructor; cbn; lia|vm_compute; reflexivity].
  - done.
  - cbn. lia.
  - exact H.
Defined.
