(* ===== verification/Shell.v ===== *)
(** Which shell commands a tool may run: src/src/security/shell.rs.

    Regular expressions are the interface [RustRegex] of [Safety], whether one
    compiles is a parameter ([compiles]), and lower case is [RustUnicode]. A
    command is its list of characters while it is split. *)

From S2P Require Import Prelude Text Lines Errors Safety.

#[local] Notation "c =? d" := (String.eqb c d) : string_scope.

(** ** Words *)

(** [s.rsplit('/').next()]: what follows the last slash. *)
Definition after_last_slash (s : string) : string :=
  foldl (λ acc c, if (c =? "/")%string then "" else acc +:+ c) "" (chars s).

Definition trim_end_stars (s : string) : string :=
  str_concat (reverse (drop_while (λ c, (c =? "*")%string) (reverse (chars s)))).

(** The first error of a loop with early return. *)
Fixpoint first_error {A} (f : A → option ZeptoError) (l : list A) : option ZeptoError :=
  match l with
  | [] => None
  | x :: l => match f x with Some e => Some e | None => first_error f l end
  end.

Lemma first_error_None {A} (f : A → option ZeptoError) l :
  first_error f l = None ↔ Forall (λ x, f x = None) l.
Proof.
  induction l as [|x l IH]; cbn [first_error]; [by split; [constructor|]|].
  rewrite Forall_cons. destruct (f x); naive_solver.
Qed.

(** ** Git options *)

Definition GIT_GLOBAL_OPTS_WITH_VALUE : list string :=
  ["-C"; "-c"; "--git-dir"; "--work-tree"; "--namespace"; "--super-prefix"; "--config-env"].
Definition GIT_GLOBAL_FLAGS : list string :=
  ["--bare"; "--no-replace-objects"; "--literal-pathspecs"; "--glob-pathspecs";
   "--noglob-pathspecs"; "--icase-pathspecs"; "--no-optional-locks"; "--no-pager"; "-p";
   "--paginate"; "--info-path"; "--html-path"; "--man-path"; "--exec-path"].
Definition GIT_CMD_RE : string := "(?i)^\s*git\b".

(** ** Commands *)

Record CommandSegment : Type := mkCommandSegment {
  binary : string;
  args : list string;
  raw : string;
}.

Record TokenizeResult : Type := mkTokenizeResult {
  segments : list CommandSegment;
  has_metachar : bool;
}.

Inductive ShellAllowlistMode : Type := Off | Warn | Strict.

Record ShellSecurityConfig : Type := mkShellSecurityConfig {
  compiled_patterns : list string;
  literal_patterns : list string;
  enabled : bool;
  allowlist : list string;
  allowlist_mode : ShellAllowlistMode;
}.

Definition REGEX_BLOCKED_PATTERNS : list string :=
  [ "curl\s+.*\|\s*(sh|bash|zsh)";
    "wget\s+.*\|\s*(sh|bash|zsh)";
    "\|\s*(sh|bash|zsh)\s*$";
    "bash\s+-i\s+>&\s*/dev/tcp";
    "nc\s+.*-e\s+(sh|bash|/bin)";
    "/dev/tcp/";
    "/dev/udp/";
    "rm\s+(-[rf]{1,2}\s+)*(-[rf]{1,2}\s+)*/\s*($|;|\||&)";
    "rm\s+(-[rf]{1,2}\s+)*(-[rf]{1,2}\s+)*/\*\s*($|;|\||&)";
    "mkfs(\.[a-z0-9]+)?\s";
    "dd\s+.*if=/dev/(zero|random|urandom).*of=/dev/[sh]d";
    ">\s*/dev/[sh]d[a-z]";
    "chmod\s+(-R\s+)?777\s+/\s*$";
    "chmod\s+(-R\s+)?777\s+/[a-z]";
    ":\(\)\s*\{\s*:\|:&\s*\}\s*;:";
    "fork\s*\(\s*\)";
    "base64\s+(-d|--decode)";
    "python[23]?\s+.*-[A-Za-z]*c[\s=]";
    "perl\s+.*-[A-Za-z]*e[\s=]";
    "ruby\s+.*-[A-Za-z]*e[\s=]";
    "node\s+.*-[A-Za-z]*e[\s=]";
    "\beval\s+";
    "xargs\s+.*sh\b";
    "xargs\s+.*bash\b";
    "\benv\b.*>\s*/";
    "\bprintenv\b.*>\s*/";
    "git\s+push\b.*\s--force(?:-with-lease)?(?:\s|$)";
    "git\s+push\b.*\s-[A-Za-z]*f[A-Za-z]*(?:\s|$)";
    "git\s+reset\s+--hard";
    "git\s+clean\s+.*-[a-zA-Z]*f";
    "git\s+clean\s+.*--force";
    "git\s+checkout\s+--\s+\.($|[\s;|&/])";
    "git\s+branch\s+.*-(?-i:D)\b" ].

Definition LITERAL_BLOCKED_PATTERNS : list string :=
  [ "/etc/shadow"; "/etc/passwd"; "~/.ssh/"; ".ssh/id_rsa"; ".ssh/id_ed25519"; ".ssh/id_ecdsa";
    ".ssh/id_dsa"; ".ssh/authorized_keys"; ".aws/credentials"; ".kube/config";
    ".zeptoclaw/config.json"; ".zeptoclaw/config.yaml" ].

Definition violation (text : string) : ZeptoError := SecurityViolation text.

(** An argument that bundles short flags. *)
Definition short_flag (a : string) : bool := starts_with a "-" && negb (starts_with a "--").

(** [is_glob] characters. *)
Definition glob_char (c : string) : bool := bool_decide (c ∈ ["?"; "*"; "["]).
Definition deglob (s : string) : string :=
  str_concat (filter (λ c, c ∉ ["["; "]"; "*"; "?"]) (chars s)).

Section shell.
Context `{RustUnicode} `{RustRegex} (compiles : string → bool).
Implicit Types (command : string) (seg : CommandSegment).

Definition value_option (tok : string) : bool :=
  let tok_lower := to_lowercase tok in
  any (λ o, (tok_lower =? to_lowercase o)%string
            || starts_with tok_lower (to_lowercase o +:+ "=")) GIT_GLOBAL_OPTS_WITH_VALUE.
Definition global_flag (tok : string) : bool :=
  any (λ f, (to_lowercase tok =? to_lowercase f)%string) GIT_GLOBAL_FLAGS.

(** The tokens from the subcommand on. The slice panics when the value of the
    last option is missing. *)
Fixpoint skip_git_options (tokens : list string) : outcome (list string) :=
  match tokens with
  | [] => Ret []
  | tok :: rest =>
    if value_option tok
    then if contains tok "=" then skip_git_options rest
         else match rest with _ :: rest => skip_git_options rest | [] => Panic end
    else if global_flag tok then skip_git_options rest
    else Ret tokens
  end.

Definition normalize_git_command command : outcome string :=
  if negb (is_match GIT_CMD_RE command) then Ret command
  else match split_whitespace command with
       | [] => Ret command
       | git :: rest => tokens ← skip_git_options rest; Ret (join " " (git :: tokens))
       end.

(** The pattern for a word with globs; [None] without a literal character, or
    when it does not compile. *)
Definition build_glob_regex (word : string) : option string :=
  let piece c :=
    if (c =? "?")%string then "."
    else if (c =? "*")%string then ".*"
    else if bool_decide (c ∈ ["["; "]"]) then ""
    else if bool_decide (c ∈ [".";"+";"^";"$";"{";"}";"(";")";"|";"\"]) then "\" +:+ c
    else c in
  let pat := str_concat (map piece (chars word)) in
  let has_literal := any (λ c, bool_decide (c ∉ ["?"; "*"; "["; "]"])) (chars word) in
  if has_literal && compiles pat then Some pat else None.

(** *** Splitting *)

(** [tokenize_segment]: words, with quotes taken off. *)
Inductive Quote : Type := Plain | InSingle | InDouble.

Fixpoint tokenize_chars (q : Quote) (cs : list string) (current : string) : list string :=
  match cs with
  | [] => if str_is_empty current then [] else [current]
  | c :: cs =>
    match q with
    | InSingle => if (c =? "'")%string then tokenize_chars Plain cs current
                  else tokenize_chars InSingle cs (current +:+ c)
    | InDouble => if (c =? dquote)%string then tokenize_chars Plain cs current
                  else tokenize_chars InDouble cs (current +:+ c)
    | Plain =>
      if (c =? "'")%string then tokenize_chars InSingle cs current
      else if (c =? dquote)%string then tokenize_chars InDouble cs current
      else if is_whitespace c
      then if str_is_empty current then tokenize_chars Plain cs ""
           else current :: tokenize_chars Plain cs ""
      else tokenize_chars Plain cs (current +:+ c)
    end
  end.

Definition tokenize_segment (segment : string) : list string := tokenize_chars Plain (chars segment) "".

(** The segment [push_segment] appends, if any. *)
Definition parse_segment (raw : string) : option CommandSegment :=
  let trimmed := trim raw in
  if str_is_empty trimmed then None
  else match tokenize_segment trimmed with
       | [] => None
       | binary_full :: args =>
         Some (mkCommandSegment (to_lowercase (after_last_slash binary_full)) args trimmed)
       end.

(** What the loop of [tokenize_command] carries: the segments, the text of the
    one it is in, and whether an operator was met. *)
Record Splitting : Type := mkSplitting {
  done : list CommandSegment;
  current : string;
  meta : bool;
}.

Definition push (s : Splitting) (c : string) : Splitting :=
  mkSplitting (done s) (current s +:+ c) (meta s).
Definition push_segment (segs : list CommandSegment) (raw : string) : list CommandSegment :=
  match parse_segment raw with Some seg => segs ++ [seg] | None => segs end.
Definition cut (s : Splitting) : Splitting :=
  mkSplitting (push_segment (done s) (current s)) "" true.

Definition char_is (c : string) (o : option string) : bool :=
  match o with Some d => (c =? d)%string | None => false end.

(** [prev] is [chars[i - 1]]. *)
Fixpoint split_chars (prev : option string) (q : Quote) (cs : list string) (s : Splitting) : Splitting :=
  match cs with
  | [] => s
  | ch :: rest =>
    match q with
    | InSingle =>
      split_chars (Some ch) (if (ch =? "'")%string then Plain else InSingle) rest (push s ch)
    | InDouble =>
      split_chars (Some ch) (if (ch =? dquote)%string then Plain else InDouble) rest (push s ch)
    | Plain =>
      if (ch =? "\")%string then
        match rest with
        | next :: rest' => split_chars (Some next) Plain rest' (push (push s ch) next)
        | [] => push s ch
        end
      else if (ch =? "'")%string then split_chars (Some ch) InSingle rest (push s ch)
      else if (ch =? dquote)%string then split_chars (Some ch) InDouble rest (push s ch)
      else if (ch =? ";")%string || (ch =? newline)%string
      then split_chars (Some ch) Plain rest (cut s)
      else if (ch =? "|")%string then
        match rest with
        | next :: rest' => if (next =? "|")%string then split_chars (Some next) Plain rest' (cut s)
                           else split_chars (Some ch) Plain rest (cut s)
        | [] => cut s
        end
      else if (ch =? "&")%string then
        match rest with
        | next :: rest' =>
          if char_is ">" prev || (next =? ">")%string then split_chars (Some ch) Plain rest (push s ch)
          else if (next =? "&")%string then split_chars (Some next) Plain rest' (cut s)
          else split_chars (Some ch) Plain rest (cut s)
        | [] => if char_is ">" prev then push s ch else cut s
        end
      else if (ch =? "`")%string then split_chars (Some ch) Plain rest (cut s)
      else if (ch =? "$")%string then
        match rest with
        | next :: rest' => if (next =? "(")%string then split_chars (Some next) Plain rest' (cut s)
                           else split_chars (Some ch) Plain rest (push s ch)
        | [] => push s ch
        end
      else split_chars (Some ch) Plain rest (push s ch)
    end
  end.

Definition tokenize_command command : TokenizeResult :=
  let s := split_chars None Plain (chars command) (mkSplitting [] "" false) in
  mkTokenizeResult (push_segment (done s) (current s)) (meta s).

(** *** Policies *)

Definition arg_has_flag (args : list string) (flag : string) : bool :=
  any (λ a, short_flag a && contains (str_drop 1 a) flag) args.

Definition literal_matches (word : string) (literal : string) : bool :=
  contains word literal || contains (deglob word) literal.

(** The literal a word matches: as it is, without its globs, as a glob. *)
Definition sensitive_literal (literals : list string) (arg : string) : option string :=
  let arg_lower := to_lowercase arg in
  match List.find (λ lit, contains arg_lower lit) literals with
  | Some lit => Some lit
  | None =>
    match List.find (λ lit, contains (deglob arg_lower) lit) literals with
    | Some lit => Some lit
    | None =>
      if any glob_char (chars arg_lower)
      then match build_glob_regex arg_lower with
           | Some re => List.find (λ lit, is_match re lit) literals
           | None => None
           end
      else None
    end
  end.

Fixpoint arg_matches_sensitive_path (args : list string) : option string :=
  match args with
  | [] => None
  | arg :: args =>
    match sensitive_literal (map to_lowercase LITERAL_BLOCKED_PATTERNS) arg with
    | Some lit => Some lit
    | None => arg_matches_sensitive_path args
    end
  end.

(** The part of an option before its equals sign. *)
Definition option_base (a : string) : string :=
  match find_str a "=" with Some i => str_take i a | None => a end.

Fixpoint git_subcommand (args : list string) : string :=
  match args with
  | [] => ""
  | a :: rest =>
    if starts_with a "-"
    then if bool_decide (option_base a ∈ ["-C"; "-c"; "--git-dir"; "--work-tree"; "--namespace"])
            && negb (contains a "=")
         then match rest with _ :: rest => git_subcommand rest | [] => "" end
         else git_subcommand rest
    else a
  end.

Definition is_python (bin : string) : bool :=
  bool_decide (bin ∈ ["python"; "python2"; "python3"]) || starts_with bin "python3.".

Definition rm_root (args : list string) : bool :=
  let has_r := any (λ a, bool_decide (a ∈ ["-r"; "-R"])
                         || short_flag a && (contains a "r" || contains a "R")) args in
  let has_f := any (λ a, (a =? "-f")%string || short_flag a && contains a "f") args in
  let has_root := any (λ a, negb (starts_with a "-") &&
                            ((trim_end_stars a =? "/")%string
                             || str_is_empty (trim_end_stars a) && starts_with a "*")) args in
  has_r && has_f && has_root.

Definition git_policy (args : list string) : option ZeptoError :=
  let sub := git_subcommand args in
  let forced := any (λ a, short_flag a && contains a "f") args in
  if (sub =? "push")%string then
    if any (λ a, bool_decide (a ∈ ["--force"; "--force-with-lease"])) args || forced
    then Some (violation "Blocked: git push --force (destructive push)") else None
  else if (sub =? "reset")%string then
    if any (λ a, (a =? "--hard")%string) args
    then Some (violation "Blocked: git reset --hard (destructive reset)") else None
  else if (sub =? "clean")%string then
    if any (λ a, (a =? "--force")%string) args || forced
    then Some (violation "Blocked: git clean -f (destructive clean)") else None
  else if (sub =? "branch")%string then
    if any (λ a, short_flag a && contains a "D") args
    then Some (violation "Blocked: git branch -D (force delete)") else None
  else None.

Definition check_structured_policy seg : option ZeptoError :=
  let bin := binary seg in
  if is_python bin && arg_has_flag (args seg) "c"
  then Some (violation ("Blocked: " +:+ bin +:+ " with inline code execution flag (-c)"))
  else if bool_decide (bin ∈ ["perl"; "ruby"; "node"]) && arg_has_flag (args seg) "e"
  then Some (violation ("Blocked: " +:+ bin +:+ " with inline code execution flag (-e)"))
  else if (bin =? "rm")%string && rm_root (args seg)
  then Some (violation "Blocked: rm -rf / (destructive root deletion)")
  else
    match (if (bin =? "git")%string then git_policy (args seg) else None) with
    | Some e => Some e
    | None =>
      match arg_matches_sensitive_path (args seg) with
      | Some path => Some (violation ("Blocked: argument contains prohibited path '" +:+ path +:+ "'"))
      | None => None
      end
    end.

(** *** The configuration *)

Definition compile (patterns : list string) : list string :=
  filter (λ p, compiles p = true) (map (λ p, "(?i)" +:+ p) patterns).

Definition ShellSecurityConfig_new : ShellSecurityConfig :=
  mkShellSecurityConfig (compile REGEX_BLOCKED_PATTERNS) (map to_lowercase LITERAL_BLOCKED_PATTERNS)
    true [] Off.

Definition ShellSecurityConfig_permissive : ShellSecurityConfig :=
  mkShellSecurityConfig [] [] false [] Off.

Definition block_pattern (self : ShellSecurityConfig) (pattern : string) : ShellSecurityConfig :=
  mkShellSecurityConfig (compiled_patterns self ++ compile [pattern]) (literal_patterns self)
    (enabled self) (allowlist self) (allowlist_mode self).

Definition block_literal (self : ShellSecurityConfig) (literal : string) : ShellSecurityConfig :=
  mkShellSecurityConfig (compiled_patterns self) (literal_patterns self ++ [to_lowercase literal])
    (enabled self) (allowlist self) (allowlist_mode self).

Definition with_allowlist (self : ShellSecurityConfig) (commands : list string)
    (mode : ShellAllowlistMode) : ShellSecurityConfig :=
  mkShellSecurityConfig (compiled_patterns self) (literal_patterns self) (enabled self)
    (map to_lowercase commands) mode.

(** *** The check *)

(** Pass 1, for one pattern. *)
Definition pattern_error command (full_normalized pattern : string) : option ZeptoError :=
  if is_match pattern command || is_match pattern full_normalized
  then Some (violation ("Command blocked: matches prohibited pattern '" +:+ pattern +:+ "'"))
  else None.

(** Pass 2 (a), for one literal. *)
Definition literal_error seg (literal : string) : option ZeptoError :=
  let seg_lower := to_lowercase (raw seg) in
  let globs := omap build_glob_regex
                 (filter (λ tok, any glob_char (chars tok) = true) (split_whitespace seg_lower)) in
  if literal_matches seg_lower literal || any (λ re, is_match re literal) globs
  then Some (violation ("Command blocked: contains prohibited path '" +:+ literal +:+ "'"))
  else None.

Definition segment_error (self : ShellSecurityConfig) seg : option ZeptoError :=
  match first_error (literal_error seg) (literal_patterns self) with
  | Some e => Some e
  | None => check_structured_policy seg
  end.

Definition allowlist_error (self : ShellSecurityConfig) seg : option ZeptoError :=
  if bool_decide (binary seg ∈ allowlist self) then None
  else match allowlist_mode self with
       | Strict => Some (violation ("Command '" +:+ binary seg +:+ "' not in allowlist"))
       | _ => None
       end.

(** The allowlist, for all segments. *)
Definition allowlist_check (self : ShellSecurityConfig) (t : TokenizeResult) : option ZeptoError :=
  match allowlist_mode self with
  | Off => None
  | mode =>
    if has_metachar t && match mode with Strict => true | _ => false end
    then Some (violation "Command blocked: contains shell metacharacters that bypass allowlist")
    else first_error (allowlist_error self) (segments t)
  end.

(** The passes over a command and its normal form. *)
Definition run_checks (self : ShellSecurityConfig) command (full_normalized : string)
    : result ZeptoError unit :=
  let t := tokenize_command command in
  match first_error (pattern_error command full_normalized) (compiled_patterns self) with
  | Some e => Err e
  | None =>
    match first_error (segment_error self) (segments t) with
    | Some e => Err e
    | None => match allowlist_check self t with Some e => Err e | None => Ok tt end
    end
  end.

Definition validate_command (self : ShellSecurityConfig) command : outcome (result ZeptoError unit) :=
  if negb (enabled self) then Ret (Ok tt)
  else
    full_normalized ← normalize_git_command command;
    Ret (run_checks self command full_normalized).
End shell.

(** ** What a command is made of *)

(** Which characters stand outside quotes and are not escaped. *)
Fixpoint live (q : Quote) (cs : list string) : list bool :=
  match cs with
  | [] => []
  | c :: rest =>
    match q with
    | InSingle => false :: live (if (c =? "'")%string then Plain else InSingle) rest
    | InDouble => false :: live (if (c =? dquote)%string then Plain else InDouble) rest
    | Plain =>
      if (c =? "\")%string
      then match rest with _ :: rest' => false :: false :: live Plain rest' | [] => [false] end
      else if (c =? "'")%string then false :: live InSingle rest
      else if (c =? dquote)%string then false :: live InDouble rest
      else true :: live Plain rest
    end
  end.

(** A character that ends a command, seen between its neighbours. *)
Definition operator (prev : option string) (c : string) (next : option string) : bool :=
  bool_decide (c ∈ [";"; newline; "|"; "`"])
  || (c =? "$")%string && char_is "(" next
  || (c =? "&")%string && negb (char_is ">" prev) && negb (char_is ">" next).

(** The operators of two characters. *)
Definition double (c : string) (next : option string) : bool :=
  (c =? "|")%string && char_is "|" next || (c =? "&")%string && char_is "&" next
  || (c =? "$")%string && char_is "(" next.

(** The texts between the operators outside quotes. *)
Inductive commands : option string → list string → list bool → list string → Prop :=
| commands_end prev : commands prev [] [] [""]
| commands_char prev c cs l lv t ts :
    l && operator prev c (head cs) = false →
    commands (Some c) cs lv (t :: ts) → commands prev (c :: cs) (l :: lv) ((c +:+ t) :: ts)
| commands_single prev c cs lv ts :
    operator prev c (head cs) = true → double c (head cs) = false →
    commands (Some c) cs lv ts → commands prev (c :: cs) (true :: lv) ("" :: ts)
| commands_double prev c d cs l lv ts :
    operator prev c (Some d) = true → double c (Some d) = true →
    commands (Some d) cs lv ts → commands prev (c :: d :: cs) (true :: l :: lv) ("" :: ts).

Lemma commands_whole prev cs lv ts : commands prev cs lv ts → ∀ t, ts = [t] → t = str_concat cs.
Proof.
  induction 1 as [|prev c cs l lv t0 ts0 _ _ IH|prev c cs lv ts _ _ Hr IH|prev c d cs l lv ts _ _ Hr IH];
    intros t Ht; simplify_eq.
  - done.
  - cbn. by rewrite <- (IH _ eq_refl).
  - inversion Hr.
  - inversion Hr.
Qed.

Lemma commands_unique prev cs lv ts1 ts2 :
  commands prev cs lv ts1 → commands prev cs lv ts2 → ts1 = ts2.
Proof.
  intros H1. revert ts2.
  induction H1 as [|prev c cs l lv t ts Ho _ IH|prev c cs lv ts Ho Hd _ IH|prev c d cs l lv ts Ho Hd _ IH];
    intros ts2 H2; inversion H2 as [|? ? ? ? ? ? ? Ho' Hr|? ? ? ? ? Ho' Hd' Hr|? ? ? ? ? ? ? Ho' Hd' Hr];
    subst; cbn [head andb] in *; try congruence.
  - by injection (IH _ Hr) as -> ->.
  - by rewrite (IH _ Hr).
  - by rewrite (IH _ Hr).
Qed.

Lemma str_concat_chars s : str_concat (chars s) = s.
Proof.
  induction s as [|b s IH]; [done|]. cbn [chars]. destruct (chars s) as [|[|c t] cs]; cbn in *.
  - by rewrite <- IH.
  - by rewrite <- IH.
  - destruct (is_cont c); cbn; by rewrite <- IH.
Qed.

(** The words of a text: a character is a letter of a word, a quote, or white
    space outside quotes ([None]), which ends the word. *)
Fixpoint marks (q : Quote) (cs : list string) : list (option string) :=
  match cs with
  | [] => []
  | c :: cs =>
    match q with
    | InSingle => if (c =? "'")%string then Some "" :: marks Plain cs else Some c :: marks InSingle cs
    | InDouble => if (c =? dquote)%string then Some "" :: marks Plain cs else Some c :: marks InDouble cs
    | Plain =>
      if (c =? "'")%string then Some "" :: marks InSingle cs
      else if (c =? dquote)%string then Some "" :: marks InDouble cs
      else (if is_whitespace c then None else Some c) :: marks Plain cs
    end
  end.
Fixpoint mark_fields (m : list (option string)) : list string :=
  match m with
  | [] => [""]
  | None :: m => "" :: mark_fields m
  | Some c :: m => match mark_fields m with field :: fields => (c +:+ field) :: fields | [] => [c] end
  end.
Definition words (text : string) : list string :=
  filter (λ w, w ≠ "") (mark_fields (marks Plain (chars text))).

Lemma mark_fields_cons m : ∃ f fs, mark_fields m = f :: fs.
Proof. induction m as [|[c|] m (f & fs & IH)]; cbn; eauto. rewrite IH. eauto. Qed.

Lemma tokenize_words q cs current f fs :
  mark_fields (marks q cs) = f :: fs →
  tokenize_chars q cs current = filter (λ w, w ≠ "") ((current +:+ f) :: fs).
Proof.
  assert (∀ w, str_is_empty w = bool_decide (w = "")) as He by (by intros []).
  revert q current f fs. induction cs as [|c cs IH]; intros q current f fs.
  { cbn. intros [= <- <-]. rewrite str_app_nil_r, He. case_bool_decide; case_decide; naive_solver. }
  assert (∀ q' x, mark_fields (Some x :: marks q' cs) = f :: fs →
    tokenize_chars q' cs (current +:+ x) = filter (λ w, w ≠ "") ((current +:+ f) :: fs)) as Hgo.
  { intros q' x. cbn. destruct (mark_fields_cons (marks q' cs)) as (f' & fs' & Hm).
    rewrite Hm. intros [= <- <-].
    rewrite (IH q' _ f' fs' Hm). by rewrite str_app_assoc. }
  assert (∀ q', mark_fields (Some "" :: marks q' cs) = f :: fs →
    tokenize_chars q' cs current = filter (λ w, w ≠ "") ((current +:+ f) :: fs)) as Hquote.
  { intros q' Hm. rewrite <- (Hgo q' "" Hm). by rewrite str_app_nil_r. }
  cbn [marks tokenize_chars]. destruct q; repeat case_match; auto.
  all: cbn; destruct (mark_fields_cons (marks Plain cs)) as (f' & fs' & Hm);
    rewrite Hm; intros [= <- <-]; rewrite str_app_nil_r;
    rewrite (IH Plain _ f' fs' Hm); rewrite ?He in *; case_bool_decide; simplify_eq;
    case_decide; done.
Qed.

Lemma tokenize_segment_words text : tokenize_segment text = words text.
Proof.
  unfold tokenize_segment, words. destruct (mark_fields_cons (marks Plain (chars text))) as (f & fs & Hm).
  rewrite Hm. by rewrite (tokenize_words _ _ "" f fs Hm).
Qed.

(** The name of a program: what follows the last slash. *)
Definition base_name (word name : string) : Prop :=
  ∃ before after, chars word = before ++ after ∧ (before = [] ∨ last before = Some "/") ∧
    "/" ∉ after ∧ name = str_concat after.

Lemma after_last_slash_ok word : base_name word (after_last_slash word).
Proof.
  unfold base_name, after_last_slash. generalize (chars word). intros cs.
  induction cs as [|c cs IH] using rev_ind; [exists [], []; set_solver|].
  destruct IH as (before & after & -> & Hb & Ha & Hc). rewrite foldl_snoc, Hc.
  destruct (String.eqb_spec c "/") as [->|Hne].
  - exists ((before ++ after) ++ ["/"]), []. rewrite last_snoc, app_nil_r. set_solver.
  - exists before, (after ++ [c]). rewrite str_concat_app, app_assoc. cbn. rewrite str_app_nil_r.
    set_solver.
Qed.

Lemma base_name_unique word n1 n2 : base_name word n1 → base_name word n2 → n1 = n2.
Proof.
  assert (∀ b1 a1 b2 a2 : list string, b1 ++ a1 = b2 ++ a2 → (length b1 ≤ length b2)%nat →
    (b2 = [] ∨ last b2 = Some "/") → "/" ∉ a1 → a1 = a2) as Hle.
  { intros b1 a1 b2 a2 Heq Hlen Hb Ha. apply app_eq_inv in Heq as [(k & -> & ->)|(k & -> & ->)].
    - rewrite length_app in Hlen. by destruct k; [|cbn in Hlen; lia].
    - destruct Hb as [Hb|Hb]; [by apply app_eq_nil in Hb as [_ ->]|].
      destruct k as [|x k _] using rev_ind; [done|].
      rewrite app_assoc, last_snoc in Hb. simplify_eq. set_solver. }
  intros (b1 & a1 & H1 & Hb1 & Ha1 & ->) (b2 & a2 & H2 & Hb2 & Ha2 & ->).
  rewrite H1 in H2. destruct (decide (length b1 ≤ length b2)%nat) as [Hl|Hl].
  - by rewrite (Hle _ _ _ _ H2 Hl Hb2 Ha1).
  - by rewrite (Hle b2 a2 b1 a1); [|by symmetry|lia| |].
Qed.

(** ** What the policies forbid *)

(** An argument with a flag among its short ones: [-f], [-rf]. *)
Definition bundled (flag a : string) : Prop :=
  ∃ flags, a = "-" +:+ flags ∧ (∀ r, flags ≠ "-" +:+ r) ∧ ∃ x y, flags = x +:+ flag +:+ y.

Fixpoint stars (n : nat) : string := match n with O => "" | S n => "*" +:+ stars n end.

(** The root, or everything in it or here: [/], [/*], [*]. *)
Definition root_target (a : string) : Prop := ∃ n, a = "/" +:+ stars n ∨ a = stars (S n).

(** The subcommand of git: the first argument that is neither an option nor
    the value of one. *)
Definition valued (o : string) : Prop := o ∈ ["-C"; "-c"; "--git-dir"; "--work-tree"; "--namespace"].
Inductive subcommand : list string → string → Prop :=
| subcommand_none : subcommand [] ""
| subcommand_missing o : valued o → subcommand [o] ""
| subcommand_valued o v l s : valued o → subcommand l s → subcommand (o :: v :: l) s
| subcommand_option r l s : ¬ valued ("-" +:+ r) → subcommand l s → subcommand (("-" +:+ r) :: l) s
| subcommand_word w l : (∀ r, w ≠ "-" +:+ r) → subcommand (w :: l) w.

Definition forbidden_git (args : list string) : Prop :=
  subcommand args "push" ∧
    ("--force" ∈ args ∨ "--force-with-lease" ∈ args ∨ ∃ a, a ∈ args ∧ bundled "f" a) ∨
  subcommand args "reset" ∧ "--hard" ∈ args ∨
  subcommand args "clean" ∧ ("--force" ∈ args ∨ ∃ a, a ∈ args ∧ bundled "f" a) ∨
  subcommand args "branch" ∧ ∃ a, a ∈ args ∧ bundled "D" a.

(** What a character of a word with globs becomes in its pattern. *)
Inductive glob_piece : string → string → Prop :=
| glob_any_one : glob_piece "?" "."
| glob_any : glob_piece "*" ".*"
| glob_bracket c : c ∈ ["["; "]"] → glob_piece c ""
| glob_special c : c ∈ [".";"+";"^";"$";"{";"}";"(";")";"|";"\"] → glob_piece c ("\" +:+ c)
| glob_plain c : c ∉ ["?";"*";"[";"]";".";"+";"^";"$";"{";"}";"(";")";"|";"\"] → glob_piece c c.

Section forbidding.
Context `{RustUnicode} `{RustRegex} (compiles : string → bool).

(** A word mentions a literal: it contains it, also without its globs, or is
    a glob for a text that matches it. *)
Definition glob_mentions (word literal : string) : Prop :=
  ∃ pieces, Forall2 glob_piece (chars word) pieces ∧
    (∃ c, c ∈ chars word ∧ c ∈ ["?"; "*"; "["]) ∧ (∃ c, c ∈ chars word ∧ c ∉ ["?"; "*"; "["; "]"]) ∧
    compiles (str_concat pieces) = true ∧ is_match (str_concat pieces) literal = true.
Definition contains_literal (word literal : string) : Prop :=
  ∃ w, (w = word ∨ w = str_concat (filter (λ c, c ∉ ["["; "]"; "*"; "?"]) (chars word))) ∧
    ∃ x y, w = x +:+ literal +:+ y.

Definition mentioned (text literal : string) : Prop :=
  contains_literal (to_lowercase text) literal ∨
  ∃ word, word ∈ split_whitespace (to_lowercase text) ∧ glob_mentions word literal.

Definition forbidden (program : string) (args : list string) : Prop :=
  (program ∈ ["python"; "python2"; "python3"] ∨ ∃ v, program = "python3." +:+ v) ∧
    (∃ a, a ∈ args ∧ bundled "c" a) ∨
  program ∈ ["perl"; "ruby"; "node"] ∧ (∃ a, a ∈ args ∧ bundled "e" a) ∨
  program = "rm" ∧ (∃ a, a ∈ args ∧ (bundled "r" a ∨ bundled "R" a)) ∧
    (∃ a, a ∈ args ∧ bundled "f" a) ∧ (∃ a, a ∈ args ∧ root_target a) ∨
  program = "git" ∧ forbidden_git args ∨
  ∃ a literal, a ∈ args ∧ literal ∈ map to_lowercase LITERAL_BLOCKED_PATTERNS ∧
    (contains_literal (to_lowercase a) literal ∨ glob_mentions (to_lowercase a) literal).

Lemma bundled_flag a flag : short_flag a && contains (str_drop 1 a) flag = true ↔ bundled flag a.
Proof.
  unfold short_flag, bundled. rewrite !andb_true_iff, negb_true_iff, starts_with_spec, contains_spec. split.
  - intros [[[r ->] Hn] Hc]. exists r. split_and!; [done| |by apply Hc]. intros r' ->.
    by apply not_true_iff_false in Hn as []; apply starts_with_spec; exists r'.
  - intros (r & -> & Hr & Hc). split_and!; [eauto| |done].
    apply not_true_iff_false. rewrite starts_with_spec. intros [r' Hr']. apply (Hr r').
    by injection Hr'.
Qed.

Lemma short_flag_contains a f :
  String.length f = 1%nat → f ≠ "-" → short_flag a && contains a f = short_flag a && contains (str_drop 1 a) f.
Proof.
  intros Hf Hne. destruct (short_flag a) eqn:Hs; [|done]. unfold short_flag in Hs.
  apply andb_true_iff in Hs as [Hs _]. apply starts_with_spec in Hs as [r ->].
  change (str_drop 1 ("-" +:+ r)) with r. cbn [andb]. apply eq_bool_prop_intro.
  rewrite !Is_true_true, !contains_spec. split.
  - intros (x & y & Hx). destruct x as [|c x]; [|injection Hx as _ ->; eauto].
    destruct f as [|c [|]]; try done. by injection Hx as <- _.
  - intros (x & y & ->). by exists ("-" +:+ x), y.
Qed.

Lemma any_bundled flag args :
  arg_has_flag args flag = true ↔ ∃ a, a ∈ args ∧ bundled flag a.
Proof.
  unfold arg_has_flag. rewrite any_true. by setoid_rewrite bundled_flag.
Qed.

Lemma any_forced flag args :
  String.length flag = 1%nat → flag ≠ "-" →
  any (λ a, short_flag a && contains a flag) args = true ↔ ∃ a, a ∈ args ∧ bundled flag a.
Proof.
  intros Hl Hne. rewrite any_true. apply exist_proper. intros a.
  by rewrite short_flag_contains, bundled_flag.
Qed.

Lemma any_eq x args : any (λ a, (a =? x)%string) args = true ↔ x ∈ args.
Proof.
  rewrite any_true. split; [|intros Hx; exists x; by rewrite String.eqb_refl].
  intros (a & Ha & ->%String.eqb_eq). done.
Qed.

Lemma valued_option a :
  bool_decide (option_base a ∈ ["-C"; "-c"; "--git-dir"; "--work-tree"; "--namespace"]) && negb (contains a "=")
    = true ↔ valued a.
Proof.
  unfold valued, option_base. split.
  - intros [Hb%bool_decide_eq_true Hc%negb_true_iff]%andb_true_iff.
    destruct (find_str a "=") as [i|] eqn:Hf; [|done]. apply find_str_Some in Hf as [Ho _].
    apply not_true_iff_false in Hc as []. apply contains_occurs. eauto.
  - intros Hv. repeat (apply elem_of_cons in Hv as [->|Hv]; [by vm_compute|]). set_solver.
Qed.

Lemma valued_dash a : valued a → starts_with a "-" = true.
Proof. intros Hv. repeat (apply elem_of_cons in Hv as [->|Hv]; [done|]). set_solver. Qed.

Lemma git_subcommand_ok args : subcommand args (git_subcommand args).
Proof.
  induction args as [args IH] using (induction_ltof1 _ length). unfold ltof in IH.
  destruct args as [|a rest]; cbn [git_subcommand]; [constructor|].
  destruct (starts_with a "-") eqn:Hd.
  - destruct (_ && _) eqn:Hv.
    + apply valued_option in Hv. destruct rest as [|v rest]; constructor; try done.
      apply IH. cbn. lia.
    + apply starts_with_spec in Hd as [r ->]. constructor; [|apply IH; cbn; lia].
      rewrite <- valued_option, Hv. done.
  - constructor. intros r ->. apply not_true_iff_false in Hd as []. apply starts_with_spec. eauto.
Qed.

Lemma subcommand_unique args s1 s2 : subcommand args s1 → subcommand args s2 → s1 = s2.
Proof.
  intros H1. revert s2. induction H1 as [|o Ho|o v l s Ho _ IH|r l s Ho _ IH|w l Hw]; intros s2 H2;
    inversion H2; subst; try done; try by (apply IH).
  all: try (match goal with Hv : valued ?a |- _ => apply valued_dash, starts_with_spec in Hv as [? ->] end; naive_solver).
  all: naive_solver.
Qed.

Lemma git_subcommand_iff args s : (git_subcommand args =? s)%string = true ↔ subcommand args s.
Proof.
  rewrite String.eqb_eq. split; [intros <-; apply git_subcommand_ok|].
  apply subcommand_unique, git_subcommand_ok.
Qed.

Lemma subcommand_is args s : subcommand args s → git_subcommand args = s.
Proof. intros Hs. by apply String.eqb_eq, git_subcommand_iff. Qed.

Lemma git_policy_iff args : git_policy args ≠ None ↔ forbidden_git args.
Proof.
  unfold git_policy, forbidden_git. pose proof (git_subcommand_ok args) as Hok.
  assert (∀ s, subcommand args s ↔ git_subcommand args = s) as Hsub.
  { intros s. rewrite <- git_subcommand_iff. by rewrite String.eqb_eq. }
  rewrite !Hsub, <- !(any_forced _ args), <- !any_eq by done.
  assert (any (λ a, bool_decide (a ∈ ["--force"; "--force-with-lease"])) args = true ↔
          any (λ a, (a =? "--force")%string) args = true ∨
          any (λ a, (a =? "--force-with-lease")%string) args = true) as Hforce.
  { rewrite !any_eq, any_true. setoid_rewrite bool_decide_eq_true. set_solver. }
  destruct (String.eqb_spec (git_subcommand args) "push") as [->|].
  { match goal with |- (if ?x || ?y then _ else _) ≠ None ↔ _ => destruct x, y end;
      cbn [orb]; intuition congruence. }
  destruct (String.eqb_spec (git_subcommand args) "reset") as [->|].
  { match goal with |- (if ?x then _ else _) ≠ None ↔ _ => destruct x end; intuition congruence. }
  destruct (String.eqb_spec (git_subcommand args) "clean") as [->|].
  { match goal with |- (if ?x || ?y then _ else _) ≠ None ↔ _ => destruct x, y end;
      cbn [orb]; intuition congruence. }
  destruct (String.eqb_spec (git_subcommand args) "branch") as [->|]; [|intuition congruence].
  match goal with |- (if ?x then _ else _) ≠ None ↔ _ => destruct x end; intuition congruence.
Qed.

Lemma concat_stars l : Forall (λ c, (c =? "*")%string = true) l → str_concat l = stars (length l).
Proof. induction 1 as [|c l ->%String.eqb_eq _ IH]; [done|]. cbn. by rewrite IH. Qed.

Lemma chars_stars n : chars (stars n) = replicate n "*".
Proof.
  induction n as [|n IH]; [done|]. cbn [stars replicate]. rewrite <- IH. cbn [String.append chars].
  destruct n; [done|]. rewrite IH. cbn. done.
Qed.

Lemma drop_stars n l : drop_while (λ c, (c =? "*")%string) (replicate n "*" ++ l) =
  drop_while (λ c, (c =? "*")%string) l.
Proof. induction n as [|n IH]; [done|]. cbn. exact IH. Qed.

Lemma trim_end_stars_app a : ∃ n, a = trim_end_stars a +:+ stars n.
Proof.
  unfold trim_end_stars. set (p := λ c : string, (c =? "*")%string).
  destruct (drop_while_suffix p (reverse (chars a))) as (k & Hk & Hs). exists (length (reverse k)).
  rewrite <- (concat_stars (reverse k)) by (by apply Forall_reverse).
  by rewrite <- str_concat_app, <- reverse_app, <- Hk, reverse_involutive, str_concat_chars.
Qed.

Lemma trim_end_stars_root n : trim_end_stars ("/" +:+ stars n) = "/".
Proof.
  assert (chars ("/" +:+ stars n) = "/" :: replicate n "*") as Hc.
  { cbn [String.append chars]. rewrite chars_stars. by destruct n. }
  unfold trim_end_stars. by rewrite Hc, reverse_cons, reverse_replicate, drop_stars.
Qed.

Lemma trim_end_stars_all n : trim_end_stars (stars n) = "".
Proof.
  unfold trim_end_stars. rewrite chars_stars, reverse_replicate.
  rewrite <- (app_nil_r (replicate n "*")), drop_stars. done.
Qed.

Lemma root_target_iff a :
  negb (starts_with a "-") &&
    ((trim_end_stars a =? "/")%string || str_is_empty (trim_end_stars a) && starts_with a "*") = true
  ↔ root_target a.
Proof.
  rewrite !andb_true_iff, orb_true_iff, andb_true_iff, negb_true_iff. split.
  - intros [_ [He%String.eqb_eq|[He Hs]]]; destruct (trim_end_stars_app a) as [n Hn].
    + exists n. left. by rewrite He in Hn.
    + destruct (trim_end_stars a); [|done]. cbn in Hn. subst a. destruct n as [|n]; [done|].
      exists n. by right.
  - intros (n & [->| ->]).
    + rewrite trim_end_stars_root. by repeat split; left.
    + rewrite trim_end_stars_all. cbn [stars]. split; [done|]. right. split; [done|].
      apply starts_with_spec. by eexists.
Qed.

Lemma rm_root_iff args :
  rm_root args = true ↔
  (∃ a, a ∈ args ∧ (bundled "r" a ∨ bundled "R" a)) ∧ (∃ a, a ∈ args ∧ bundled "f" a) ∧
  ∃ a, a ∈ args ∧ root_target a.
Proof.
  assert (∀ a, bool_decide (a ∈ ["-r"; "-R"]) || short_flag a && (contains a "r" || contains a "R") = true ↔
    bundled "r" a ∨ bundled "R" a) as Hr.
  { intros a. rewrite <- !bundled_flag, <- !short_flag_contains by done.
    case_bool_decide as Hin; [|cbn [orb]; by rewrite andb_orb_distrib_r, orb_true_iff].
    apply elem_of_cons in Hin as [->|Hin%list_elem_of_singleton]; [|subst a]; vm_compute; tauto. }
  assert (∀ a, (a =? "-f")%string || short_flag a && contains a "f" = true ↔ bundled "f" a) as Hf.
  { intros a. rewrite <- bundled_flag, <- short_flag_contains by done.
    destruct (String.eqb_spec a "-f") as [->|]; done. }
  unfold rm_root. rewrite !andb_true_iff, !any_true.
  setoid_rewrite Hr. setoid_rewrite Hf. setoid_rewrite root_target_iff. tauto.
Qed.

(** *** Literals *)

Lemma literal_matches_iff word literal :
  literal_matches word literal = true ↔ contains_literal word literal.
Proof.
  unfold literal_matches, contains_literal. rewrite orb_true_iff, !contains_spec. unfold deglob. split.
  - intros [Hc|Hc]; eauto.
  - intros (w & [->| ->] & Hc); auto.
Qed.

Definition piece_of (c : string) : string :=
  if (c =? "?")%string then "."
  else if (c =? "*")%string then ".*"
  else if bool_decide (c ∈ ["["; "]"]) then ""
  else if bool_decide (c ∈ [".";"+";"^";"$";"{";"}";"(";")";"|";"\"]) then "\" +:+ c
  else c.

Lemma glob_piece_iff c p : glob_piece c p ↔ piece_of c = p.
Proof.
  unfold piece_of. split.
  - intros [| |c0 H1|c0 H1|c0 H1]; try done.
    + repeat (apply elem_of_cons in H1 as [->|H1]; [done|]). set_solver.
    + repeat (apply elem_of_cons in H1 as [->|H1]; [done|]). set_solver.
    + destruct (String.eqb_spec c0 "?"); [set_solver|]. destruct (String.eqb_spec c0 "*"); [set_solver|].
      by rewrite !bool_decide_eq_false_2 by set_solver.
  - intros <-. destruct (String.eqb_spec c "?") as [->|]; [constructor|].
    destruct (String.eqb_spec c "*") as [->|]; [constructor|].
    case_bool_decide; [by constructor|]. case_bool_decide; constructor; set_solver.
Qed.

Lemma glob_pieces cs : Forall2 glob_piece cs (map piece_of cs).
Proof. apply Forall2_fmap_r, Forall_Forall2_diag, Forall_forall. intros c _. by apply glob_piece_iff. Qed.

Lemma glob_pieces_unique cs ps : Forall2 glob_piece cs ps → ps = map piece_of cs.
Proof. induction 1 as [|c p cs ps <-%glob_piece_iff _ ->]; done. Qed.

Lemma glob_mentions_iff word literal :
  any glob_char (chars word) = true ∧
    (∃ re, build_glob_regex compiles word = Some re ∧ is_match re literal = true)
  ↔ glob_mentions word literal.
Proof.
  unfold glob_mentions, build_glob_regex. fold piece_of. rewrite any_true.
  unfold glob_char. setoid_rewrite bool_decide_eq_true.
  destruct (any (λ c, bool_decide (c ∉ ["?"; "*"; "["; "]"])) (chars word)) eqn:Ha.
  - apply any_true in Ha as (c & Hc & Hl%bool_decide_eq_true). cbn [andb].
    destruct (compiles (str_concat (map piece_of (chars word)))) eqn:Hcomp.
    + split.
      * intros (Hg & re & [= <-] & Hm). exists (map piece_of (chars word)).
        split_and!; eauto using glob_pieces.
      * intros (ps & ->%glob_pieces_unique & Hg & _ & _ & Hm). eauto.
    + split; [naive_solver|]. intros (ps & ->%glob_pieces_unique & _ & _ & Hx & _). congruence.
  - cbn [andb]. split; [naive_solver|]. intros (ps & _ & _ & (c & Hc & Hl) & _).
    pose proof (proj1 (any_false _ _) Ha c Hc) as Hx. by rewrite bool_decide_eq_false in Hx.
Qed.

Lemma find_exists {A} (f : A → bool) l :
  (∃ x, List.find f l = Some x) ↔ ∃ x, x ∈ l ∧ f x = true.
Proof.
  split; [intros (x & Hx%find_some); rewrite <- list_elem_of_In in Hx; eauto|].
  intros (x & Hx%list_elem_of_In & Hf). destruct (List.find f l) eqn:Hn; [eauto|].
  by rewrite (find_none _ _ Hn _ Hx) in Hf.
Qed.

Lemma sensitive_literal_iff literals a :
  sensitive_literal compiles literals a ≠ None ↔
  ∃ lit, lit ∈ literals ∧
    (contains_literal (to_lowercase a) lit ∨ glob_mentions (to_lowercase a) lit).
Proof.
  setoid_rewrite <- literal_matches_iff. setoid_rewrite <- glob_mentions_iff.
  unfold literal_matches. setoid_rewrite orb_true_iff. unfold sensitive_literal.
  set (w := to_lowercase a).
  destruct (List.find (λ lit, contains w lit) literals) as [x|] eqn:H1.
  { apply find_some in H1 as [Hx%list_elem_of_In Hc]. split; [|done]. intros _. exists x. tauto. }
  destruct (List.find (λ lit, contains (deglob w) lit) literals) as [x|] eqn:H2.
  { apply find_some in H2 as [Hx%list_elem_of_In Hc]. split; [|done]. intros _. exists x. tauto. }
  assert (∀ x, x ∈ literals → contains w x = false ∧ contains (deglob w) x = false) as Hno.
  { intros x Hx%list_elem_of_In. split; [by apply (find_none _ _ H1)|by apply (find_none _ _ H2)]. }
  destruct (any glob_char (chars w)).
  - destruct (build_glob_regex compiles w) as [re|].
    + rewrite not_eq_None_Some. unfold is_Some. rewrite find_exists. apply exist_proper. intros x. split.
      * intros [Hx Hm]. eauto 6.
      * intros (Hx & Hc). destruct (Hno x Hx) as [Hw Hd]. split; [done|].
        destruct Hc as [[?|?]|(_ & re' & [= <-] & Hm)]; [congruence|congruence|done].
    + split; [done|]. intros (x & Hx & Hc). destruct (Hno x Hx) as [Hw Hd].
      destruct Hc as [[?|?]|(_ & re' & ? & _)]; congruence.
  - split; [done|]. intros (x & Hx & Hc). destruct (Hno x Hx) as [Hw Hd].
    destruct Hc as [[?|?]|[? _]]; congruence.
Qed.

Lemma arg_matches_iff args :
  arg_matches_sensitive_path compiles args ≠ None ↔
  ∃ a literal, a ∈ args ∧ literal ∈ map to_lowercase LITERAL_BLOCKED_PATTERNS ∧
    (contains_literal (to_lowercase a) literal ∨ glob_mentions (to_lowercase a) literal).
Proof.
  induction args as [|a args IH]; cbn [arg_matches_sensitive_path].
  { split; [done|]. intros (a & l & Ha & _). by apply elem_of_nil in Ha. }
  pose proof (sensitive_literal_iff (map to_lowercase LITERAL_BLOCKED_PATTERNS) a) as Ha.
  destruct (sensitive_literal _ _ a) as [lit|].
  - split; [intros _|done]. destruct (proj1 Ha ltac:(done)) as (l & Hl). exists a, l. split; [left|done].
  - rewrite IH. split; [intros (a' & l & Hin & Hl); exists a', l; split; [by right|done]|].
    intros (a' & l & [->|Ha']%elem_of_cons & Hl & Hm); [|by exists a', l].
    destruct (proj2 Ha); [by exists l|done].
Qed.

Lemma literal_error_iff seg literal :
  literal_error compiles seg literal ≠ None ↔ mentioned (raw seg) literal.
Proof.
  unfold literal_error, mentioned. rewrite <- literal_matches_iff.
  setoid_rewrite <- glob_mentions_iff.
  assert (any (λ re, is_match re literal) (omap (build_glob_regex compiles)
            (filter (λ tok, any glob_char (chars tok) = true) (split_whitespace (to_lowercase (raw seg))))) = true ↔
          ∃ word, word ∈ split_whitespace (to_lowercase (raw seg)) ∧ any glob_char (chars word) = true ∧
            ∃ re, build_glob_regex compiles word = Some re ∧ is_match re literal = true) as <-.
  { rewrite any_true. setoid_rewrite list_elem_of_omap. setoid_rewrite list_elem_of_filter. naive_solver. }
  rewrite <- orb_true_iff. destruct (_ || _); naive_solver.
Qed.

Lemma policy_iff seg :
  check_structured_policy compiles seg ≠ None ↔ forbidden (binary seg) (args seg).
Proof.
  unfold check_structured_policy, forbidden.
  rewrite <- arg_matches_iff, <- git_policy_iff, <- rm_root_iff, <- !any_bundled.
  assert (is_python (binary seg) = true ↔
    binary seg ∈ ["python"; "python2"; "python3"] ∨ ∃ v, binary seg = "python3." +:+ v) as <-.
  { unfold is_python. by rewrite orb_true_iff, bool_decide_eq_true, starts_with_spec. }
  remember (bool_decide (binary seg ∈ ["perl"; "ruby"; "node"])) as interpreter eqn:Hi.
  assert (interpreter = true ↔ binary seg ∈ ["perl"; "ruby"; "node"]) as <-
    by (subst; apply bool_decide_eq_true).
  rewrite <- (String.eqb_eq _ "rm"), <- (String.eqb_eq _ "git"), <- !andb_true_iff.
  destruct (_ && arg_has_flag _ "c"); [naive_solver|].
  destruct (_ && arg_has_flag _ "e"); [naive_solver|].
  destruct (_ && rm_root _); [naive_solver|].
  destruct (binary seg =? "git")%string.
  - destruct (git_policy (args seg)); [naive_solver|].
    destruct (arg_matches_sensitive_path compiles (args seg)); naive_solver.
  - destruct (arg_matches_sensitive_path compiles (args seg)); naive_solver.
Qed.
End forbidding.

(** ** The splitting *)

Section operators.
Context `{RustUnicode}.

Definition splits prev q cs s : Prop :=
  let r := split_chars prev q cs s in
  ∃ t ts, commands prev cs (live q cs) (t :: ts) ∧ meta r = meta s || bool_decide (ts ≠ []) ∧
    push_segment (done r) (current r) = done s ++ omap parse_segment ((current s +:+ t) :: ts).

Lemma push_segment_omap segs raw : push_segment segs raw = segs ++ omap parse_segment [raw].
Proof. unfold push_segment. cbn. destruct (parse_segment raw); [done|by rewrite app_nil_r]. Qed.

(** A step of the splitting over [ch], to the state [r]. *)
Definition reads prev ch rest l lv s r : Prop :=
  ∃ t ts, commands prev (ch :: rest) (l :: lv) (t :: ts) ∧ meta r = meta s || bool_decide (ts ≠ []) ∧
    push_segment (done r) (current r) = done s ++ omap parse_segment ((current s +:+ t) :: ts).

Lemma splits_push prev q' ch rest s lv l :
  splits (Some ch) q' rest (push s ch) → live q' rest = lv →
  (l = true → operator prev ch (head rest) = false) →
  reads prev ch rest l lv s (split_chars (Some ch) q' rest (push s ch)).
Proof.
  intros (t & ts & Hc & Hm & Hp) <- Hop. exists (ch +:+ t), ts. split_and!.
  - apply commands_char; [|done]. destruct l; [by apply Hop|done].
  - exact Hm.
  - rewrite Hp. cbn [done current push]. by rewrite str_app_assoc.
Qed.

Lemma splits_cut prev ch rest s :
  splits (Some ch) Plain rest (cut s) →
  operator prev ch (head rest) = true → double ch (head rest) = false →
  reads prev ch rest true (live Plain rest) s (split_chars (Some ch) Plain rest (cut s)).
Proof.
  intros (t & ts & Hc & Hm & Hp) Hop Hd. exists "", (t :: ts). split_and!.
  - by apply commands_single.
  - rewrite Hm. cbn. by rewrite orb_true_r.
  - rewrite Hp. cbn [done current cut]. rewrite push_segment_omap, str_app_nil_r, <- app_assoc. cbn.
    by destruct (parse_segment (current s)).
Qed.

Lemma splits_double prev ch next rest s :
  splits (Some next) Plain rest (cut s) →
  operator prev ch (Some next) = true → double ch (Some next) = true →
  reads prev ch (next :: rest) true (live Plain (next :: rest)) s
    (split_chars (Some next) Plain rest (cut s)).
Proof.
  intros (t & ts & Hc & Hm & Hp) Hop Hd. exists "", (t :: ts).
  assert (live Plain (next :: rest) = true :: live Plain rest) as ->.
  { unfold double, char_is in Hd. cbn [live].
    destruct (String.eqb_spec "|" next) as [<-|]; [done|].
    destruct (String.eqb_spec "&" next) as [<-|]; [done|].
    destruct (String.eqb_spec "(" next) as [<-|]; [done|]. by rewrite !andb_false_r in Hd. }
  split_and!.
  - by apply commands_double.
  - rewrite Hm. cbn. by rewrite orb_true_r.
  - rewrite Hp. cbn [done current cut]. rewrite push_segment_omap, str_app_nil_r, <- app_assoc. cbn.
    by destruct (parse_segment (current s)).
Qed.

Lemma operator_simple prev c next : c ∈ [";"; newline; "|"; "`"] → operator prev c next = true.
Proof. intros Hc. unfold operator. by rewrite bool_decide_eq_true_2. Qed.

Lemma splits_nil prev q s : splits prev q [] s.
Proof.
  exists "", []. cbn. rewrite orb_false_r, push_segment_omap, str_app_nil_r. split_and!; [constructor|done|done].
Qed.

Lemma split_spec cs prev q s : splits prev q cs s.
Proof.
  remember (length cs) as n eqn:Hn. revert cs Hn prev q s.
  induction n as [n IH] using lt_wf_ind. intros cs -> prev q s.
  assert (∀ l p q' s', (length l < length cs)%nat → splits p q' l s') as IH'
    by (intros; by eapply IH). clear IH.
  destruct cs as [|ch rest]; [apply splits_nil|].
  unfold splits. destruct q; cbn [split_chars live].
  2, 3: apply splits_push; [apply IH'; cbn; lia|done|done].
  destruct (String.eqb_spec ch "\") as [->|Hb].
  { destruct rest as [|next rest].
    - apply (splits_push prev Plain "\" []); [apply splits_nil|done|done].
    - destruct (IH' rest (Some next) Plain (push (push s "\") next)) as (t & ts & Hc & Hm & Hp); [cbn; lia|].
      exists ("\" +:+ next +:+ t), ts. split_and!; [|exact Hm|].
      + by do 2 (apply commands_char; [done|]).
      + rewrite Hp. cbn [done current push]. by rewrite !str_app_assoc. }
  destruct (String.eqb_spec ch "'") as [->|Hq]; [apply splits_push; [apply IH'; cbn; lia|done|done]|].
  destruct (String.eqb_spec ch dquote) as [->|Hd]; [apply splits_push; [apply IH'; cbn; lia|done|done]|].
  assert (∀ p rest', (length rest' ≤ length rest)%nat → splits p Plain rest' (cut s)) as Hcut
    by (intros p rest' Hlen; apply IH'; cbn; lia).
  destruct (String.eqb_spec ch ";") as [->|Hs]; cbn [orb].
  { apply splits_cut; [by apply Hcut|apply operator_simple; set_solver|done]. }
  destruct (String.eqb_spec ch newline) as [->|Hnl].
  { apply splits_cut; [by apply Hcut|apply operator_simple; set_solver|done]. }
  destruct (String.eqb_spec ch "|") as [->|Hpipe].
  { destruct rest as [|next rest].
    { apply (splits_cut prev "|" []); [by apply Hcut|apply operator_simple; set_solver|done]. }
    destruct (String.eqb_spec next "|") as [->|Hn].
    - apply splits_double; [apply Hcut; cbn; lia|apply operator_simple; set_solver|done].
    - apply splits_cut; [by apply Hcut|apply operator_simple; set_solver|].
      unfold double. cbn [head char_is]. by rewrite (proj2 (String.eqb_neq "|" next)) by congruence. }
  destruct (String.eqb_spec ch "&") as [->|Hamp].
  { assert (∀ next, operator prev "&" next = negb (char_is ">" prev || char_is ">" next)) as Hop.
    { intros next. unfold operator. cbn. by destruct (char_is ">" prev). }
    destruct rest as [|next rest].
    { destruct (char_is ">" prev) eqn:Hp; [apply (splits_push prev Plain "&" [])|apply (splits_cut prev "&" [])];
        try done; try apply splits_nil; rewrite Hop; cbn; by rewrite ?Hp. }
    rewrite (String.eqb_sym next ">"). change (String.eqb ">" next) with (char_is ">" (Some next)).
    destruct (char_is ">" prev || char_is ">" (Some next)) eqn:Hr.
    - apply splits_push; [apply IH'; cbn; lia|done|]. intros _. rewrite Hop. cbn [head]. by rewrite Hr.
    - destruct (String.eqb_spec next "&") as [->|Hn].
      + apply splits_double; [apply Hcut; cbn; lia|by rewrite Hop, Hr|done].
      + apply splits_cut; [by apply Hcut|by rewrite Hop; cbn [head]; rewrite Hr|].
        unfold double. cbn [head char_is]. by rewrite (proj2 (String.eqb_neq "&" next)) by congruence. }
  destruct (String.eqb_spec ch "`") as [->|Hbt].
  { apply splits_cut; [by apply Hcut|apply operator_simple; set_solver|done]. }
  assert (bool_decide (ch ∈ [";"; newline; "|"; "`"]) = false) as Hno
    by (apply bool_decide_eq_false_2; set_solver).
  destruct (String.eqb_spec ch "$") as [->|Hdol].
  { destruct rest as [|next rest]; [apply (splits_push prev Plain "$" []); try done; apply splits_nil|].
    destruct (String.eqb_spec next "(") as [->|Hparen].
    - apply splits_double; [apply Hcut; cbn; lia|done|done].
    - apply splits_push; [apply IH'; cbn; lia|done|]. intros _.
      assert (char_is "(" (Some next) = false) as Hc by (cbn [char_is]; apply String.eqb_neq; congruence).
      unfold operator. cbn [head]. rewrite Hno, Hc. by rewrite andb_false_r. }
  apply splits_push; [apply IH'; cbn; lia|done|]. intros _. unfold operator. rewrite Hno.
  by rewrite (proj2 (String.eqb_neq ch "$") Hdol), (proj2 (String.eqb_neq ch "&") Hamp).
Qed.

Lemma tokenize_command_ok command :
  ∃ texts, commands None (chars command) (live Plain (chars command)) texts ∧
    segments (tokenize_command command) = omap parse_segment texts ∧
    has_metachar (tokenize_command command) = bool_decide (length texts ≠ 1%nat).
Proof.
  destruct (split_spec (chars command) None Plain (mkSplitting [] "" false)) as (t & ts & Hc & Hm & Hp).
  exists (t :: ts). split_and!; [done|exact Hp|]. unfold tokenize_command. cbn [has_metachar].
  rewrite Hm. cbn. apply bool_decide_ext. by destruct ts.
Qed.
End operators.

(** ** Verdicts *)

Section skipping.
Context `{RustUnicode}.

(** Options that git takes before its subcommand. *)
Inductive skipped : list string → Prop :=
| skipped_nil : skipped []
| skipped_flag f l : value_option f = false → global_flag f = true → skipped l → skipped (f :: l)
| skipped_joined o l : value_option o = true → contains o "=" = true → skipped l → skipped (o :: l)
| skipped_valued o v l :
    value_option o = true → contains o "=" = false → skipped l → skipped (o :: v :: l).

Lemma skip_git_options_spec tokens :
  match skip_git_options tokens with
  | Ret rest =>
    ∃ opts, tokens = opts ++ rest ∧ skipped opts ∧
      ∀ t, head rest = Some t → value_option t = false ∧ global_flag t = false
  | Panic => ∃ opts o, tokens = opts ++ [o] ∧ skipped opts ∧ value_option o = true ∧
                       contains o "=" = false
  end.
Proof.
  remember (length tokens) as n eqn:Hn. revert tokens Hn.
  induction n as [n IH] using lt_wf_ind. intros tokens ->.
  assert (∀ opts l, (length l < length tokens)%nat → tokens = opts ++ l →
    (∀ l', skipped l' → skipped (opts ++ l')) →
    match skip_git_options l with
    | Ret rest => ∃ opts, tokens = opts ++ rest ∧ skipped opts ∧
        ∀ t, head rest = Some t → value_option t = false ∧ global_flag t = false
    | Panic => ∃ opts o, tokens = opts ++ [o] ∧ skipped opts ∧ value_option o = true ∧
                         contains o "=" = false
    end) as Hgo.
  { intros opts l Hlen -> Hskip. specialize (IH (length l) Hlen l eq_refl).
    destruct (skip_git_options l) as [rest|].
    - destruct IH as (opts' & -> & Hs & Hr). exists (opts ++ opts').
      split_and!; [apply app_assoc|by apply Hskip|done].
    - destruct IH as (opts' & o & -> & Hs & Hr). exists (opts ++ opts'), o.
      split_and!; [apply app_assoc|by apply Hskip|tauto|tauto]. }
  clear IH. destruct tokens as [|tok rest]; cbn [skip_git_options].
  { exists []. split_and!; [done|constructor|done]. }
  destruct (value_option tok) eqn:Hv.
  - destruct (contains tok "=") eqn:He.
    + apply (Hgo [tok]); [cbn; lia|done|]. intros l' Hl'. by apply skipped_joined.
    + destruct rest as [|v rest].
      * exists [], tok. split_and!; [done|constructor|done|done].
      * apply (Hgo [tok; v]); [cbn; lia|done|]. intros l' Hl'. by apply skipped_valued.
  - destruct (global_flag tok) eqn:Hf.
    + apply (Hgo [tok]); [cbn; lia|done|]. intros l' Hl'. by apply skipped_flag.
    + exists []. split_and!; [done|constructor|]. by intros t [= <-].
Qed.

End skipping.


Section verdicts.
Context `{RustUnicode} `{RustRegex} (compiles : string → bool).
Implicit Types (self : ShellSecurityConfig) (command : string).

(** A text starts a program with arguments. *)
Definition starts (text program : string) (args : list string) : Prop :=
  ∃ word name, words (trim text) = word :: args ∧ base_name word name ∧ program = to_lowercase name.

Lemma parse_segment_iff text seg :
  parse_segment text = Some seg ↔ starts text (binary seg) (args seg) ∧ raw seg = trim text.
Proof.
  unfold parse_segment, starts. rewrite tokenize_segment_words. split.
  - destruct (str_is_empty _); [done|]. destruct (words _) as [|w ws] eqn:Hw; [done|].
    intros [= <-]. cbn. split; [|done]. exists w, (after_last_slash w).
    split_and!; [done|apply after_last_slash_ok|done].
  - intros ((word & name & Hw & Hn & Hb) & Hr). rewrite Hw.
    rewrite (base_name_unique word _ _ (after_last_slash_ok word) Hn).
    destruct (str_is_empty (trim text)) eqn:He; [by destruct (trim text)|].
    destruct seg. cbn in *. by subst.
Qed.

(** What the check asks of every text between operators. *)
Definition text_clear self (text : string) : Prop :=
  ∀ program args, starts text program args →
    (∀ lit, lit ∈ literal_patterns self → ¬ mentioned compiles (trim text) lit) ∧
    ¬ forbidden compiles program args.

(** The allowlist, where it is enforced. *)
Definition allowed self (texts : list string) : Prop :=
  allowlist_mode self = Strict →
  ∃ text, texts = [text] ∧ ∀ program args, starts text program args → program ∈ allowlist self.

Lemma segment_error_None self text seg :
  parse_segment text = Some seg →
  segment_error compiles self seg = None ↔
  (∀ lit, lit ∈ literal_patterns self → ¬ mentioned compiles (trim text) lit) ∧
  ¬ forbidden compiles (binary seg) (args seg).
Proof.
  intros [_ Hraw]%parse_segment_iff. unfold segment_error. rewrite <- Hraw, <- policy_iff.
  setoid_rewrite <- literal_error_iff.
  assert (first_error (literal_error compiles seg) (literal_patterns self) = None ↔
    ∀ lit, lit ∈ literal_patterns self → ¬ literal_error compiles seg lit ≠ None) as <-.
  { rewrite first_error_None, Forall_forall. apply forall_proper. intros lit.
    destruct (literal_error compiles seg lit); naive_solver. }
  destruct (first_error _ _); [naive_solver|]. destruct (check_structured_policy compiles seg); naive_solver.
Qed.

Lemma segments_clear self texts :
  first_error (segment_error compiles self) (omap parse_segment texts) = None ↔
  ∀ text, text ∈ texts → text_clear self text.
Proof.
  rewrite first_error_None, Forall_forall. setoid_rewrite list_elem_of_omap. split.
  - intros Hall text Hin program args Hs. pose proof Hs as (word & name & Hw & Hn & Hp).
    set (seg := mkCommandSegment program args (trim text)).
    assert (parse_segment text = Some seg) as Hseg by (by apply parse_segment_iff).
    apply (segment_error_None self text seg Hseg), Hall. eauto.
  - intros Hall seg (text & Hin & Hseg). apply (segment_error_None self text seg Hseg).
    apply (Hall text Hin). by apply parse_segment_iff in Hseg as [Hs _].
Qed.

Lemma allowlist_check_None self t texts :
  segments t = omap parse_segment texts → has_metachar t = bool_decide (length texts ≠ 1%nat) →
  allowlist_check self t = None ↔ allowed self texts.
Proof.
  intros Hs Hm. unfold allowlist_check, allowed. rewrite Hm, Hs. clear Hm Hs. destruct (allowlist_mode self) eqn:Hmode.
  - done.
  - rewrite andb_false_r, first_error_None. split; [done|]. intros _.
    apply Forall_forall. intros seg _. unfold allowlist_error. rewrite Hmode. by case_bool_decide.
  - rewrite andb_true_r. case_bool_decide as Hl.
    { split; [done|]. intros Ha. destruct (Ha eq_refl) as (text & -> & _). done. }
    destruct texts as [|text [|]]; cbn in Hl; [lia| |lia]. rewrite first_error_None.
    rewrite Forall_forall. setoid_rewrite list_elem_of_omap. unfold allowlist_error. rewrite Hmode. split.
    + intros Hall _. exists text. split; [done|]. intros program args Hst.
      specialize (Hall (mkCommandSegment program args (trim text))). cbn in Hall.
      case_bool_decide; [done|]. discriminate Hall. exists text. split; [set_solver|].
      by apply parse_segment_iff.
    + intros Ha seg (text' & Hin & Hseg). destruct (Ha eq_refl) as (? & [= <-] & Hp).
      apply list_elem_of_singleton in Hin as ->. apply parse_segment_iff in Hseg as [Hst _].
      by rewrite bool_decide_eq_true_2 by eauto.
Qed.

Lemma run_checks_ok self command full :
  ∃ texts, commands None (chars command) (live Plain (chars command)) texts ∧
  (run_checks compiles self command full = Ok tt ↔
   (∀ p, p ∈ compiled_patterns self → is_match p command = false ∧ is_match p full = false) ∧
   (∀ text, text ∈ texts → text_clear self text) ∧ allowed self texts).
Proof.
  destruct (tokenize_command_ok command) as (texts & Hc & Hs & Hm). exists texts. split; [done|].
  unfold run_checks. rewrite <- segments_clear, <- (allowlist_check_None self _ texts Hs Hm), <- Hs.
  rewrite <- Forall_forall.
  assert (first_error (pattern_error command full) (compiled_patterns self) = None ↔
          Forall (λ p, is_match p command = false ∧ is_match p full = false) (compiled_patterns self)) as <-.
  { rewrite first_error_None. apply Forall_iff. intros p. unfold pattern_error.
    destruct (is_match p command), (is_match p full); naive_solver. }
  destruct (first_error _ (compiled_patterns self)); [naive_solver|].
  destruct (first_error _ (segments _)); [naive_solver|].
  destruct (allowlist_check _ _); naive_solver.
Qed.
End verdicts.

(** C20: Which commands an enabled check accepts. It panics exactly on a git
    command whose options end in one that lacks its value. Otherwise it accepts
    a command exactly when no pattern matches it, as it is or with the options
    before the git subcommand taken out; when none of the texts between the
    operators outside quotes that starts a program mentions a prohibited path,
    as it is, without its globs or as a glob; when none of them starts a
    program with forbidden arguments (code for an interpreter, a forced and
    recursive [rm] of the root, a destructive subcommand of git, a prohibited
    path); and, with a strict allowlist, when there is no operator outside
    quotes and the program is on the list. *)
Theorem shell_commands `{RustUnicode} `{RustRegex} (compiles : string → bool) self command :
  enabled self = true →
  match validate_command compiles self command with
  | Panic =>
    is_match GIT_CMD_RE command = true ∧
    ∃ git opts o, split_whitespace command = git :: opts ++ [o] ∧ skipped opts ∧
      value_option o = true ∧ contains o "=" = false
  | Ret r =>
    ∃ full texts,
      (full = command ∧ (is_match GIT_CMD_RE command = false ∨ split_whitespace command = []) ∨
       is_match GIT_CMD_RE command = true ∧
       ∃ git opts rest, split_whitespace command = git :: opts ++ rest ∧ skipped opts ∧
         (∀ t, head rest = Some t → value_option t = false ∧ global_flag t = false) ∧
         full = join " " (git :: rest)) ∧
      commands None (chars command) (live Plain (chars command)) texts ∧
      (r = Ok tt ↔
       (∀ p, p ∈ compiled_patterns self → is_match p command = false ∧ is_match p full = false) ∧
       (∀ text program args, text ∈ texts → starts text program args →
          (∀ lit, lit ∈ literal_patterns self → ¬ mentioned compiles (trim text) lit) ∧
          ¬ forbidden compiles program args) ∧
       (allowlist_mode self = Strict →
          ∃ text, texts = [text] ∧
            ∀ program args, starts text program args → program ∈ allowlist self))
  end.
Proof.
  intros He. unfold validate_command. rewrite He. cbn [negb].
  destruct (normalize_git_command command) as [full|] eqn:Hn; cbn [mbind outcome_bind].
  - destruct (run_checks_ok compiles self command full) as (texts & Hc & Hr). exists full, texts.
    split; [|split; [done|]].
    2: { rewrite Hr. unfold text_clear, allowed.
         split; intros (Hp & Ht & Ha); (split; [exact Hp|split; [|exact Ha]]); intros; by eapply Ht. }
    unfold normalize_git_command in Hn.
    destruct (is_match GIT_CMD_RE command); cbn [negb] in Hn; [|injection Hn as <-; left; by auto].
    destruct (split_whitespace command) as [|git tokens]; [injection Hn as <-; left; by auto|right].
    pose proof (skip_git_options_spec tokens) as Hs.
    destruct (skip_git_options tokens) as [rest|]; [|done]. injection Hn as <-.
    destruct Hs as (opts & -> & Hs & Hh). split; [done|]. by exists git, opts, rest.
  - unfold normalize_git_command in Hn. destruct (is_match GIT_CMD_RE command); [|done].
    split; [done|]. cbn [negb] in Hn. destruct (split_whitespace command) as [|git tokens]; [done|].
    pose proof (skip_git_options_spec tokens) as Hs.
    destruct (skip_git_options tokens) as [rest|]; [done|].
    destruct Hs as (opts & o & -> & Hs & Hv & Hc). by exists git, opts, o.
Qed.

(** ** Evaluation *)

Module Example_shell.

(** Literal matching, with [git] for the pattern of a git command. *)
Definition text_of (pattern : string) : string :=
  if String.eqb pattern GIT_CMD_RE then "git" else pattern.

#[global] Instance regex : RustRegex := {|
  find_iter p t := Literal.matches (text_of p) t (S (String.length t)) 0 0;
  find_iter_ok p t := Literal.matches_in_order (text_of p) t _ 0 0;
|}.

Definition only_echo : ShellSecurityConfig :=
  mkShellSecurityConfig [] (map to_lowercase LITERAL_BLOCKED_PATTERNS) true ["echo"] Strict.

Definition verdict (command : string) : outcome (result ZeptoError unit) :=
  validate_command (λ _, true) only_echo command.

Example accepted : verdict "echo a" = Ret (Ok tt).
Proof. by_compute. Qed.

Example chained :
  verdict "echo a; id" =
  Ret (Err (violation "Command blocked: contains shell metacharacters that bypass allowlist")).
Proof. by_compute. Qed.

Example prohibited :
  verdict "echo /e[t]c/passwd" =
  Ret (Err (violation "Command blocked: contains prohibited path '/etc/passwd'")).
Proof. by_compute. Qed.

(** A shell runs [id] in each of these, which a strict list of [echo] accepts. *)
Example substitution_in_quotes : verdict ("echo " +:+ dquote +:+ "$(id)" +:+ dquote) = Ret (Ok tt).
Proof. by_compute. Qed.
Example escaped_redirection : verdict "echo \>&id" = Ret (Ok tt).
Proof. by_compute. Qed.
Example process_substitution : verdict "echo <(id)" = Ret (Ok tt).
Proof. by_compute. Qed.

(** An option without its value. *)
Example missing_value : verdict "git -C" = Panic.
Proof. by_compute. Qed.
End Example_shell.

Lemma shell_commands_witness :
  Example_shell.verdict "echo a" = Ret (Ok tt) ∧
  ∀ program args, starts "echo a" program args → program ∈ allowlist Example_shell.only_echo.
Proof.
  split; [vm_compute; reflexivity|].
  pose proof (shell_commands (λ _, true) Example_shell.only_echo "echo a" eq_refl) as H.
  fold (Example_shell.verdict "echo a") in H. rewrite Example_shell.accepted in H.
  destruct H as (full & texts & _ & Hc & Hr). destruct (proj1 Hr eq_refl) as (_ & _ & Ha).
  destruct (Ha eq_refl) as (text & -> & Hp).
  pose proof (commands_whole _ _ _ _ Hc text eq_refl) as ->. exact Hp.
Defined.
