(* ===== verification/Paths.v ===== *)
(** Which files a tool may touch: src/src/security/path.rs.

    A path is its components; the file system is the interface [FileSystem] over
    a state, of which reading is a function and creating a directory a step.
    Changes by others between two steps are not modelled. *)

From S2P Require Import Prelude Text Errors.

(** ** Paths *)

Inductive Component : Type := RootDir | CurDir | ParentDir | Normal (name : string).

#[export] Instance Component_eq_dec : EqDecision Component.
Proof. solve_decision. Defined.

(** A path without [.] and [..]. *)
Record Path : Type := mkPath {
  absolute : bool;
  names : list string;
}.

#[export] Instance Path_eq_dec : EqDecision Path.
Proof. solve_decision. Defined.

Fixpoint split_slash (cs : list string) (current : string) : list string :=
  match cs with
  | [] => [current]
  | c :: cs => if String.eqb c "/" then current :: split_slash cs "" else split_slash cs (current +:+ c)
  end.

Definition component_of (part : string) : Component :=
  if String.eqb part "." then CurDir else if String.eqb part ".." then ParentDir else Normal part.

(** [Path::components]; [.] stays where it starts a relative path. *)
Definition components (s : string) : list Component :=
  let parts := map component_of (filter (λ p, p ≠ "") (split_slash (chars s) "")) in
  let inner := filter (λ c, c ≠ CurDir) (tail parts) in
  if starts_with s "/" then RootDir :: filter (λ c, c ≠ CurDir) parts
  else match parts with c :: _ => c :: inner | [] => [] end.

Definition is_absolute (p : list Component) : bool := bool_decide (head p = Some RootDir).

(** [Path::join]. *)
Definition join_path (base p : list Component) : list Component :=
  if is_absolute p then p else base ++ filter (λ c, c ≠ CurDir) p.

Definition pop (p : Path) : Path := mkPath (absolute p) (removelast (names p)).
Definition push (p : Path) (name : string) : Path := mkPath (absolute p) (names p ++ [name]).

Definition of_path (p : Path) : list Component :=
  (if absolute p then [RootDir] else []) ++ map Normal (names p).

(** [Path::starts_with]: component by component, so that everything starts with
    the empty path. *)
Definition starts_with_path (p base : Path) : bool := bool_decide (of_path base `prefix_of` of_path p).

(** [Path::strip_prefix]. *)
Definition strip_base (p base : Path) : option (list Component) :=
  if starts_with_path p base then Some (drop (length (of_path base)) (of_path p)) else None.

(** [PathBuf::push] of a component of a path without [.] and [..]. *)
Definition push_component (p : Path) (c : Component) : Path :=
  match c with
  | RootDir => mkPath true []
  | Normal name => push p name
  | CurDir | ParentDir => p
  end.

Definition display (p : Path) : string :=
  (if absolute p then "/" else "") +:+ join "/" (names p).

(** ** The file system *)

Inductive FileType : Type := Symlink | Directory | RegularFile.

#[export] Instance FileType_eq_dec : EqDecision FileType.
Proof. solve_decision. Defined.

Inductive IoError : Type := NotFound | AlreadyExists | OtherError (text : string).

Definition io_text (e : IoError) : string :=
  match e with
  | NotFound => "No such file or directory (os error 2)"
  | AlreadyExists => "File exists (os error 17)"
  | OtherError t => t
  end.

(** [canonicalize] takes a path as it was written, symbolic links and [..]
    included. *)
Class FileSystem (W : Type) := {
  canonicalize : W → list Component → option Path;
  symlink_metadata : W → Path → result IoError FileType;
  link_count : W → Path → result IoError Z;
  create_dir : W → Path → result IoError unit * W;
}.

(** ** The checks *)

Section path.
Context `{RustUnicode} {W : Type} `{FileSystem W}.
Implicit Types (w : W) (p base : Path).

Definition canonical w p : option Path := canonicalize w (of_path p).

Definition traversal_patterns : list string :=
  [".."; "%2e%2e"; "%252e%252e"; "..%2f"; "%2f.."; "..\"; "\..\"].

Definition contains_traversal_pattern (path : string) : bool :=
  any (contains (to_lowercase path)) traversal_patterns.

Definition normalize_step (acc : Path) (c : Component) : Path :=
  match c with
  | ParentDir => pop acc
  | CurDir => acc
  | RootDir => mkPath true []
  | Normal n => push acc n
  end.

Definition normalize_lexically (p : list Component) : Path := foldl normalize_step (mkPath false []) p.

Definition normalize_path w (p : list Component) : Path :=
  let normalized := normalize_lexically p in
  match canonical w normalized with Some c => c | None => normalized end.

Definition canonical_workspace w (workspace : string) : Path :=
  match canonicalize w (components workspace) with
  | Some c => c
  | None => normalize_path w (components workspace)
  end.

Definition escape_error p canonical : ZeptoError :=
  SecurityViolation ("Symlink escape detected: '" +:+ display p +:+ "' resolves to '"
                     +:+ display canonical +:+ "' which is outside workspace").
Definition dangling_error p : ZeptoError :=
  SecurityViolation ("Dangling symlink detected: '" +:+ display p
                     +:+ "' target does not exist and cannot be validated").

(** One component of [check_symlink_escape]. *)
Definition component_error w base current : option ZeptoError :=
  match symlink_metadata w current with
  | Err _ => None
  | Ok Symlink =>
    match canonical w current with
    | Some c => if starts_with_path c base then None else Some (escape_error current c)
    | None => Some (dangling_error current)
    end
  | Ok Directory =>
    match canonical w current with
    | Some c => if starts_with_path c base then None else Some (escape_error current c)
    | None => None
    end
  | Ok RegularFile => None
  end.

Fixpoint check_components w base current (rest : list Component) : result ZeptoError unit :=
  match rest with
  | [] => Ok tt
  | component :: rest =>
    let current := push_component current component in
    match component_error w base current with
    | Some e => Err e
    | None => check_components w base current rest
    end
  end.

Definition check_symlink_escape w p base : result ZeptoError unit :=
  match strip_base p base with
  | Some relative => check_components w base base relative
  | None => Ok tt
  end.

Definition validate_path_in_workspace w (path workspace : string) : result ZeptoError Path :=
  if contains_traversal_pattern path
  then Err (SecurityViolation ("Path contains suspicious traversal pattern: " +:+ path))
  else
    let resolved := join_path (components workspace) (components path) in
    let normalized := normalize_path w resolved in
    let base := canonical_workspace w workspace in
    match check_symlink_escape w normalized base with
    | Err e => Err e
    | Ok _ =>
      if starts_with_path normalized base then Ok normalized
      else Err (SecurityViolation ("Path escapes workspace: " +:+ path +:+ " is not within "
                                   +:+ workspace))
    end.

Definition revalidate_path w p (workspace : string) : result ZeptoError unit :=
  let base := canonical_workspace w workspace in
  match check_symlink_escape w p base with
  | Err e => Err e
  | Ok _ =>
    match canonical w p with
    | Some c =>
      if starts_with_path c base then Ok tt
      else Err (SecurityViolation ("Path escaped workspace between validation and use: '"
                  +:+ display p +:+ "' resolves to '" +:+ display c +:+ "'"))
    | None => Ok tt
    end
  end.

Definition check_hardlink_write w p : result ZeptoError unit :=
  match link_count w p with
  | Ok n =>
    if 1 <? n
    then Err (SecurityViolation ("Write blocked: '" +:+ display p +:+ "' has " +:+ fmt_Z n
                +:+ " hard links and may alias content outside workspace"))
    else Ok tt
  | Err NotFound => Ok tt
  | Err e => Err (Errors.Tool ("Failed to check file metadata for '" +:+ display p +:+ "': "
                               +:+ io_text e))
  end.

(** *** Directories *)

(** What [ensure_directory_chain_secure] does when the component does not exist. *)
Definition make_directory w current : result ZeptoError unit * W :=
  let '(made, w) := create_dir w current in
  match made with
  | Ok _ | Err AlreadyExists =>
    match symlink_metadata w current with
    | Err e => (Err (Errors.Tool ("Failed to inspect directory '" +:+ display current
                       +:+ "' after creation: " +:+ io_text e)), w)
    | Ok Directory => (Ok tt, w)
    | Ok _ => (Err (SecurityViolation ("Directory '" +:+ display current
                      +:+ "' became unsafe during creation")), w)
    end
  | Err e => (Err (Errors.Tool ("Failed to create directory '" +:+ display current +:+ "': "
                     +:+ io_text e)), w)
  end.

(** One turn of the loop. *)
Definition ensure_component w base current : result ZeptoError unit * W :=
  match check_symlink_escape w current base with
  | Err e => (Err e, w)
  | Ok _ =>
    let '(r, w) :=
      match symlink_metadata w current with
      | Ok Symlink => (Err (SecurityViolation ("Symlink escape detected while creating directory '"
                              +:+ display current +:+ "'")), w)
      | Ok Directory => (Ok tt, w)
      | Ok RegularFile => (Err (SecurityViolation ("Cannot create directory '" +:+ display current
                              +:+ "': existing path is not a directory")), w)
      | Err NotFound => make_directory w current
      | Err e => (Err (Errors.Tool ("Failed to inspect directory '" +:+ display current +:+ "': "
                         +:+ io_text e)), w)
      end in
    match r with
    | Err e => (Err e, w)
    | Ok _ =>
      match canonical w current with
      | Some c =>
        if starts_with_path c base then (Ok tt, w)
        else (Err (SecurityViolation ("Directory '" +:+ display current
                     +:+ "' resolves outside workspace to '" +:+ display c +:+ "'")), w)
      | None => (Ok tt, w)
      end
    end
  end.

Fixpoint ensure_components w base current (rest : list Component)
    : result ZeptoError unit * W :=
  match rest with
  | [] => (Ok tt, w)
  | component :: rest =>
    let current := push_component current component in
    match ensure_component w base current with
    | (Ok _, w) => ensure_components w base current rest
    | (Err e, w) => (Err e, w)
    end
  end.

Definition ensure_directory_chain_secure w (p : list Component) (workspace : string)
    : result ZeptoError unit * W :=
  let base := canonical_workspace w workspace in
  let normalized := normalize_path w p in
  match strip_base normalized base with
  | Some relative => ensure_components w base base relative
  | None =>
    (Err (SecurityViolation ("Directory path escapes workspace: '" +:+ display normalized
            +:+ "' is not within '" +:+ display base +:+ "'")), w)
  end.
End path.

(** ** What is guaranteed *)

(** What the checks rely on: a path resolves only if its parent does, a regular
    file where its parent is, and whatever resolves is there to be looked at;
    a canonical path resolves to itself; a directory is made where its parent
    resolves, and moves nothing. (The parent of a name alone is the empty path,
    which does not resolve.) *)
Class FileSystemLaws (W : Type) `{FileSystem W} := {
  canonical_parent (w : W) p n q :
    p ≠ mkPath false [] → canonical w (push p n) = Some q →
    ∃ q', canonical w p = Some q' ∧
          (symlink_metadata w (push p n) = Ok RegularFile → q = push q' n);
  canonical_exists (w : W) p n q :
    canonical w (push p n) = Some q → ∃ t, symlink_metadata w (push p n) = Ok t;
  canonical_fixed (w : W) raw c : canonicalize w raw = Some c → canonical w c = Some c;
  create_dir_refused (w : W) p e w' : create_dir w p = (Err e, w') → w' = w;
  create_dir_made (w : W) p n w' :
    p ≠ mkPath false [] → create_dir w (push p n) = (Ok tt, w') →
    is_Some (canonical w p) ∧
    ∀ p' q, canonical w p' = Some q → canonical w' p' = Some q;
}.

Definition inside (base p : Path) : Prop := starts_with_path p base = true.

Definition extend (base : Path) (rel : list string) : Path :=
  mkPath (absolute base) (names base ++ rel).

Lemma extend_nil base : extend base [] = base.
Proof. unfold extend. rewrite app_nil_r. by destruct base. Qed.

Lemma extend_snoc base rel n : extend base (rel ++ [n]) = push (extend base rel) n.
Proof. unfold extend, push. cbn. by rewrite app_assoc. Qed.

Lemma extend_cons base n rel : extend base (n :: rel) = extend (push base n) rel.
Proof. unfold extend, push. cbn. by rewrite <- app_assoc. Qed.

Lemma of_extend base rel : of_path (extend base rel) = of_path base ++ map Normal rel.
Proof. unfold of_path, extend. cbn. by rewrite map_app, app_assoc. Qed.

#[export] Instance Normal_inj : Inj (=) (=) Normal.
Proof. by intros x y [= ->]. Qed.

Lemma prefix_Normal (ns ns' : list string) : map Normal ns `prefix_of` map Normal ns' → ns `prefix_of` ns'.
Proof.
  intros [k Hk]. apply map_eq_app in Hk as (l1 & l2 & -> & H1 & _). exists l2. f_equal.
  by apply (inj (fmap Normal)) in H1.
Qed.

Lemma prefix_of_path base p :
  base ≠ mkPath false [] → of_path base `prefix_of` of_path p → ∃ rel, p = extend base rel.
Proof.
  intros Hb Hp. destruct base as [a ns], p as [a' ns']. unfold of_path in Hp. cbn in Hp.
  assert (a = a' ∧ ns `prefix_of` ns') as [-> [rel ->]]; [|by exists rel].
  destruct a, a'; cbn in Hp.
  - split; [done|]. apply prefix_cons_inv_2 in Hp. by apply prefix_Normal.
  - destruct ns'; cbn in Hp; [by apply prefix_nil_not in Hp|]. by apply prefix_cons_inv_1 in Hp.
  - destruct ns; [done|]. by apply prefix_cons_inv_1 in Hp.
  - split; [done|]. by apply prefix_Normal.
Qed.

Lemma inside_extend base p : base ≠ mkPath false [] → inside base p ↔ ∃ rel, p = extend base rel.
Proof.
  intros Hb. unfold inside, starts_with_path. rewrite bool_decide_eq_true. split.
  - by apply prefix_of_path.
  - intros [rel ->]. rewrite of_extend. by eexists.
Qed.

Lemma inside_refl base : inside base base.
Proof. unfold inside, starts_with_path. by apply bool_decide_eq_true. Qed.

Lemma inside_push base p n : inside base p → inside base (push p n).
Proof.
  unfold inside, starts_with_path. rewrite !bool_decide_eq_true. intros Hp.
  etrans; [exact Hp|]. unfold of_path, push. cbn. rewrite map_app, app_assoc. by eexists.
Qed.

Lemma strip_base_extend base rel : strip_base (extend base rel) base = Some (map Normal rel).
Proof.
  unfold strip_base, starts_with_path. rewrite of_extend, bool_decide_eq_true_2 by by eexists.
  by rewrite drop_app_length.
Qed.

Lemma strip_base_None p base : strip_base p base = None ↔ ¬ inside base p.
Proof. unfold strip_base, inside. by destruct (starts_with_path p base). Qed.

Section guarantees.
Context `{RustUnicode} {W : Type} `{FileSystemLaws W}.
Implicit Types (w : W) (p base : Path).

(** Wherever [p] leads, it is under [base]. *)
Definition resolves_inside w base p : Prop := ∀ q, canonical w p = Some q → inside base q.

Lemma component_inside w base p n :
  p ≠ mkPath false [] → component_error w base (push p n) = None → resolves_inside w base p →
  resolves_inside w base (push p n).
Proof.
  intros Hne Hc Hp q Hq. destruct (canonical_exists w p n q Hq) as [t Ht].
  destruct (canonical_parent w p n q Hne Hq) as (q' & Hq' & Hfile).
  unfold component_error in Hc. rewrite Ht in Hc. destruct t.
  - rewrite Hq in Hc. unfold inside. by destruct (starts_with_path q base).
  - rewrite Hq in Hc. unfold inside. by destruct (starts_with_path q base).
  - rewrite (Hfile Ht). apply inside_push. by apply Hp.
Qed.

Lemma push_not_empty p n : push p n ≠ mkPath false [].
Proof. unfold push. intros [= _ Hn]. by destruct (names p). Qed.

Lemma check_components_inside w base rel : ∀ p,
  p ≠ mkPath false [] → check_components w base p (map Normal rel) = Ok tt →
  resolves_inside w base p → ∀ k, resolves_inside w base (extend p (take k rel)).
Proof.
  induction rel as [|n rel IH]; intros p Hne Hc Hp k.
  { rewrite take_nil, extend_nil. done. }
  cbn [map check_components push_component] in Hc.
  destruct (component_error w base (push p n)) eqn:He; [done|].
  destruct k as [|k]; [by rewrite take_0, extend_nil|]. cbn [take]. rewrite extend_cons.
  apply IH; [apply push_not_empty|done|]. by apply component_inside.
Qed.

Lemma workspace_inside w workspace :
  resolves_inside w (canonical_workspace w workspace) (canonical_workspace w workspace).
Proof.
  intros q. unfold canonical_workspace, normalize_path.
  destruct (canonicalize w (components workspace)) as [c|] eqn:Hc.
  { rewrite (canonical_fixed w _ c Hc). intros [= <-]. apply inside_refl. }
  destruct (canonical w (normalize_lexically (components workspace))) as [c|] eqn:Hl.
  - rewrite (canonical_fixed w _ c Hl). intros [= <-]. apply inside_refl.
  - rewrite Hl. done.
Qed.

(** What [check_symlink_escape] establishes of a path under the workspace. *)
Lemma symlink_escape_checked w base rel :
  base ≠ mkPath false [] → resolves_inside w base base →
  check_symlink_escape w (extend base rel) base = Ok tt →
  ∀ k, resolves_inside w base (extend base (take k rel)).
Proof.
  intros Hne Hb Hc. unfold check_symlink_escape in Hc. rewrite strip_base_extend in Hc.
  by apply check_components_inside.
Qed.

(** One directory made, its parent resolving inside. *)
Definition makes_directory base w w' : Prop :=
  ∃ p n, inside base p ∧ resolves_inside w base p ∧
         symlink_metadata w (push p n) = Err NotFound ∧ create_dir w (push p n) = (Ok tt, w').

Lemma parent_resolves w p rel q :
  p ≠ mkPath false [] → canonical w (extend p rel) = Some q → is_Some (canonical w p).
Proof.
  intros Hp. revert q. induction rel as [|n rel IH] using rev_ind; intros q; [by rewrite extend_nil; eauto|].
  rewrite extend_snoc. intros Hq.
  destruct (canonical_parent w (extend p rel) n q) as (q' & Hq' & _); [|done|by eapply IH].
  destruct p as [a ns], rel, ns; unfold extend; cbn; congruence.
Qed.

Lemma made_directory w base p n r w' :
  base ≠ mkPath false [] → inside base p → resolves_inside w base base → resolves_inside w base p →
  symlink_metadata w (push p n) = Err NotFound →
  make_directory w (push p n) = (r, w') →
  (w' = w ∨ makes_directory base w w') ∧ resolves_inside w' base base ∧
  (r = Ok tt → symlink_metadata w' (push p n) = Ok Directory).
Proof.
  intros Hbase Hp Hb Hpi Hnone. unfold make_directory.
  destruct (create_dir w (push p n)) as [[[]|e] w1] eqn:Hmk; intros Hr.
  - assert (w' = w1 ∧ (r = Ok tt → symlink_metadata w1 (push p n) = Ok Directory)) as [-> Hd].
    { by destruct (symlink_metadata w1 _) as [[]|]; simplify_eq. }
    split_and!; [| |done].
    + right. by exists p, n.
    + pose proof Hp as [rel ->]%inside_extend; [|done].
      assert (extend base rel ≠ mkPath false []) as Hne.
      { intros He. apply Hbase. destruct base as [a [|]], rel; unfold extend in He; cbn in He; congruence. }
      destruct (create_dir_made w _ n w1 Hne Hmk) as [[q Hq] Hkeep].
      destruct (parent_resolves w base rel q Hbase Hq) as [qb Hqb].
      intros q'. rewrite (Hkeep _ _ Hqb). intros [= <-]. by apply Hb.
  - apply create_dir_refused in Hmk as ->.
    rewrite Hnone in Hr. assert (w' = w ∧ r ≠ Ok tt) as [-> Hne]; [by destruct e; simplify_eq|].
    split_and!; [by left|done|done].
Qed.

Lemma ensure_component_inside w base rel n r w' :
  base ≠ mkPath false [] → resolves_inside w base base →
  ensure_component w base (push (extend base rel) n) = (r, w') →
  rtc (makes_directory base) w w' ∧ resolves_inside w' base base ∧
  (r = Ok tt → symlink_metadata w' (push (extend base rel) n) = Ok Directory ∧
               resolves_inside w' base (push (extend base rel) n)).
Proof.
  intros Hbase Hb. unfold ensure_component. set (current := push (extend base rel) n).
  destruct (check_symlink_escape w current base) as [[]|e] eqn:Hc; [|by intros [= <- <-]; repeat split].
  assert (∀ k, resolves_inside w base (extend base (take k (rel ++ [n])))) as Hall.
  { apply symlink_escape_checked; [done..|]. by rewrite extend_snoc. }
  pose proof (Hall (length rel)) as Hparent. rewrite take_app_length in Hparent.
  destruct (match symlink_metadata w current with
            | Ok Symlink => _ | Ok Directory => _ | Ok RegularFile => _ | Err NotFound => _ | Err _ => _
            end) as [r1 w1] eqn:Hmid.
  assert ((w1 = w ∨ makes_directory base w w1) ∧ resolves_inside w1 base base ∧
          (r1 = Ok tt → symlink_metadata w1 current = Ok Directory)) as (Hstep & Hb1 & Hdir).
  { destruct (symlink_metadata w current) as [[]|[]] eqn:Hm; simplify_eq;
      try (split_and!; by auto).
    eapply made_directory; try done. by apply inside_extend; [|exists rel]. }
  assert (rtc (makes_directory base) w w1) as Hrtc; [destruct Hstep as [->|]; [done|by apply rtc_once]|].
  destruct r1 as [[]|e]; [|by intros [= <- <-]].
  destruct (canonical w1 current) as [c|] eqn:Hcan.
  - destruct (starts_with_path c base) eqn:Hin; intros [= <- <-]; split_and!; try done. intros _.
    split; [by apply Hdir|]. intros q. rewrite Hcan. by intros [= <-].
  - intros [= <- <-]. split_and!; [done..|]. intros _. split; [by apply Hdir|]. intros q. by rewrite Hcan.
Qed.

Lemma ensure_components_inside base ns : ∀ w rel r w',
  base ≠ mkPath false [] → resolves_inside w base base →
  ensure_components w base (extend base rel) (map Normal ns) = (r, w') →
  rtc (makes_directory base) w w' ∧
  (r = Ok tt → ns ≠ [] → symlink_metadata w' (extend base (rel ++ ns)) = Ok Directory ∧
                         resolves_inside w' base (extend base (rel ++ ns))).
Proof.
  induction ns as [|n ns IH]; intros w rel r w' Hbase Hb; cbn [map ensure_components push_component].
  { intros [= <- <-]. by split. }
  destruct (ensure_component w base (push (extend base rel) n)) as [r1 w1] eqn:He.
  destruct (ensure_component_inside w base rel n r1 w1 Hbase Hb He) as (Hrtc & Hb1 & Hlast).
  destruct r1 as [[]|e]; [|by intros [= <- <-]].
  destruct ns as [|n' ns].
  { intros [= <- <-]. split; [done|]. rewrite extend_snoc. auto. }
  rewrite <- extend_snoc. intros Hr. apply IH in Hr as [Hrtc2 Hr]; [|done..].
  split; [by etrans|]. intros -> _. rewrite <- app_assoc in Hr. by apply Hr.
Qed.

Lemma validated_inside w path workspace p :
  let base := canonical_workspace w workspace in
  base ≠ mkPath false [] → validate_path_in_workspace w path workspace = Ok p →
  contains_traversal_pattern path = false ∧
  ∃ rel, p = extend base rel ∧ ∀ k, resolves_inside w base (extend base (take k rel)).
Proof.
  intros base Hbase. unfold validate_path_in_workspace. fold base.
  destruct (contains_traversal_pattern path); [done|].
  destruct (check_symlink_escape _ _ _) as [[]|] eqn:Hc; [|done].
  destruct (starts_with_path _ base) eqn:Hin; [|done]. intros [= <-]. split; [done|].
  apply inside_extend in Hin as [rel Hrel]; [|done]. rewrite Hrel in Hc |- *.
  exists rel. split; [done|]. apply symlink_escape_checked; [done|apply workspace_inside|done].
Qed.

Lemma revalidated_inside w p workspace :
  revalidate_path w p workspace = Ok tt → resolves_inside w (canonical_workspace w workspace) p.
Proof.
  intros Hp q Hq. unfold revalidate_path in Hp. rewrite Hq in Hp. unfold inside.
  destruct (check_symlink_escape w p _); [|done]. by destruct (starts_with_path q _).
Qed.

Lemma directory_chain_made w raw workspace r w' :
  let base := canonical_workspace w workspace in
  base ≠ mkPath false [] → ensure_directory_chain_secure w raw workspace = (r, w') →
  rtc (makes_directory base) w w' ∧
  (r = Ok tt → inside base (normalize_path w raw) ∧
     (normalize_path w raw ≠ base →
        symlink_metadata w' (normalize_path w raw) = Ok Directory ∧
        resolves_inside w' base (normalize_path w raw))).
Proof.
  intros base Hbase. unfold ensure_directory_chain_secure. fold base.
  destruct (strip_base (normalize_path w raw) base) as [rest|] eqn:Hs; [|by intros [= <- <-]].
  assert (inside base (normalize_path w raw)) as Hin.
  { unfold inside. unfold strip_base in Hs. by destruct (starts_with_path _ base). }
  pose proof Hin as [rel Hrel]%inside_extend; [|done]. rewrite Hrel, strip_base_extend in Hs.
  injection Hs as <-. intros He. rewrite <- (extend_nil base) in He at 2.
  apply ensure_components_inside in He as [Hrtc Hok]; [|done|apply workspace_inside]. cbn in Hok.
  split; [done|]. intros ->. split; [done|]. intros Hne. rewrite Hrel in Hne |- *.
  apply Hok; [done|]. intros ->. by rewrite extend_nil in Hne.
Qed.

(** C18: A path that is validated lies in the workspace, and so does whatever each
    of its directories, and the path itself, resolves to at that moment; a path
    that is validated again resolves inside the workspace as it then is; and
    making the directories of a path makes only directories whose parent resolves
    inside, one after the other, the last of which, when all were made, is a
    directory that resolves inside. The workspace is not the empty path. *)
Theorem paths_confined w path workspace :
  let base := canonical_workspace w workspace in
  base ≠ mkPath false [] →
  (∀ p, validate_path_in_workspace w path workspace = Ok p →
     contains_traversal_pattern path = false ∧
     ∃ rel, p = extend base rel ∧ ∀ k, resolves_inside w base (extend base (take k rel))) ∧
  (∀ p, revalidate_path w p workspace = Ok tt → resolves_inside w base p) ∧
  (∀ raw r w', ensure_directory_chain_secure w raw workspace = (r, w') →
     rtc (makes_directory base) w w' ∧
     (r = Ok tt → inside base (normalize_path w raw) ∧
        (normalize_path w raw ≠ base →
           symlink_metadata w' (normalize_path w raw) = Ok Directory ∧
           resolves_inside w' base (normalize_path w raw)))).
Proof.
  intros base Hbase. split_and!.
  - intros p. by apply validated_inside.
  - intros p. apply revalidated_inside.
  - intros raw r w'. by apply directory_chain_made.
Qed.
End guarantees.

(** ** A file system and what happens on it *)

Module Example_paths.

(** A tree of names; a link leads to a path that meets no other link. The
    process runs in the root. *)
Inductive Entry : Type := Dir | File (links : Z) | Link (target : list string).

Definition disk : Type := list (list string * Entry).

Fixpoint entry (d : disk) (ns : list string) : option Entry :=
  match d with
  | [] => None
  | (k, e) :: d => if bool_decide (k = ns) then Some e else entry d ns
  end.

Definition is_real (d : disk) (ns : list string) : bool :=
  match entry d ns with Some Dir | Some (File _) => true | _ => false end.

Fixpoint real_from (d : disk) (acc rest : list string) : bool :=
  match rest with
  | [] => true
  | n :: rest => is_real d (acc ++ [n]) && real_from d (acc ++ [n]) rest
  end.

Definition step (d : disk) (acc : list string) (c : Component) : option (list string) :=
  match c with
  | RootDir => Some []
  | CurDir => Some acc
  | ParentDir => Some (removelast acc)
  | Normal n =>
    match entry d (acc ++ [n]) with
    | Some (Link target) => if real_from d [] target then Some target else None
    | Some _ => Some (acc ++ [n])
    | None => None
    end
  end.

Definition walk (d : disk) (acc : list string) (p : list Component) : option (list string) :=
  foldl (λ acc c, a ← acc; step d a c) (Some acc) p.

Definition lstat (d : disk) (p : Path) : option Entry :=
  match last (names p) with
  | Some n => a ← walk d [] (of_path (pop p)); entry d (a ++ [n])
  | None => if absolute p then Some Dir else None
  end.

#[export] Instance disk_files : FileSystem disk := {
  canonicalize d raw := match raw with [] => None | _ => mkPath true <$> walk d [] raw end;
  symlink_metadata d p :=
    match lstat d p with
    | Some Dir => Ok Directory
    | Some (File _) => Ok RegularFile
    | Some (Link _) => Ok Symlink
    | None => Err NotFound
    end;
  link_count d p :=
    match mkPath true <$> walk d [] (of_path p) with
    | Some c => match lstat d c with Some (File n) => Ok n | _ => Ok 1 end
    | None => Err NotFound
    end;
  create_dir d p :=
    match lstat d p, last (names p), walk d [] (of_path (pop p)) with
    | Some _, _, _ => (Err AlreadyExists, d)
    | None, Some n, Some a => (Ok tt, (a ++ [n], Dir) :: d)
    | None, _, _ => (Err NotFound, d)
    end;
}.

Lemma walk_app d p c a : walk d a (p ++ [c]) = (x ← walk d a p; step d x c).
Proof. unfold walk. by rewrite foldl_snoc. Qed.

Lemma real_from_app d ns : ∀ acc n,
  real_from d acc (ns ++ [n]) = real_from d acc ns && is_real d (acc ++ ns ++ [n]).
Proof.
  induction ns as [|m ns IH]; intros acc n; cbn; [by rewrite andb_true_r|].
  rewrite IH, <- app_assoc. cbn. by rewrite andb_assoc.
Qed.

Lemma real_removelast d ns : real_from d [] ns = true → real_from d [] (removelast ns) = true.
Proof.
  destruct ns as [|n ns _] using rev_ind; [done|]. rewrite removelast_last, real_from_app. by intros [? _]%andb_prop.
Qed.

Lemma walk_real d p : ∀ a q, real_from d [] a = true → walk d a p = Some q → real_from d [] q = true.
Proof.
  induction p as [|c p IH] using rev_ind; intros a q Ha; [by intros [= <-]|].
  rewrite walk_app. destruct (walk d a p) as [x|] eqn:Hx; [|done]. cbn. apply IH in Hx; [|done].
  destruct c as [| | |n]; cbn; [by intros [= <-]|by intros [= <-]|intros [= <-]; by apply real_removelast|].
  destruct (entry d (x ++ [n])) as [[| |t]|] eqn:He; [| | |done].
  - intros [= <-]. rewrite real_from_app, Hx. unfold is_real. cbn. by rewrite He.
  - intros [= <-]. rewrite real_from_app, Hx. unfold is_real. cbn. by rewrite He.
  - destruct (real_from d [] t) eqn:Ht; [|done]. by intros [= <-].
Qed.

Lemma real_walk d ns : real_from d [] ns = true → walk d [] (map Normal ns) = Some ns.
Proof.
  induction ns as [|n ns IH] using rev_ind; [done|]. rewrite real_from_app. intros [Hns Hn]%andb_prop.
  rewrite map_app. cbn [map]. rewrite walk_app, IH by done. cbn. unfold is_real in Hn. cbn in Hn.
  by destruct (entry d (ns ++ [n])) as [[]|].
Qed.

Lemma canonicalize_real d raw c :
  canonicalize d raw = Some c → absolute c = true ∧ real_from d [] (names c) = true.
Proof.
  destruct raw as [|x raw]; [done|]. cbn -[walk]. destruct (walk d [] (x :: raw)) as [q|] eqn:Hq; [|done].
  intros [= <-]. split; [done|]. by apply (walk_real d (x :: raw) []).
Qed.

Lemma canonical_real d ns : real_from d [] ns = true → canonical d (mkPath true ns) = Some (mkPath true ns).
Proof.
  intros Hns. unfold canonical, of_path. cbn -[walk].
  change (walk d [] (RootDir :: map Normal ns)) with (walk d [] (map Normal ns)). by rewrite real_walk.
Qed.

Lemma of_push p n : of_path (push p n) = of_path p ++ [Normal n].
Proof. unfold of_path, push. cbn. by rewrite map_app, app_assoc. Qed.

Lemma pop_push p n : pop (push p n) = p.
Proof. unfold pop, push. cbn. rewrite removelast_last. by destruct p. Qed.

Lemma canonical_walk d p q :
  canonical d p = Some q → ∃ a, walk d [] (of_path p) = Some a ∧ q = mkPath true a.
Proof.
  unfold canonical. cbn -[walk]. destruct (of_path p) as [|x r]; [done|].
  destruct (walk d [] (x :: r)) as [a|]; [|done]. intros [= <-]. by exists a.
Qed.

Lemma walk_canonical d p a :
  p ≠ mkPath false [] → walk d [] (of_path p) = Some a → canonical d p = Some (mkPath true a).
Proof.
  intros Hp. unfold canonical. cbn -[walk]. destruct (of_path p) as [|x r] eqn:He; [|by intros ->].
  exfalso. apply Hp. destruct p as [[] [|]]; done.
Qed.

Lemma lstat_push d p n a :
  walk d [] (of_path p) = Some a → lstat d (push p n) = entry d (a ++ [n]).
Proof.
  intros Ha. unfold lstat. rewrite pop_push. unfold push at 1. cbn [names]. rewrite last_snoc, Ha. done.
Qed.

(** What is added changes nothing that was found before. *)
Section made.
Context (d : disk) (k : list string) (x : Entry) (Hk : entry d k = None).

Lemma entry_kept ns e : entry d ns = Some e → entry ((k, x) :: d) ns = Some e.
Proof. cbn. case_bool_decide as He; [|done]. subst. by rewrite Hk. Qed.

Lemma real_kept rest : ∀ acc, real_from d acc rest = true → real_from ((k, x) :: d) acc rest = true.
Proof.
  induction rest as [|n rest IH]; intros acc; [done|]. cbn [real_from]. intros [Hn Hr]%andb_prop.
  rewrite IH by done. rewrite andb_true_r. unfold is_real in *.
  destruct (entry d (acc ++ [n])) as [e|] eqn:He; [|done]. by rewrite (entry_kept _ _ He).
Qed.

Lemma walk_kept p a q : walk d a p = Some q → walk ((k, x) :: d) a p = Some q.
Proof.
  revert q. induction p as [|c p IH] using rev_ind; intros q; [done|]. rewrite !walk_app.
  destruct (walk d a p) as [y|]; [|done]. rewrite (IH y) by done. destruct c as [| | |n]; [done..|].
  cbn -[entry]. destruct (entry d (y ++ [n])) as [e|] eqn:He; [|done]. rewrite (entry_kept _ _ He).
  destruct e as [| |t]; [done..|]. destruct (real_from d [] t) eqn:Ht; [|done]. by rewrite real_kept.
Qed.
End made.

Lemma disk_made d p n d' :
  create_dir d (push p n) = (Ok tt, d') →
  ∃ a, walk d [] (of_path p) = Some a ∧ entry d (a ++ [n]) = None ∧ d' = (a ++ [n], Dir) :: d.
Proof.
  cbn -[lstat walk push pop names]. rewrite pop_push.
  destruct (lstat d (push p n)) eqn:Hl; [done|]. cbn [push names]. rewrite last_snoc.
  destruct (walk d [] (of_path p)) as [a|] eqn:Ha; [|done]. intros [= <-].
  rewrite (lstat_push _ _ _ _ Ha) in Hl. by exists a.
Qed.

#[export] Instance disk_laws : FileSystemLaws disk.
Proof.
  split.
  - intros d p n q Hp (a & Ha & ->)%canonical_walk. rewrite of_push, walk_app in Ha.
    destruct (walk d [] (of_path p)) as [x|] eqn:Hx; [|done]. exists (mkPath true x).
    split; [by apply walk_canonical|]. cbn -[lstat]. rewrite (lstat_push _ _ _ _ Hx). cbn in Ha.
    destruct (entry d (x ++ [n])) as [[]|]; [done| |done..]. intros _. by injection Ha as <-.
  - intros d p n q (a & Ha & ->)%canonical_walk. rewrite of_push, walk_app in Ha.
    destruct (walk d [] (of_path p)) as [x|] eqn:Hx; [|done]. cbn -[lstat].
    rewrite (lstat_push _ _ _ _ Hx). cbn in Ha. destruct (entry d (x ++ [n])) as [[]|]; eauto. done.
  - intros d raw [b ns] [Hb Hns]%canonicalize_real. cbn in Hb, Hns. subst. by apply canonical_real.
  - intros d p e d'. cbn -[lstat walk]. repeat case_match; congruence.
  - intros d p n d' Hp (a & Ha & Hl & ->)%disk_made. split.
    + rewrite (walk_canonical d p a) by done. by eexists.
    + intros p' q Hq. assert (p' ≠ mkPath false []) as Hp' by by intros ->.
      apply canonical_walk in Hq as (a' & Ha' & ->). apply (walk_kept _ _ Dir Hl) in Ha'.
      by apply walk_canonical.
Qed.

(** [/home] is [/data]; the workspace has a link out and a link that dangles. *)
Definition files : disk :=
  [(["data"], Dir); (["home"], Link ["data"]); (["data"; "work"], Dir);
   (["data"; "work"; "src"], Dir); (["data"; "work"; "src"; "a.rs"], File 1);
   (["data"; "work"; "twin"], File 2);
   (["data"; "work"; "out"], Link ["etc"]); (["data"; "work"; "gone"], Link ["data"; "nothing"]);
   (["etc"], Dir); (["etc"; "passwd"], File 1)].

Definition at_path (s : string) : Path := normalize_lexically (components s).

Definition validated (path workspace : string) : result ZeptoError Path :=
  validate_path_in_workspace files path workspace.

Example inside_accepted :
  validated "src/a.rs" "/data/work" = Ok (at_path "/data/work/src/a.rs") ∧
  validated "./src/b.rs" "/data/work" = Ok (at_path "/data/work/src/b.rs") ∧
  validated "/data/work/src" "/home/work" = Ok (at_path "/data/work/src").
Proof. vm_compute. split_and!; reflexivity. Qed.

Example outside_refused :
  validated "src/../a" "/data/work" =
    Err (SecurityViolation "Path contains suspicious traversal pattern: src/../a") ∧
  validated "out/new" "/data/work" =
    Err (SecurityViolation "Symlink escape detected: '/data/work/out' resolves to '/etc' which is outside workspace") ∧
  validated "gone/new" "/data/work" =
    Err (SecurityViolation "Dangling symlink detected: '/data/work/gone' target does not exist and cannot be validated") ∧
  validated "out/passwd" "/data/work" =
    Err (SecurityViolation "Path escapes workspace: out/passwd is not within /data/work").
Proof. vm_compute. split_and!; reflexivity. Qed.

(** The workspace is canonical and the path to a file that does not exist is
    not: in a workspace that is reached through a link, no file can be created. *)
Example linked_workspace :
  validated "src/a.rs" "/home/work" = Ok (at_path "/data/work/src/a.rs") ∧
  validated "src/b.rs" "/home/work" =
    Err (SecurityViolation "Path escapes workspace: src/b.rs is not within /home/work") ∧
  validated "src/b.rs" "data/work" =
    Err (SecurityViolation "Path escapes workspace: src/b.rs is not within data/work").
Proof. vm_compute. split_and!; reflexivity. Qed.

(** Every path starts with the empty one. *)
Example empty_workspace : validated "/etc/passwd" "" = Ok (at_path "/etc/passwd").
Proof. vm_compute. reflexivity. Qed.

(** A name that only holds two dots is no traversal, and is refused. *)
Example dotted_name :
  validated "notes..txt" "/data/work" =
    Err (SecurityViolation "Path contains suspicious traversal pattern: notes..txt").
Proof. vm_compute. reflexivity. Qed.

Example directories_made :
  let '(r, w) := ensure_directory_chain_secure files (components "/data/work/src/x/y") "/data/work" in
  r = Ok tt ∧ entry w ["data"; "work"; "src"; "x"] = Some Dir ∧
  entry w ["data"; "work"; "src"; "x"; "y"] = Some Dir.
Proof. vm_compute. split_and!; reflexivity. Qed.

Example directory_refused :
  ensure_directory_chain_secure files (components "/data/work/out/x") "/data/work" =
    (Err (SecurityViolation "Symlink escape detected: '/data/work/out' resolves to '/etc' which is outside workspace"), files).
Proof. vm_compute. reflexivity. Qed.

Example hard_links :
  check_hardlink_write files (at_path "/data/work/src/a.rs") = Ok tt ∧
  check_hardlink_write files (at_path "/data/work/twin") =
    Err (SecurityViolation "Write blocked: '/data/work/twin' has 2 hard links and may alias content outside workspace") ∧
  check_hardlink_write files (at_path "/data/work/new") = Ok tt.
Proof. vm_compute. split_and!; reflexivity. Qed.

Lemma paths_confined_witness :
  (∃ rel, at_path "/data/work/src/b.rs" = extend (at_path "/data/work") rel ∧
     ∀ k, resolves_inside files (at_path "/data/work") (extend (at_path "/data/work") (take k rel))) ∧
  rtc (makes_directory (at_path "/data/work")) files
      (ensure_directory_chain_secure files (components "/data/work/src/x/y") "/data/work").2.
Proof.
  destruct (paths_confined files "src/b.rs" "/data/work") as (Hv & _ & Hd); [vm_compute; discriminate|].
  split.
  - apply (Hv (at_path "/data/work/src/b.rs")). vm_compute. reflexivity.
  - eapply (Hd (components "/data/work/src/x/y")). apply surjective_pairing.
Defined.
End Example_paths.
