(* ===== verification/Mount.v ===== *)
(** Which directories of the host a container may see: src/src/security/mount.rs.

    Paths are texts until they are resolved; the file system is that of [Paths].
    Metadata is read of canonical paths, which have no links. The home directory, the
    file of the allowlist with its JSON and the texts of system errors are parameters. *)

From S2P Require Import Prelude Text Lines Errors Paths.

Definition DEFAULT_BLOCKED_PATTERNS : list string :=
  [".ssh"; ".gnupg"; ".gpg"; ".aws"; ".azure"; ".gcloud"; ".kube"; ".docker"; "credentials"; ".env"; ".netrc";
   "id_rsa"; "id_ed25519"; "private_key"].

Record AllowedRoot : Type := mkAllowedRoot { root_path : string; allow_read_write : bool }.

Record MountAllowlist : Type := mkMountAllowlist {
  allowed_roots : list AllowedRoot;
  blocked_patterns : list string;
}.

Definition colon : Ascii.ascii := Ascii.ascii_of_nat 58.

(** [str::split(':')]. *)
Fixpoint split_colon (s current : string) : list string :=
  match s with
  | EmptyString => [current]
  | String c s =>
    if Ascii.eqb c colon then current :: split_colon s "" else split_colon s (current +:+ String c "")
  end.

Definition parse_mount_spec (spec : string) : result ZeptoError (string * string * bool) :=
  match split_colon spec "" with
  | [host; container] => Ok (host, container, false)
  | [host; container; mode] =>
    if String.eqb mode "ro" then Ok (host, container, true)
    else Err (SecurityViolation ("Invalid mount mode '" +:+ mode +:+ "'; only 'ro' is supported"))
  | _ => Err (SecurityViolation ("Invalid mount format '" +:+ spec
                +:+ "'; expected 'host:container' or 'host:container:ro'"))
  end.

Section mounts.
Context `{RustUnicode} {W : Type} `{FileSystem W}.
Context (home_dir : option string).
(** [Path::try_exists], and the text of the error of a failed resolution. *)
Context (try_exists : W → list Component → result string bool) (io_error : W → list Component → string).
(** The file of the allowlist: missing, unreadable, or its content as JSON. *)
Context (read_allowlist : W → list Component → option (result string string)).
Context (allowlist_of_json : string → result string MountAllowlist).
Implicit Types (w : W) (path : string).

(** [home.join(suffix)]. *)
Definition join_text (home suffix : string) : string :=
  if starts_with suffix "/" then suffix
  else if str_is_empty home || ends_with home "/" then home +:+ suffix else home +:+ "/" +:+ suffix.

Definition expand_path path : string :=
  match strip_prefix path "~/", home_dir with
  | Some suffix, Some home => join_text home suffix
  | _, _ => match home_dir with
            | Some home => if String.eqb path "~" then home else path
            | None => path
            end
  end.

Definition canonicalize_existing w path : result ZeptoError Path :=
  match canonicalize w (components path) with
  | Some p => Ok p
  | None => Err (SecurityViolation ("Mount path '" +:+ path +:+ "' is invalid or does not exist: "
                                    +:+ io_error w (components path)))
  end.

Definition path_contains_blocked_pattern path (patterns : list string) : option string :=
  find (λ pattern, contains (to_lowercase path) (to_lowercase pattern)) patterns.

Definition path_contains_parent_component path : bool :=
  any (λ c, bool_decide (c = ParentDir)) (components path).

Definition validate_no_hardlink_alias w (p : Path) (mount_spec : string) : result ZeptoError unit :=
  let failed e :=
    Err (SecurityViolation ("Failed to inspect mount path '" +:+ display p +:+ "': " +:+ io_text e)) in
  match symlink_metadata w p with
  | Err e => failed e
  | Ok RegularFile =>
    match link_count w p with
    | Err e => failed e
    | Ok n =>
      if 1 <? n then
        Err (SecurityViolation ("Mount '" +:+ mount_spec +:+ "' points to a file with multiple hard links; use allowlist-based mount validation for sensitive mounts"))
      else Ok tt
    end
  | Ok _ => Ok tt
  end.

Definition load_allowlist w path : result ZeptoError MountAllowlist :=
  match read_allowlist w (components path) with
  | None => Err (SecurityViolation ("Mount allowlist not found at '" +:+ path +:+ "'"))
  | Some (Err e) => Err (SecurityViolation ("Failed to read mount allowlist '" +:+ path +:+ "': " +:+ e))
  | Some (Ok content) =>
    match allowlist_of_json content with
    | Ok l => Ok l
    | Err e => Err (SecurityViolation ("Invalid mount allowlist JSON at '" +:+ path +:+ "': " +:+ e))
    end
  end.

Definition is_under_root (p root : Path) : bool :=
  match strip_base p root with Some relative => negb (is_absolute relative) | None => false end.

Definition container_ok (container : string) : bool :=
  negb (str_is_empty container) && starts_with container "/" && negb (contains container "..").

Definition invalid_container (container mount : string) : ZeptoError :=
  SecurityViolation ("Invalid container mount path '" +:+ container +:+ "' in '" +:+ mount +:+ "'").

(** The first allowed root that exists and contains the path. *)
Definition root_of w (allowlist : MountAllowlist) (p : Path) : option AllowedRoot :=
  find (λ root, match canonicalize w (components (expand_path (root_path root))) with
                | Some r => is_under_root p r
                | None => false
                end) (allowed_roots allowlist).

Definition all_patterns (allowlist : MountAllowlist) : list string :=
  DEFAULT_BLOCKED_PATTERNS ++ blocked_patterns allowlist.

Definition mount_text (p : Path) (container : string) (read_only : bool) : string :=
  display p +:+ ":" +:+ container +:+ (if read_only then ":ro" else "").

(** One mount of the loop. *)
Definition validate_mount w (allowlist : MountAllowlist) (allowlist_path mount : string) : result ZeptoError string :=
  match parse_mount_spec mount with
  | Err e => Err e
  | Ok (host, container, requested_read_only) =>
    if negb (container_ok container) then Err (invalid_container container mount)
    else
      match canonicalize_existing w (expand_path host) with
      | Err e => Err e
      | Ok p =>
        match path_contains_blocked_pattern (display p) (all_patterns allowlist) with
        | Some pattern => Err (SecurityViolation ("Mount '" +:+ display p +:+ "' blocked by pattern '" +:+ pattern +:+ "'"))
        | None =>
          match validate_no_hardlink_alias w p mount with
          | Err e => Err e
          | Ok _ =>
            match root_of w allowlist p with
            | None => Err (SecurityViolation ("Mount '" +:+ display p +:+ "' is outside allowedRoots in '"
                                              +:+ allowlist_path +:+ "'"))
            | Some root => Ok (mount_text p container (requested_read_only || negb (allow_read_write root)))
            end
          end
        end
      end
  end.

Fixpoint validate_mounts w (allowlist : MountAllowlist) (allowlist_path : string) (mounts : list string)
    : result ZeptoError (list string) :=
  match mounts with
  | [] => Ok []
  | mount :: mounts =>
    match validate_mount w allowlist allowlist_path mount with
    | Err e => Err e
    | Ok out => match validate_mounts w allowlist allowlist_path mounts with Ok outs => Ok (out :: outs) | Err e => Err e end
    end
  end.

Definition validate_extra_mounts w (mounts : list string) (allowlist_path : string) : result ZeptoError (list string) :=
  match mounts with
  | [] => Ok []
  | _ =>
    let allowlist_path := expand_path allowlist_path in
    match load_allowlist w allowlist_path with
    | Err e => Err e
    | Ok allowlist =>
      match allowed_roots allowlist with
      | [] => Err (SecurityViolation "Mount allowlist has no allowedRoots entries")
      | _ => validate_mounts w allowlist allowlist_path mounts
      end
    end
  end.

(** The check without an allowlist. *)
Definition validate_mount_not_blocked w (mount_spec : string) : result ZeptoError unit :=
  match parse_mount_spec mount_spec with
  | Err e => Err e
  | Ok (host, container, _) =>
    if negb (container_ok container) then Err (invalid_container container mount_spec)
    else
      let host_path := expand_path host in
      if path_contains_parent_component host_path
      then Err (SecurityViolation ("Mount host path '" +:+ host +:+ "' contains path traversal"))
      else
        match path_contains_blocked_pattern host_path DEFAULT_BLOCKED_PATTERNS with
        | Some pattern =>
          Err (SecurityViolation ("Mount '" +:+ mount_spec +:+ "' blocked by sensitive pattern '" +:+ pattern +:+ "'"))
        | None =>
          match try_exists w (components host_path) with
          | Err e => Err (SecurityViolation ("Failed to inspect mount path '" +:+ host_path +:+ "': " +:+ e))
          | Ok false => Ok tt
          | Ok true =>
            match canonicalize_existing w host_path with
            | Err e => Err e
            | Ok p =>
              match path_contains_blocked_pattern (display p) DEFAULT_BLOCKED_PATTERNS with
              | Some pattern =>
                Err (SecurityViolation ("Resolved mount path '" +:+ display p +:+ "' blocked by sensitive pattern '" +:+ pattern +:+ "'"))
              | None => validate_no_hardlink_alias w p mount_spec
              end
            end
          end
        end
  end.
End mounts.

(** ** The format of a mount *)

Lemma split_colon_no s t cur : no_byte colon s = true → split_colon (s +:+ t) cur = split_colon t (cur +:+ s).
Proof.
  revert cur. induction s as [|c s IH]; intros cur; cbn; [by rewrite str_app_nil_r|].
  unfold no_byte. cbn. intros [Hc Hs]%andb_true_iff. destruct (Ascii.eqb c colon); [done|].
  rewrite IH by done. by rewrite str_app_assoc.
Qed.

Lemma split_colon_parts s cur :
  no_byte colon cur = true →
  Forall (λ p, no_byte colon p = true) (split_colon s cur) ∧ join ":" (split_colon s cur) = cur +:+ s ∧
  split_colon s cur ≠ [].
Proof.
  revert cur. induction s as [|c s IH]; intros cur Hcur; cbn [split_colon].
  - split; [by constructor|]. split; [cbn; by rewrite str_app_nil_r|done].
  - destruct (Ascii.eqb_spec c colon) as [->|Hc].
    + destruct (IH "" eq_refl) as (H1 & H2 & H3). split; [by constructor|]. split; [|done].
      destruct (split_colon s "") as [|p ps]; [done|].
      change (join ":" (cur :: p :: ps)) with (cur +:+ ":" +:+ join ":" (p :: ps)). by rewrite H2.
    + destruct (IH (cur +:+ String c "")) as (H1 & H2 & H3).
      { unfold no_byte in *. rewrite all_bytes_app, Hcur. cbn. by rewrite (proj2 (Ascii.eqb_neq c colon)). }
      split; [done|]. split; [|done]. rewrite H2. by rewrite str_app_assoc.
Qed.

Lemma all_bytes_colon s : no_byte colon s = true → split_colon s "" = [s].
Proof. intros Hs. rewrite <- (str_app_nil_r s) at 1. by rewrite split_colon_no. Qed.

Lemma split_colon_app a s : no_byte colon a = true → split_colon (a +:+ ":" +:+ s) "" = a :: split_colon s "".
Proof. intros Ha. by rewrite split_colon_no. Qed.

(** A mount is read as host, container and mode exactly when it is their text and
    neither path has a colon. *)
Lemma parse_mount_spec_Ok s h c ro :
  parse_mount_spec s = Ok (h, c, ro) ↔
  no_byte colon h = true ∧ no_byte colon c = true ∧ s = h +:+ ":" +:+ c +:+ (if ro then ":ro" else "").
Proof.
  unfold parse_mount_spec. split.
  - destruct (split_colon_parts s "" eq_refl) as (Hall & Hjoin & _). cbn [String.append] in Hjoin.
    revert Hall Hjoin.
    destruct (split_colon s "") as [|a [|b [|m [|? ?]]]]; try done; intros Hall <-.
    + intros [= <- <- <-]. inversion Hall as [|? ? Ha Hb]; subst. inversion Hb; subst.
      split_and!; [done..|]. cbn. by rewrite str_app_nil_r.
    + destruct (String.eqb_spec m "ro") as [->|]; [|done]. intros [= <- <- <-].
      inversion Hall as [|? ? Ha Hb]; subst. inversion Hb; subst. done.
  - intros (Hh & Hc & ->). rewrite split_colon_app by done. destruct ro.
    + change ":ro" with (":" +:+ "ro"). by rewrite split_colon_app.
    + by rewrite str_app_nil_r, all_bytes_colon.
Qed.

Lemma find_first_spec {A} (f : A → bool) (l : list A) x :
  find f l = Some x ↔
  ∃ i, l !! i = Some x ∧ f x = true ∧ ∀ j y, (j < i)%nat → l !! j = Some y → ¬ f y = true.
Proof.
  induction l as [|a l IH]; cbn [find].
  - split; [done|]. by intros (? & ? & _).
  - destruct (f a) eqn:Ha.
    + split.
      * intros [= <-]. exists 0%nat. split_and!; [done..|]. intros; lia.
      * intros ([|i] & Hi & Hx & Hlt); [by injection Hi as ->|]. by destruct (Hlt 0%nat a); [lia| |].
    + rewrite IH. split.
      * intros (i & Hi & Hx & Hlt). exists (S i). split_and!; [done..|].
        intros [|j] y Hj; [by intros [= <-]; rewrite Ha|]. intros Hy. apply (Hlt j); [lia|done].
      * intros ([|i] & Hi & Hx & Hlt); [injection Hi as ->; congruence|].
        exists i. split_and!; [done..|]. intros j y Hj Hy. apply (Hlt (S j)); [lia|done].
Qed.

(** ** What a container may see *)

Section promise.
Context `{RustUnicode} {W : Type} `{FileSystem W}.
Context (home_dir : option string).
Implicit Types (w : W) (p : Path).

Definition unblocked (path : string) (patterns : list string) : Prop :=
  ∀ pattern, pattern ∈ patterns → contains (to_lowercase path) (to_lowercase pattern) = false.

(** Not a file that has a second name. *)
Definition one_name w p : Prop :=
  ∃ kind, symlink_metadata w p = Ok kind ∧ (kind = RegularFile → ∃ n, link_count w p = Ok n ∧ n ≤ 1).

Definition inside_root w p (root : AllowedRoot) : Prop :=
  ∃ r, canonicalize w (components (expand_path home_dir (root_path root))) = Some r ∧ inside r p.

Definition first_root w (roots : list AllowedRoot) p (root : AllowedRoot) : Prop :=
  ∃ i, roots !! i = Some root ∧ inside_root w p root ∧
       ∀ j earlier, (j < i)%nat → roots !! j = Some earlier → ¬ inside_root w p earlier.

Definition container_path (c : string) : Prop := starts_with c "/" = true ∧ contains c ".." = false.

(** The mount [out] that a request stands for. *)
Definition accepted w (allowlist : MountAllowlist) (mount out : string) : Prop :=
  ∃ (host container : string) (ro : bool) p root,
    (no_byte colon host = true ∧ no_byte colon container = true ∧
     mount = host +:+ ":" +:+ container +:+ (if ro then ":ro" else "")) ∧
    container_path container ∧
    canonicalize w (components (expand_path home_dir host)) = Some p ∧
    unblocked (display p) (all_patterns allowlist) ∧
    one_name w p ∧
    first_root w (allowed_roots allowlist) p root ∧
    out = mount_text p container (ro || negb (allow_read_write root)).

(** What the check without an allowlist asks of a mount, which may be of a path
    that does not exist. *)
Definition not_blocked (try_exists : W → list Component → result string bool) w (mount : string) : Prop :=
  ∃ (host container : string) (ro : bool),
    (no_byte colon host = true ∧ no_byte colon container = true ∧
     mount = host +:+ ":" +:+ container +:+ (if ro then ":ro" else "")) ∧
    container_path container ∧
    path_contains_parent_component (expand_path home_dir host) = false ∧
    unblocked (expand_path home_dir host) DEFAULT_BLOCKED_PATTERNS ∧
    (try_exists w (components (expand_path home_dir host)) = Ok false ∨
     try_exists w (components (expand_path home_dir host)) = Ok true ∧
     ∃ p, canonicalize w (components (expand_path home_dir host)) = Some p ∧
          unblocked (display p) DEFAULT_BLOCKED_PATTERNS ∧ one_name w p).
End promise.

Section proofs.
Context `{RustUnicode} {W : Type} `{FileSystem W}.
Context (home_dir : option string).
Context (io_error : W → list Component → string).
Implicit Types (w : W) (p : Path).

Lemma blocked_None path patterns :
  path_contains_blocked_pattern path patterns = None ↔
  ∀ pattern, pattern ∈ patterns → contains (to_lowercase path) (to_lowercase pattern) = false.
Proof.
  unfold path_contains_blocked_pattern. split.
  - intros Hf pattern Hin. by apply (find_none _ _ Hf), list_elem_of_In.
  - intros Hall. destruct (find _ _) as [x|] eqn:Hx; [|done].
    apply find_some in Hx as [Hin Hx]. rewrite (Hall x) in Hx; [done|by apply list_elem_of_In].
Qed.

Lemma container_ok_spec c : container_ok c = true ↔ container_path c.
Proof.
  unfold container_ok, container_path. rewrite !andb_true_iff, !negb_true_iff. split; [naive_solver|].
  intros [Hs Hc]. split_and!; [|done..]. by destruct c.
Qed.

Lemma no_hardlink_spec w p mount u : validate_no_hardlink_alias w p mount = Ok u ↔ one_name w p.
Proof.
  unfold validate_no_hardlink_alias, one_name. destruct u.
  destruct (symlink_metadata w p) as [[]|e]; try (split; [intros _; eexists; split; [done|done]|done]).
  - destruct (link_count w p) as [n|e].
    + destruct (Z.ltb_spec 1 n); split; try done.
      * intros (k & [= <-] & Hn). destruct (Hn eq_refl) as (? & [= <-] & ?). lia.
      * intros _. eexists. split; [done|]. intros _. eexists. split; [done|lia].
    + split; [done|]. intros (k & [= <-] & Hn). by destruct (Hn eq_refl) as (? & ? & ?).
  - split; [done|]. by intros (? & ? & ?).
Qed.

Lemma not_blocked_spec try_exists w mount u :
  validate_mount_not_blocked home_dir try_exists io_error w mount = Ok u ↔ not_blocked home_dir try_exists w mount.
Proof.
  destruct u. unfold validate_mount_not_blocked, not_blocked. split.
  - destruct (parse_mount_spec mount) as [[[h c] ro]|e] eqn:Hp; [|done]. apply parse_mount_spec_Ok in Hp.
    destruct (container_ok c) eqn:Hc; [|done]. apply container_ok_spec in Hc. cbn [negb].
    destruct (path_contains_parent_component _) eqn:Hup; [done|].
    destruct (path_contains_blocked_pattern _ _) eqn:Hb; [done|]. rewrite blocked_None in Hb.
    destruct (try_exists _ _) as [[]|e] eqn:Hx; [| |done].
    + unfold canonicalize_existing. destruct (canonicalize w _) as [p|] eqn:Hcan; [|done].
      destruct (path_contains_blocked_pattern (display p) _) eqn:Hb'; [done|]. rewrite blocked_None in Hb'.
      intros Hl%no_hardlink_spec. exists h, c, ro. do 4 (split; [done|]).
      right. split; [done|]. by exists p.
    + intros _. exists h, c, ro. do 4 (split; [done|]). by left.
  - intros (h & c & ro & Hp%parse_mount_spec_Ok & Hc%container_ok_spec & Hup & Hb & Hx).
    rewrite Hp, Hc, Hup. cbn [negb]. rewrite (proj2 (blocked_None _ _) Hb).
    destruct Hx as [->|(-> & p & Hcan & Hb' & Hl)]; [done|]. unfold canonicalize_existing. rewrite Hcan.
    rewrite (proj2 (blocked_None _ _) Hb'). by apply no_hardlink_spec.
Qed.

Lemma is_under_root_spec p root : absolute root = true → is_under_root p root = true ↔ inside root p.
Proof.
  intros Habs. split.
  - unfold is_under_root, inside, strip_base. by destruct (starts_with_path p root).
  - intros [rel ->]%inside_extend; [|by intros ->]. unfold is_under_root. rewrite strip_base_extend.
    by destruct rel.
Qed.

(** A resolved path is absolute. *)
Context (canonicalize_absolute : ∀ w raw c, canonicalize w raw = Some c → absolute c = true).

Lemma root_of_spec w allowlist p root :
  root_of home_dir w allowlist p = Some root ↔ first_root home_dir w (allowed_roots allowlist) p root.
Proof.
  assert (Hroot : ∀ r, match canonicalize w (components (expand_path home_dir (root_path r))) with
                       | Some r => is_under_root p r | None => false end = true ↔ inside_root home_dir w p r).
  { intros r. unfold inside_root. destruct (canonicalize w _) as [c|] eqn:Hc.
    - rewrite is_under_root_spec by eauto. naive_solver.
    - naive_solver. }
  unfold root_of, first_root. rewrite find_first_spec. by setoid_rewrite Hroot.
Qed.

Lemma validate_mount_spec w allowlist allowlist_path mount out :
  validate_mount home_dir io_error w allowlist allowlist_path mount = Ok out ↔
  accepted home_dir w allowlist mount out.
Proof.
  unfold validate_mount, accepted. split.
  - destruct (parse_mount_spec mount) as [[[h c] ro]|e] eqn:Hp; [|done]. apply parse_mount_spec_Ok in Hp.
    destruct (container_ok c) eqn:Hc; [|done]. apply container_ok_spec in Hc. cbn [negb].
    unfold canonicalize_existing. destruct (canonicalize w _) as [p|] eqn:Hcan; [|done].
    destruct (path_contains_blocked_pattern _ _) eqn:Hb; [done|]. rewrite blocked_None in Hb.
    destruct (validate_no_hardlink_alias w p mount) as [u|e] eqn:Hl; [|done]. apply no_hardlink_spec in Hl.
    destruct (root_of _ _ _ _) as [root|] eqn:Hr; [|done]. apply root_of_spec in Hr.
    intros [= <-]. exists h, c, ro, p, root. by split_and!; [apply Hp..| | | | | |].
  - intros (h & c & ro & p & root & Hp%parse_mount_spec_Ok & Hc%container_ok_spec & Hcan & Hb & Hl & Hr & ->).
    rewrite Hp, Hc. cbn [negb]. unfold canonicalize_existing. rewrite Hcan.
    rewrite (proj2 (blocked_None _ _) Hb), (proj2 (no_hardlink_spec w p mount tt) Hl).
    by rewrite (proj2 (root_of_spec w allowlist p root) Hr).
Qed.

Lemma validate_mounts_spec w allowlist allowlist_path mounts out :
  validate_mounts home_dir io_error w allowlist allowlist_path mounts = Ok out ↔
  Forall2 (accepted home_dir w allowlist) mounts out.
Proof.
  revert out. induction mounts as [|m ms IH]; intros out; cbn [validate_mounts].
  - split; [by intros [= <-]|]. by inversion 1.
  - split.
    + destruct (validate_mount _ _ _ _ _ m) as [o|e] eqn:Hm; [|done].
      destruct (validate_mounts _ _ _ _ _ ms) as [os|e] eqn:Hms; [|done]. intros [= <-].
      constructor; [by eapply validate_mount_spec|by apply IH].
    + inversion 1 as [|? o ? os Ho Hos]; subst.
      apply (validate_mount_spec w allowlist allowlist_path) in Ho as ->. apply IH in Hos. by rewrite Hos.
Qed.

Context (read_allowlist : W → list Component → option (result string string)).
Context (allowlist_of_json : string → result string MountAllowlist).

(** The allowlist that is consulted. *)
Definition allowlist_at w (path : string) (allowlist : MountAllowlist) : Prop :=
  ∃ content, read_allowlist w (components (expand_path home_dir path)) = Some (Ok content) ∧
             allowlist_of_json content = Ok allowlist.

Lemma load_allowlist_Ok w path allowlist :
  load_allowlist read_allowlist allowlist_of_json w (expand_path home_dir path) = Ok allowlist ↔
  allowlist_at w path allowlist.
Proof.
  unfold load_allowlist, allowlist_at. split.
  - destruct (read_allowlist w _) as [[content|e]|]; [|done..].
    destruct (allowlist_of_json content) eqn:Hj; [|done]. intros [= <-]. eauto.
  - by intros (content & -> & ->).
Qed.

(** C19: A container gets extra directories of the host exactly when there is an
    allowlist with a root in it and every one of them, resolved, has no blocked
    pattern in its path, is not a file with a second name and lies inside an
    allowed root, its place in the container being absolute and without [..]; it
    gets the resolved paths, in order, and may write to one only if its request and
    the first root that contains it both let it. No request needs no allowlist. *)
Theorem extra_mounts w mounts path out :
  validate_extra_mounts home_dir io_error read_allowlist allowlist_of_json w mounts path = Ok out ↔
  (mounts = [] ∧ out = []) ∨
  (∃ allowlist, allowlist_at w path allowlist ∧ allowed_roots allowlist ≠ [] ∧
                Forall2 (accepted home_dir w allowlist) mounts out).
Proof.
  unfold validate_extra_mounts. destruct mounts as [|m ms].
  - split; [intros [= <-]; by left|]. intros [[_ ->]|(l & _ & _ & Hf)]; [done|]. by inversion Hf.
  - split.
    + destruct (load_allowlist _ _ _ _) as [l|e] eqn:Hl; [|done]. apply load_allowlist_Ok in Hl.
      destruct (allowed_roots l) as [|r rs] eqn:Hr; [done|]. intros Hv. right. exists l.
      split; [done|]. split; [by rewrite Hr|]. by eapply validate_mounts_spec.
    + intros [[? _]|(l & Hl%load_allowlist_Ok & Hr & Hf)]; [done|]. rewrite Hl.
      destruct (allowed_roots l); [done|]. by apply validate_mounts_spec.
Qed.
End proofs.

Module Example_mount.
Import Example_paths.

(** Below [/data] one may write, below [/etc] only read. *)
Definition disk_with_twins : disk := (["data"; ".env"], File 1) :: files.

Definition listed : MountAllowlist :=
  mkMountAllowlist [mkAllowedRoot "/home" true; mkAllowedRoot "/nowhere" true; mkAllowedRoot "/etc" false] ["shadow"].

Definition on_disk (_ : disk) (p : list Component) : option (result string string) :=
  if bool_decide (p = components "/root/mounts.json") then Some (Ok "listed") else None.

Definition json (content : string) : result string MountAllowlist :=
  if String.eqb content "listed" then Ok listed else Err "expected value at line 1 column 1".

Definition validated_mounts (mounts : list string) : result ZeptoError (list string) :=
  validate_extra_mounts (Some "/root") (λ _ _, "No such file or directory (os error 2)") on_disk json
    disk_with_twins mounts "~/mounts.json".

Example mounts_accepted :
  validated_mounts ["/home/work:/work"; "/home/work/src:/src:ro"; "/etc/passwd:/passwd"] =
    Ok ["/data/work:/work"; "/data/work/src:/src:ro"; "/etc/passwd:/passwd:ro"].
Proof. vm_compute. reflexivity. Qed.

Example mounts_refused :
  validated_mounts ["/home/.env:/e"] = Err (SecurityViolation "Mount '/data/.env' blocked by pattern '.env'") ∧
  validated_mounts ["/:/host"] = Err (SecurityViolation "Mount '/' is outside allowedRoots in '/root/mounts.json'") ∧
  validated_mounts ["/home/work:/work:rw"] = Err (SecurityViolation "Invalid mount mode 'rw'; only 'ro' is supported").
Proof. vm_compute. split_and!; reflexivity. Qed.

(** The message recommends the check that has just refused. *)
Example hard_link_refused :
  validated_mounts ["/home/work/twin:/twin"] =
    Err (SecurityViolation "Mount '/home/work/twin:/twin' points to a file with multiple hard links; use allowlist-based mount validation for sensitive mounts").
Proof. vm_compute. reflexivity. Qed.

(** A colon of the resolved path is not escaped: what is returned is not a mount
    of that path. *)
Example colon_of_link :
  let d := (["data"; "a:b"], Dir) :: (["data"; "link"], Link ["data"; "a:b"]) :: files in
  ∃ out, validate_extra_mounts (Some "/root") (λ _ _, "") on_disk json d ["/home/link:/m"] "~/mounts.json" = Ok [out] ∧
         parse_mount_spec out = Err (SecurityViolation "Invalid mount mode '/m'; only 'ro' is supported").
Proof. eexists. vm_compute. split; reflexivity. Qed.

Lemma extra_mounts_witness :
  validated_mounts ["/home/work:/work"; "/etc/passwd:/passwd"] = Ok ["/data/work:/work"; "/etc/passwd:/passwd:ro"] ∧
  ∃ allowlist, allowlist_at (Some "/root") on_disk json disk_with_twins "~/mounts.json" allowlist ∧
    Forall2 (accepted (Some "/root") disk_with_twins allowlist)
      ["/home/work:/work"; "/etc/passwd:/passwd"] ["/data/work:/work"; "/etc/passwd:/passwd:ro"].
Proof.
  split; [vm_compute; reflexivity|].
  destruct (extra_mounts (W := disk) (Some "/root") (λ _ _, "No such file or directory (os error 2)")
    (λ w raw c Hc, proj1 (canonicalize_real w raw c Hc)) on_disk json disk_with_twins
    ["/home/work:/work"; "/etc/passwd:/passwd"] "~/mounts.json"
    ["/data/work:/work"; "/etc/passwd:/passwd:ro"]) as [Hout _].
  destruct Hout as [[? _]|(l & Hl & _ & Hf)].
  - vm_compute. reflexivity.
  - discriminate.
  - exists l. split; [exact Hl|exact Hf].
Defined.
End Example_mount.
