(* ===== verification/Diff.v ===== *)
(** Unified diffs: src/src/tools/diff.rs. How a diff is parsed, and what text
    applying it to a text gives.

    The debug form of a string in error messages is a parameter. *)

From S2P Require Import Prelude Text Lines.

(** ** Data *)

Record DiffSummary : Type := mkDiffSummary {
  lines_added : Z;
  lines_removed : Z;
  hunks_applied : Z;
}.

Inductive HunkLineKind : Type := Context | Remove | Add.

#[export] Instance HunkLineKind_eq_dec : EqDecision HunkLineKind.
Proof. solve_decision. Defined.

Record HunkLine : Type := mkHunkLine {
  kind : HunkLineKind;
  content : string;
}.

Record Hunk : Type := mkHunk {
  old_start : Z;
  old_count : Z;
  hunk_lines : list HunkLine;
}.

(** ** Parsing *)

Section diff.
Context (debug : string → string).

Definition strip_terminator (line : string) : string := trim_end_byte cr (trim_end_byte lf line).

Definition is_old (l : HunkLine) : bool :=
  match kind l with Context | Remove => true | Add => false end.

Definition validate_hunk (hunk : Hunk) : result string unit :=
  let actual_old := Z.of_nat (length (filter is_old (hunk_lines hunk))) in
  if (0 <? old_count hunk) && negb (actual_old =? old_count hunk)
  then Err ("hunk at old line " +:+ fmt_Z (old_start hunk) +:+ " declares old_count="
            +:+ fmt_Z (old_count hunk) +:+ " but has " +:+ fmt_Z actual_old
            +:+ " context/remove lines")
  else Ok tt.

Definition at_sign : Ascii.ascii := Ascii.ascii_of_nat 64.
Definition space : Ascii.ascii := Ascii.ascii_of_nat 32.
Definition minus : Ascii.ascii := Ascii.ascii_of_nat 45.
Definition comma : Ascii.ascii := Ascii.ascii_of_nat 44.

Definition parse_hunk_header (line : string) : result string (Z * Z) :=
  let err := Err ("malformed hunk header: " +:+ debug line) in
  let inner := trim_start_byte space (trim_start_byte at_sign line) in
  match list_find (λ s, starts_with s "-" = true) (split_whitespace inner) with
  | None => err
  | Some (_, old_part) =>
    let old_str := trim_start_byte minus old_part in
    match split_once comma old_str with
    | Some (a, b) =>
      match parse_usize a, parse_usize b with
      | Some start, Some count => Ok (start, count)
      | _, _ => err
      end
    | None => match parse_usize old_str with Some start => Ok (start, 1) | None => err end
    end
  end.

Definition parse_hunk_line (raw_line : string) : option HunkLine :=
  match raw_line with
  | String c content =>
    if Ascii.eqb c (Ascii.ascii_of_nat 43) then Some (mkHunkLine Add content)
    else if Ascii.eqb c minus then Some (mkHunkLine Remove content)
    else if Ascii.eqb c space then Some (mkHunkLine Context content)
    else None
  | EmptyString => None
  end.

(** The hunk that is being read, if any, is finished. *)
Definition finish (hunks : list Hunk) (current : option Hunk) : result string (list Hunk) :=
  match current with
  | None => Ok hunks
  | Some h => match validate_hunk h with Ok _ => Ok (hunks ++ [h]) | Err e => Err e end
  end.

Fixpoint parse_lines (raw : list string) (hunks : list Hunk) (current : option Hunk)
    : result string (list Hunk) :=
  match raw with
  | [] => finish hunks current
  | raw_line :: raw =>
    if starts_with raw_line "@@" then
      match finish hunks current with
      | Err e => Err e
      | Ok hunks =>
        match parse_hunk_header raw_line with
        | Err e => Err e
        | Ok (start, count) => parse_lines raw hunks (Some (mkHunk start count []))
        end
      end
    else
      match current, parse_hunk_line raw_line with
      | Some h, Some l =>
        parse_lines raw hunks (Some (mkHunk (old_start h) (old_count h) (hunk_lines h ++ [l])))
      | _, _ => parse_lines raw hunks current
      end
  end.

Definition parse_hunks (diff : string) : result string (list Hunk) := parse_lines (lines diff) [] None.

(** ** Applying *)

(** [rest] is [orig_lines[orig_pos..]]. *)
Record Applying : Type := mkApplying {
  orig_pos : Z;
  rest : list string;
  out : list string;
  summary : DiffSummary;
}.

(** The lines before a hunk. *)
Fixpoint copy_until (total start until pos : Z) (rest out : list string) (sm : DiffSummary)
    : result string Applying :=
  if pos <? until then
    match rest with
    | [] => Err ("hunk at old line " +:+ fmt_Z start +:+ " references line " +:+ fmt_Z (pos + 1)
                 +:+ " which is past end of file (" +:+ fmt_Z total +:+ " lines)")
    | line :: rest => copy_until total start until (pos + 1) rest (out ++ [line]) sm
    end
  else Ok (mkApplying pos rest out sm).

Definition mismatch (what : string) (s : Applying) (content : string) : string :=
  match rest s with
  | [] => what +:+ " mismatch: expected " +:+ debug content +:+ " but reached end of file"
  | line :: _ =>
    what +:+ " mismatch at original line " +:+ fmt_Z (orig_pos s + 1) +:+ ": expected "
    +:+ debug content +:+ ", got " +:+ debug (strip_terminator line)
  end.

Definition added (content : string) : string :=
  if negb (ends_with content newline) && negb (ends_with content (String cr ""))
  then content +:+ newline else content.

Definition apply_line (s : Applying) (l : HunkLine) : result string Applying :=
  match kind l with
  | Context =>
    match rest s with
    | line :: rest' =>
      if String.eqb (strip_terminator line) (content l)
      then Ok (mkApplying (orig_pos s + 1) rest' (out s ++ [line]) (summary s))
      else Err (mismatch "context" s (content l))
    | [] => Err (mismatch "context" s (content l))
    end
  | Remove =>
    match rest s with
    | line :: rest' =>
      if String.eqb (strip_terminator line) (content l)
      then Ok (mkApplying (orig_pos s + 1) rest' (out s)
                 (mkDiffSummary (lines_added (summary s)) (lines_removed (summary s) + 1)
                    (hunks_applied (summary s))))
      else Err (mismatch "remove" s (content l))
    | [] => Err (mismatch "remove" s (content l))
    end
  | Add =>
    Ok (mkApplying (orig_pos s) (rest s) (out s ++ [added (content l)])
          (mkDiffSummary (lines_added (summary s) + 1) (lines_removed (summary s))
             (hunks_applied (summary s))))
  end.

Fixpoint apply_lines (s : Applying) (ls : list HunkLine) : result string Applying :=
  match ls with
  | [] => Ok s
  | l :: ls => match apply_line s l with Ok s => apply_lines s ls | Err e => Err e end
  end.

Definition apply_hunk (total : Z) (s : Applying) (hunk : Hunk) : result string Applying :=
  let until := sat_sub (old_start hunk) 1 in
  match copy_until total (old_start hunk) until (orig_pos s) (rest s) (out s) (summary s) with
  | Err e => Err e
  | Ok s =>
    match apply_lines s (hunk_lines hunk) with
    | Err e => Err e
    | Ok s =>
      Ok (mkApplying (orig_pos s) (rest s) (out s)
            (mkDiffSummary (lines_added (summary s)) (lines_removed (summary s))
               (hunks_applied (summary s) + 1)))
    end
  end.

Fixpoint apply_hunks (total : Z) (s : Applying) (hunks : list Hunk) : result string Applying :=
  match hunks with
  | [] => Ok s
  | h :: hunks => match apply_hunk total s h with Ok s => apply_hunks total s hunks | Err e => Err e end
  end.

Definition apply_unified_diff (original diff : string) : result string (string * DiffSummary) :=
  let orig_lines := lines_inclusive original in
  match parse_hunks diff with
  | Err e => Err e
  | Ok [] => Err "diff contains no hunks"
  | Ok hunks =>
    let start := mkApplying 0 orig_lines [] (mkDiffSummary 0 0 0) in
    match apply_hunks (Z.of_nat (length orig_lines)) start hunks with
    | Err e => Err e
    | Ok s => Ok (str_concat (out s ++ rest s), summary s)
    end
  end.
End diff.

(** ** What applying means *)

(** Old and new lines of a hunk: what it keeps is kept as it stood in the text. *)
Inductive body : list HunkLine → list string → list string → Prop :=
| body_nil : body [] [] []
| body_context c line ls old new :
    strip_terminator line = c → body ls old new →
    body (mkHunkLine Context c :: ls) (line :: old) (line :: new)
| body_remove c line ls old new :
    strip_terminator line = c → body ls old new →
    body (mkHunkLine Remove c :: ls) (line :: old) new
| body_add c ls old new :
    body ls old new → body (mkHunkLine Add c :: ls) old (added c :: new).

(** From line [pos] on: the lines before a hunk are kept, as many as its start
    asks for, none when its start has passed. *)
Inductive patched : Z → list Hunk → list string → list string → Prop :=
| patched_done pos : patched pos [] [] []
| patched_hunk pos h hs gap old new old' new' :
    Z.of_nat (length gap) = sat_sub (sat_sub (old_start h) 1) pos →
    body (hunk_lines h) old new →
    patched (pos + Z.of_nat (length gap) + Z.of_nat (length old)) hs old' new' →
    patched pos (h :: hs) (gap ++ old ++ old') (gap ++ new ++ new').

Definition count_kind (k : HunkLineKind) (ls : list HunkLine) : Z :=
  Z.of_nat (length (filter (λ l, kind l = k) ls)).

Definition summary_of (hs : list Hunk) : DiffSummary :=
  let ls := mjoin (map hunk_lines hs) in
  mkDiffSummary (count_kind Add ls) (count_kind Remove ls) (Z.of_nat (length hs)).

Definition plus_summary (a b : DiffSummary) : DiffSummary :=
  mkDiffSummary (lines_added a + lines_added b) (lines_removed a + lines_removed b)
    (hunks_applied a + hunks_applied b).

Lemma copy_until_Ok total start until rest : ∀ pos out sm s,
  copy_until total start until pos rest out sm = Ok s ↔
  ∃ gap rest', rest = gap ++ rest' ∧ Z.of_nat (length gap) = sat_sub until pos ∧
    s = mkApplying (pos + Z.of_nat (length gap)) rest' (out ++ gap) sm.
Proof.
  unfold sat_sub. induction rest as [|line rest IH]; intros pos out sm s; cbn [copy_until].
  - destruct (Z.ltb_spec pos until) as [Hlt|Hge]; split.
    + done.
    + intros (gap & rest' & Hg & Hl & _). symmetry in Hg. apply app_eq_nil in Hg as [-> ->]. cbn in Hl. lia.
    + intros [= <-]. exists [], []. split_and!; [done|cbn; lia|]. cbn. by rewrite Z.add_0_r, app_nil_r.
    + intros (gap & rest' & Hg & Hl & ->). symmetry in Hg. apply app_eq_nil in Hg as [-> ->]. cbn.
      by rewrite Z.add_0_r, app_nil_r.
  - destruct (Z.ltb_spec pos until) as [Hlt|Hge].
    + rewrite IH. split.
      * intros (gap & rest' & -> & Hl & ->). exists (line :: gap), rest'. split_and!; [done|cbn; lia|].
        f_equal; [cbn [length]; lia|by rewrite <- app_assoc].
      * intros (gap & rest' & Hg & Hl & ->). destruct gap as [|g gap]; [cbn in Hl; lia|].
        injection Hg as <- ->. exists gap, rest'. split_and!; [done|cbn in Hl; lia|].
        f_equal; [cbn [length]; lia|by rewrite <- app_assoc].
    + split.
      * intros [= <-]. exists [], (line :: rest). split_and!; [done|cbn; lia|]. cbn.
        by rewrite Z.add_0_r, app_nil_r.
      * intros (gap & rest' & Hg & Hl & ->). destruct gap as [|g gap]; [|cbn in Hl; lia].
        cbn in Hg. subst. cbn. by rewrite Z.add_0_r, app_nil_r.
Qed.

Lemma count_kind_cons k l ls :
  count_kind k (l :: ls) = (if decide (kind l = k) then 1 else 0) + count_kind k ls.
Proof. unfold count_kind. rewrite filter_cons. destruct (decide _); cbn [length]; lia. Qed.

Section applying.
Context (debug : string → string).

Lemma apply_lines_Ok ls : ∀ s s',
  apply_lines debug s ls = Ok s' ↔
  ∃ old new, rest s = old ++ rest s' ∧ body ls old new ∧
    s' = mkApplying (orig_pos s + Z.of_nat (length old)) (rest s') (out s ++ new)
           (plus_summary (summary s) (mkDiffSummary (count_kind Add ls) (count_kind Remove ls) 0)).
Proof.
  induction ls as [|[k c] ls IH]; intros s s'.
  - cbn. unfold plus_summary, count_kind. cbn. split.
    + intros [= <-]. exists [], []. split_and!; [done|constructor|].
      destruct s as [p r o [a b h]]. cbn. by rewrite !Z.add_0_r, app_nil_r.
    + intros (old & new & Hr & Hb & ->). inversion Hb; subst. cbn in Hr. rewrite <- Hr.
      destruct s as [p r o [a b h]]. cbn. by rewrite !Z.add_0_r, app_nil_r.
  - cbn [apply_lines]. unfold plus_summary. rewrite !count_kind_cons.
    destruct k; unfold apply_line; cbn [kind content].
    + destruct (rest s) as [|line r] eqn:Hr.
      { split; [done|]. intros (old & new & Ho & Hb & _). inversion Hb; subst. done. }
      destruct (String.eqb_spec (strip_terminator line) c) as [Hc|Hc].
      2: { split; [done|]. intros (old & new & Ho & Hb & _). inversion Hb; subst. by injection Ho as ->. }
      rewrite IH. cbn [rest out summary orig_pos]. rewrite !decide_False by done. split.
      * intros (old & new & -> & Hb & Hs). exists (line :: old), (line :: new).
        split_and!; [done|by constructor|]. rewrite Hs. cbn [rest length]. f_equal; [lia|by rewrite <- app_assoc].
      * intros (old & new & Ho & Hb & Hs). inversion Hb; subst. injection Ho as <- ->.
        eexists _, _. split_and!; [done|done|]. rewrite Hs. cbn [rest length]. f_equal; [lia|by rewrite <- app_assoc].
    + destruct (rest s) as [|line r] eqn:Hr.
      { split; [done|]. intros (old & new & Ho & Hb & _). inversion Hb; subst. done. }
      destruct (String.eqb_spec (strip_terminator line) c) as [Hc|Hc].
      2: { split; [done|]. intros (old & new & Ho & Hb & _). inversion Hb; subst. by injection Ho as ->. }
      rewrite IH. cbn [rest out summary orig_pos]. rewrite decide_False, decide_True by done. split.
      * intros (old & new & -> & Hb & Hs). exists (line :: old), new.
        split_and!; [done|by constructor|]. rewrite Hs. cbn [rest length]. unfold plus_summary. cbn. f_equal; [lia|f_equal; lia].
      * intros (old & new & Ho & Hb & Hs). inversion Hb; subst. injection Ho as <- ->.
        eexists _, _. split_and!; [done|done|]. rewrite Hs. cbn [rest length]. unfold plus_summary. cbn. f_equal; [lia|f_equal; lia].
    + rewrite IH. cbn [rest out summary orig_pos]. rewrite decide_True, decide_False by done. split.
      * intros (old & new & Ho & Hb & Hs). exists old, (added c :: new).
        split_and!; [done|by constructor|]. rewrite Hs. cbn [rest length]. unfold plus_summary. cbn.
        f_equal; [by rewrite <- app_assoc|f_equal; lia].
      * intros (old & new & Ho & Hb & Hs). inversion Hb; subst.
        eexists _, _. split_and!; [done|done|]. rewrite Hs. cbn [rest length]. unfold plus_summary. cbn.
        f_equal; [by rewrite <- app_assoc|f_equal; lia].
Qed.

Lemma summary_of_cons h hs :
  summary_of (h :: hs) =
  plus_summary (mkDiffSummary (count_kind Add (hunk_lines h)) (count_kind Remove (hunk_lines h)) 1)
    (summary_of hs).
Proof.
  unfold summary_of, plus_summary, count_kind. cbn [map]. change (mjoin (?a :: ?l)) with (a ++ mjoin l).
  rewrite !filter_app, !length_app. cbn. f_equal; lia.
Qed.

Lemma plus_summary_assoc a b c : plus_summary a (plus_summary b c) = plus_summary (plus_summary a b) c.
Proof. unfold plus_summary. cbn. f_equal; lia. Qed.

Lemma apply_hunk_Ok total s h s' :
  apply_hunk debug total s h = Ok s' ↔
  ∃ gap old new, rest s = gap ++ old ++ rest s' ∧ body (hunk_lines h) old new ∧
    Z.of_nat (length gap) = sat_sub (sat_sub (old_start h) 1) (orig_pos s) ∧
    s' = mkApplying (orig_pos s + Z.of_nat (length gap) + Z.of_nat (length old)) (rest s')
           (out s ++ gap ++ new)
           (plus_summary (summary s) (mkDiffSummary (count_kind Add (hunk_lines h))
              (count_kind Remove (hunk_lines h)) 1)).
Proof.
  unfold apply_hunk, plus_summary. split.
  - destruct (copy_until _ _ _ _ _ _ _) as [s1|] eqn:Hc; [|done].
    apply copy_until_Ok in Hc as (gap & r1 & Hr & Hgap & ->).
    destruct (apply_lines debug _ _) as [s2|] eqn:Hl; [|done]. intros [= <-].
    apply apply_lines_Ok in Hl as (old & new & Hold & Hb & ->). cbn in Hold |- *.
    exists gap, old, new. rewrite Hr, Hold, Z.add_0_r, <- app_assoc. by split_and!.
  - intros (gap & old & new & Hr & Hb & Hgap & ->). cbn in *.
    rewrite (proj2 (copy_until_Ok total (old_start h) _ _ _ _ _ _)
               (ex_intro _ gap (ex_intro _ _ (conj Hr (conj Hgap eq_refl))))).
    set (s1 := mkApplying _ _ _ _).
    set (s2 := mkApplying (orig_pos s1 + Z.of_nat (length old)) (rest s') (out s1 ++ new)
                 (plus_summary (summary s1) (mkDiffSummary (count_kind Add (hunk_lines h))
                    (count_kind Remove (hunk_lines h)) 0))).
    assert (apply_lines debug s1 (hunk_lines h) = Ok s2) as ->.
    { apply apply_lines_Ok. by exists old, new. }
    cbn. by rewrite Z.add_0_r, <- app_assoc.
Qed.

Lemma apply_hunks_Ok total hs : ∀ s s',
  apply_hunks debug total s hs = Ok s' ↔
  ∃ old new, rest s = old ++ rest s' ∧ patched (orig_pos s) hs old new ∧
    s' = mkApplying (orig_pos s + Z.of_nat (length old)) (rest s') (out s ++ new)
           (plus_summary (summary s) (summary_of hs)).
Proof.
  induction hs as [|h hs IH]; intros s s'; cbn [apply_hunks].
  - assert (plus_summary (summary s) (summary_of []) = summary s) as ->.
    { destruct s as [? ? ? [a b c]]. unfold plus_summary, summary_of, count_kind. cbn. f_equal; lia. }
    split.
    + intros [= <-]. exists [], []. split_and!; [done|constructor|]. destruct s. cbn.
      by rewrite Z.add_0_r, app_nil_r.
    + intros (old & new & Hr & Hp & ->). inversion Hp; subst. cbn in Hr. rewrite <- Hr. destruct s. cbn.
      by rewrite Z.add_0_r, app_nil_r.
  - rewrite summary_of_cons, plus_summary_assoc. split.
    + destruct (apply_hunk debug total s h) as [s1|] eqn:H1; [|done]. rewrite IH.
      apply apply_hunk_Ok in H1 as (gap & old & new & Hr & Hb & Hgap & Hs1).
      intros (old' & new' & Hr' & Hp & ->). rewrite Hs1 in Hp |- *. cbn in Hp |- *.
      exists (gap ++ old ++ old'), (gap ++ new ++ new'). rewrite Hr, Hr', <- !app_assoc.
      split_and!; [done|by constructor|]. rewrite !length_app. f_equal. lia.
    + intros (old0 & new0 & Hr & Hp & Hs'). inversion Hp as [|? ? ? gap old new old' new' Hgap Hb Hp']; subst.
      set (s1 := mkApplying (orig_pos s + Z.of_nat (length gap) + Z.of_nat (length old)) (old' ++ rest s')
           (out s ++ gap ++ new)
           (plus_summary (summary s) (mkDiffSummary (count_kind Add (hunk_lines h))
              (count_kind Remove (hunk_lines h)) 1))).
      assert (apply_hunk debug total s h = Ok s1) as ->.
      { apply apply_hunk_Ok. exists gap, old, new. cbn. by rewrite Hr, <- !app_assoc. }
      apply IH. exists old', new'. cbn. split_and!; [done|done|]. rewrite Hs'.
      rewrite !length_app, <- !app_assoc. f_equal. cbn. lia.
Qed.

(** What a diff that applies gives. *)
Lemma apply_unified_diff_Ok original diff text sm :
  apply_unified_diff debug original diff = Ok (text, sm) ↔
  ∃ hunks old new tail, parse_hunks debug diff = Ok hunks ∧ hunks ≠ [] ∧
    lines_inclusive original = old ++ tail ∧ patched 0 hunks old new ∧
    text = str_concat (new ++ tail) ∧ sm = summary_of hunks.
Proof.
  unfold apply_unified_diff. destruct (parse_hunks debug diff) as [[|h hs]|e]; [naive_solver..| |naive_solver].
  set (total := Z.of_nat _). set (start := mkApplying _ _ _ _). split.
  - destruct (apply_hunks _ _ _ _) as [s|] eqn:Ha; [|done]. intros [= <- <-].
    apply apply_hunks_Ok in Ha as (old & new & Hr & Hp & ->).
    exists (h :: hs), old, new, (rest s). by split_and!.
  - intros (hunks & old & new & tail & [= <-] & _ & Hl & Hp & -> & ->).
    set (s := mkApplying (0 + Z.of_nat (length old)) tail new (summary_of (h :: hs))).
    assert (apply_hunks debug total start (h :: hs) = Ok s) as ->; [|done].
    apply apply_hunks_Ok. by exists old, new.
Qed.
End applying.

(** ** Diffs that are printed *)

(** A change: the lines that stay before it, and its hunk. *)
Record Change : Type := mkChange {
  before : list string;
  edit : list HunkLine;
}.

Definition old_lines (c : Change) : list string := map content (filter is_old (edit c)).
Definition new_lines (c : Change) : list string :=
  map content (filter (λ l, kind l ≠ Remove) (edit c)).

Definition old_text (cs : list Change) : list string := mjoin (map (λ c, before c ++ old_lines c) cs).
Definition new_text (cs : list Change) : list string := mjoin (map (λ c, before c ++ new_lines c) cs).

Definition sign (k : HunkLineKind) : string :=
  match k with Context => " " | Remove => "-" | Add => "+" end.

Definition header (start count new_start new_count : Z) : string :=
  "@@ -" +:+ fmt_Z start +:+ "," +:+ fmt_Z count +:+ " +" +:+ fmt_Z new_start +:+ ","
  +:+ fmt_Z new_count +:+ " @@".

(** The lines of the diff; [pos] and [new_pos] lines are behind. *)
Fixpoint diff_lines (pos new_pos : Z) (cs : list Change) : list string :=
  match cs with
  | [] => []
  | c :: cs =>
    let b := Z.of_nat (length (before c)) in
    let n := Z.of_nat (length (old_lines c)) in
    let m := Z.of_nat (length (new_lines c)) in
    header (pos + b + 1) n (new_pos + b + 1) m
      :: map (λ l, sign (kind l) +:+ content l) (edit c)
      ++ diff_lines (pos + b + n) (new_pos + b + m) cs
  end.

Definition print_diff (cs : list Change) : string := unlines (diff_lines 0 0 cs) "".

Fixpoint hunks_of (pos : Z) (cs : list Change) : list Hunk :=
  match cs with
  | [] => []
  | c :: cs =>
    let b := Z.of_nat (length (before c)) in
    let n := Z.of_nat (length (old_lines c)) in
    mkHunk (pos + b + 1) n (edit c) :: hunks_of (pos + b + n) cs
  end.

(** A hunk stands on at least one line of the old text. *)
Definition printable (c : Change) : Prop :=
  Forall (λ l, is_line (content l) = true) (edit c) ∧ old_lines c ≠ [] ∧
  Forall (λ l, no_byte lf l = true) (before c).

Section printing.
Context (debug : string → string).

Lemma word_of_number n : 0 ≤ n → all_bytes word_byte (fmt_Z n) = true.
Proof.
  intros Hn. apply all_bytes_fmt; [done|]. intros d Hd.
  assert (d = 0 ∨ d = 1 ∨ d = 2 ∨ d = 3 ∨ d = 4 ∨ d = 5 ∨ d = 6 ∨ d = 7 ∨ d = 8 ∨ d = 9)%N
    as Hc by lia. by destruct_or! Hc; subst.
Qed.

Lemma split_once_app b s t : no_byte b s = true → split_once b (s +:+ String b t) = Some (s, t).
Proof.
  induction s as [|c s IH]; [cbn; by rewrite Ascii.eqb_refl|]. unfold no_byte in *. cbn [all_bytes].
  intros [Hc Hs]%andb_prop. apply negb_true_iff in Hc.
  change (String c s +:+ String b t) with (String c (s +:+ String b t)). cbn [split_once]. by rewrite Hc, IH.
Qed.

Lemma parse_header start count new_start new_count :
  0 < start ≤ u64_max → 0 < count ≤ u64_max →
  parse_hunk_header debug (header start count new_start new_count) = Ok (start, count).
Proof.
  intros Hs Hc. unfold parse_hunk_header, header.
  set (tail := "+" +:+ fmt_Z new_start +:+ "," +:+ fmt_Z new_count +:+ " @@").
  set (word := "-" +:+ fmt_Z start +:+ "," +:+ fmt_Z count).
  assert (trim_start_byte space (trim_start_byte at_sign
     ("@@ -" +:+ fmt_Z start +:+ "," +:+ fmt_Z count +:+ " +" +:+ fmt_Z new_start +:+ ","
      +:+ fmt_Z new_count +:+ " @@")) = word +:+ " " +:+ tail) as ->.
  { unfold word, tail. rewrite !str_app_assoc. reflexivity. }
  destruct (split_whitespace_word word tail) as [l ->].
  - done.
  - unfold word. rewrite !all_bytes_app. by rewrite !word_of_number by lia.
  - unfold tail. by intros c s [= <- _].
  - unfold word. cbn [list_find]. rewrite decide_True by apply (prefix_app "-").
    change (trim_start_byte minus ("-" +:+ fmt_Z start +:+ "," +:+ fmt_Z count))
      with (trim_start_byte minus (fmt_Z start +:+ "," +:+ fmt_Z count)).
    assert (trim_start_byte minus (fmt_Z start +:+ "," +:+ fmt_Z count) = fmt_Z start +:+ "," +:+ fmt_Z count) as ->.
    { rewrite fmt_Z_pos by lia. destruct (pretty_go_head (Z.to_N start) "") as (d & t & -> & Hd); [lia|].
      change (String (pretty_N_char d) t +:+ ?x) with (String (pretty_N_char d) (t +:+ x)).
      cbn [trim_start_byte]. by rewrite digit_plain. }
    change ("," +:+ fmt_Z count) with (String comma (fmt_Z count)).
    rewrite split_once_app; [by rewrite !parse_usize_fmt|].
    apply all_bytes_fmt; [lia|]. intros d Hd. by rewrite digit_plain.
Qed.

Lemma header_at a b c d : starts_with (header a b c d) "@@" = true.
Proof. apply (prefix_app "@@"). Qed.

Lemma parse_edit ls : ∀ hs h more,
  parse_lines debug (map (λ l, sign (kind l) +:+ content l) ls ++ more) hs (Some h) =
  parse_lines debug more hs (Some (mkHunk (old_start h) (old_count h) (hunk_lines h ++ ls))).
Proof.
  induction ls as [|[k c] ls IH]; intros hs h more; [by destruct h; cbn; rewrite app_nil_r|].
  cbn [map app parse_lines kind content].
  replace (starts_with (sign k +:+ c) "@@") with false by by destruct k.
  replace (parse_hunk_line (sign k +:+ c)) with (Some (mkHunkLine k c)) by by destruct k.
  rewrite IH. cbn. by rewrite <- app_assoc.
Qed.

Lemma parse_changes cs : ∀ pos new_pos hs cur hs',
  0 ≤ pos → pos + Z.of_nat (length (old_text cs)) ≤ u64_max → Forall printable cs →
  finish hs cur = Ok hs' →
  parse_lines debug (diff_lines pos new_pos cs) hs cur = Ok (hs' ++ hunks_of pos cs).
Proof.
  induction cs as [|c cs IH]; intros pos new_pos hs cur hs' Hpos Hmax Hcs Hf.
  { cbn. by rewrite app_nil_r. }
  apply Forall_cons in Hcs as [(Hlines & Hold & Hb) Hcs].
  assert (0 < length (old_lines c))%nat as Hn by by destruct (old_lines c); cbn; [|lia].
  unfold old_text in Hmax. cbn [map] in Hmax. change (mjoin (?a :: ?l)) with (a ++ mjoin l) in Hmax.
  rewrite !length_app in Hmax. fold (old_text cs) in Hmax.
  cbn [diff_lines hunks_of parse_lines]. rewrite header_at.
  rewrite Hf, parse_header by lia. rewrite parse_edit. cbn [old_start old_count hunk_lines app].
  rewrite (IH _ _ _ _ (hs' ++ [mkHunk (pos + Z.of_nat (length (before c)) + 1)
    (Z.of_nat (length (old_lines c))) (edit c)])); [by rewrite <- app_assoc|lia|lia|done|].
  unfold finish, validate_hunk. cbn [old_start old_count hunk_lines]. unfold old_lines.
  by rewrite length_map, Z.eqb_refl, andb_false_r.
Qed.

Lemma header_line a b c d :
  0 ≤ a → 0 ≤ b → 0 ≤ c → 0 ≤ d → is_line (header a b c d) = true.
Proof.
  intros. unfold header. rewrite <- !str_app_assoc. apply is_line_app; [|done|done].
  unfold no_byte. rewrite !all_bytes_app.
  assert (∀ n, 0 ≤ n → all_bytes (λ x, negb (Ascii.eqb x lf)) (fmt_Z n) = true) as Hn.
  { intros n Hn. apply all_bytes_fmt; [done|]. intros e He. by rewrite digit_plain. }
  by rewrite !Hn.
Qed.

Lemma edit_line k c : is_line c = true → is_line (sign k +:+ c) = true.
Proof.
  intros Hc. destruct (decide (c = "")) as [->|Hne]; [by destruct k|].
  apply is_line_app; [by destruct k|done|done].
Qed.

Lemma diff_lines_are_lines cs : ∀ pos new_pos,
  0 ≤ pos → 0 ≤ new_pos → Forall printable cs →
  Forall (λ l, is_line l = true) (diff_lines pos new_pos cs).
Proof.
  induction cs as [|c cs IH]; intros pos new_pos Hp Hn Hcs; cbn [diff_lines]; [constructor|].
  apply Forall_cons in Hcs as [(Hl & _ & _) Hcs]. constructor; [apply header_line; lia|].
  apply Forall_app. split; [|apply IH; [lia|lia|done]].
  apply Forall_map. eapply Forall_impl; [exact Hl|]. intros l. apply edit_line.
Qed.

Lemma parse_print cs :
  Forall printable cs → Z.of_nat (length (old_text cs)) ≤ u64_max →
  parse_hunks debug (print_diff cs) = Ok (hunks_of 0 cs).
Proof.
  intros Hcs Hmax. unfold parse_hunks, print_diff.
  rewrite lines_unlines by by apply diff_lines_are_lines. by apply (parse_changes cs 0 0 [] None []).
Qed.
End printing.

(** *** What a printed diff does *)

Definition with_lf (l : string) : string := l +:+ newline.

Lemma added_line c : is_line c = true → added c = with_lf c.
Proof.
  intros [Hlf Hcr]%is_line_spec. unfold added.
  destruct (ends_with c newline) eqn:E; [|destruct (ends_with c (String cr "")) eqn:E'; [|done]].
  - apply ends_with_spec in E as [t ->]. unfold no_byte in Hlf. rewrite all_bytes_app in Hlf.
    cbn in Hlf. by rewrite andb_false_r in Hlf.
  - apply ends_with_spec in E' as [t ->]. by destruct (Hcr t).
Qed.

Lemma body_edit ls :
  Forall (λ l, is_line (content l) = true) ls →
  body ls (map with_lf (map content (filter is_old ls)))
          (map with_lf (map content (filter (λ l, kind l ≠ Remove) ls))).
Proof.
  induction 1 as [|[k c] ls Hc _ IH]; [constructor|]. cbn in Hc. rewrite !filter_cons.
  destruct k; cbn [kind is_old].
  - rewrite !decide_True by done. cbn [map content]. constructor; [by apply trim_line|done].
  - rewrite decide_True, decide_False by auto. cbn [map content]. constructor; [by apply trim_line|done].
  - rewrite decide_False, decide_True by (done || intros []). cbn [map content].
    rewrite <- added_line by done. by constructor.
Qed.

Lemma patched_changes cs : ∀ pos,
  0 ≤ pos → Forall printable cs →
  patched pos (hunks_of pos cs) (map with_lf (old_text cs)) (map with_lf (new_text cs)).
Proof.
  induction cs as [|c cs IH]; intros pos Hp Hcs; [constructor|].
  apply Forall_cons in Hcs as [(Hl & _ & _) Hcs]. unfold old_text, new_text. cbn [map hunks_of].
  change (mjoin (?a :: ?l)) with (a ++ mjoin l). rewrite !map_app, <- !app_assoc.
  constructor.
  - rewrite length_map. cbn [old_start]. unfold sat_sub. lia.
  - by apply body_edit.
  - rewrite !length_map. apply IH; [lia|done].
Qed.

Lemma old_text_lines cs : Forall printable cs → Forall (λ l, no_byte lf l = true) (old_text cs).
Proof.
  induction 1 as [|c cs (Hl & _ & Hb) _ IH]; [constructor|]. unfold old_text. cbn [map].
  change (mjoin (?a :: ?l)) with (a ++ mjoin l). apply Forall_app. split; [|done].
  apply Forall_app. split; [done|]. unfold old_lines. apply Forall_map, Forall_forall.
  intros l [_ Hin]%list_elem_of_filter. rewrite Forall_forall in Hl.
  by destruct (proj1 (is_line_spec _) (Hl l Hin)).
Qed.

Lemma unlines_app a b last : unlines (a ++ b) last = str_concat (map with_lf a) +:+ unlines b last.
Proof. unfold unlines, with_lf. by rewrite map_app, str_concat_app, str_app_assoc. Qed.

(** C23: A diff applies exactly when its hunks follow each other in the text: each
    after the lines its start asks for (none when that place has passed), with
    its context and removed lines as they are there; the result keeps every
    other line, and the summary counts what was done. The diff that is printed
    for changes between two texts, with at least one old line in every hunk,
    turns the one text into the other, whatever follows the last change. *)
Theorem diffs_apply (debug : string → string) :
  (∀ original diff text sm,
     apply_unified_diff debug original diff = Ok (text, sm) ↔
     ∃ hunks old new tail, parse_hunks debug diff = Ok hunks ∧ hunks ≠ [] ∧
       lines_inclusive original = old ++ tail ∧ patched 0 hunks old new ∧
       text = str_concat (new ++ tail) ∧ sm = summary_of hunks) ∧
  (∀ cs tail last,
     cs ≠ [] → Forall printable cs → Z.of_nat (length (old_text cs)) ≤ u64_max →
     Forall (λ l, no_byte lf l = true) tail → no_byte lf last = true →
     apply_unified_diff debug (unlines (old_text cs ++ tail) last) (print_diff cs) =
     Ok (unlines (new_text cs ++ tail) last, summary_of (hunks_of 0 cs))).
Proof.
  split; [intros; apply apply_unified_diff_Ok|]. intros cs tail last Hne Hcs Hmax Htail Hlast.
  apply apply_unified_diff_Ok.
  exists (hunks_of 0 cs), (map with_lf (old_text cs)), (map with_lf (new_text cs)),
    (map with_lf tail ++ (if str_is_empty last then [] else [last])).
  split_and!; [by apply parse_print|by destruct cs| |by apply patched_changes| |done].
  - rewrite lines_inclusive_unlines; [|apply Forall_app; auto using old_text_lines|done].
    by rewrite map_app, <- app_assoc.
  - rewrite unlines_app, !str_concat_app. unfold unlines. f_equal. f_equal.
    destruct last; cbn; [done|by rewrite str_app_nil_r].
Qed.

(** ** Evaluation *)

Module Example_diff.

Definition text (ls : list string) : string := unlines ls "".

Definition applied (original diff : list string) : result string string :=
  match apply_unified_diff (λ s, s) (text original) (text diff) with
  | Ok (t, _) => Ok t
  | Err e => Err e
  end.

Definition changes : list Change :=
  [mkChange ["a"; "b"] [mkHunkLine Context "c"; mkHunkLine Remove "d"; mkHunkLine Add "x"; mkHunkLine Add "y"];
   mkChange ["e"] [mkHunkLine Remove "f"]].

Example printed :
  print_diff changes = text ["@@ -3,2 +3,3 @@"; " c"; "-d"; "+x"; "+y"; "@@ -6,1 +7,0 @@"; "-f"].
Proof. vm_compute. reflexivity. Qed.

Example replaced :
  applied ["a"; "b"; "c"; "d"; "e"; "f"; "g"] (diff_lines 0 0 changes) =
  Ok (text ["a"; "b"; "c"; "x"; "y"; "e"; "g"]).
Proof. vm_compute. reflexivity. Qed.

Example refused :
  applied ["a"; "b"] ["@@ -1,1 +1,1 @@"; "-b"; "+c"] =
    Err "remove mismatch at original line 1: expected b, got a" ∧
  applied ["a"; "b"] ["@@ -9,1 +9,1 @@"; "-b"] =
    Err "hunk at old line 9 references line 3 which is past end of file (2 lines)" ∧
  applied ["a"; "b"] ["@@ -1,2 +1,1 @@"; "-a"] =
    Err "hunk at old line 1 declares old_count=2 but has 1 context/remove lines" ∧
  applied ["a"; "b"] ["--- a"; "+++ b"] = Err "diff contains no hunks".
Proof. vm_compute. split_and!; reflexivity. Qed.

(** A hunk with no old line stands after the line it names, so that this one
    adds a line after [b]; it is put before it. *)
Example insertion_too_early :
  applied ["a"; "b"; "c"] ["@@ -2,0 +3,1 @@"; "+x"] = Ok (text ["a"; "x"; "b"; "c"]).
Proof. vm_compute. reflexivity. Qed.

(** The second hunk is for line 1 and takes line 3. *)
Example hunk_behind :
  applied ["x"; "y"; "x"] ["@@ -2,1 +2,1 @@"; " y"; "@@ -1,1 +1,0 @@"; "-x"] = Ok (text ["x"; "y"]).
Proof. vm_compute. reflexivity. Qed.

(** The note that a text does not end in a line feed is not read. *)
Example line_feed_added :
  apply_unified_diff (λ s, s) "a" (text ["@@ -1,1 +1,1 @@"; "-a"; "+b"; "\ No newline at end of file"]) =
  Ok (text ["b"], mkDiffSummary 1 1 1).
Proof. vm_compute. reflexivity. Qed.

(** The other way round, a last line that ends in a carriage return is joined to the next. *)
Example lines_joined :
  apply_unified_diff (λ s, s) (text ["a"]) ("@@ -1,0 +1,1 @@" +:+ newline +:+ "+b" +:+ String cr "") =
  Ok ("b" +:+ String cr "" +:+ text ["a"], mkDiffSummary 1 0 1).
Proof. vm_compute. reflexivity. Qed.
End Example_diff.

Lemma diffs_apply_witness :
  apply_unified_diff (λ s, s) (unlines (old_text Example_diff.changes ++ ["g"]) "h")
    (print_diff Example_diff.changes) =
  Ok (unlines (new_text Example_diff.changes ++ ["g"]) "h", mkDiffSummary 2 2 2).
Proof.
  destruct (diffs_apply (λ s, s)) as [_ H]. apply H.
  - done.
  - repeat constructor; done.
  - vm_compute. done.
  - by repeat constructor.
  - reflexivity.
Defined.
