(* ===== verification/Files.v ===== *)
(** The file tools: src/src/tools/filesystem.rs with the truncation of
    src/src/tools/output.rs. Reading, writing, listing and editing of files in
    the workspace, on the checks of [Paths] and the diffs of [Diff].

    The file system is [FileSystem] with the operations of [FileIO]; changes by
    others between two operations are not modelled, nor is a blocking task that
    is cancelled. JSON values are opaque, and the canonical composition of
    Unicode ([nfc]) and the debug form of a string are parameters. *)

From S2P Require Import Prelude Text Lines Errors Provider Approval Gate Sanitize Paths Diff.

(** ** Truncation of outputs *)

Definition DEFAULT_MAX_LINES : Z := 2000.
Definition DEFAULT_MAX_BYTES : Z := 50000.

Definition len (s : string) : Z := Z.of_nat (String.length s).

Definition lines_omitted (max_lines remaining : Z) : string :=
  "... [output truncated at " +:+ fmt_Z max_lines +:+ " lines, " +:+ fmt_Z remaining
  +:+ " lines omitted]".

Definition bytes_omitted (max_bytes omitted : Z) : string :=
  "... [output truncated at " +:+ fmt_Z max_bytes +:+ " bytes, " +:+ fmt_Z omitted
  +:+ " bytes omitted]".

(** [segments] are left, [line_index] were taken, with [byte_count] bytes. *)
Fixpoint truncate_from (total max_lines max_bytes : Z) (segments : list string)
    (line_index byte_count : Z) (result : string) : string :=
  match segments with
  | [] => result
  | segment :: rest =>
    if max_lines <=? line_index
    then result +:+ lines_omitted max_lines (Z.of_nat (length segments))
    else if max_bytes <? byte_count + len segment then
      let remaining_budget := sat_sub max_bytes byte_count in
      let kept := floor_boundary segment (Z.to_nat remaining_budget) in
      let result := result +:+ str_take kept segment in
      let result := if ends_with result newline then result else result +:+ newline in
      result +:+ bytes_omitted max_bytes (sat_sub total (byte_count + Z.of_nat kept))
    else truncate_from total max_lines max_bytes rest (line_index + 1) (byte_count + len segment)
           (result +:+ segment)
  end.

Definition truncate_tool_output (output : string) (max_lines max_bytes : Z) : string :=
  truncate_from (len output) max_lines max_bytes (lines_inclusive output) 0 0 "".

(** ** Where a text occurs *)

(** [haystack[start..].find(needle)] as long as there is one; a needle that is
    not empty shortens what is left. *)
Fixpoint occurrences (fuel : nat) (haystack needle : string) (start : nat) : list nat :=
  match fuel with
  | O => []
  | S fuel =>
    match find_str (str_drop start haystack) needle with
    | Some pos =>
      (start + pos)%nat :: occurrences fuel haystack needle (start + pos + String.length needle)
    | None => []
    end
  end.

Definition find_all_occurrences (haystack needle : string) : list nat :=
  if str_is_empty needle then [] else occurrences (S (String.length haystack)) haystack needle 0.

(** [str::split] at a pattern that is not empty: [str::matches] are the gaps, and
    [str::replace] joins the parts with another text. *)
Fixpoint split_at (fuel : nat) (s p : string) : list string :=
  match fuel with
  | O => [s]
  | S fuel =>
    match find_str s p with
    | Some i => str_take i s :: split_at fuel (str_drop (i + String.length p) s) p
    | None => [s]
    end
  end.

Definition split_str (s p : string) : list string := split_at (String.length s) s p.
Definition count_matches (s p : string) : Z := Z.of_nat (length (split_str s p)) - 1.
Definition replace (s p q : string) : string := join q (split_str s p).

(** *** White space *)

Definition tab : Ascii.ascii := Ascii.ascii_of_nat 9.
Definition blank (c : Ascii.ascii) : bool := Ascii.eqb c space || Ascii.eqb c tab.

Fixpoint collapse (prev_ws : bool) (line : string) : string :=
  match line with
  | EmptyString => ""
  | String c line =>
    if blank c then if prev_ws then collapse true line else String space (collapse true line)
    else String c (collapse false line)
  end.

Definition crlf : string := String cr newline.

Definition normalize_whitespace (s : string) : string :=
  join newline (map (λ line, trim_end (collapse false line)) (lines (replace s crlf newline))).

Definition byte_at (s : string) (i : nat) : option Ascii.ascii := String.get i s.
Definition is_byte (s : string) (i : nat) (b : Ascii.ascii) : bool :=
  match byte_at s i with Some c => Ascii.eqb c b | None => false end.
Definition blank_at (s : string) (i : nat) : bool :=
  match byte_at s i with Some c => blank c | None => false end.

(** The end of the run of blanks at [i]. *)
Fixpoint skip_blanks (fuel : nat) (s : string) (i : nat) : nat :=
  match fuel with
  | O => i
  | S fuel => if blank_at s i then skip_blanks fuel s (S i) else i
  end.

(** The loop of [map_ws_range_to_original]; every turn goes on in one of the two
    texts. *)
Fixpoint map_ws (fuel : nat) (original normalized : string) (norm_start norm_end : nat)
    (orig_i norm_i result_start result_end : nat) : nat * nat :=
  match fuel with
  | O => (result_start, result_end)
  | S fuel =>
    if Nat.ltb norm_i (String.length normalized) && Nat.ltb orig_i (String.length original) then
      let result_start := if Nat.eqb norm_i norm_start then orig_i else result_start in
      if Nat.eqb norm_i norm_end then (result_start, orig_i)
      else
        let go i n := map_ws fuel original normalized norm_start norm_end i n result_start result_end in
        if is_byte original orig_i cr && is_byte original (S orig_i) lf && is_byte normalized norm_i lf
        then go (S (S orig_i)) (S norm_i)
        else if blank_at original orig_i && is_byte normalized norm_i space
        then go (skip_blanks (String.length original) original (S orig_i)) (S norm_i)
        else if blank_at original orig_i && is_byte normalized norm_i lf
        then go (S orig_i) norm_i
        else go (S orig_i) (S norm_i)
    else (result_start, result_end)
  end.

Definition map_ws_range_to_original (original normalized : string) (norm_start norm_end : nat) : nat * nat :=
  map_ws (S (String.length original)) original normalized norm_start norm_end 0 0 0
    (String.length original).

(** *** Canonical composition *)

(** The greatest end of the original characters that one composed character
    [nfc_ch] stands for: more are taken until they compose to it, or none is left.
    Returns the characters that were taken and those that are left. *)
Fixpoint take_composed (nfc : string → string) (nfc_ch taken : string) (cs : list string)
    : string * list string :=
  match cs with
  | [] => (taken, [])
  | c :: cs =>
    let taken := taken +:+ c in
    if String.eqb (nfc taken) nfc_ch then (taken, cs)
    else match cs with [] => (taken, []) | _ => take_composed nfc nfc_ch taken cs end
  end.

(** [nfc_to_orig_start] and [nfc_to_orig_end]: for every byte of the composed
    text. [at_byte] is [orig_start_byte], the start of [cs]. *)
Fixpoint nfc_ranges (nfc : string → string) (nfc_chars cs : list string) (at_byte : nat)
    : list (nat * nat) :=
  match nfc_chars with
  | [] => []
  | nfc_ch :: nfc_chars =>
    let '(taken, cs) := take_composed nfc nfc_ch "" cs in
    let end_byte := (at_byte + String.length taken)%nat in
    List.repeat (at_byte, end_byte) (String.length nfc_ch) ++ nfc_ranges nfc nfc_chars cs end_byte
  end.

Definition map_nfc_range_to_original (nfc : string → string) (original : string)
    (nfc_start nfc_end : nat) : nat * nat :=
  let ranges := nfc_ranges nfc (chars (nfc original)) (chars original) 0 in
  (match ranges !! nfc_start with Some (s, _) => s | None => 0%nat end,
   match nfc_end with
   | O => 0%nat
   | S e => match ranges !! e with Some (_, t) => t | None => String.length original end
   end).

(** ** The match of an edit *)

Inductive MatchTier : Type := Exact | UnicodeNormalized | WhitespaceNormalized.

Definition tier_text (t : MatchTier) : string :=
  match t with
  | Exact => "exact"
  | UnicodeNormalized => "unicode-normalized"
  | WhitespaceNormalized => "whitespace-normalized"
  end.

Record UniqueMatch : Type := mkUniqueMatch {
  m_start : nat;
  m_end : nat;
  tier : MatchTier;
}.

Inductive EditMatchError : Type := NotFoundText | MultipleMatches (n : nat).

Definition find_unique_match (nfc : string → string) (content old_text : string)
    : result EditMatchError UniqueMatch :=
  match find_all_occurrences content old_text with
  | [p] => Ok (mkUniqueMatch p (p + String.length old_text) Exact)
  | (_ :: _ :: _) as ps => Err (MultipleMatches (length ps))
  | [] =>
    let whitespace :=
      let content_ws := normalize_whitespace content in
      let search_ws := normalize_whitespace old_text in
      match find_all_occurrences content_ws search_ws with
      | [p] =>
        let '(s, e) := map_ws_range_to_original content content_ws p (p + String.length search_ws) in
        Ok (mkUniqueMatch s e WhitespaceNormalized)
      | (_ :: _ :: _) as ps => Err (MultipleMatches (length ps))
      | [] => Err NotFoundText
      end in
    let content_nfc := nfc content in
    let search_nfc := nfc old_text in
    if negb (String.eqb content_nfc content) || negb (String.eqb search_nfc old_text) then
      match find_all_occurrences content_nfc search_nfc with
      | [p] =>
        let '(s, e) := map_nfc_range_to_original nfc content p (p + String.length search_nfc) in
        Ok (mkUniqueMatch s e UnicodeNormalized)
      | (_ :: _ :: _) as ps => Err (MultipleMatches (length ps))
      | [] => whitespace
      end
    else whitespace
  end.

(** ** The file system *)

(** What an open file is known by is the environment's. An error is its text. *)
Class FileIO (W : Type) := {
  Handle : Type;
  read_to_string : W → Path → result string string;
  read_dir : W → Path → result string (list (result string (string * option FileType)));
  open_write : W → Path → result string Handle * W;
  metadata : W → Handle → result string (bool * Z);
  truncate : W → Handle → result string unit * W;
  write_all : W → Handle → string → result string unit * W;
}.

(** The arguments of a tool, as JSON gives them. *)
Class Arguments (Value : Type) := {
  arg_str : Value → string → option string;
  arg_u64 : Value → string → option Z;
}.

(** ** The tools *)

(** The order of strings is that of their bytes. *)
Definition str_le (a b : string) : Prop := String.leb a b = true.
#[export] Instance str_le_dec : RelDecision str_le.
Proof. intros a b. unfold str_le. apply _. Defined.

Section tools.
Context `{RustUnicode} {W : Type} `{FileSystem W} `{FileIO W}.
Context (debug nfc : string → string).
Implicit Types (w : W) (p : Path) (ctx : ToolContext).

Definition resolve_path w path ctx : result ZeptoError (Path * string) :=
  match workspace ctx with
  | None => Err (SecurityViolation
      "Workspace not configured; filesystem tools require a workspace for safety")
  | Some workspace =>
    match validate_path_in_workspace w path workspace with
    | Ok p => Ok (p, workspace)
    | Err e => Err e
    end
  end.

Definition parent p : option Path :=
  match names p with [] => None | _ => Some (pop p) end.

(** From the opening of the file on. *)
Definition open_and_write w p (content : string) : result ZeptoError unit * W :=
  match open_write w p with
  | (Err e, w) => (Err (Errors.Tool ("Failed to securely open file '" +:+ display p +:+ "': " +:+ e)), w)
  | (Ok file, w) =>
    match metadata w file with
    | Err e => (Err (Errors.Tool ("Failed to inspect opened file '" +:+ display p +:+ "': " +:+ e)), w)
    | Ok (is_file, nlink) =>
      if is_file && (1 <? nlink)
      then (Err (SecurityViolation ("Write blocked: '" +:+ display p +:+ "' has " +:+ fmt_Z nlink
                   +:+ " hard links and may alias content outside workspace")), w)
      else
        match truncate w file with
        | (Err e, w) => (Err (Errors.Tool ("Failed to truncate file '" +:+ display p +:+ "': " +:+ e)), w)
        | (Ok _, w) =>
          match write_all w file content with
          | (Err e, w) => (Err (Errors.Tool ("Failed to write file '" +:+ display p +:+ "': " +:+ e)), w)
          | (Ok _, w) => (Ok tt, w)
          end
        end
    end
  end.

Definition prepare_parent w p (workspace : string) : result ZeptoError unit * W :=
  match parent p with
  | Some parent =>
    if bool_decide (parent = mkPath false []) then (Ok tt, w)
    else
      match ensure_directory_chain_secure w (of_path parent) workspace with
      | (Err e, w) => (Err e, w)
      | (Ok _, w) => (revalidate_path w parent workspace, w)
      end
  | None => (Ok tt, w)
  end.

Definition write_file_secure w p (workspace content : string) : result ZeptoError unit * W :=
  match prepare_parent w p workspace with
  | (Err e, w) => (Err e, w)
  | (Ok _, w) =>
    match revalidate_path w p workspace with
    | Err e => (Err e, w)
    | Ok _ => open_and_write w p content
    end
  end.

Context {Value : Type} `{Arguments Value}.
Implicit Types args : Value.

Definition missing (arg : string) : ZeptoError := Errors.Tool ("Missing '" +:+ arg +:+ "' argument").

Definition read_failed p e : ZeptoError :=
  Errors.Tool ("Failed to read file '" +:+ display p +:+ "': " +:+ e).

(** A path of the workspace, checked again. *)
Definition checked_path w path ctx : result ZeptoError (Path * string) :=
  match resolve_path w path ctx with
  | Err e => Err e
  | Ok (p, workspace) =>
    match revalidate_path w p workspace with Ok _ => Ok (p, workspace) | Err e => Err e end
  end.

Definition read_file args ctx w : result ZeptoError ToolOutput :=
  match arg_str args "path" with
  | None => Err (missing "path")
  | Some path =>
    match checked_path w path ctx with
    | Err e => Err e
    | Ok (p, _) =>
      match read_to_string w p with
      | Ok content =>
        Ok (ToolOutput.llm_only (truncate_tool_output content DEFAULT_MAX_LINES DEFAULT_MAX_BYTES))
      | Err e => Err (read_failed p e)
      end
    end
  end.

Definition write_file args ctx w : result ZeptoError ToolOutput * W :=
  match arg_str args "path", arg_str args "content" with
  | None, _ => (Err (missing "path"), w)
  | Some _, None => (Err (missing "content"), w)
  | Some path, Some content =>
    match resolve_path w path ctx with
    | Err e => (Err e, w)
    | Ok (p, workspace) =>
      match write_file_secure w p workspace content with
      | (Err e, w) => (Err e, w)
      | (Ok _, w) =>
        (Ok (ToolOutput.llm_only ("Successfully wrote " +:+ fmt_Z (len content) +:+ " bytes to "
                                  +:+ display p)), w)
      end
    end
  end.

(** *** Listing *)

Definition type_indicator (t : option FileType) : string :=
  match t with Some Directory => "/" | Some Symlink => "@" | _ => "" end.

Fixpoint entry_names (entries : list (result string (string * option FileType))) : result string (list string) :=
  match entries with
  | [] => Ok []
  | Err e :: _ => Err e
  | Ok (name, t) :: entries =>
    match entry_names entries with Ok ns => Ok ((name +:+ type_indicator t) :: ns) | Err e => Err e end
  end.

Definition list_dir args ctx w : result ZeptoError ToolOutput :=
  match arg_str args "path" with
  | None => Err (missing "path")
  | Some path =>
    match checked_path w path ctx with
    | Err e => Err e
    | Ok (p, _) =>
      match read_dir w p with
      | Err e => Err (Errors.Tool ("Failed to read directory '" +:+ display p +:+ "': " +:+ e))
      | Ok entries =>
        match entry_names entries with
        | Err e => Err (Errors.Tool ("Failed to read directory entry: " +:+ e))
        | Ok items =>
          Ok (ToolOutput.llm_only (truncate_tool_output (join newline (merge_sort str_le items))
                                     DEFAULT_MAX_LINES DEFAULT_MAX_BYTES))
        end
      end
    end
  end.

(** *** Editing *)

Definition both_modes : ZeptoError :=
  Errors.Tool "Provide either 'diff' or 'old_text'/'new_text', not both.".
Definition no_mode : ZeptoError := Errors.Tool "Provide either 'diff' or 'old_text'/'new_text'".

Definition not_found p (old_text : string) : ZeptoError :=
  Errors.Tool ("Text '" +:+ preview old_text 50 +:+ "' not found in file '" +:+ display p +:+ "'").

(** [content[..start] + new_text + content[end..]]; a slice inside a character
    panics. *)
Definition splice (content new_text : string) (m : UniqueMatch) : outcome string :=
  if is_char_boundary content (m_start m) && is_char_boundary content (m_end m)
  then Ret (str_take (m_start m) content +:+ new_text +:+ str_drop (m_end m) content)
  else Panic.

Definition replace_expected p (content old_text new_text : string) (expected : Z)
    : result ZeptoError (string * string) :=
  let replacements := count_matches content old_text in
  if replacements =? 0 then Err (not_found p old_text)
  else if negb (replacements =? expected) then
    Err (Errors.Tool ("Expected " +:+ fmt_Z expected +:+ " replacement(s) for '" +:+ preview old_text 50
           +:+ "' in '" +:+ display p +:+ "', found " +:+ fmt_Z replacements))
  else Ok (replace content old_text new_text,
           "Successfully replaced " +:+ fmt_Z replacements +:+ " occurrence(s) in " +:+ display p).

Definition replace_unique p (content old_text new_text : string)
    : outcome (result ZeptoError (string * string)) :=
  match find_unique_match nfc content old_text with
  | Err (MultipleMatches n) =>
    Ret (Err (Errors.Tool ("Found " +:+ fmt_nat n +:+ " occurrences of text in '" +:+ display p
           +:+ "'. Provide more surrounding context to uniquely identify the location.")))
  | Err NotFoundText => Ret (Err (not_found p old_text))
  | Ok m =>
    match splice content new_text m with
    | Panic => Panic
    | Ret new_content =>
      Ret (Ok (new_content, "Successfully replaced 1 occurrence (" +:+ tier_text (tier m)
                            +:+ " match) in " +:+ display p))
    end
  end.

Definition apply_diff p (content diff : string) : result ZeptoError (string * string) :=
  match apply_unified_diff debug content diff with
  | Err e => Err (Errors.Tool ("Diff apply failed: " +:+ e))
  | Ok (new_content, summary) =>
    Ok (new_content, "Applied " +:+ fmt_Z (hunks_applied summary) +:+ " hunk(s): +"
          +:+ fmt_Z (lines_added summary) +:+ " -" +:+ fmt_Z (lines_removed summary) +:+ " in " +:+ display p)
  end.

(** What an edit asks for. *)
Inductive Edit : Type :=
| ByDiff (diff : string)
| ByText (old_text new_text : string) (expected : option Z).

Definition edit_of args : result ZeptoError Edit :=
  match arg_str args "diff", arg_str args "old_text", arg_str args "new_text" with
  | Some diff, None, None => Ok (ByDiff diff)
  | Some _, _, _ => Err both_modes
  | None, Some old_text, Some new_text => Ok (ByText old_text new_text (arg_u64 args "expected_replacements"))
  | None, _, _ => Err no_mode
  end.

(** The new text of the file and the report. *)
Definition edited p (content : string) (e : Edit) : outcome (result ZeptoError (string * string)) :=
  match e with
  | ByDiff diff => Ret (apply_diff p content diff)
  | ByText old_text new_text (Some expected) => Ret (replace_expected p content old_text new_text expected)
  | ByText old_text new_text None => replace_unique p content old_text new_text
  end.

Definition is_empty_edit (e : Edit) : bool :=
  match e with ByText old_text _ _ => str_is_empty old_text | ByDiff _ => false end.

Definition edit_file args ctx w : outcome (result ZeptoError ToolOutput) * W :=
  match arg_str args "path" with
  | None => (Ret (Err (missing "path")), w)
  | Some path =>
    match edit_of args with
    | Err e => (Ret (Err e), w)
    | Ok e =>
      match checked_path w path ctx with
      | Err e => (Ret (Err e), w)
      | Ok (p, workspace) =>
        if is_empty_edit e then (Ret (Err (Errors.Tool "'old_text' must not be empty")), w)
        else
          match read_to_string w p with
          | Err e => (Ret (Err (read_failed p e)), w)
          | Ok content =>
            match edited p content e with
            | Panic => (Panic, w)
            | Ret (Err e) => (Ret (Err e), w)
            | Ret (Ok (new_content, report)) =>
              match write_file_secure w p workspace new_content with
              | (Err e, w) => (Ret (Err e), w)
              | (Ok _, w) => (Ret (Ok (ToolOutput.llm_only report)), w)
              end
            end
          end
      end
    end
  end.
End tools.

(** ** Truncation *)

Lemma lines_inclusive_subadditive a b :
  (length (lines_inclusive (a +:+ b)) ≤ length (lines_inclusive a) + length (lines_inclusive b))%nat.
Proof.
  induction a as [|c a IH]; [done|]. change (String c a +:+ b) with (String c (a +:+ b)).
  cbn [lines_inclusive]. destruct (Ascii.eqb c lf); [cbn; lia|].
  destruct (lines_inclusive (a +:+ b)) as [|x xs], (lines_inclusive a) as [|y ys]; cbn in *; lia.
Qed.

Lemma lines_inclusive_take n s :
  (length (lines_inclusive (str_take n s)) ≤ length (lines_inclusive s))%nat.
Proof.
  revert n. induction s as [|c s IH]; intros [|n]; cbn [str_take lines_inclusive length]; [lia..|].
  specialize (IH n). destruct (Ascii.eqb c lf); [cbn; lia|].
  destruct (lines_inclusive (str_take n s)), (lines_inclusive s); cbn in *; lia.
Qed.

Lemma lines_inclusive_single s l : l ∈ lines_inclusive s → length (lines_inclusive l) = 1%nat.
Proof.
  revert l. induction s as [|c s IH]; intros l; cbn [lines_inclusive]; [by intros ?%elem_of_nil|].
  destruct (Ascii.eqb c lf) eqn:E.
  - intros [->|Hl]%elem_of_cons; [|by apply IH]. cbn. by rewrite E.
  - destruct (lines_inclusive s) as [|x xs] eqn:Es.
    + intros ->%list_elem_of_singleton. cbn. by rewrite E.
    + intros [->|Hl]%elem_of_cons; [|apply IH; by right].
      assert (length (lines_inclusive x) = 1%nat) as Hx by (apply IH; by left).
      cbn [lines_inclusive]. rewrite E. by destruct (lines_inclusive x) as [|? []].
Qed.

(** [r] is [kept], part of the output within the limits, and a note. *)
Definition truncated_to (output : string) (max_lines max_bytes : Z) (r kept : string) : Prop :=
  (∃ omitted, output = kept +:+ omitted ∧ omitted ≠ "") ∧ len kept ≤ max_bytes ∧
  Z.of_nat (length (lines_inclusive kept)) ≤ max_lines ∧
  ∃ note, r = kept +:+ note ∧ contains note "[output truncated at " = true.

Lemma note_lines a b : contains (lines_omitted a b) "[output truncated at " = true.
Proof. apply contains_spec. by exists "... ", (fmt_Z a +:+ " lines, " +:+ fmt_Z b +:+ " lines omitted]"). Qed.

Lemma note_bytes s a b : contains (s +:+ bytes_omitted a b) "[output truncated at " = true.
Proof.
  apply contains_spec. exists (s +:+ "... "), (fmt_Z a +:+ " bytes, " +:+ fmt_Z b +:+ " bytes omitted]").
  by rewrite str_app_assoc.
Qed.

Lemma len_app a b : len (a +:+ b) = len a + len b.
Proof. unfold len. rewrite str_app_length. lia. Qed.

Lemma truncate_from_spec total max_lines max_bytes segments : ∀ index result,
  Forall (λ l, length (lines_inclusive l) = 1%nat) segments →
  Z.of_nat (length (lines_inclusive result)) ≤ index ≤ max_lines → len result ≤ max_bytes →
  let r := truncate_from total max_lines max_bytes segments index (len result) result in
  let output := result +:+ str_concat segments in
  r = output ∧ len output ≤ max_bytes ∨ ∃ kept, truncated_to output max_lines max_bytes r kept.
Proof.
  induction segments as [|segment rest IH]; intros index result Hone Hindex Hbytes; cbn [truncate_from str_concat].
  { left. by rewrite str_app_nil_r. }
  apply Forall_cons in Hone as [Hseg Hone].
  destruct (Z.leb_spec max_lines index).
  { right. exists result. split_and!; [|done|lia|].
    - eexists. split; [done|]. destruct segment; [done|]. done.
    - eexists. split; [done|]. apply note_lines. }
  destruct (Z.ltb_spec max_bytes (len result + len segment)) as [Hcut|Hfit].
  - right. set (n := floor_boundary segment _).
    assert (Z.of_nat n ≤ max_bytes - len result) as Hn.
    { pose proof (floor_boundary_le segment (Z.to_nat (sat_sub max_bytes (len result)))). unfold n, sat_sub in *. lia. }
    exists (result +:+ str_take n segment). split_and!.
    + exists (str_drop n segment +:+ str_concat rest). split.
      * by rewrite str_app_assoc, <- (str_app_assoc (str_take n segment)), str_take_drop.
      * intros He. apply (f_equal String.length) in He. rewrite str_app_length, str_drop_length in He.
        unfold len in *. cbn in He. lia.
    + rewrite len_app. pose proof (str_take_length n segment). unfold len in *. lia.
    + pose proof (lines_inclusive_subadditive result (str_take n segment)).
      pose proof (lines_inclusive_take n segment). lia.
    + destruct (ends_with _ newline).
      * eexists. split; [done|]. apply (note_bytes "").
      * eexists. rewrite str_app_assoc. split; [done|]. apply note_bytes.
  - specialize (IH (index + 1) (result +:+ segment)). rewrite len_app in IH.
    rewrite <- str_app_assoc. apply IH; [done| |done].
    pose proof (lines_inclusive_subadditive result segment). lia.
Qed.

Lemma truncate_tool_output_spec output max_lines max_bytes :
  0 ≤ max_lines → 0 ≤ max_bytes →
  let r := truncate_tool_output output max_lines max_bytes in
  r = output ∧ len output ≤ max_bytes ∨ ∃ kept, truncated_to output max_lines max_bytes r kept.
Proof.
  intros Hl Hb. pose proof (truncate_from_spec (len output) max_lines max_bytes (lines_inclusive output) 0 "") as H.
  cbn [String.append] in H. rewrite lines_inclusive_concat in H.
  apply H; [|cbn; lia|done]. apply Forall_forall. intros l. apply lines_inclusive_single.
Qed.

(** ** Matches *)

Lemma occurs_split s p i :
  occurs s p i → s = str_take i s +:+ p +:+ str_drop (i + String.length p) s.
Proof.
  intros [_ [t Ht]%prefix_spec]. rewrite <- str_drop_drop, Ht, str_drop_app_exact, <- Ht.
  by rewrite str_take_drop.
Qed.

(** What the search for all occurrences says when it finds one, or none. *)
Lemma find_all_one s p i :
  p ≠ "" → find_all_occurrences s p = [i] →
  occurs s p i ∧ (∀ j, (j < i)%nat → ¬ occurs s p j) ∧
  ∀ j, (i + String.length p ≤ j)%nat → ¬ occurs s p j.
Proof.
  intros Hp. unfold find_all_occurrences. destruct p as [|c p']; [done|]. set (p := String c p') in *.
  cbn [str_is_empty occurrences]. cbn [str_drop].
  destruct (find_str s p) as [k|] eqn:Hf; [|done]. intros [= -> Hrest].
  apply find_str_Some in Hf as [Ho Hmin]. split_and!; [done|done|].
  pose proof (occurs_length _ _ _ Ho) as Hlen. change (String.length p) with (S (String.length p')) in *.
  destruct (String.length s) as [|n] eqn:Hn; [lia|]. cbn [occurrences] in Hrest.
  destruct (find_str (str_drop _ s) p) eqn:Hf; [done|]. intros j Hj Hoj.
  apply (find_str_None _ _ Hf (j - (i + S (String.length p')))). apply occurs_drop; [lia|].
  by replace (i + S (String.length p') + (j - (i + S (String.length p'))))%nat with j by lia.
Qed.

Lemma find_all_none s p : p ≠ "" → find_all_occurrences s p = [] → contains s p = false.
Proof.
  intros Hp. unfold find_all_occurrences. destruct p as [|c p']; [done|]. cbn [str_is_empty occurrences str_drop].
  destruct (find_str s _) eqn:Hf; [done|]. intros _.
  apply not_true_iff_false. rewrite contains_occurs. intros [i Hi]. by apply (find_str_None _ _ Hf i).
Qed.

Lemma split_at_ne fuel s p : split_at fuel s p ≠ [].
Proof. destruct fuel; cbn; [done|]. by destruct (find_str s p). Qed.

Lemma join_cons sep x l : l ≠ [] → join sep (x :: l) = x +:+ sep +:+ join sep l.
Proof. by destruct l. Qed.

Lemma split_at_spec p : p ≠ "" → ∀ fuel s, (String.length s ≤ fuel)%nat →
  join p (split_at fuel s p) = s ∧ Forall (λ x, contains x p = false) (split_at fuel s p).
Proof.
  intros Hp. induction fuel as [|fuel IH]; intros s Hs; cbn [split_at].
  { destruct s; [|cbn in Hs; lia]. split; [done|]. constructor; [by destruct p|constructor]. }
  destruct (find_str s p) as [i|] eqn:Hf.
  - apply find_str_Some in Hf as [Ho Hmin]. pose proof (occurs_length _ _ _ Ho) as Hlen.
    assert (0 < String.length p)%nat as Hpl by (destruct p; [done|cbn; lia]).
    destruct (IH (str_drop (i + String.length p) s)) as [Hj Hall]; [rewrite str_drop_length; lia|].
    split.
    + rewrite join_cons by apply split_at_ne. rewrite Hj. by rewrite <- (occurs_split s p i).
    + constructor; [|done]. apply not_true_iff_false. rewrite contains_occurs.
      intros [j Hj']. pose proof (occurs_length _ _ _ Hj') as Hl.
      pose proof (str_take_length i s) as Ht. apply (Hmin j); [lia|].
      destruct Hj' as [_ [t Hpre]%prefix_spec]. split; [lia|]. apply prefix_spec.
      exists (t +:+ str_drop i s). rewrite <- (str_take_drop i s) at 1.
      rewrite str_drop_app_le, Hpre by lia. by rewrite str_app_assoc.
  - split; [done|]. constructor; [|constructor]. apply not_true_iff_false. rewrite contains_occurs.
    intros [j Hj]. by apply (find_str_None _ _ Hf j).
Qed.

Lemma split_str_spec s p :
  p ≠ "" → join p (split_str s p) = s ∧ Forall (λ x, contains x p = false) (split_str s p).
Proof. intros Hp. by apply split_at_spec. Qed.

(** ** What the tools do *)

(** A file that was written without an error holds what was written. *)
Class FileIOLaws (W : Type) `{FileIO W} := {
  write_read (w : W) p file w1 w2 w3 content :
    open_write w p = (Ok file, w1) → truncate w1 file = (Ok tt, w2) →
    write_all w2 file content = (Ok tt, w3) → read_to_string w3 p = Ok content;
}.

Section guarantees.
Context `{RustUnicode} {W : Type} `{FileSystemLaws W} `{FileIOLaws W}.
Context (debug nfc : string → string).
Implicit Types (w : W) (p : Path).

Lemma open_and_write_reads w p content w' :
  open_and_write w p content = (Ok tt, w') → read_to_string w' p = Ok content.
Proof.
  unfold open_and_write. destruct (open_write w p) as [[file|] w1] eqn:Ho; [|done].
  destruct (metadata w1 file) as [[is_file nlink]|]; [|done]. destruct (is_file && _); [done|].
  destruct (truncate w1 file) as [[[]|] w2] eqn:Ht; [|done].
  destruct (write_all w2 file content) as [[[]|] w3] eqn:Hw; [|done]. intros [= <-].
  by apply (write_read w p file w1 w2 w3).
Qed.

(** Directories made, each where its parent resolves inside, and then nothing, or
    the attempt to write a file that resolves inside. *)
Definition confined_write (workspace : string) (written : Path → string → Prop) w w' : Prop :=
  ∃ w1, rtc (makes_directory (canonical_workspace w workspace)) w w1 ∧
    (w' = w1 ∨ ∃ p content, written p content ∧
       resolves_inside w1 (canonical_workspace w1 workspace) p ∧
       w' = (open_and_write w1 p content).2).

Lemma write_file_secure_confined w p workspace content r w' :
  canonical_workspace w workspace ≠ mkPath false [] →
  write_file_secure w p workspace content = (r, w') →
  confined_write workspace (λ p' c, p' = p ∧ c = content) w w'.
Proof.
  intros Hbase. unfold write_file_secure.
  destruct (prepare_parent w p workspace) as [r1 w1] eqn:Hp.
  assert (rtc (makes_directory (canonical_workspace w workspace)) w w1) as Hdirs.
  { unfold prepare_parent in Hp. destruct (parent p) as [q|]; [|by injection Hp as <- <-].
    case_bool_decide; [by injection Hp as <- <-|].
    destruct (ensure_directory_chain_secure w (of_path q) workspace) as [r2 w2] eqn:He.
    apply directory_chain_made in He as [Hrtc _]; [|done]. by destruct r2; injection Hp as <- <-. }
  destruct r1 as [[]|]; [|intros [= <- <-]; exists w1; auto].
  destruct (revalidate_path w1 p workspace) as [[]|] eqn:Hr; [|intros [= <- <-]; exists w1; auto].
  intros Hw. exists w1. split; [done|]. right. exists p, content. split; [done|].
  split; [by apply revalidated_inside|by rewrite Hw].
Qed.

Lemma write_file_secure_reads w p workspace content w' :
  write_file_secure w p workspace content = (Ok tt, w') → read_to_string w' p = Ok content.
Proof.
  unfold write_file_secure. destruct (prepare_parent w p workspace) as [[[]|] w1]; [|done].
  destruct (revalidate_path w1 p workspace) as [[]|]; [|done]. apply open_and_write_reads.
Qed.

Lemma checked_path_inside w path ctx p workspace :
  checked_path w path ctx = Ok (p, workspace) →
  Gate.workspace ctx = Some workspace ∧ validate_path_in_workspace w path workspace = Ok p ∧
  resolves_inside w (canonical_workspace w workspace) p.
Proof.
  unfold checked_path, resolve_path. destruct (Gate.workspace ctx) as [ws|]; [|done].
  destruct (validate_path_in_workspace w path ws) as [q|] eqn:Hv; [|done].
  destruct (revalidate_path w q ws) as [[]|] eqn:Hr; [|done]. intros [= -> ->].
  split_and!; [done|done|]. by apply revalidated_inside.
Qed.

Context {Value : Type} `{Arguments Value}.
Implicit Types args : Value.

Definition output_of (text : string) (out : ToolOutput) : Prop :=
  ∃ shown, out = ToolOutput.llm_only shown ∧
    (shown = text ∧ len text ≤ DEFAULT_MAX_BYTES ∨
     ∃ kept, truncated_to text DEFAULT_MAX_LINES DEFAULT_MAX_BYTES shown kept).

Lemma output_of_text text :
  output_of text (ToolOutput.llm_only (truncate_tool_output text DEFAULT_MAX_LINES DEFAULT_MAX_BYTES)).
Proof. eexists. split; [done|]. by apply truncate_tool_output_spec. Qed.

Lemma confined_write_refl workspace P w : confined_write workspace P w w.
Proof. exists w. split; [apply rtc_refl|by left]. Qed.

Lemma confined_write_mono workspace (P Q : Path → string → Prop) w w' :
  (∀ p c, P p c → Q p c) → confined_write workspace P w w' → confined_write workspace Q w w'.
Proof.
  intros HPQ (w1 & Hd & Hw). exists w1. split; [done|]. destruct Hw as [->|(p & c & HP & ?)]; [by left|].
  right. exists p, c. naive_solver.
Qed.

#[local] Hint Resolve confined_write_refl : core.

(** The path that is asked for. *)
Definition asked args w workspace p : Prop :=
  ∃ path, arg_str args "path" = Some path ∧ validate_path_in_workspace w path workspace = Ok p.

Section one_workspace.
Context args ctx w workspace (Hws : Gate.workspace ctx = Some workspace).

Lemma read_file_confined out :
  read_file args ctx w = Ok out →
  ∃ p text, asked args w workspace p ∧ resolves_inside w (canonical_workspace w workspace) p ∧
    read_to_string w p = Ok text ∧ output_of text out.
Proof.
  unfold read_file. destruct (arg_str args "path") as [path|] eqn:Hp; [|done].
  destruct (checked_path w path ctx) as [[p ws]|] eqn:Hc; [|done].
  destruct (read_to_string w p) as [text|] eqn:Ht; [|done]. intros [= <-].
  apply checked_path_inside in Hc as (Hws' & Hv & Hin). simplify_eq.
  exists p, text. split_and!; [by exists path|done|done|apply output_of_text].
Qed.

Lemma list_dir_confined out :
  list_dir args ctx w = Ok out →
  ∃ p entries items, asked args w workspace p ∧
    resolves_inside w (canonical_workspace w workspace) p ∧ read_dir w p = Ok entries ∧
    entry_names entries = Ok items ∧ output_of (join newline (merge_sort str_le items)) out.
Proof.
  unfold list_dir. destruct (arg_str args "path") as [path|] eqn:Hp; [|done].
  destruct (checked_path w path ctx) as [[p ws]|] eqn:Hc; [|done].
  destruct (read_dir w p) as [entries|] eqn:Ht; [|done].
  destruct (entry_names entries) as [items|] eqn:Hi; [|done]. intros [= <-].
  apply checked_path_inside in Hc as (Hws' & Hv & Hin). simplify_eq.
  exists p, entries, items. split_and!; [by exists path|done..|apply output_of_text].
Qed.

Context (Hbase : canonical_workspace w workspace ≠ mkPath false []).

Lemma write_file_confined r w' :
  write_file args ctx w = (r, w') →
  confined_write workspace (λ p c, asked args w workspace p ∧ arg_str args "content" = Some c) w w'.
Proof.
  unfold write_file. destruct (arg_str args "path") as [path|] eqn:Hp; [|intros [= _ <-]; auto].
  destruct (arg_str args "content") as [c|] eqn:Hc; [|intros [= _ <-]; auto].
  unfold resolve_path. rewrite Hws.
  destruct (validate_path_in_workspace w path workspace) as [p|] eqn:Hv; [|intros [= _ <-]; auto].
  destruct (write_file_secure w p workspace c) as [r1 w1] eqn:Hwr.
  apply write_file_secure_confined in Hwr; [|done].
  intros Hr. assert (w' = w1) as -> by by destruct r1; injection Hr.
  eapply confined_write_mono; [|exact Hwr]. intros p' c' [-> ->]. split; [by exists path|done].
Qed.

Lemma edit_file_confined r w' :
  edit_file debug nfc args ctx w = (r, w') →
  confined_write workspace (λ p c, asked args w workspace p ∧ ∃ e text report,
    edit_of args = Ok e ∧ read_to_string w p = Ok text ∧
    edited debug nfc p text e = Ret (Ok (c, report))) w w'.
Proof.
  unfold edit_file. destruct (arg_str args "path") as [path|] eqn:Hp; [|intros [= _ <-]; auto].
  destruct (edit_of args) as [e|] eqn:He; [|intros [= _ <-]; auto].
  destruct (checked_path w path ctx) as [[p ws]|] eqn:Hc; [|intros [= _ <-]; auto].
  apply checked_path_inside in Hc as (Hws' & Hv & Hin). simplify_eq.
  destruct (is_empty_edit e); [intros [= _ <-]; auto|].
  destruct (read_to_string w p) as [text|] eqn:Ht; [|intros [= _ <-]; auto].
  destruct (edited debug nfc p text e) as [[[c report]|]|] eqn:Hed; [|intros [= _ <-]; auto..].
  destruct (write_file_secure w p workspace c) as [r1 w1] eqn:Hwr.
  apply write_file_secure_confined in Hwr; [|done].
  intros Hr. assert (w' = w1) as -> by by destruct r1; injection Hr.
  eapply confined_write_mono; [|exact Hwr]. intros p' c' [-> ->]. split; [by exists path|].
  by exists e, text, report.
Qed.
End one_workspace.

(** C21: The file tools stay in the workspace. Without one they refuse and do
    nothing. A file that is read and a directory that is listed resolve inside
    the workspace at that moment, and what is shown is the text or the sorted
    names, whole or cut to the limits with a note. Whatever writing or editing
    does, it makes directories whose parents resolve inside, and after that at
    most opens one file, the one that was asked for, which resolves inside. *)
Theorem file_tools_confined args ctx w :
  match Gate.workspace ctx with
  | None =>
    (∀ out, read_file args ctx w ≠ Ok out) ∧ (∀ out, list_dir args ctx w ≠ Ok out) ∧
    (∃ e, write_file args ctx w = (Err e, w)) ∧ (∃ e, edit_file debug nfc args ctx w = (Ret (Err e), w))
  | Some workspace =>
    let base := canonical_workspace w workspace in
    base ≠ mkPath false [] →
    (∀ out, read_file args ctx w = Ok out →
       ∃ p text, asked args w workspace p ∧ resolves_inside w base p ∧ read_to_string w p = Ok text ∧ output_of text out) ∧
    (∀ out, list_dir args ctx w = Ok out →
       ∃ p entries items, asked args w workspace p ∧ resolves_inside w base p ∧ read_dir w p = Ok entries ∧
         entry_names entries = Ok items ∧ output_of (join newline (merge_sort str_le items)) out) ∧
    (∀ r w', write_file args ctx w = (r, w') →
       confined_write workspace (λ p c, asked args w workspace p ∧ arg_str args "content" = Some c) w w') ∧
    (∀ r w', edit_file debug nfc args ctx w = (r, w') →
       confined_write workspace (λ p c, asked args w workspace p ∧ ∃ e text report,
          edit_of args = Ok e ∧ read_to_string w p = Ok text ∧
          edited debug nfc p text e = Ret (Ok (c, report))) w w')
  end.
Proof.
  destruct (Gate.workspace ctx) as [workspace|] eqn:Hws.
  - intros base Hbase. split_and!; eauto using read_file_confined, list_dir_confined,
      write_file_confined, edit_file_confined.
  - unfold read_file, list_dir, write_file, edit_file, checked_path, resolve_path. rewrite Hws.
    split_and!.
    + intros out. by destruct (arg_str args "path").
    + intros out. by destruct (arg_str args "path").
    + destruct (arg_str args "path"); [|by eexists]. destruct (arg_str args "content"); by eexists.
    + destruct (arg_str args "path"); [|by eexists]. destruct (edit_of args); by eexists.
Qed.

(** *** Edits *)

(** What an edit makes of a text. With a number of replacements, the parts
    between the matches stay and every match is replaced; a single match is the
    only one of its kind, and only without an exact one another kind counts. *)
Definition edit_meaning (e : Edit) (text new : string) : Prop :=
  match e with
  | ByDiff diff => ∃ sm, apply_unified_diff debug text diff = Ok (new, sm)
  | ByText old_text new_text (Some n) =>
    ∃ parts, text = join old_text parts ∧ new = join new_text parts ∧
      Z.of_nat (length parts) = n + 1 ∧ 0 < n ∧ Forall (λ x, contains x old_text = false) parts
  | ByText old_text new_text None =>
    (∃ a b, text = a +:+ old_text +:+ b ∧ new = a +:+ new_text +:+ b ∧
       contains b old_text = false ∧ ∀ j, (j < String.length a)%nat → ¬ occurs text old_text j) ∨
    (contains text old_text = false ∧ ∃ m, find_unique_match nfc text old_text = Ok m ∧
       tier m ≠ Exact ∧ is_char_boundary text (m_start m) = true ∧
       is_char_boundary text (m_end m) = true ∧
       new = str_take (m_start m) text +:+ new_text +:+ str_drop (m_end m) text)
  end.

Lemma replace_expected_meaning p text old_text new_text n new report :
  old_text ≠ "" → replace_expected p text old_text new_text n = Ok (new, report) →
  edit_meaning (ByText old_text new_text (Some n)) text new.
Proof.
  intros Hne. unfold replace_expected, count_matches. set (parts := split_str text old_text).
  destruct (split_str_spec text old_text Hne) as [Hj Hall]. fold parts in Hj, Hall.
  assert (0 < length parts)%nat as Hpos.
  { unfold parts, split_str. destruct (split_at _ _ _) eqn:E; [by apply split_at_ne in E|cbn; lia]. }
  destruct (Z.eqb_spec (Z.of_nat (length parts) - 1) 0); [done|].
  destruct (Z.eqb_spec (Z.of_nat (length parts) - 1) n); [|done]. cbn [negb]. intros [= <- _].
  exists parts. split_and!; [done|done|lia|lia|done].
Qed.

Lemma find_unique_exact text old_text m :
  old_text ≠ "" → find_unique_match nfc text old_text = Ok m →
  (tier m = Exact ∧ m_end m = (m_start m + String.length old_text)%nat ∧
   find_all_occurrences text old_text = [m_start m]) ∨
  (tier m ≠ Exact ∧ find_all_occurrences text old_text = []).
Proof.
  intros Hne. unfold find_unique_match.
  destruct (find_all_occurrences text old_text) as [|i [|j l]]; [|intros [= <-]; by left|done].
  intros Hm. right. split; [|done].
  destruct (negb _ || negb _); repeat case_match; by simplify_eq.
Qed.

Lemma replace_unique_meaning p text old_text new_text new report :
  old_text ≠ "" → replace_unique nfc p text old_text new_text = Ret (Ok (new, report)) →
  edit_meaning (ByText old_text new_text None) text new.
Proof.
  intros Hne. unfold replace_unique.
  destruct (find_unique_match nfc text old_text) as [m|[]] eqn:Hm; [|done..].
  unfold splice. destruct (is_char_boundary text (m_start m)) eqn:Hs; [|done].
  destruct (is_char_boundary text (m_end m)) eqn:He; [|done]. cbn [andb]. intros [= <- _].
  destruct (find_unique_exact text old_text m Hne Hm) as [(_ & Hend & Hall)|[Ht Hall]].
  - left. apply find_all_one in Hall as (Hocc & Hbefore & Hafter); [|done].
    exists (str_take (m_start m) text), (str_drop (m_end m) text). rewrite Hend. split_and!.
    + by apply occurs_split.
    + done.
    + apply not_true_iff_false. rewrite contains_occurs. intros [j Hj].
      pose proof (occurs_length _ _ _ Hocc). apply (Hafter (m_start m + String.length old_text + j)%nat); [lia|].
      by apply occurs_drop.
    + intros j Hj. apply Hbefore. pose proof (str_take_length (m_start m) text). lia.
  - right. split; [by apply find_all_none|]. by exists m.
Qed.

End guarantees.

(** The tools as the registry knows them; the schema of the arguments is a
    literal of JSON. *)
Section registered.
Context `{RustUnicode} {W : Type} `{FileSystem W} `{FileIO W} {Value : Type} `{Arguments Value}.
Context (debug nfc : string → string) (schema : string → Value).

Definition ReadFileTool : Tool Value W :=
  mkTool "read_file" "Read the contents of a file at the specified path" "Read file"
    (schema "read_file") FilesystemRead (λ args ctx w, (Ret (read_file args ctx w), w)).

Definition WriteFileTool : Tool Value W :=
  mkTool "write_file" "Write content to a file at the specified path, creating it if necessary"
    "Write file" (schema "write_file") FilesystemWrite
    (λ args ctx w, let '(r, w) := write_file args ctx w in (Ret r, w)).

Definition ListDirTool : Tool Value W :=
  mkTool "list_dir" "List the contents of a directory at the specified path" "List directory"
    (schema "list_dir") FilesystemRead (λ args ctx w, (Ret (list_dir args ctx w), w)).

Definition EditFileTool : Tool Value W :=
  mkTool "edit_file"
    "Edit a file using either exact string replacement (old_text/new_text) or a unified diff patch (diff). String replacements must resolve to a single match unless expected_replacements is provided."
    "Edit file" (schema "edit_file") FilesystemWrite (edit_file debug nfc).
End registered.

(** ** A file system with texts *)

Module Example_files.
Import Paths.Example_paths.

(** The tree of [Example_paths], and the texts of its files. *)
Definition store : Type := disk * list (list string * string).

#[export] Instance store_files : FileSystem store := {
  canonicalize w raw := canonicalize (fst w) raw;
  symlink_metadata w p := symlink_metadata (fst w) p;
  link_count w p := link_count (fst w) p;
  create_dir w p := let '(r, d) := create_dir (fst w) p in (r, (d, snd w));
}.

#[export] Instance store_laws : FileSystemLaws store.
Proof.
  split.
  - intros [d t] p n q. apply (canonical_parent d p n q).
  - intros [d t] p n q. apply (canonical_exists d p n q).
  - intros [d t] raw c. apply (canonical_fixed d raw c).
  - intros [d t] p e [d' t']. unfold create_dir at 1. cbn -[create_dir].
    destruct (create_dir d p) as [r d1] eqn:E. cbn. intros [= -> -> ->].
    by apply (create_dir_refused d) in E as ->.
  - intros [d t] p n [d' t'] Hp Hc.
    assert (create_dir d (push p n) = (Ok tt, d')) as E.
    { unfold create_dir at 1 in Hc. cbn -[create_dir push] in Hc.
      destruct (create_dir d (push p n)). by injection Hc as -> -> ->. }
    exact (create_dir_made d p n d' Hp E).
Qed.

Fixpoint text_at (ts : list (list string * string)) (k : list string) : string :=
  match ts with
  | [] => ""
  | (k', t) :: ts => if bool_decide (k' = k) then t else text_at ts k
  end.

#[export] Instance store_io : FileIO store := {
  Handle := list string;
  read_to_string w p :=
    match walk (fst w) [] (of_path p) with
    | None => Err "No such file or directory (os error 2)"
    | Some k =>
      match entry (fst w) k with
      | Some (File _) => Ok (text_at (snd w) k)
      | _ => Err "Is a directory (os error 21)"
      end
    end;
  read_dir w p :=
    match walk (fst w) [] (of_path p) with
    | None => Err "No such file or directory (os error 2)"
    | Some k =>
      Ok (omap (λ ke, match last (fst ke) with
            | Some n => if bool_decide (removelast (fst ke) = k)
                        then Some (Ok (n, Some match snd ke with Dir => Directory | File _ => RegularFile
                                                            | Link _ => Symlink end))
                        else None
            | None => None end) (fst w))
    end;
  open_write w p :=
    match lstat (fst w) p, last (names p), walk (fst w) [] (of_path (pop p)) with
    | Some (File _), Some n, Some a => (Ok (a ++ [n]), w)
    | Some Dir, _, _ => (Err "Is a directory (os error 21)", w)
    | Some (Link _), _, _ => (Err "Too many levels of symbolic links (os error 40)", w)
    | None, Some n, Some a => (Ok (a ++ [n]), ((a ++ [n], File 1) :: fst w, (a ++ [n], "") :: snd w))
    | _, _, _ => (Err "No such file or directory (os error 2)", w)
    end;
  metadata w k := Ok (match entry (fst w) k with Some (File n) => (true, n) | _ => (false, 1) end);
  truncate w k := (Ok tt, (fst w, (k, "") :: snd w));
  write_all w k s := (Ok tt, (fst w, (k, text_at (snd w) k +:+ s) :: snd w));
}.

Lemma path_of_last p n : last (names p) = Some n → p = push (pop p) n.
Proof.
  intros Hl. apply last_Some in Hl as [ns Hns]. unfold push, pop. cbn. rewrite Hns, removelast_last.
  destruct p. cbn in *. by subst.
Qed.

Lemma text_at_cons ts k t : text_at ((k, t) :: ts) k = t.
Proof. cbn. by rewrite bool_decide_eq_true_2. Qed.

Lemma entry_here d k e : entry ((k, e) :: d) k = Some e.
Proof. cbn. by rewrite bool_decide_eq_true_2. Qed.

#[export] Instance store_io_laws : FileIOLaws store.
Proof.
  split. intros [d ts] p k w1 w2 w3 c Ho [= <-] [= <-].
  assert (∃ e, walk (fst w1) [] (of_path p) = Some k ∧ entry (fst w1) k = Some (File e)) as (e & Hw & He).
  { cbn -[lstat walk pop entry] in Ho.
    destruct (lstat d p) as [e|] eqn:Hl, (last (names p)) as [n|] eqn:Hn; try done; try (by destruct e).
    - destruct e as [|e|]; [done| |done]. destruct (walk d [] _) as [a|] eqn:Ha; [|done].
      injection Ho as <- <-. rewrite (path_of_last p n Hn), (lstat_push _ _ _ _ Ha) in Hl.
      exists e. split; [|done]. rewrite (path_of_last p n Hn), of_push. cbn [fst].
      rewrite walk_app, Ha. cbn. by rewrite Hl.
    - destruct (walk d [] _) as [a|] eqn:Ha; [|done].
      injection Ho as <- <-. rewrite (path_of_last p n Hn), (lstat_push _ _ _ _ Ha) in Hl.
      exists 1. cbn [fst]. split; [|apply entry_here].
      rewrite (path_of_last p n Hn), of_push, walk_app. rewrite (walk_kept _ _ _ Hl _ _ _ Ha).
      cbn -[entry]. by rewrite entry_here. }
  unfold read_to_string. cbn -[text_at entry walk of_path]. rewrite Hw, He.
  rewrite text_at_cons. cbn. by rewrite bool_decide_eq_true_2.
Qed.

(** Arguments as a list of fields; a number is a field of its own. *)
Definition fields : Type := list (string * (string + Z)).

#[export] Instance fields_arguments : Arguments fields := {
  arg_str v f := match list_find (λ kv, fst kv = f) v with Some (_, (_, inl s)) => Some s | _ => None end;
  arg_u64 v f := match list_find (λ kv, fst kv = f) v with Some (_, (_, inr n)) => Some n | _ => None end;
}.

Definition nbsp : string := String (Ascii.ascii_of_nat 194) (String (Ascii.ascii_of_nat 160) "").

Definition w0 : store :=
  (files, [(["data"; "work"; "src"; "a.rs"], "let a = 1;" +:+ newline +:+ "let  b = 2;" +:+ newline);
           (["data"; "work"; "src"; "b.rs"], "a" +:+ nbsp +:+ newline +:+ "b  c" +:+ newline);
           (["data"; "work"; "src"; "c.rs"],
            "a" +:+ String (Ascii.ascii_of_nat 12) newline +:+ "b  c  e" +:+ newline)]).

Definition w1 : store :=
  ((["data"; "work"; "src"; "b.rs"], File 1) :: (["data"; "work"; "src"; "c.rs"], File 1) :: fst w0, snd w0).

Definition ctx : ToolContext := ToolContext.with_workspace ToolContext.new "/data/work".

Definition edit (w : store) (args : fields) : outcome (result ZeptoError string) :=
  match edit_file (λ s, s) (λ s, s) args ctx w with
  | (Ret (Ok _), w) => Ret (match read_to_string w (at_path ("/data/work/" +:+ default "" (arg_str args "path"))) with
                            | Ok t => Ok t | Err e => Err (Errors.Tool e) end)
  | (Ret (Err e), _) => Ret (Err e)
  | (Panic, _) => Panic
  end.

Example replaced_once :
  edit w0 [("path", inl "src/a.rs"); ("old_text", inl "a = 1"); ("new_text", inl "a = 3")] =
  Ret (Ok ("let a = 3;" +:+ newline +:+ "let  b = 2;" +:+ newline)).
Proof. vm_compute. reflexivity. Qed.

Example replaced_up_to_blanks :
  edit w0 [("path", inl "src/a.rs"); ("old_text", inl "let b"); ("new_text", inl "let c")] =
  Ret (Ok ("let a = 1;" +:+ newline +:+ "let c = 2;" +:+ newline)).
Proof. vm_compute. reflexivity. Qed.

Example replaced_all :
  edit w0 [("path", inl "src/a.rs"); ("old_text", inl "let"); ("new_text", inl "var");
           ("expected_replacements", inr 2)] =
  Ret (Ok ("var a = 1;" +:+ newline +:+ "var  b = 2;" +:+ newline)) ∧
  edit w0 [("path", inl "src/a.rs"); ("old_text", inl "let"); ("new_text", inl "var")] =
  Ret (Err (Errors.Tool "Found 2 occurrences of text in '/data/work/src/a.rs'. Provide more surrounding context to uniquely identify the location.")).
Proof. vm_compute. split; reflexivity. Qed.

(** Overlapping occurrences count as one, so that this is taken for unique. *)
Example overlapping_match :
  find_unique_match (λ s, s) "aaa" "aa" = Ok (mkUniqueMatch 0 2 Exact).
Proof. vm_compute. reflexivity. Qed.

(** Trimming a line takes white space of every kind from its end, and the way
    back to the text only knows blanks: after a line that ends in a no-break
    space everything is off, here by less than a character. *)
Example trailing_no_break_space :
  edit w1 [("path", inl "src/b.rs"); ("old_text", inl "b c"); ("new_text", inl "d")] = Panic.
Proof. vm_compute. reflexivity. Qed.

(** After a form feed it is off by one: the line break goes and half of the text stays. *)
Example trailing_form_feed :
  edit w1 [("path", inl "src/c.rs"); ("old_text", inl "b c"); ("new_text", inl "d")] =
  Ret (Ok ("a" +:+ String (Ascii.ascii_of_nat 12) "d" +:+ " c  e" +:+ newline)).
Proof. vm_compute. reflexivity. Qed.

(** A match up to white space at the end of the text takes the last line feed along. *)
Example last_line_feed_lost :
  edit w0 [("path", inl "src/a.rs"); ("old_text", inl "let b = 2;"); ("new_text", inl "let b = 3;")] =
  Ret (Ok ("let a = 1;" +:+ newline +:+ "let b = 3;")).
Proof. vm_compute. reflexivity. Qed.

Example written :
  let '(r, w) := write_file [("path", inl "new/x.txt"); ("content", inl "hi")] ctx w0 in
  r = Ok (ToolOutput.llm_only "Successfully wrote 2 bytes to /data/work/new/x.txt") ∧
  read_to_string w (at_path "/data/work/new/x.txt") = Ok "hi".
Proof. vm_compute. split; reflexivity. Qed.

Example not_written :
  write_file [("path", inl "twin"); ("content", inl "hi")] ctx w0 =
  (Err (SecurityViolation "Write blocked: '/data/work/twin' has 2 hard links and may alias content outside workspace"), w0).
Proof. vm_compute. reflexivity. Qed.

Example listed :
  list_dir [("path", inl ".")] ctx w0 =
  Ok (ToolOutput.llm_only ("gone@" +:+ newline +:+ "out@" +:+ newline +:+ "src/" +:+ newline +:+ "twin")).
Proof. vm_compute. reflexivity. Qed.

Example cut_output :
  truncate_tool_output ("ab" +:+ newline +:+ "cd" +:+ newline) 9 4 =
    "ab" +:+ newline +:+ "c" +:+ newline +:+ "... [output truncated at 4 bytes, 2 bytes omitted]" ∧
  truncate_tool_output ("ab" +:+ newline +:+ "cd" +:+ newline) 1 9 =
    "ab" +:+ newline +:+ "... [output truncated at 1 lines, 1 lines omitted]".
Proof. vm_compute. split; reflexivity. Qed.
End Example_files.

Import Paths.Example_paths Example_files.

Lemma file_tools_confined_witness :
  confined_write "/data/work"
    (λ p c, asked [("path", inl "new/x.txt"); ("content", inl "hi")] w0 "/data/work" p ∧
            arg_str [("path", inl "new/x.txt"); ("content", inl "hi")] "content" = Some c) w0
    (write_file [("path", inl "new/x.txt"); ("content", inl "hi")] ctx w0).2.
Proof.
  pose proof (file_tools_confined (λ s, s) (λ s, s)
    ([("path", inl "new/x.txt"); ("content", inl "hi")] : fields) ctx w0) as H.
  cbn [Gate.workspace ctx] in H. destruct H as (_ & _ & H & _); [vm_compute; discriminate|].
  eapply H. apply surjective_pairing.
Defined.

