(* ===== verification/Quota.v ===== *)
(** Usage quotas of providers: src/src/providers/quota.rs, with [estimate_cost]
    of src/src/utils/cost.rs.

    [f64] is the primitive binary64 of the kernel. The clock gives the key of a
    period as its formatted date ([QuotaWorld]); JSON and the file are the
    environment's: a write of a snapshot succeeds or changes nothing. *)

From Stdlib Require Import Floats Uint63.
From S2P Require Import Prelude Errors Provider Context Fallback.

#[local] Set Warnings "-inexact-float".

(** ** Costs *)

Record ModelPricing : Type := mkModelPricing {
  input_cost_per_million : float;
  output_cost_per_million : float;
}.

Definition default_pricing : gmap string ModelPricing :=
  list_to_map
    [ ("claude-sonnet-4-6", mkModelPricing 3 15);
      ("claude-sonnet-4-5-20250929", mkModelPricing 3 15);
      ("claude-3-5-sonnet-20241022", mkModelPricing 3 15);
      ("claude-opus-4-6", mkModelPricing 15 75);
      ("claude-3-opus-20240229", mkModelPricing 15 75);
      ("claude-3-haiku-20240307", mkModelPricing 0.25 1.25);
      ("gpt-5.1", mkModelPricing 2.5 10);
      ("gpt-4o-mini", mkModelPricing 0.15 0.6);
      ("gpt-4-turbo", mkModelPricing 10 30) ]%float.

Definition estimate_cost (model : string) (prompt_tokens completion_tokens : Z)
    (custom_pricing : gmap string ModelPricing) : option float :=
  let pricing := match custom_pricing !! model with Some p => Some p | None => default_pricing !! model end in
  match pricing with
  | Some p =>
    let input_cost := F64.mul (F64.div (F64.of_usize prompt_tokens) 1000000) (input_cost_per_million p) in
    let output_cost := F64.mul (F64.div (F64.of_usize completion_tokens) 1000000) (output_cost_per_million p) in
    Some (F64.add input_cost output_cost)
  | None => None
  end.

(** [u64 as f64]: the upper half of the range keeps a sticky bit. *)
Definition of_u64 (n : Z) : float :=
  if n <? 2 ^ 63 then F64.of_usize n
  else F64.mul 2 (F64.of_usize (Z.lor (Z.shiftr n 1) (Z.land n 1))).

(** [f64::max], which prefers a number to a NaN. *)
Definition fmax (a b : float) : float :=
  if PrimFloat.eqb a a then if F64.lt a b then b else a else b.

(** ** The store *)

Inductive QuotaPeriod : Type := Monthly | Daily.
Inductive QuotaAction : Type := Reject | Fallback | Warn.

Record QuotaConfig : Type := mkQuotaConfig {
  max_cost_usd : option float;
  max_tokens : option Z;
  period : QuotaPeriod;
  action : QuotaAction;
}.

Definition QuotaConfig_default : QuotaConfig := mkQuotaConfig None None Monthly Reject.

Record QuotaUsage : Type := mkQuotaUsage {
  period_key : string;
  cost_usd : float;
  tokens : Z;
}.

Inductive QuotaCheckResult : Type := QOk | Warning (pct : float) | Exceeded.

Definition WARNING_THRESHOLD : float := 0.8%float.

Notation State := (gmap string QuotaUsage).

Module QuotaStore.

Definition cost_pct (config : QuotaConfig) (usage : QuotaUsage) : float :=
  match max_cost_usd config with
  | Some max => if F64.lt 0 max then F64.div (cost_usd usage) max else 0%float
  | None => 0%float
  end.

Definition token_pct (config : QuotaConfig) (usage : QuotaUsage) : float :=
  match max_tokens config with
  | Some max => if 0 <? max then F64.div (of_u64 (tokens usage)) (of_u64 max) else 0%float
  | None => 0%float
  end.

Definition no_limits (config : QuotaConfig) : bool :=
  match max_cost_usd config, max_tokens config with None, None => true | _, _ => false end.

(** [current_key] is that of the period of the configuration. *)
Definition check (self : State) (provider : string) (config : QuotaConfig) (current_key : string)
    : QuotaCheckResult :=
  if no_limits config then QOk
  else
    match self !! provider with
    | Some usage =>
      if String.eqb (period_key usage) current_key then
        let max_pct := fmax (cost_pct config usage) (token_pct config usage) in
        if F64.le 1 max_pct then Exceeded
        else if F64.le WARNING_THRESHOLD max_pct then Warning max_pct
        else QOk
      else QOk
    | None => QOk
    end.

(** The update under the lock; the file is written after it. *)
Definition record (self : State) (provider current_key : string) (cost : float) (t : Z) : State :=
  let cost := if F64.lt 0 cost then cost else 0%float in
  let fresh := mkQuotaUsage current_key 0 0 in
  let entry := match self !! provider with
               | Some u => if String.eqb (period_key u) current_key then u else fresh
               | None => fresh
               end in
  <[provider := mkQuotaUsage (period_key entry) (F64.add (cost_usd entry) cost)
                  (wadd64 (tokens entry) t)]> self.

Definition reset_provider (self : State) (name : string) : State := delete name self.
Definition reset_all (self : State) : State := ∅.
End QuotaStore.

(** ** Histories *)

(** An update of the store, by any thread. *)
Inductive Op : Type :=
| Record_ (provider key : string) (cost : float) (t : Z)
| Reset (provider : string)
| ResetAll.

Definition run_op (s : State) (o : Op) : State :=
  match o with
  | Record_ p k c t => QuotaStore.record s p k c t
  | Reset p => QuotaStore.reset_provider s p
  | ResetAll => QuotaStore.reset_all s
  end.

Definition run (ops : list Op) : State := foldl run_op ∅ ops.

(** What was recorded for [p], the last first: the key of the last record, and
    the records under that key down to the last reset or another key. *)
Fixpoint last_key (p : string) (rev_ops : list Op) : option string :=
  match rev_ops with
  | [] => None
  | Record_ q k _ _ :: r => if String.eqb q p then Some k else last_key p r
  | Reset q :: r => if String.eqb q p then None else last_key p r
  | ResetAll :: _ => None
  end.

Fixpoint recent (p k : string) (rev_ops : list Op) : list (float * Z) :=
  match rev_ops with
  | [] => []
  | Record_ q k' c t :: r =>
    if String.eqb q p then if String.eqb k' k then recent p k r ++ [(c, t)] else []
    else recent p k r
  | Reset q :: r => if String.eqb q p then [] else recent p k r
  | ResetAll :: _ => []
  end.

Definition positive_part (c : float) : float := if F64.lt 0 c then c else 0%float.

Definition total (k : string) (records : list (float * Z)) : QuotaUsage :=
  mkQuotaUsage k (F64.sum (map (λ r, positive_part (fst r)) records))
    (foldl wadd64 0 (map snd records)).

Lemma total_snoc k records c t :
  total k (records ++ [(c, t)]) =
  mkQuotaUsage k (F64.add (cost_usd (total k records)) (positive_part c))
    (wadd64 (tokens (total k records)) t).
Proof. unfold total, F64.sum. rewrite !map_app, !foldl_app. done. Qed.

Lemma recent_no_key p k r : last_key p r = None → recent p k r = [].
Proof.
  induction r as [|[q k' c t|q|] r IH]; cbn; [done| | |done].
  - destruct (String.eqb q p); [done|]. apply IH.
  - destruct (String.eqb q p); [done|]. apply IH.
Qed.

Lemma recent_other_key p k k' r : last_key p r = Some k' → k' ≠ k → recent p k r = [].
Proof.
  induction r as [|[q k1 c t|q|] r IH]; cbn; [done| | |done].
  - destruct (String.eqb q p); [|apply IH]. intros [= ->] Hne. by destruct (String.eqb_spec k' k).
  - destruct (String.eqb q p); [done|apply IH].
Qed.

Lemma run_usage ops p :
  run ops !! p = (λ k, total k (recent p k (rev ops))) <$> last_key p (rev ops).
Proof.
  unfold run. induction ops as [|o ops IH] using rev_ind; [done|].
  rewrite foldl_snoc, rev_app_distr. cbn [rev app]. destruct o as [q k c t|q|]; cbn [run_op last_key recent].
  - unfold QuotaStore.record. destruct (String.eqb_spec q p) as [->|Hne].
    + rewrite lookup_insert_eq. cbn. rewrite String.eqb_refl, total_snoc. do 2 f_equal; rewrite IH.
      * destruct (last_key p (rev ops)) as [k'|]; cbn; [by destruct (String.eqb_spec k' k)|done].
      * destruct (last_key p (rev ops)) as [k'|] eqn:Hk; cbn.
        -- destruct (String.eqb_spec k' k) as [->|Hk']; [done|]. by rewrite (recent_other_key p k k').
        -- by rewrite recent_no_key.
      * destruct (last_key p (rev ops)) as [k'|] eqn:Hk; cbn.
        -- destruct (String.eqb_spec k' k) as [->|Hk']; [done|]. by rewrite (recent_other_key p k k').
        -- by rewrite recent_no_key.
    + rewrite lookup_insert_ne by done. exact IH.
  - unfold QuotaStore.reset_provider. destruct (String.eqb_spec q p) as [->|Hne].
    + by rewrite lookup_delete_eq.
    + rewrite lookup_delete_ne by done. exact IH.
  - done.
Qed.

(** ** The file *)

(** Threads update the memory under the lock and write the snapshot they took
    after they released it: the writes come in any order, and may fail. *)
Record Shared : Type := mkShared {
  memory : State;
  file : State;
  in_flight : list State;
}.

Inductive step : Shared → Shared → Prop :=
| step_op m f fl o : step (mkShared m f fl) (mkShared (run_op m o) f (fl ++ [run_op m o]))
| step_write m f l1 s l2 : step (mkShared m f (l1 ++ s :: l2)) (mkShared m s (l1 ++ l2))
| step_failed m f l1 s l2 : step (mkShared m f (l1 ++ s :: l2)) (mkShared m f (l1 ++ l2)).

(** Writes in the order of the updates. *)
Inductive ordered_step : Shared → Shared → Prop :=
| ordered_op m f fl o : ordered_step (mkShared m f fl) (mkShared (run_op m o) f (fl ++ [run_op m o]))
| ordered_write m f s fl : ordered_step (mkShared m f (s :: fl)) (mkShared m s fl).

Definition empty_store : Shared := mkShared ∅ ∅ [].

(** The memory holds a history, and what is or will be in the file parts of it. *)
Definition snapshots_of (ops : list Op) (c : Shared) : Prop :=
  memory c = run ops ∧ Forall (λ s, ∃ past, past `prefix_of` ops ∧ s = run past) (file c :: in_flight c).

Lemma run_snoc ops o : run (ops ++ [o]) = run_op (run ops) o.
Proof. apply foldl_snoc. Qed.

Lemma step_snapshots c c' ops :
  step c c' → snapshots_of ops c → ∃ ops', ops `prefix_of` ops' ∧ snapshots_of ops' c'.
Proof.
  intros Hs [Hm Hf]. destruct Hs as [m f fl o|m f l1 s l2|m f l1 s l2]; cbn in *.
  - exists (ops ++ [o]). split; [by eexists|]. split; cbn; [by rewrite run_snoc, Hm|].
    rewrite app_comm_cons. apply Forall_app. split.
    + eapply Forall_impl; [exact Hf|]. intros s (past & Hp & ->). exists past. split; [|done].
      etrans; [done|by eexists].
    + constructor; [|constructor]. exists (ops ++ [o]). by rewrite run_snoc, Hm.
  - exists ops. split; [done|]. split; [done|]. cbn. rewrite !Forall_cons, !Forall_app, !Forall_cons in *. naive_solver.
  - exists ops. split; [done|]. split; [done|]. cbn. rewrite !Forall_cons, !Forall_app, !Forall_cons in *. naive_solver.
Qed.

Lemma reachable_snapshots c : rtc step empty_store c → ∃ ops, snapshots_of ops c.
Proof.
  assert (∀ c0 c ops, rtc step c0 c → snapshots_of ops c0 → ∃ ops, snapshots_of ops c) as H.
  { intros c0 c1 ops Hr. revert ops. induction Hr as [|c0 c1 c2 Hs _ IH]; intros ops Ho; [by eexists|].
    destruct (step_snapshots c0 c1 ops Hs Ho) as (ops' & _ & Ho'). by apply (IH ops'). }
  intros Hr. apply (H _ _ [] Hr). split; [done|]. repeat constructor. by exists [].
Qed.

Lemma ordered_last c : rtc ordered_step empty_store c → last (file c :: in_flight c) = Some (memory c).
Proof.
  assert (∀ c0 c, rtc ordered_step c0 c → last (file c0 :: in_flight c0) = Some (memory c0) →
    last (file c :: in_flight c) = Some (memory c)) as H; [|by intros Hr; apply (H _ _ Hr)].
  intros c0 c1 Hr. induction Hr as [|c0 c1 c2 Hs _ IH]; [done|]. intros Hl. apply IH.
  destruct Hs as [m f fl o|m f s fl]; cbn in *; [|done].
  change (last ((f :: fl) ++ [run_op m o]) = Some (run_op m o)). by rewrite last_snoc.
Qed.

(** How much of the limits is used. *)
Definition used (config : QuotaConfig) (usage : QuotaUsage) : QuotaCheckResult :=
  let pct := fmax (QuotaStore.cost_pct config usage) (QuotaStore.token_pct config usage) in
  if F64.le 1 pct then Exceeded else if F64.le WARNING_THRESHOLD pct then Warning pct else QOk.

(** After any history, a check weighs exactly what was recorded for the
    provider in the current period since its last reset, if the last record is
    of this period, and says nothing without a limit. However updates and writes
    of several threads interleave, the file holds the result of a part of the
    history; it is the memory when every update has been written in order. *)
Theorem quota_histories :
  (∀ ops p config key,
     QuotaStore.check (run ops) p config key =
     if QuotaStore.no_limits config then QOk
     else match last_key p (rev ops) with
          | Some k => if String.eqb k key then used config (total key (recent p key (rev ops))) else QOk
          | None => QOk
          end) ∧
  (∀ c, rtc step empty_store c → ∃ ops, snapshots_of ops c) ∧
  (∀ c, rtc ordered_step empty_store c → in_flight c = [] → file c = memory c).
Proof.
  split_and!.
  - intros ops p config key. unfold QuotaStore.check. destruct (QuotaStore.no_limits config); [done|].
    rewrite run_usage. destruct (last_key p (rev ops)) as [k|]; [|done]. cbn [fmap option_fmap option_map].
    cbn [period_key total]. by destruct (String.eqb_spec k key) as [->|].
  - apply reachable_snapshots.
  - intros c Hr He. apply ordered_last in Hr. rewrite He in Hr. by injection Hr.
Qed.

(** ** The provider *)

(** The clock as the key of a period, the store all providers share, and the
    write of its file, whose failure is ignored. *)
Class QuotaWorld (W : Type) := {
  current_period_key : QuotaPeriod → M W string;
  quota_state : W → State;
  set_quota_state : State → W → W;
  persist_state : State → M W unit;
}.

Class QuotaWorldLaws (W : Type) `{QuotaWorld W} := {
  quota_state_set (s : State) (w : W) : quota_state (set_quota_state s w) = s;
  persist_keeps (s : State) (w : W) : quota_state (persist_state s w).2 = quota_state w;
  key_keeps (p : QuotaPeriod) (w : W) : quota_state (current_period_key p w).2 = quota_state w;
}.

(** What a response reports: all, prompt and completion tokens. *)
Record Usage : Type := mkUsage {
  total_tokens : Z;
  prompt_tokens : Z;
  completion_tokens : Z;
}.

Record QuotaProvider (W P R V : Type) : Type := mkQuotaProvider {
  inner : LLMProvider W P R V;
  q_name : string;
  config : QuotaConfig;
}.
Arguments mkQuotaProvider {W P R V} _ _ _.
Arguments inner {W P R V} _.
Arguments q_name {W P R V} _.
Arguments config {W P R V} _.

Definition period_text (p : QuotaPeriod) : string :=
  match p with Monthly => "monthly" | Daily => "daily" end.

Module QuotaProvider.
Section methods.
Context {W P R V : Type} `{QuotaWorld W} (usage_of : R → option Usage).
Implicit Types self : QuotaProvider W P R V.

Definition store_check self : M W QuotaCheckResult :=
  if QuotaStore.no_limits (config self) then ret QOk
  else
    let* key := current_period_key (period (config self)) in
    λ w, (QuotaStore.check (quota_state w) (q_name self) (config self) key, w).

Definition rejected self : ZeptoError :=
  QuotaRejected (q_name self +:+ " " +:+ period_text (period (config self)) +:+ " quota exceeded (hard reject)").
Definition exceeded self : ZeptoError :=
  QuotaExceeded (q_name self +:+ " " +:+ period_text (period (config self)) +:+ " quota exceeded").

Definition check_and_enforce self : M W (result ZeptoError unit) :=
  let* verdict := store_check self in
  match verdict with
  | QOk | Warning _ => ret (Ok tt)
  | Exceeded =>
    match action (config self) with
    | Warn => ret (Ok tt)
    | Reject => ret (Err (rejected self))
    | Fallback => ret (Err (exceeded self))
    end
  end.

Definition store_record self (cost : float) (t : Z) : M W unit :=
  let* key := current_period_key (period (config self)) in
  λ w, let s := QuotaStore.record (quota_state w) (q_name self) key cost t in
       persist_state s (set_quota_state s w).

Definition cost_of self (u : Usage) : float :=
  default 0%float (estimate_cost (default_model (inner self)) (prompt_tokens u) (completion_tokens u) ∅).

Definition record_usage self (response : R) : M W unit :=
  match usage_of response with
  | None => ret tt
  | Some u =>
    if F64.lt 0 (cost_of self u) || (0 <? total_tokens u)
    then store_record self (cost_of self u) (total_tokens u) else ret tt
  end.

Definition chat self (req : P) (model : option string) : M W (result ZeptoError R) :=
  let* allowed := check_and_enforce self in
  match allowed with
  | Err e => ret (Err e)
  | Ok _ =>
    let* r := Provider.chat (inner self) req model in
    match r with
    | Err e => ret (Err e)
    | Ok response => do* record_usage self response in ret (Ok response)
    end
  end.

Definition chat_stream self (req : P) (model : option string) : M W (result ZeptoError V) :=
  let* allowed := check_and_enforce self in
  match allowed with
  | Err e => ret (Err e)
  | Ok _ => Provider.chat_stream (inner self) req model
  end.

(** The decorator is a provider again. *)
Definition as_provider self : LLMProvider W P R V :=
  {| provider_name := provider_name (inner self); default_model := default_model (inner self);
     Provider.chat := chat self; Provider.chat_stream := chat_stream self |}.
End methods.
End QuotaProvider.

(** *** Enforcement *)

Section enforcement.
Context {W P R V : Type} `{World W} `{QuotaWorldLaws W} (usage_of : R → option Usage).
Import QuotaProvider.

(** The store after a response of [q], whose record falls in the period [key]. *)
Definition recorded (q : QuotaProvider W P R V) (key : string) (response : R) (s : State) : State :=
  match usage_of response with
  | Some u =>
    if F64.lt 0 (cost_of q u) || (0 <? total_tokens u)
    then QuotaStore.record s (q_name q) key (cost_of q u) (total_tokens u) else s
  | None => s
  end.

Lemma record_usage_state (q : QuotaProvider W P R V) response (w : W) :
  ∃ key, quota_state (record_usage usage_of q response w).2 = recorded q key response (quota_state w).
Proof.
  unfold record_usage, recorded. destruct (usage_of response) as [u|]; [|by exists ""].
  destruct (F64.lt 0 _ || _); [|by exists ""]. unfold store_record, bind.
  destruct (current_period_key (period (config q)) w) as [key w1] eqn:Hk. exists key.
  rewrite persist_keeps, quota_state_set. f_equal.
  pose proof (key_keeps (period (config q)) w) as Hw. rewrite Hk in Hw. exact Hw.
Qed.

Section one_request.
Context (q : QuotaProvider W P R V) (req : P) (model : option string) (w0 : W).

Lemma store_check_keeps : quota_state (store_check q w0).2 = quota_state w0.
Proof.
  unfold store_check, bind. destruct (QuotaStore.no_limits _); [done|].
  pose proof (key_keeps (period (config q)) w0) as Hk. by destruct (current_period_key _ w0).
Qed.

Definition enforced (verdict : QuotaCheckResult) : result ZeptoError unit :=
  match verdict with
  | Exceeded =>
    match action (config q) with
    | Warn => Ok tt | Reject => Err (rejected q) | Fallback => Err (exceeded q)
    end
  | _ => Ok tt
  end.

Lemma check_and_enforce_verdict verdict w1 :
  store_check q w0 = (verdict, w1) → check_and_enforce q w0 = (enforced verdict, w1).
Proof.
  intros Hv. unfold check_and_enforce. rewrite (bind_eq _ _ _ _ _ Hv).
  by destruct verdict; [..|cbn; destruct (action (config q))].
Qed.

Lemma quota_refuses e w1 :
  check_and_enforce q w0 = (Err e, w1) →
  chat usage_of q req model w0 = (Err e, w1) ∧ chat_stream q req model w0 = (Err e, w1).
Proof. intros Hc. unfold chat, chat_stream. by rewrite !(bind_eq _ _ _ _ _ Hc). Qed.

Lemma quota_passes w1 :
  check_and_enforce q w0 = (Ok tt, w1) →
  (let '(r, w2) := Provider.chat (inner q) req model w1 in
   let '(r', w3) := chat usage_of q req model w0 in
   r' = r ∧ match r with
            | Ok response => ∃ key, quota_state w3 = recorded q key response (quota_state w2)
            | Err _ => w3 = w2
            end) ∧
  chat_stream q req model w0 = Provider.chat_stream (inner q) req model w1.
Proof.
  intros Hc. unfold chat, chat_stream. rewrite !(bind_eq _ _ _ _ _ Hc). split; [|done].
  unfold bind. destruct (Provider.chat (inner q) req model w1) as [[response|e] w2]; [|done].
  pose proof (record_usage_state q response w2) as Hr.
  destruct (record_usage usage_of q response w2) as [[] w3]. by split.
Qed.
End one_request.

(** What the fallback decorator makes of an error of its primary. *)
Lemma fallback_refused {A} (fb : FallbackProvider W P R V) (c f : M W (result ZeptoError A)) w w0 e w1 :
  Fallback.FallbackProvider.skip_primary fb w = (false, w0) → c w0 = (Err e, w1) →
  Fallback.should_fallback e = false → FallbackProvider.request fb c f w = ((Err e, fb), w1).
Proof.
  intros Hs Hc He. unfold FallbackProvider.request. rewrite (bind_eq _ _ _ _ _ Hs).
  rewrite (bind_eq _ _ _ _ _ Hc). by rewrite He.
Qed.

Lemma fallback_asked {A} (fb : FallbackProvider W P R V) (c f : M W (result ZeptoError A)) w w0 e w1 :
  Fallback.FallbackProvider.skip_primary fb w = (false, w0) → c w0 = (Err e, w1) →
  Fallback.should_fallback e = true →
  ∃ fb' w2, circuit_breaker fb' = CircuitBreaker.record_failure_at (circuit_breaker fb) (epoch_secs w1).1 ∧
    FallbackProvider.request fb c f w = (let '(r, w3) := f w2 in ((r, fb'), w3)).
Proof.
  intros Hs Hc He. unfold FallbackProvider.request. rewrite (bind_eq _ _ _ _ _ Hs).
  rewrite (bind_eq _ _ _ _ _ Hc), He. unfold CircuitBreaker.record_failure, bind, ret.
  destruct (epoch_secs w1) as [now w2]. destruct (mark_failure _ _ _ w2) as [cd w3].
  exists (FallbackProvider.with_health fb (CircuitBreaker.record_failure_at (circuit_breaker fb) now) cd), w3.
  done.
Qed.

(** A primary with a quota behind a fallback. When its quota is used up, a
    hard quota refuses the request, without a call of the primary or of the
    fallback, and its health stays; a soft one passes the request on to the
    fallback, and counts as a failure of the primary. In every other case the
    primary is asked exactly as without a quota, and a response to a plain
    request is added to the store once, a stream never. *)
Theorem quotas_enforced (q : QuotaProvider W P R V) (fb : FallbackProvider W P R V)
    (req : P) (model : option string) (w w0 : W) :
  primary fb = as_provider usage_of q →
  Fallback.FallbackProvider.skip_primary fb w = (false, w0) →
  let '(verdict, w1) := store_check q w0 in
  quota_state w1 = quota_state w0 ∧
  match verdict, action (config q) with
  | Exceeded, Reject =>
    FallbackProvider.chat fb req model w = ((Err (rejected q), fb), w1) ∧
    FallbackProvider.chat_stream fb req model w = ((Err (rejected q), fb), w1)
  | Exceeded, Fallback =>
    ∃ fb' w2, circuit_breaker fb' = CircuitBreaker.record_failure_at (circuit_breaker fb) (epoch_secs w1).1 ∧
      FallbackProvider.chat fb req model w =
        (let '(r, w3) := Provider.chat (fallback fb) req (or_model (fallback_model fb) model) w2 in ((r, fb'), w3))
  | _, _ =>
    (let '(r, w2) := Provider.chat (inner q) req model w1 in
     let '(r', w3) := chat usage_of q req model w0 in
     r' = r ∧ match r with
              | Ok response => ∃ key, quota_state w3 = recorded q key response (quota_state w2)
              | Err _ => w3 = w2
              end) ∧
    chat_stream q req model w0 = Provider.chat_stream (inner q) req model w1
  end.
Proof.
  intros Hprim Hskip. pose proof (store_check_keeps q w0) as Hkeep.
  destruct (store_check q w0) as [verdict w1] eqn:Hv. split; [done|].
  apply check_and_enforce_verdict in Hv.
  pose proof (quota_passes q req model w0 w1) as Hpass. unfold enforced in Hv.
  destruct verdict as [| |]; [by apply Hpass..|].
  destruct (action (config q)); [| |by apply Hpass];
    apply (quota_refuses q req model) in Hv as [Hc Hcs].
  - unfold FallbackProvider.chat, FallbackProvider.chat_stream. rewrite Hprim.
    split; [by apply (fallback_refused fb _ _ w w0 _ w1 Hskip Hc)|by apply (fallback_refused fb _ _ w w0 _ w1 Hskip Hcs)].
  - unfold FallbackProvider.chat. rewrite Hprim. by apply (fallback_asked fb _ _ w w0 _ w1 Hskip Hc).
Qed.
End enforcement.

(** ** Evaluation *)

Module Example_quota.

(** A scripted world with a store; the period never changes. *)
Definition W : Type := State * Scripted.t.

#[export] Instance quota_world : QuotaWorld W := {|
  current_period_key := λ p, ret (match p with Monthly => "2026-03" | Daily => "2026-03-01" end);
  quota_state := fst;
  set_quota_state := λ s w, (s, snd w);
  persist_state := λ _, ret tt;
|}.

#[export] Instance quota_world_laws : QuotaWorldLaws W.
Proof. by split. Qed.

Definition hard : QuotaConfig := mkQuotaConfig None (Some 1000) Monthly Reject.
Definition soft : QuotaConfig := mkQuotaConfig None (Some 1000) Monthly Fallback.

Definition quota (c : QuotaConfig) : QuotaProvider W unit string string :=
  mkQuotaProvider (lift_provider (Scripted.provider "a")) "a" c.

(** Every response reports 600 tokens. *)
Definition usage_of (r : string) : option Usage := Some (mkUsage 600 500 100).

Definition chain (c : QuotaConfig) : FallbackProvider W unit string string :=
  FallbackProvider.new (QuotaProvider.as_provider usage_of (quota c)) (lift_provider (Scripted.provider "b")).

Definition spent (n : Z) : State := run [Record_ "a" "2026-03" 0 n].

Definition start : W := (spent 1200, Scripted.start [(1, Ok "fine")]).

Definition answer (c : QuotaConfig) : result ZeptoError string * list (string * option string) :=
  let '((r, _), w) := FallbackProvider.chat (chain c) tt None start in (r, Scripted.calls (snd w)).

Example hard_quota : answer hard = (Err (QuotaRejected "a monthly quota exceeded (hard reject)"), []).
Proof. vm_compute. reflexivity. Qed.

Example soft_quota : answer soft = (Ok "fine", [("b", None)]).
Proof. vm_compute. reflexivity. Qed.

(** A limit of nothing is no limit. *)
Example zero_limit :
  QuotaStore.check (spent 1200) "a" (mkQuotaConfig None (Some 0) Monthly Reject) "2026-03" = QOk.
Proof. vm_compute. reflexivity. Qed.

Example warned :
  QuotaStore.check (spent 800) "a" hard "2026-03" = Warning 0.8%float ∧
  QuotaStore.check (spent 800) "a" hard "2026-04" = QOk ∧
  QuotaStore.check (spent 1000) "a" hard "2026-03" = Exceeded.
Proof. vm_compute. split_and!; reflexivity. Qed.

(** The price is that of the default model, whatever model answers: a request
    for an expensive model counts as one for the cheap default. *)
Definition cheap : LLMProvider W unit string string :=
  {| provider_name := "openai"; default_model := "gpt-4o-mini";
     chat := λ _ _, ret (Ok "fine"); chat_stream := λ _ _, ret (Ok "fine") |}.

Example priced_as_default :
  let q := mkQuotaProvider cheap "openai" (mkQuotaConfig (Some 1%float) None Monthly Reject) in
  let usage (r : string) := Some (mkUsage 1000000 0 1000000) in
  (quota_state (QuotaProvider.chat usage q tt (Some "gpt-4-turbo") (∅, Scripted.start [])).2 !! "openai") =
  Some (mkQuotaUsage "2026-03" 0.6 1000000) ∧
  estimate_cost "gpt-4-turbo" 0 1000000 ∅ = Some 30%float.
Proof. vm_compute. split; reflexivity. Qed.

(** Two threads record 10 tokens each; the first writes its file last, and the
    file has lost the record of the second. *)
Example stale_file :
  ∃ c, rtc step empty_store c ∧ in_flight c = [] ∧
    (memory c !! "a") = Some (mkQuotaUsage "2026-03" 0 20) ∧
    (file c !! "a") = Some (mkQuotaUsage "2026-03" 0 10).
Proof.
  set (o := Record_ "a" "2026-03" 0 10). set (s1 := run_op ∅ o). set (s2 := run_op s1 o).
  exists (mkShared s2 s1 []). split; [|vm_compute; done].
  eapply rtc_l; [apply (step_op ∅ ∅ [] o)|]. eapply rtc_l; [apply (step_op s1 ∅ [s1] o)|].
  eapply rtc_l; [apply (step_write s2 ∅ [s1] s2 [])|]. apply rtc_once, (step_write s2 s2 [] s1 []).
Qed.
End Example_quota.

Import Example_quota.

Lemma quota_histories_witness :
  QuotaStore.check (run [Record_ "a" "2026-03" 0 600; Record_ "b" "2026-03" 0 5; Record_ "a" "2026-03" 0 600])
    "a" hard "2026-03" = Exceeded ∧
  file (mkShared (spent 5) (spent 5) []) = spent 5.
Proof.
  destruct quota_histories as (H1 & _ & H3). split; [rewrite H1; vm_compute; reflexivity|].
  apply H3; [|done]. eapply rtc_l; [apply (ordered_op ∅ ∅ [] (Record_ "a" "2026-03" 0 5))|].
  apply rtc_once, (ordered_write (spent 5) ∅ (spent 5) []).
Defined.

Lemma quotas_enforced_witness :
  (FallbackProvider.chat (chain hard) tt None start).1.1 =
  Err (QuotaRejected "a monthly quota exceeded (hard reject)").
Proof.
  pose proof (quotas_enforced usage_of (quota hard) (chain hard) tt None start start eq_refl eq_refl) as H.
  destruct (QuotaProvider.store_check (quota hard) start) as [verdict w1] eqn:E.
  assert (verdict = Exceeded) as ->; [vm_compute in E; by injection E|].
  destruct H as (_ & H & _). by rewrite H.
Defined.
