(* ===== verification/Registry.v ===== *)
(** The providers the program knows, and which of them a configuration makes
    available: src/src/providers/registry.rs with the credentials of
    src/src/auth/mod.rs.

    The store of OAuth tokens, the clock and the credentials imported from another
    program are the class [Credentials]. *)

From S2P Require Import Prelude Text Lines Quota.

(** ** Credentials *)

Inductive AuthMethod : Type := MApiKey | MOAuth | MAuto.

#[export] Instance AuthMethod_eq_dec : EqDecision AuthMethod.
Proof. solve_decision. Defined.

Definition from_option (s : option string) : AuthMethod :=
  match s with
  | Some m => if String.eqb m "oauth" then MOAuth else if String.eqb m "auto" then MAuto else MApiKey
  | None => MApiKey
  end.

Inductive ResolvedCredential : Type :=
| ApiKey (key : string)
| BearerToken (access_token : string) (expires_at : option Z).

Definition is_bearer (c : ResolvedCredential) : bool := match c with BearerToken _ _ => true | _ => false end.
Definition is_api_key (c : ResolvedCredential) : bool := match c with ApiKey _ => true | _ => false end.
Definition credential_value (c : ResolvedCredential) : string :=
  match c with ApiKey key => key | BearerToken token _ => token end.

(** The fields that are used here. *)
Record OAuthTokenSet : Type := mkOAuthTokenSet { access_token : string; token_expires_at : option Z }.

Definition is_expired (t : OAuthTokenSet) (now : Z) : bool :=
  match token_expires_at t with Some e => e <=? now | None => false end.

Class Credentials := {
  (** The store loads a token, if there is a store and it can be read. *)
  load_token : string → option OAuthTokenSet;
  (** The clock while the token of a provider is looked at. *)
  checked_at : string → Z;
  read_claude_credentials : option OAuthTokenSet;
}.

(** ** Providers *)

Record ProviderSpec : Type := mkSpec {
  name : string;
  model_keywords : list string;
  runtime_supported : bool;
  default_base_url : option string;
  backend : string;
  default_auth_header : option string;
  default_api_version : option string;
  api_key_required : bool;
}.

Definition PROVIDER_REGISTRY : list ProviderSpec := [
  mkSpec "anthropic" ["anthropic"; "claude"] true None "anthropic" None None true;
  mkSpec "openai" ["openai"; "gpt"] true None "openai" None None true;
  mkSpec "openrouter" ["openrouter"] true (Some "https://openrouter.ai/api/v1") "openai" None None true;
  mkSpec "groq" ["groq"] true (Some "https://api.groq.com/openai/v1") "openai" None None true;
  mkSpec "zhipu" ["zhipu"; "glm"; "zai"] true (Some "https://open.bigmodel.cn/api/paas/v4") "openai" None None true;
  mkSpec "vllm" ["vllm"] true (Some "http://localhost:8000/v1") "openai" None None false;
  mkSpec "gemini" ["gemini"] true (Some "https://generativelanguage.googleapis.com/v1beta/openai") "openai"
    None None true;
  mkSpec "vertex" ["vertex"] true None "vertex" None None false;
  mkSpec "ollama" ["ollama"] true (Some "http://localhost:11434/v1") "openai" None None false;
  mkSpec "nvidia" ["nvidia"; "nim"] true (Some "https://integrate.api.nvidia.com/v1") "openai" None None true;
  mkSpec "deepseek" ["deepseek"] true (Some "https://api.deepseek.com/v1") "openai" None None true;
  mkSpec "kimi" ["kimi"; "moonshot"] true (Some "https://api.moonshot.cn/v1") "openai" None None true;
  mkSpec "azure" ["azure"] true None "openai" (Some "api-key") (Some "2024-08-01-preview") true;
  mkSpec "bedrock" ["bedrock"; "anthropic.claude"; "meta.llama"; "amazon.titan"] true None "openai" None None true;
  mkSpec "xai" ["xai"; "grok"] true (Some "https://api.x.ai/v1") "openai" None None true;
  mkSpec "qianfan" ["qianfan"; "ernie"; "baidu"] true (Some "https://qianfan.baidubce.com/v2") "openai" None None true;
  mkSpec "novita" ["novita"] true (Some "https://api.novita.ai/openai") "openai" None None true;
  mkSpec "liquid" ["liquid"; "lfm"; "lfm2"] true (Some "https://labs.liquid.ai/api/v1") "openai" None None true].

Record ProviderConfig : Type := mkProviderConfig {
  api_key : option string;
  api_base : option string;
  auth_method : option string;
  model : option string;
  quota : option QuotaConfig;
  auth_header : option string;
  api_version : option string;
}.

Definition resolved_auth_method (c : ProviderConfig) : AuthMethod := from_option (auth_method c).

(** The sections of [ProvidersConfig], one field per provider. *)
Record ProvidersConfig : Type := mkProvidersConfig {
  anthropic : option ProviderConfig; openai : option ProviderConfig; openrouter : option ProviderConfig;
  groq : option ProviderConfig; zhipu : option ProviderConfig; vllm : option ProviderConfig;
  gemini : option ProviderConfig; vertex : option ProviderConfig; ollama : option ProviderConfig;
  nvidia : option ProviderConfig; deepseek : option ProviderConfig; kimi : option ProviderConfig;
  azure : option ProviderConfig; bedrock : option ProviderConfig; xai : option ProviderConfig;
  qianfan : option ProviderConfig; novita : option ProviderConfig; liquid : option ProviderConfig;
}.

Definition sections : list (string * (ProvidersConfig → option ProviderConfig)) := [
  ("anthropic", anthropic); ("openai", openai); ("openrouter", openrouter); ("groq", groq); ("zhipu", zhipu);
  ("vllm", vllm); ("gemini", gemini); ("vertex", vertex); ("ollama", ollama); ("nvidia", nvidia);
  ("deepseek", deepseek); ("kimi", kimi); ("azure", azure); ("bedrock", bedrock); ("xai", xai);
  ("qianfan", qianfan); ("novita", novita); ("liquid", liquid)].

Definition provider_config_by_name (config : ProvidersConfig) (n : string) : option ProviderConfig :=
  s ← find (λ s, String.eqb (fst s) n) sections; snd s config.

Definition non_empty (s : option string) : option string :=
  match s with Some k => if str_is_empty k then None else Some k | None => None end.

Definition configured_api_key (provider : option ProviderConfig) : option string :=
  p ← provider; non_empty (api_key p).

Definition is_some {A} (o : option A) : bool := match o with Some _ => true | None => false end.

Definition configured_provider_names (config : ProvidersConfig) : list string :=
  omap (λ spec, provider ← provider_config_by_name config (name spec);
                if negb (api_key_required spec) || is_some (configured_api_key (Some provider))
                then Some (name spec) else None) PROVIDER_REGISTRY.

Definition configured_provider_models (config : ProvidersConfig) : list (string * string) :=
  omap (λ spec, prov ← provider_config_by_name config (name spec);
                if api_key_required spec && negb (is_some (configured_api_key (Some prov))) then None
                else m ← non_empty (model prov); Some (name spec, m)) PROVIDER_REGISTRY.

Definition configured_unsupported_provider_names (config : ProvidersConfig) : list string :=
  omap (λ spec, if runtime_supported spec then None
                else _ ← configured_api_key (provider_config_by_name config (name spec)); Some (name spec))
    PROVIDER_REGISTRY.

(** ** The provider of a model *)

Definition supported : list ProviderSpec := filter (λ spec, runtime_supported spec = true) PROVIDER_REGISTRY.

(** The first provider with a keyword in the text. *)
Definition by_keyword (text : string) : option string :=
  name <$> find (λ spec, any (λ kw, contains text kw) (model_keywords spec)) supported.

Definition mem (n : string) (l : list string) : bool := any (String.eqb n) l.

Definition slash : Ascii.ascii := Ascii.ascii_of_nat 47.

Definition infer_provider_name_for_model (model : string) (available_providers : list string) : option string :=
  let model_lower := to_ascii_lowercase model in
  match split_once slash model_lower with
  | Some (prefix, suffix) =>
    if String.eqb prefix "openrouter" then Some "openrouter"
    else
      let openrouter_or_keyword :=
        if mem "openrouter" available_providers then Some "openrouter" else by_keyword suffix in
      match find (λ spec, String.eqb (name spec) prefix) supported with
      | Some spec => if mem (name spec) available_providers then Some (name spec) else openrouter_or_keyword
      | None => openrouter_or_keyword
      end
  | None => by_keyword model_lower
  end.

Definition provider_name_for_model (model : string) : option string := infer_provider_name_for_model model [].
Definition provider_name_for_model_with_available (model : string) (available : list string) : option string :=
  infer_provider_name_for_model model available.

(** ** What is available at run time *)

Record RuntimeProviderSelection : Type := mkSelection {
  sel_name : string;
  sel_api_key : string;
  sel_api_base : option string;
  sel_backend : string;
  credential : ResolvedCredential;
  sel_model : option string;
  sel_auth_header : option string;
  sel_api_version : option string;
}.

Section resolution.
Context `{Credentials}.

Definition try_load_oauth_token (provider_name : string) : option ResolvedCredential :=
  t ← load_token provider_name;
  if is_expired t (checked_at provider_name) then None
  else Some (BearerToken (access_token t) (token_expires_at t)).

Definition with_key (key : option string) : option (ResolvedCredential * string) :=
  k ← key; Some (ApiKey k, k).

Definition resolve_credential (spec : ProviderSpec) (auth : AuthMethod) (provider_config : option ProviderConfig)
    : option (ResolvedCredential * string) :=
  let api_key := configured_api_key provider_config in
  let token := t ← try_load_oauth_token (name spec); Some (t, default "" api_key) in
  let result :=
    match auth with
    | MApiKey => with_key api_key
    | MOAuth => token
    | MAuto => match token with Some r => Some r | None => with_key api_key end
    end in
  match result with
  | Some r => Some r
  | None =>
    if negb (api_key_required spec) && is_some provider_config then Some (ApiKey "", "")
    else if String.eqb (name spec) "anthropic" && is_some provider_config then
      t ← read_claude_credentials; Some (BearerToken (access_token t) (token_expires_at t), "")
    else None
  end.

Definition or_default (a b : option string) : option string := match a with Some _ => a | None => b end.

Definition effective_auth_header (spec : ProviderSpec) (provider : option ProviderConfig) : option string :=
  match trim <$> (p ← provider; auth_header p) with
  | Some h =>
    if String.eqb (to_ascii_lowercase h) "bearer" then None
    else if str_is_empty h then default_auth_header spec else Some h
  | None => default_auth_header spec
  end.

Definition resolve_spec (config : ProvidersConfig) (spec : ProviderSpec) : option RuntimeProviderSelection :=
  let provider := provider_config_by_name config (name spec) in
  let auth := match provider with Some p => resolved_auth_method p | None => MApiKey end in
  c ← resolve_credential spec auth provider;
  let '(credential, api_key_str) := c in
  Some (mkSelection (name spec) api_key_str
          (or_default (non_empty (p ← provider; api_base p)) (default_base_url spec))
          (backend spec) credential (p ← provider; model p)
          (effective_auth_header spec provider)
          (or_default (non_empty (trim <$> (p ← provider; api_version p))) (default_api_version spec))).

Definition resolve_runtime_providers (config : ProvidersConfig) : list RuntimeProviderSelection :=
  omap (resolve_spec config) supported.

Definition resolve_runtime_provider (config : ProvidersConfig) : option RuntimeProviderSelection :=
  head (resolve_runtime_providers config).
End resolution.

(** ** What is resolved *)

Definition names : list string := map name PROVIDER_REGISTRY.

Lemma names_nodup : NoDup names.
Proof. apply (bool_decide_unpack (NoDup names)). vm_compute. reflexivity. Qed.

Lemma name_in spec : spec ∈ PROVIDER_REGISTRY → name spec ∈ names.
Proof. apply (list_elem_of_fmap_2 name). Qed.

Lemma all_supported : supported = PROVIDER_REGISTRY.
Proof. vm_compute. reflexivity. Qed.

Section resolved.
Context `{Credentials}.
Implicit Types (config : ProvidersConfig) (sel : RuntimeProviderSelection).

Lemma resolve_spec_name config spec sel : resolve_spec config spec = Some sel → sel_name sel = name spec.
Proof.
  unfold resolve_spec. destruct (resolve_credential _ _ _) as [[c k]|]; cbn; [|done]. by intros [= <-].
Qed.

Lemma resolved_names_sublist config (l : list ProviderSpec) :
  sublist (map sel_name (omap (resolve_spec config) l)) (map name l).
Proof.
  induction l as [|spec l IH]; [done|]. cbn. destruct (resolve_spec config spec) as [sel|] eqn:Hs; cbn.
  - apply resolve_spec_name in Hs as ->. by constructor.
  - by constructor.
Qed.

Lemma resolved_sublist config : sublist (map sel_name (resolve_runtime_providers config)) names.
Proof. unfold resolve_runtime_providers, names. rewrite all_supported. apply resolved_names_sublist. Qed.

Lemma resolved_nodup config : NoDup (map sel_name (resolve_runtime_providers config)).
Proof. eapply sublist_NoDup; [apply names_nodup|apply resolved_sublist]. Qed.

Lemma configured_key_some provider k :
  configured_api_key provider = Some k → k ≠ "" ∧ ∃ p, provider = Some p ∧ api_key p = Some k.
Proof.
  unfold configured_api_key, non_empty. destruct provider as [p|]; cbn; [|done]. destruct (api_key p) as [k'|] eqn:Hk; [|done].
  destruct k'; cbn; [done|]. intros [= <-]. eauto.
Qed.

Lemma try_load_some n c :
  try_load_oauth_token n = Some c →
  ∃ t, load_token n = Some t ∧ is_expired t (checked_at n) = false ∧ c = BearerToken (access_token t) (token_expires_at t).
Proof.
  unfold try_load_oauth_token. destruct (load_token n) as [t|]; cbn; [|done].
  destruct (is_expired t _) eqn:He; [done|]. intros [= <-]. eauto.
Qed.

(** Where a credential comes from. *)
Inductive credential_source config (spec : ProviderSpec) (p : ProviderConfig) : ResolvedCredential → Prop :=
| from_key k : api_key p = Some k → k ≠ "" → resolved_auth_method p ≠ MOAuth → credential_source config spec p (ApiKey k)
| from_store t : load_token (name spec) = Some t → is_expired t (checked_at (name spec)) = false →
    resolved_auth_method p ≠ MApiKey →
    credential_source config spec p (BearerToken (access_token t) (token_expires_at t))
| from_nothing : api_key_required spec = false → credential_source config spec p (ApiKey "")
| from_claude t : name spec = "anthropic" → read_claude_credentials = Some t →
    credential_source config spec p (BearerToken (access_token t) (token_expires_at t)).

(** The providers of a configuration come in the order of the registry, each
    once and only with a section of its own; a key that is used is one the section
    has and its method allows, a token is one of the store that has not expired, and
    only a provider that needs no key goes without. *)
Theorem providers_resolved config :
  sublist (map sel_name (resolve_runtime_providers config)) (map name PROVIDER_REGISTRY) ∧
  ∀ sel, sel ∈ resolve_runtime_providers config →
    ∃ spec p, spec ∈ PROVIDER_REGISTRY ∧ name spec = sel_name sel ∧ backend spec = sel_backend sel ∧
      provider_config_by_name config (sel_name sel) = Some p ∧ credential_source config spec p (credential sel).
Proof.
  split; [apply resolved_sublist|]. intros sel Hsel. unfold resolve_runtime_providers in Hsel.
  apply list_elem_of_omap in Hsel as (spec & Hspec & Hr). rewrite all_supported in Hspec.
  pose proof (resolve_spec_name _ _ _ Hr) as Hn. exists spec. unfold resolve_spec in Hr.
  destruct (provider_config_by_name config (name spec)) as [p|] eqn:Hp.
  - exists p. split_and!; [done|done| |by rewrite Hn|].
    { destruct (resolve_credential _ _ _) as [[c k]|]; cbn in Hr; [|done]. by injection Hr as <-. }
    destruct (resolve_credential _ _ _) as [[c k]|] eqn:Hc; cbn in Hr; [|done]. injection Hr as <-. cbn.
    unfold resolve_credential in Hc.
    assert (∀ r, with_key (configured_api_key (Some p)) = Some r → resolved_auth_method p ≠ MOAuth →
              credential_source config spec p (fst r)) as Hkey.
    { intros r. unfold with_key. destruct (configured_api_key (Some p)) as [k'|] eqn:Hk; cbn; [|done].
      apply configured_key_some in Hk as (Hne & p' & [= <-] & Hk). intros [= <-] Ha. by apply from_key. }
    assert (∀ r, (t ← try_load_oauth_token (name spec); Some (t, default "" (configured_api_key (Some p)))) = Some r →
              resolved_auth_method p ≠ MApiKey → credential_source config spec p (fst r)) as Htok.
    { intros r. destruct (try_load_oauth_token (name spec)) as [t|] eqn:Ht; cbn; [|done].
      apply try_load_some in Ht as (t' & H1 & H2 & ->). intros [= <-] Ha. by apply from_store. }
    assert ((if negb (api_key_required spec) && is_some (Some p) then Some (ApiKey "", "")
             else if String.eqb (name spec) "anthropic" && is_some (Some p) then
               t ← read_claude_credentials; Some (BearerToken (access_token t) (token_expires_at t), "")
             else None) = Some (c, k) → credential_source config spec p c) as Hrest.
    { cbn [is_some]. rewrite !andb_true_r. destruct (api_key_required spec) eqn:Hreq; cbn.
      - destruct (String.eqb_spec (name spec) "anthropic"); [|done].
        destruct read_claude_credentials as [t|] eqn:Ht; cbn; [|done]. intros [= <- _]. by apply from_claude.
      - intros [= <- _]. by apply from_nothing. }
    destruct (resolved_auth_method p) eqn:Ha.
    + destruct (with_key _) as [r|] eqn:Hw; [injection Hc as ->; by apply (Hkey (c, k))|by apply Hrest].
    + destruct (t ← _; _) as [r|] eqn:Hw; [injection Hc as ->; by apply (Htok (c, k))|by apply Hrest].
    + destruct (t ← _; _) as [r|] eqn:Hw; [injection Hc as ->; by apply (Htok (c, k))|].
      destruct (with_key _) as [r|] eqn:Hw2; [injection Hc as ->; by apply (Hkey (c, k))|by apply Hrest].
  - exfalso. unfold resolve_credential, with_key in Hr. cbn in Hr. by rewrite !andb_false_r in Hr.
Qed.
End resolved.

(** ** The provider of a model *)

Lemma by_keyword_name text n : by_keyword text = Some n → n ∈ names.
Proof.
  unfold by_keyword. destruct (find _ supported) as [spec|] eqn:Hf; cbn; [|done]. intros [= <-].
  apply find_some in Hf as [Hin _]. rewrite all_supported in Hin. apply list_elem_of_In in Hin.
  by apply name_in.
Qed.

Lemma mem_true n l : mem n l = true ↔ n ∈ l.
Proof.
  unfold mem, any. rewrite existsb_exists. split.
  - intros (x & Hx%list_elem_of_In & ->%String.eqb_eq). done.
  - intros Hn. exists n. by rewrite <- list_elem_of_In, String.eqb_refl.
Qed.

(** A provider found by its name. *)
Lemma find_name p spec : find (λ spec, String.eqb (name spec) p) supported = Some spec → name spec = p ∧ p ∈ names.
Proof.
  intros [Hin Heq%String.eqb_eq]%find_some. rewrite all_supported in Hin. apply list_elem_of_In in Hin.
  split; [done|]. rewrite <- Heq. by apply name_in.
Qed.

(** The name that is inferred is one of the registry. *)
Lemma inferred_registered m available n : infer_provider_name_for_model m available = Some n → n ∈ names.
Proof.
  unfold infer_provider_name_for_model. assert ("openrouter" ∈ names) as Ho by (vm_compute; set_solver).
  destruct (split_once _ _) as [[prefix suffix]|]; [|apply by_keyword_name].
  destruct (String.eqb prefix "openrouter"); [by intros [= <-]|].
  assert (∀ n, (if mem "openrouter" available then Some "openrouter" else by_keyword suffix) = Some n → n ∈ names) as Hr.
  { intros n'. destruct (mem "openrouter" available); [by intros [= <-]|apply by_keyword_name]. }
  destruct (find _ supported) as [spec|] eqn:Hf; [|apply Hr]. apply find_name in Hf as [<- Hf].
  destruct (mem (name spec) available); [by intros [= <-]|apply Hr].
Qed.

(** No model reaches Amazon by its name for the models of Anthropic, and a model of
    MiniMax is taken for one of Nvidia. *)
Lemma bedrock_claude text : contains text "anthropic.claude" = true → by_keyword text = Some "anthropic".
Proof.
  intros Hc. assert (contains text "anthropic" = true) as Ha.
  { apply contains_spec in Hc as (a & b & ->). apply contains_spec. exists a, (".claude" +:+ b). done. }
  unfold by_keyword. rewrite all_supported. unfold PROVIDER_REGISTRY. cbn [find model_keywords any existsb].
  rewrite Ha. done.
Qed.

Example minimax : provider_name_for_model "MiniMax-M1" = Some "nvidia".
Proof. vm_compute. reflexivity. Qed.
