(* ===== verification/Chain.v ===== *)
(** How the providers of a configuration become one: src/src/kernel/provider.rs on
    [Registry], [Quota], [Fallback] and [Retry].

    A boxed provider hides a state of its own over the shared world ([Dyn]), so that
    chains of any length have one type. The constructors of the concrete providers
    are the class [Backends]; the store of quotas is that of the world. *)

From S2P Require Import Prelude Errors Cooldown Provider Retry Fallback Quota Registry.

(** ** Boxed providers *)

(** [Box<dyn LLMProvider>]: a provider over the world and a state only it can see. *)
Record Dyn (W P R V : Type) : Type := mkDyn {
  hidden : Type;
  initial : hidden;
  methods : LLMProvider (hidden * W) P R V;
}.
Arguments mkDyn {W P R V} _ _ _.
Arguments hidden {W P R V} _.
Arguments initial {W P R V} _.
Arguments methods {W P R V} _.

Section boxes.
Context {W P R V : Type} `{World W}.

Definition boxed (p : LLMProvider W P R V) : Dyn W P R V := mkDyn unit tt (lift_provider p).

(** The same computation with a state beside its own. *)
Definition on_left {A B C} (m : M (A * W) C) : M ((A * B) * W) C :=
  λ '((a, b), w), let '(c, (a, w)) := m (a, w) in (c, ((a, b), w)).
Definition on_right {A B C} (m : M (B * W) C) : M ((A * B) * W) C :=
  λ '((a, b), w), let '(c, (b, w)) := m (b, w) in (c, ((a, b), w)).

Definition left_provider {A B} (p : LLMProvider (A * W) P R V) : LLMProvider ((A * B) * W) P R V :=
  {| provider_name := provider_name p; default_model := default_model p;
     chat := λ req m, on_left (chat p req m); chat_stream := λ req m, on_left (chat_stream p req m) |}.
Definition right_provider {A B} (p : LLMProvider (B * W) P R V) : LLMProvider ((A * B) * W) P R V :=
  {| provider_name := provider_name p; default_model := default_model p;
     chat := λ req m, on_right (chat p req m); chat_stream := λ req m, on_right (chat_stream p req m) |}.

(** What a fallback provider keeps between requests. *)
Definition Health : Type := CircuitBreaker * CooldownTracker.

(** A request of a fallback provider whose health is in the state. *)
Definition with_state {S A} (init : FallbackProvider (S * W) P R V)
    (request : FallbackProvider (S * W) P R V → M (S * W) (result ZeptoError A * FallbackProvider (S * W) P R V))
    : M ((Health * S) * W) (result ZeptoError A) :=
  λ '(((cb, cd), s), w),
    let '((r, self), (s, w)) := request (FallbackProvider.with_health init cb cd) (s, w) in
    (r, (((circuit_breaker self, cooldown self), s), w)).

(** [Box::new(FallbackProvider::new(primary, fallback).with_fallback_model(model))]. *)
Definition fallback_box (p f : Dyn W P R V) (model : option string) : Dyn W P R V :=
  let init := FallbackProvider.with_fallback_model
                (FallbackProvider.new (left_provider (B := hidden f) (methods p)) (right_provider (methods f))) model in
  mkDyn (Health * (hidden p * hidden f))
    ((circuit_breaker init, cooldown init), (initial p, initial f))
    {| provider_name := composite_name init; default_model := default_model (primary init);
       chat := λ req m, with_state init (λ self, FallbackProvider.chat self req m);
       chat_stream := λ req m, with_state init (λ self, FallbackProvider.chat_stream self req m) |}.
End boxes.

(** ** The configuration *)

Record RetryConfig : Type := mkRetryConfig {
  retry_enabled : bool;
  max_retries : Z;
  base_delay_ms : Z;
  max_delay_ms : Z;
  retry_budget_ms : Z;
}.

Record FallbackConfig : Type := mkFallbackConfig {
  fallback_enabled : bool;
  fallback_provider : option string;
}.

Record Config : Type := mkConfig {
  providers : ProvidersConfig;
  retry : RetryConfig;
  fallback : FallbackConfig;
  configured_model : string;
}.

Class Backends (W P R V : Type) := {
  claude_with_credential : ResolvedCredential → LLMProvider W P R V;
  claude_new : string → LLMProvider W P R V;
  default_gemini_model : string;
  gemini_from_config : option string → string → bool → option (LLMProvider W P R V);
  openai_with_config : string → string → option string → option string → LLMProvider W P R V;
  (** [None]: built without the feature. *)
  vertex_from_config : option (option string → option string → string → M W (option (LLMProvider W P R V)));
}.

(** ** Assembly *)

Section chain.
Context {W P R V : Type} `{World W} `{QuotaWorld W} `{RustUnicode} `{Credentials} `{Backends W P R V}.
Context (usage_of : R → option Usage).
Implicit Types (config : Config).

Definition provider_from_runtime_selection (selection : RuntimeProviderSelection) (configured_model : string)
    : M W (option (LLMProvider W P R V)) :=
  if String.eqb (sel_backend selection) "anthropic" then
    ret (Some (if is_bearer (credential selection) then claude_with_credential (credential selection)
               else claude_new (sel_api_key selection)))
  else if String.eqb (sel_backend selection) "openai" then
    if String.eqb (sel_name selection) "gemini" then
      let model := if str_is_empty configured_model then default_gemini_model else configured_model in
      let bearer := is_bearer (credential selection) in
      ret (gemini_from_config (if bearer then None else Some (sel_api_key selection)) model bearer)
    else
      match sel_api_base selection with
      | Some base =>
        ret (Some (openai_with_config (sel_api_key selection) base (sel_auth_header selection) (sel_api_version selection)))
      | None =>
        if String.eqb (sel_name selection) "openai" then
          ret (Some (openai_with_config (sel_api_key selection) "https://api.openai.com/v1"
                       (sel_auth_header selection) (sel_api_version selection)))
        else ret None
      end
  else if String.eqb (sel_backend selection) "vertex" then
    match vertex_from_config with
    | Some from_config =>
      from_config (non_empty (Some (sel_api_key selection))) (non_empty (sel_api_base selection)) configured_model
    | None => ret None
    end
  else ret None.

Record Candidate : Type := mkCandidate {
  c_name : string;
  c_provider : LLMProvider W P R V;
  c_model : option string;
}.

Definition apply_quota_wrapper (provider : LLMProvider W P R V) (name : string) (quota : option QuotaConfig)
    : LLMProvider W P R V :=
  match quota with
  | Some config => QuotaProvider.as_provider usage_of (mkQuotaProvider provider name config)
  | None => provider
  end.

Fixpoint candidates_of config (selections : list RuntimeProviderSelection) : M W (list Candidate) :=
  match selections with
  | [] => ret []
  | sel :: selections =>
    let* made := provider_from_runtime_selection sel (configured_model config) in
    let* rest := candidates_of config selections in
    ret match made with
        | Some provider =>
          let quota := pc ← provider_config_by_name (providers config) (sel_name sel); quota pc in
          mkCandidate (sel_name sel) (apply_quota_wrapper provider (sel_name sel) quota) (sel_model sel) :: rest
        | None => rest
        end
  end.

(** [Iterator::position], and [remove] followed by [insert]. *)
Fixpoint position (p : Candidate → bool) (l : list Candidate) : option nat :=
  match l with
  | [] => None
  | c :: l => if p c then Some O else Datatypes.S <$> position p l
  end.

Definition move_to (from to : nat) (l : list Candidate) : list Candidate :=
  match l !! from with
  | Some c => let l' := delete from l in take to l' ++ c :: drop to l'
  | None => l
  end.

(** The provider of the configured model goes first. *)
Definition promote (model : string) (candidates : list Candidate) : list Candidate :=
  match provider_name_for_model_with_available model (map c_name candidates) with
  | Some preferred =>
    match position (λ c, String.eqb (c_name c) preferred) candidates with
    | Some idx => if Nat.ltb 0 idx then move_to idx 0 candidates else candidates
    | None => candidates
    end
  | None => candidates
  end.

Definition eq_ignore_ascii_case (a b : string) : bool := String.eqb (to_ascii_lowercase a) (to_ascii_lowercase b).

(** The preferred fallback goes second. *)
Definition apply_fallback_preference (candidates : list Candidate) (preferred : option string) : list Candidate :=
  match non_empty (trim <$> preferred) with
  | None => candidates
  | Some preferred =>
    match candidates with
    | first :: ((_ :: _) as rest) =>
      if eq_ignore_ascii_case (c_name first) preferred then candidates
      else
        match position (λ c, eq_ignore_ascii_case (c_name c) preferred) rest with
        | Some i => move_to (Datatypes.S i) 1 candidates
        | None => candidates
        end
    | _ => candidates
    end
  end.

(** Each further provider is a fallback of the chain before it. *)
Definition assemble (primary : Candidate) (rest : list Candidate) : Dyn W P R V :=
  foldl (λ chain c, fallback_box chain (boxed (c_provider c)) (c_model c)) (boxed (c_provider primary)) rest.

(** The chain in the order in which it is built. *)
Definition order config (candidates : list Candidate) : list Candidate :=
  match promote (configured_model config) candidates with
  | [] => []
  | first :: rest =>
    if fallback_enabled (fallback config)
    then apply_fallback_preference (first :: rest) (fallback_provider (fallback config))
    else [first]
  end.

Definition build_runtime_provider_chain config : M W (option (Dyn W P R V * list string)) :=
  let* candidates := candidates_of config (resolve_runtime_providers (providers config)) in
  ret match order config candidates with
      | [] => None
      | primary :: rest => Some (assemble primary rest, map c_name (primary :: rest))
      end.

(** What the kernel asks: the chain, behind the retries when they are enabled. *)
Definition retrying config (chain : Dyn W P R V) : RetryProvider (hidden chain * W) P R V :=
  let r := retry config in
  RetryProvider.with_retry_budget_ms
    (RetryProvider.with_max_delay_ms
      (RetryProvider.with_base_delay_ms
        (RetryProvider.with_max_retries (RetryProvider.new (methods chain)) (max_retries r)) (base_delay_ms r))
      (max_delay_ms r)) (retry_budget_ms r).

Definition chain_chat config (chain : Dyn W P R V) (req : P) (model : option string)
    : M (hidden chain * W) (outcome (result ZeptoError R)) :=
  if retry_enabled (retry config) then RetryProvider.chat (retrying config chain) req model
  else let* r := chat (methods chain) req model in ret (Ret r).

Definition chain_chat_stream config (chain : Dyn W P R V) (req : P) (model : option string)
    : M (hidden chain * W) (outcome (result ZeptoError V)) :=
  if retry_enabled (retry config) then RetryProvider.chat_stream (retrying config chain) req model
  else let* r := chat_stream (methods chain) req model in ret (Ret r).
End chain.

(** ** What a request to a chain does *)

Section walks.
Context {W : Type} `{World W} {A : Type}.

(** The clock is read, or time passes. *)
Inductive wait : W → W → Prop :=
| wait_instant w : wait w (instant w).2
| wait_epoch w : wait w (epoch_secs w).2
| wait_nanos w : wait w (subsec_nanos w).2
| wait_sleep ms w : wait w (sleep_ms ms w).2.

(** The providers [calls] are asked, one after the other, and nothing else happens. *)
Inductive asks (calls : list (M W (result ZeptoError A))) : W → list (nat * result ZeptoError A) → W → Prop :=
| asks_done w w' : rtc wait w w' → asks calls w [] w'
| asks_next w w1 i call r w2 trace w' :
    rtc wait w w1 → calls !! i = Some call → call w1 = (r, w2) → asks calls w2 trace w' →
    asks calls w ((i, r) :: trace) w'.

Definition passed_on (r : result ZeptoError A) : Prop := ∃ e, r = Err e ∧ ¬ ends_here e.

Lemma passed_on_err e : passed_on (Err e) ↔ should_fallback e = true.
Proof.
  rewrite <- not_false_iff_true, should_fallback_iff. split; [by intros (? & [= ->] & ?)|by exists e].
Qed.

(** A request: the providers in order, each at most once, as long as one fails with
    an error that is passed on; the last answers. *)
Record one_pass (n : nat) (trace : list (nat * result ZeptoError A)) (r : result ZeptoError A) : Prop := {
  pass_order : StronglySorted lt (map fst trace);
  pass_range e : e ∈ trace → (e.1 < n)%nat;
  pass_last : ∃ before i, trace = before ++ [(i, r)] ∧ (∀ e, e ∈ before → passed_on e.2) ∧
    ((i < n - 1)%nat → ¬ passed_on r);
}.

(** A boxed provider serves its requests with these calls. *)
Definition serves {S} (calls : list (M W (result ZeptoError A))) (request : M (S * W) (result ZeptoError A)) : Prop :=
  ∀ s w r s' w', request (s, w) = (r, (s', w')) → ∃ trace, asks calls w trace w' ∧ one_pass (length calls) trace r.

(** A request to a new chain leaves no provider out. *)
Definition starts {S} (calls : list (M W (result ZeptoError A))) (s : S) (request : M (S * W) (result ZeptoError A)) : Prop :=
  ∀ w r s' w', request (s, w) = (r, (s', w')) →
    ∃ trace, asks calls w trace w' ∧ one_pass (length calls) trace r ∧ map fst trace = seq 0 (length trace).

Lemma asks_wait calls w1 w2 trace w3 : rtc wait w1 w2 → asks calls w2 trace w3 → asks calls w1 trace w3.
Proof. intros Hw. destruct 1; [constructor|econstructor; [|done..]]; by etrans. Qed.

Lemma asks_app calls w1 t1 w2 t2 w3 : asks calls w1 t1 w2 → asks calls w2 t2 w3 → asks calls w1 (t1 ++ t2) w3.
Proof.
  induction 1 as [w w' Hw|w w' i call r w'' trace wl Hw Hc Hr Ht IH]; intros H2; [by eapply asks_wait|].
  cbn. econstructor; [done..|by apply IH].
Qed.

Lemma asks_more calls call w trace w' : asks calls w trace w' → asks (calls ++ [call]) w trace w'.
Proof. induction 1; econstructor; eauto. by apply lookup_app_l_Some. Qed.

Lemma asks_one calls call w0 w r w' :
  rtc wait w0 w → call w = (r, w') → asks (calls ++ [call]) w0 [(length calls, r)] w'.
Proof. intros Hw Hc. econstructor; [done|by apply list_lookup_middle|done|by constructor]. Qed.

Lemma one_pass_more n trace r : one_pass n trace r → ¬ passed_on r → one_pass (Datatypes.S n) trace r.
Proof.
  intros [H1 H2 (before & i & Ht & Hb & _)] Hr. split; [done|intros e He; specialize (H2 e He); lia|].
  exists before, i. done.
Qed.

Lemma one_pass_single n r : one_pass (Datatypes.S n) [(n, r)] r.
Proof.
  split; [by repeat constructor|intros e ->%list_elem_of_singleton; cbn; lia|].
  exists [], n. split; [done|]. split; [by intros e ?%elem_of_nil|lia].
Qed.

Lemma one_pass_fallback n trace r r' :
  one_pass n trace r → passed_on r → one_pass (Datatypes.S n) (trace ++ [(n, r')]) r'.
Proof.
  intros [H1 H2 (before & i & Ht & Hb & _)] Hr. split.
  - rewrite map_app. apply StronglySorted_app. split_and!; [|done|by repeat constructor].
    intros x y Hx ->%list_elem_of_singleton. apply list_elem_of_fmap in Hx as (e & -> & He). by apply H2.
  - intros e [He| ->%list_elem_of_singleton]%elem_of_app; [specialize (H2 e He); lia|cbn; lia].
  - exists trace, n. split; [done|]. split; [|lia]. intros e He. rewrite Ht in He.
    apply elem_of_app in He as [He| ->%list_elem_of_singleton]; [by apply Hb|done].
Qed.
End walks.

(** *** One box over another *)

Section boxes_serve.
Context {W P R V : Type} `{World W}.

(** A computation that only waits. *)
Definition waits {S A} (m : M (S * W) A) : Prop := ∀ s w, ∃ a w', m (s, w) = (a, (s, w')) ∧ rtc wait w w'.

Lemma waits_ret {S A} (a : A) : waits (S := S) (ret a).
Proof. intros s w. by exists a, w. Qed.

Lemma waits_bind {S A B} (m : M (S * W) A) (f : A → M (S * W) B) :
  waits m → (∀ a, waits (f a)) → waits (bind m f).
Proof.
  intros Hm Hf s w. destruct (Hm s w) as (a & w1 & H1 & R1). destruct (Hf a s w1) as (b & w2 & H2 & R2).
  exists b, w2. unfold bind. rewrite H1, H2. split; [done|by etrans].
Qed.

Lemma waits_instant {S} : waits (S := S) instant.
Proof.
  intros s w. cbn. destruct (instant w) as [a w'] eqn:Ha. exists a, w'. split; [done|].
  apply rtc_once. replace w' with (instant w).2 by by rewrite Ha. constructor.
Qed.

Lemma waits_epoch {S} : waits (S := S) epoch_secs.
Proof.
  intros s w. cbn. destruct (epoch_secs w) as [a w'] eqn:Ha. exists a, w'. split; [done|].
  apply rtc_once. replace w' with (epoch_secs w).2 by by rewrite Ha. constructor.
Qed.

Lemma waits_nanos {S} : waits (S := S) subsec_nanos.
Proof.
  intros s w. cbn. destruct (subsec_nanos w) as [a w'] eqn:Ha. exists a, w'. split; [done|].
  apply rtc_once. replace w' with (subsec_nanos w).2 by by rewrite Ha. constructor.
Qed.

Lemma waits_sleep {S} ms : waits (S := S) (sleep_ms ms).
Proof.
  intros s w. cbn. destruct (sleep_ms ms w) as [a w'] eqn:Ha. exists a, w'. split; [done|].
  apply rtc_once. replace w' with (sleep_ms ms w).2 by by rewrite Ha. constructor.
Qed.

Lemma waits_skip {S} (self : FallbackProvider (S * W) P R V) : waits (FallbackProvider.skip_primary self).
Proof.
  apply waits_bind.
  - unfold CircuitBreaker.state. destruct (_ <? _); [apply waits_ret|].
    apply waits_bind; [apply waits_epoch|intros; apply waits_ret].
  - intros st. destruct (decide _); [apply waits_ret|]. unfold is_in_cooldown.
    destruct (_ !! _); [|apply waits_ret]. apply waits_bind; [apply waits_instant|intros; apply waits_ret].
Qed.

Lemma waits_mark {S} (cd : CooldownTracker) p r : waits (S := S) (mark_failure cd p r).
Proof.
  unfold mark_failure. apply waits_bind.
  - repeat case_match; first [apply waits_instant | apply waits_ret].
  - intros t0. apply waits_bind; [apply waits_instant|intros]. apply waits_bind; [apply waits_instant|intros].
    apply waits_ret.
Qed.

Lemma waits_eq {S A} (m : M (S * W) A) s w a s' w' : waits m → m (s, w) = (a, (s', w')) → s' = s ∧ rtc wait w w'.
Proof. intros Hm Heq. destruct (Hm s w) as (b & w1 & H1 & H2). rewrite Heq in H1. by simplify_eq. Qed.

(** A fallback over a box and one provider more. *)
Lemma fallback_serves {Sp A} calls (call : M W (result ZeptoError A))
    (primary_call : M (Sp * W) (result ZeptoError A)) (self : FallbackProvider ((Sp * unit) * W) P R V) s w r self' s' w' :
  serves calls primary_call →
  FallbackProvider.request self (on_left (B := unit) primary_call) (on_right (lift_world call)) (s, w) = ((r, self'), (s', w')) →
  ∃ trace, asks (calls ++ [call]) w trace w' ∧ one_pass (length (calls ++ [call])) trace r.
Proof.
  intros Hp Hreq. rewrite length_app. cbn [length]. rewrite Nat.add_1_r.
  destruct (request_runs self (on_left (B := unit) primary_call) (on_right (lift_world call)) (s, w))
    as (r0 & self0 & [s0 w0] & Heq & Hrun). rewrite Hreq in Heq. injection Heq as <- <- <- <-.
  assert (∀ s w r s' w', on_right (A := Sp) (B := unit) (lift_world call) (s, w) = (r, (s', w')) → call w = (r, w')) as Hcall.
  { intros [sp []] w1 r1 s1 w2. cbn. destruct (call w1) as [r2 w3]. by intros [= <- _ <-]. }
  assert (∀ s w r s' w', on_left (B := unit) primary_call (s, w) = (r, (s', w')) →
            ∃ trace, asks calls w trace w' ∧ one_pass (length calls) trace r) as Hprim.
  { intros [sp u] w1 r1 [s1 u1] w2. cbn. destruct (primary_call (sp, w1)) as [r2 [sp2 w3]] eqn:Hpc.
    intros [= <- _ _ <-]. by eapply Hp. }
  inversion Hrun as [[s1 w1] r1 w2 Hs Hf|[s1 w1] a w2 Hs Hc|[s1 w1] e w2 Hs Hc He|
                     [s1 w1] e [s2 w2] now [s3 w3] t0 t1 t2 [s4 w4] r1 w5 Hs Hc He Hn Hm Hf]; subst.
  - apply waits_eq in Hs as [-> Hw]; [|apply waits_skip]. apply Hcall in Hf.
    exists [(length calls, r)]. split; [by eapply asks_one|apply one_pass_single].
  - apply waits_eq in Hs as [-> Hw]; [|apply waits_skip]. apply Hprim in Hc as (trace & Ha & Ho).
    exists trace. split; [by eapply asks_wait; [|apply asks_more]|]. apply one_pass_more; [done|].
    by intros (e & ? & _).
  - apply waits_eq in Hs as [-> Hw]; [|apply waits_skip]. apply Hprim in Hc as (trace & Ha & Ho).
    exists trace. split; [by eapply asks_wait; [|apply asks_more]|]. apply one_pass_more; [done|].
    rewrite passed_on_err. congruence.
  - apply waits_eq in Hs as [-> Hw]; [|apply waits_skip]. apply Hprim in Hc as (trace & Ha & Ho).
    apply waits_eq in Hn as [-> Hw2]; [|apply waits_epoch]. apply waits_eq in Hm as [-> Hw3]; [|apply waits_mark].
    apply Hcall in Hf. exists (trace ++ [(length calls, r)]). split.
    + eapply asks_wait; [done|]. eapply asks_app; [by apply asks_more|].
      eapply asks_one; [by etrans|done].
    + eapply one_pass_fallback; [done|by apply passed_on_err].
Qed.
End boxes_serve.

Section assembled.
Context {W P R V : Type} `{World W}.
Implicit Types (c primary : Candidate (W := W) (P := P) (R := R) (V := V)).

(** The calls behind a chain: the first provider is asked for the model of the
    request, a fallback for its own if it has one. *)
Definition chat_calls primary (rest : list Candidate) (req : P) (model : option string)
    : list (M W (result ZeptoError R)) :=
  chat (c_provider primary) req model :: map (λ c, chat (c_provider c) req (or_model (c_model c) model)) rest.

Definition stream_calls primary (rest : list Candidate) (req : P) (model : option string)
    : list (M W (result ZeptoError V)) :=
  chat_stream (c_provider primary) req model
    :: map (λ c, chat_stream (c_provider c) req (or_model (c_model c) model)) rest.

Lemma boxed_serves {A} (call : M W (result ZeptoError A)) : serves (S := unit) [call] (lift_world call).
Proof.
  intros [] w r s' w'. cbn. destruct (call w) as [r1 w1] eqn:Hc. intros [= <- _ <-].
  exists [(0%nat, r1)]. split; [by eapply (asks_one [])|apply one_pass_single].
Qed.

Lemma boxed_starts {A} (call : M W (result ZeptoError A)) : starts [call] tt (lift_world call).
Proof.
  intros w r s' w'. cbn. destruct (call w) as [r1 w1] eqn:Hc. intros [= <- _ <-].
  exists [(0%nat, r1)]. split; [by eapply (asks_one [])|]. split; [apply one_pass_single|done].
Qed.

Lemma with_state_serves {Sp A} calls (call : M W (result ZeptoError A)) (pc : M (Sp * W) (result ZeptoError A))
    (init : FallbackProvider ((Sp * unit) * W) P R V) :
  serves calls pc →
  serves (calls ++ [call])
    (with_state init (λ self, FallbackProvider.request self (on_left (B := unit) pc) (on_right (lift_world call)))).
Proof.
  intros Hp [[cb cd] s] w r s' w'. cbn.
  destruct (FallbackProvider.request _ _ _ (s, w)) as [[r1 self1] [s1 w1]] eqn:Hr. intros [= <- _ <-].
  by eapply fallback_serves.
Qed.

(** A pass that begins with the first provider and misses none ends at the last one
    when its answer is passed on. *)
Lemma full_pass {A} n (trace : list (nat * result ZeptoError A)) r :
  one_pass n trace r → passed_on r → map fst trace = seq 0 (length trace) → length trace = n.
Proof.
  intros [_ H2 (before & i & Ht & _ & Hl)] Hr Hs. rewrite Ht in Hs. rewrite map_app, length_app in Hs.
  cbn [map length fst] in Hs. rewrite Nat.add_1_r, seq_S in Hs. apply app_inj_tail in Hs as [_ Hi]. cbn in Hi.
  assert (i < n)%nat by (apply (H2 (i, r)); rewrite Ht; set_solver).
  assert (¬ (i < n - 1)%nat) by (intros ?; by apply Hl). rewrite Ht, length_app. cbn. lia.
Qed.

Lemma with_state_starts {Sp A} calls (call : M W (result ZeptoError A)) (pc : M (Sp * W) (result ZeptoError A))
    (init : FallbackProvider ((Sp * unit) * W) P R V) sp threshold secs :
  0 < threshold → circuit_breaker init = CircuitBreaker.new threshold secs → cooldown init = CooldownTracker.new →
  starts calls sp pc →
  starts (calls ++ [call]) ((circuit_breaker init, cooldown init), (sp, tt))
    (with_state init (λ self, FallbackProvider.request self (on_left (B := unit) pc) (on_right (lift_world call)))).
Proof.
  intros Hth Hcb Hcd Hp w r s' w'. cbn.
  destruct (FallbackProvider.request _ _ _ ((sp, tt), w)) as [[r1 self1] [s1 w1]] eqn:Hreq. intros [= <- _ <-].
  set (self := FallbackProvider.with_health init (circuit_breaker init) (cooldown init)) in *.
  assert (∀ w, FallbackProvider.skip_primary self w = (false, w)) as Hskip.
  { intros w0. unfold FallbackProvider.skip_primary, CircuitBreaker.state, is_in_cooldown, self. cbn. rewrite Hcb, Hcd.
    cbn. rewrite (proj2 (Z.ltb_lt 0 threshold)) by done. done. }
  unfold FallbackProvider.request, bind in Hreq. rewrite Hskip in Hreq. cbn in Hreq.
  destruct (pc (sp, w)) as [r0 [sp2 w2]] eqn:Hpc. destruct (Hp w r0 sp2 w2 Hpc) as (trace & Ha & Ho & Hs).
  rewrite length_app. cbn [length]. rewrite Nat.add_1_r.
  destruct r0 as [a|e].
  { injection Hreq as <- _ _ <-. exists trace. split; [by apply asks_more|]. split; [|done].
    apply one_pass_more; [done|]. by intros (e & ? & _). }
  destruct (should_fallback e) eqn:He.
  - destruct (waits_epoch (sp2, tt) w2) as (now & w3 & Hn & R1). unfold CircuitBreaker.record_failure, bind in Hreq.
    rewrite Hn in Hreq. cbn in Hreq.
    destruct (waits_mark (cooldown init) (provider_name (primary self)) (failover_reason e) (sp2, tt) w3)
      as (cd & w4 & Hm & R2).
    change (cooldown self) with (cooldown init) in Hreq. unfold provider_name in *. cbn in Hreq, Hm. rewrite Hm in Hreq.
    cbn in Hreq. destruct (call w4) as [r5 w5] eqn:Hc. cbn in Hreq. injection Hreq as <- _ _ <-.
    assert (passed_on (A := A) (Err e)) as Hpass by (by apply passed_on_err).
    exists (trace ++ [(length calls, r5)]). split; [|split].
    + eapply asks_app; [by apply asks_more|]. eapply asks_one; [by etrans|done].
    + by eapply one_pass_fallback.
    + rewrite map_app, length_app, Hs. cbn [length map fst]. rewrite Nat.add_1_r, seq_S. cbn.
      by rewrite (full_pass _ _ _ Ho Hpass Hs).
  - injection Hreq as <- _ _ <-. exists trace. split; [by apply asks_more|]. split; [|done].
    apply one_pass_more; [done|]. rewrite passed_on_err. congruence.
Qed.

Lemma assemble_serves primary rest req model :
  serves (chat_calls primary rest req model) (chat (methods (assemble primary rest)) req model) ∧
  starts (chat_calls primary rest req model) (initial (assemble primary rest)) (chat (methods (assemble primary rest)) req model) ∧
  serves (stream_calls primary rest req model) (chat_stream (methods (assemble primary rest)) req model) ∧
  starts (stream_calls primary rest req model) (initial (assemble primary rest))
    (chat_stream (methods (assemble primary rest)) req model).
Proof.
  induction rest as [|c rest (I1 & I2 & I3 & I4)] using rev_ind.
  { split_and!; [apply boxed_serves|apply boxed_starts|apply boxed_serves|apply boxed_starts]. }
  unfold assemble in *. rewrite foldl_snoc. set (chain := foldl _ _ rest) in *.
  unfold chat_calls, stream_calls in *. rewrite !map_app. cbn [map]. rewrite !app_comm_cons.
  split_and!.
  - apply (with_state_serves _ _ _ _ I1).
  - by apply (with_state_starts _ _ _ _ _ 3 30).
  - apply (with_state_serves _ _ _ _ I3).
  - by apply (with_state_starts _ _ _ _ _ 3 30).
Qed.
End assembled.

(** *** Behind the retries *)

Section retried.
Context {W P R V : Type} `{World W} `{RustUnicode}.

(** The passes of a request with the results they gave. *)
Definition Passes (A : Type) : Type := list (list (nat * result ZeptoError A) * result ZeptoError A).

Lemma waits_budget {S} (self : RetryProvider (S * W) P R V) start : waits (RetryProvider.budget_exceeded self start).
Proof.
  unfold RetryProvider.budget_exceeded, elapsed_ms. destruct (_ <? _); [|apply waits_ret].
  apply waits_bind; [|intros; apply waits_ret]. apply waits_bind; [apply waits_instant|intros; apply waits_ret].
Qed.

Lemma waits_delay {S} k base max : waits (S := S) (delay_with_jitter k base max).
Proof.
  unfold delay_with_jitter. apply waits_bind; [apply waits_nanos|intros; apply waits_sleep].
Qed.

Lemma retry_passes {S A} (self : RetryProvider (S * W) P R V) calls (request : M (S * W) (result ZeptoError A)) start k s w rs s' w' :
  serves calls request → retry_run self request start k (s, w) rs (s', w') →
  ∃ passes : Passes A, map snd passes = rs ∧ Forall (λ p, one_pass (length calls) p.1 p.2) passes ∧
    asks calls w (concat (map fst passes)) w'.
Proof.
  intros Hs Hrun. remember (s, w) as sw eqn:Hsw. remember (s', w') as sw' eqn:Hsw'. revert s w Hsw Hsw'.
  induction Hrun as [k w0 r w1 Hc _|k w0 r [s1 w1] w2 Hc _ _ Hb|k w0 r [s1 w1] [s2 w2] [s3 w3] rs w4 Hc _ _ Hb Hd _ IH];
    intros s w -> ->.
  - apply Hs in Hc as (trace & Ha & Ho). exists [(trace, r)]. cbn. rewrite app_nil_r.
    split; [done|]. split; [by constructor|done].
  - apply Hs in Hc as (trace & Ha & Ho). apply waits_eq in Hb as [-> Hw]; [|apply waits_budget].
    exists [(trace, r)]. cbn. split; [done|]. split; [by constructor|].
    eapply asks_app; [done|]. by constructor.
  - apply Hs in Hc as (trace & Ha & Ho). apply waits_eq in Hb as [-> Hw]; [|apply waits_budget].
    apply waits_eq in Hd as [-> Hw2]; [|apply waits_delay].
    destruct (IH s1 w3 eq_refl eq_refl) as (passes & <- & Hf & Hasks). exists ((trace, r) :: passes). cbn.
    split; [done|]. split; [by constructor|]. eapply asks_app; [done|]. eapply asks_wait; [|done]. by etrans.
Qed.

(** What a request to the kernel's provider comes to. *)
Definition answers {S A} (limit budget : Z) (calls : list (M W (result ZeptoError A))) (s : S) (w : W)
    (out : outcome (result ZeptoError A) * (S * W)) : Prop :=
  ∃ r s' w' (passes : Passes A),
    out = (Ret r, (s', w')) ∧ last (map snd passes) = Some r ∧ Z.of_nat (length passes) ≤ limit + 1 ∧
    Forall (λ p, one_pass (length calls) p.1 p.2) passes ∧
    Forall failed_transiently (removelast (map snd passes)) ∧
    (failed_transiently r → budget = 0 → Z.of_nat (length passes) = limit + 1) ∧
    asks calls w (concat (map fst passes)) w'.

Lemma retry_answers {S A} (self : RetryProvider (S * W) P R V) calls (request : M (S * W) (result ZeptoError A)) s w :
  0 ≤ Retry.max_retries self → serves calls request →
  answers (Retry.max_retries self) (Retry.retry_budget_ms self) calls s w
    (bind instant (λ start, RetryProvider.retry_from self request start (Z.to_nat (Retry.max_retries self)) 0 None) (s, w)).
Proof.
  intros Hmax Hs. unfold bind. destruct (waits_instant s w) as (start & w0 & -> & Hw).
  destruct (retry_from_runs self request start (s, w0) Hmax) as (rs & r & [s' w'] & Heq & Hrun & Hl & Hlen & Ht & Hall).
  destruct (retry_passes self calls request start 0 s w0 rs s' w' Hs Hrun) as (passes & <- & Hf & Ha).
  exists r, s', w', passes. rewrite length_map in Hlen, Hall. split_and!; try done; [| |by eapply asks_wait].
  - eapply Forall_impl; [exact Ht|]. intros ? ?. by apply transient_iff.
  - intros Htr%transient_iff. by apply Hall.
Qed.
End retried.

(** ** The order of a chain *)

Definition lead (model : string) (names : list string) : option string :=
  match provider_name_for_model_with_available model names with
  | Some p => if mem p names then Some p else head names
  | None => head names
  end.

(** The names a chain is made of, first to last. *)
Definition chain_names (model : string) (fb : FallbackConfig) (names : list string) : list string :=
  match lead model names with
  | None => []
  | Some first =>
    if fallback_enabled fb then
      let rest := filter (λ n, n ≠ first) names in
      match non_empty (trim <$> fallback_provider fb) with
      | Some p =>
        let second := filter (λ n, eq_ignore_ascii_case n p = true) rest in
        first :: second ++ filter (λ n, eq_ignore_ascii_case n p = false) rest
      | None => first :: rest
      end
    else [first]
  end.

Section ordering.
Context {W P R V : Type}.
Implicit Types (c : Candidate (W := W) (P := P) (R := R) (V := V)) (l : list (Candidate (W := W) (P := P) (R := R) (V := V))).

Lemma position_split p l i :
  position p l = Some i → ∃ l1 c l2, l = l1 ++ c :: l2 ∧ length l1 = i ∧ p c = true ∧ ∀ c', c' ∈ l1 → p c' = false.
Proof.
  revert i. induction l as [|c l IH]; intros i; cbn; [done|]. destruct (p c) eqn:Hp.
  - intros [= <-]. exists [], c, l. split_and!; try done. by intros ? ?%elem_of_nil.
  - destruct (position p l) as [j|]; cbn; [|done]. intros [= <-]. destruct (IH j eq_refl) as (l1 & c' & l2 & -> & <- & H1 & H2).
    exists (c :: l1), c', l2. split_and!; try done. intros x [->|Hx]%elem_of_cons; auto.
Qed.

Lemma position_none p l : position p l = None → ∀ c, c ∈ l → p c = false.
Proof.
  induction l as [|c l IH]; cbn; [by intros _ ? ?%elem_of_nil|]. destruct (p c) eqn:Hp; [done|].
  destruct (position p l); [done|]. intros _ x [->|Hx]%elem_of_cons; auto.
Qed.

Lemma move_to_app l0 l1 c l2 : move_to (length l0 + length l1) (length l0) (l0 ++ l1 ++ c :: l2) = l0 ++ c :: l1 ++ l2.
Proof.
  unfold move_to. rewrite !app_assoc, <- length_app. rewrite list_lookup_middle by done.
  rewrite delete_middle, <- app_assoc. by rewrite take_app_length, drop_app_length.
Qed.

Lemma filter_every (Q : string → Prop) `{∀ n, Decision (Q n)} (ns : list string) : (∀ n, n ∈ ns → Q n) → filter Q ns = ns.
Proof.
  induction ns as [|n ns IH]; intros Hq; [done|]. rewrite filter_cons_True by (apply Hq; by left).
  rewrite IH; [done|]. intros x Hx. apply Hq. by right.
Qed.

Lemma filter_none (Q : string → Prop) `{∀ n, Decision (Q n)} (ns : list string) : (∀ n, n ∈ ns → ¬ Q n) → filter Q ns = [].
Proof.
  induction ns as [|n ns IH]; intros Hq; [done|]. rewrite filter_cons_False by (apply Hq; by left).
  apply IH. intros x Hx. apply Hq. by right.
Qed.

Lemma filter_ne_split (a b : list string) x : NoDup (a ++ x :: b) → filter (λ n, n ≠ x) (a ++ x :: b) = a ++ b.
Proof.
  intros Hnd. apply NoDup_app in Hnd as (_ & Ha & Hb). apply NoDup_cons in Hb as [Hb _].
  rewrite filter_app, filter_cons_False by (intros Hx; by apply Hx). f_equal; apply filter_every.
  - intros n Hn ->. apply (Ha x Hn). by left.
  - by intros n Hn ->.
Qed.

Lemma names_split l1 c l2 : map c_name (l1 ++ c :: l2) = map c_name l1 ++ c_name c :: map c_name l2.
Proof. by rewrite map_app. Qed.

(** The candidates after the model had its say. *)
Lemma promote_names model l :
  NoDup (map c_name l) →
  map c_name (promote model l) =
  match lead model (map c_name l) with
  | Some first => first :: filter (λ n, n ≠ first) (map c_name l)
  | None => []
  end.
Proof.
  intros Hnd. assert (map c_name l = match head (map c_name l) with
                      | Some first => first :: filter (λ n, n ≠ first) (map c_name l) | None => [] end) as Hhead.
  { destruct l as [|c l]; [done|]. cbn [map head].
    pose proof (filter_ne_split [] (map c_name l) (c_name c)) as Hs. cbn [app] in Hs. by rewrite Hs. }
  unfold promote, lead. destruct (provider_name_for_model_with_available _ _) as [p|]; [|exact Hhead].
  destruct (position _ l) as [i|] eqn:Hp.
  - apply position_split in Hp as (l1 & c & l2 & -> & <- & Hc%String.eqb_eq & _). subst p.
    assert (mem (c_name c) (map c_name (l1 ++ c :: l2)) = true) as ->.
    { apply mem_true. rewrite names_split. set_solver. }
    rewrite names_split in *. rewrite filter_ne_split by done. destruct l1 as [|c1 l1]; [done|]. cbn [length Nat.ltb Nat.leb].
    pose proof (move_to_app [] (c1 :: l1) c l2) as Hmv. cbn [length app Nat.add] in Hmv.
    cbn [app]. rewrite Hmv. cbn [map app]. by rewrite map_app.
  - pose proof (position_none _ _ Hp) as Hn.
    destruct (mem p (map c_name l)) eqn:Hm; [|exact Hhead]. apply mem_true, list_elem_of_fmap in Hm as (c & -> & Hc).
    specialize (Hn c Hc). cbn in Hn. by rewrite String.eqb_refl in Hn.
Qed.

Definition folded (names : list string) : Prop := NoDup (map to_ascii_lowercase names).

Lemma folded_nodup names : folded names → NoDup names.
Proof. apply NoDup_fmap_1. Qed.

Lemma folded_one (a b : list string) x p :
  folded (a ++ x :: b) → eq_ignore_ascii_case x p = true → (∀ n, n ∈ a → eq_ignore_ascii_case n p = false) →
  filter (λ n, eq_ignore_ascii_case n p = true) (a ++ x :: b) = [x] ∧
  filter (λ n, eq_ignore_ascii_case n p = false) (a ++ x :: b) = a ++ b.
Proof.
  unfold folded, eq_ignore_ascii_case. intros Hnd Hx%String.eqb_eq Ha. rewrite map_app in Hnd. apply NoDup_app in Hnd as (_ & _ & Hb).
  cbn in Hb. apply NoDup_cons in Hb as [Hb _].
  assert (∀ n, n ∈ b → String.eqb (to_ascii_lowercase n) (to_ascii_lowercase p) = false) as Hb'.
  { intros n Hn. apply String.eqb_neq. intros Heq. apply Hb. rewrite Hx, <- Heq. by apply list_elem_of_fmap_2. }
  rewrite !filter_app. split.
  - rewrite filter_cons_True by by apply String.eqb_eq. rewrite !filter_none; [done| |]; intros n Hn; rewrite ?Ha, ?Hb' by done; done.
  - rewrite filter_cons_False by (rewrite (proj2 (String.eqb_eq _ _) Hx); done).
    f_equal; apply filter_every; intros n Hn; by rewrite ?Ha, ?Hb' by done.
Qed.

Lemma preference_names first l p :
  folded (map c_name (first :: l)) →
  map c_name (apply_fallback_preference (first :: l) p) =
  match non_empty (trim <$> p) with
  | Some p => c_name first :: filter (λ n, eq_ignore_ascii_case n p = true) (map c_name l)
                ++ filter (λ n, eq_ignore_ascii_case n p = false) (map c_name l)
  | None => map c_name (first :: l)
  end.
Proof.
  intros Hf. unfold apply_fallback_preference. destruct (non_empty _) as [q|]; [|done].
  destruct l as [|c l]; [done|]. set (rest := c :: l) in *.
  assert ((∀ n, n ∈ map c_name rest → eq_ignore_ascii_case n q = false) →
    map c_name (first :: rest) = c_name first :: filter (λ n, eq_ignore_ascii_case n q = true) (map c_name rest)
      ++ filter (λ n, eq_ignore_ascii_case n q = false) (map c_name rest)) as Hsame.
  { intros Hno. rewrite filter_none, filter_every; [done|done|]. intros n Hn. by rewrite Hno. }
  destruct (eq_ignore_ascii_case (c_name first) q) eqn:Hq.
  - apply Hsame. intros n Hn. unfold eq_ignore_ascii_case in *. apply String.eqb_neq. apply String.eqb_eq in Hq. intros Heq.
    unfold folded in Hf. cbn [map] in Hf. apply NoDup_cons in Hf as [Hf _]. apply Hf. rewrite Hq, <- Heq.
    by apply list_elem_of_fmap_2.
  - destruct (position _ rest) as [i|] eqn:Hp.
    + apply position_split in Hp as (l1 & c' & l2 & Hr & <- & Hc & Hl). rewrite Hr in *.
      pose proof (move_to_app [first] l1 c' l2) as Hmv. cbn [length app Nat.add] in Hmv.
      rewrite Hmv. cbn [map]. rewrite names_split.
      destruct (folded_one (map c_name l1) (map c_name l2) (c_name c') q) as [-> ->]; [|done| |].
      * unfold folded in *. cbn [map] in Hf. apply NoDup_cons in Hf as [_ Hf]. by rewrite names_split in Hf.
      * intros n Hn. apply list_elem_of_fmap in Hn as (c1 & -> & Hc1). by apply Hl.
      * cbn. by rewrite map_app.
    + pose proof (position_none _ _ Hp) as Hn. apply Hsame. intros n Hin.
      apply list_elem_of_fmap in Hin as (c1 & -> & Hc1). by apply Hn.
Qed.

Lemma order_names config l :
  folded (map c_name l) → map c_name (order config l) = chain_names (configured_model config) (fallback config) (map c_name l).
Proof.
  intros Hf. pose proof (promote_names (configured_model config) l (folded_nodup _ Hf)) as Hp.
  unfold order, chain_names. destruct (lead _ _) as [first|] eqn:Hlead.
  - destruct (promote _ l) as [|c cs]; [done|]. cbn [map] in Hp. injection Hp as Hc Hcs.
    destruct (fallback_enabled _); [|by cbn; rewrite Hc]. rewrite preference_names.
    + destruct (non_empty _); cbn [map]; by rewrite Hc, Hcs.
    + cbn [map]. rewrite Hc, Hcs. assert (first ∈ map c_name l) as Hin.
      { unfold lead in Hlead. assert (∀ ns : list string, head ns = Some first → first ∈ ns) as Hh.
        { intros [|n ns] [= ->]. by left. }
        destruct (provider_name_for_model_with_available _ _) as [p|]; [|by apply Hh].
        destruct (mem p _) eqn:Hm; [injection Hlead as ->; by apply mem_true|by apply Hh]. }
      apply list_elem_of_split in Hin as (a & b & Hab). rewrite Hab in *.
      pose proof (folded_nodup _ Hf) as Hnd. rewrite filter_ne_split by done. unfold folded in *.
      rewrite map_app in Hf. cbn [map] in *. rewrite map_app. by rewrite Permutation_middle.
  - by destruct (promote _ l).
Qed.
End ordering.

(** ** The chain of a configuration *)

Section built.
Context {W P R V : Type} `{World W} `{QuotaWorld W} `{RustUnicode} `{Credentials} `{Backends W P R V}.
Context (usage_of : R → option Quota.Usage).
Implicit Types (config : Config).

Lemma candidates_names config selections w cs w1 :
  candidates_of usage_of config selections w = (cs, w1) → sublist (map c_name cs) (map sel_name selections).
Proof.
  revert w cs w1. induction selections as [|sel l IH]; intros w cs w1; cbn; [by intros [= <- _]|].
  unfold bind. destruct (provider_from_runtime_selection sel _ w) as [made w2].
  destruct (candidates_of usage_of config l w2) as [rest w3] eqn:Hr. apply IH in Hr.
  destruct made as [p|]; intros [= <- _]; cbn; by constructor.
Qed.

Lemma registry_folded : folded (map name PROVIDER_REGISTRY).
Proof. apply (bool_decide_unpack (folded (map name PROVIDER_REGISTRY))). vm_compute. reflexivity. Qed.

Lemma candidates_folded config w cs w1 :
  candidates_of usage_of config (resolve_runtime_providers (providers config)) w = (cs, w1) → folded (map c_name cs).
Proof.
  intros Hc%candidates_names. eapply sublist_NoDup; [exact registry_folded|]. apply sublist_map_mono.
  etrans; [exact Hc|apply resolved_sublist].
Qed.

(** The chain of a configuration. Among the available providers, in the order of
    the registry, the one of the configured model goes first, the preferred fallback
    second, and the others keep their order; without fallback the first is alone;
    and there is no chain only when no provider is available. *)
Theorem chain_order config w :
  let '(built, w1) := build_runtime_provider_chain usage_of config w in
  ∃ candidates, candidates_of usage_of config (resolve_runtime_providers (providers config)) w = (candidates, w1) ∧
    sublist (map c_name candidates) (map name PROVIDER_REGISTRY) ∧
    match built with
    | None => candidates = []
    | Some (_, names) =>
        names = chain_names (configured_model config) (fallback config) (map c_name candidates) ∧ names ≠ []
    end.
Proof.
  unfold build_runtime_provider_chain, bind.
  destruct (candidates_of usage_of config _ w) as [cs w1] eqn:Hc. cbn. exists cs. split; [done|].
  split. { etrans; [by eapply candidates_names|]. apply resolved_sublist. }
  pose proof (candidates_folded _ _ _ _ Hc) as Hf. pose proof (order_names config cs Hf) as Ho.
  destruct (order config cs) as [|primary rest] eqn:Hord; [|by rewrite <- Ho].
  destruct cs as [|c cs]; [done|]. cbn [map] in Ho. unfold chain_names, lead in Ho. exfalso. symmetry in Ho. revert Ho.
  cbn [head]. repeat case_match; simplify_eq; done.
Qed.

(** The providers made, one for each selection that gives one: the bare provider,
    behind the quota of its section if that has one. *)
Inductive made config : list RuntimeProviderSelection → W → list Candidate → W → Prop :=
| made_nothing w : made config [] w [] w
| made_no_provider sel l w w1 cs w2 :
    provider_from_runtime_selection sel (configured_model config) w = (None, w1) → made config l w1 cs w2 →
    made config (sel :: l) w cs w2
| made_plain sel l w p w1 cs w2 :
    provider_from_runtime_selection sel (configured_model config) w = (Some p, w1) →
    (∀ pc, provider_config_by_name (providers config) (sel_name sel) = Some pc → quota pc = None) →
    made config l w1 cs w2 →
    made config (sel :: l) w (mkCandidate (sel_name sel) p (sel_model sel) :: cs) w2
| made_with_quota sel l w p w1 pc q cs w2 :
    provider_from_runtime_selection sel (configured_model config) w = (Some p, w1) →
    provider_config_by_name (providers config) (sel_name sel) = Some pc → quota pc = Some q →
    made config l w1 cs w2 →
    made config (sel :: l) w
      (mkCandidate (sel_name sel) (QuotaProvider.as_provider usage_of (mkQuotaProvider p (sel_name sel) q)) (sel_model sel) :: cs) w2.

Lemma candidates_made config selections w cs w1 :
  candidates_of usage_of config selections w = (cs, w1) → made config selections w cs w1.
Proof.
  revert w cs w1. induction selections as [|sel l IH]; intros w cs w1; cbn [candidates_of]; [intros [= <- <-]; constructor|].
  unfold bind, ret. destruct (provider_from_runtime_selection sel _ w) as [[p|] w2] eqn:Hp;
    destruct (candidates_of usage_of config l w2) as [rest w3] eqn:Hr; apply IH in Hr; intros [= <- <-];
    [|by eapply made_no_provider].
  destruct (provider_config_by_name (providers config) (sel_name sel)) as [pc|] eqn:Hpc; cbn [mbind option_bind].
  - destruct (quota pc) as [q|] eqn:Hq; cbn [apply_quota_wrapper]; [by eapply made_with_quota|].
    eapply made_plain; [done| |done]. intros pc' Hpc'. congruence.
  - eapply made_plain; [done| |done]. intros pc' Hpc'. congruence.
Qed.

Lemma move_to_elem from to (l : list (@Candidate W P R V)) c : c ∈ move_to from to l → c ∈ l.
Proof.
  unfold move_to. destruct (l !! from) as [x|] eqn:Hx; [|done]. intros Hc.
  assert (c = x ∨ c ∈ delete from l) as [->|Hd].
  { apply elem_of_app in Hc as [Hc|Hc]; [right|apply elem_of_cons in Hc as [?|Hc]; [by left|right]].
    - by eapply elem_of_take in Hc as (i & ? & _); eapply list_elem_of_lookup_2.
    - rewrite <- (take_drop to (delete from l)). set_solver. }
  - by eapply list_elem_of_lookup_2.
  - by eapply elem_of_sublist; [|apply sublist_delete].
Qed.

Lemma order_elem config (cs : list (@Candidate W P R V)) c : c ∈ order config cs → c ∈ cs.
Proof.
  intros Hc. enough (c ∈ promote (configured_model config) cs) as Hp.
  { unfold promote in Hp. repeat case_match; try done. by eapply move_to_elem. }
  unfold order in Hc. destruct (promote _ cs) as [|first rest]; [done|]. destruct (fallback_enabled _).
  - unfold apply_fallback_preference in Hc. repeat case_match; simplify_eq; try done; by eapply move_to_elem.
  - apply list_elem_of_singleton in Hc as ->. by left.
Qed.

(** C34: The provider of a configuration, and a request to it. The chain is made of the
    available providers, each behind its quota if it has one, in the order that the
    configured model, the fallback switch and the preferred fallback say; there is
    none only when no provider is available. Whatever the providers answer and
    whatever happened before, a request comes back without a panic; it consists of
    passes, at most one more than the retries, and exactly as many when the last
    ends with a transient error and there is no budget; in a pass the providers of
    the chain are asked in their order, each at most once, the fallbacks for their own
    models, as long as they fail with an error that another provider might not give;
    every pass but the last ended with a transient error; and the answer is that of
    the last provider asked. In the first pass of a new chain no provider is left out. *)
Theorem chain_requests config w req model :
  0 ≤ max_retries (retry config) →
  let '(built, w1) := build_runtime_provider_chain usage_of config w in
  let limit := if retry_enabled (retry config) then max_retries (retry config) else 0 in
  let budget := retry_budget_ms (retry config) in
  ∃ candidates, made config (resolve_runtime_providers (providers config)) w candidates w1 ∧
  match built with
  | None => candidates = []
  | Some (chain, names) =>
    ∃ primary rest,
      (∀ c, c ∈ primary :: rest → c ∈ candidates) ∧
      map c_name (primary :: rest) = chain_names (configured_model config) (fallback config) (map c_name candidates) ∧
      names = map c_name (primary :: rest) ∧
      (∀ s w, answers limit budget (chat_calls primary rest req model) s w (chain_chat config chain req model (s, w))) ∧
      (∀ s w, answers limit budget (stream_calls primary rest req model) s w (chain_chat_stream config chain req model (s, w))) ∧
      starts (chat_calls primary rest req model) (initial chain) (chat (methods chain) req model) ∧
      starts (stream_calls primary rest req model) (initial chain) (chat_stream (methods chain) req model)
  end.
Proof.
  intros Hmax. unfold build_runtime_provider_chain, bind.
  destruct (candidates_of usage_of config _ w) as [cs w2] eqn:Hcs. unfold ret.
  exists cs. split; [by apply candidates_made|].
  pose proof (order_names config cs (candidates_folded _ _ _ _ Hcs)) as Hnames.
  pose proof (order_elem config cs) as Hin.
  destruct (order config cs) as [|primary rest] eqn:Hord.
  { destruct cs as [|c cs]; [done|]. cbn [map] in Hnames. exfalso. symmetry in Hnames. revert Hnames.
    unfold chain_names, lead. cbn [head]. repeat case_match; simplify_eq; done. }
  exists primary, rest. split; [done|]. split; [done|]. split; [done|].
  destruct (assemble_serves primary rest req model) as (S1 & T1 & S2 & T2). split_and!; [| |exact T1|exact T2].
  all: intros s w3; unfold chain_chat, chain_chat_stream; destruct (retry_enabled (retry config));
    [by apply (retry_answers (retrying config (assemble primary rest)))|unfold bind].
  - destruct (chat _ req model (s, w3)) as [r [s' w']] eqn:Hr. apply S1 in Hr as (trace & Ha & Ho).
    exists r, s', w', [(trace, r)]. cbn. rewrite app_nil_r. split_and!; try done. by constructor.
  - destruct (chat_stream _ req model (s, w3)) as [r [s' w']] eqn:Hr. apply S2 in Hr as (trace & Ha & Ho).
    exists r, s', w', [(trace, r)]. cbn. rewrite app_nil_r. split_and!; try done. by constructor.
Qed.
End built.

(** ** Examples *)

Module Example_chain.
Import Example_quota.

(** No tokens anywhere; the concrete providers answer from a script. *)
#[export] Instance no_tokens : Credentials := {|
  load_token := λ _, None; checked_at := λ _, 0; read_claude_credentials := None;
|}.

#[export] Instance scripted : Backends W unit string string := {|
  claude_with_credential := λ _, lift_provider (Scripted.provider "claude");
  claude_new := λ _, lift_provider (Scripted.provider "claude");
  default_gemini_model := "gemini-2.5-flash";
  gemini_from_config := λ _ _ _, None;
  openai_with_config := λ _ base _ _, lift_provider (Scripted.provider base);
  vertex_from_config := None;
|}.

Definition section (key model : string) : option ProviderConfig :=
  Some (mkProviderConfig (Some key) None None (non_empty (Some model)) None None None).

Definition three : ProvidersConfig :=
  mkProvidersConfig (section "k1" "") (section "k2" "gpt-4o-mini") None (section "k3" "llama") None None None None None None
    None None None None None None None None.

Definition config (retries : bool) (fb : FallbackConfig) : Config :=
  mkConfig three (mkRetryConfig retries 1 10 100 0) fb "gpt-4o".

Definition both : Config := config true (mkFallbackConfig true (Some " Groq ")).

Definition empty (script : list (Z * result ZeptoError string)) : W := (run [], Scripted.start script).

Definition chain_of (c : Config) := build_runtime_provider_chain usage_of c (empty []).

Example built_names :
  option_map snd (chain_of both).1 = Some ["openai"; "groq"; "anthropic"] ∧
  option_map snd (chain_of (config true (mkFallbackConfig true None))).1 = Some ["openai"; "anthropic"; "groq"] ∧
  option_map snd (chain_of (config true (mkFallbackConfig false None))).1 = Some ["openai"].
Proof. vm_compute. split_and!; reflexivity. Qed.

(** Two passes over three providers: the first is asked for the model of the
    request, although its section has another. *)
Definition answer : option (outcome (result ZeptoError string) * list (string * option string)) :=
  match (chain_of both).1 with
  | Some (chain, _) =>
    let busy := ProviderTyped (Overloaded "busy") in
    let '(r, (_, w)) := chain_chat both chain tt (Some "gpt-4o")
                          (initial chain, empty [(1, Err busy); (1, Err busy); (1, Err busy); (1, Ok "fine")]) in
    Some (r, Scripted.calls (snd w))
  | None => None
  end.

Example two_passes :
  answer = Some (Ret (Ok "fine"), [("https://api.openai.com/v1", Some "gpt-4o"); ("https://api.groq.com/openai/v1", Some "llama");
                                   ("claude", Some "gpt-4o"); ("claude", Some "gpt-4o")]).
Proof. vm_compute. reflexivity. Qed.

Lemma chain_requests_witness :
  ∃ chain names (candidates : list (@Candidate W unit string string)), (chain_of both).1 = Some (chain, names) ∧
    ∃ primary rest, (∀ c, c ∈ primary :: rest → c ∈ candidates) ∧
      map c_name (primary :: rest) = ["openai"; "groq"; "anthropic"] ∧
      starts (chat_calls primary rest tt None) (initial chain) (chat (methods chain) tt None).
Proof.
  pose proof (chain_requests usage_of both (empty []) tt None ltac:(discriminate)) as Hreq.
  assert (option_map snd (chain_of both).1 = Some ["openai"; "groq"; "anthropic"]) as Hnames by (vm_compute; reflexivity).
  fold (chain_of both) in Hreq. destruct (chain_of both) as [[[chain names]|] w1]; [|discriminate Hnames].
  injection Hnames as ->. destruct Hreq as (candidates & _ & primary & rest & Hin & _ & Hn & _ & _ & Hs & _).
  exists chain, ["openai"; "groq"; "anthropic"], candidates. split; [reflexivity|].
  exists primary, rest. split; [exact Hin|]. split; [symmetry; exact Hn|exact Hs].
Defined.
End Example_chain.
