(* ===== verification/Sessions.v ===== *)
(** Where sessions are kept: [SessionManager] of src/src/session/mod.rs, a cache
    in memory over a directory of files, with the encoding of keys as file names.

    A file is its name in the directory and an opaque body; JSON and the file
    system are the interface [SessionFiles]. The lock of the cache is held for a
    single access, so that [get_or_create] is several steps ([Interleaving]). *)

From S2P Require Import Prelude Text Errors Session Repair.

(** ** File names *)

Definition escapes : list (string * string) :=
  [("/", "%2F"); ("\", "%5C"); (":", "%3A"); ("*", "%2A"); ("?", "%3F"); (dquote, "%22");
   ("<", "%3C"); (">", "%3E"); ("|", "%7C"); ("%", "%25")].

Definition escape (c : string) : string :=
  match list_find (λ e, fst e = c) escapes with Some (_, (_, s)) => s | None => c end.

Definition sanitize_key (key : string) : string := str_concat (map escape (chars key)).

Definition hex_digit (c : Ascii.ascii) : option N :=
  let n := byte_val c in
  if N.leb 48 n && N.leb n 57 then Some (n - 48)%N
  else if N.leb 65 n && N.leb n 70 then Some (n - 55)%N
  else if N.leb 97 n && N.leb n 102 then Some (n - 87)%N
  else None.

(** [u8::from_str_radix] of two bytes, which takes a plus sign. *)
Definition from_hex (s : string) : option N :=
  match s with
  | String a (String b "") =>
    if Ascii.eqb a (Ascii.ascii_of_nat 43) then hex_digit b
    else x ← hex_digit a; y ← hex_digit b; Some (x * 16 + y)%N
  | _ => None
  end.

(** [u8 as char]. *)
Definition byte_char (n : N) : string :=
  if N.ltb n 128 then String (Ascii.ascii_of_N n) ""
  else String (Ascii.ascii_of_N (192 + n / 64)) (String (Ascii.ascii_of_N (128 + n mod 64)) "").

Fixpoint unescape (cs : list string) : string :=
  match cs with
  | [] => ""
  | c :: cs =>
    if String.eqb c "%" then
      match cs with
      | h1 :: h2 :: cs =>
        match from_hex (h1 +:+ h2) with
        | Some byte => byte_char byte +:+ unescape cs
        | None => "%" +:+ (h1 +:+ h2) +:+ unescape cs
        end
      | _ => "%" +:+ str_concat cs
      end
    else c +:+ unescape cs
  end.

Definition unsanitize_key (sanitized : string) : string := unescape (chars sanitized).

Definition file_name (key : string) : string := sanitize_key key +:+ ".json".

(** *** Keys are told apart *)

Definition utf8 (s : string) : Prop := ∃ cs, encodes cs s.

Lemma escape_cases c :
  (∃ s, (c, s) ∈ escapes ∧ escape c = s) ∨ (c ≠ "%" ∧ escape c = c).
Proof.
  unfold escape. destruct (list_find _ escapes) as [[i [c' s]]|] eqn:Hf.
  - left. exists s. apply list_find_Some in Hf as (Hi & <- & _). split; [|done].
    by apply list_elem_of_lookup_2 in Hi.
  - right. split; [|done]. intros ->. done.
Qed.

Lemma escape_chars c : is_char c → encodes (chars (escape c)) (escape c).
Proof.
  intros Hc. destruct (escape_cases c) as [(s & Hs & ->)|[_ ->]].
  - unfold escapes in Hs. assert (encodes (chars s) s) as H; [|done].
    repeat (apply elem_of_cons in Hs as [[= _ ->]|Hs]; [by vm_compute; split; repeat constructor|]).
    by apply elem_of_nil in Hs.
  - assert (encodes [c] c) as He by (split; [by constructor|cbn; by rewrite str_app_nil_r]).
    by rewrite (chars_encodes [c] c He).
Qed.

Lemma encodes_app cs s cs' s' : encodes cs s → encodes cs' s' → encodes (cs ++ cs') (s +:+ s').
Proof.
  intros [H1 ->] [H2 ->]. split; [by apply Forall_app|]. by rewrite str_concat_app.
Qed.

Lemma escaped_encodes cs :
  Forall is_char cs → encodes (mjoin (map (λ c, chars (escape c)) cs)) (str_concat (map escape cs)).
Proof.
  induction 1 as [|c cs Hc _ IH]; [by split; [constructor|]|]. cbn [map str_concat].
  change (mjoin (?a :: ?l)) with (a ++ mjoin l). apply encodes_app; [by apply escape_chars|done].
Qed.

Lemma unescape_escaped c rest :
  is_char c → unescape (chars (escape c) ++ rest) = c +:+ unescape rest.
Proof.
  intros Hc. destruct (escape_cases c) as [(s & Hs & ->)|[Hne Hesc]].
  - unfold escapes in Hs.
    repeat (apply elem_of_cons in Hs as [[= -> ->]|Hs]; [reflexivity|]). by apply elem_of_nil in Hs.
  - rewrite Hesc. assert (chars c = [c]) as ->.
    { apply chars_encodes. split; [by constructor|cbn; by rewrite str_app_nil_r]. }
    cbn. by rewrite (proj2 (String.eqb_neq c "%")).
Qed.

Lemma sanitize_key_chars cs key :
  encodes cs key → chars (sanitize_key key) = mjoin (map (λ c, chars (escape c)) cs).
Proof.
  intros Hcs. unfold sanitize_key. rewrite (chars_encodes cs key Hcs).
  apply chars_encodes, escaped_encodes, Hcs.
Qed.

Lemma unsanitize_sanitize key : utf8 key → unsanitize_key (sanitize_key key) = key.
Proof.
  intros [cs Hcs]. unfold unsanitize_key. rewrite (sanitize_key_chars cs key Hcs).
  destruct Hcs as [Hcs ->]. induction Hcs as [|c cs Hc _ IH]; [done|]. cbn [map str_concat].
  change (mjoin (?a :: ?l)) with (a ++ mjoin l). by rewrite unescape_escaped, IH.
Qed.

Lemma file_name_inj k1 k2 : utf8 k1 → utf8 k2 → file_name k1 = file_name k2 → k1 = k2.
Proof.
  intros H1 H2 He. unfold file_name in He.
  assert (sanitize_key k1 = sanitize_key k2) as Hs.
  { pose proof (proj2 (strip_suffix_Some _ ".json" (sanitize_key k1)) eq_refl) as Ha.
    pose proof (proj2 (strip_suffix_Some _ ".json" (sanitize_key k2)) eq_refl) as Hb.
    rewrite He in Ha. congruence. }
  by rewrite <- (unsanitize_sanitize k1), <- (unsanitize_sanitize k2), Hs.
Qed.

(** ** The manager *)

(** The directory of sessions. [Body] is the text of a file; errors are texts. *)
Class SessionFiles (W : Type) := {
  Body : Type;
  to_json : Session → Body;
  from_json : Body → result string Session;
  file_exists : W → string → bool;
  read_body : W → string → result string Body;
  write_body : W → string → Body → result string unit * W;
  remove_body : W → string → result string unit * W;
  dir_entries : W → result string (list (result string string));
}.

Record SessionManager : Type := mkSessionManager {
  sessions : gmap string Session;
  storage_path : bool;
}.

Module SessionManager.
Section methods.
Context {W : Type} `{SessionFiles W} (auto_repair : bool).
Implicit Types (self : SessionManager) (w : W).

Definition new_memory : SessionManager := mkSessionManager ∅ false.
Definition with_path : SessionManager := mkSessionManager ∅ true.

Definition cache self (k : string) (s : Session) : SessionManager :=
  mkSessionManager (<[k := s]> (sessions self)) (storage_path self).

Definition with_messages (s : Session) (ms : list Message) : Session :=
  {| Session.key := key s; messages := ms; summary := summary s;
     created_at := created_at s; updated_at := updated_at s |}.

Definition maybe_repair_loaded_session (s : Session) : Session :=
  if auto_repair then with_messages s (repair_messages (messages s)).1 else s.

(** The part on disk, if there is one. *)
Definition load self w (k : string) : result ZeptoError (option Session) :=
  if storage_path self && file_exists w (file_name k) then
    match read_body w (file_name k) with
    | Err e => Err (Io e)
    | Ok body =>
      match from_json body with
      | Err e => Err (Json e)
      | Ok s => Ok (Some (maybe_repair_loaded_session s))
      end
    end
  else Ok None.

Definition get self w (k : string) : result ZeptoError (option Session) * SessionManager :=
  match sessions self !! k with
  | Some s => (Ok (Some s), self)
  | None =>
    match load self w k with
    | Err e => (Err e, self)
    | Ok (Some s) => (Ok (Some s), cache self k s)
    | Ok None => (Ok None, self)
    end
  end.

Definition get_or_create self w (k : string) (now : Z) : result ZeptoError Session * SessionManager :=
  match sessions self !! k with
  | Some s => (Ok s, self)
  | None =>
    match load self w k with
    | Err e => (Err e, self)
    | Ok (Some s) => (Ok s, cache self k s)
    | Ok None => (Ok (Session.new k now), cache self k (Session.new k now))
    end
  end.

Definition save self w (s : Session) : result ZeptoError unit * SessionManager * W :=
  let self := cache self (key s) s in
  if storage_path self then
    let '(r, w) := write_body w (file_name (key s)) (to_json s) in
    (match r with Ok _ => Ok tt | Err e => Err (Io e) end, self, w)
  else (Ok tt, self, w).

Definition delete self w (k : string) : result ZeptoError unit * SessionManager * W :=
  let self := mkSessionManager (base.delete k (sessions self)) (storage_path self) in
  if storage_path self && file_exists w (file_name k) then
    let '(r, w) := remove_body w (file_name k) in
    (match r with Ok _ => Ok tt | Err e => Err (Io e) end, self, w)
  else (Ok tt, self, w).

Definition exists_ self w (k : string) : bool :=
  match sessions self !! k with
  | Some _ => true
  | None => storage_path self && file_exists w (file_name k)
  end.

Definition clear_cache self : SessionManager := mkSessionManager ∅ (storage_path self).
Definition cache_size self : nat := size (sessions self).

(** The key of a file of the directory, if it holds a session. *)
Definition key_of_file w (name : string) : option string :=
  if ends_with name ".json" && negb (String.eqb name ".json") then
    match read_body w name with
    | Ok body => match from_json body with Ok s => Some (key s) | Err _ => None end
    | Err _ => None
    end
  else None.

Fixpoint list_files w (entries : list (result string string)) (keys : list string)
    : result ZeptoError (list string) :=
  match entries with
  | [] => Ok keys
  | Err e :: _ => Err (Io e)
  | Ok name :: entries =>
    match key_of_file w name with
    | Some k => list_files w entries (if bool_decide (k ∈ keys) then keys else keys ++ [k])
    | None => list_files w entries keys
    end
  end.

(** [cached] is the keys of the cache in the order of its iteration. *)
Definition list_ self w (cached : list string) : result ZeptoError (list string) :=
  if storage_path self then
    match dir_entries w with
    | Err e => Err (Io e)
    | Ok entries => merge_sort String.le <$> list_files w entries cached
    end
  else Ok (merge_sort String.le cached).
End methods.
End SessionManager.

(** ** Histories *)

(** The documented behaviour of serde_json on a session and of a file system
    whose operations succeed. *)
Class SessionFilesLaws (W : Type) `{SessionFiles W} := {
  json_round_trip (s : Session) : from_json (to_json s) = Ok s;
  write_body_ok (w w' : W) n b :
    write_body w n b = (Ok tt, w') →
    file_exists w' n = true ∧ read_body w' n = Ok b ∧
    ∀ m, m ≠ n → file_exists w' m = file_exists w m ∧ read_body w' m = read_body w m;
  remove_body_ok (w w' : W) n :
    remove_body w n = (Ok tt, w') →
    file_exists w' n = false ∧
    ∀ m, m ≠ n → file_exists w' m = file_exists w m ∧ read_body w' m = read_body w m;
  dir_entries_ok (w : W) entries :
    dir_entries w = Ok entries →
    ∀ n, Ok n ∈ entries ↔ file_exists w n = true;
}.

(** The operations of the program, one after the other. A restart is a new cache
    over the same directory. *)
Inductive op : Type :=
| OSave (s : Session)
| ODelete (k : string)
| OGet (k : string)
| OGetOrCreate (k : string) (now : Z)
| OExists (k : string)
| OList
| ORestart.

Inductive reply : Type :=
| RUnit
| RSession (s : option Session)
| RBool (b : bool)
| RKeys (ks : list string).

(** The file of an empty key would be hidden. *)
Definition op_ok (o : op) : Prop :=
  match o with
  | OSave s => utf8 (key s) ∧ key s ≠ ""
  | ODelete k | OGet k | OGetOrCreate k _ | OExists k => utf8 k
  | OList | ORestart => True
  end.

(** *** The specification

    [saved] is what survives a restart, [visible] what readers see. *)
Record Store : Type := mkStore {
  saved : gmap string Session;
  visible : gmap string Session;
}.

Section specification.
Context (auto_repair persistent : bool).

Definition after_restart (st : gmap string Session) : gmap string Session :=
  if persistent then SessionManager.maybe_repair_loaded_session auto_repair <$> st else ∅.

Definition spec_exec (st : Store) (o : op) : reply * Store :=
  match o with
  | OSave s => (RUnit, mkStore (<[key s := s]> (saved st)) (<[key s := s]> (visible st)))
  | ODelete k => (RUnit, mkStore (base.delete k (saved st)) (base.delete k (visible st)))
  | OGet k => (RSession (visible st !! k), st)
  | OGetOrCreate k now =>
    let s := default (Session.new k now) (visible st !! k) in
    (RSession (Some s), mkStore (saved st) (<[k := s]> (visible st)))
  | OExists k => (RBool (bool_decide (is_Some (visible st !! k))), st)
  | OList => (RKeys (merge_sort String.le (elements (dom (visible st)))), st)
  | ORestart => (RUnit, mkStore (if persistent then saved st else ∅) (after_restart (saved st)))
  end.

Fixpoint spec_execs (st : Store) (ops : list op) : list reply :=
  match ops with [] => [] | o :: ops => let '(r, st) := spec_exec st o in r :: spec_execs st ops end.
End specification.

(** *** The implementation *)

Section histories.
Context {W : Type} `{SessionFilesLaws W} (auto_repair : bool).
Context (iter : gmap string Session → list string)
        (iter_ok : ∀ m, iter m ≡ₚ elements (dom m)).
Implicit Types (self : SessionManager) (w : W) (st : Store).

(** [None] when the file system fails. *)
Definition exec (c : SessionManager * W) (o : op) : option (reply * (SessionManager * W)) :=
  let '(self, w) := c in
  match o with
  | OSave s =>
    match SessionManager.save self w s with (Ok _, self, w) => Some (RUnit, (self, w)) | _ => None end
  | ODelete k =>
    match SessionManager.delete self w k with (Ok _, self, w) => Some (RUnit, (self, w)) | _ => None end
  | OGet k =>
    match SessionManager.get auto_repair self w k with
    | (Ok s, self) => Some (RSession s, (self, w))
    | _ => None
    end
  | OGetOrCreate k now =>
    match SessionManager.get_or_create auto_repair self w k now with
    | (Ok s, self) => Some (RSession (Some s), (self, w))
    | _ => None
    end
  | OExists k => Some (RBool (SessionManager.exists_ self w k), (self, w))
  | OList =>
    match SessionManager.list_ self w (iter (sessions self)) with
    | Ok ks => Some (RKeys ks, (self, w))
    | _ => None
    end
  | ORestart => Some (RUnit, (SessionManager.clear_cache self, w))
  end.

Fixpoint execs (c : SessionManager * W) (ops : list op) : option (list reply) :=
  match ops with
  | [] => Some []
  | o :: ops => '(r, c) ← exec c o; rs ← execs c ops; Some (r :: rs)
  end.

(** The cache and the directory hold [st]. *)
Record kept self w st : Prop := {
  kept_hit k s : sessions self !! k = Some s → visible st !! k = Some s;
  kept_miss k : sessions self !! k = None →
    visible st !! k = after_restart auto_repair (storage_path self) (saved st) !! k;
  kept_saved k : is_Some (saved st !! k) → is_Some (visible st !! k) ∧ utf8 k ∧ k ≠ "";
  kept_files : storage_path self = true → ∀ k, utf8 k →
    match saved st !! k with
    | Some s => file_exists w (file_name k) = true ∧ read_body w (file_name k) = Ok (to_json s)
    | None => file_exists w (file_name k) = false
    end;
  kept_names : storage_path self = true → ∀ n, file_exists w n = true → ends_with n ".json" = true →
    ∃ k, utf8 k ∧ n = file_name k;
  kept_keys k s : saved st !! k = Some s → key s = k;
}.

Lemma load_kept self w st k :
  kept self w st → utf8 k →
  SessionManager.load auto_repair self w k =
  Ok (after_restart auto_repair (storage_path self) (saved st) !! k).
Proof.
  intros Hk Hu. unfold SessionManager.load, after_restart.
  destruct (storage_path self) eqn:Hs; cbn [andb]; [|by rewrite lookup_empty].
  pose proof (kept_files _ _ _ Hk Hs k Hu) as Hf. rewrite lookup_fmap.
  destruct (saved st !! k) as [s|]; [|by rewrite Hf]. destruct Hf as [-> ->].
  by rewrite json_round_trip.
Qed.

(** Putting in the cache what is visible, or what becomes visible. *)
Lemma cache_kept self w st k s :
  kept self w st →
  kept (SessionManager.cache self k s) w (mkStore (saved st) (<[k := s]> (visible st))).
Proof.
  intros [Hh Hm Hs Hf Hn Hk]. split; cbn; auto.
  - intros k' s'. rewrite !lookup_insert_Some. intros [?|[? ?]]; [by left|right; auto].
  - intros k'. rewrite lookup_insert_None. intros [Hk' Hne]. rewrite lookup_insert_ne by done. auto.
  - intros k' [H1 H2]%Hs. split; [|done]. destruct (decide (k = k')) as [->|];
      [rewrite lookup_insert_eq|rewrite lookup_insert_ne]; by eauto.
Qed.

Lemma cache_visible self w st k s :
  kept self w st → visible st !! k = Some s → kept (SessionManager.cache self k s) w st.
Proof.
  intros Hk Hv. apply (cache_kept _ _ _ k s) in Hk. rewrite insert_id in Hk by done. by destruct st.
Qed.

Lemma save_kept self w st s self' w' :
  kept self w st → utf8 (key s) ∧ key s ≠ "" → SessionManager.save self w s = (Ok tt, self', w') →
  kept self' w' (mkStore (<[key s := s]> (saved st)) (<[key s := s]> (visible st))).
Proof.
  intros Hk [Hu Hne0] Hsave. unfold SessionManager.save in Hsave. cbn in Hsave.
  pose proof (cache_kept _ _ _ (key s) s Hk) as [Hh Hm Hs Hf Hn Hy]. cbn in *.
  assert (∀ k, <[key s := s]> (sessions self) !! k = None →
    <[key s := s]> (visible st) !! k =
    after_restart auto_repair (storage_path self) (<[key s := s]> (saved st)) !! k) as Hm'.
  { intros k Hk'. rewrite (Hm k Hk'). apply lookup_insert_None in Hk' as [_ Hne].
    unfold after_restart. destruct (storage_path self); [|done].
    by rewrite fmap_insert, lookup_insert_ne. }
  assert (∀ k, is_Some (<[key s := s]> (saved st) !! k) →
    is_Some (<[key s := s]> (visible st) !! k) ∧ utf8 k ∧ k ≠ "") as Hs'.
  { intros k. destruct (decide (key s = k)) as [<-|Hne]; [rewrite !lookup_insert_eq; eauto|].
    rewrite (lookup_insert_ne (saved st)) by done. apply Hs. }
  assert (∀ k s', <[key s := s]> (saved st) !! k = Some s' → key s' = k) as Hy'.
  { intros k s'. rewrite lookup_insert_Some. intros [[<- <-]|[_ ?]]; eauto. }
  destruct (storage_path self) eqn:Hst.
  - destruct (write_body w _ _) as [[[]|e] w1] eqn:Hw; simplify_eq.
    apply write_body_ok in Hw as (He & Hb & Ho). split; cbn; rewrite ?Hst; auto.
    + intros _ k Huk. destruct (decide (key s = k)) as [<-|Hne]; [by rewrite lookup_insert_eq|].
      rewrite lookup_insert_ne by done. assert (file_name k ≠ file_name (key s)) as Hfn.
      { intros ?%file_name_inj; by auto. }
      destruct (Ho _ Hfn) as [-> ->]. by apply Hf.
    + intros _ n Hex Hend. destruct (decide (n = file_name (key s))) as [->|Hne]; [eauto|].
      rewrite (proj1 (Ho _ Hne)) in Hex. by apply Hn.
  - simplify_eq. split; cbn; rewrite ?Hst; auto; by intros.
Qed.

Lemma delete_kept self w st k self' w' :
  kept self w st → utf8 k → SessionManager.delete self w k = (Ok tt, self', w') →
  kept self' w' (mkStore (base.delete k (saved st)) (base.delete k (visible st))).
Proof.
  intros [Hh Hm Hs Hf Hn Hy] Hu Hdel. unfold SessionManager.delete in Hdel. cbn in Hdel.
  assert (storage_path self' = storage_path self ∧ sessions self' = base.delete k (sessions self) ∧
    (storage_path self = true →
       file_exists w' (file_name k) = false ∧
       ∀ m, m ≠ file_name k → file_exists w' m = file_exists w m ∧ read_body w' m = read_body w m))
    as (Hst & Hse & Hfs).
  { destruct (storage_path self) eqn:Hst; cbn in Hdel; [|by simplify_eq].
    destruct (file_exists w (file_name k)) eqn:Hfe; [|by simplify_eq].
    destruct (remove_body w _) as [[[]|e] w1] eqn:Hr; simplify_eq.
    apply remove_body_ok in Hr. done. }
  clear Hdel. split; cbn; rewrite ?Hst, ?Hse.
  - intros k' s'. rewrite !lookup_delete_Some. naive_solver.
  - intros k'. unfold after_restart in *. destruct (decide (k = k')) as [->|Hne].
    + intros _. rewrite lookup_delete_eq. destruct (storage_path self); [|done].
      by rewrite lookup_fmap, lookup_delete_eq.
    + rewrite !lookup_delete_ne by done. intros Hk'. rewrite (Hm k' Hk').
      destruct (storage_path self); [|done]. by rewrite !lookup_fmap, lookup_delete_ne.
  - intros k'. destruct (decide (k = k')) as [->|Hne]; [by rewrite lookup_delete_eq; intros []|].
    rewrite !lookup_delete_ne by done. apply Hs.
  - intros Hp k' Hu'. destruct (Hfs Hp) as [Hgone Ho].
    destruct (decide (k = k')) as [->|Hne]; [by rewrite lookup_delete_eq|].
    rewrite lookup_delete_ne by done. assert (file_name k' ≠ file_name k) as Hfn.
    { intros ?%file_name_inj; by auto. }
    destruct (Ho _ Hfn) as [-> ->]. by apply Hf.
  - intros Hp n Hex Hend. destruct (Hfs Hp) as [Hgone Ho].
    destruct (decide (n = file_name k)) as [->|Hne]; [congruence|].
    rewrite (proj1 (Ho _ Hne)) in Hex. by apply Hn.
  - intros k' s'. rewrite lookup_delete_Some. naive_solver.
Qed.

Lemma restart_kept self w st :
  kept self w st →
  kept (SessionManager.clear_cache self) w
    (mkStore (if storage_path self then saved st else ∅)
             (after_restart auto_repair (storage_path self) (saved st))).
Proof.
  intros [Hh Hm Hs Hf Hn Hy]. unfold after_restart in *. split; cbn.
  - intros k s. by rewrite lookup_empty.
  - intros k _. by destruct (storage_path self).
  - intros k. destruct (storage_path self); [|by rewrite lookup_empty; intros []].
    intros [s Hk]. split; [rewrite lookup_fmap, Hk; cbn; eauto|]. apply Hs. eauto.
  - intros Hp. rewrite Hp. by apply Hf.
  - done.
  - intros k s. destruct (storage_path self); [apply Hy|by rewrite lookup_empty].
Qed.

Lemma list_files_spec w entries keys keys' :
  NoDup keys → SessionManager.list_files w entries keys = Ok keys' →
  NoDup keys' ∧
  ∀ k, k ∈ keys' ↔ k ∈ keys ∨ ∃ n, Ok n ∈ entries ∧ SessionManager.key_of_file w n = Some k.
Proof.
  revert keys. induction entries as [|[n|e] entries IH]; intros keys Hnd; cbn [SessionManager.list_files].
  - intros [= <-]. split; [done|]. intros k. split; [by left|]. by intros [?|(n & []%elem_of_nil & _)].
  - intros Hl. destruct (SessionManager.key_of_file w n) as [k0|] eqn:Hk0.
    + apply IH in Hl as [Hnd' Hin].
      * split; [done|]. intros k. rewrite Hin. setoid_rewrite elem_of_cons.
        case_bool_decide; set_solver.
      * case_bool_decide; [done|]. apply NoDup_app. split_and!; [done| |by apply NoDup_singleton]. set_solver.
    + apply IH in Hl as [Hnd' Hin]; [|done]. split; [done|]. intros k. rewrite Hin.
      setoid_rewrite elem_of_cons. split; [naive_solver|].
      intros [?|(m & [[= ->]|?] & ?)]; [by left|congruence|right; eauto].
  - done.
Qed.

Lemma file_name_json k : utf8 k → k ≠ "" → ends_with (file_name k) ".json" = true ∧ file_name k ≠ ".json".
Proof.
  intros Hu Hne. split; [apply ends_with_spec; unfold file_name; eauto|]. intros He.
  apply Hne, file_name_inj; [done| |done]. exists []. by split; [constructor|].
Qed.

Lemma key_of_file_kept self w st n k :
  kept self w st → storage_path self = true → file_exists w n = true →
  SessionManager.key_of_file w n = Some k → is_Some (saved st !! k).
Proof.
  intros Hk Hp Hex Hkey. unfold SessionManager.key_of_file in Hkey.
  destruct (ends_with n ".json") eqn:He; cbn [andb] in Hkey; [|done].
  destruct (kept_names _ _ _ Hk Hp n Hex He) as (k0 & Hu & ->).
  pose proof (kept_files _ _ _ Hk Hp k0 Hu) as Hf.
  destruct (saved st !! k0) as [s|] eqn:Hs; [|congruence]. destruct Hf as [_ Hr].
  destruct (negb _); [|done]. rewrite Hr, json_round_trip in Hkey. simplify_eq.
  rewrite (kept_keys _ _ _ Hk k0 s Hs), Hs. eauto.
Qed.

Lemma saved_key_of_file self w st k :
  kept self w st → storage_path self = true → is_Some (saved st !! k) →
  file_exists w (file_name k) = true ∧ SessionManager.key_of_file w (file_name k) = Some k.
Proof.
  intros Hk Hp [s Hs]. destruct (kept_saved _ _ _ Hk k) as (_ & Hu & Hne); [eauto|].
  pose proof (kept_files _ _ _ Hk Hp k Hu) as Hf. rewrite Hs in Hf. destruct Hf as [Hex Hr].
  split; [done|]. unfold SessionManager.key_of_file. destruct (file_name_json k Hu Hne) as [-> Hj].
  apply String.eqb_neq in Hj. rewrite Hj. cbn [andb negb]. rewrite Hr, json_round_trip.
  by rewrite (kept_keys _ _ _ Hk k s Hs).
Qed.

Lemma visible_keys self w st k :
  kept self w st →
  is_Some (visible st !! k) ↔
  is_Some (sessions self !! k) ∨ (storage_path self = true ∧ is_Some (saved st !! k)).
Proof.
  intros Hk. split.
  - intros [s Hv]. destruct (sessions self !! k) eqn:Hc; [left; eauto|right].
    rewrite (kept_miss _ _ _ Hk k Hc) in Hv. unfold after_restart in Hv.
    destruct (storage_path self); [|by rewrite lookup_empty in Hv]. split; [done|].
    rewrite lookup_fmap in Hv. destruct (saved st !! k); [eauto|done].
  - intros [[s Hc]|[_ Hs]]; [exists s; by eapply kept_hit|by apply (kept_saved _ _ _ Hk)].
Qed.

Lemma sorted_keys (l1 l2 : list string) :
  l1 ≡ₚ l2 → merge_sort String.le l1 = merge_sort String.le l2.
Proof.
  intros Hp. apply (Sorted_unique String.le); try (apply Sorted_merge_sort; apply _).
  by rewrite !merge_sort_Permutation.
Qed.

Lemma list_kept self w st ks :
  kept self w st → SessionManager.list_ self w (iter (sessions self)) = Ok ks →
  ks = merge_sort String.le (elements (dom (visible st))).
Proof.
  intros Hk Hl. unfold SessionManager.list_ in Hl.
  assert (NoDup (iter (sessions self))) as Hnd by (rewrite iter_ok; apply NoDup_elements).
  assert (∀ k, k ∈ iter (sessions self) ↔ is_Some (sessions self !! k)) as Hin.
  { intros k. by rewrite iter_ok, elem_of_elements, elem_of_dom. }
  destruct (storage_path self) eqn:Hp.
  - destruct (dir_entries w) as [entries|e] eqn:Hd; [|done].
    destruct (SessionManager.list_files w entries _) as [keys|e] eqn:Hf; [|done]. cbn in Hl. simplify_eq.
    apply list_files_spec in Hf as [Hnd' Hin']; [|done].
    apply sorted_keys, NoDup_Permutation; [done|apply NoDup_elements|]. intros k.
    rewrite Hin', Hin, elem_of_elements, elem_of_dom, (visible_keys _ _ _ _ Hk), Hp.
    pose proof (dir_entries_ok w entries Hd) as Hde. split; (intros [?|Hr]; [by left|right]).
    + destruct Hr as (n & Hn%Hde & Hkey). split; [done|]. by eapply key_of_file_kept.
    + destruct Hr as [_ Hs]. destruct (saved_key_of_file _ _ _ _ Hk Hp Hs) as [Hex Hkey].
      exists (file_name k). by rewrite Hde.
  - simplify_eq. apply sorted_keys, NoDup_Permutation; [done|apply NoDup_elements|]. intros k.
    rewrite Hin, elem_of_elements, elem_of_dom, (visible_keys _ _ _ _ Hk), Hp. naive_solver.
Qed.

Lemma exists_kept self w st k :
  kept self w st → utf8 k →
  SessionManager.exists_ self w k = bool_decide (is_Some (visible st !! k)).
Proof.
  intros Hk Hu. unfold SessionManager.exists_. pose proof (visible_keys _ _ _ k Hk) as Hv.
  destruct (sessions self !! k) eqn:Hc; [symmetry; apply bool_decide_eq_true; naive_solver|].
  destruct (storage_path self) eqn:Hp; cbn [andb].
  - pose proof (kept_files _ _ _ Hk Hp k Hu) as Hf. destruct (saved st !! k) as [s|] eqn:Hs.
    + destruct Hf as [-> _]. symmetry. apply bool_decide_eq_true. naive_solver.
    + rewrite Hf. symmetry. apply bool_decide_eq_false. rewrite Hv, is_Some_alt. naive_solver.
  - symmetry. apply bool_decide_eq_false. naive_solver.
Qed.

Lemma get_kept self w st k :
  kept self w st → utf8 k → ∃ self',
  SessionManager.get auto_repair self w k = (Ok (visible st !! k), self') ∧
  storage_path self' = storage_path self ∧ kept self' w st.
Proof.
  intros Hk Hu. unfold SessionManager.get. destruct (sessions self !! k) as [s|] eqn:Hc.
  - rewrite (kept_hit _ _ _ Hk k s Hc). eauto.
  - rewrite (load_kept _ _ _ _ Hk Hu), <- (kept_miss _ _ _ Hk k Hc).
    destruct (visible st !! k) as [s|] eqn:Hv; eauto using cache_visible.
Qed.

Lemma get_or_create_kept self w st k now :
  kept self w st → utf8 k → ∃ self',
  let s := default (Session.new k now) (visible st !! k) in
  SessionManager.get_or_create auto_repair self w k now = (Ok s, self') ∧
  storage_path self' = storage_path self ∧
  kept self' w (mkStore (saved st) (<[k := s]> (visible st))).
Proof.
  intros Hk Hu. unfold SessionManager.get_or_create. destruct (sessions self !! k) as [s|] eqn:Hc.
  - rewrite (kept_hit _ _ _ Hk k s Hc). cbn. exists self. rewrite insert_id by by eapply kept_hit.
    by destruct st.
  - rewrite (load_kept _ _ _ _ Hk Hu), <- (kept_miss _ _ _ Hk k Hc).
    destruct (visible st !! k) as [s|] eqn:Hv; cbn; eauto using cache_kept.
Qed.

Lemma exec_refines self w st o r self' w' :
  kept self w st → op_ok o → exec (self, w) o = Some (r, (self', w')) →
  storage_path self' = storage_path self ∧
  spec_exec auto_repair (storage_path self) st o = (r, (spec_exec auto_repair (storage_path self) st o).2) ∧
  kept self' w' (spec_exec auto_repair (storage_path self) st o).2.
Proof.
  intros Hk Ho He. destruct o as [s|k|k|k now|k| |]; cbn in He, Ho |- *.
  - destruct (SessionManager.save self w s) as [[[[]|e] self1] w1] eqn:Hs; simplify_eq.
    split_and!; [|done|by eapply save_kept]. unfold SessionManager.save in Hs. cbn in Hs.
    destruct (storage_path self) eqn:Hp; [destruct (write_body w _ _) as [[]]|]; by simplify_eq.
  - destruct (SessionManager.delete self w k) as [[[[]|e] self1] w1] eqn:Hs; simplify_eq.
    split_and!; [|done|by eapply delete_kept]. unfold SessionManager.delete in Hs. cbn in Hs.
    destruct (storage_path self && _) eqn:Hp; [destruct (remove_body w _) as [[]]|]; by simplify_eq.
  - destruct (get_kept _ _ _ _ Hk Ho) as (self1 & Hg & Hp & Hk'). rewrite Hg in He. by simplify_eq.
  - destruct (get_or_create_kept _ _ _ _ now Hk Ho) as (self1 & Hg & Hp & Hk').
    cbn zeta in *. rewrite Hg in He. by simplify_eq.
  - simplify_eq. by rewrite (exists_kept _ _ st).
  - destruct (SessionManager.list_ self w _) as [ks|e] eqn:Hl; simplify_eq.
    by rewrite (list_kept _ _ _ _ Hk Hl).
  - simplify_eq. split_and!; [done|done|by apply restart_kept].
Qed.

(** A new manager over a directory without session files. *)
Lemma kept_new w persistent :
  (∀ n, ends_with n ".json" = true → file_exists w n = false) →
  kept (mkSessionManager ∅ persistent) w (mkStore ∅ ∅).
Proof.
  intros Hw. split; cbn.
  - intros k s. by rewrite lookup_empty.
  - intros k _. unfold after_restart. destruct persistent; [|done]. by rewrite fmap_empty.
  - intros k. rewrite lookup_empty. by intros [].
  - intros _ k _. rewrite lookup_empty. apply Hw, ends_with_spec. unfold file_name. eauto.
  - intros _ n Hn He. rewrite Hw in Hn; done.
  - intros k s. by rewrite lookup_empty.
Qed.

Lemma execs_refine self w st ops rs :
  kept self w st → Forall op_ok ops → execs (self, w) ops = Some rs →
  rs = spec_execs auto_repair (storage_path self) st ops.
Proof.
  intros Hk Ho. revert self w st rs Hk. induction Ho as [|o ops Hok _ IH]; intros self w st rs Hk; cbn [execs spec_execs].
  - by intros [= <-].
  - destruct (exec (self, w) o) as [[r [self1 w1]]|] eqn:He; [|done]. cbn.
    destruct (execs (self1, w1) ops) as [rs1|] eqn:Hes; [|done]. intros [= <-].
    destruct (exec_refines _ _ _ _ _ _ _ Hk Hok He) as (Hp & Hr & Hk1). rewrite Hr. f_equal.
    rewrite <- Hp in Hk1 |- *. by eapply IH.
Qed.

(** C39: The session manager over a directory of files, or in memory, answers any
    history of operations and restarts like a map of what was saved: what is
    saved is read back until it is deleted, restarts keep it (repaired, if
    repair is on), distinct keys never share a file, and the listing is the
    sorted list of the keys, whatever the order of iteration. *)
Theorem session_histories w persistent ops rs :
  (∀ n, ends_with n ".json" = true → file_exists w n = false) →
  Forall op_ok ops → execs (mkSessionManager ∅ persistent, w) ops = Some rs →
  rs = spec_execs auto_repair persistent (mkStore ∅ ∅) ops.
Proof. intros Hw Ho. apply execs_refine; [by apply kept_new|done]. Qed.
End histories.

(** ** A directory in memory *)

Module Example_sessions.
Notation disk := (gmap string Session).

#[export] Instance disk_files : SessionFiles disk := {|
  Body := Session; to_json s := s; from_json s := Ok s;
  file_exists w n := bool_decide (is_Some (w !! n));
  read_body w n := match w !! n with Some s => Ok s | None => Err "No such file" end;
  write_body w n s := (Ok tt, <[n := s]> w);
  remove_body w n :=
    match w !! n with Some _ => (Ok tt, base.delete n w) | None => (Err "No such file", w) end;
  dir_entries w := Ok (map (λ e, Ok (fst e)) (map_to_list w));
|}.

#[export] Instance disk_files_laws : SessionFilesLaws disk.
Proof.
  split; cbn.
  - done.
  - intros w w' n b [= <-]. rewrite lookup_insert_eq. split_and!; [by apply bool_decide_eq_true|done|].
    intros m Hm. by rewrite lookup_insert_ne.
  - intros w w' n. destruct (w !! n); [|done]. intros [= <-]. rewrite lookup_delete_eq.
    split; [by apply bool_decide_eq_false; intros []|]. intros m Hm. by rewrite lookup_delete_ne.
  - intros w entries [= <-] n. rewrite list_elem_of_fmap, bool_decide_eq_true. split.
    + intros ([n' s] & [= ->] & Hs%elem_of_map_to_list). eauto.
    + intros [s Hs]. exists (n, s). by rewrite elem_of_map_to_list.
Qed.

Definition chat (k : string) (ms : list Message) : Session :=
  SessionManager.with_messages (Session.new k 0) ms.

Definition hello := [Message.user "Hello"].
Definition orphaned := [Message.user "Hello"; Message.tool_result "call_1" "Success"].
Definition keys_of (m : gmap string Session) : list string := elements (dom m).

Definition history : list op :=
  [OSave (chat "chat/1" orphaned); OSave (chat "chat:1" hello); OGet "chat/1"; OList; ORestart;
   OGet "chat/1"; OGetOrCreate "cli" 7; OList; ODelete "chat:1"; OExists "chat:1"; ORestart; OList].

Lemma session_histories_witness :
  Forall op_ok history ∧
  execs true keys_of (mkSessionManager ∅ true, ∅) history = Some (spec_execs true true (mkStore ∅ ∅) history) ∧
  spec_execs true true (mkStore ∅ ∅) history =
  [RUnit; RUnit; RSession (Some (chat "chat/1" orphaned)); RKeys ["chat/1"; "chat:1"]; RUnit;
   RSession (Some (chat "chat/1" hello)); RSession (Some (Session.new "cli" 7));
   RKeys ["chat/1"; "chat:1"; "cli"]; RUnit; RBool false; RUnit; RKeys ["chat/1"]].
Proof.
  assert (∀ s, Forall is_char (chars s) → s = str_concat (chars s) → utf8 s) as Hu.
  { intros s. by exists (chars s). }
  assert (Forall op_ok history) as Hok.
  { repeat constructor; cbn; try done; (apply Hu; [repeat constructor|reflexivity]). }
  assert (execs true keys_of (mkSessionManager ∅ true, (∅ : disk)) history =
          Some (spec_execs true true (mkStore ∅ ∅) history)) as He.
  { assert (is_Some (execs true keys_of (mkSessionManager ∅ true, (∅ : disk)) history)) as [rs He].
    { eexists. vm_compute. reflexivity. }
    rewrite He. f_equal. apply (session_histories true keys_of ltac:(by intros) ∅ true history rs); [|done|done].
    intros n _. by apply bool_decide_eq_false; rewrite lookup_empty; intros []. }
  split_and!; [done|done|vm_compute; reflexivity].
Defined.

(** Two tasks: one reads the file of a session, another saves the session before
    the first puts what it read in the cache. The older session stays there. *)
Example stale_load :
  let load := SessionManager.load true (mkSessionManager ∅ true) {[file_name "cli" := chat "cli" hello]} "cli" in
  let newer := chat "cli" (hello ++ [Message.assistant "Hi there!"]) in
  let '(_, self, w) := SessionManager.save (mkSessionManager ∅ true) {[file_name "cli" := chat "cli" hello]} newer in
  load = Ok (Some (chat "cli" hello)) ∧
  fst (SessionManager.get true (SessionManager.cache self "cli" (chat "cli" hello)) w "cli") =
    Ok (Some (chat "cli" hello)) ∧
  w !! file_name "cli" = Some newer.
Proof. split_and!; vm_compute; reflexivity. Qed.

(** The file of the empty key is hidden, and not listed. *)
Example empty_key_unlisted :
  let '(_, self, w) := SessionManager.save (mkSessionManager ∅ true) (∅ : disk) (chat "" hello) in
  SessionManager.list_ self w (keys_of (sessions self)) = Ok [""] ∧
  SessionManager.list_ (SessionManager.clear_cache self) w [] = Ok [] ∧
  SessionManager.exists_ (SessionManager.clear_cache self) w "" = true.
Proof. split_and!; vm_compute; reflexivity. Qed.
End Example_sessions.
