(* ===== verification/Streaming.v ===== *)
(** The streamed variant of a run: [process_message_streaming] of
    src/src/agent/loop.rs.

    Its tool loop asks the provider as [AgentLoop] does; the answer is then asked
    for once more as a stream. A stream is the list of its events, and the task
    that forwards them and saves the session runs after the function returned, when
    the lock of the session is free again. [chat_stream] is what the provider adds
    to [Environment]. *)

From S2P Require Import Prelude Errors Provider Hooks Approval Context Compaction Budget LoopGuard.
From S2P Require Import Safety Taint AuditChain Gate Sanitize ToolRun Cache Session AgentLoop.

(** ** Streams *)

Inductive StreamEvent : Type :=
| Delta (text : string)
| ToolCalls (calls : list LLMToolCall)
| Done (content : string) (usage : option (Z * Z))
| Error (e : ZeptoError).

Class StreamProvider (S : Type) := {
  chat_stream : list Message → list ToolDefinition → M S (result ZeptoError (list StreamEvent));
}.

(** The provider trait's stream for providers without one. *)
Definition default_stream {S} (chat : list Message → list ToolDefinition → M S (result ZeptoError LLMResponse))
    (messages : list Message) (defs : list ToolDefinition) : M S (result ZeptoError (list StreamEvent)) :=
  λ s, let '(r, s) := chat messages defs s in
       (match r with
        | Err e => Err e
        | Ok r =>
          Ok ((if str_is_empty (lr_content r) then [] else [Delta (lr_content r)]) ++
              (if has_tool_calls r then [ToolCalls (lr_tool_calls r)] else []) ++
              [Done (lr_content r) (lr_usage r)])
        end, s).

(** What the function gives its caller: the one event of an answer that is saved
    already, or a stream with the session its task will save. *)
Inductive Streamed : Type :=
| Whole (event : StreamEvent)
| Stream (session : list Message) (events : list StreamEvent).

Section streaming.
Context {S : Type} `{Environment S} `{StreamProvider S} `{RustUnicode} `{RustRegex}.
Context (sha256 : string → string) (json_normalized : string → option string).
Context (budget_summary : TokenBudget → string).
Implicit Types (cfg : LoopConfig) (st : LoopState).

(** The tool calls of the reply are dropped. *)
Definition without_calls st : LoopState := with_response st (AgentLoop.with_batch (reply st) []).

(** The body of the loop: [iterate] with another end at the limit of tool calls. *)
Definition stream_iterate cfg st : Res S Next :=
  match limit_batch (tracker st) (lr_tool_calls (reply st)) with
  | None => retR (Stop st)
  | Some batch =>
    let! executed := execute_batch cfg st batch in
    let '(st, results) := executed in
    let! sess := pureR (compact_in_loop cfg (session st)) in
    let st := with_session st sess in
    if any out_pause results then retR (Stop st)
    else
      let st := with_tracker st (count_batch (tracker st) batch) in
      if ToolCallLimitTracker.is_exceeded (tracker st) then retR (Stop (without_calls st))
      else
        let '(stop, st) := guard_checks sha256 json_normalized st results in
        if stop then retR (Stop st)
        else if TokenBudget.is_exceeded (tokens st) then retR (Stop st)
        else let! st := ask_again cfg st in retR (Again st)
  end.

Fixpoint stream_loop cfg (iterations : nat) st : Res S LoopState :=
  if negb (has_tool_calls (reply st)) then retR st
  else
    match iterations with
    | O => retR st
    | Datatypes.S iterations =>
      let! next := stream_iterate cfg st in
      match next with
      | Stop st => retR st
      | Again st => stream_loop cfg iterations st
      end
    end.

(** What comes before the loop. *)
Definition first_request cfg (channel : string) (user_message : Message) : Res S LoopState :=
  let tokens := TokenBudget.reset (TokenBudget.new (token_limit_of_run cfg)) in
  let tracker := ToolCallLimitTracker.reset (ToolCallLimitTracker.new (max_tool_calls cfg)) in
  if scan_inbound cfg && s_was_modified (check_injection (content user_message))
     && String.eqb channel "webhook"
  then failR (Errors.Tool "Message rejected: potential prompt injection detected")
  else
    let! configured := effR provider_configured in
    if negb configured then failR (Errors.Provider "No provider configured")
    else
      let! history := tryR get_or_create in
      let! sess := recover_first cfg (history ++ [user_message]) in
      let! messages := effR (build_resolved_messages sess) in
      let! defs := effR tool_definitions in
      let! checked := preflight cfg sess messages defs in
      let '(sess, messages) := checked in
      if TokenBudget.is_exceeded tokens
      then failR (Errors.Provider ("Token budget exceeded: " +:+ budget_summary tokens))
      else
        let! called := llm_call cfg 8 defs tool_definitions sess messages in
        let '(response, sess) := called in
        retR (mkLoopState sess response tracker (record_usage tokens response) ChainTracker.new
                (if LoopGuard.enabled (guard_config cfg) then Some (LoopGuard.new (guard_config cfg)) else None)).

(** The answer: streamed when the model wants no tools. *)
Definition answer st : Res S Streamed :=
  if has_tool_calls (reply st) then
    let! _ := tryR (save_session (session st ++ [Message.assistant (lr_content (reply st))])) in
    retR (Whole (Done (lr_content (reply st)) (lr_usage (reply st))))
  else
    let! messages := effR (build_resolved_messages (session st)) in
    let! events := tryR (chat_stream messages []) in
    retR (Stream (session st) events).

Definition process_message_streaming cfg (channel : string) (user_message : Message) : Res S Streamed :=
  let! st := first_request cfg channel user_message in
  let! st := stream_loop cfg (max_tool_iterations cfg) st in
  answer st.

(** The task behind a stream. [room]: how many events the receiver takes before it
    is dropped. *)
Fixpoint forward (sess : list Message) (room : nat) (events : list StreamEvent) {struct events} : M S (list StreamEvent) :=
  match events with
  | [] => ret []
  | Done content usage :: _ =>
    λ s, let '(_, s) := save_session (sess ++ [Message.assistant content]) s in
         (match room with O => [] | _ => [Done content usage] end, s)
  | ToolCalls calls :: _ => ret (match room with O => [] | _ => [ToolCalls calls] end)
  | event :: events =>
    match room with
    | O => ret []
    | Datatypes.S room => λ s, let '(sent, s) := forward sess room events s in (event :: sent, s)
    end
  end.

(** A receiver that stays to the end gets these events. *)
Definition received (r : Streamed) : M S (list StreamEvent) :=
  match r with
  | Whole event => ret [event]
  | Stream sess events => forward sess (length events) events
  end.
End streaming.

(** ** The two runs side by side *)

Section agreement.
Context {S : Type} `{Environment S} `{StreamProvider S} `{RustUnicode} `{RustRegex}.
Context (sha256 : string → string) (json_normalized : string → option string).
Context (budget_summary : TokenBudget → string).
Implicit Types (cfg : LoopConfig) (st : LoopState).

Notation stream_iterate := (stream_iterate sha256 json_normalized).
Notation stream_loop := (stream_loop sha256 json_normalized).
Notation first_request := (first_request budget_summary).

Lemma bindR_ext {A B} (m : Res S A) (f g : A → Res S B) s :
  (∀ a s1, m s = (Ret (Ok a), s1) → f a s1 = g a s1) → bindR m f s = bindR m g s.
Proof. unfold bindR. destruct (m s) as [[[a|e]|] s1]; intros Hfg; [by apply Hfg|done..]. Qed.

Lemma bindR_assoc {A B C} (m : Res S A) (f : A → Res S B) (g : B → Res S C) s :
  bindR (bindR m f) g s = bindR m (λ a, bindR (f a) g) s.
Proof. unfold bindR. by destruct (m s) as [[[a|e]|] s1]. Qed.

Lemma execute_batch_tracker cfg st batch s st' results s2 :
  execute_batch cfg st batch s = (Ret (Ok (st', results)), s2) → tracker st' = tracker st.
Proof.
  unfold execute_batch. intros (b & s1 & _ & (rs & s3 & _ & Hret)%bindR_ok)%bindR_ok.
  destruct (ChainTracker.record _ _). by apply retR_ok in Hret as [[= <- _] _].
Qed.

Lemma ask_again_tracker cfg st s st' s2 :
  ask_again cfg st s = (Ret (Ok st'), s2) → tracker st' = tracker st.
Proof.
  unfold ask_again.
  intros (defs & s0 & _ & (ms & s1 & _ & ([sess messages] & s3 & _ & Hrest)%bindR_ok)%bindR_ok)%bindR_ok.
  apply bindR_ok in Hrest as ([r sess'] & s4 & _ & Hret). by apply retR_ok in Hret as [<- _].
Qed.

Lemma stream_iterate_tracker cfg st s st' s2 :
  stream_iterate cfg st s = (Ret (Ok (Again st')), s2) → limit (tracker st') = limit (tracker st).
Proof.
  unfold Streaming.stream_iterate. destruct (limit_batch _ _) as [batch|]; [|by intros [? _]%retR_ok].
  intros ([st1 results] & s1 & Ht%execute_batch_tracker & (sess & s3 & _ & Hrest)%bindR_ok)%bindR_ok.
  destruct (any _ _); [by apply retR_ok in Hrest as [? _]|].
  destruct (ToolCallLimitTracker.is_exceeded _); [by apply retR_ok in Hrest as [? _]|].
  pose proof (guard_checks_tracker sha256 json_normalized
    (with_tracker (with_session st1 sess) (count_batch (tracker (with_session st1 sess)) batch)) results) as Hg.
  destruct (guard_checks _ _ _ results) as [[] st2]; [by apply retR_ok in Hrest as [? _]|].
  destruct (TokenBudget.is_exceeded _); [by apply retR_ok in Hrest as [? _]|].
  apply bindR_ok in Hrest as (st3 & s4 & Ha%ask_again_tracker & Hret).
  apply retR_ok in Hret as [[= <-] _]. rewrite Ha. cbn in Hg. rewrite Hg. cbn. by rewrite Ht.
Qed.

Lemma iterate_agrees cfg st s :
  limit (tracker st) = None → iterate sha256 json_normalized cfg st s = stream_iterate cfg st s.
Proof.
  intros Hl. unfold iterate, Streaming.stream_iterate. destruct (limit_batch _ _) as [batch|]; [|done].
  apply bindR_ext. intros [st1 results] s1 Ht%execute_batch_tracker. apply bindR_ext. intros sess s2 _.
  destruct (any _ _); [done|]. cbn [tracker with_session with_tracker].
  unfold ToolCallLimitTracker.is_exceeded. cbn [limit count_batch]. unfold count_batch, ToolCallLimitTracker.increment.
  cbn [limit]. by rewrite Ht, Hl.
Qed.

Lemma loop_agrees cfg n st s :
  limit (tracker st) = None → tool_loop sha256 json_normalized cfg n st s = stream_loop cfg n st s.
Proof.
  revert st s. induction n as [|n IH]; intros st s Hl; cbn [tool_loop Streaming.stream_loop];
    destruct (negb _); try done.
  unfold bindR. rewrite iterate_agrees by done. destruct (stream_iterate cfg st s) as [[[[st1|st1]|e]|] s1] eqn:Hi; try done.
  apply IH. rewrite <- Hl. by eapply stream_iterate_tracker.
Qed.

(** C9: Without a limit on tool calls and without the cache, a streamed run does the
    same work as a plain one, request by request and call by call, before the one
    saves its reply and the other asks for it as a stream. *)
Theorem streaming_agrees cfg channel user_message s :
  max_tool_calls cfg = None → cache_enabled cfg = false →
  let work := bindR (first_request cfg channel user_message) (stream_loop cfg (max_tool_iterations cfg)) in
  run_message sha256 json_normalized budget_summary cfg channel user_message s
    = bindR work (λ st, finish (session st) (lr_content (reply st))) s ∧
  process_message_streaming sha256 json_normalized budget_summary cfg channel user_message s = bindR work answer s.
Proof.
  intros Hl Hc. cbv zeta. split; [|unfold process_message_streaming; by rewrite bindR_assoc].
  rewrite bindR_assoc. unfold run_message, Streaming.first_request. rewrite Hc.
  destruct (scan_inbound cfg && _ && _); [done|]. rewrite bindR_assoc. apply bindR_ext. intros c s1 _.
  destruct (negb c); [done|]. rewrite bindR_assoc. apply bindR_ext. intros history s2 _.
  rewrite bindR_assoc. apply bindR_ext. intros sess s3 _. rewrite bindR_assoc. apply bindR_ext. intros ms s4 _.
  rewrite bindR_assoc. apply bindR_ext. intros defs s5 _. rewrite bindR_assoc. apply bindR_ext.
  intros [sess1 messages] s6 _. destruct (TokenBudget.is_exceeded _); [done|].
  unfold bindR at 1, effR at 1, ret at 1. rewrite bindR_assoc. apply bindR_ext. intros [response sess2] s7 _.
  unfold bindR, effR, ret, retR. cbn [andb negb]. unfold ret. by rewrite loop_agrees by (cbn; by rewrite Hl).
Qed.
End agreement.

(** ** The session of a stream *)

(** The events up to the first that ends the answer, and the content that is saved. *)
Fixpoint up_to_end (events : list StreamEvent) : list StreamEvent :=
  match events with
  | [] => []
  | (Done _ _ | ToolCalls _) as e :: _ => [e]
  | e :: events => e :: up_to_end events
  end.

Definition saved_content (events : list StreamEvent) (room : nat) : option string :=
  match last (up_to_end events) with
  | Some (Done text _) => if Nat.leb (length (up_to_end events)) (S room) then Some text else None
  | _ => None
  end.

Section transcript.
Context {S : Type} `{Environment S} `{StreamProvider S} `{RustUnicode} `{RustRegex}.
Context (sha256 : string → string) (json_normalized : string → option string).
Context (budget_summary : TokenBudget → string).
Implicit Types (cfg : LoopConfig) (st : LoopState).

Lemma forward_spec sess room events s :
  forward sess room events s =
  (take room (up_to_end events),
   match saved_content events room with
   | Some text => snd (save_session (sess ++ [Message.assistant text]) s)
   | None => s
   end).
Proof.
  unfold saved_content. revert room s. induction events as [|e events IH]; intros room s; [by destruct room|].
  assert (∀ e', forward sess room (e' :: events) s =
            match room with O => ([], s) | Datatypes.S room => let '(sent, s) := forward sess room events s in (e' :: sent, s) end →
          up_to_end (e' :: events) = e' :: up_to_end events → (∀ t u, e' ≠ Done t u) →
          forward sess room (e' :: events) s =
          (take room (up_to_end (e' :: events)),
           match match last (up_to_end (e' :: events)) with
                 | Some (Done text _) => if Nat.leb (length (up_to_end (e' :: events))) (Datatypes.S room) then Some text else None
                 | _ => None
                 end with
           | Some text => snd (save_session (sess ++ [Message.assistant text]) s)
           | None => s
           end)) as Hmore.
  { intros e' -> -> Hd. destruct room as [|room].
    - cbn [take]. destruct (up_to_end events) as [|e1 es] eqn:Hes.
      + cbn. destruct e'; try done. by destruct (Hd content usage).
      + cbn [length Nat.leb]. by destruct (last _) as [[]|].
    - rewrite IH. cbn [take length]. destruct (up_to_end events) as [|e1 es] eqn:Hes; [|done].
      cbn. destruct e'; try done. by destruct (Hd content usage). }
  destruct e as [t|calls|t u|err]; [by apply Hmore; destruct room| | |by apply Hmore; destruct room].
  - by destruct room as [|[]].
  - cbn -[save_session]. destruct (save_session _ s) as [r s2]. by destruct room as [|[]].
Qed.

Lemma stream_iterate_extends cfg st s next s2 :
  monitor cfg = None → stream_iterate sha256 json_normalized cfg st s = (Ret (Ok next), s2) →
  match next with Stop st' | Again st' => extends st st' end.
Proof.
  intros Hmonitor. unfold stream_iterate. destruct (limit_batch _ _) as [batch|].
  2: { intros [<- _]%retR_ok. apply extends_refl. }
  intros ([st1 results] & s1 & Hex & (sess & s3 & Hc & Hrest)%bindR_ok)%bindR_ok.
  apply execute_batch_extends in Hex. destruct Hex as (a & Ha & Hr).
  unfold compact_in_loop in Hc. rewrite Hmonitor in Hc. apply pureR_ok in Hc as [[= <-] _].
  destruct (any out_pause results); [apply retR_ok in Hrest as [<- _]; by exists a|].
  destruct (ToolCallLimitTracker.is_exceeded _); [apply retR_ok in Hrest as [<- _]; by exists a|].
  pose proof (guard_checks_extends sha256 json_normalized (with_tracker (with_session st1 (session st1))
    (count_batch (tracker (with_session st1 (session st1))) batch)) results) as Hg.
  destruct (guard_checks _ _ _ results) as [stop st2]. cbn [snd] in Hg.
  assert (extends st st2) as Hst by (eapply extends_trans; [|exact Hg]; by exists a).
  destruct stop; [by apply retR_ok in Hrest as [<- _]|].
  destruct (TokenBudget.is_exceeded _); [by apply retR_ok in Hrest as [<- _]|].
  apply bindR_ok in Hrest as (st3 & s4 & Hask & Hret). apply retR_ok in Hret as [<- _].
  apply ask_again_extends in Hask; [|done]. by eapply extends_trans.
Qed.

Lemma stream_loop_extends cfg n st s st' s2 :
  monitor cfg = None → stream_loop sha256 json_normalized cfg n st s = (Ret (Ok st'), s2) → extends st st'.
Proof.
  intros Hm. revert st s. induction n as [|n IH]; intros st s; cbn [stream_loop];
    destruct (negb (has_tool_calls (reply st))); try (intros [<- _]%retR_ok; apply extends_refl).
  intros (next & s1 & Hi & Hrest)%bindR_ok. apply stream_iterate_extends in Hi; [|done].
  destruct next as [st1|st1]; [by apply retR_ok in Hrest as [<- _]|].
  eapply extends_trans; [done|]. by eapply IH.
Qed.

Lemma first_request_session cfg channel user_message s st s2 :
  monitor cfg = None → first_request budget_summary cfg channel user_message s = (Ret (Ok st), s2) →
  ∃ history s1, get_or_create (snd (provider_configured s)) = (Ok history, s1) ∧
    session st = history ++ [user_message].
Proof.
  intros Hmon. unfold first_request. destruct (scan_inbound cfg && _ && _); [done|].
  intros (configured & s0 & Hp%effR_ok & Hrun)%bindR_ok. rewrite Hp. cbn [snd].
  destruct configured; [|done]. cbn [negb] in Hrun.
  apply bindR_ok in Hrun as (h & s3 & Hg & (sess & s4 & Hr & Hrest)%bindR_ok). exists h, s3.
  split. { unfold tryR in Hg. by destruct (get_or_create s0) as [[] ?]; simplify_eq. }
  unfold recover_first in Hr. rewrite Hmon in Hr. apply retR_ok in Hr as [<- _].
  apply bindR_ok in Hrest as (messages & s5 & _ & (defs & s6 & _ & Hrest)%bindR_ok).
  apply bindR_ok in Hrest as ([sess1 messages1] & s7 & Hp1 & Hrest).
  apply preflight_same in Hp1 as [[= -> ->] _]; [|done].
  destruct (TokenBudget.is_exceeded _); [done|].
  apply bindR_ok in Hrest as ([response sess2] & s9 & Hcall & Hret).
  apply llm_call_same in Hcall as ->; [|done]. by apply retR_ok in Hret as [<- _].
Qed.

(** C10: The transcript of a streamed run, when compaction is off: the history, the
    message and complete rounds. An answer given whole is saved with them before it
    is returned. Of a stream, the receiver gets the events up to the first that ends
    the answer, as far as it stays; and the session is saved with the content of
    that event if it is the end of the stream and nobody left before it, and
    otherwise not at all. *)
Theorem streaming_transcript cfg channel user_message s history s1 r s2 :
  monitor cfg = None → get_or_create (snd (provider_configured s)) = (Ok history, s1) →
  rounds history → role user_message = User → tool_calls user_message = None →
  process_message_streaming sha256 json_normalized budget_summary cfg channel user_message s = (Ret (Ok r), s2) →
  ∃ added, rounds (history ++ [user_message] ++ added) ∧
  match r with
  | Whole e => ∃ text usage s', e = Done text usage ∧
      save_session (history ++ [user_message] ++ added ++ [Message.assistant text]) s' = (Ok tt, s2)
  | Stream sess events =>
      sess = history ++ [user_message] ++ added ∧
      ∀ room s3, forward sess room events s3 =
        (take room (up_to_end events),
         match saved_content events room with
         | Some text => snd (save_session (history ++ [user_message] ++ added ++ [Message.assistant text]) s3)
         | None => s3
         end)
  end.
Proof.
  intros Hmon Hget Hh Hu Hc. unfold process_message_streaming.
  intros (st & s3 & Hf & (st1 & s4 & Hl & Ha)%bindR_ok)%bindR_ok.
  apply first_request_session in Hf as (h & s5 & Hg & Hs); [|done]. rewrite Hget in Hg. injection Hg as <- <-.
  apply stream_loop_extends in Hl as (added & Hadd & Hr); [|done]. rewrite Hs, <- app_assoc in Hadd.
  exists added. split.
  { apply rounds_app; [done|]. constructor; [by rewrite Hu|done|done]. }
  unfold answer in Ha. destruct (has_tool_calls (reply st1)).
  - apply bindR_ok in Ha as ([] & s6 & Hsave & Hret). apply retR_ok in Hret as [<- ->].
    eexists _, _, s4. split; [done|]. unfold tryR in Hsave. rewrite Hadd, <- !app_assoc in Hsave.
    destruct (save_session _ s4) as [w s7]. by injection Hsave as -> ->.
  - apply bindR_ok in Ha as (ms & s6 & _ & (events & s7 & _ & Hret)%bindR_ok). apply retR_ok in Hret as [<- _].
    split; [done|]. intros room s8. rewrite forward_spec, Hadd.
    destruct (saved_content events room); [by rewrite <- !app_assoc|done].
Qed.
End transcript.

(** ** Examples *)

Module Example_streaming.
Import Example_agent.

#[global] Instance scripted_stream : StreamProvider Script := {| chat_stream := default_stream chat |}.

Definition plain (cfg : LoopConfig) (text : string) :=
  run_message (H1 := Literal.regex) (λ x, x) Some (λ _, "") cfg "cli" (Message.user text).
Definition streamed (cfg : LoopConfig) (text : string) :=
  process_message_streaming (H2 := Literal.regex) (λ x, x) Some (λ _, "") cfg "cli" (Message.user text).

Definition start (script : list LLMResponse) : Script := mkScript script [] [] [] [].
Definition no_limit : LoopConfig := config 1000 None None.

(** The task of the stream runs at once. *)
Definition all (cfg : LoopConfig) (text : string) (s : Script) : option (list StreamEvent) * Script :=
  match streamed cfg text s with
  | (Ret (Ok r), s) => let '(events, s) := received r s in (Some events, s)
  | (_, s) => (None, s)
  end.

(** The answer is asked for twice: the second time as a stream. *)
Example streamed_run :
  let '(events, s) := all no_limit "hi" (start [wants ["a"]; says "draft"; says "final"]) in
  events = Some [Delta "final"; Done "final" None] ∧ length (requests s) = 3%nat ∧
  map content (stored s) = ["hi"; ""; "ran a"; "final"].
Proof. vm_compute. split_and!; reflexivity. Qed.

(** At the limit of tool calls the stream is asked for without tools. *)
Example limited_stream :
  let '(events, s) := all (config 1000 None (Some 1)) "hi" (start [wants ["a"; "b"]; says "final"]) in
  events = Some [Delta "final"; Done "final" None] ∧ executed s = ["echo"] ∧
  map role (stored s) = [User; Assistant; Tool; Assistant].
Proof. vm_compute. split_and!; reflexivity. Qed.

(** A model that asks for tools in the stream: the task ends, and the message and
    the calls that were executed are not saved. *)
Example calls_not_saved :
  let '(events, s) := all no_limit "hi" (start [wants ["a"]; says "draft"; wants ["b"]]) in
  events = Some [ToolCalls (lr_tool_calls (wants ["b"]))] ∧ executed s = ["echo"] ∧ stored s = [].
Proof. vm_compute. split_and!; reflexivity. Qed.

(** The lock of the session is free when the stream starts. A message that is
    handled before the stream ends is gone when the stream's session is saved. *)
Example lost_update :
  match streamed no_limit "first" (start [says "draft"; says "one"; says "two"]) with
  | (Ret (Ok (Stream sess events)), s) =>
    let s := snd (plain no_limit "second" s) in
    (map content (stored s), map content (stored (snd (forward sess (length events) events s))))
  | _ => ([], [])
  end = (["second"; "two"], ["first"; "one"]).
Proof. vm_compute. reflexivity. Qed.
End Example_streaming.

Lemma streaming_agrees_witness :
  let s := Example_streaming.start [Example_agent.wants ["a"]; Example_agent.says "draft"; Example_agent.says "final"] in
  ∃ st s', bindR (first_request (λ _, "") Example_streaming.no_limit "cli" (Message.user "hi"))
                 (stream_loop (λ x, x) Some Example_streaming.no_limit 10) s = (Ret (Ok st), s') ∧
    Example_streaming.plain Example_streaming.no_limit "hi" s = finish (session st) "draft" s' ∧
    Example_streaming.streamed Example_streaming.no_limit "hi" s = answer st s'.
Proof.
  intros s.
  destruct (streaming_agrees (H2 := Literal.regex) (λ x, x) Some (λ _, "") Example_streaming.no_limit "cli"
    (Message.user "hi") s eq_refl eq_refl) as [Hp Hs].
  eexists _, _. split; [vm_compute; reflexivity|]. split; [etrans; [exact Hp|]|etrans; [exact Hs|]]; vm_compute; reflexivity.
Defined.

Lemma streaming_transcript_witness :
  let s := Example_streaming.start [Example_agent.wants ["a"]; Example_agent.says "draft"; Example_agent.says "final"] in
  ∃ sess events s2 added,
    Example_streaming.streamed Example_streaming.no_limit "hi" s = (Ret (Ok (Stream sess events)), s2) ∧
    sess = [Message.user "hi"] ++ added ∧ rounds sess.
Proof.
  intros s. destruct (Example_streaming.streamed Example_streaming.no_limit "hi" s) as [[[[e|sess events]|e]|] s2] eqn:Hrun;
    try (vm_compute in Hrun; discriminate Hrun).
  destruct (streaming_transcript (H2 := Literal.regex) (λ x, x) Some (λ _, "") Example_streaming.no_limit
    "cli" (Message.user "hi") s [] s (Stream sess events) s2) as (added & Hr & Hs & _);
    [reflexivity|reflexivity|constructor|reflexivity|reflexivity|exact Hrun|].
  exists sess, events, s2, added. split; [reflexivity|]. split; [exact Hs|]. rewrite Hs. exact Hr.
Defined.
