(* ===== verification/Dispatch.v ===== *)
(** The event loop of the agent: [AgentLoop::start] of src/src/agent/loop.rs with
    everything between the bus and [process_message]: the pairing check, the
    queue of messages for busy sessions, the session locks, the replies of a run,
    plain or streamed, and what is published again when a run ends.

    The loop is a machine: a phase, and one step for each point where the code
    waits. Other tasks publish messages, take replies from the bus, hold session
    locks (they call [process_message] themselves) and stop the loop; their steps
    come in between in any order. What a run of [process_message] answers is an
    input. The extraction of A2UI messages from a text is a parameter. *)

From Stdlib Require Import Wellfounded.Inverse_Image.
From S2P Require Import Prelude Errors Bus Pairing Admission.

(** ** Replies *)

Definition ACP_HTTP_CHANNEL : string := "acp_http".
Definition ACP_STDIO_CHANNEL : string := "acp".
Definition STREAMING_CAPABLE_METADATA_KEY : string := "streaming_capable".
Definition A2UI : string := "ui:a2ui".

Definition supports_custom_ui_channel (channel : string) : bool :=
  String.eqb channel ACP_HTTP_CHANNEL || String.eqb channel ACP_STDIO_CHANNEL.

Definition is_streaming_capable (msg : InboundMessage) : bool :=
  bool_decide (metadata msg !! STREAMING_CAPABLE_METADATA_KEY = Some "true").

Definition propagate_key (inb : InboundMessage) (out : OutboundMessage) (k : string) : OutboundMessage :=
  match metadata inb !! k with Some v => OutboundMessage.with_metadata out k v | None => out end.

Definition routing_keys : list string :=
  ["telegram_thread_id"; "telegram_message_id"; "discord_message_id"].

Definition propagate_routing_metadata (out : OutboundMessage) (inb : InboundMessage) : OutboundMessage :=
  foldl (propagate_key inb) out routing_keys.

(** The events of a streamed answer; a list of tool calls is ignored. *)
Inductive StreamEvent : Type :=
| Delta (text : string)
| ToolCalls
| Done (content : string)
| StreamError (e : ZeptoError).

(** How a run ends. A streamed run gives the events received from its stream;
    [timed_out] tells whether the timeout came while it waited for more. *)
Inductive RunResult : Type :=
| Replied (response : string)
| Failed (e : ZeptoError)
| TimedOut
| Streamed (events : list StreamEvent) (timed_out : bool).

Record DispatchConfig : Type := mkDispatchConfig {
  agent_timeout_secs : Z;
  collect_mode : bool;       (* [MessageQueueMode::Collect]; otherwise [Followup] *)
}.

Section replies.
Context `{RustUnicode}.
Context (extract_a2ui : string → string * list string) (cfg : DispatchConfig).
Implicit Types (msg : InboundMessage).

Definition resolve_streamed_response_text (delta_accum done_content : string) : string :=
  if str_is_empty (trim done_content) then delta_accum else done_content.

Definition publish_custom_ui_event (channel chat_id event_name payload : string)
    (summary : option string) : list OutboundMessage :=
  if supports_custom_ui_channel channel then
    let out := OutboundMessage.with_metadata
      (OutboundMessage.with_metadata
         (OutboundMessage.with_kind (OutboundMessage.new channel chat_id "") Custom)
         OUTBOUND_CUSTOM_NAME_KEY event_name) OUTBOUND_CUSTOM_PAYLOAD_KEY payload in
    [match summary with
     | Some s => if str_is_empty s then out
                 else OutboundMessage.with_metadata out OUTBOUND_CUSTOM_SUMMARY_KEY s
     | None => out
     end]
  else [].

Definition emit_a2ui_messages (channel chat_id : string) (messages : list string)
    : list OutboundMessage :=
  mjoin (map (λ m, publish_custom_ui_event channel chat_id A2UI m (Some "[a2ui] update")) messages).

(** The text for the user and the messages for its interface. *)
Definition split_a2ui msg (response : string) : string * list OutboundMessage :=
  if supports_custom_ui_channel (channel msg) then
    let '(text, messages) := extract_a2ui response in
    (text, emit_a2ui_messages (channel msg) (chat_id msg) messages)
  else (response, []).

Definition reply msg (text : string) : OutboundMessage :=
  propagate_routing_metadata (OutboundMessage.new (channel msg) (chat_id msg) text) msg.

Definition error_reply msg (text : string) : OutboundMessage :=
  propagate_routing_metadata
    (OutboundMessage.mark_error (OutboundMessage.new (channel msg) (chat_id msg) text)) msg.

Definition chunk msg (text : string) (k : OutboundMessageKind) : OutboundMessage :=
  propagate_routing_metadata
    (OutboundMessage.with_kind (OutboundMessage.new (channel msg) (chat_id msg) text) k) msg.

Definition failure_text (e : ZeptoError) : string := "Error: " +:+ ZeptoError_display e.

Definition timeout_text : string :=
  "Agent run timed out after " +:+ fmt_Z (agent_timeout_secs cfg) +:+ "s. Try a simpler request.".

(** [process_inbound_message]. *)
Definition plain_replies msg (r : RunResult) : list OutboundMessage :=
  match r with
  | Replied response =>
    let '(text, a2ui) := split_a2ui msg response in a2ui ++ [reply msg text]
  | Failed e => [error_reply msg (failure_text e)]
  | _ => [reply msg timeout_text]
  end.

(** The loop over the events of the stream: the chunks it sends, and how it ends;
    [had_delta] and [streamed] are the code's. *)
Inductive StreamEnd : Type :=
| Complete (had_delta : bool) (final_content : string)
| Broken (e : ZeptoError)
| Interrupted.

Fixpoint stream_loop msg (had_delta : bool) (streamed : string) (timed_out : bool)
    (events : list StreamEvent) : list OutboundMessage * StreamEnd :=
  match events with
  | [] => ([], if timed_out then Interrupted else Complete had_delta "")
  | Delta text :: events =>
    let '(outs, e) := stream_loop msg true (streamed +:+ text) timed_out events in
    (chunk msg text Chunk :: outs, e)
  | Done content :: _ => ([], Complete had_delta (resolve_streamed_response_text streamed content))
  | ToolCalls :: _ => ([], Complete had_delta streamed)
  | StreamError e :: _ => ([], Broken e)
  end.

Definition stream_end_replies msg (e : StreamEnd) : list OutboundMessage :=
  match e with
  | Complete had_delta final_content =>
    let '(cleaned, a2ui) := split_a2ui msg final_content in
    a2ui ++ [if had_delta then chunk msg "" ChunkEnd else reply msg cleaned]
  | Broken e => [error_reply msg (failure_text e)]
  | Interrupted => [error_reply msg timeout_text]
  end.

(** [process_inbound_message_streaming]; a run can fail, or time out, before there
    is a stream. *)
Definition streamed_replies msg (r : RunResult) : list OutboundMessage :=
  match r with
  | Streamed events timed_out =>
    let '(chunks, e) := stream_loop msg false "" timed_out events in
    chunks ++ stream_end_replies msg e
  | Failed e => stream_end_replies msg (Broken e)
  | _ => stream_end_replies msg Interrupted
  end.

Definition should_stream msg (streaming : bool) : bool := is_streaming_capable msg && streaming.

Definition replies msg (streaming : bool) (r : RunResult) : list OutboundMessage :=
  if should_stream msg streaming then streamed_replies msg r else plain_replies msg r.
End replies.

(** Which results a run of a message can have. *)
Definition result_of_kind (stream : bool) (r : RunResult) : bool :=
  match r with
  | Replied _ => negb stream
  | Streamed _ _ => stream
  | Failed _ | TimedOut => true
  end.

(** ** The loop *)

Inductive Phase : Type :=
| Stopped
| Selecting                                   (* in [select!] *)
| Waiting (msg : InboundMessage)              (* for the lock of the session *)
| Running (msg : InboundMessage)              (* in [process_message] *)
| Sending (outs : list OutboundMessage) (msg : InboundMessage)
| Rejecting (out : OutboundMessage)
| Requeueing (msgs : list InboundMessage).    (* what was pending *)

(** What happens to messages. *)
Inductive Event : Type :=
| Accepted (msg : InboundMessage)             (* into the queue of the bus *)
| Intercepted (msg : InboundMessage)
| Rejected (msg : InboundMessage)
| Queued (msg : InboundMessage)
| Answered (msg : InboundMessage) (outs : list OutboundMessage)
| Collected (msgs : list InboundMessage) (msg : InboundMessage)
| Sent (out : OutboundMessage)
| Delivered (out : OutboundMessage).

Inductive Input : Type :=
(* other tasks *)
| Publish (msg : InboundMessage)
| Deliver
| Lock (k : string)
| Unlock (k : string)
| Start
| Stop
(* the loop *)
| Shutdown
| Consume (r : Readings)
| AcquireLock
| EndRun (r : RunResult)
| SendNext
| Drain
| RequeueNext.

Section loop.
Context `{RustUnicode} `{MapOrder Z} {I : Type}.
Context (sha256 : string → string) (extract_a2ui : string → string * list string).
Context (cfg : DispatchConfig).

Record Agent : Type := mkAgent {
  bus : MessageBus I;
  running : bool;
  shutdown : bool;                            (* a signal the loop has not seen *)
  streaming : bool;
  pairing : option PairingManager;
  held : gset string;                         (* locks that other tasks hold *)
  pending_messages : gmap string (list InboundMessage);
  phase : Phase;
}.

Implicit Types (st : Agent) (msg : InboundMessage).

Definition set_bus st b : Agent :=
  mkAgent b (running st) (shutdown st) (streaming st) (pairing st) (held st) (pending_messages st) (phase st).
Definition set_pairing st p : Agent :=
  mkAgent (bus st) (running st) (shutdown st) (streaming st) p (held st) (pending_messages st) (phase st).
Definition set_held st h : Agent :=
  mkAgent (bus st) (running st) (shutdown st) (streaming st) (pairing st) h (pending_messages st) (phase st).
Definition set_pending st p : Agent :=
  mkAgent (bus st) (running st) (shutdown st) (streaming st) (pairing st) (held st) p (phase st).
Definition goto st p : Agent :=
  mkAgent (bus st) (running st) (shutdown st) (streaming st) (pairing st) (held st) (pending_messages st) p.

Definition new (b : MessageBus I) (streaming : bool) (p : option PairingManager) : Agent :=
  mkAgent b false false streaming p ∅ ∅ Stopped.

(** [start] up to its loop: the stale signal is consumed. *)
Definition start st : result ZeptoError unit * Agent :=
  if running st then (Err (Config "Agent loop already running"), st)
  else (Ok tt, mkAgent (bus st) true false (streaming st) (pairing st) (held st)
                 (pending_messages st) Selecting).

Definition stop st : Agent :=
  mkAgent (bus st) false true (streaming st) (pairing st) (held st) (pending_messages st) (phase st).

(** The end of [start]. *)
Definition finish st : Agent :=
  mkAgent (bus st) false (shutdown st) (streaming st) (pairing st) (held st) (pending_messages st) Stopped.

(** The end of a round of the loop. *)
Definition next_round st : Agent := if running st then goto st Selecting else finish st.

(** The lock of a session is taken by the loop itself while a message runs. *)
Definition is_locked st (k : string) : bool :=
  bool_decide (k ∈ held st) ||
  match phase st with Running msg => String.eqb (session_key msg) k | _ => false end.

Definition try_queue st msg : bool * Agent :=
  if is_locked st (session_key msg) then
    (true, set_pending st (<[session_key msg := default [] (pending_messages st !! session_key msg) ++ [msg]]>
                             (pending_messages st)))
  else (false, st).

Fixpoint numbered (i : nat) (msgs : list InboundMessage) : list string :=
  match msgs with
  | [] => []
  | m :: msgs => (fmt_nat i +:+ ". " +:+ content m) :: numbered (S i) msgs
  end.

Definition collected_content (msgs : list InboundMessage) : string :=
  "[Queued messages while I was busy]" +:+ newline +:+ newline +:+ join newline (numbered 1 msgs).

Definition synthetic msg (msgs : list InboundMessage) : InboundMessage :=
  InboundMessage.new (channel msg) (sender_id msg) (chat_id msg) (collected_content msgs).

(** [drain_pending_messages]: what is to be published again. *)
Definition drained msg (pending : list InboundMessage) : list InboundMessage * list Event :=
  match pending with
  | [] => ([], [])
  | _ =>
    if collect_mode cfg
    then ([synthetic msg pending], [Collected pending (synthetic msg pending)]) else (pending, [])
  end.

Definition drain st msg : list InboundMessage * list Event * Agent :=
  (drained msg (default [] (pending_messages st !! session_key msg)),
   set_pending st (delete (session_key msg) (pending_messages st))).

Definition publish st msg : option (Agent * list Event) :=
  '(r, b) ← MessageBus.publish_inbound_with_status (bus st) msg;
  Some (set_bus st b,
        match r with Ok true => [Intercepted msg] | Ok false => [Accepted msg] | Err _ => [] end).

Definition send_out st (out : OutboundMessage) : option Agent :=
  '(_, b) ← MessageBus.publish_outbound (bus st) out; Some (set_bus st b).

(** The branch of [select!] that got a message. *)
Definition handle st msg (r : Readings) : Agent * list Event :=
  let '(verdict, p) := agent_admit sha256 (pairing st) msg r in
  let st := set_pairing st p in
  match verdict with
  | Processed =>
    let '(queued, st) := try_queue st msg in
    if queued then (next_round st, [Queued msg]) else (goto st (Waiting msg), [])
  | Admission.Rejected text => (goto st (Rejecting (reply msg text)), [Rejected msg])
  | Skipped => (st, [])
  end.

Definition step st (i : Input) : option (Agent * list Event) :=
  match i, phase st with
  | Publish msg, _ => publish st msg
  | Deliver, _ =>
    '(out, b) ← MessageBus.consume_outbound (bus st); Some (set_bus st b, [Delivered out])
  | Lock k, _ => if is_locked st k then None else Some (set_held st ({[k]} ∪ held st), [])
  | Unlock k, _ => if bool_decide (k ∈ held st) then Some (set_held st (held st ∖ {[k]}), []) else None
  | Start, Stopped => match start st with (Ok _, st) => Some (st, []) | _ => None end
  | Stop, _ => Some (stop st, [])
  | Shutdown, Selecting => if shutdown st then Some (finish st, []) else None
  | Consume r, Selecting =>
    '(msg, b) ← MessageBus.consume_inbound (bus st); Some (handle (set_bus st b) msg r)
  | AcquireLock, Waiting msg =>
    if is_locked st (session_key msg) then None else Some (goto st (Running msg), [])
  | EndRun TimedOut, Waiting msg =>
    let outs := replies extract_a2ui cfg msg (streaming st) TimedOut in
    Some (goto st (Sending outs msg), [Answered msg outs])
  | EndRun r, Running msg =>
    if result_of_kind (should_stream msg (streaming st)) r then
      let outs := replies extract_a2ui cfg msg (streaming st) r in
      Some (goto st (Sending outs msg), [Answered msg outs])
    else None
  | SendNext, Sending (out :: outs) msg =>
    st ← send_out st out; Some (goto st (Sending outs msg), [Sent out])
  | SendNext, Rejecting out => st ← send_out st out; Some (goto st Selecting, [Sent out])
  | Drain, Sending [] msg =>
    let '(msgs, es, st) := drain st msg in Some (goto st (Requeueing msgs), es)
  | RequeueNext, Requeueing (msg :: msgs) =>
    '(st, es) ← publish st msg; Some (goto st (Requeueing msgs), es)
  | RequeueNext, Requeueing [] => Some (next_round st, [])
  | _, _ => None
  end.

Fixpoint run_loop st (log : list Event) (ins : list Input) : option (Agent * list Event) :=
  match ins with
  | [] => Some (st, log)
  | i :: ins => '(st, es) ← step st i; run_loop st (log ++ es) ins
  end.

(** Where messages and replies are. *)
Definition in_hand st : list InboundMessage :=
  match phase st with
  | Waiting msg | Running msg => [msg]
  | Requeueing msgs => msgs
  | _ => []
  end.
Definition waiting_for_sessions st : list InboundMessage :=
  mjoin (map snd (map_to_list (pending_messages st))).
Definition in_queue st : list InboundMessage := buffer (inbound (bus st)).
Definition in_the_system st : list InboundMessage :=
  in_hand st ++ in_queue st ++ waiting_for_sessions st.
Definition to_send st : list OutboundMessage :=
  match phase st with Sending outs _ => outs | Rejecting out => [out] | _ => [] end.
Definition in_delivery st : list OutboundMessage := buffer (outbound (bus st)).
End loop.

(** *** Logs *)

Definition select_events {A} (f : Event → list A) (log : list Event) : list A := mjoin (map f log).

Definition accepted := select_events (λ e, match e with Accepted m => [m] | _ => [] end).
Definition intercepted := select_events (λ e, match e with Intercepted m => [m] | _ => [] end).
(** Rejected or answered, in the order of the loop. *)
Definition handled :=
  select_events (λ e, match e with Rejected m | Answered m _ => [m] | _ => [] end).
Definition replies_of :=
  select_events (λ e, match e with
                      | Rejected m => [reply m DENIED_TEXT]
                      | Answered _ outs => outs
                      | _ => []
                      end).
(** Messages that a collected one stands for, and the collected ones. *)
Definition merged := select_events (λ e, match e with Collected ms _ => ms | _ => [] end).
Definition collected := select_events (λ e, match e with Collected _ m => [m] | _ => [] end).
Definition sent := select_events (λ e, match e with Sent o => [o] | _ => [] end).
Definition delivered := select_events (λ e, match e with Delivered o => [o] | _ => [] end).

Definition answers := select_events (λ e, match e with Answered m outs => [(m, outs)] | _ => [] end).

(** What the runs that ended gave, in order. *)
Definition results (ins : list Input) : list RunResult :=
  mjoin (map (λ i, match i with EndRun r => [r] | _ => [] end) ins).

Definition publications (ins : list Input) : list InboundMessage :=
  mjoin (map (λ i, match i with Publish m => [m] | _ => [] end) ins).

Lemma select_events_app {A} (f : Event → list A) l1 l2 :
  select_events f (l1 ++ l2) = select_events f l1 ++ select_events f l2.
Proof. unfold select_events. by rewrite map_app, join_app. Qed.

Lemma publications_cons i ins : publications (i :: ins) = publications [i] ++ publications ins.
Proof. unfold publications. cbn [map mjoin list_join]. by rewrite app_nil_r. Qed.

Lemma results_cons i ins : results (i :: ins) = results [i] ++ results ins.
Proof. unfold results. cbn [map mjoin list_join]. by rewrite app_nil_r. Qed.

(** ** Nothing is lost *)

Section accounting.
Context `{RustUnicode} `{MapOrder Z} {I : Type}.
Context (sha256 : string → string) (extract_a2ui : string → string * list string).
Context (cfg : DispatchConfig).
Implicit Types (st : Agent (I := I)) (msg : InboundMessage).

Notation step := (step sha256 extract_a2ui cfg).
Notation run := (run_loop sha256 extract_a2ui cfg).

(** Permutations of lists of messages, by counting. *)
Lemma permutation_counts (l1 l2 : list InboundMessage) :
  l1 ≡ₚ l2 ↔ ∀ m, count_occ InboundMessage_eq_dec l1 m = count_occ InboundMessage_eq_dec l2 m.
Proof. apply Permutation_count_occ. Qed.

(** Decides permutations of concatenated lists of messages by counting. *)
Ltac by_counting :=
  rewrite !permutation_counts in *; let m := fresh "m" in intros m;
  repeat match goal with H : ∀ _ : InboundMessage, count_occ _ _ _ = count_occ _ _ _ |- _ => specialize (H m) end;
  rewrite ?count_occ_app in *; lia.

Definition waiting_in (p : gmap string (list InboundMessage)) : list InboundMessage :=
  mjoin (map snd (map_to_list p)).

Lemma waiting_delete p k : waiting_in p ≡ₚ default [] (p !! k) ++ waiting_in (delete k p).
Proof.
  unfold waiting_in. destruct (p !! k) as [l|] eqn:Hk; cbn.
  - rewrite <- (insert_delete_id p k l) at 1 by done.
    by rewrite map_to_list_insert by apply lookup_delete_eq.
  - by rewrite delete_id.
Qed.

Lemma waiting_insert p k l : waiting_in (<[k := l]> p) ≡ₚ l ++ waiting_in (delete k p).
Proof. rewrite (waiting_delete _ k), lookup_insert_eq. cbn. by rewrite delete_insert_eq. Qed.

(** The channels of the bus stay open. *)
Definition open_bus st : Prop :=
  closed (inbound (bus st)) = false ∧ closed (outbound (bus st)) = false.

Lemma publish_spec st msg st' es :
  open_bus st → publish st msg = Some (st', es) →
  ∃ b, st' = set_bus st b ∧ outbound b = outbound (bus st) ∧ closed (inbound b) = false ∧
    capacity (inbound b) = capacity (inbound (bus st)) ∧
    ((es = [Intercepted msg] ∧ buffer (inbound b) = in_queue st) ∨
     (es = [Accepted msg] ∧ buffer (inbound b) = in_queue st ++ [msg])).
Proof.
  intros [Hi Ho]. unfold publish, MessageBus.publish_inbound_with_status, in_queue.
  assert (∃ c i, MessageBus.intercept (bus st) msg =
    (c, mkMessageBus (inbound (bus st)) (outbound (bus st)) (inbound_interceptor (bus st)) i))
    as (c & i & ->).
  { unfold MessageBus.intercept. destruct (bus st) as [ib ob [f|] i]; cbn; [|eauto].
    destruct (f i msg) as [c i']; eauto. }
  destruct c; cbn.
  - intros [= <- <-]. eexists. cbn. split_and!; eauto.
  - unfold MessageBus.enqueue, Chan.send. cbn -[Chan.has_room]. rewrite Hi.
    destruct (Chan.has_room (inbound (bus st))); cbn; [|discriminate]. intros [= <- <-]. eexists. cbn. split_and!; eauto.
Qed.

Lemma send_out_spec st out st' :
  open_bus st → send_out st out = Some st' →
  ∃ b, st' = set_bus st b ∧ inbound b = inbound (bus st) ∧ closed (outbound b) = false ∧
    capacity (outbound b) = capacity (outbound (bus st)) ∧
    buffer (outbound b) = in_delivery st ++ [out].
Proof.
  intros [Hi Ho]. unfold send_out, MessageBus.publish_outbound, Chan.send, in_delivery. rewrite Ho.
  destruct (Chan.has_room (outbound (bus st))); cbn; [|discriminate]. intros [= <-]. eexists. split; [done|]. done.
Qed.

Lemma handle_cases st msg r :
  ∃ p, let st' := set_pairing st p in
  handle sha256 st msg r = (goto st' (Rejecting (reply msg DENIED_TEXT)), [Rejected msg]) ∨
  (is_locked st (session_key msg) = true ∧
   handle sha256 st msg r =
     (next_round (set_pending st' (<[session_key msg :=
        default [] (pending_messages st !! session_key msg) ++ [msg]]> (pending_messages st))),
      [Queued msg])) ∨
  (is_locked st (session_key msg) = false ∧ handle sha256 st msg r = (goto st' (Waiting msg), [])).
Proof.
  assert (∃ (v : bool) p, agent_admit sha256 (pairing st) msg r =
    (if v then Processed else Admission.Rejected DENIED_TEXT, p)) as (v & p & Hv).
  { unfold agent_admit. destruct (check_paired _ _ _ _) as [v p]. exists v, p. by destruct v. }
  exists p. unfold handle. rewrite Hv. destruct v; [right|by left]. unfold try_queue.
  change (is_locked (set_pairing st p) (session_key msg)) with (is_locked st (session_key msg)).
  by destruct (is_locked st (session_key msg)); [left|right].
Qed.

Lemma next_round_state st :
  bus (next_round st) = bus st ∧ pending_messages (next_round st) = pending_messages st ∧
  held (next_round st) = held st ∧ in_hand (next_round st) = [] ∧ to_send (next_round st) = [].
Proof. unfold next_round, finish, goto. by destruct (running st). Qed.

(** Messages and replies are where they were, or where the events say. *)
Record accounts (ins : list InboundMessage) st st' (es : list Event) : Prop := {
  acc_messages :
    ins ++ collected es ++ in_the_system st ≡ₚ
    intercepted es ++ handled es ++ merged es ++ in_the_system st';
  acc_sent : sent es ++ to_send st' = to_send st ++ replies_of es;
  acc_delivered : delivered es ++ in_delivery st' = in_delivery st ++ sent es;
}.

Lemma publish_accounts st msg st' es (rest : list InboundMessage) :
  open_bus st → publish st msg = Some (st', es) →
  open_bus st' ∧
  [msg] ++ collected es ++ in_queue st ≡ₚ intercepted es ++ handled es ++ merged es ++ in_queue st' ∧
  sent es = [] ∧ delivered es = [] ∧ replies_of es = [] ∧ in_delivery st' = in_delivery st ∧
  phase st' = phase st ∧ pending_messages st' = pending_messages st ∧ held st' = held st.
Proof.
  intros Hopen Hp. destruct (publish_spec st msg st' es Hopen Hp) as (b & -> & Ho & Hc & _ & He).
  unfold in_delivery, open_bus in *. cbn. rewrite Ho. destruct Hopen as [_ Hopen].
  split; [done|]. split; [|by destruct He as [[-> _]|[-> _]]]. unfold in_queue in *. cbn.
  destruct He as [[-> ->]|[-> ->]]; cbn; [done|]. by rewrite Permutation_app_comm.
Qed.

Lemma accounts_frame st st' :
  bus st' = bus st → pending_messages st' = pending_messages st →
  in_hand st' = in_hand st → to_send st' = to_send st → accounts [] st st' [].
Proof.
  intros Hb Hp Hh Ht. split; unfold in_the_system, in_queue, in_delivery, waiting_for_sessions; cbn.
  - by rewrite Hb, Hp, Hh.
  - by rewrite Ht, app_nil_r.
  - by rewrite Hb, app_nil_r.
Qed.

Lemma publish_step_accounts st msg st' es :
  open_bus st → publish st msg = Some (st', es) → open_bus st' ∧ accounts [msg] st st' es.
Proof.
  intros Ho Hp.
  destruct (publish_accounts _ _ _ _ [] Ho Hp) as (Ho' & Hm & Hs & Hd & Hr & Hdel & Hph & Hpe & _).
  split; [done|]. split; unfold in_the_system, in_hand, to_send, waiting_for_sessions.
  - rewrite Hph, Hpe. set (h := match phase st with Waiting _ => _ | _ => _ end).
    rewrite (Permutation_app_comm h), (Permutation_app_comm h), !app_assoc. do 2 f_equiv.
    rewrite <- !app_assoc. by rewrite Hm.
  - unfold to_send. by rewrite Hph, Hs, Hr, app_nil_r.
  - by rewrite Hs, Hd, Hdel, app_nil_r.
Qed.

Lemma consume_accounts st r st' es :
  open_bus st → phase st = Selecting → step st (Consume r) = Some (st', es) →
  open_bus st' ∧ accounts [] st st' es.
Proof.
  intros Ho Hph. cbn. rewrite Hph. unfold MessageBus.consume_inbound, Chan.recv.
  destruct (buffer (inbound (bus st))) as [|msg q] eqn:Hq; cbn -[handle]; [done|]. intros [= Hh].
  destruct (handle_cases (set_bus st (MessageBus.set_inbound (bus st)
    (mkChan q (capacity (inbound (bus st))) (closed (inbound (bus st)))))) msg r) as (p & Hc).
  destruct Hc as [Hc|[[_ Hc]|[_ Hc]]]; rewrite Hh in Hc; simplify_eq; cbn -[next_round] in *.
  - split; [done|].
    split; unfold in_the_system, in_hand, in_queue, to_send, in_delivery, waiting_for_sessions; cbn.
    + by rewrite Hph, Hq.
    + by rewrite Hph.
    + by rewrite app_nil_r.
  - match goal with |- context[next_round ?s] => destruct (next_round_state s) as (Hb & Hp & _ & Hih & Hts) end.
    unfold open_bus. rewrite Hb. cbn. split; [done|]. split.
    + unfold in_the_system, in_queue, waiting_for_sessions. rewrite Hb, Hp, Hih. unfold in_hand.
      rewrite Hph, Hq. cbn. fold (waiting_in (pending_messages st)).
      fold (waiting_in (<[session_key msg:=default [] (pending_messages st !! session_key msg) ++ [msg]]>
        (pending_messages st))).
      rewrite waiting_insert, (waiting_delete (pending_messages st) (session_key msg)).
      rewrite <- app_assoc. cbn. rewrite Permutation_middle. f_equiv. by rewrite Permutation_middle.
    + unfold to_send in *. by rewrite Hts, Hph.
    + unfold in_delivery. rewrite Hb. cbn. by rewrite app_nil_r.
  - split; [done|].
    split; unfold in_the_system, in_hand, in_queue, to_send, in_delivery, waiting_for_sessions; cbn.
    + by rewrite Hph, Hq.
    + by rewrite Hph.
    + by rewrite app_nil_r.
Qed.

Lemma send_accounts st out st1 p :
  open_bus st → send_out st out = Some st1 → in_hand st = [] →
  to_send st = out :: to_send (goto st1 p) → in_hand (goto st1 p) = [] →
  open_bus (goto st1 p) ∧ accounts [] st (goto st1 p) [Sent out].
Proof.
  intros Ho Hs Hh Ht Hh'. destruct (send_out_spec st out st1 Ho Hs) as (b & -> & Hi & Hc & _ & Hb).
  unfold open_bus. cbn. rewrite Hi. split; [split; [apply Ho|done]|].
  split; unfold in_the_system, in_queue, in_delivery, waiting_for_sessions in *.
  - rewrite Hh, Hh'. cbn. by rewrite Hi.
  - rewrite Ht. cbn. by rewrite app_nil_r.
  - cbn. by rewrite Hb.
Qed.

Lemma drained_spec msg p msgs es :
  drained cfg msg p = (msgs, es) →
  collected es ++ p ≡ₚ merged es ++ msgs ∧ intercepted es = [] ∧ handled es = [] ∧
  sent es = [] ∧ delivered es = [] ∧ replies_of es = [].
Proof.
  unfold drained. destruct p as [|m p]; [by intros [= <- <-]|].
  destruct (collect_mode cfg); intros [= <- <-]; [|done]. split; [|done]. cbn.
  rewrite app_nil_r. by rewrite (Permutation_app_comm p [_]), Permutation_middle.
Qed.

Lemma drain_accounts st msg st' es :
  open_bus st → phase st = Sending [] msg → step st Drain = Some (st', es) →
  open_bus st' ∧ accounts [] st st' es.
Proof.
  intros Ho Hph. cbn. rewrite Hph. unfold drain. set (p := default [] _).
  destruct (drained cfg msg p) as [msgs es'] eqn:Hd. intros [= <- <-].
  destruct (drained_spec msg p msgs es' Hd) as (Hm & Hi & Hh & Hs & Hde & Hr).
  split; [done|]. split.
  - unfold in_the_system, in_queue, in_hand, waiting_for_sessions. rewrite Hph, Hi, Hh. cbn.
    fold (waiting_in (pending_messages st)) (waiting_in (delete (session_key msg) (pending_messages st))).
    rewrite (waiting_delete (pending_messages st) (session_key msg)). fold p.
    rewrite !app_assoc, <- Hm. f_equiv. rewrite <- !app_assoc. f_equiv. apply Permutation_app_comm.
  - unfold to_send. by rewrite Hph, Hs, Hr.
  - by rewrite Hs, Hde, app_nil_r.
Qed.

Lemma requeue_accounts st msg msgs st1 es :
  open_bus st → phase st = Requeueing (msg :: msgs) → publish st msg = Some (st1, es) →
  open_bus st1 ∧ accounts [] st (goto st1 (Requeueing msgs)) es.
Proof.
  intros Ho Hph Hp.
  destruct (publish_accounts _ _ _ _ [] Ho Hp) as (Ho' & Hm & Hs & Hd & Hr & Hdel & _ & Hpe & _).
  split; [done|]. split.
  - unfold in_the_system, in_hand, waiting_for_sessions. rewrite Hph. cbn. rewrite Hpe.
    unfold in_queue in Hm |- *. cbn in *.
    trans ((msg :: collected es ++ buffer (inbound (bus st))) ++ msgs ++ mjoin (map snd (map_to_list (pending_messages st)))).
    + cbn. rewrite <- Permutation_middle. f_equiv. rewrite <- !app_assoc. f_equiv.
      rewrite !app_assoc. f_equiv. apply Permutation_app_comm.
    + rewrite Hm. rewrite <- !app_assoc. do 3 f_equiv. rewrite !app_assoc. f_equiv. apply Permutation_app_comm.
  - unfold to_send. by rewrite Hph, Hs, Hr.
  - unfold in_delivery in *. cbn. by rewrite Hs, Hd, Hdel, app_nil_r.
Qed.

Lemma deliver_accounts st st' es :
  open_bus st → step st Deliver = Some (st', es) → open_bus st' ∧ accounts [] st st' es.
Proof.
  intros Ho. cbn. unfold MessageBus.consume_outbound, Chan.recv.
  destruct (buffer (outbound (bus st))) as [|out q] eqn:Hq; cbn; [done|]. intros [= <- <-].
  split; [done|]. split; [done| |].
  - unfold to_send. cbn. by rewrite app_nil_r.
  - unfold in_delivery. cbn. by rewrite Hq, app_nil_r.
Qed.

(** A run that ends, or times out while it waits for the lock. *)
Lemma end_run_step st r st' es :
  step st (EndRun r) = Some (st', es) →
  ∃ msg, (phase st = Running msg ∨ (phase st = Waiting msg ∧ r = TimedOut)) ∧
    result_of_kind (should_stream msg (streaming st)) r = true ∧
    let outs := replies extract_a2ui cfg msg (streaming st) r in
    st' = goto st (Sending outs msg) ∧ es = [Answered msg outs].
Proof.
  cbn. destruct (phase st) as [| |m|m|outs m|out|ms] eqn:Hph; try (by destruct r).
  - destruct r; try done. intros [= <- <-]. exists m. split_and!; try done. by right.
  - assert ((if result_of_kind (should_stream m (streaming st)) r then
               Some (goto st (Sending (replies extract_a2ui cfg m (streaming st) r) m),
                     [Answered m (replies extract_a2ui cfg m (streaming st) r)]) else None) = Some (st', es) →
      ∃ msg, (Running m = Running msg ∨ Running m = Waiting msg ∧ r = TimedOut) ∧
        result_of_kind (should_stream msg (streaming st)) r = true ∧
        st' = goto st (Sending (replies extract_a2ui cfg msg (streaming st) r) msg) ∧
        es = [Answered msg (replies extract_a2ui cfg msg (streaming st) r)]) as Hd.
    { destruct (result_of_kind _ r) eqn:Hr; [|done]. intros [= <- <-]. exists m. split_and!; try done. by left. }
    by destruct r.
Qed.

Lemma end_run_accounts st r st' es :
  open_bus st → step st (EndRun r) = Some (st', es) → open_bus st' ∧ accounts [] st st' es.
Proof.
  intros Ho Hs. destruct (end_run_step st r st' es Hs) as (m & Hph & _ & -> & ->).
  split; [done|]. split; unfold in_the_system, in_queue, in_hand, to_send, in_delivery, waiting_for_sessions; cbn.
  - by destruct Hph as [->|[-> _]].
  - rewrite app_nil_r. by destruct Hph as [->|[-> _]].
  - by rewrite app_nil_r.
Qed.

Lemma step_accounts st i st' es :
  open_bus st → step st i = Some (st', es) →
  open_bus st' ∧ accounts (publications [i]) st st' es.
Proof.
  intros Ho Hs. destruct i as [msg| |k|k| | | |r| |r| | |].
  - by apply publish_step_accounts.
  - by apply deliver_accounts.
  - cbn in Hs. destruct (is_locked st k); simplify_eq. split; [done|by apply accounts_frame].
  - cbn in Hs. case_bool_decide; simplify_eq. split; [done|by apply accounts_frame].
  - cbn in Hs. destruct (phase st) eqn:Hph; try done. unfold start in Hs.
    destruct (running st); simplify_eq. split; [done|].
    apply accounts_frame; unfold in_hand, to_send; by rewrite ?Hph.
  - cbn in Hs. simplify_eq. split; [done|by apply accounts_frame].
  - cbn in Hs. destruct (phase st) eqn:Hph; try done. destruct (shutdown st); simplify_eq. split; [done|].
    apply accounts_frame; unfold in_hand, to_send; by rewrite ?Hph.
  - destruct (phase st) eqn:Hph; try (cbn in Hs; by rewrite Hph in Hs). by eapply consume_accounts.
  - cbn in Hs. destruct (phase st) eqn:Hph; try done. destruct (is_locked st _); simplify_eq. split; [done|].
    apply accounts_frame; unfold in_hand, to_send; by rewrite ?Hph.
  - by eapply end_run_accounts.
  - cbn in Hs. destruct (phase st) as [| |m|m|[|out outs] m|out|ms] eqn:Hph; try done.
    + destruct (send_out st out) as [st1|] eqn:Hso; cbn in Hs; simplify_eq.
      apply (send_accounts st out st1 (Sending outs m)); try done; unfold in_hand, to_send; by rewrite Hph.
    + destruct (send_out st out) as [st1|] eqn:Hso; cbn in Hs; simplify_eq.
      apply (send_accounts st out st1 Selecting); try done; unfold in_hand, to_send; by rewrite Hph.
  - destruct (phase st) as [| |m|m|[|out outs] m|out|ms] eqn:Hph; try (cbn in Hs; by rewrite Hph in Hs).
    by eapply drain_accounts.
  - cbn in Hs. destruct (phase st) as [| |m|m|outs m|out|[|m ms]] eqn:Hph; try done.
    + simplify_eq. destruct (next_round_state st) as (Hb & Hp & _ & Hih & Hts). unfold open_bus. rewrite Hb.
      split; [done|]. apply accounts_frame; try done; [rewrite Hih|rewrite Hts]; unfold in_hand, to_send; by rewrite Hph.
    + destruct (publish st m) as [[st1 es1]|] eqn:Hp; cbn in Hs; simplify_eq.
      destruct (requeue_accounts st m ms st1 es Ho Hph Hp) as [Ho1 Ha]. done.
Qed.

Lemma accounts_app ins1 ins2 st1 st2 st3 es1 es2 :
  accounts ins1 st1 st2 es1 → accounts ins2 st2 st3 es2 →
  accounts (ins1 ++ ins2) st1 st3 (es1 ++ es2).
Proof.
  intros [Hm1 Hs1 Hd1] [Hm2 Hs2 Hd2].
  split; unfold collected, intercepted, handled, merged, sent, delivered, replies_of in *;
    rewrite !select_events_app.
  - by_counting.
  - by rewrite <- app_assoc, Hs2, !app_assoc, Hs1.
  - by rewrite <- app_assoc, Hd2, !app_assoc, Hd1.
Qed.

(** What a step keeps, and what an answer is: each run that ended gave one, the replies to its
    result. *)
Definition answers_of (streaming : bool) (ins : list Input) (es : list Event) : Prop :=
  Forall2 (λ r a, result_of_kind (should_stream (fst a) streaming) r = true ∧
             snd a = replies extract_a2ui cfg (fst a) streaming r) (results ins) (answers es).

Lemma no_answers es : (∀ m outs, Answered m outs ∉ es) → answers es = [].
Proof.
  induction es as [|e es IH]; intros Hn; [done|].
  change (answers (e :: es)) with (match e with Answered m outs => [(m, outs)] | _ => [] end ++ answers es).
  rewrite IH by (intros m outs Hm; apply (Hn m outs); by right).
  destruct e as [| | | |m outs| | |]; try done. destruct (Hn m outs). by left.
Qed.

Definition exclusive st : Prop := ∀ m, phase st = Running m → session_key m ∉ held st.

Lemma publish_frame st msg st' es :
  publish st msg = Some (st', es) →
  streaming st' = streaming st ∧ phase st' = phase st ∧ held st' = held st ∧
  ∀ m outs, Answered m outs ∉ es.
Proof.
  unfold publish. destruct (MessageBus.publish_inbound_with_status _ _) as [[r b]|]; cbn; [|done].
  intros [= <- <-]. split_and!; try done. intros m outs. destruct r as [[]|]; set_solver.
Qed.

Lemma step_keeps st i st' es :
  exclusive st → step st i = Some (st', es) →
  streaming st' = streaming st ∧ exclusive st' ∧ answers_of (streaming st) [i] es.
Proof.
  intros Hx Hs. unfold exclusive in *.
  assert (∀ es', results [i] = [] → (∀ m outs, Answered m outs ∉ es') → answers_of (streaming st) [i] es') as Hn'
    by (intros es' Hi Hes; unfold answers_of; by rewrite Hi, no_answers).
  assert (∀ es', match i with EndRun _ => False | _ => True end →
    (∀ m outs, Answered m outs ∉ es') → answers_of (streaming st) [i] es') as Hn
    by (intros es' Hi; apply Hn'; by destruct i).
  destruct i as [msg| |k|k| | | |r| |r| | |].
  - destruct (publish_frame _ _ _ _ Hs) as (-> & -> & -> & Hes). auto.
  - cbn in Hs. destruct (MessageBus.consume_outbound _) as [[out b]|]; cbn in Hs; simplify_eq.
    split_and!; [done|done|]. apply Hn; [done|]. set_solver.
  - cbn in Hs. destruct (is_locked st k) eqn:Hl; simplify_eq. split_and!; [done| |by apply Hn; [|set_solver]].
    cbn. intros m Hm. unfold is_locked in Hl. rewrite Hm in Hl. apply orb_false_iff in Hl as [_ Hk].
    apply String.eqb_neq in Hk. specialize (Hx m Hm). set_solver.
  - cbn in Hs. case_bool_decide; simplify_eq. split_and!; [done| |by apply Hn; [|set_solver]].
    cbn. intros m Hm. specialize (Hx m Hm). set_solver.
  - cbn in Hs. destruct (phase st); try done. unfold start in Hs. destruct (running st); simplify_eq.
    split_and!; [done|done|]. apply Hn; [done|]. set_solver.
  - cbn in Hs. simplify_eq. split_and!; [done|done|]. apply Hn; [done|]. set_solver.
  - cbn in Hs. destruct (phase st); try done. destruct (shutdown st); simplify_eq.
    split_and!; [done|done|]. apply Hn; [done|]. set_solver.
  - cbn in Hs. destruct (phase st); try done. destruct (MessageBus.consume_inbound _) as [[m b]|]; [|done].
    cbn -[handle] in Hs. destruct (handle_cases (set_bus st b) m r) as (p & Hc). cbn -[handle] in Hc.
    assert (∀ s : Agent (I := I), streaming (next_round s) = streaming s ∧ ∀ m', phase (next_round s) ≠ Running m') as Hnr.
    { intros s. unfold next_round. by destruct (running s). }
    destruct Hc as [Hc|[[_ Hc]|[_ Hc]]]; rewrite Hc in Hs; simplify_eq; cbn -[next_round].
    + split_and!; [done|done|]. apply Hn; [done|]. set_solver.
    + match goal with |- context[next_round ?s] => destruct (Hnr s) as [-> Hph] end.
      split_and!; [done|by intros ? ?%Hph|]. apply Hn; [done|]. set_solver.
    + split_and!; [done|done|]. apply Hn; [done|]. set_solver.
  - cbn in Hs. destruct (phase st) eqn:Hph; try done. destruct (is_locked st _) eqn:Hl; simplify_eq.
    split_and!; [done| |by apply Hn; [|set_solver]]. cbn. intros m' [= <-].
    unfold is_locked in Hl. apply orb_false_iff in Hl as [Hk _]. by apply bool_decide_eq_false in Hk.
  - destruct (end_run_step _ _ _ _ Hs) as (m & _ & Hr & -> & ->). split_and!; [done|done|].
    constructor; [done|constructor].
  - cbn in Hs. destruct (phase st) as [| |m|m|[|out outs] m|out|ms]; try done;
      unfold send_out in Hs; destruct (MessageBus.publish_outbound _ _) as [[r b]|]; cbn in Hs; simplify_eq;
      (split_and!; [done|done|]; apply Hn; [done|]; set_solver).
  - cbn in Hs. destruct (phase st) as [| |m|m|[|out outs] m|out|ms]; try done.
    unfold drain in Hs. destruct (drained _ _ _) as [msgs es'] eqn:Hd. simplify_eq.
    split_and!; [done|done|]. apply Hn; [done|]. intros m' outs. unfold drained in Hd.
    destruct (default _ _); simplify_eq; [set_solver|]. destruct (collect_mode cfg); simplify_eq; set_solver.
  - cbn in Hs. destruct (phase st) as [| |m|m|outs m|out|[|m ms]]; try done.
    + simplify_eq. split_and!; [unfold next_round; by destruct (running st)| |by apply Hn; [|set_solver]].
      intros m. unfold next_round. by destruct (running st).
    + destruct (publish st m) as [[st1 es1]|] eqn:Hp; cbn in Hs; simplify_eq.
      destruct (publish_frame _ _ _ _ Hp) as (Hst & _ & _ & Hes). split_and!; [done|done|by apply Hn].
Qed.

Lemma run_accounts st log ins st' log' :
  open_bus st → exclusive st → run st log ins = Some (st', log') →
  open_bus st' ∧ exclusive st' ∧ ∃ es, log' = log ++ es ∧ accounts (publications ins) st st' es ∧
    answers_of (streaming st) ins es.
Proof.
  revert st log. induction ins as [|i ins IH]; intros st log Ho Hx; cbn [run_loop].
  - intros [= <- <-]. split_and!; try done. exists []. split_and!; [by rewrite app_nil_r|by apply accounts_frame|].
    constructor.
  - destruct (step st i) as [[st1 es1]|] eqn:Hs; cbn [mbind option_bind]; [|done]. intros Hr.
    destruct (step_accounts _ _ _ _ Ho Hs) as [Ho1 Ha1].
    destruct (step_keeps _ _ _ _ Hx Hs) as (Hst & Hx1 & Han1).
    destruct (IH _ _ Ho1 Hx1 Hr) as (Ho' & Hx' & es & -> & Ha & Han). split_and!; try done.
    exists (es1 ++ es). split_and!; [by rewrite app_assoc| |].
    + rewrite publications_cons. by eapply accounts_app.
    + rewrite Hst in Han. unfold answers_of, answers in *. rewrite results_cons, select_events_app.
      by apply Forall2_app.
Qed.
End accounting.

(** A bus that nothing has been published on. *)
Definition fresh_bus {I} (b : MessageBus I) : Prop :=
  buffer (inbound b) = [] ∧ buffer (outbound b) = [] ∧
  closed (inbound b) = false ∧ closed (outbound b) = false.

(** ** Leads-to

    A property is reached on an infinite sequence of states when a well-founded
    measure never grows before and always shrinks eventually. *)
Section leads_to.
Context {M : Type} (lt : M → M → Prop) `{!Transitive lt} (lt_wf : well_founded lt).
Context (μ : nat → M) (P Q : nat → Prop) (P_dec : ∀ n, Decision (P n)).
Hypothesis keeps : ∀ n, Q n → ¬ P n → Q (S n) ∧ (μ (S n) = μ n ∨ lt (μ (S n)) (μ n)).

Definition reached_by (n m : nat) : Prop := ∃ j, (n ≤ j ≤ m)%nat ∧ P j ∧ Q j.
Definition went (n m : nat) : Prop := Q m ∧ ¬ P m ∧ (μ m = μ n ∨ lt (μ m) (μ n)).

Lemma walk n m : Q n → (n ≤ m)%nat → reached_by n m ∨ went n m.
Proof.
  intros Hq. induction 1 as [|m Hnm IH].
  - destruct (P_dec n); [left; by exists n|right]. split_and!; auto.
  - destruct IH as [(j & ? & ?)|(Hqm & Hpm & Hm)]; [left; exists j; split; [lia|done]|].
    destruct (keeps m Hqm Hpm) as [Hq' Hl]. destruct (P_dec (S m)); [left; exists (S m); split; [lia|done]|].
    right. split_and!; [done|done|]. destruct Hl as [->|Hl]; [done|right].
    destruct Hm as [<-|Hm]; [done|by etrans].
Qed.

Hypothesis progress : ∀ n, Q n → ¬ P n → ∃ m, (n ≤ m)%nat ∧ (reached_by n m ∨ (Q m ∧ lt (μ m) (μ n))).

Lemma leads_to n : Q n → ∃ m, (n ≤ m)%nat ∧ P m ∧ Q m.
Proof.
  remember (μ n) as x eqn:Hx. revert n Hx. induction (lt_wf x) as [x _ IH]. intros n -> Hq.
  destruct (P_dec n); [by exists n|].
  destruct (progress n Hq n0) as (m & Hm & [(j & ? & ?)|[Hqm Hl]]); [exists j; split; [lia|done]|].
  destruct (IH _ Hl m eq_refl Hqm) as (k & ? & ?). exists k. split; [lia|done].
Qed.
End leads_to.

Definition lex3 : relation (nat * nat * nat) := λ '(a, b, c) '(a', b', c'),
  (a < a')%nat ∨ (a = a' ∧ ((b < b')%nat ∨ (b = b' ∧ (c < c')%nat))).

#[export] Instance lex3_transitive : Transitive lex3.
Proof. intros [[a b] c] [[a' b'] c'] [[a'' b''] c'']. unfold lex3. lia. Qed.

Lemma lex3_wf : well_founded lex3.
Proof.
  intros [[a b] c]. revert b c. induction (lt_wf a) as [a _ IHa].
  intros b. induction (lt_wf b) as [b _ IHb]. intros c. induction (lt_wf c) as [c _ IHc].
  constructor. intros [[a' b'] c'] [Ha|[-> [Hb|[-> Hc]]]]; auto.
Qed.

(** ** Every message is answered *)

Section liveness.
Context `{RustUnicode} `{MapOrder Z} {I : Type}.
Context (sha256 : string → string) (extract_a2ui : string → string * list string).
Context (cfg : DispatchConfig).
Implicit Types (st : Agent (I := I)) (msg : InboundMessage) (log : list Event).

Notation step := (step sha256 extract_a2ui cfg).
Notation run := (run_loop sha256 extract_a2ui cfg).

(** C4: Whatever the tasks around it do, the loop loses no message and invents
    none: every message that was published, or made of collected ones, is at this
    moment intercepted, rejected, answered, part of a collected one, or still in
    the system, and in one place only. Replies go out in the order of the events
    that caused them, and none is lost. The runs that ended and the answers are
    the same number, in the same order, and each answer is the replies to the
    result of its run. No session runs twice at the same time. *)
Theorem messages_accounted b streaming p ins st log :
  fresh_bus b → run (new b streaming p) [] ins = Some (st, log) →
  publications ins ++ collected log ≡ₚ
    intercepted log ++ handled log ++ merged log ++ in_the_system st ∧
  sent log ++ to_send st = replies_of log ∧ delivered log ++ in_delivery st = sent log ∧
  Forall2 (λ r a, result_of_kind (should_stream (fst a) streaming) r = true ∧
             snd a = replies extract_a2ui cfg (fst a) streaming r) (results ins) (answers log) ∧
  (∀ m, phase st = Running m → session_key m ∉ held st).
Proof.
  intros (Hi & Ho & Hci & Hco) Hr.
  destruct (run_accounts sha256 extract_a2ui cfg (new b streaming p) [] ins st log) as (_ & Hx & es & -> & Ha & Han);
    [done| |done|].
  { by intros m. }
  destruct Ha as [Hm Hs Hd]. split_and!; [|done| |exact Han|exact Hx].
  - unfold in_the_system, in_queue in Hm. cbn in Hm. rewrite Hi, app_nil_r in Hm. done.
  - unfold in_delivery in Hd. cbn in Hd. by rewrite Ho in Hd.
Qed.

(** Nobody else runs sessions, or stops the loop. *)
Definition quiet (i : Input) : bool :=
  match i with Lock _ | Stop => false | _ => true end.

Definition loop_input (i : Input) : bool :=
  match i with
  | Consume _ | AcquireLock | EndRun _ | SendNext | Drain | RequeueNext | Shutdown => true
  | _ => false
  end.

Definition in_reply st : bool := match phase st with Sending _ _ | Rejecting _ => true | _ => false end.

Record calm st log : Prop := {
  calm_open : open_bus st;
  calm_room : (0 < capacity (outbound (bus st)))%nat;
  calm_running : running st = true;
  calm_shutdown : shutdown st = false;
  calm_held : held st = ∅;
  calm_pending : pending_messages st = ∅;
  calm_phase : match phase st with Stopped | Requeueing (_ :: _) => False | _ => True end;
  calm_order : accepted log = handled log ++ in_hand st ++ in_queue st;
  calm_reply : in_reply st = true → (0 < length (handled log))%nat;
  calm_sent : sent log ++ to_send st = replies_of log;
  calm_delivered : delivered log ++ in_delivery st = sent log;
}.

Lemma log_app log es :
  accepted (log ++ es) = accepted log ++ accepted es ∧ handled (log ++ es) = handled log ++ handled es ∧
  sent (log ++ es) = sent log ++ sent es ∧ delivered (log ++ es) = delivered log ++ delivered es ∧
  replies_of (log ++ es) = replies_of log ++ replies_of es.
Proof. unfold accepted, handled, sent, delivered, replies_of. by rewrite !select_events_app. Qed.

(** The part of [calm] that is not accounting. *)
Definition steady st log : Prop :=
  (0 < capacity (outbound (bus st)))%nat ∧ running st = true ∧ shutdown st = false ∧
  held st = ∅ ∧ pending_messages st = ∅ ∧
  match phase st with Stopped | Requeueing (_ :: _) => False | _ => True end ∧
  accepted log = handled log ++ in_hand st ++ in_queue st ∧
  (in_reply st = true → (0 < length (handled log))%nat).

Lemma publish_steady st log msg st' es :
  calm st log → publish st msg = Some (st', es) → steady st' (log ++ es) ∧ to_send st' = to_send st.
Proof.
  intros [Ho Hc Hr Hsh Hh Hp Hph Hor Hrep _ _] Hpub. destruct (publish_spec _ _ _ _ Ho Hpub) as (b & -> & Hb & _ & _ & He).
  split; [|done]. unfold steady. cbn. rewrite Hb.
  destruct (log_app log es) as (-> & -> & _). rewrite length_app.
  split_and!; try done; [|intros Hir; specialize (Hrep Hir); lia]. unfold in_queue, in_hand in *. cbn.
  destruct He as [[-> ->]|[-> ->]]; cbn; rewrite ?app_nil_r; [done|]. by rewrite Hor, <- !app_assoc.
Qed.

Lemma step_steady st log i st' es :
  quiet i = true → calm st log → step st i = Some (st', es) → steady st' (log ++ es).
Proof.
  intros Hq Hcalm Hs. pose proof Hcalm as [Ho Hc Hr Hsh Hh Hp Hph Hor Hrep _ _].
  unfold steady. destruct (log_app log es) as (-> & -> & _). rewrite length_app.
  assert (in_reply st = true → (0 < length (handled log) + length (handled es))%nat) as Hrep'
    by (intros Hir; specialize (Hrep Hir); lia).
  unfold in_reply in *.
  destruct i as [msg| |k|k| | | |r| |r| | |]; try done.
  - destruct (publish_steady _ _ _ _ _ Hcalm Hs) as [Hst _]. unfold steady in Hst.
    by destruct (log_app log es) as (Ha & Hb & _); rewrite Ha, Hb, length_app in Hst.
  - cbn in Hs. unfold MessageBus.consume_outbound, Chan.recv in Hs.
    destruct (buffer (outbound (bus st))) as [|out q]; cbn in Hs; simplify_eq. cbn.
    split_and!; try done. unfold in_hand, in_queue in *. cbn. by rewrite !app_nil_r.
  - cbn in Hs. rewrite Hh in Hs. case_bool_decide; [set_solver|done].
  - cbn in Hs. by destruct (phase st).
  - cbn in Hs. destruct (phase st); try done. by rewrite Hsh in Hs.
  - cbn in Hs. destruct (phase st) eqn:Hphase; try done. unfold in_hand, in_queue in *. rewrite Hphase in Hor.
    unfold MessageBus.consume_inbound, Chan.recv in Hs.
    destruct (buffer (inbound (bus st))) as [|msg q] eqn:Hbuf; cbn -[handle] in Hs; [done|]. injection Hs as Hs.
    match type of Hs with handle _ ?s _ _ = _ => destruct (handle_cases sha256 s msg r) as (p & Hcs) end.
    assert (is_locked st (session_key msg) = false) as Hl.
    { unfold is_locked. rewrite Hh, Hphase. by rewrite bool_decide_eq_false_2 by set_solver. }
    destruct Hcs as [Hcs|[[Hl' _]|[_ Hcs]]]; [|by unfold is_locked in Hl, Hl'; cbn in Hl'; congruence|];
      rewrite Hs in Hcs; simplify_eq; cbn; (split_and!; try done); cbn; try (intros _; lia); by rewrite Hor, <- ?app_assoc, ?app_nil_r.
  - cbn in Hs. destruct (phase st) eqn:Hphase; try done. destruct (is_locked st _); simplify_eq. cbn.
    split_and!; try done. unfold in_hand, in_queue in *. rewrite Hphase in Hor. cbn. by rewrite !app_nil_r.
  - destruct (end_run_step _ _ _ _ _ _ _ Hs) as (m & Hm & _ & -> & ->). cbn. split_and!; try done; [|intros _; lia].
    unfold in_hand, in_queue in *. cbn. rewrite <- app_assoc, app_nil_r. destruct Hm as [Hm|[Hm _]]; by rewrite Hm in Hor.
  - cbn in Hs. destruct (phase st) as [| |m|m|[|out outs] m|out|ms] eqn:Hphase; try done;
      (destruct (send_out st out) as [st1|] eqn:Hso; cbn in Hs; simplify_eq);
      destruct (send_out_spec _ _ _ Ho Hso) as (b & -> & Hi & _ & Hcap & _); cbn; rewrite Hcap;
      (split_and!; try done); unfold in_hand, in_queue in *; cbn; rewrite Hi, !app_nil_r;
      by rewrite Hphase in Hor.
  - cbn in Hs. destruct (phase st) as [| |m|m|[|out outs] m|out|ms] eqn:Hphase; try done.
    rewrite Hp, lookup_empty in Hs. cbn in Hs. simplify_eq. cbn.
    unfold in_hand, in_queue in *. rewrite Hphase in Hor. by rewrite delete_empty, !app_nil_r.
  - cbn in Hs. destruct (phase st) as [| |m|m|outs m|out|[|m ms]] eqn:Hphase; try done. simplify_eq.
    unfold next_round. rewrite Hr. cbn. unfold in_hand, in_queue in *. rewrite Hphase in Hor. by rewrite !app_nil_r.
Qed.

Lemma step_calm st log i st' es :
  quiet i = true → calm st log → step st i = Some (st', es) → calm st' (log ++ es).
Proof.
  intros Hq Hc Hs. destruct (step_steady _ _ _ _ _ Hq Hc Hs) as (?&?&?&?&?&?&?&?).
  destruct (step_accounts _ _ _ _ _ _ _ (calm_open _ _ Hc) Hs) as [Ho [_ Hsent Hdel]].
  destruct (log_app log es) as (_ & _ & Hs1 & Hd1 & Hr1).
  split; try done; rewrite ?Hs1, ?Hd1, ?Hr1.
  - by rewrite <- (calm_sent _ _ Hc), <- !app_assoc, <- Hsent.
  - by rewrite <- (calm_delivered _ _ Hc), <- !app_assoc, Hdel.
Qed.
(** *** The measure *)

(** Messages handled whose replies are all sent. *)
Definition finished st log : nat := length (handled log) - (if in_reply st then 1 else 0).

Definition stage st : nat :=
  match phase st with
  | Requeueing _ => 6 | Selecting => 5 | Waiting _ => 4 | Running _ => 3 | Sending _ _ | Rejecting _ => 2
  | Stopped => 0
  end.

Definition measure (target : nat) st log : nat * nat * nat :=
  (target - finished st log, stage st, 2 * length (to_send st) + length (in_delivery st))%nat.

(** The first [target] messages are handled, and nothing else. *)
Definition settled (target : nat) st log : Prop :=
  (target ≤ length (handled log))%nat ∧ in_reply st = false.

Definition smaller : relation (nat * nat * nat * nat) := λ x y, lex3 (fst x) (fst y).
Definition weight (target : nat) st log := (measure target st log, length (in_delivery st)).

Lemma step_shrinks target st log i st' es :
  quiet i = true → calm st log → (length (handled log) ≤ target)%nat → ¬ settled target st log →
  step st i = Some (st', es) →
  (length (handled (log ++ es)) ≤ target)%nat ∧
  ((loop_input i = false ∧ i ≠ Deliver ∧ weight target st' (log ++ es) = weight target st log) ∨
   smaller (weight target st' (log ++ es)) (weight target st log)).
Proof.
  intros Hq Hc Hle Hns Hs. pose proof Hc as [Ho Hcap Hr Hsh Hh Hp Hph Hor Hrep _ _].
  unfold settled, in_reply in *. unfold weight, smaller, measure, finished, in_reply, lex3.
  destruct (log_app log es) as (_ & -> & _). rewrite length_app.
  destruct i as [msg| |k|k| | | |r| |r| | |]; try done.
  - destruct (publish_spec _ _ _ _ Ho Hs) as (b & -> & Hb & _ & _ & He).
    assert (handled es = []) as -> by (by destruct He as [[-> _]|[-> _]]).
    unfold in_delivery. cbn. rewrite Hb. split; [lia|]. left. split_and!; try done. by rewrite Nat.add_0_r.
  - cbn in Hs. unfold MessageBus.consume_outbound, Chan.recv in Hs.
    destruct (buffer (outbound (bus st))) as [|out q] eqn:Hb; cbn in Hs; simplify_eq.
    unfold in_delivery, to_send, stage. cbn. rewrite Hb. cbn. split; [lia|]. right. lia.
  - cbn in Hs. rewrite Hh in Hs. case_bool_decide; [set_solver|done].
  - cbn in Hs. by destruct (phase st).
  - cbn in Hs. destruct (phase st); try done. by rewrite Hsh in Hs.
  - cbn in Hs. destruct (phase st) eqn:Hphase; try done.
    unfold MessageBus.consume_inbound, Chan.recv in Hs.
    destruct (buffer (inbound (bus st))) as [|msg q] eqn:Hbuf; cbn -[handle] in Hs; [done|]. injection Hs as Hs.
    match type of Hs with handle _ ?s _ _ = _ => destruct (handle_cases sha256 s msg r) as (p & Hcs) end.
    assert (is_locked st (session_key msg) = false) as Hl.
    { unfold is_locked. rewrite Hh, Hphase. by rewrite bool_decide_eq_false_2 by set_solver. }
    assert (length (handled log) < target)%nat by (apply not_le; intros Hge; by apply Hns).
    destruct Hcs as [Hcs|[[Hl' _]|[_ Hcs]]]; [|by unfold is_locked in Hl, Hl'; cbn in Hl'; congruence|];
      rewrite Hs in Hcs; simplify_eq; unfold stage; rewrite ?Hphase; cbn; (split; [lia|right; lia]).
  - cbn in Hs. destruct (phase st) eqn:Hphase; try done. destruct (is_locked st _); simplify_eq.
    assert (length (handled log) < target)%nat by (apply not_le; intros Hge; by apply Hns).
    unfold stage. rewrite Hphase. cbn. split; [lia|right; lia].
  - destruct (end_run_step _ _ _ _ _ _ _ Hs) as (m & Hm & _ & -> & ->).
    assert (length (handled log) < target)%nat.
    { apply not_le; intros Hge; apply Hns. by destruct Hm as [->|[-> _]]. }
    unfold stage. cbn. destruct Hm as [->|[-> _]]; cbn; (split; [lia|right; lia]).
  - cbn in Hs. destruct (phase st) as [| |m|m|[|out outs] m|out|ms] eqn:Hphase; try done;
      (destruct (send_out st out) as [st1|] eqn:Hso; cbn in Hs; simplify_eq);
      destruct (send_out_spec _ _ _ Ho Hso) as (b & -> & Hi & _ & _ & Hb);
      unfold stage, in_delivery, to_send in *; rewrite ?Hphase; cbn; rewrite Hb, ?length_app; cbn;
      (split; [lia|right]); specialize (Hrep eq_refl); lia.
  - cbn in Hs. destruct (phase st) as [| |m|m|[|out outs] m|out|ms] eqn:Hphase; try done.
    rewrite Hp, lookup_empty in Hs. cbn in Hs. simplify_eq. unfold stage. rewrite Hphase. cbn.
    specialize (Hrep eq_refl). split; [lia|right; lia].
  - cbn in Hs. destruct (phase st) as [| |m|m|outs m|out|[|m ms]] eqn:Hphase; try done. simplify_eq.
    assert (length (handled log) < target)%nat by (apply not_le; intros Hge; by apply Hns).
    unfold next_round. rewrite Hr. unfold stage, to_send, in_delivery. rewrite Hphase. cbn. split; [lia|right; lia].
Qed.

(** The loop has a step while there is something to do, unless the queue of
    replies is full. *)
Lemma loop_enabled target st log :
  calm st log → (length (handled log) ≤ target ≤ length (accepted log))%nat → ¬ settled target st log →
  (∃ i, loop_input i = true ∧ is_Some (step st i)) ∨ in_delivery st ≠ [].
Proof.
  intros [Ho Hcap Hr Hsh Hh Hp Hph Hor Hrep _ _] Hle Hns. unfold settled, in_reply in *.
  assert (∀ k, phase st = Selecting ∨ (∃ m, phase st = Waiting m) → is_locked st k = false) as Hl.
  { intros k Hk. unfold is_locked. rewrite Hh, bool_decide_eq_false_2 by set_solver.
    by destruct Hk as [->|[m ->]]. }
  assert (∀ out, is_Some (send_out st out) ∨ in_delivery st ≠ []) as Hso.
  { intros out. unfold send_out, MessageBus.publish_outbound, Chan.send, Chan.has_room, in_delivery.
    destruct Ho as [_ ->]. destruct (Nat.ltb_spec (length (buffer (outbound (bus st)))) (capacity (outbound (bus st)))).
    - left. eauto.
    - right. intros Hb. rewrite Hb in *. cbn in *. lia. }
  destruct (phase st) as [| |m|m|[|out outs] m|out|[|m ms]] eqn:Hphase; try done.
  - left. exists (Consume (mkReadings 0 0 0 0 0 0)). split; [done|]. cbn. rewrite Hphase.
    unfold MessageBus.consume_inbound, Chan.recv. unfold in_hand, in_queue in Hor. rewrite Hphase in Hor.
    destruct (buffer (inbound (bus st))) as [|m q]; [|by eexists].
    exfalso. apply Hns. split; [|done]. rewrite Hor in Hle. cbn in Hle. rewrite app_nil_r in Hle. lia.
  - left. exists AcquireLock. split; [done|]. cbn. rewrite Hphase, Hl by eauto. eauto.
  - left. exists (EndRun TimedOut). split; [done|]. cbn. rewrite Hphase. eauto.
  - left. exists Drain. split; [done|]. cbn. rewrite Hphase. destruct (drained _ _ _). eauto.
  - destruct (Hso out) as [[st1 Hs]|]; [left|by right]. exists SendNext. split; [done|]. cbn.
    rewrite Hphase, Hs. cbn. eauto.
  - destruct (Hso out) as [[st1 Hs]|]; [left|by right]. exists SendNext. split; [done|]. cbn.
    rewrite Hphase, Hs. cbn. eauto.
  - left. exists RequeueNext. split; [done|]. cbn. rewrite Hphase. eauto.
Qed.

(** *** Executions without end *)

(** States, logs and inputs over time; nothing may happen at a moment. *)
Record execution (σ : nat → Agent (I := I)) (L : nat → list Event) (ι : nat → option Input) : Prop := {
  moves n : match ι n with
            | Some i => ∃ es, step (σ n) i = Some (σ (S n), es) ∧ L (S n) = L n ++ es
            | None => σ (S n) = σ n ∧ L (S n) = L n
            end;
  undisturbed n i : ι n = Some i → quiet i = true;
  (** The loop is scheduled: again and again it takes a step or has none to take. *)
  fair_loop n : ∃ m, (n ≤ m)%nat ∧
    ((∃ i, ι m = Some i ∧ loop_input i = true) ∨ (∀ i, loop_input i = true → step (σ m) i = None));
  (** So are the channels, which take the replies. *)
  fair_delivery n : ∃ m, (n ≤ m)%nat ∧ (ι m = Some Deliver ∨ in_delivery (σ m) = []);
}.

Section executions.
Context (σ : nat → Agent (I := I)) (L : nat → list Event) (ι : nat → option Input).
Context (He : execution σ L ι).

Lemma calm_next n : calm (σ n) (L n) → calm (σ (S n)) (L (S n)).
Proof.
  intros Hc. pose proof (moves _ _ _ He n) as Hm. destruct (ι n) as [i|] eqn:Hi.
  - destruct Hm as (es & Hs & ->). eapply step_calm; eauto. by eapply undisturbed.
  - by destruct Hm as [-> ->].
Qed.

Lemma calm_later n m : (n ≤ m)%nat → calm (σ n) (L n) → calm (σ m) (L m).
Proof. induction 1; auto using calm_next. Qed.

Lemma log_grows n m : (n ≤ m)%nat → ∃ es, L m = L n ++ es.
Proof.
  induction 1 as [|m _ [es IH]]; [exists []; by rewrite app_nil_r|].
  pose proof (moves _ _ _ He m) as Hm. rewrite IH in Hm. destruct (ι m) as [i|].
  - destruct Hm as (es' & _ & ->). exists (es ++ es'). by rewrite app_assoc.
  - destruct Hm as [_ ->]. eauto.
Qed.
Lemma settled_dec target n : Decision (settled target (σ n) (L n)).
Proof. unfold settled. apply _. Defined.

(** What holds until the first [target] accepted messages are settled. *)
Definition working (target n : nat) : Prop :=
  calm (σ n) (L n) ∧ (length (handled (L n)) ≤ target ≤ length (accepted (L n)))%nat.

Lemma working_keeps target n :
  working target n → ¬ settled target (σ n) (L n) →
  working target (S n) ∧
  (weight target (σ (S n)) (L (S n)) = weight target (σ n) (L n) ∨
   smaller (weight target (σ (S n)) (L (S n))) (weight target (σ n) (L n))).
Proof.
  intros [Hc Hle] Hns. pose proof (calm_next n Hc) as Hc'.
  pose proof (moves _ _ _ He n) as Hm. unfold working. destruct (ι n) as [i|] eqn:Hi.
  - destruct Hm as (es & Hs & HL). destruct (step_shrinks target (σ n) (L n) i (σ (S n)) es) as [Hh Hw]; try done.
    { by eapply undisturbed. } { lia. }
    rewrite HL in *. destruct (log_app (L n) es) as (Ha & _). split; [split; [done|]|].
    + rewrite Ha, length_app. lia.
    + destruct Hw as [(_ & _ & Hw)|Hw]; auto.
  - destruct Hm as [-> ->]. auto.
Qed.

Lemma loop_step_shrinks target n i :
  working target n → ¬ settled target (σ n) (L n) → ι n = Some i →
  loop_input i = true ∨ i = Deliver →
  smaller (weight target (σ (S n)) (L (S n))) (weight target (σ n) (L n)).
Proof.
  intros [Hc Hle] Hns Hi Hloop. pose proof (moves _ _ _ He n) as Hm. rewrite Hi in Hm.
  destruct Hm as (es & Hs & ->). destruct (step_shrinks target (σ n) (L n) i (σ (S n)) es) as [_ Hw]; try done.
  { by eapply undisturbed. } { lia. }
  destruct Hw as [(Hf & Hd & _)|]; [|done]. destruct Hloop; congruence.
Qed.

#[local] Instance smaller_transitive : Transitive smaller.
Proof. intros x y z. unfold smaller. apply lex3_transitive. Qed.

Lemma smaller_wf : well_founded smaller.
Proof. exact (wf_inverse_image _ _ _ fst lex3_wf). Qed.

(** Handled and replied to. *)
Lemma target_settled target n :
  working target n → ∃ m, (n ≤ m)%nat ∧ settled target (σ m) (L m) ∧ working target m.
Proof.
  apply (leads_to smaller smaller_wf (λ n, weight target (σ n) (L n))
           (λ n, settled target (σ n) (L n)) (working target) (settled_dec target)).
  intros n0 Hw Hns.
    pose proof (walk smaller (λ n, weight target (σ n) (L n)) (λ n, settled target (σ n) (L n))
      (working target) (settled_dec target) (working_keeps target)) as Hwalk.
    destruct (fair_loop _ _ _ He n0) as (m & Hm & Hstep).
    destruct (Hwalk n0 m Hw Hm) as [?|(Hwm & Hnm & Hlem)]; [exists m; auto|].
    destruct Hstep as [(i & Hi & Hloop)|Hnone].
  - exists (S m). split; [lia|]. right. split; [by apply working_keeps|].
      assert (smaller (weight target (σ (S m)) (L (S m))) (weight target (σ m) (L m))) as Hs
        by (eapply loop_step_shrinks; eauto).
      destruct Hlem as [<-|Hlem]; [done|by etrans].
  - destruct (loop_enabled target (σ m) (L m)) as [(i & Hloop & [x Hx])|Hfull]; [apply Hwm|apply Hwm|done| |].
      { by rewrite Hnone in Hx. }
      destruct (fair_delivery _ _ _ He m) as (k & Hk & Hdel).
      destruct (Hwalk m k Hwm Hk) as [(j & ? & ?)|(Hwk & Hnk & Hlek)].
      { exists k. split; [lia|]. left. exists j. split; [lia|done]. }
      assert (∀ j, smaller (weight target (σ j) (L j)) (weight target (σ m) (L m)) →
                   smaller (weight target (σ j) (L j)) (weight target (σ n0) (L n0))) as Hlt.
      { intros j Hj. destruct Hlem as [<-|Hlem]; [done|by etrans]. }
      destruct Hdel as [Hdel|Hempty].
    + exists (S k). split; [lia|]. right. split; [by apply working_keeps|]. apply Hlt.
        assert (smaller (weight target (σ (S k)) (L (S k))) (weight target (σ k) (L k))) as Hs
          by (eapply loop_step_shrinks; eauto).
        destruct Hlek as [<-|Hlek]; [done|by etrans].
    + exists k. split; [lia|]. right. split; [done|]. apply Hlt. destruct Hlek as [Hlek|]; [|done].
        exfalso. injection Hlek as _ _ _ Hlen. rewrite Hempty in Hlen. by destruct (in_delivery (σ m)).
Qed.

(** What is sent is delivered. *)
Lemma delivered_grows n m : (n ≤ m)%nat → (length (delivered (L n)) ≤ length (delivered (L m)))%nat.
Proof.
  intros Hm. destruct (log_grows n m Hm) as [es ->]. destruct (log_app (L n) es) as (_ & _ & _ & -> & _).
  rewrite length_app. lia.
Qed.

Lemma delivered_count target n :
  calm (σ n) (L n) → (target ≤ length (sent (L n)))%nat →
  ∃ m, (n ≤ m)%nat ∧ (target ≤ length (delivered (L m)))%nat.
Proof.
  intros Hc Ht. remember (target - length (delivered (L n)))%nat as d eqn:Hd. revert n Hc Ht Hd.
  induction (lt_wf d) as [d _ IH]. intros n Hc Ht ->.
  destruct (decide (target ≤ length (delivered (L n)))%nat); [by exists n|].
  destruct (fair_delivery _ _ _ He n) as (m & Hm & Hdel). pose proof (calm_later n m Hm Hc) as Hcm.
  pose proof (calm_delivered _ _ Hcm) as Hdm. destruct (log_grows n m Hm) as [es Hes].
  assert (length (sent (L n)) ≤ length (sent (L m)))%nat as Hsm.
  { rewrite Hes. destruct (log_app (L n) es) as (_ & _ & -> & _). rewrite length_app. lia. }
  destruct Hdel as [Hi|Hempty].
  - assert (length (delivered (L m)) < length (delivered (L (S m))))%nat.
    { pose proof (moves _ _ _ He m) as Hmove. rewrite Hi in Hmove. destruct Hmove as (es' & Hs & ->).
      destruct (log_app (L m) es') as (_ & _ & _ & -> & _). rewrite length_app. cbn in Hs.
      destruct (MessageBus.consume_outbound _) as [[out b]|]; cbn in Hs; simplify_eq. cbn. lia. }
    pose proof (delivered_grows n m Hm).
    destruct (IH (target - length (delivered (L (S m))))%nat ltac:(lia) (S m)) as (k & Hk & ?);
      [by apply calm_next| |done|exists k; split; [lia|done]].
    destruct (log_grows m (S m) ltac:(lia)) as [es' ->]. destruct (log_app (L m) es') as (_ & _ & -> & _).
    rewrite length_app. lia.
  - exists m. split; [done|]. rewrite Hempty, app_nil_r in Hdm. rewrite Hdm. lia.
Qed.

Lemma sent_delivered n :
  calm (σ n) (L n) → ∃ m, (n ≤ m)%nat ∧ sent (L n) `prefix_of` delivered (L m).
Proof.
  intros Hc. destruct (delivered_count (length (sent (L n))) n Hc (le_n _)) as (m & Hm & Hlen).
  exists m. split; [done|]. pose proof (calm_delivered _ _ (calm_later n m Hm Hc)) as Hd.
  destruct (log_grows n m Hm) as [es Hes]. rewrite Hes in Hd at 2.
  destruct (log_app (L n) es) as (_ & _ & Hs & _). rewrite Hs in Hd.
  destruct (prefix_weak_total (sent (L n)) (delivered (L m)) (sent (L n) ++ sent es)) as [?|Hp];
    [by apply prefix_app_r|rewrite <- Hd; by apply prefix_app_r|done|].
  by rewrite (prefix_length_eq _ _ Hp Hlen).
Qed.

Lemma live_from n :
  calm (σ n) (L n) → ∃ m k, (n ≤ m ≤ k)%nat ∧ handled (L m) = accepted (L n) ∧
    replies_of (L m) `prefix_of` delivered (L k).
Proof.
  intros Hc. destruct (target_settled (length (accepted (L n))) n) as (m & Hm & [Hle Hns] & [Hcm Hw]).
  { split; [done|]. rewrite (calm_order _ _ Hc), length_app. lia. }
  destruct (sent_delivered m Hcm) as (k & Hk & Hpre). exists m, k. split_and!; [lia|lia| |].
  - destruct (log_grows n m Hm) as [es Hes]. pose proof (calm_order _ _ Hcm) as Hor.
    assert (accepted (L m) = accepted (L n) ++ accepted es) as Ha by (rewrite Hes; apply log_app).
    rewrite Ha in Hor. apply app_inj_1 in Hor as [Hor _]; [done|lia].
  - pose proof (calm_sent _ _ Hcm) as Hs. unfold in_reply, to_send in *.
    destruct (phase (σ m)); try done; by rewrite app_nil_r in Hs; rewrite <- Hs.
Qed.
End executions.

Lemma calm_start b streaming p st :
  fresh_bus b → (0 < capacity (outbound b))%nat → start (new b streaming p) = (Ok tt, st) → calm st [].
Proof.
  intros (Hi & Ho & Hci & Hco) Hcap [= <-].
  split; unfold in_queue, in_delivery, in_reply; cbn; rewrite ?Hi, ?Ho; done.
Qed.

(** C5: With nobody else running sessions or stopping the loop, and with the loop
    and the channels scheduled fairly, every accepted message is handled, each
    once and in the order of acceptance, and the replies to all of them reach the
    channels in that order, whatever is published in the meantime and however
    the runs end. *)
Theorem dispatch_live b streaming p σ L ι :
  fresh_bus b → (0 < capacity (outbound b))%nat →
  start (new b streaming p) = (Ok tt, σ 0%nat) → L 0%nat = [] → execution σ L ι →
  ∀ n, ∃ m k, (n ≤ m ≤ k)%nat ∧ handled (L m) = accepted (L n) ∧
    replies_of (L m) `prefix_of` delivered (L k).
Proof.
  intros Hb Hcap Hst HL He n. apply (live_from σ L ι He), (calm_later σ L ι He 0 n); [lia|].
  rewrite HL. by eapply calm_start.
Qed.

(** Nothing is queued for a busy session either. *)
Lemma never_queued ins b streaming p st st' log :
  fresh_bus b → (0 < capacity (outbound b))%nat → start (new b streaming p) = (Ok tt, st) →
  forallb quiet ins = true → run st [] ins = Some (st', log) →
  pending_messages st' = ∅ ∧ accepted log = handled log ++ in_hand st' ++ in_queue st'.
Proof.
  intros Hb Hcap Hst. pose proof (calm_start _ _ _ _ Hb Hcap Hst) as Hc. clear -Hc. revert Hc.
  generalize (@nil Event) as log0. revert st. induction ins as [|i ins IH]; intros st log0 Hc; cbn.
  - intros _ [= <- <-]. split; apply Hc.
  - intros [Hq Hqs]%andb_true_iff. destruct (step st i) as [[st1 es]|] eqn:Hs; [|done]. cbn.
    apply IH; [|done]. by eapply step_calm.
Qed.
End liveness.

(** ** What a reply looks like *)

Section shape.
Context `{RustUnicode}.
Context (extract_a2ui : string → string * list string) (cfg : DispatchConfig).
Implicit Types (msg : InboundMessage) (out : OutboundMessage).

Definition addressed msg out : Prop :=
  out_channel out = channel msg ∧ out_chat_id out = chat_id msg ∧
  (kind out ≠ Custom → ∀ k, k ∈ routing_keys → out_metadata out !! k = metadata msg !! k).

Definition fragment out : Prop := kind out = Chunk ∨ kind out = Custom.

(** The text of a stream up to the event that ends it. *)
Fixpoint streamed_text (events : list StreamEvent) : string :=
  match events with Delta t :: events => t +:+ streamed_text events | _ => "" end.

Fixpoint breaks (timed_out : bool) (events : list StreamEvent) : bool :=
  match events with
  | [] => timed_out
  | Delta _ :: events => breaks timed_out events
  | StreamError _ :: _ => true
  | _ => false
  end.

Definition chunk_texts (outs : list OutboundMessage) : list string :=
  map out_content (filter (λ o, kind o = Chunk) outs).

Lemma propagate_spec msg out :
  let out' := propagate_routing_metadata out msg in
  out_channel out' = out_channel out ∧ out_chat_id out' = out_chat_id out ∧
  out_content out' = out_content out ∧ kind out' = kind out ∧
  ∀ k, out_metadata out' !! k =
    if bool_decide (k ∈ routing_keys) then metadata msg !! k ∪ out_metadata out !! k
    else out_metadata out !! k.
Proof.
  assert (∀ ks out, let out' := foldl (propagate_key msg) out ks in
    out_channel out' = out_channel out ∧ out_chat_id out' = out_chat_id out ∧
    out_content out' = out_content out ∧ kind out' = kind out ∧
    ∀ k, out_metadata out' !! k =
      if bool_decide (k ∈ ks) then metadata msg !! k ∪ out_metadata out !! k
      else out_metadata out !! k) as Hks; [|by apply Hks].
  clear out. induction ks as [|k ks IH]; intros out; [done|]. cbn.
  destruct (IH (propagate_key msg out k)) as (-> & -> & -> & -> & Hm).
  assert (out_channel (propagate_key msg out k) = out_channel out ∧
    out_chat_id (propagate_key msg out k) = out_chat_id out ∧
    out_content (propagate_key msg out k) = out_content out ∧ kind (propagate_key msg out k) = kind out ∧
    out_metadata (propagate_key msg out k) !! k = metadata msg !! k ∪ out_metadata out !! k ∧
    ∀ k', k' ≠ k → out_metadata (propagate_key msg out k) !! k' = out_metadata out !! k')
    as (-> & -> & -> & -> & Hk & Hk').
  { unfold propagate_key. destruct (metadata msg !! k) as [v|]; cbn.
    - split_and!; try done; [by rewrite lookup_insert_eq, union_Some_l|].
      intros k' Hne. by rewrite lookup_insert_ne.
    - by rewrite (left_id_L None (∪)). }
  split_and!; try done. intros k'. rewrite Hm. destruct (decide (k' = k)) as [->|Hne].
  - rewrite Hk, (bool_decide_eq_true_2 (k ∈ k :: ks)) by set_solver. case_bool_decide; [|done].
    by destruct (metadata msg !! k), (out_metadata out !! k).
  - rewrite Hk' by done. by rewrite (bool_decide_ext (k' ∈ k :: ks) (k' ∈ ks)) by set_solver.
Qed.

Lemma propagate_addressed msg out :
  out_channel out = channel msg → out_chat_id out = chat_id msg →
  (∀ k, k ∈ routing_keys → out_metadata out !! k = None) →
  addressed msg (propagate_routing_metadata out msg).
Proof.
  intros Hc Hi Hk. destruct (propagate_spec msg out) as (H1 & H2 & _ & _ & Hm).
  split; [by rewrite H1|]. split; [by rewrite H2|]. intros _ k Hin. rewrite Hm, bool_decide_eq_true_2 by done.
  rewrite Hk by done. by destruct (metadata msg !! k).
Qed.

Lemma propagate_is_error msg out :
  OutboundMessage.is_error (propagate_routing_metadata out msg) = OutboundMessage.is_error out.
Proof.
  unfold OutboundMessage.is_error. destruct (propagate_spec msg out) as (_ & _ & _ & _ & ->).
  by rewrite (bool_decide_eq_false_2 (OUTBOUND_ERROR_KEY ∈ routing_keys)) by (unfold routing_keys; set_solver).
Qed.

(** The four shapes of messages. *)
Lemma reply_shape msg text :
  addressed msg (reply msg text) ∧ kind (reply msg text) = Full ∧
  out_content (reply msg text) = text ∧ OutboundMessage.is_error (reply msg text) = false.
Proof.
  unfold reply. rewrite propagate_is_error. split; [by apply propagate_addressed|].
  by destruct (propagate_spec msg (OutboundMessage.new (channel msg) (chat_id msg) text)) as (_ & _ & -> & -> & _).
Qed.

Lemma error_reply_shape msg text :
  addressed msg (error_reply msg text) ∧ kind (error_reply msg text) = Full ∧
  out_content (error_reply msg text) = text ∧ OutboundMessage.is_error (error_reply msg text) = true.
Proof.
  unfold error_reply. rewrite propagate_is_error. split.
  - apply propagate_addressed; [done|done|]. intros k Hk. cbn. unfold routing_keys in Hk.
    rewrite lookup_insert_ne by set_solver. apply lookup_empty.
  - by destruct (propagate_spec msg (OutboundMessage.mark_error
      (OutboundMessage.new (channel msg) (chat_id msg) text))) as (_ & _ & -> & -> & _).
Qed.

Lemma chunk_shape msg text k :
  addressed msg (chunk msg text k) ∧ kind (chunk msg text k) = k ∧
  out_content (chunk msg text k) = text ∧ OutboundMessage.is_error (chunk msg text k) = false.
Proof.
  unfold chunk. rewrite propagate_is_error. split; [by apply propagate_addressed|].
  by destruct (propagate_spec msg (OutboundMessage.with_kind
    (OutboundMessage.new (channel msg) (chat_id msg) text) k)) as (_ & _ & -> & -> & _).
Qed.

Lemma split_a2ui_shape msg response :
  Forall (λ o, addressed msg o ∧ kind o = Custom) (split_a2ui extract_a2ui msg response).2.
Proof.
  unfold split_a2ui. destruct (supports_custom_ui_channel (channel msg)); [|constructor].
  destruct (extract_a2ui response) as [text messages]. cbn. unfold emit_a2ui_messages.
  induction messages as [|m ms IH]; [constructor|]. cbn. apply Forall_app. split; [|done].
  unfold publish_custom_ui_event. destruct (supports_custom_ui_channel _); [|constructor].
  repeat constructor; done.
Qed.

(** The chunks of a stream. *)
Lemma stream_loop_shape msg had streamed timed_out events outs e :
  stream_loop msg had streamed timed_out events = (outs, e) →
  Forall (λ o, addressed msg o ∧ kind o = Chunk) outs ∧
  str_concat (map out_content outs) = streamed_text events ∧
  (if breaks timed_out events then ∀ h c, e ≠ Complete h c
   else ∃ c, e = Complete (had || negb (Nat.eqb (length outs) 0)) c).
Proof.
  revert had streamed outs e. induction events as [|[t| |c|e0] events IH]; intros had streamed outs e; cbn [stream_loop streamed_text breaks].
  - intros [= <- <-]. split_and!; [constructor|done|]. destruct timed_out; [done|]. rewrite orb_false_r. eauto.
  - destruct (stream_loop msg true (streamed +:+ t) timed_out events) as [outs' e'] eqn:Hl.
    intros [= <- <-]. destruct (IH _ _ _ _ Hl) as (Hf & Ht & Hb).
    destruct (chunk_shape msg t Chunk) as (Ha & Hk & Hc & _). split_and!.
    + by constructor.
    + cbn [map str_concat]. by rewrite Hc, Ht.
    + destruct (breaks timed_out events); [done|]. destruct Hb as [c ->]. exists c. by rewrite orb_true_r.
  - intros [= <- <-]. split_and!; [constructor|done|]. rewrite orb_false_r. eauto.
  - intros [= <- <-]. split_and!; [constructor|done|]. rewrite orb_false_r. eauto.
  - intros [= <- <-]. split_and!; [constructor|done|done].
Qed.

Lemma chunk_texts_app l1 l2 : chunk_texts (l1 ++ l2) = chunk_texts l1 ++ chunk_texts l2.
Proof. unfold chunk_texts. by rewrite filter_app, map_app. Qed.

Lemma chunk_texts_chunks msg outs :
  Forall (λ o, addressed msg o ∧ kind o = Chunk) outs → chunk_texts outs = map out_content outs.
Proof.
  unfold chunk_texts. induction 1 as [|o outs [_ Ho] _ IH]; [done|].
  rewrite filter_cons_True by done. cbn. by rewrite IH.
Qed.

Lemma chunk_texts_customs msg outs :
  Forall (λ o, addressed msg o ∧ kind o = Custom) outs → chunk_texts outs = [].
Proof.
  unfold chunk_texts. induction 1 as [|o outs [_ Ho] _ IH]; [done|].
  rewrite filter_cons_False; [done|]. by rewrite Ho.
Qed.

(** What is wrong with a run, for the user. *)
Definition went_wrong (stream : bool) (r : RunResult) : bool :=
  match r with
  | Replied _ => false
  | Failed _ => true
  | TimedOut => stream
  | Streamed events timed_out => breaks timed_out events
  end.

Definition run_text (r : RunResult) : string :=
  match r with Streamed events _ => streamed_text events | _ => "" end.

(** C6: The replies to a run are fragments (chunks and interface updates)
    followed by exactly one message that ends the turn, all addressed to the chat
    and thread of the message. The chunks together are the text of the stream.
    The last message is the end of the chunks when there were any and nothing
    went wrong, and else a full one; it is flagged as an error exactly when the
    run failed, its stream broke, or a streamed run timed out. *)
Theorem replies_shape msg streaming r :
  result_of_kind (should_stream msg streaming) r = true →
  ∃ fragments ending, replies extract_a2ui cfg msg streaming r = fragments ++ [ending] ∧
    Forall (addressed msg) (fragments ++ [ending]) ∧ Forall fragment fragments ∧
    str_concat (chunk_texts fragments) = run_text r ∧
    kind ending = (if negb (went_wrong (should_stream msg streaming) r) &&
                      negb (Nat.eqb (length (chunk_texts fragments)) 0) then ChunkEnd else Full) ∧
    OutboundMessage.is_error ending = went_wrong (should_stream msg streaming) r.
Proof.
  intros Hr. assert (∀ response text a2ui, split_a2ui extract_a2ui msg response = (text, a2ui) →
    Forall (addressed msg) a2ui ∧ Forall fragment a2ui ∧ chunk_texts a2ui = []) as Hui.
  { intros response text a2ui He. pose proof (split_a2ui_shape msg response) as Hs. rewrite He in Hs. cbn in Hs.
    split_and!; [eapply Forall_impl; [exact Hs|]; by intros o [? _]| |by eapply chunk_texts_customs].
    eapply Forall_impl; [done|]. intros o [_ Ho]. by right. }
  unfold replies. destruct (should_stream msg streaming); destruct r as [response|e| |events timed_out]; try done.
  - exists [], (error_reply msg (failure_text e)). destruct (error_reply_shape msg (failure_text e)) as (?&?&?&?).
    split_and!; try done; by apply Forall_singleton.
  - exists [], (error_reply msg (timeout_text cfg)). destruct (error_reply_shape msg (timeout_text cfg)) as (?&?&?&?).
    split_and!; try done; by apply Forall_singleton.
  - cbn [streamed_replies went_wrong run_text].
    destruct (stream_loop msg false "" timed_out events) as [chunks e] eqn:Hl.
    destruct (stream_loop_shape _ _ _ _ _ _ _ Hl) as (Hf & Ht & Hb).
    assert (Forall (addressed msg) chunks ∧ Forall fragment chunks) as [Hca Hcf].
    { split; (eapply Forall_impl; [exact Hf|]); intros o [? ?]; [done|by left]. }
    pose proof (chunk_texts_chunks _ _ Hf) as Hct. destruct (breaks timed_out events) eqn:Hbr.
    + assert (∃ text, stream_end_replies extract_a2ui cfg msg e = [error_reply msg text]) as [text ->].
      { destruct e as [h c|e0|]; [by destruct (Hb h c)|eexists; reflexivity..]. }
      destruct (error_reply_shape msg text) as (?&?&?&?). exists chunks, (error_reply msg text).
      split_and!; try done; [|by rewrite Hct]. apply Forall_app. split; [done|by apply Forall_singleton].
    + destruct Hb as [c ->]. cbn [stream_end_replies].
      destruct (split_a2ui extract_a2ui msg c) as [text a2ui] eqn:Hs. destruct (Hui _ _ _ Hs) as (H1 & H2 & H3).
      set (last := if false || _ then _ else _).
      assert (addressed msg last ∧ OutboundMessage.is_error last = false ∧
        kind last = if negb (Nat.eqb (length chunks) 0) then ChunkEnd else Full) as (Hla & Hle & Hlk).
      { subst last. cbn [orb]. destruct (negb _).
        - destruct (chunk_shape msg "" ChunkEnd) as (?&?&?&?). done.
        - destruct (reply_shape msg text) as (?&?&?&?). done. }
      exists (chunks ++ a2ui), last. rewrite chunk_texts_app, H3, app_nil_r, Hct, length_map, <- app_assoc.
      split_and!; try done; [|by apply Forall_app]. rewrite !Forall_app, Forall_singleton. done.
  - cbn. destruct (split_a2ui extract_a2ui msg response) as [text a2ui] eqn:Hs.
    destruct (Hui _ _ _ Hs) as (H1 & H2 & H3). destruct (reply_shape msg text) as (?&?&?&?).
    exists a2ui, (reply msg text). split_and!; try done; [|by rewrite H3|by rewrite H3].
    apply Forall_app. split; [done|by apply Forall_singleton].
  - exists [], (error_reply msg (failure_text e)). destruct (error_reply_shape msg (failure_text e)) as (?&?&?&?).
    split_and!; try done; by apply Forall_singleton.
  - exists [], (reply msg (timeout_text cfg)). destruct (reply_shape msg (timeout_text cfg)) as (?&?&?&?).
    split_and!; try done; by apply Forall_singleton.
Qed.
End shape.

(** ** Examples *)

Module Example_dispatch.
Definition plain : string → string * list string := λ s, (s, []).
Definition cfg (collect : bool) : DispatchConfig := mkDispatchConfig 600 collect.
Definition clock : Readings := mkReadings 0 0 0 0 0 0.

Definition agent (capacity : nat) (p : option PairingManager) : Agent (I := unit) :=
  new (MessageBus.with_buffer_size capacity tt) true p.

Definition play (collect : bool) (st : Agent) (ins : list Input) : option (Agent (I := unit) * list Event) :=
  run_loop (λ t, "#" +:+ t) plain (cfg collect) st [] ins.

Definition ask (chat text : string) : InboundMessage := InboundMessage.new "telegram" "user" chat text.
Definition round (text : string) : list Input :=
  [Consume clock; AcquireLock; EndRun (Replied text); SendNext; Drain].

(** A message comes while another task runs its session; a second one after
    that. The first is published again when the second is answered. *)
Definition busy : list Input :=
  [Start; Publish (ask "1" "one"); Lock "telegram:1"; Consume clock; Unlock "telegram:1"].

Definition history : list Input :=
  busy ++ [Publish (ask "1" "two")] ++ round "2" ++ [RequeueNext; RequeueNext] ++ round "1" ++ [RequeueNext; Deliver].

Lemma messages_accounted_witness :
  match play false (agent 2 None) history with
  | Some (st, log) =>
    handled log = [ask "1" "two"; ask "1" "one"] ∧ in_the_system st = [] ∧
    publications history ++ collected log ≡ₚ
      intercepted log ++ handled log ++ merged log ++ in_the_system st ∧
    sent log ++ to_send st = replies_of log ∧ delivered log ++ in_delivery st = sent log
  | None => False
  end.
Proof.
  destruct (play false (agent 2 None) history) as [[st log]|] eqn:Hp; [|by vm_compute in Hp].
  destruct (messages_accounted (λ t, "#" +:+ t) plain (cfg false) (MessageBus.with_buffer_size 2 tt) true None history st log)
    as (H1 & H2 & H3 & _); [by split_and!|exact Hp|].
  assert (handled log = [ask "1" "two"; ask "1" "one"] ∧ in_the_system st = []) as [H4 H5].
  { assert (match play false (agent 2 None) history with
            | Some (st, log) => handled log = [ask "1" "two"; ask "1" "one"] ∧ in_the_system st = []
            | None => False
            end) as Hv by (vm_compute; split; reflexivity).
    by rewrite Hp in Hv. }
  split_and!; [exact H4|exact H5|exact H1|exact H2|exact H3].
Defined.

(** The message that waits for the busy session is not looked at again until
    another message of the session is answered: the loop has nothing to do. *)
Example forgotten :
  match play true (agent 100 None) busy with
  | Some (st, _) =>
    waiting_for_sessions st = [ask "1" "one"] ∧ phase st = Selecting ∧ held st = ∅ ∧
    ∀ i, loop_input i = true → step (λ t, "#" +:+ t) plain (cfg true) st i = None
  | None => False
  end.
Proof. vm_compute. split_and!; [reflexivity..|intros i Hi; destruct i as [| | | | | | |r| |r| | |];
    first [discriminate Hi|reflexivity|destruct r; reflexivity]].
Qed.

(** The queue of the bus is full when the loop publishes the waiting messages
    again: the loop waits for room that only the loop could make. *)
Definition stuck : list Input :=
  busy ++ [Publish (ask "1" "two")] ++ [Consume clock; Publish (ask "2" "three")] ++
  [AcquireLock; EndRun (Replied "2"); SendNext; Drain].

Example deadlock :
  match play false (agent 1 None) stuck with
  | Some (st, _) =>
    phase st = Requeueing [ask "1" "one"] ∧ in_queue st = [ask "2" "three"] ∧ running st = true ∧
    ∀ i, loop_input i = true → step (λ t, "#" +:+ t) plain (cfg false) st i = None
  | None => False
  end.
Proof. vm_compute. split_and!; [reflexivity..|intros i Hi; destruct i as [| | | | | | |r| |r| | |];
    first [discriminate Hi|reflexivity|destruct r; reflexivity]].
Qed.

(** The collected message has no metadata: with pairing on it is refused. *)
Definition signed (text : string) : InboundMessage :=
  InboundMessage.with_metadata (ask "1" text) "auth_token" "tok".

Definition paired_history : list Input :=
  [Start; Publish (signed "one"); Lock "telegram:1"; Consume clock; Unlock "telegram:1";
   Publish (signed "two")] ++ round "2" ++ [RequeueNext; RequeueNext; Consume clock; SendNext].

Example collected_refused :
  match play true (agent 100 (Some (fst (Example_pairing.run Example_pairing.paired)))) paired_history with
  | Some (_, log) =>
    handled log = [signed "two"; synthetic (signed "two") [signed "one"]] ∧
    map out_content (sent log) = ["2"; DENIED_TEXT]
  | None => False
  end.
Proof. vm_compute. split; reflexivity. Qed.

(** A timeout without streaming is no error for the channel, with streaming it is. *)
Example timeouts :
  let streaming_msg := InboundMessage.with_metadata (ask "1" "hi") "streaming_capable" "true" in
  map OutboundMessage.is_error (replies plain (cfg true) (ask "1" "hi") true TimedOut) = [false] ∧
  map OutboundMessage.is_error (replies plain (cfg true) streaming_msg true TimedOut) = [true].
Proof. vm_compute. split; reflexivity. Qed.

(** One message, from the channel to the channel; then nothing happens. *)
Definition story : list Input := [Publish (ask "1" "hi")] ++ round "hello" ++ [RequeueNext; Deliver].

Definition started : Agent (I := unit) := snd (start (agent 1 None)).
Definition moment (n : nat) : Agent * list Event := default (started, []) (play false started (take n story)).

Lemma story_execution :
  execution (λ t, "#" +:+ t) plain (cfg false) (λ n, fst (moment n)) (λ n, snd (moment n)) (λ n, story !! n).
Proof.
  assert (∀ n, (8 ≤ n)%nat → moment n = moment 8) as Hend.
  { intros n Hn. unfold moment. by rewrite !take_ge by (cbn; lia). }
  split.
  - intros n. destruct (decide (8 ≤ n)%nat) as [Hn|Hn].
    + rewrite (Hend n), (Hend (S n)) by lia. by rewrite (lookup_ge_None_2 story n) by (cbn; lia).
    + do 8 (destruct n as [|n]; [eexists; split; vm_compute; reflexivity|]). lia.
  - intros n i Hi. unfold story in Hi.
    do 8 (destruct n as [|n]; [cbn in Hi; by simplify_eq|]). done.
  - intros n. exists (n `max` 8)%nat. split; [lia|]. right. rewrite Hend by lia. intros i Hi.
    destruct i as [| | | | | | |r| |r| | |]; first [discriminate Hi|reflexivity|destruct r; reflexivity].
  - intros n. exists (n `max` 8)%nat. split; [lia|]. right. rewrite Hend by lia. reflexivity.
Qed.

Lemma dispatch_live_witness :
  ∃ m k, (1 ≤ m ≤ k)%nat ∧ handled (snd (moment m)) = [ask "1" "hi"] ∧
    replies_of (snd (moment m)) `prefix_of` delivered (snd (moment k)).
Proof.
  apply (dispatch_live (λ t, "#" +:+ t) plain (cfg false) (MessageBus.with_buffer_size 1 tt) true None
           (λ n, fst (moment n)) (λ n, snd (moment n)) (λ n, story !! n)
           ltac:(by split_and!) ltac:(cbn; lia) ltac:(reflexivity) ltac:(reflexivity) story_execution 1%nat).
Defined.

(** A streamed answer whose last event repeats it. *)
Lemma replies_shape_witness :
  let msg := InboundMessage.with_metadata (ask "1" "hi") "streaming_capable" "true" in
  let r := Streamed [Delta "Hel"; Delta "lo"; Done "Hello"] false in
  map (λ o, (kind o, out_content o)) (replies plain (cfg true) msg true r) =
    [(Chunk, "Hel"); (Chunk, "lo"); (ChunkEnd, "")] ∧
  ∃ fragments ending, replies plain (cfg true) msg true r = fragments ++ [ending] ∧
    str_concat (chunk_texts fragments) = "Hello" ∧ kind ending = ChunkEnd.
Proof.
  split; [vm_compute; reflexivity|].
  destruct (replies_shape plain (cfg true) (InboundMessage.with_metadata (ask "1" "hi") "streaming_capable" "true")
    true (Streamed [Delta "Hel"; Delta "lo"; Done "Hello"] false) eq_refl)
    as (fragments & ending & Hr & _ & _ & Ht & Hk & _).
  exists fragments, ending. split_and!; [exact Hr|exact Ht|].
  rewrite Hk. destruct (chunk_texts fragments); [by cbn in Ht|reflexivity].
Defined.
End Example_dispatch.
