(* ===== verification/Cron.v ===== *)
(** Scheduled jobs: src/src/cron/mod.rs and the tool of src/src/tools/cron.rs.

    Times are milliseconds, [i64] of the source; the calendar of chrono is a
    class. Clock readings are arguments. A tick of the scheduler releases its
    lock while it publishes: it is several steps ([CronEvent]), between which jobs
    come and go. JSON is a pair of functions; jitter only delays. *)

From S2P Require Import Prelude Text Lines Errors Bus.

(** ** Integers and the calendar *)

Definition i64_min : Z := - 2 ^ 63.
Definition wrap_i64 (z : Z) : Z := (z + 2 ^ 63) mod 2 ^ 64 - 2 ^ 63.

Lemma wrap_i64_small z : i64_min ≤ z ≤ i64_max → wrap_i64 z = z.
Proof. unfold i64_min, i64_max, wrap_i64. intros Hz. rewrite Z.mod_small; lia. Qed.

(** UTC date and time of a timestamp; [representable]: in the range of dates. *)
Class Calendar := {
  representable : Z → bool;
  minute : Z → Z;
  hour : Z → Z;
  day : Z → Z;
  month : Z → Z;
  weekday : Z → Z;
}.

(** ** Schedules *)

Inductive CronSchedule : Type :=
| At (at_ms : Z)
| Every (every_ms : Z)
| Cron (expr : string).

#[export] Instance CronSchedule_eq_dec : EqDecision CronSchedule.
Proof. solve_decision. Defined.

Definition parse_u32 (s : string) : option Z :=
  z ← parse_usize s; if z <=? u32_max then Some z else None.

(** [str::split(',')]. *)
Fixpoint split_commas (s current : string) : list string :=
  match s with
  | EmptyString => [current]
  | String c s =>
    if Ascii.eqb c (Ascii.ascii_of_nat 44) then current :: split_commas s ""
    else split_commas s (current +:+ String c "")
  end.

(** [(min..=max)], and every [step]-th of it. *)
Definition range (min max : Z) : list Z := seqZ min (max - min + 1).
Definition step_by (step min max : Z) : list Z :=
  filter (λ v, (v - min) mod step = 0) (range min max).

Fixpoint parse_values (parts : list string) (min max : Z) : option (list Z) :=
  match parts with
  | [] => Some []
  | part :: parts =>
    value ← parse_u32 part;
    if (min <=? value) && (value <=? max) then vs ← parse_values parts min max; Some (value :: vs)
    else None
  end.

Definition parse_cron_field (field : string) (min max : Z) : option (list Z) :=
  if String.eqb field "*" then Some (range min max)
  else
    match strip_prefix field "*/" with
    | Some step_str =>
      step ← parse_u32 step_str;
      if step =? 0 then None else Some (step_by step min max)
    | None =>
      values ← parse_values (split_commas field "") min max;
      if Nat.eqb (length values) 0 then None else Some values
    end.

Record CronFields : Type := mkCronFields {
  minutes : list Z;
  hours : list Z;
  dom : list Z;
  months : list Z;
  dow : list Z;
}.

Definition parse_cron_expr (expr : string) : option CronFields :=
  match split_whitespace expr with
  | [f0; f1; f2; f3; f4] =>
    minutes ← parse_cron_field f0 0 59;
    hours ← parse_cron_field f1 0 23;
    dom ← parse_cron_field f2 1 31;
    months ← parse_cron_field f3 1 12;
    dow ← parse_cron_field f4 0 6;
    Some (mkCronFields minutes hours dom months dow)
  | _ => None
  end.

Section schedules.
Context `{Calendar}.

Definition matches (f : CronFields) (t : Z) : bool :=
  if any (Z.eqb (minute t)) (minutes f) then
    if any (Z.eqb (hour t)) (hours f) then
      any (Z.eqb (day t)) (dom f) && any (Z.eqb (month t)) (months f) && any (Z.eqb (weekday t)) (dow f)
    else false
  else false.

Definition MINUTE : Z := 60000.

(** The loop over the minutes from [candidate] on, [n] of them. *)
Fixpoint find_minute (f : CronFields) (n : nat) (candidate : Z) : option Z :=
  match n with
  | O => None
  | S n => if matches f candidate then Some candidate else find_minute f n (candidate + MINUTE)
  end.

(** The minutes of 366 days, both ends included. *)
Definition MINUTES : nat := Z.to_nat 527041.

Definition next_minute (now : Z) : Z := now / MINUTE * MINUTE + MINUTE.

Definition next_run_from_cron_expr (expr : string) (now : Z) : option Z :=
  f ← parse_cron_expr expr;
  if representable now then find_minute f MINUTES (next_minute now) else None.

Definition is_valid_cron_expr (expr : string) (now : Z) : bool :=
  match next_run_from_cron_expr expr now with Some _ => true | None => false end.

Definition next_run_at (schedule : CronSchedule) (now : Z) : option Z :=
  match schedule with
  | At at_ms => if now <? at_ms then Some at_ms else None
  | Every every_ms => if 0 <? every_ms then Some (wrap_i64 (now + every_ms)) else None
  | Cron expr => next_run_from_cron_expr expr now
  end.
End schedules.

(** ** Jobs *)

Record CronPayload : Type := mkCronPayload {
  message : string;
  payload_channel : string;
  payload_chat_id : string;
}.

Record CronJobState : Type := mkCronJobState {
  next_run_at_ms : option Z;
  last_run_at_ms : option Z;
  last_status : option string;
  last_error : option string;
  consecutive_errors : Z;
  last_duration_ms : option Z;
}.

Record CronJob : Type := mkCronJob {
  id : string;
  name : string;
  enabled : bool;
  schedule : CronSchedule;
  payload : CronPayload;
  state : CronJobState;
  created_at_ms : Z;
  updated_at_ms : Z;
  delete_after_run : bool;
  timeout_secs : option Z;
}.

Definition with_state (j : CronJob) (enabled : bool) (s : CronJobState) (updated : Z) : CronJob :=
  mkCronJob (id j) (name j) enabled (schedule j) (payload j) s (created_at_ms j) updated
    (delete_after_run j) (timeout_secs j).

Definition with_next (s : CronJobState) (n : option Z) : CronJobState :=
  mkCronJobState n (last_run_at_ms s) (last_status s) (last_error s) (consecutive_errors s)
    (last_duration_ms s).

Record CronStore : Type := mkCronStore { version : Z; jobs : list CronJob }.

Definition CronStore_default : CronStore := mkCronStore 1 [].
Definition with_jobs (s : CronStore) (js : list CronJob) : CronStore := mkCronStore (version s) js.

Definition DEFAULT_DISPATCH_TIMEOUT_MS : Z := 5000.
Definition DEDUP_WINDOW_MS : Z := 60000.
Definition ERROR_BACKOFF_SCHEDULE_MS : list Z := [30000; 60000; 5 * 60000; 15 * 60000; 60 * 60000].

Definition dispatch_timeout_ms (timeout_secs : option Z) : Z :=
  match timeout_secs with
  | Some secs => sat_mul64 secs 1000
  | None => DEFAULT_DISPATCH_TIMEOUT_MS
  end.

Definition should_skip_missed_dispatch (job : CronJob) (next : Z) : bool :=
  match last_run_at_ms (state job) with
  | None => false
  | Some last =>
    if bool_decide (last_status (state job) = Some "ok") then
      (0 <=? last - next) && (last - next <? DEDUP_WINDOW_MS)
    else false
  end.

Definition error_backoff_ms (consecutive_errors : Z) : Z :=
  if consecutive_errors =? 0 then 0
  else
    let idx := Nat.min (Z.to_nat (consecutive_errors - 1)) (length ERROR_BACKOFF_SCHEDULE_MS - 1) in
    nth idx ERROR_BACKOFF_SCHEDULE_MS 0.

Definition jitter_delay (max_ms subsec_nanos : Z) : Z :=
  if max_ms =? 0 then 0 else subsec_nanos mod max_ms.

Inductive OnMiss : Type := Skip | RunOnce.

#[export] Instance OnMiss_eq_dec : EqDecision OnMiss.
Proof. solve_decision. Defined.

Definition inbound_of (p : CronPayload) : InboundMessage :=
  InboundMessage.new (payload_channel p) "cron" (payload_chat_id p) (message p).

(** ** The service *)

Section service.
Context `{Calendar} {Body : Type}.
Context (to_json : CronStore → Body) (from_json : Body → result string CronStore).

Record CronService : Type := mkCronService {
  store : CronStore;
  file : option Body;
  running : bool;
  handle : bool;          (* whether the task of the scheduler exists *)
}.

Implicit Types (self : CronService) (js : list CronJob).

Definition new (file : option Body) : CronService := mkCronService CronStore_default file false false.

Definition set_store self (s : CronStore) : CronService :=
  mkCronService s (file self) (running self) (handle self).

(** [write_error]: whether and how the write of the file fails. *)
Definition save_store self (write_error : option string) : result ZeptoError unit * CronService :=
  match write_error with
  | Some e => (Err (Io e), self)
  | None => (Ok tt, mkCronService (store self) (Some (to_json (store self))) (running self) (handle self))
  end.

Definition load_store self (read_error : option string) : result ZeptoError CronStore :=
  match file self with
  | None => Ok CronStore_default
  | Some body =>
    match read_error with
    | Some e => Err (Io e)
    | None => match from_json body with Ok s => Ok s | Err e => Err (Json e) end
    end
  end.

(** One job when the service starts, and whether its missed run is made up for. *)
Definition start_job (on_miss : OnMiss) (now : Z) (job : CronJob) : CronJob * bool :=
  if enabled job then
    match next_run_at_ms (state job) with
    | Some next =>
      if next <=? now then
        (with_state job true (with_next (state job) (next_run_at (schedule job) now)) (updated_at_ms job),
         match on_miss with
         | Skip => false
         | RunOnce => negb (should_skip_missed_dispatch job next)
         end)
      else (job, false)
    | None =>
      (with_state job true (with_next (state job) (next_run_at (schedule job) now)) (updated_at_ms job), false)
    end
  else (job, false).

(** The result, the service, and the missed messages that are published. *)
Definition start self (on_miss : OnMiss) (now : Z) (read_error write_error : option string)
    : result ZeptoError unit * CronService * list InboundMessage :=
  if running self then (Ok tt, self, [])
  else
    let self := mkCronService (store self) (file self) true (handle self) in
    match load_store self read_error with
    | Err e => (Err e, self, [])
    | Ok loaded =>
      let started := map (start_job on_miss now) (jobs loaded) in
      let self := set_store self (with_jobs loaded (map fst started)) in
      let missed := map (λ jb, inbound_of (payload (fst jb))) (filter (λ jb, snd jb = true) started) in
      match save_store self write_error with
      | (Err e, self) => (Err e, self, missed)
      | (Ok _, self) => (Ok tt, mkCronService (store self) (file self) (running self) true, missed)
      end
    end.

Definition stop self : CronService := mkCronService (store self) (file self) false false.

Definition new_job (id name : string) (schedule : CronSchedule) (payload : CronPayload)
    (delete_after_run : bool) (timeout_secs : option Z) (now : Z) : CronJob :=
  mkCronJob id name true schedule payload
    (mkCronJobState (next_run_at schedule now) None None None 0 None) now now delete_after_run timeout_secs.

Definition add_job_with_timeout self (job : CronJob) (write_error : option string)
    : result ZeptoError CronJob * CronService :=
  let self := set_store self (with_jobs (store self) (jobs (store self) ++ [job])) in
  match save_store self write_error with
  | (Ok _, self) => (Ok job, self)
  | (Err e, self) => (Err e, self)
  end.

(** [sort_by_key]: stable. *)
Definition sort_key (j : CronJob) : Z := default i64_max (next_run_at_ms (state j)).
Fixpoint insert_job (j : CronJob) js : list CronJob :=
  match js with
  | [] => [j]
  | k :: js' => if sort_key j <=? sort_key k then j :: js else k :: insert_job j js'
  end.

Definition list_jobs self (include_disabled : bool) : list CronJob :=
  foldr insert_job [] (filter (λ j, include_disabled || enabled j = true) (jobs (store self))).

Definition remove_job self (job_id : string) (write_error : option string)
    : result ZeptoError bool * CronService :=
  let before := length (jobs (store self)) in
  let js := filter (λ j, id j ≠ job_id) (jobs (store self)) in
  let self := set_store self (with_jobs (store self) js) in
  if Nat.ltb (length js) before then
    match save_store self write_error with
    | (Ok _, self) => (Ok true, self)
    | (Err e, self) => (Err e, self)
    end
  else (Ok false, self).

(** *** A tick *)

Definition is_due (now : Z) (job : CronJob) : bool :=
  enabled job && match next_run_at_ms (state job) with Some n => n <=? now | None => false end.

Definition due_jobs self (now : Z) : list CronJob := filter (λ j, is_due now j = true) (jobs (store self)).

(** How a publication ended. *)
Inductive SendResult : Type := SendOk | SendErr (e : ZeptoError) | SendTimedOut.

Record RunRecord : Type := mkRunRecord {
  job_id : string;
  ok : bool;
  err : option string;
  started_at : Z;
  ended_at : Z;
}.

Definition record_of (job : CronJob) (started : Z) (r : SendResult) (ended : Z) : RunRecord :=
  match r with
  | SendOk => mkRunRecord (id job) true None started ended
  | SendErr e => mkRunRecord (id job) false (Some (ZeptoError_display e)) started ended
  | SendTimedOut => mkRunRecord (id job) false (Some "cron dispatch timed out") started ended
  end.

(** When a job runs next, after a run that ended like this; [errors] in a row. *)
Definition reschedule (s : CronSchedule) (ok : bool) (ended errors : Z) : option Z :=
  if ok then next_run_at s ended
  else
    let backoff_next := wrap_i64 (ended + error_backoff_ms errors) in
    let base_next := default backoff_next (next_run_at s ended) in
    Some (Z.max base_next backoff_next).

Definition after_run (job : CronJob) (r : RunRecord) : CronJob :=
  let errors := if ok r then 0 else sat_add32 (consecutive_errors (state job)) 1 in
  let next := match schedule job with At _ => None | s => reschedule s (ok r) (ended_at r) errors end in
  with_state job (match schedule job with At _ => false | _ => enabled job end)
    (mkCronJobState next (Some (started_at r)) (Some (if ok r then "ok" else "error")) (err r) errors
       (Some (Z.max 0 (wrap_i64 (ended_at r - started_at r)))))
    (ended_at r).

(** The first job with the id of the record. *)
Fixpoint apply_record js (r : RunRecord) : list CronJob :=
  match js with
  | [] => []
  | j :: js => if String.eqb (id j) (job_id r) then after_run j r :: js else j :: apply_record js r
  end.

Definition should_remove (job : CronJob) : bool :=
  match schedule job with At _ => true | _ => false end && delete_after_run job && negb (enabled job) &&
  bool_decide (last_status (state job) = Some "ok").

Definition apply_records js (rs : list RunRecord) : list CronJob :=
  filter (λ j, should_remove j = false) (foldl apply_record js rs).

(** The end of a tick: the results are stored and the file is written. *)
Definition finish_tick self (rs : list RunRecord) (write_error : option string)
    : result ZeptoError unit * CronService :=
  save_store (set_store self (with_jobs (store self) (apply_records (jobs (store self)) rs))) write_error.

(** *** The steps of the scheduler and of its users *)

Inductive CronEvent : Type :=
| Add (job_id name : string) (schedule : CronSchedule) (payload : CronPayload)
    (delete_after_run : bool) (timeout_secs : option Z) (now : Z) (write_error : option string)
| Remove (job_id : string) (write_error : option string)
| TickStart (now : Z)
| Dispatch (started : Z) (r : SendResult) (ended : Z)
| TickEnd (write_error : option string).

(** A tick: its time, the due jobs not published yet, and the results so far. *)
Record Tick : Type := mkTick { tick_now : Z; due : list CronJob; results : list RunRecord }.

(** A publication of a job. *)
Record Run : Type := mkRun { run_job : CronJob; run_tick : Z; run_record : RunRecord }.

Record Scheduler : Type := mkScheduler {
  service : CronService;
  ticking : option Tick;
  runs : list Run;
}.

Definition cron_step (s : Scheduler) (e : CronEvent) : option Scheduler :=
  match e with
  | Add i n sch p d t now w =>
    Some (mkScheduler (add_job_with_timeout (service s) (new_job i n sch p d t now) w).2 (ticking s) (runs s))
  | Remove i w => Some (mkScheduler (remove_job (service s) i w).2 (ticking s) (runs s))
  | TickStart now =>
    match ticking s with
    | None =>
      Some (mkScheduler (service s)
              (match due_jobs (service s) now with [] => None | js => Some (mkTick now js []) end) (runs s))
    | Some _ => None
    end
  | Dispatch started r ended =>
    match ticking s with
    | Some (mkTick now (j :: js) rs) =>
      let rec := record_of j started r ended in
      Some (mkScheduler (service s) (Some (mkTick now js (rs ++ [rec]))) (runs s ++ [mkRun j now rec]))
    | _ => None
    end
  | TickEnd w =>
    match ticking s with
    | Some (mkTick _ [] rs) => Some (mkScheduler (finish_tick (service s) rs w).2 None (runs s))
    | _ => None
    end
  end.

Fixpoint cron_run (s : Scheduler) (es : list CronEvent) : option Scheduler :=
  match es with [] => Some s | e :: es => s ← cron_step s e; cron_run s es end.
End service.

(** ** Cron expressions *)

Section cron_expressions.
Context `{Calendar}.

Lemma find_minute_spec f n t0 t :
  find_minute f n t0 = Some t ↔
  ∃ k : nat, (k < n)%nat ∧ t = t0 + Z.of_nat k * MINUTE ∧ matches f t = true ∧
    ∀ j : nat, (j < k)%nat → matches f (t0 + Z.of_nat j * MINUTE) = false.
Proof.
  revert t0. induction n as [|n IH]; intros t0; cbn [find_minute].
  - split; [done|]. intros (k & Hk & _). lia.
  - destruct (matches f t0) eqn:Hm.
    + split.
      * intros [= <-]. exists O. split_and!; [lia|lia|done|]. intros j Hj. lia.
      * intros (k & Hk & -> & _ & Hall). destruct k as [|k]; [do 2 f_equal; lia|].
        specialize (Hall O ltac:(lia)). replace (t0 + Z.of_nat 0 * MINUTE) with t0 in Hall by lia. congruence.
    + rewrite IH. split.
      * intros (k & Hk & -> & Hmt & Hall). exists (S k). split_and!; [lia|lia| |].
        { by replace (t0 + Z.of_nat (S k) * MINUTE) with (t0 + MINUTE + Z.of_nat k * MINUTE) by lia. }
        intros [|j] Hj; [by replace (t0 + Z.of_nat 0 * MINUTE) with t0 by lia|].
        replace (t0 + Z.of_nat (S j) * MINUTE) with (t0 + MINUTE + Z.of_nat j * MINUTE) by lia. apply Hall. lia.
      * intros (k & Hk & -> & Hmt & Hall). destruct k as [|k].
        { replace (t0 + Z.of_nat 0 * MINUTE) with t0 in Hmt by lia. congruence. }
        exists k. split_and!; [lia|lia| |].
        { by replace (t0 + MINUTE + Z.of_nat k * MINUTE) with (t0 + Z.of_nat (S k) * MINUTE) by lia. }
        intros j Hj. replace (t0 + MINUTE + Z.of_nat j * MINUTE) with (t0 + Z.of_nat (S j) * MINUTE) by lia.
        apply Hall. lia.
Qed.

(** The whole minutes after [now]. *)
Lemma minutes_after now t :
  t mod MINUTE = 0 ∧ now < t ↔ ∃ k : nat, t = next_minute now + Z.of_nat k * MINUTE.
Proof.
  unfold next_minute, MINUTE. split.
  - intros [Hm Hlt]. exists (Z.to_nat (t / 60000 - now / 60000 - 1)).
    pose proof (Z.div_mod t 60000 ltac:(lia)). pose proof (Z.div_mod now 60000 ltac:(lia)).
    pose proof (Z.mod_pos_bound now 60000 ltac:(lia)). lia.
  - intros (k & ->). split.
    + replace (now / 60000 * 60000 + 60000 + Z.of_nat k * 60000) with ((now / 60000 + 1 + Z.of_nat k) * 60000) by lia.
      by apply Z.mod_mul.
    + pose proof (Z.mod_pos_bound now 60000 ltac:(lia)). pose proof (Z.div_mod now 60000 ltac:(lia)). lia.
Qed.

Lemma minutes_count : Z.of_nat MINUTES = 366 * 24 * 60 + 1.
Proof. unfold MINUTES. by rewrite Z2Nat.id. Qed.

Lemma next_run_spec expr now t :
  next_run_from_cron_expr expr now = Some t →
  ∃ f, parse_cron_expr expr = Some f ∧ representable now = true ∧
    t mod MINUTE = 0 ∧ now < t ≤ next_minute now + 366 * 24 * 60 * MINUTE ∧ matches f t = true ∧
    ∀ t', t' mod MINUTE = 0 → now < t' < t → matches f t' = false.
Proof.
  unfold next_run_from_cron_expr. destruct (parse_cron_expr expr) as [f|]; cbn [mbind option_bind]; [|done].
  destruct (representable now); [|done]. pose proof minutes_count as HM. revert HM.
  generalize MINUTES as count. intros count HM (k & Hk & -> & Hm & Hall)%find_minute_spec.
  destruct (proj2 (minutes_after now (next_minute now + Z.of_nat k * MINUTE))) as [Hmod Hlt]; [by eexists|].
  exists f. split_and!; try done; [unfold MINUTE in *; lia|].
  intros t' Hmod' [Hlt' Hltt]. destruct (proj1 (minutes_after now t') (conj Hmod' Hlt')) as (j & ->).
  apply Hall. unfold MINUTE in *. lia.
Qed.

(** A cron expression runs next at the first whole minute after now that
    matches its five fields, if there is one within 366 days. *)
Theorem cron_next_run expr now t :
  next_run_from_cron_expr expr now = Some t ↔
  ∃ f, parse_cron_expr expr = Some f ∧ representable now = true ∧
    t mod MINUTE = 0 ∧ now < t ≤ next_minute now + 366 * 24 * 60 * MINUTE ∧ matches f t = true ∧
    ∀ t', t' mod MINUTE = 0 → now < t' < t → matches f t' = false.
Proof.
  split; [apply next_run_spec|]. intros (f & Hf & Hr & Hmod & [Hlt Hle] & Hm & Hall).
  unfold next_run_from_cron_expr. rewrite Hf. cbn [mbind option_bind]. rewrite Hr.
  pose proof minutes_count as HM. revert HM. generalize MINUTES as count. intros count HM.
  rewrite find_minute_spec.
  destruct (proj1 (minutes_after now t) (conj Hmod Hlt)) as (k & ->). unfold MINUTE in *.
  exists k. split_and!; [lia|done|done|]. intros j Hj. apply Hall.
  - apply (minutes_after now). by eexists.
  - split; [|lia]. apply (minutes_after now). by eexists.
Qed.

(** The next run is later, unless the sum overflows. *)
Lemma next_run_later s now t :
  (∀ e, s = Every e → now + e ≤ i64_max) → i64_min ≤ now → next_run_at s now = Some t → now < t.
Proof.
  intros He Hnow. destruct s as [a|e|expr]; cbn.
  - destruct (Z.ltb_spec now a); [by intros [= <-]|done].
  - destruct (Z.ltb_spec 0 e); [|done]. intros [= <-]. specialize (He e eq_refl). rewrite wrap_i64_small; lia.
  - intros (f & _ & _ & _ & Ht & _)%next_run_spec. lia.
Qed.
End cron_expressions.

(** ** Histories of the scheduler *)

Section histories.
Context `{Calendar} {Body : Type} (to_json : CronStore → Body).
Implicit Types (s : Scheduler (Body := Body)) (j d : CronJob) (rs : list Run).

Notation cron_step := (cron_step to_json).
Notation cron_run := (cron_run to_json).

Definition runs_of (i : string) rs : list Run := filter (λ e, id (run_job e) = i) rs.

(** The errors in a row after a run, and when the job of the run is due again. *)
Definition errors_after (e : Run) : Z :=
  if ok (run_record e) then 0 else sat_add32 (consecutive_errors (state (run_job e))) 1.

Definition due_after (e : Run) : option Z :=
  match schedule (run_job e) with
  | At _ => None
  | sch => reschedule sch (ok (run_record e)) (ended_at (run_record e)) (errors_after e)
  end.

(** The state of a job is that of its last run. *)
Definition follows rs j : Prop :=
  match last (runs_of (id j) rs) with
  | None => True
  | Some e =>
    schedule j = schedule (run_job e) ∧ consecutive_errors (state j) = errors_after e ∧
    next_run_at_ms (state j) = due_after e ∧ (match schedule j with At _ => enabled j = false | _ => True end)
  end.

(** A run comes no earlier than the last run of the job allows. *)
Definition in_time rs (e : Run) : Prop :=
  is_due (run_tick e) (run_job e) = true ∧
  match last (runs_of (id (run_job e)) rs) with
  | None => True
  | Some p =>
    schedule (run_job e) = schedule (run_job p) ∧ (∀ a, schedule (run_job e) ≠ At a) ∧
    ∃ n, due_after p = Some n ∧ n ≤ run_tick e
  end.

Definition spaced rs : Prop := ∀ before e after, rs = before ++ e :: after → in_time before e.

Definition store_jobs s : list CronJob := jobs (store (service s)).

Definition added (es : list (CronEvent)) : list string :=
  omap (λ e, match e with Add i _ _ _ _ _ _ _ => Some i | _ => None end) es.

Lemma runs_of_app i rs1 rs2 : runs_of i (rs1 ++ rs2) = runs_of i rs1 ++ runs_of i rs2.
Proof. apply filter_app. Qed.

Lemma runs_of_none i rs : (∀ e, e ∈ rs → id (run_job e) ≠ i) → runs_of i rs = [].
Proof.
  induction rs as [|e rs IH]; intros Hi; [done|]. unfold runs_of in *. rewrite filter_cons_False; [|apply Hi; left].
  apply IH. intros e' He. apply Hi. by right.
Qed.

Lemma spaced_snoc rs e : spaced rs → in_time rs e → spaced (rs ++ [e]).
Proof.
  intros Hs He before e' after Heq. destruct after as [|x after' _] using rev_ind.
  - apply app_inj_tail in Heq as [-> ->]. done.
  - rewrite app_comm_cons, app_assoc in Heq. apply app_inj_tail in Heq as [-> _]. by eapply Hs.
Qed.

(** A due job whose state follows the runs is in time. *)
Lemma follows_in_time rs j now r :
  follows rs j → is_due now j = true → in_time rs (mkRun j now r).
Proof.
  intros Hf Hd. split; [done|]. cbn. unfold follows in Hf. destruct (last (runs_of (id j) rs)) as [p|]; [|done].
  destruct Hf as (Hs & _ & Hn & Ha). unfold is_due in Hd. apply andb_true_iff in Hd as [Hen Hd].
  rewrite Hn in Hd. split_and!; [done| |].
  - intros a Hat. rewrite Hat in Ha. congruence.
  - destruct (due_after p) as [n|]; [|done]. exists n. split; [done|]. by apply Z.leb_le.
Qed.

(** Applying the record of a run makes the state follow it. *)
Lemma after_run_follows rs j now started r ended :
  let rec := record_of j started r ended in
  follows (rs ++ [mkRun j now rec]) (after_run j rec).
Proof.
  unfold follows. change (id (after_run j _)) with (id j). rewrite runs_of_app.
  unfold runs_of at 2. rewrite filter_cons_True by done. cbn [filter list_filter]. rewrite last_snoc.
  unfold errors_after, due_after. cbn -[reschedule]. split_and!; [done|done|done|].
  by destruct (schedule j).
Qed.

(** *** Storing the results *)

Definition update j (r : RunRecord) : CronJob := if String.eqb (id j) (job_id r) then after_run j r else j.

Lemma update_id j r : id (update j r) = id j.
Proof. unfold update. by destruct (String.eqb _ _). Qed.

Lemma updates_id j recs : id (foldl update j recs) = id j.
Proof. revert j. induction recs as [|r recs IH]; intros j; [done|]. cbn. by rewrite IH, update_id. Qed.

Lemma update_other j recs : id j ∉ map job_id recs → foldl update j recs = j.
Proof.
  revert j. induction recs as [|r recs IH]; intros j Hj; [done|]. cbn in *.
  assert (update j r = j) as ->; [|apply IH; set_solver].
  unfold update. destruct (String.eqb_spec (id j) (job_id r)) as [He|]; [|done].
  destruct Hj. rewrite He. by left.
Qed.

Lemma update_one j recs1 r recs2 :
  id j = job_id r → NoDup (map job_id (recs1 ++ r :: recs2)) →
  foldl update j (recs1 ++ r :: recs2) = after_run j r.
Proof.
  intros Hj Hnd. rewrite map_app in Hnd. apply NoDup_app in Hnd as (_ & H1 & H2). cbn in *.
  apply NoDup_cons in H2 as [H2 _]. rewrite foldl_app. cbn.
  rewrite (update_other j recs1) by (rewrite Hj; intros Hin; specialize (H1 _ Hin); set_solver).
  unfold update at 2. rewrite Hj, String.eqb_refl. apply update_other. cbn. by rewrite Hj.
Qed.

Lemma apply_record_map js r : NoDup (map id js) → apply_record js r = map (λ j, update j r) js.
Proof.
  induction js as [|j js IH]; [done|]. cbn. intros [Hj Hnd]%NoDup_cons. unfold update at 1.
  destruct (String.eqb_spec (id j) (job_id r)) as [He|Hne]; [|by rewrite IH].
  f_equal. clear IH Hnd. induction js as [|k js IH]; [done|]. cbn in *.
  rewrite <- IH by set_solver. unfold update. destruct (String.eqb_spec (id k) (job_id r)) as [Hk|]; [|done].
  destruct Hj. rewrite He, <- Hk. by left.
Qed.

Lemma map_update_ids js f : (∀ j, id (f j) = id j) → map id (map f js) = map id js.
Proof. intros Hf. rewrite map_map. by apply map_ext. Qed.

Lemma apply_all_map js recs :
  NoDup (map id js) → foldl apply_record js recs = map (λ j, foldl update j recs) js.
Proof.
  revert js. induction recs as [|r recs IH]; intros js Hnd; cbn; [by rewrite map_id|].
  rewrite apply_record_map by done. rewrite IH, map_map; [done|].
  rewrite map_update_ids by (intros; apply update_id). done.
Qed.

Lemma apply_records_spec js recs j' :
  NoDup (map id js) → j' ∈ apply_records js recs →
  ∃ j, j ∈ js ∧ j' = foldl update j recs.
Proof.
  intros Hnd. unfold apply_records. rewrite apply_all_map by done. intros [_ Hj]%list_elem_of_filter.
  apply list_elem_of_fmap in Hj as (j & -> & Hj). eauto.
Qed.

Lemma apply_records_ids js recs : NoDup (map id js) → NoDup (map id (apply_records js recs)).
Proof.
  intros Hnd. unfold apply_records. rewrite apply_all_map by done.
  eapply sublist_NoDup; [|apply sublist_map_mono, sublist_filter].
  rewrite map_update_ids; [done|]. intros j. apply updates_id.
Qed.

(** *** The invariant *)

Record tick_ok (old recent : list Run) (used : list string) (js : list CronJob) (t : Tick) : Prop := {
  tick_results : map run_record recent = results t;
  tick_records e : e ∈ recent → ∃ started r ended, run_record e = record_of (run_job e) started r ended;
  tick_nodup : NoDup (map (λ e, id (run_job e)) recent ++ map id (due t));
  tick_due d : d ∈ due t → follows old d ∧ is_due (tick_now t) d = true;
  tick_store j d : j ∈ js → d ∈ map run_job recent ++ due t → id d = id j → j = d;
  tick_used d : d ∈ due t → id d ∈ used;
}.

Record sound s (used : list string) : Prop := {
  sound_nodup : NoDup (map id (store_jobs s));
  sound_used j : j ∈ store_jobs s → id j ∈ used;
  sound_runs e : e ∈ runs s → id (run_job e) ∈ used;
  sound_spaced : spaced (runs s);
  sound_tick : ∃ old recent, runs s = old ++ recent ∧ (∀ j, j ∈ store_jobs s → follows old j) ∧
    match ticking s with
    | None => recent = []
    | Some t => tick_ok old recent used (store_jobs s) t
    end;
}.

Lemma save_store_keeps (c : CronService (Body := Body)) w : store (save_store to_json c w).2 = store c.
Proof. by destruct w. Qed.

Lemma add_store c j w :
  store (add_job_with_timeout to_json c j w).2 = with_jobs (store c) (jobs (store c) ++ [j]).
Proof. by destruct w. Qed.

Lemma remove_store c i w :
  store (remove_job to_json c i w).2 = with_jobs (store c) (filter (λ j, id j ≠ i) (jobs (store c))).
Proof. unfold remove_job. destruct (Nat.ltb _ _); by destruct w. Qed.

Lemma follows_new old i n sch p del t now :
  (∀ e, e ∈ old → id (run_job e) ≠ i) → follows old (new_job i n sch p del t now).
Proof. intros Hi. unfold follows. cbn. by rewrite runs_of_none. Qed.

Lemma follows_more old recent j :
  (∀ e, e ∈ recent → id (run_job e) ≠ id j) → follows old j → follows (old ++ recent) j.
Proof. intros Hr. unfold follows. by rewrite runs_of_app, (runs_of_none _ recent), app_nil_r. Qed.

Lemma same_job js j k : NoDup (map id js) → j ∈ js → k ∈ js → id j = id k → j = k.
Proof.
  induction js as [|x js IH]; cbn; [by intros _ ?%elem_of_nil|]. intros [Hx Hnd]%NoDup_cons.
  assert (∀ y, y ∈ js → id y ∈ map id js) as Hin by (intros y Hy; by apply list_elem_of_fmap_2).
  intros [->|Hj]%elem_of_cons [->|Hk]%elem_of_cons He; [done| | |by apply IH].
  - destruct Hx. rewrite He. auto.
  - destruct Hx. rewrite <- He. auto.
Qed.

Lemma sound_add s used i n sch p del t now w :
  sound s used → i ∉ used →
  sound (mkScheduler (add_job_with_timeout to_json (service s) (new_job i n sch p del t now) w).2
           (ticking s) (runs s)) (i :: used).
Proof.
  intros [Hnd Hu Hr Hsp (old & recent & Hruns & Hf & Ht)] Hi.
  split; unfold store_jobs; cbn [service runs ticking]; rewrite ?add_store; cbn [jobs with_jobs].
  - rewrite map_app. apply NoDup_app. split_and!; [done| |by apply NoDup_singleton].
    cbn. intros k Hk ->%list_elem_of_singleton. apply list_elem_of_fmap in Hk as (j & -> & Hj).
    by apply Hi, Hu.
  - intros j [Hj| ->%list_elem_of_singleton]%elem_of_app; [right; by apply Hu|by left].
  - intros e He. right. by apply Hr.
  - done.
  - exists old, recent. split; [done|]. split.
    + intros j [Hj| ->%list_elem_of_singleton]%elem_of_app; [by apply Hf|]. apply follows_new.
      intros e He Heq. apply Hi. rewrite <- Heq. apply Hr. rewrite Hruns. set_solver.
    + destruct (ticking s) as [t0|]; [|done]. destruct Ht as [H1 H2 H3 H4 H5 H6]. split; try done.
      * intros j d [Hj| ->%list_elem_of_singleton]%elem_of_app Hd; [by apply H5|]. cbn. intros <-.
        destruct Hi. apply elem_of_app in Hd as [Hd|Hd]; [|by apply H6].
        apply list_elem_of_fmap in Hd as (e & -> & He). apply Hr. rewrite Hruns. set_solver.
      * intros d Hd. right. by apply H6.
Qed.

(** Jobs that go away. *)
Lemma sound_fewer s used c :
  sound s used → sublist (jobs (store c)) (store_jobs s) → sound (mkScheduler c (ticking s) (runs s)) used.
Proof.
  intros [Hnd Hu Hr Hsp (old & recent & Hruns & Hf & Ht)] Hs.
  assert (∀ j, j ∈ jobs (store c) → j ∈ store_jobs s) as Hin by (intros j; by apply sublist_elem).
  split; unfold store_jobs; cbn [service runs ticking]; auto.
  - eapply sublist_NoDup; [exact Hnd|]. by apply sublist_map_mono.
  - exists old, recent. split_and!; auto. destruct (ticking s) as [t|]; [|done].
    destruct Ht as [H1 H2 H3 H4 H5 H6]. split; auto.
Qed.

Lemma sound_tick_start s used now :
  sound s used → ticking s = None →
  sound (mkScheduler (service s)
           (match due_jobs (service s) now with [] => None | js => Some (mkTick now js []) end) (runs s)) used.
Proof.
  intros [Hnd Hu Hr Hsp (old & recent & Hruns & Hf & Ht)] Hn. rewrite Hn in Ht. subst recent.
  rewrite app_nil_r in Hruns. split; try done. exists (runs s), []. rewrite app_nil_r. cbn [runs ticking].
  unfold store_jobs in *. cbn [service] in *. rewrite Hruns. split_and!; [done|done|].
  assert (tick_ok old [] used (jobs (store (service s))) (mkTick now (due_jobs (service s) now) [])) as Hok.
  { unfold due_jobs. split; cbn [due results tick_now].
    - done.
    - by intros e ?%elem_of_nil.
    - cbn. eapply sublist_NoDup; [exact Hnd|]. apply sublist_map_mono, sublist_filter.
    - intros d [Hd Hin]%list_elem_of_filter. auto.
    - intros j d Hj Hd He. cbn in Hd. apply list_elem_of_filter in Hd as [_ Hd].
      symmetry. by apply (same_job _ d j Hnd).
    - intros d [_ Hin]%list_elem_of_filter. by apply Hu. }
  by destruct (due_jobs (service s) now).
Qed.

Lemma sound_dispatch s used now d ds recs started r ended :
  sound s used → ticking s = Some (mkTick now (d :: ds) recs) →
  let rec := record_of d started r ended in
  sound (mkScheduler (service s) (Some (mkTick now ds (recs ++ [rec]))) (runs s ++ [mkRun d now rec])) used.
Proof.
  intros [Hnd Hu Hr Hsp (old & recent & Hruns & Hf & Ht)] Hs rec. rewrite Hs in Ht.
  destruct Ht as [H1 H2 H3 H4 H5 H6]. cbn [due results tick_now] in *.
  destruct (H4 d ltac:(left)) as [Hfd Hdd].
  assert (∀ e, e ∈ recent → id (run_job e) ≠ id d) as Hne.
  { intros e He Heq. apply NoDup_app in H3 as (_ & H3 & _). apply (H3 (id d)); [|by left].
    rewrite <- Heq. by apply (list_elem_of_fmap_2 (λ e, id (run_job e))). }
  split; cbn [service runs ticking]; try done.
  - intros e [He| ->%list_elem_of_singleton]%elem_of_app; [by apply Hr|]. cbn. apply H6. by left.
  - apply spaced_snoc; [done|]. rewrite Hruns. apply follows_in_time; [|done]. by apply follows_more.
  - exists old, (recent ++ [mkRun d now rec]). split_and!; [by rewrite Hruns, app_assoc|done|].
    split; cbn [due results tick_now].
    + by rewrite map_app, H1.
    + intros e [He| ->%list_elem_of_singleton]%elem_of_app; [by apply H2|]. by exists started, r, ended.
    + rewrite map_app, <- app_assoc. done.
    + intros d' Hd'. apply H4. by right.
    + intros j d' Hj Hd'. apply H5; [done|]. rewrite map_app in Hd'. cbn in *. set_solver.
    + intros d' Hd'. apply H6. by right.
Qed.

Lemma sound_tick_end s used now recs w :
  sound s used → ticking s = Some (mkTick now [] recs) →
  sound (mkScheduler (finish_tick to_json (service s) recs w).2 None (runs s)) used.
Proof.
  intros [Hnd Hu Hr Hsp (old & recent & Hruns & Hf & Ht)] Hs. rewrite Hs in Ht.
  destruct Ht as [H1 H2 H3 H4 H5 H6]. cbn [due results tick_now] in *. cbn in H3. rewrite app_nil_r in *.
  unfold store_jobs in *. split; unfold store_jobs; cbn [service runs ticking]; unfold finish_tick;
    rewrite ?save_store_keeps; cbn [store set_store with_jobs jobs].
  - by apply apply_records_ids.
  - intros j' Hj'. apply apply_records_spec in Hj' as (j & Hj & ->); [|done]. rewrite updates_id. by apply Hu.
  - done.
  - done.
  - exists (runs s), []. rewrite app_nil_r. split_and!; [done| |done]. intros j' Hj'.
    apply apply_records_spec in Hj' as (j & Hj & ->); [|done]. rewrite Hruns.
    assert (map job_id recs = map (λ e, id (run_job e)) recent) as Hids.
    { rewrite <- H1, map_map. apply map_ext_in. intros e He%list_elem_of_In.
      destruct (H2 e He) as (st & r & en & ->). by destruct r. }
    destruct (decide (id j ∈ map job_id recs)) as [Hin|Hout].
    + rewrite Hids in Hin. apply list_elem_of_fmap in Hin as (e & Heq & He).
      assert (j = run_job e) as -> by (apply H5; [done|by apply list_elem_of_fmap_2|done]).
      apply list_elem_of_split in He as (r1 & r2 & ->). rewrite <- H1, map_app. cbn [map].
      destruct (H2 e ltac:(set_solver)) as (st & r & en & Hrec).
      rewrite update_one; [| |by rewrite map_app in H1; cbn in H1; rewrite H1, Hids].
      * assert (∀ e', e' ∈ r2 → id (run_job e') ≠ id (run_job e)) as Hr2.
        { intros e' He' Heq'. rewrite map_app in H3. apply NoDup_app in H3 as (_ & _ & H3).
          cbn in H3. apply NoDup_cons in H3 as [H3 _]. apply H3. rewrite <- Heq'.
          by apply (list_elem_of_fmap_2 (λ e, id (run_job e))). }
        replace (old ++ r1 ++ e :: r2) with (((old ++ r1) ++ [e]) ++ r2) by by rewrite <- !app_assoc.
        apply follows_more; [done|]. rewrite Hrec. destruct e as [j t rec]. cbn in *. subst rec.
        apply after_run_follows.
      * rewrite Hrec. by destruct r.
    + rewrite update_other by done. apply follows_more; [|by apply Hf]. intros e He Heq. apply Hout.
      rewrite Hids, <- Heq. by apply (list_elem_of_fmap_2 (λ e, id (run_job e))).
Qed.

(** *** What histories do *)

Lemma cron_step_sound s used e s' :
  sound s used → NoDup (added [e] ++ used) → cron_step s e = Some s' → sound s' (added [e] ++ used).
Proof.
  intros Hs Hnd He. destruct e as [i n sch p del t now w|i w|now|started r ended|w]; cbn in *.
  - simplify_eq. apply NoDup_cons in Hnd as [Hi _]. by apply sound_add.
  - simplify_eq. apply sound_fewer; [done|]. rewrite remove_store. apply sublist_filter.
  - destruct (ticking s) eqn:Ht; simplify_eq. by apply sound_tick_start.
  - destruct (ticking s) as [[now [|j js] rs]|] eqn:Ht; simplify_eq. by apply sound_dispatch.
  - destruct (ticking s) as [[now [|j js] rs]|] eqn:Ht; simplify_eq. by eapply sound_tick_end.
Qed.

Lemma added_cons e es : added (e :: es) = added [e] ++ added es.
Proof. unfold added. by destruct e. Qed.

Lemma cron_run_sound s used es s' :
  sound s used → NoDup (added es ++ used) → cron_run s es = Some s' → ∃ used', sound s' used'.
Proof.
  revert s used. induction es as [|e es IH]; intros s used Hs Hnd; cbn [Cron.cron_run].
  - intros [= <-]. eauto.
  - destruct (cron_step s e) as [s1|] eqn:He; cbn [mbind option_bind]; [|done].
    rewrite added_cons in Hnd. intros Hr. apply (IH s1 (added [e] ++ used)); [| |done].
    + apply (cron_step_sound s); [done| |done]. eapply sublist_NoDup; [exact Hnd|].
      rewrite <- app_assoc. apply sublist_app; [done|]. apply sublist_inserts_l. done.
    + rewrite app_assoc. by rewrite (Permutation_app_comm (added es)).
Qed.

Lemma sound_start (c : CronService (Body := Body)) :
  NoDup (map id (jobs (store c))) → sound (mkScheduler c None []) (map id (jobs (store c))).
Proof.
  intros Hnd. split; unfold store_jobs; cbn; [done| | | |].
  - intros j Hj. by apply list_elem_of_fmap_2.
  - by intros e ?%elem_of_nil.
  - by intros [|??] e after.
  - by exists [], [].
Qed.

(** C30: In any history of additions, removals and ticks of the scheduler, with
    removals and additions also in the middle of a tick, a job is published only
    when it is enabled and due; a one-shot job at most once; and a recurring one
    again no earlier than its schedule gives from the end of the last publication,
    and after errors no earlier than the backoff for their number in a row. *)
Theorem cron_spacing c es s before e after :
  NoDup (map id (jobs (store c))) → NoDup (added es ++ map id (jobs (store c))) →
  cron_run (mkScheduler c None []) es = Some s → runs s = before ++ e :: after →
  is_due (run_tick e) (run_job e) = true ∧
  match last (filter (λ p, id (run_job p) = id (run_job e)) before) with
  | None => True
  | Some p =>
    let sch := schedule (run_job e) in
    sch = schedule (run_job p) ∧ (∀ a, sch ≠ At a) ∧
    if ok (run_record p) then
      ∃ n, next_run_at sch (ended_at (run_record p)) = Some n ∧ n ≤ run_tick e
    else
      wrap_i64 (ended_at (run_record p) + error_backoff_ms (errors_after p)) ≤ run_tick e ∧
      ∀ n, next_run_at sch (ended_at (run_record p)) = Some n → n ≤ run_tick e
  end.
Proof.
  intros Hnd Hadd Hr Hruns.
  destruct (cron_run_sound _ _ _ _ (sound_start c Hnd) Hadd Hr) as (used & Hs).
  destruct (sound_spaced _ _ Hs _ _ _ Hruns) as [Hd Hp]. split; [done|].
  unfold runs_of in Hp. destruct (last _) as [p|]; [|done]. destruct Hp as (Hsch & Ha & n & Hn & Hle).
  split; [done|]. split; [done|]. unfold due_after in Hn. rewrite <- Hsch in Hn.
  assert (reschedule (schedule (run_job e)) (ok (run_record p)) (ended_at (run_record p)) (errors_after p) = Some n) as Hre.
  { destruct (schedule (run_job e)) as [a| |]; [by destruct (Ha a)|done..]. }
  unfold reschedule in Hre. destruct (ok (run_record p)); [by exists n|]. injection Hre as <-.
  split; [lia|]. intros n Hnext. rewrite Hnext in Hle. cbn in Hle. lia.
Qed.
End histories.

(** ** Starting the service *)

Section starting.
Context `{Calendar} {Body : Type}.
Context (to_json : CronStore → Body) (from_json : Body → result string CronStore).
Implicit Types (c : CronService (Body := Body)).

(** A job whose time came while the service was down. *)
Definition missed (now : Z) (job : CronJob) : bool := is_due now job.

Lemma start_job_id on_miss now j : id (start_job on_miss now j).1 = id j.
Proof. unfold start_job. destruct (enabled j); [|done]. destruct (next_run_at_ms _); [|done]. by destruct (_ <=? _). Qed.

Lemma start_job_rest on_miss now j :
  let j' := (start_job on_miss now j).1 in
  enabled j' = enabled j ∧ schedule j' = schedule j ∧ payload j' = payload j ∧
  next_run_at_ms (state j') =
    (if enabled j then
       match next_run_at_ms (state j) with
       | Some n => if now <? n then Some n else next_run_at (schedule j) now
       | None => next_run_at (schedule j) now
       end
     else next_run_at_ms (state j)).
Proof.
  unfold start_job. destruct (enabled j) eqn:He; [|done]. destruct (next_run_at_ms (state j)) as [n|] eqn:Hn; [|done].
  destruct (Z.leb_spec n now), (Z.ltb_spec now n); try lia; done.
Qed.

Lemma start_job_missed on_miss now j :
  (start_job on_miss now j).2 =
  missed now j && bool_decide (on_miss = RunOnce) &&
  match next_run_at_ms (state j) with Some n => negb (should_skip_missed_dispatch j n) | None => false end.
Proof.
  unfold start_job, missed, is_due. destruct (enabled j); [|done]. destruct (next_run_at_ms (state j)) as [n|]; [|done].
  destruct (n <=? now); [|done]. by destruct on_miss.
Qed.

(** A start that succeeds leaves the jobs of the file, in their order, each
    enabled one with a next run in the future or none, publishes the payloads of
    exactly the jobs whose time passed while the service was down and that did not
    run yet, and only when told to, and writes the store back. *)
Theorem start_spec c on_miss now read_error write_error c' published :
  i64_min ≤ now → running c = false →
  start to_json from_json c on_miss now read_error write_error = (Ok tt, c', published) →
  ∃ loaded, load_store from_json c read_error = Ok loaded ∧
    map id (jobs (store c')) = map id (jobs loaded) ∧ version (store c') = version loaded ∧
    published = map (λ j, inbound_of (payload j))
      (filter (λ j, missed now j && bool_decide (on_miss = RunOnce) &&
                    negb (should_skip_missed_dispatch j (default 0 (next_run_at_ms (state j)))) = true) (jobs loaded)) ∧
    (∀ j n, j ∈ jobs (store c') → enabled j = true → (∀ e, schedule j = Every e → now + e ≤ i64_max) →
       next_run_at_ms (state j) = Some n → now < n) ∧
    file c' = Some (to_json (store c')) ∧ running c' = true ∧ handle c' = true.
Proof.
  intros Hnow Hr. unfold start. rewrite Hr. change (load_store _ _ read_error) with (load_store from_json c read_error).
  destruct (load_store from_json c read_error) as [loaded|e]; [|done].
  destruct write_error as [e|]; cbn; [done|]. intros [= <- <-]. exists loaded. cbn. split_and!; try done.
  - rewrite !map_map. apply map_ext. apply start_job_id.
  - induction (jobs loaded) as [|j js IH]; [done|]. cbn [map].
    destruct ((start_job on_miss now j).2) eqn:Hm.
    + rewrite filter_cons_True by done. cbn [map fst]. rewrite IH. destruct (start_job_rest on_miss now j) as (_ & _ & -> & _).
      rewrite filter_cons_True; [done|]. rewrite start_job_missed in Hm.
      destruct (next_run_at_ms (state j)); [done|]. by rewrite andb_false_r in Hm.
    + rewrite filter_cons_False by (cbn; congruence). rewrite IH, filter_cons_False; [done|].
      rewrite start_job_missed in Hm. unfold missed, is_due in *. destruct (next_run_at_ms (state j)); [cbn in *; congruence|].
      by rewrite andb_false_r.
  - intros j' n Hj'. apply list_elem_of_fmap in Hj' as (p & -> & (j & -> & Hj)%list_elem_of_fmap).
    destruct (start_job_rest on_miss now j) as (-> & -> & _ & ->). intros -> He.
    destruct (next_run_at_ms (state j)) as [m|].
    + destruct (Z.ltb_spec now m); [by intros [= <-]|]. by apply next_run_later.
    + by apply next_run_later.
Qed.

Lemma start_job_enabled on_miss now j : enabled (start_job on_miss now j).1 = enabled j.
Proof. apply start_job_rest. Qed.
End starting.

(** ** Examples *)

Module Example_cron.

(** The Gregorian calendar. *)
Definition era_day (t : Z) : Z := (t / 86400000 + 719468) mod 146097.
Definition era_year (t : Z) : Z :=
  let d := era_day t in (d - d / 1460 + d / 36524 - d / 146096) / 365.
Definition year_day (t : Z) : Z :=
  let y := era_year t in era_day t - (365 * y + y / 4 - y / 100).
Definition from_march (t : Z) : Z := (5 * year_day t + 2) / 153.

#[export] Instance gregorian : Calendar := {
  representable t := Z.abs t <=? 8210266876799999;
  minute t := t / 60000 mod 60;
  hour t := t / 3600000 mod 24;
  day t := year_day t - (153 * from_march t + 2) / 5 + 1;
  month t := if from_march t <? 10 then from_march t + 3 else from_march t - 9;
  weekday t := (t / 86400000 + 4) mod 7;
}.

(** 2026-02-12T12:34:56Z, a Thursday. *)
Definition now : Z := 1770899696000.

Example calendar_now : (month now, day now, hour now, minute now, weekday now) = (2, 12, 12, 34, 4).
Proof. reflexivity. Qed.

Example quarter : next_run_from_cron_expr "*/15 * * * *" now = Some 1770900300000.
Proof. vm_compute. reflexivity. Qed.

(** Monday the 16th, at nine. *)
Example monday : next_run_from_cron_expr "0 9 * * 1" now = Some 1771232400000.
Proof. vm_compute. reflexivity. Qed.

(** A range is not parsed; the days of both fields must match. *)
Example range_refused : parse_cron_expr "0 9 * * 1-5" = None.
Proof. vm_compute. reflexivity. Qed.

(** The next 29th of February is more than 366 days away: the expression counts as
    not valid. *)
Definition leap : CronFields := mkCronFields [0] [0] [29] [2] (range 0 6).

Example leap_parsed : parse_cron_expr "0 0 29 2 *" = Some leap.
Proof. vm_compute. reflexivity. Qed.

Example leap_free : forallb (λ d, negb (matches leap (d * 86400000))) (seqZ 20496 368) = true.
Proof. vm_compute. reflexivity. Qed.

Lemma leap_midnight t : t mod MINUTE = 0 → matches leap t = true → t = t / 86400000 * 86400000.
Proof.
  unfold matches, MINUTE. cbn -[Z.div Z.modulo]. intros Hm. rewrite !orb_false_r.
  destruct (Z.eqb_spec (t / 60000 mod 60) 0) as [H1|]; [|done].
  destruct (Z.eqb_spec (t / 3600000 mod 24) 0) as [H2|]; [|done]. intros _.
  pose proof (Z.div_mod t 60000 ltac:(lia)). pose proof (Z.div_mod (t / 60000) 60 ltac:(lia)) as H3.
  pose proof (Z.div_mod (t / 3600000) 24 ltac:(lia)) as H4.
  rewrite Z.div_div in H3, H4 by lia. change (60000 * 60) with 3600000 in H3.
  change (3600000 * 24) with 86400000 in H4. lia.
Qed.

Lemma leap_day : is_valid_cron_expr "0 0 29 2 *" now = false.
Proof.
  unfold is_valid_cron_expr. destruct (next_run_from_cron_expr _ _) as [t|] eqn:Ht; [|done].
  apply next_run_spec in Ht as (f & Hf & _ & Hm & [Hlo Hhi] & Hmt & _). rewrite leap_parsed in Hf.
  injection Hf as <-. pose proof (leap_midnight t Hm Hmt) as Hd.
  pose proof leap_free as Hall. rewrite forallb_forall in Hall.
  specialize (Hall (t / 86400000)). rewrite <- Hd, Hmt in Hall. discriminate Hall.
  apply list_elem_of_In, elem_of_seqZ.
  replace (next_minute now) with 1770899700000 in Hhi by reflexivity. unfold now, MINUTE in *.
  assert (20496 * 86400000 <= t) by lia. assert (t < 20864 * 86400000) by lia.
  split; [apply Z.div_le_lower_bound; lia|apply Z.div_lt_upper_bound; lia].
Qed.

(** *** The service: a file is the store itself *)

Definition to_file (s : CronStore) : CronStore := s.
Definition of_file (s : CronStore) : result string CronStore := Ok s.

Definition ping : CronPayload := mkCronPayload "ping" "cli" "chat".

(** A job every minute; it runs, a job is removed meanwhile; then an error; then
    thirty seconds of backoff do not matter, as the minute is longer. *)
Definition history : list CronEvent :=
  [Add "a" "minute" (Every 60000) ping false None 0 None; Add "b" "once" (At 60000) ping true None 0 None;
   TickStart 60000; Dispatch 60001 SendOk 60002; Dispatch 60002 SendOk 60005; Remove "b" None; TickEnd None;
   TickStart 120001; TickStart 120002; Dispatch 120002 SendTimedOut 125002; TickEnd (Some "disk full");
   TickStart 155002; TickStart 185002; Dispatch 185002 SendOk 185002].

Definition done_runs : list (string * Z * bool) :=
  match cron_run to_file (mkScheduler (new (Body := CronStore) None) None []) history with
  | Some s => map (λ e, (id (run_job e), run_tick e, ok (run_record e))) (runs s)
  | None => []
  end.

Example history_runs :
  done_runs = [("a", 60000, true); ("b", 60000, true); ("a", 120002, false); ("a", 185002, true)].
Proof. vm_compute. reflexivity. Qed.

(** The last run of the history. *)
Lemma cron_spacing_witness :
  ∃ s before e, cron_run to_file (mkScheduler (new (Body := CronStore) None) None []) history = Some s ∧
    runs s = before ++ e :: [] ∧ length before = 3%nat ∧ is_due (run_tick e) (run_job e) = true.
Proof.
  assert (∃ s, cron_run to_file (mkScheduler (new (Body := CronStore) None) None []) history = Some s) as [s Hs]
    by (eexists; vm_compute; reflexivity).
  assert (∃ before e, runs s = before ++ e :: [] ∧ length before = 3%nat) as (before & e & Hr & Hl).
  { vm_compute in Hs. injection Hs as <-. eexists [_; _; _], _. split; reflexivity. }
  exists s, before, e. split; [done|]. split; [done|]. split; [done|].
  apply (cron_spacing to_file (new None) history s before e []); [| |exact Hs|exact Hr].
  - apply NoDup_nil. constructor.
  - vm_compute. apply (bool_decide_unpack (NoDup ["a"; "b"])). reflexivity.
Defined.

(** A job that should have run while the service was down. *)
Definition job (schedule : CronSchedule) (next : option Z) : CronJob :=
  mkCronJob "a" "a" true schedule ping (mkCronJobState next None None None 0 None) 0 0 true None.

Definition down (js : list CronJob) : CronService (Body := CronStore) := new (Some (mkCronStore 1 js)).

Lemma start_spec_witness :
  ∃ c, start to_file of_file (down [job (Every 60000) (Some 500)]) RunOnce 1000 None None
       = (Ok tt, c, [inbound_of ping]) ∧ handle c = true.
Proof.
  destruct (start to_file of_file (down [job (Every 60000) (Some 500)]) RunOnce 1000 None None) as [[r c] ms] eqn:Hs.
  assert (r = Ok tt ∧ ms = [inbound_of ping]) as [-> ->] by (vm_compute in Hs; by simplify_eq).
  exists c. split; [done|].
  edestruct (start_spec to_file of_file (down [job (Every 60000) (Some 500)]) RunOnce 1000 None None c)
    as (_ & _ & _ & _ & _ & _ & _ & _ & Hh); [by vm_compute|reflexivity|exact Hs|exact Hh].
Defined.

(** A one-shot job whose time passed is left enabled, without a next run: it never
    runs, is never deleted, and still counts as active. *)
Example missed_one_shot :
  match start to_file of_file (down [job (At 500) (Some 500)]) Skip 1000 None None with
  | (_, c, ms) => (map (λ j, (enabled j, next_run_at_ms (state j))) (list_jobs c false), ms)
  end = ([(true, None)], []).
Proof. reflexivity. Qed.

(** A start that cannot read the file leaves the service marked as running: the next
    start returns at once, without a task. *)
Example start_once :
  match start to_file of_file (down []) Skip 1000 (Some "permission denied") None with
  | (r, c, _) => (is_ok r, start to_file of_file c Skip 2000 None None)
  end = (false, (Ok tt, mkCronService CronStore_default (file (down [])) true false, [])).
Proof. reflexivity. Qed.

(** A job added before the service starts replaces the file. *)
Example add_before_start :
  file (add_job_with_timeout to_file (down [job (Every 60000) None]) (job (Every 70000) None) None).2
  = Some (mkCronStore 1 [job (Every 70000) None]).
Proof. reflexivity. Qed.
End Example_cron.
