(* ===== verification/CronTool.v ===== *)
(** The tool that schedules jobs: src/src/tools/cron.rs over [Cron].

    JSON arguments are read through three functions, dates through the two parsers
    of chrono; the id of a new job and the readings of the clock are arguments. *)

From S2P Require Import Prelude Text Lines Errors Gate Sanitize Bus Cron.

Section tool.
Context `{Calendar} {Value Body : Type}.
Context (arg_str : Value → string → option string) (arg_i64 : Value → string → option Z).
Context (arg_bool : Value → string → option bool).
Context (parse_from_rfc3339 parse_from_str : string → option Z).
Context (to_json : CronStore → Body).

Implicit Types (args : Value) (ctx : ToolContext) (c : CronService (Body := Body)).

Definition parse_at_datetime_ms (input : string) : result ZeptoError Z :=
  match parse_from_rfc3339 input with
  | Some ms => Ok ms
  | None =>
    match parse_from_str input with
    | Some ms => Ok ms
    | None => Err (Errors.Tool ("Invalid 'at' datetime '" +:+ input +:+ "'. Use RFC3339 or YYYY-MM-DDTHH:MM:SS"))
    end
  end.

Definition MAX_JOBS : nat := 50.

Definition default_name (message : string) : string :=
  if Nat.ltb 30 (length (chars message)) then prefix_chars message 30 +:+ "..." else message.

Definition count_some {A B C} (a : option A) (b : option B) (c : option C) : nat :=
  (if a then 1 else 0) + (if b then 1 else 0) + (if c then 1 else 0).

Definition one_schedule : ZeptoError := Errors.Tool "Specify exactly one of: every_seconds, cron_expr, at".
Definition too_often : ZeptoError := Errors.Tool "Minimum interval is 60 seconds".
Definition full : ZeptoError :=
  Errors.Tool "Maximum of 50 active cron jobs reached. Remove some before adding new ones.".

(** The schedule that the arguments ask for, and whether the job goes after its run. *)
Definition schedule_of args (now : Z) : result ZeptoError (CronSchedule * bool) :=
  let every_seconds := arg_i64 args "every_seconds" in
  let cron_expr := arg_str args "cron_expr" in
  let at_ := arg_str args "at" in
  if negb (Nat.eqb (count_some every_seconds cron_expr at_) 1) then Err one_schedule
  else
    match every_seconds, cron_expr, at_ with
    | Some seconds, _, _ =>
      if seconds <? 60 then Err too_often
      else if seconds <=? 0 then Err (Errors.Tool "'every_seconds' must be greater than zero")
      else Ok (Every (wrap_i64 (seconds * 1000)), false)
    | None, Some expr, _ =>
      if is_valid_cron_expr expr now then Ok (Cron expr, false)
      else Err (Errors.Tool ("Invalid or non-runnable cron expression '" +:+ expr +:+ "'"))
    | None, None, Some at_ =>
      match parse_at_datetime_ms at_ with Ok ms => Ok (At ms, true) | Err e => Err e end
    | None, None, None => Err one_schedule
    end.

Definition or_else {A} (a b : option A) : option A := match a with Some _ => a | None => b end.

(** What [execute_add] asks the service for. *)
Definition add_request args ctx c (now : Z) : result ZeptoError (string * CronSchedule * CronPayload * bool) :=
  if Nat.leb MAX_JOBS (length (list_jobs c false)) then Err full
  else
    match arg_str args "message" with
    | None => Err (Errors.Tool "Missing 'message' for cron add")
    | Some message =>
      let name := default (default_name message) (arg_str args "name") in
      match schedule_of args now with
      | Err e => Err e
      | Ok (schedule, delete_after_run) =>
        match or_else (arg_str args "channel") (Gate.channel ctx) with
        | None => Err (Errors.Tool "No channel available in tool context")
        | Some channel =>
          match or_else (arg_str args "chat_id") (Gate.chat_id ctx) with
          | None => Err (Errors.Tool "No chat_id available in tool context")
          | Some chat_id => Ok (name, schedule, mkCronPayload message channel chat_id, delete_after_run)
          end
        end
      end
    end.

Definition execute_add args ctx c (job_id : string) (now created : Z) (write_error : option string)
    : result ZeptoError string * CronService :=
  match add_request args ctx c now with
  | Err e => (Err e, c)
  | Ok (name, schedule, payload, delete_after_run) =>
    match add_job_with_timeout to_json c (new_job job_id name schedule payload delete_after_run None created)
            write_error with
    | (Ok job, c) => (Ok ("Created cron job '" +:+ Cron.name job +:+ "' (id: " +:+ id job +:+ ")"), c)
    | (Err e, c) => (Err e, c)
    end
  end.

Definition schedule_text (s : CronSchedule) : string :=
  match s with
  | At at_ms => "at(" +:+ fmt_Z at_ms +:+ ")"
  | Every every_ms => "every(" +:+ fmt_Z every_ms +:+ "ms)"
  | Cron expr => "cron(" +:+ expr +:+ ")"
  end.

Definition job_line (job : CronJob) : string :=
  "- " +:+ Cron.name job +:+ " [" +:+ id job +:+ "] " +:+ schedule_text (schedule job) +:+ " -> "
  +:+ payload_channel (payload job) +:+ ":" +:+ payload_chat_id (payload job).

Definition execute_list args c : result ZeptoError string :=
  match list_jobs c (default false (arg_bool args "include_disabled")) with
  | [] => Ok "No scheduled jobs"
  | js => Ok ("Scheduled jobs:" +:+ newline +:+ join newline (map job_line js))
  end.

Definition execute_remove args c (write_error : option string) : result ZeptoError string * CronService :=
  match arg_str args "job_id" with
  | None => (Err (Errors.Tool "Missing 'job_id' for cron remove"), c)
  | Some job_id =>
    match remove_job to_json c job_id write_error with
    | (Err e, c) => (Err e, c)
    | (Ok true, c) => (Ok ("Removed cron job " +:+ job_id), c)
    | (Ok false, c) => (Ok ("Cron job " +:+ job_id +:+ " not found"), c)
    end
  end.

(** What a call reads besides its arguments. *)
Record Reads : Type := mkReads {
  fresh_id : string;
  checked_at : Z;
  created_at : Z;
  write_error : option string;
}.

Definition llm_result (r : result ZeptoError string) : result ZeptoError ToolOutput :=
  match r with Ok s => Ok (ToolOutput.llm_only s) | Err e => Err e end.

Definition execute args ctx c (r : Reads) : result ZeptoError ToolOutput * CronService :=
  match arg_str args "action" with
  | None => (Err (Errors.Tool "Missing 'action' argument"), c)
  | Some action =>
    if String.eqb action "add" then
      let out := execute_add args ctx c (fresh_id r) (checked_at r) (created_at r) (write_error r) in
      (llm_result out.1, out.2)
    else if String.eqb action "list" then (llm_result (execute_list args c), c)
    else if String.eqb action "remove" then
      let out := execute_remove args c (write_error r) in (llm_result out.1, out.2)
    else (Err (Errors.Tool ("Unknown cron action '" +:+ action +:+ "'")), c)
  end.

(** *** Calls of the tool between the steps of the scheduler *)

Inductive ToolEvent : Type :=
| Call (args : Value) (ctx : ToolContext) (r : Reads)
| Scheduled (e : CronEvent).

(** The scheduler's own steps. *)
Definition is_tick (e : CronEvent) : bool := match e with Add _ _ _ _ _ _ _ _ | Remove _ _ => false | _ => true end.

Definition tool_step (s : Scheduler (Body := Body)) (e : ToolEvent) : option Scheduler :=
  match e with
  | Call args ctx r => Some (mkScheduler (execute args ctx (service s) r).2 (ticking s) (runs s))
  | Scheduled e => if is_tick e then cron_step to_json s e else None
  end.

Fixpoint tool_run (s : Scheduler (Body := Body)) (es : list ToolEvent) : option Scheduler :=
  match es with [] => Some s | e :: es => s ← tool_step s e; tool_run s es end.

(** ** What jobs the tool makes *)

(** A recurring job of the tool waits a minute or has a readable expression; only
    a one-shot job is deleted after its run. *)
Definition tool_job (j : CronJob) : Prop :=
  match schedule j with
  | At _ => True
  | Every ms => 60000 ≤ ms ∧ delete_after_run j = false
  | Cron expr => (∃ f, parse_cron_expr expr = Some f) ∧ delete_after_run j = false
  end.

Definition active (js : list CronJob) : nat := length (filter (λ j, enabled j = true) js).

(** The interval in milliseconds fits. *)
Definition fits args : Prop := ∀ seconds, arg_i64 args "every_seconds" = Some seconds → seconds * 1000 ≤ i64_max.

Record tool_inv (s : Scheduler (Body := Body)) : Prop := {
  inv_jobs : Forall tool_job (store_jobs s);
  inv_active : (active (store_jobs s) ≤ MAX_JOBS)%nat;
  inv_due t : ticking s = Some t → Forall tool_job (due t);
  inv_runs : Forall (λ e, tool_job (run_job e)) (runs s);
}.

Lemma insert_job_permutation j js : insert_job j js ≡ₚ j :: js.
Proof.
  induction js as [|k js IH]; cbn; [done|]. destruct (_ <=? _); [done|]. rewrite IH. apply Permutation_swap.
Qed.

Lemma list_jobs_permutation c b : list_jobs c b ≡ₚ filter (λ j, b || enabled j = true) (jobs (store c)).
Proof.
  unfold list_jobs. induction (filter _ _) as [|j js IH]; [done|]. cbn. by rewrite insert_job_permutation, IH.
Qed.

Lemma list_jobs_active c : length (list_jobs c false) = active (jobs (store c)).
Proof. by rewrite list_jobs_permutation. Qed.

Lemma is_valid_parses expr now : is_valid_cron_expr expr now = true → ∃ f, parse_cron_expr expr = Some f.
Proof.
  unfold is_valid_cron_expr, next_run_from_cron_expr. destruct (parse_cron_expr expr) as [f|]; [by eexists|done].
Qed.

Lemma schedule_of_spec args now sch d :
  fits args → schedule_of args now = Ok (sch, d) →
  match sch with
  | At _ => d = true
  | Every ms => 60000 ≤ ms ∧ d = false
  | Cron expr => (∃ f, parse_cron_expr expr = Some f) ∧ d = false
  end.
Proof.
  unfold schedule_of, fits. destruct (negb _); [done|]. destruct (arg_i64 args _) as [n|].
  - intros Hf. destruct (Z.ltb_spec n 60); [done|]. destruct (Z.leb_spec n 0); [done|]. intros [= <- <-].
    specialize (Hf n eq_refl). rewrite wrap_i64_small by (unfold i64_min; lia). split; [lia|done].
  - intros _. destruct (arg_str args "cron_expr") as [expr|].
    + destruct (is_valid_cron_expr expr now) eqn:Hv; [|done]. intros [= <- <-]. split; [|done].
      by eapply is_valid_parses.
    + destruct (arg_str args "at") as [i|]; [|done]. destruct (parse_at_datetime_ms i); [|done]. by intros [= <- <-].
Qed.

(** A call adds one job of this kind below the limit, removes the jobs of one id, or
    leaves the jobs alone. *)
Lemma execute_cases args ctx c r :
  let c' := (execute args ctx c r).2 in
  c' = c ∨
  (∃ i, c' = (remove_job to_json c i (write_error r)).2) ∨
  (∃ name sch p d, c' = (add_job_with_timeout to_json c
                           (new_job (fresh_id r) name sch p d None (created_at r)) (write_error r)).2 ∧
    (active (jobs (store c)) < MAX_JOBS)%nat ∧ schedule_of args (checked_at r) = Ok (sch, d)).
Proof.
  unfold execute. destruct (arg_str args "action") as [a|]; [|by left].
  destruct (String.eqb a "add"); [|destruct (String.eqb a "list"); [by left|destruct (String.eqb a "remove"); [|by left]]].
  - cbn [snd]. unfold execute_add. destruct (add_request args ctx c (checked_at r)) as [[[[n sch] p] d]|e] eqn:Hreq; [|by left].
    right; right. exists n, sch, p, d. split.
    + by destruct (add_job_with_timeout to_json c _ _) as [[j|e] c'].
    + unfold add_request in Hreq. destruct (Nat.leb_spec MAX_JOBS (length (list_jobs c false))) as [|Hlt]; [done|].
      rewrite list_jobs_active in Hlt. split; [done|]. repeat case_match; by simplify_eq.
  - cbn [snd]. unfold execute_remove. destruct (arg_str args "job_id") as [i|]; [|by left]. right; left. exists i.
    by destruct (remove_job to_json c i _) as [[[]|e] c'].
Qed.

(** *** A history with the tool is one of the scheduler *)

Definition fresh_ids (es : list ToolEvent) : list string :=
  omap (λ e, match e with Call _ _ r => Some (fresh_id r) | Scheduled _ => None end) es.

Lemma fresh_ids_cons e es : fresh_ids (e :: es) = fresh_ids [e] ++ fresh_ids es.
Proof. unfold fresh_ids. by destruct e. Qed.

Lemma tool_step_events s e s' :
  tool_step s e = Some s' → ∃ es, cron_run to_json s es = Some s' ∧ sublist (added es) (fresh_ids [e]).
Proof.
  destruct e as [args ctx r|e]; cbn.
  - intros [= <-]. destruct (execute_cases args ctx (service s) r) as [->|[(i & ->)|(n & sch & p & d & -> & _ & _)]].
    + exists []. split; [by destruct s|apply sublist_nil_l].
    + exists [Remove i (write_error r)]. split; [done|apply sublist_nil_l].
    + by exists [Add (fresh_id r) n sch p d None (created_at r) (write_error r)].
  - destruct (is_tick e) eqn:Ht; [|done]. intros He. exists [e]. cbn. rewrite He. split; [done|].
    by destruct e.
Qed.

Lemma cron_run_app s es1 es2 s1 :
  cron_run to_json s es1 = Some s1 → cron_run to_json s (es1 ++ es2) = cron_run to_json s1 es2.
Proof.
  revert s. induction es1 as [|e es1 IH]; intros s; cbn; [by intros [= <-]|].
  destruct (cron_step to_json s e) as [s0|]; cbn; [apply IH|done].
Qed.

Lemma tool_run_events s es s' :
  tool_run s es = Some s' → ∃ evs, cron_run to_json s evs = Some s' ∧ sublist (added evs) (fresh_ids es).
Proof.
  revert s. induction es as [|e es IH]; intros s; cbn [tool_run].
  - intros [= <-]. by exists [].
  - destruct (tool_step s e) as [s1|] eqn:He; cbn [mbind option_bind]; [|done]. intros (evs & Hr & Hs)%IH.
    destruct (tool_step_events s e s1 He) as (ev0 & H0 & Hs0). exists (ev0 ++ evs).
    rewrite (cron_run_app _ _ _ _ H0). split; [done|]. rewrite fresh_ids_cons.
    unfold added in *. rewrite omap_app. by apply sublist_app.
Qed.

(** *** The invariant *)

Lemma sublist_Forall (P : CronJob → Prop) js1 js2 : sublist js1 js2 → Forall P js2 → Forall P js1.
Proof. rewrite !Forall_forall. intros Hs Hp j Hj. apply Hp. by eapply sublist_elem. Qed.

Lemma active_app js1 js2 : active (js1 ++ js2) = (active js1 + active js2)%nat.
Proof. unfold active. by rewrite filter_app, length_app. Qed.

Lemma active_cons j js : active (j :: js) = ((if enabled j then 1 else 0) + active js)%nat.
Proof. unfold active. rewrite filter_cons. by destruct (enabled j). Qed.

Lemma active_sublist js1 js2 : sublist js1 js2 → (active js1 ≤ active js2)%nat.
Proof.
  induction 1 as [|j js1 js2 _ IH|j js1 js2 _ IH]; rewrite ?active_cons; [done|..]; destruct (enabled j); lia.
Qed.

Lemma apply_record_keeps js r :
  Forall tool_job js → Forall tool_job (apply_record js r) ∧ (active (apply_record js r) ≤ active js)%nat.
Proof.
  induction 1 as [|j js Hj Hjs [IH1 IH2]]; [done|]. cbn [apply_record]. destruct (String.eqb _ _).
  - split; [by constructor|]. rewrite !active_cons. unfold after_run. cbn [enabled with_state]. destruct (schedule j), (enabled j); cbn [Nat.add]; lia.
  - split; [by constructor|]. rewrite !active_cons. lia.
Qed.

Lemma apply_records_keep js rs :
  Forall tool_job js → Forall tool_job (apply_records js rs) ∧ (active (apply_records js rs) ≤ active js)%nat.
Proof.
  intros Hjs. assert (Forall tool_job (foldl apply_record js rs) ∧ (active (foldl apply_record js rs) ≤ active js)%nat)
    as [H1 H2].
  { revert js Hjs. induction rs as [|r rs IH]; intros js Hjs; [done|]. cbn [foldl].
    destruct (apply_record_keeps js r Hjs) as [H1 H2]. destruct (IH _ H1). split; [done|lia]. }
  unfold apply_records. split; [by eapply sublist_Forall; [apply sublist_filter|]|]. etrans; [apply active_sublist, sublist_filter|done].
Qed.

Lemma tool_inv_fewer s c' :
  tool_inv s → sublist (jobs (store c')) (store_jobs s) → tool_inv (mkScheduler c' (ticking s) (runs s)).
Proof.
  intros [H1 H2 H3 H4] Hs. split; unfold store_jobs; cbn -[active]; [by eapply sublist_Forall| |done..].
  etrans; [by apply active_sublist|done].
Qed.

Lemma tool_inv_call s args ctx r :
  fits args → tool_inv s → tool_inv (mkScheduler (execute args ctx (service s) r).2 (ticking s) (runs s)).
Proof.
  intros Hf Hs. destruct (execute_cases args ctx (service s) r) as [->|[(i & ->)|(n & sch & p & d & -> & Ha & Hd)]].
  - by apply tool_inv_fewer.
  - apply tool_inv_fewer; [done|]. rewrite remove_store. apply sublist_filter.
  - apply schedule_of_spec in Hd; [|done]. destruct Hs as [H1 H2 H3 H4].
    split; unfold store_jobs in *; cbn [service ticking runs]; rewrite ?add_store; cbn [with_jobs jobs]; try done.
    + apply Forall_app. split; [done|]. constructor; [|done]. unfold tool_job. by destruct sch.
    + rewrite active_app, active_cons. change (active []) with 0%nat. cbn [enabled new_job]. lia.
Qed.

Lemma tool_inv_step s e s' :
  is_tick e = true → tool_inv s → cron_step to_json s e = Some s' → tool_inv s'.
Proof.
  intros He [H1 H2 H3 H4]. destruct e as [| |now|started r ended|w]; try done; cbn.
  - destruct (ticking s); [done|]. intros [= <-]. split; cbn; try done. intros t Ht.
    assert (due t = due_jobs (service s) now) as -> by (destruct (due_jobs (service s) now); by simplify_eq).
    by eapply sublist_Forall; [apply sublist_filter|].
  - destruct (ticking s) as [[now [|j js] rs]|]; try done. intros [= <-].
    specialize (H3 _ eq_refl). cbn in H3. apply Forall_cons in H3 as [Hj Hjs].
    split; cbn; [done|done|by intros t [= <-]|]. by apply Forall_app; split; [|constructor].
  - destruct (ticking s) as [[now [|j js] rs]|]; try done. intros [= <-].
    destruct (apply_records_keep (store_jobs s) rs H1) as [H5 H6].
    split; unfold store_jobs in *; cbn [service ticking runs]; unfold finish_tick; rewrite ?save_store_keeps; try done.
    cbn [store set_store with_jobs jobs]. lia.
Qed.

Lemma tool_run_inv s es s' :
  (∀ args ctx r, Call args ctx r ∈ es → fits args) → tool_inv s → tool_run s es = Some s' → tool_inv s'.
Proof.
  revert s. induction es as [|e es IH]; intros s Hf Hs; cbn [tool_run]; [by intros [= <-]|].
  destruct (tool_step s e) as [s1|] eqn:He; cbn; [|done]. apply IH; [set_solver|].
  destruct e as [args ctx r|e]; cbn in He.
  - injection He as <-. apply tool_inv_call; [|done]. eapply Hf. by left.
  - destruct (is_tick e) eqn:Ht; [|done]. by eapply tool_inv_step.
Qed.

(** In any history of calls of the tool and ticks of the scheduler, at most
    fifty jobs are active, and a job with an interval is published again no
    earlier than a minute after its last publication succeeded. *)
Theorem tool_rate (file : option Body) es s :
  NoDup (fresh_ids es) → (∀ args ctx r, Call args ctx r ∈ es → fits args) →
  tool_run (mkScheduler (Cron.new file) None []) es = Some s →
  (length (list_jobs (service s) false) ≤ MAX_JOBS)%nat ∧
  ∀ before e after p ms, runs s = before ++ e :: after →
    last (filter (λ p, id (run_job p) = id (run_job e)) before) = Some p →
    schedule (run_job e) = Every ms → ok (run_record p) = true →
    ended_at (run_record p) + ms ≤ i64_max → i64_min ≤ ended_at (run_record p) →
    60000 ≤ run_tick e - ended_at (run_record p).
Proof.
  intros Hnd Hf Hr. assert (tool_inv s) as Hinv.
  { eapply tool_run_inv; [done| |exact Hr]. split; unfold store_jobs; cbn; try done. lia. }
  destruct (tool_run_events _ _ _ Hr) as (evs & Hev & Hsub).
  destruct (cron_run_sound to_json _ [] evs s (sound_start (Cron.new file) ltac:(constructor))) as (used & Hs);
    [rewrite app_nil_r; by eapply sublist_NoDup|done|].
  split; [rewrite list_jobs_active; apply Hinv|]. intros before e after p ms Hruns Hlast Hms Hok Hmax Hmin.
  destruct (sound_spaced _ _ Hs _ _ _ Hruns) as [_ Hp]. unfold runs_of in Hp. rewrite Hlast in Hp.
  destruct Hp as (Hsch & _ & n & Hn & Hle). unfold due_after in Hn. rewrite <- Hsch, Hms, Hok in Hn.
  pose proof (inv_runs _ Hinv) as Hjobs. rewrite Hruns, Forall_app, Forall_cons in Hjobs.
  destruct Hjobs as (_ & Hj & _). unfold tool_job in Hj. rewrite Hms in Hj. destruct Hj as [Hj _].
  cbn in Hn. destruct (Z.ltb_spec 0 ms); [|done]. injection Hn as <-. rewrite wrap_i64_small in Hle by lia. lia.
Qed.
End tool.

(** ** Examples *)

Module Example_tool.
Import Example_cron.

(** Arguments that are strings or integers. *)
Definition Args : Type := list (string * (string + Z)).
Definition get (args : Args) (k : string) : option (string + Z) := snd <$> find (λ p, String.eqb (fst p) k) args.
Definition str (args : Args) (k : string) : option string :=
  match get args k with Some (inl s) => Some s | _ => None end.
Definition int (args : Args) (k : string) : option Z :=
  match get args k with Some (inr z) => Some z | _ => None end.
Definition flag (args : Args) (k : string) : option bool := None.
Definition no_date (s : string) : option Z := None.

Notation run := (tool_run str int flag no_date no_date to_file).
Notation call := (execute str int flag no_date no_date to_file).

Definition cli : ToolContext := ToolContext.with_channel ToolContext.new "cli" "chat".
Definition reads (i : string) (t : Z) : Reads := mkReads i t t None.
Definition add_every (seconds : Z) : Args :=
  [("action", inl "add"); ("message", inl "ping"); ("every_seconds", inr seconds)].

Definition empty : CronService (Body := CronStore) := Cron.new None.

Example jobs_listed :
  let c := (call (add_every 60) cli empty (reads "1" 0)).2 in
  (call [("action", inl "list")] cli c (reads "" 0)).1
  = Ok (ToolOutput.llm_only ("Scheduled jobs:" +:+ newline +:+ "- ping [1] every(60000ms) -> cli:chat")).
Proof. vm_compute. reflexivity. Qed.

Example additions_refused :
  ((call (add_every 59) cli empty (reads "1" 0)).1,
   (call (("cron_expr", inl "* * * * *") :: add_every 60) cli empty (reads "1" 0)).1)
  = (Err too_often, Err one_schedule).
Proof. vm_compute. reflexivity. Qed.

(** An interval that does not fit wraps around: this job is due at every tick. *)
Example wrapped :
  let c := (call (add_every 18446744073709552) cli empty (reads "1" 0)).2 in
  map schedule (list_jobs c false) = [Every 384].
Proof. vm_compute. reflexivity. Qed.

Definition calls : list ToolEvent :=
  [Call (add_every 60) cli (reads "1" 0); Call (add_every 30) cli (reads "2" 0);
   Scheduled (TickStart 60000); Scheduled (Cron.Dispatch 60001 SendOk 60002); Scheduled (TickEnd None);
   Scheduled (TickStart 120002); Scheduled (Cron.Dispatch 120002 SendOk 120002)].

Lemma tool_rate_witness :
  ∃ s before e, run (mkScheduler empty None []) calls = Some s ∧ runs s = before ++ e :: [] ∧
    (length (list_jobs (service s) false) ≤ MAX_JOBS)%nat ∧
    ∃ p, last before = Some p ∧ 60000 ≤ run_tick e - ended_at (run_record p).
Proof.
  assert (∃ s, run (mkScheduler empty None []) calls = Some s) as [s Hs] by (eexists; vm_compute; reflexivity).
  assert (∃ before e p, runs s = before ++ e :: [] ∧ last before = Some p ∧
    last (filter (λ p, id (run_job p) = id (run_job e)) before) = Some p ∧
    schedule (run_job e) = Every 60000 ∧ ok (run_record p) = true ∧ ended_at (run_record p) = 60002)
    as (before & e & p & Hr & Hl & Hf & Hm & Ho & He).
  { vm_compute in Hs. injection Hs as <-. eexists [_], _, _. repeat split. }
  destruct (tool_rate str int flag no_date no_date to_file None calls s) as [Hle Hrate].
  - apply (bool_decide_unpack (NoDup ["1"; "2"])). reflexivity.
  - intros args ctx r Hin seconds. repeat (apply elem_of_cons in Hin as [Hin|Hin]; [first [discriminate Hin | injection Hin as -> _ _; intros Hx; vm_compute in Hx; injection Hx as <-; unfold i64_max; lia]|]).
    by apply elem_of_nil in Hin.
  - exact Hs.
  - exists s, before, e. split; [done|]. split; [done|]. split; [done|]. exists p. split; [done|].
    apply (Hrate before e [] p 60000); [done|done|done|done|rewrite He; by vm_compute..].
Defined.
End Example_tool.
