(* ===== verification/Health.v ===== *)
(** Readiness and usage of a gateway: src/src/health.rs.

    The checks by name, the counters, the reports as text and the answers to
    requests for them. Sockets, the size of the process and how its decimals are
    printed, and the version of the program are parameters; time is in seconds. *)

From S2P Require Import Prelude Text Lines Files.

Inductive HealthStatus : Type := Healthy | Degraded | Down.

#[export] Instance HealthStatus_eq_dec : EqDecision HealthStatus.
Proof. solve_decision. Defined.

Definition as_str (s : HealthStatus) : string :=
  match s with Healthy => "ok" | Degraded => "degraded" | Down => "down" end.

Record HealthCheck : Type := mkHealthCheck {
  name : string;
  status : HealthStatus;
  message : option string;
  restart_count : Z;
  last_error : option string;
}.

Definition HealthCheck_default : HealthCheck := mkHealthCheck "" Healthy None 0 None.

(** ** Counters *)

Record UsageMetrics : Type := mkUsageMetrics {
  requests : Z;
  tool_calls : Z;
  input_tokens : Z;
  output_tokens : Z;
  errors : Z;
  ready : bool;
}.

Module UsageMetrics.
Implicit Types m : UsageMetrics.

Definition new : UsageMetrics := mkUsageMetrics 0 0 0 0 0 false.

Definition record_request m : UsageMetrics :=
  mkUsageMetrics (wadd64 (requests m) 1) (tool_calls m) (input_tokens m) (output_tokens m) (errors m) (ready m).
Definition record_tool_calls m (count : Z) : UsageMetrics :=
  mkUsageMetrics (requests m) (wadd64 (tool_calls m) count) (input_tokens m) (output_tokens m) (errors m) (ready m).
Definition record_tokens m (input output : Z) : UsageMetrics :=
  mkUsageMetrics (requests m) (tool_calls m) (wadd64 (input_tokens m) input) (wadd64 (output_tokens m) output)
    (errors m) (ready m).
Definition add_errors m (count : Z) : UsageMetrics :=
  mkUsageMetrics (requests m) (tool_calls m) (input_tokens m) (output_tokens m) (wadd64 (errors m) count) (ready m).
Definition record_error m : UsageMetrics := add_errors m 1.
Definition set_ready m (r : bool) : UsageMetrics :=
  mkUsageMetrics (requests m) (tool_calls m) (input_tokens m) (output_tokens m) (errors m) r.
End UsageMetrics.

(** ** Checks *)

Record HealthRegistry : Type := mkHealthRegistry {
  checks : gmap string HealthCheck;
  start_time : Z;
  metrics : option UsageMetrics;
}.

Definition quoted (s : string) : string := dquote +:+ s +:+ dquote.

Module HealthRegistry.
Implicit Types self : HealthRegistry.

Definition new (now : Z) : HealthRegistry := mkHealthRegistry ∅ now None.

Definition with_checks self (cs : gmap string HealthCheck) : HealthRegistry :=
  mkHealthRegistry cs (start_time self) (metrics self).

Definition set_metrics self (m : UsageMetrics) : HealthRegistry :=
  mkHealthRegistry (checks self) (start_time self) (Some m).

Definition register self (c : HealthCheck) : HealthRegistry := with_checks self (<[name c := c]> (checks self)).

Definition update self (n : string) (s : HealthStatus) (msg : option string) : HealthRegistry :=
  with_checks self (alter (λ c, mkHealthCheck (name c) s msg (restart_count c) (last_error c)) n (checks self)).

Definition is_ready self : bool := bool_decide (map_Forall (λ _ c, status c ≠ Down) (checks self)).

Definition bump_restart self (n : string) : HealthRegistry :=
  with_checks self (alter (λ c, mkHealthCheck (name c) (status c) (message c) (wadd64 (restart_count c) 1)
                                  (last_error c)) n (checks self)).

Definition set_error self (n error : string) : HealthRegistry :=
  with_checks self (alter (λ c, mkHealthCheck (name c) Down (message c) (restart_count c) (Some error)) n
                      (checks self)).

Definition uptime self (now : Z) : Z := now - start_time self.
End HealthRegistry.

(** ** Reports *)

Section reports.
Context `{MapOrder HealthCheck} (version : string) (rss_bytes : option Z) (fmt_mb : Z → string).
Implicit Types self : HealthRegistry.

Definition escape (s : string) : string := replace s dquote ("\" +:+ dquote).

Definition field (n value : string) : string := quoted n +:+ ":" +:+ value.

Definition check_json (c : HealthCheck) : string :=
  quoted (name c) +:+ ":{" +:+ field "status" (quoted (as_str (status c)))
  +:+ match message c with Some msg => "," +:+ field "message" (quoted (escape msg)) | None => "" end
  +:+ (if 0 <? restart_count c then "," +:+ field "restart_count" (fmt_Z (restart_count c)) else "")
  +:+ match last_error c with Some e => "," +:+ field "last_error" (quoted (escape e)) | None => "" end
  +:+ "}".

Definition render_checks_json self : string :=
  match map_iter (checks self) with
  | [] => "{}"
  | cs => "{" +:+ join "," (map (λ kc, check_json (snd kc)) cs) +:+ "}"
  end.

Definition memory_json (rss : Z) : string :=
  field "memory" ("{" +:+ field "rss_bytes" (fmt_Z rss) +:+ "," +:+ field "rss_mb" (fmt_mb rss) +:+ "}").

Definition usage_json (m : UsageMetrics) : string :=
  field "usage" ("{" +:+ join ","
    [field "requests" (fmt_Z (requests m)); field "tool_calls" (fmt_Z (tool_calls m));
     field "input_tokens" (fmt_Z (input_tokens m)); field "output_tokens" (fmt_Z (output_tokens m));
     field "errors" (fmt_Z (errors m))] +:+ "}").

Definition opt_json (o : option string) : string := match o with Some s => "," +:+ s | None => "" end.

Definition status_text (is_ready : bool) : string := if is_ready then "ok" else "degraded".

Definition render_health_json self (now : Z) : string :=
  "{" +:+ field "status" (quoted (status_text (HealthRegistry.is_ready self)))
  +:+ "," +:+ field "version" (quoted version)
  +:+ "," +:+ field "uptime_secs" (fmt_Z (HealthRegistry.uptime self now))
  +:+ opt_json (memory_json <$> rss_bytes)
  +:+ opt_json (usage_json <$> metrics self)
  +:+ "," +:+ field "checks" (render_checks_json self) +:+ "}".

(** The method and the path of a request. *)
Definition request_target (request : string) : string * string :=
  let parts := split_whitespace (default "" (head (lines request))) in
  let raw_path := default "" (parts !! 1%nat) in
  (default "" (head parts),
   match split_once (Ascii.ascii_of_nat 63) raw_path with Some (path, _) => path | None => raw_path end).

Definition ready_answer (is_ready : bool) : string * string :=
  if is_ready then ("200 OK", "{" +:+ field "status" (quoted "ready") +:+ "}")
  else ("503 Service Unavailable", "{" +:+ field "status" (quoted "not_ready") +:+ "}").

Definition not_found : string * string := ("404 Not Found", "{" +:+ field "error" (quoted "not_found") +:+ "}").

Definition is_get (target : string * string) (p1 p2 : string) : bool :=
  String.eqb target.1 "GET" && (String.eqb target.2 p1 || String.eqb target.2 p2).

(** [start_health_server]. *)
Definition answer self (now : Z) (request : string) : string * string :=
  let target := request_target request in
  if is_get target "/health" "/healthz" then ("200 OK", render_health_json self now)
  else if is_get target "/ready" "/readyz" then ready_answer (HealthRegistry.is_ready self)
  else not_found.

(** [start_health_server_legacy]. *)
Definition answer_legacy (m : UsageMetrics) (request : string) : string * string :=
  let target := request_target request in
  if is_get target "/healthz" "/health" then
    ("200 OK",
     "{" +:+ join "," ([field "status" (quoted (status_text (ready m))); field "version" (quoted version)]
                       ++ match rss_bytes with Some rss => [memory_json rss] | None => [] end
                       ++ [usage_json m]) +:+ "}")
  else if is_get target "/readyz" "/ready" then ready_answer (ready m)
  else not_found.

Definition crlf : string := String cr newline.

Definition http_response (a : string * string) : string :=
  "HTTP/1.1 " +:+ a.1 +:+ crlf +:+ "Content-Type: application/json" +:+ crlf +:+ "Content-Length: "
  +:+ fmt_Z (Z.of_nat (String.length a.2)) +:+ crlf +:+ "Connection: close" +:+ crlf +:+ crlf +:+ a.2.
End reports.

(** ** Facts *)

Inductive op : Type :=
| Register (c : HealthCheck)
| Update (n : string) (s : HealthStatus) (msg : option string)
| BumpRestart (n : string)
| SetError (n error : string).

Definition exec (self : HealthRegistry) (o : op) : HealthRegistry :=
  match o with
  | Register c => HealthRegistry.register self c
  | Update n s msg => HealthRegistry.update self n s msg
  | BumpRestart n => HealthRegistry.bump_restart self n
  | SetError n e => HealthRegistry.set_error self n e
  end.

(** What an operation says of the state of a component that [known] tells to be
    registered. *)
Definition says (n : string) (known : option HealthStatus) (o : op) : option HealthStatus :=
  match o with
  | Register c => if bool_decide (name c = n) then Some (status c) else known
  | Update n' s _ => if bool_decide (n' = n) then (λ _, s) <$> known else known
  | SetError n' _ => if bool_decide (n' = n) then (λ _, Down) <$> known else known
  | BumpRestart _ => known
  end.

Lemma exec_says self o n : status <$> checks (exec self o) !! n = says n (status <$> checks self !! n) o.
Proof.
  destruct o as [c|n' s msg|n'|n' e]; cbn.
  - case_bool_decide as Hn; [subst; by rewrite lookup_insert_eq|by rewrite lookup_insert_ne].
  - case_bool_decide as Hn; [subst; rewrite lookup_alter_eq|by rewrite lookup_alter_ne].
    by destruct (checks self !! n).
  - destruct (decide (n' = n)) as [->|]; [rewrite lookup_alter_eq|by rewrite lookup_alter_ne].
    by destruct (checks self !! n).
  - case_bool_decide as Hn; [subst; rewrite lookup_alter_eq|by rewrite lookup_alter_ne].
    by destruct (checks self !! n).
Qed.

Lemma execs_say ops : ∀ self n,
  status <$> checks (foldl exec self ops) !! n = foldl (says n) (status <$> checks self !! n) ops.
Proof. induction ops as [|o ops IH]; intros self n; [done|]. cbn [foldl]. by rewrite IH, exec_says. Qed.

Lemma execs_new ops now n :
  status <$> checks (foldl exec (HealthRegistry.new now) ops) !! n = foldl (says n) None ops.
Proof. by rewrite execs_say. Qed.

(** A gateway reports to be ready exactly when no component it has heard of was
    last said to be down. *)
Theorem readiness ops now :
  HealthRegistry.is_ready (foldl exec (HealthRegistry.new now) ops) = true ↔
  ∀ n, foldl (says n) None ops ≠ Some Down.
Proof.
  unfold HealthRegistry.is_ready. rewrite bool_decide_eq_true. setoid_rewrite <- (execs_new ops now). split.
  - intros Hall n (c & Hc & Hd)%fmap_Some. by apply (Hall n c Hc).
  - intros Hall n c Hc Hd. apply (Hall n). rewrite Hc. cbn. by rewrite Hd.
Qed.

Module Example_health.
#[local] Instance list_order : MapOrder HealthCheck := {| map_iter m := map_to_list m; map_iter_list m := reflexivity _ |}.

Definition up : HealthRegistry :=
  foldl exec (HealthRegistry.new 100)
    [Register (mkHealthCheck "provider" Healthy None 0 None); BumpRestart "provider"; Update "db" Down None].

Definition get (self : HealthRegistry) (request : string) := answer "0.7" None (λ _, "") self 160 request.

Example answered :
  get up ("GET /readyz?full HTTP/1.1" +:+ crlf) = ready_answer true ∧
  (get (HealthRegistry.set_error up "provider" "timeout") "GET /ready HTTP/1.1").1 = "503 Service Unavailable" ∧
  get up "POST /ready HTTP/1.1" = not_found ∧ get up "" = not_found.
Proof. vm_compute. split_and!; reflexivity. Qed.

(** A component that is degraded is reported as ok. *)
Example degraded_ok :
  let self := HealthRegistry.update up "provider" Degraded (Some "slow") in
  HealthRegistry.is_ready self = true ∧ status_text (HealthRegistry.is_ready self) = "ok".
Proof. vm_compute. split; reflexivity. Qed.

(** A backslash in a message is copied as it is: this one ends the value too late. *)
Example backslash_kept :
  render_checks_json (HealthRegistry.update up "provider" Degraded (Some "C:\")) =
    "{" +:+ quoted "provider" +:+ ":{" +:+ field "status" (quoted "degraded") +:+ "," +:+ quoted "message" +:+ ":"
    +:+ dquote +:+ "C:\" +:+ dquote +:+ "," +:+ field "restart_count" "1" +:+ "}}".
Proof. vm_compute. reflexivity. Qed.
End Example_health.
