(* ===== verification/Ipc.v ===== *)
(** The protocol between the gateway and an agent in a container: src/src/gateway/ipc.rs,
    [cmd_agent_stdin] of src/src/cli/agent.rs, and the container's invocation and process of
    src/src/gateway/container_agent.rs.

    JSON, identifiers, temporary directories and what a process does are parameters. The
    agent inside the container is an interface: it takes a message to a text or an error. *)

From S2P Require Import Prelude Text Lines Errors Bus Session Sessions Paths Diff Files Mount Registry Health.

Definition RESPONSE_START_MARKER : string := "<<<AGENT_RESPONSE_START>>>".
Definition RESPONSE_END_MARKER : string := "<<<AGENT_RESPONSE_END>>>".

(** ** Requests and responses *)

Record UsageSnapshot : Type := mkUsageSnapshot {
  u_input_tokens : Z;
  u_output_tokens : Z;
  u_tool_calls : Z;
  u_errors : Z;
}.

Definition from_metrics (m : UsageMetrics) : UsageSnapshot :=
  mkUsageSnapshot (input_tokens m) (output_tokens m) (tool_calls m) (Health.errors m).

(** The defaults of the agents are passed on and not looked at. *)
Record AgentRequest (D : Type) : Type := mkAgentRequest {
  request_id : string;
  req_message : InboundMessage;
  agent_config : D;
  req_session : option Session;
}.
Arguments mkAgentRequest {D} _ _ _ _.
Arguments request_id {D} _.
Arguments req_message {D} _.
Arguments agent_config {D} _.
Arguments req_session {D} _.

Definition validate {D} (self : AgentRequest D) : result ZeptoError unit :=
  match req_session self with
  | Some session =>
    if negb (String.eqb (key session) (session_key (req_message self))) then
      Err (Errors.Session ("Session key mismatch: request.message.session_key='"
        +:+ session_key (req_message self) +:+ "', request.session.key='" +:+ key session +:+ "'"))
    else Ok tt
  | None => Ok tt
  end.

Inductive AgentResult : Type :=
| Success (content : string) (session : option Session)
| Failure (message code : string).

Record AgentResponse : Type := mkAgentResponse {
  resp_request_id : string;
  resp_result : AgentResult;
  usage : option UsageSnapshot;
}.

Definition success (request_id content : string) (session : option Session) : AgentResponse :=
  mkAgentResponse request_id (Success content session) None.
Definition error (request_id message code : string) : AgentResponse :=
  mkAgentResponse request_id (Failure message code) None.
Definition with_usage (self : AgentResponse) (u : UsageSnapshot) : AgentResponse :=
  mkAgentResponse (resp_request_id self) (resp_result self) (Some u).

(** [str::rfind]. *)
Fixpoint rfind_str (s p : string) : option nat :=
  match s with
  | EmptyString => if String.prefix p s then Some 0%nat else None
  | String _ s' =>
    match rfind_str s' p with
    | Some i => Some (S i)
    | None => if String.prefix p s then Some 0%nat else None
    end
  end.

Section protocol.
(** [to_string(..).unwrap_or_default()] and [from_str(..).ok()] of serde_json. *)
Context (response_json : AgentResponse → string) (response_of_json : string → option AgentResponse).

Definition to_marked_json (self : AgentResponse) : string :=
  RESPONSE_START_MARKER +:+ newline +:+ response_json self +:+ newline +:+ RESPONSE_END_MARKER.

Definition parse_marked_response (stdout : string) : option AgentResponse :=
  start ← rfind_str stdout RESPONSE_START_MARKER;
  let json_start := (start + String.length RESPONSE_START_MARKER)%nat in
  let rest := str_drop json_start stdout in
  end_ ← find_str rest RESPONSE_END_MARKER;
  response_of_json (trim (str_take end_ rest)).
End protocol.

(** *** Occurrences of a text that has no border *)

(** No proper suffix is a prefix. *)
Definition unbordered (p : string) : bool :=
  forallb (λ k, negb (String.prefix (str_drop k p) p)) (seq 1 (String.length p - 1)).

Lemma unbordered_spec p k t :
  unbordered p = true → (0 < k < String.length p)%nat → String.prefix p (str_drop k p +:+ t) = false.
Proof.
  intros Hu Hk. apply not_true_iff_false. intros [u Hp]%prefix_spec.
  unfold unbordered in Hu. rewrite forallb_forall in Hu.
  specialize (Hu k). rewrite negb_true_iff, in_seq in Hu. apply not_true_iff_false in Hu; [|lia].
  apply Hu, prefix_spec. exists (str_drop (String.length p - k) p).
  rewrite <- (str_take_drop (String.length p - k) p) at 1. f_equal.
  assert (str_take (String.length (str_drop k p)) (str_drop k p +:+ t) = str_take (String.length (str_drop k p)) (p +:+ u))
    as Ht by by rewrite Hp.
  rewrite str_take_app_exact, str_drop_length, str_take_app_le in Ht by lia. done.
Qed.

Lemma occurs_take s p i : occurs s p i → ∃ t, str_drop i s = p +:+ t.
Proof. by intros [_ ?%prefix_spec]. Qed.

(** In front of an occurrence the text occurs only as a whole. *)
Lemma no_occurrence_before a p r j :
  unbordered p = true → contains a p = false → (j < String.length a)%nat → ¬ occurs (a +:+ p +:+ r) p j.
Proof.
  intros Hu Ha Hj Ho. destruct (decide (j + String.length p ≤ String.length a)%nat) as [Hl|Hl].
  - apply not_true_iff_false in Ha. apply Ha, contains_occurs. exists j. split; [lia|].
    destruct (occurs_take _ _ _ Ho) as [t Ht].
    assert (str_take (String.length p) (str_drop j (a +:+ p +:+ r)) = p) as Hp by (rewrite Ht; apply str_take_app_exact).
    apply prefix_spec. exists (str_drop (String.length p) (str_drop j a)).
    rewrite <- (str_take_drop (String.length p) (str_drop j a)) at 1. f_equal.
    transitivity (str_take (String.length p) (str_drop j (a +:+ p +:+ r))); [|done].
    rewrite str_drop_app_le by lia. rewrite str_take_app_le; [done|]. rewrite str_drop_length. lia.
  - set (k := (String.length a - j)%nat). assert (0 < k < String.length p)%nat as Hk by lia.
    destruct (occurs_take _ _ _ Ho) as [t Ht].
    apply (f_equal (str_drop k)) in Ht. rewrite str_drop_drop in Ht.
    replace (j + k)%nat with (String.length a) in Ht by lia.
    rewrite str_drop_app_exact in Ht.
    rewrite (str_drop_app_le p) in Ht by lia.
    pose proof (unbordered_spec p k t Hu Hk) as Hf. rewrite <- Ht in Hf. by rewrite prefix_app in Hf.
Qed.

Lemma no_occurrence_after p r j :
  unbordered p = true → contains r p = false → (0 < j)%nat → ¬ occurs (p +:+ r) p j.
Proof.
  intros Hu Hr Hj Ho. destruct (decide (j < String.length p)%nat) as [Hl|Hl].
  - destruct Ho as [_ Hp]. rewrite str_drop_app_le in Hp by lia.
    by rewrite unbordered_spec in Hp.
  - apply not_true_iff_false in Hr. apply Hr, contains_occurs. exists (j - String.length p)%nat.
    destruct Ho as [Hlen Hp]. rewrite str_app_length in Hlen. split; [lia|].
    by rewrite str_drop_app_ge in Hp by lia.
Qed.

Lemma find_str_here a p r :
  unbordered p = true → contains a p = false → find_str (a +:+ p +:+ r) p = Some (String.length a).
Proof.
  intros Hu Ha. assert (occurs (a +:+ p +:+ r) p (String.length a)) as Ho.
  { split; [rewrite str_app_length; lia|]. rewrite str_drop_app_exact. apply prefix_app. }
  destruct (find_str _ _) as [i|] eqn:Hi; [|by destruct (find_str_None _ _ Hi (String.length a))].
  apply find_str_Some in Hi as [Hi Hmin]. f_equal.
  destruct (lt_eq_lt_dec i (String.length a)) as [[Hlt|]|Hgt]; [|done|by destruct (Hmin (String.length a))].
  by destruct (no_occurrence_before a p r i).
Qed.

Lemma rfind_str_here a p r :
  unbordered p = true → p ≠ "" → contains r p = false → rfind_str (a +:+ p +:+ r) p = Some (String.length a).
Proof.
  intros Hu Hp Hr. assert (Hnone : ∀ s, (∀ j, ¬ occurs s p j) → rfind_str s p = None).
  { induction s as [|c s IH]; intros Hno; cbn [rfind_str].
    - destruct (String.prefix p "") eqn:E; [|done]. destruct (Hno 0%nat). by split.
    - rewrite IH.
      + destruct (String.prefix p (String c s)) eqn:E; [|done]. destruct (Hno 0%nat). split; [lia|done].
      + intros j [Hj Ho]. destruct (Hno (S j)). split; [simpl; lia|done]. }
  induction a as [|c a IH].
  - change ("" +:+ p +:+ r) with (p +:+ r). destruct p as [|c p]; [done|].
    change (String c p +:+ r) with (String c (p +:+ r)) at 1. cbn [rfind_str].
    rewrite Hnone.
    { change (String c (p +:+ r)) with (String c p +:+ r). by rewrite prefix_app. }
    intros j [Hj Ho]. apply (no_occurrence_after (String c p) r (S j)); [done|done|lia|].
    split; [simpl; lia|done].
  - change (String c a +:+ p +:+ r) with (String c (a +:+ p +:+ r)). cbn [rfind_str]. by rewrite IH.
Qed.

(** *** White space around an object *)

Definition brace : Ascii.ascii := Ascii.ascii_of_nat 125.

Lemma ws_len_brace s : no_byte brace (str_take (ws_len s) s) = true.
Proof.
  assert (Hb : ∀ c, byte_val c ≠ 125%N → negb (Ascii.eqb c brace) = true).
  { intros c Hc. apply negb_true_iff, Ascii.eqb_neq. by intros ->. }
  assert (no_byte brace "" = true) as H0 by done.
  destruct s as [|a [|b [|c s]]]; unfold ws_len; repeat case_match; try done; cbn;
    rewrite ?andb_true_r; repeat (apply andb_true_intro; split); try apply Hb; lia.
Qed.

Lemma trim_start_brace n : ∀ s, no_byte brace s = false → no_byte brace (trim_start_fuel n s) = false.
Proof.
  induction n as [|n IH]; intros s Hs; cbn [trim_start_fuel]; [done|].
  destruct (ws_len s) as [|k] eqn:Hk; [done|]. apply IH. pose proof (ws_len_brace s) as Hb. rewrite Hk in Hb.
  rewrite <- (str_take_drop (S k) s) in Hs. unfold no_byte in *. by rewrite all_bytes_app, Hb in Hs.
Qed.

Lemma trim_end_brace s w : trim_start w = "" → trim_end (s +:+ String brace w) = s +:+ String brace "".
Proof.
  intros Hw. assert (Hne : ∀ t, no_byte brace t = false → str_is_empty (trim_start t) = false).
  { intros t Ht%(trim_start_brace (String.length t)). unfold trim_start. by destruct (trim_start_fuel _ t). }
  assert (trim_end w = "") as Hw'. { destruct w as [|c w]; [done|]. cbn [trim_end]. by rewrite Hw. }
  induction s as [|c s IH].
  - change ("" +:+ String brace w) with (String brace w). cbn [trim_end]. rewrite Hne by done. by rewrite Hw'.
  - change (String c s +:+ String brace w) with (String c (s +:+ String brace w)). cbn [trim_end].
    rewrite Hne, IH; [done|]. unfold no_byte. cbn [all_bytes]. rewrite all_bytes_app. cbn. by rewrite !andb_false_r.
Qed.

(** An object as serde_json prints it. *)
Definition object_text (s : string) : Prop := ∃ t, s = "{" +:+ t +:+ "}".

Lemma trim_object s : object_text s → trim (newline +:+ s +:+ newline) = s.
Proof.
  intros [t ->]. unfold trim.
  assert (trim_start (newline +:+ ("{" +:+ t +:+ "}") +:+ newline) = "{" +:+ t +:+ "}" +:+ newline) as ->.
  { unfold trim_start. rewrite !str_app_length. cbn [String.length newline Nat.add].
    rewrite !str_app_assoc. generalize (t +:+ "}" +:+ newline) as r. intros r. by destruct r as [|? [|? ?]]. }
  change ("{" +:+ t +:+ "}" +:+ newline) with (("{" +:+ t) +:+ String brace newline). rewrite trim_end_brace; done.
Qed.

(** *** Round trip *)

Lemma contains_around p a b c :
  p ≠ "" → no_byte c p = true → contains a p = false → contains b p = false →
  contains (a +:+ String c b) p = false.
Proof.
  intros Hne Hc Ha Hb. apply not_true_iff_false. intros [j Ho]%contains_occurs.
  pose proof (occurs_length _ _ _ Ho) as Hl. rewrite str_app_length in Hl. cbn in Hl.
  destruct Ho as [_ [t Ht]%prefix_spec].
  destruct (decide (j + String.length p ≤ String.length a)%nat) as [Hja|Hja].
  - rewrite str_drop_app_le in Ht by lia. apply not_true_iff_false in Ha. apply Ha, contains_occurs. exists j.
    split; [lia|]. apply prefix_spec. exists (str_drop (String.length p) (str_drop j a)).
    rewrite <- (str_take_drop (String.length p) (str_drop j a)) at 1. f_equal.
    transitivity (str_take (String.length p) (p +:+ t)); [|apply str_take_app_exact].
    rewrite <- Ht, str_take_app_le; [done|]. rewrite str_drop_length. lia.
  - destruct (decide (String.length a < j)%nat) as [Hjb|Hjb].
    + apply not_true_iff_false in Hb. apply Hb, contains_occurs. exists (j - String.length a - 1)%nat.
      split; [lia|]. apply prefix_spec. exists t. rewrite <- Ht, str_drop_app_ge by lia.
      destruct (j - String.length a)%nat as [|n] eqn:Hn; [lia|]. cbn. by rewrite Nat.sub_0_r.
    + set (k := (String.length a - j)%nat).
      assert (str_drop k (str_drop j (a +:+ String c b)) = String c b) as Hd.
      { rewrite str_drop_drop. replace (j + k)%nat with (String.length a) by lia. apply str_drop_app_exact. }
      rewrite Ht, str_drop_app_le in Hd by lia. rewrite <- (str_take_drop k p) in Hc.
      unfold no_byte in Hc. rewrite all_bytes_app in Hc. apply andb_prop in Hc as [_ Hc].
      assert (0 < String.length (str_drop k p))%nat as Hlen.
      { rewrite str_drop_length. destruct p; [done|]. cbn in *. lia. }
      destruct (str_drop k p) as [|x q]; [cbn in Hlen; lia|]. injection Hd as -> _. cbn in Hc.
      by rewrite Ascii.eqb_refl in Hc.
Qed.

(** The end marker and what follows it have no start marker. *)
Lemma end_then after :
  contains after RESPONSE_START_MARKER = false →
  contains (RESPONSE_END_MARKER +:+ after) RESPONSE_START_MARKER = false.
Proof.
  intros Ha. apply not_true_iff_false. intros [j Ho]%contains_occurs.
  destruct (decide (String.length RESPONSE_END_MARKER ≤ j)%nat) as [Hj|Hj].
  - apply not_true_iff_false in Ha. apply Ha, contains_occurs. exists (j - String.length RESPONSE_END_MARKER)%nat.
    destruct Ho as [Hl Hp]. rewrite str_app_length in Hl. split; [lia|]. by rewrite str_drop_app_ge in Hp.
  - destruct Ho as [_ Hp]. revert Hp. cbn in Hj.
    do 25 (destruct j as [|j]; [by vm_compute|]). lia.
Qed.

Section round_trip.
Context (response_json : AgentResponse → string) (response_of_json : string → option AgentResponse).

Lemma parse_between before body after :
  contains (body +:+ RESPONSE_END_MARKER +:+ after) RESPONSE_START_MARKER = false →
  contains body RESPONSE_END_MARKER = false →
  parse_marked_response response_of_json
    (before +:+ RESPONSE_START_MARKER +:+ body +:+ RESPONSE_END_MARKER +:+ after) =
  response_of_json (trim body).
Proof.
  intros Hs He. unfold parse_marked_response. rewrite rfind_str_here by done. cbn [mbind option_bind].
  rewrite str_drop_app_ge by lia. replace (_ - _)%nat with (String.length RESPONSE_START_MARKER) by lia.
  rewrite str_drop_app_exact, find_str_here by done. cbn [mbind option_bind]. by rewrite str_take_app_exact.
Qed.
End round_trip.

(** ** The agent in the container *)

Section agent.
Context {D C W : Type} `{SessionFiles W} (auto_repair : bool).
Context (request_of_json : string → result string (AgentRequest D)).
Context (response_json : AgentResponse → string).
(** The configuration of the container, and the agent that is made of it. *)
Context (load_config : W → result string C) (create_agent : C → D → W → result string SessionManager).
(** [process_message], with what it does to the sessions and the counters. *)
Context (process_message : C → D → SessionManager → W → InboundMessage →
                           result ZeptoError string * UsageMetrics * SessionManager * W).

Definition println (r : AgentResponse) : string := to_marked_json response_json r +:+ newline.

Definition seed (manager : SessionManager) (w : W) (s : option Session) : result ZeptoError unit * SessionManager * W :=
  match s with Some s => SessionManager.save manager w s | None => (Ok tt, manager, w) end.

(** What is printed, or the error the process ends with. *)
Definition cmd_agent_stdin (input : string) (w : W) : result string string * W :=
  match load_config w with
  | Err e => (Err e, w)
  | Ok config =>
    match request_of_json input with
    | Err e => (Err ("Invalid request JSON: " +:+ e), w)
    | Ok request =>
      match validate request with
      | Err e => (Ok (println (error (request_id request) (ZeptoError_display e) "INVALID_REQUEST")), w)
      | Ok _ =>
        match create_agent config (agent_config request) w with
        | Err e => (Err e, w)
        | Ok manager =>
          let '(seeded, manager, w) := seed manager w (req_session request) in
          match seeded with
          | Err e => (Err (ZeptoError_display e), w)
          | Ok _ =>
            let message := req_message request in
            let '(r, metrics, manager, w) := process_message config (agent_config request) manager w message in
            match r with
            | Ok content =>
              match SessionManager.get auto_repair manager w (session_key message) with
              | (Ok updated, _) =>
                (Ok (println (with_usage (success (request_id request) content updated) (from_metrics metrics))), w)
              | (Err e, _) => (Err (ZeptoError_display e), w)
              end
            | Err e =>
              (Ok (println (with_usage (error (request_id request) (ZeptoError_display e) "PROCESS_ERROR")
                              (from_metrics metrics))), w)
            end
          end
        end
      end
    end
  end.
End agent.

(** ** The process of a container *)

Inductive ProcessOutcome : Type :=
| SpawnFailed (e : string)
| StdinFailed (e : string)
| StdinEndFailed (e : string)
| TimedOut
| WaitFailed (e : string)
| Exited (code : option Z) (stdout stderr : string).

Definition code_text (code : option Z) : string :=
  match code with Some n => "Some(" +:+ fmt_Z n +:+ ")" | None => "None" end.

(** [request_json] is what serializing the request gives. *)
Definition run_container_process (response_of_json : string → option AgentResponse) (timeout_secs : Z)
    (request_json : result string string) (o : ProcessOutcome) : result ZeptoError AgentResponse :=
  match o, request_json with
  | SpawnFailed e, _ => Err (Config ("Failed to spawn container: " +:+ e))
  | _, Err e => Err (Config ("Failed to serialize request: " +:+ e))
  | StdinFailed e, _ => Err (Config ("Failed to write to stdin: " +:+ e))
  | StdinEndFailed e, _ => Err (Io e)
  | TimedOut, _ => Err (Config ("Container timeout after " +:+ fmt_Z timeout_secs +:+ "s: process killed"))
  | WaitFailed e, _ => Err (Config ("Container failed: " +:+ e))
  | Exited code stdout stderr, _ =>
    if negb (bool_decide (code = Some 0)) then
      Err (Config ("Container exited with code " +:+ code_text code +:+ ": " +:+ stderr))
    else
      match parse_marked_response response_of_json stdout with
      | Some r => Ok r
      | None => Err (Config "Failed to parse container response")
      end
  end.

(** ** The invocation of a container *)

Definition CONTAINER_WORKSPACE_DIR : string := "/data/.zeptoclaw/workspace".
Definition CONTAINER_SESSIONS_DIR : string := "/data/.zeptoclaw/sessions".
Definition CONTAINER_CONFIG_PATH : string := "/data/.zeptoclaw/config.json".
Definition CONTAINER_ENV_DIR : string := "/tmp/zeptoclaw-env".

Inductive ContainerAgentBackend : Type := AutoBackend | DockerBackend | AppleBackend.
Inductive ResolvedBackend : Type := Docker | Apple.

Definition ResolvedBackend_display (b : ResolvedBackend) : string :=
  match b with Docker => "docker" | Apple => "apple-container" end.

Record ContainerAgentConfig : Type := mkContainerAgentConfig {
  backend : ContainerAgentBackend;
  image : string;
  docker_binary : option string;
  memory_limit : option string;
  cpu_limit : option string;
  timeout_secs : Z;
  network : string;
  extra_mounts : list string;
  max_concurrent : nat;
}.

Record ContainerInvocation : Type := mkContainerInvocation {
  binary : string;
  args : list string;
  env : list (string * string);
  temp_dir : option string;
}.

(** *** The environment *)

Definition env_setting (name : string) (value : option string) : list (string * string) :=
  match value with
  | Some v => if str_is_empty (trim v) then [] else [(name, v)]
  | None => []
  end.

Definition provider_env (prefix : string) (c : option ProviderConfig) : list (string * string) :=
  match c with
  | Some c => env_setting (prefix +:+ "_API_KEY") (api_key c) ++ env_setting (prefix +:+ "_API_BASE") (api_base c)
  | None => []
  end.

Definition collect_env_vars (providers : ProvidersConfig) : list (string * string) :=
  provider_env "ZEPTOCLAW_PROVIDERS_ANTHROPIC" (anthropic providers)
  ++ provider_env "ZEPTOCLAW_PROVIDERS_OPENAI" (openai providers)
  ++ provider_env "ZEPTOCLAW_PROVIDERS_OPENROUTER" (openrouter providers)
  ++ [("HOME", "/data"); ("ZEPTOCLAW_AGENTS_DEFAULTS_WORKSPACE", CONTAINER_WORKSPACE_DIR)].

Definition squote : Ascii.ascii := Ascii.ascii_of_nat 39.
Definition backslash : Ascii.ascii := Ascii.ascii_of_nat 92.

Definition escape_quotes (value : string) : string := replace value "'" "'\''".

Definition export_line (nv : string * string) : string :=
  "export " +:+ fst nv +:+ "='" +:+ escape_quotes (snd nv) +:+ "'".

Definition generate_env_file_content (env_vars : list (string * string)) : string :=
  join newline ("#!/bin/sh" :: map export_line env_vars ++ [""]).

(** *** Arguments *)

Section invocation.
Context `{RustUnicode} {W : Type} `{FileSystem W}.
Context (home_dir : option string) (try_exists : W → list Component → result string bool).
Context (io_error : W → list Component → string).
Context (macos : bool) (path_exists : W → string → bool).
Implicit Types (w : W) (cfg : ContainerAgentConfig) (providers : ProvidersConfig).

Definition ALLOWED_DOCKER_BINARIES : list string := ["docker"; "podman"].

Definition configured cfg : option string :=
  match trim <$> docker_binary cfg with
  | Some b => if str_is_empty b then None else Some b
  | None => None
  end.

Definition temp_prefixes : list string :=
  ["/tmp"; "/var/tmp"] ++ (if macos then ["/private/tmp"; "/private/var/tmp"] else []).

Definition validate_docker_binary w cfg : result ZeptoError string :=
  match configured cfg with
  | None => Ok "docker"
  | Some b =>
    if bool_decide (b ∈ ALLOWED_DOCKER_BINARIES) then Ok b
    else if negb (is_absolute (components b)) then
      Err (SecurityViolation ("docker_binary '" +:+ b +:+ "' must be an absolute path or one of ["
             +:+ dquote +:+ "docker" +:+ dquote +:+ ", " +:+ dquote +:+ "podman" +:+ dquote +:+ "]"))
    else if negb (path_exists w b) then
      Err (SecurityViolation ("docker_binary '" +:+ b +:+ "' does not exist"))
    else if any (starts_with (to_lowercase b)) temp_prefixes then
      Err (SecurityViolation ("docker_binary '" +:+ b +:+ "' is in a temporary directory; this is not allowed"))
    else Ok b
  end.

Definition configured_docker_binary_raw cfg : string := default "docker" (configured cfg).

(** The arguments of the extra mounts, up to the first that is refused. *)
Fixpoint mount_args w (mounts : list string) : result ZeptoError (list string) :=
  match mounts with
  | [] => Ok []
  | mount :: mounts =>
    match validate_mount_not_blocked home_dir try_exists io_error w mount with
    | Err e => Err e
    | Ok _ => match mount_args w mounts with Ok rest => Ok ("-v" :: mount :: rest) | Err e => Err e end
    end
  end.

Definition opt_arg (flag : string) (value : option string) : list string :=
  match value with Some v => [flag; v] | None => [] end.

Definition volume (host container : string) : list string := ["-v"; host +:+ ":" +:+ container].

Definition build_docker_invocation w cfg providers (workspace_dir sessions_dir config_path : string)
    : result ZeptoError ContainerInvocation :=
  let env_vars := collect_env_vars providers in
  let args := ["run"; "--rm"; "-i"; "--network"; network cfg]
    ++ opt_arg "--memory" (memory_limit cfg) ++ opt_arg "--cpus" (cpu_limit cfg)
    ++ volume workspace_dir CONTAINER_WORKSPACE_DIR ++ volume sessions_dir CONTAINER_SESSIONS_DIR
    ++ (if path_exists w config_path then ["-v"; config_path +:+ ":" +:+ CONTAINER_CONFIG_PATH +:+ ":ro"] else [])
    ++ mjoin (map (λ nv, ["-e"; fst nv]) env_vars) in
  match mount_args w (extra_mounts cfg) with
  | Err e => Err e
  | Ok mounts =>
    match validate_docker_binary w cfg with
    | Err e => Err e
    | Ok b => Ok (mkContainerInvocation b (args ++ mounts ++ [image cfg; "zeptoclaw"; "agent-stdin"]) env_vars None)
    end
  end.

Definition bind_mount (host container : string) : list string :=
  ["--mount"; "type=bind,source=" +:+ host +:+ ",target=" +:+ container +:+ ",readonly"].

(** [tempdir] is the directory that is made for the environment, and [write_env]
    writes its file. *)
Definition build_apple_invocation w cfg providers (workspace_dir sessions_dir config_path uuid : string)
    (tempdir : result string string) (write_env : string → string → result string unit)
    : result ZeptoError ContainerInvocation :=
  let args := ["run"; "--rm"; "-i"; "--name"; "zeptoclaw-" +:+ uuid]
    ++ volume workspace_dir CONTAINER_WORKSPACE_DIR ++ volume sessions_dir CONTAINER_SESSIONS_DIR
    ++ (if path_exists w config_path then bind_mount config_path CONTAINER_CONFIG_PATH else []) in
  match mount_args w (extra_mounts cfg) with
  | Err e => Err e
  | Ok mounts =>
    match tempdir with
    | Err e => Err (Config ("Failed to create temp dir for env: " +:+ e))
    | Ok dir =>
      match write_env (join_text dir "env.sh") (generate_env_file_content (collect_env_vars providers)) with
      | Err e => Err (Config ("Failed to write env file: " +:+ e))
      | Ok _ =>
        Ok (mkContainerInvocation "container"
              (args ++ mounts ++ bind_mount dir CONTAINER_ENV_DIR
               ++ [image cfg; "sh"; "-c"; ". " +:+ CONTAINER_ENV_DIR +:+ "/env.sh && exec zeptoclaw agent-stdin"])
              [] (Some dir))
      end
    end
  end.

(** *** The backend *)

Section backend.
(** Whether the program answers to [info], and Apple's to its version and help. *)
Context (docker_info : string → bool) (apple_available : bool).

Definition is_docker_available_with_binary (binary : string) : bool :=
  if str_is_empty (trim binary) then false else docker_info (trim binary).

Definition is_docker_available : bool := is_docker_available_with_binary "docker".

Definition auto_detect_backend cfg : result ZeptoError ResolvedBackend :=
  if macos && apple_available then Ok Apple
  else if is_docker_available_with_binary (configured_docker_binary_raw cfg) then Ok Docker
  else Err (Config "No container backend available. Install Docker or Apple Container (macOS 15+).").

Definition resolve_backend cfg : result ZeptoError ResolvedBackend :=
  match backend cfg with
  | DockerBackend => Ok Docker
  | AppleBackend => Ok Apple
  | AutoBackend => auto_detect_backend cfg
  end.
End backend.
End invocation.

(** ** What a shell reads of the file of the environment

    Single quotes keep every character up to the next one, a backslash outside of them
    keeps the next character, and a line feed outside of them ends the command. Any other
    character outside of quotes is taken for a special one, and refused. *)

Fixpoint sh_word (inside : bool) (s acc : string) : option (string * string) :=
  match s with
  | EmptyString => None
  | String c s =>
    if inside then if Ascii.eqb c squote then sh_word false s acc else sh_word true s (acc +:+ String c "")
    else if Ascii.eqb c squote then sh_word true s acc
    else if Ascii.eqb c lf then Some (acc, s)
    else if Ascii.eqb c backslash then
      match s with String d s => sh_word false s (acc +:+ String d "") | EmptyString => None end
    else None
  end.

Fixpoint sh_exports (n : nat) (s : string) : option (list (string * string)) :=
  match n with
  | O => if str_is_empty s then Some [] else None
  | S n =>
    body ← strip_prefix s "export ";
    '(name, rest) ← split_once (Ascii.ascii_of_nat 61) body;
    '(value, rest) ← sh_word false rest "";
    (λ vars, (name, value) :: vars) <$> sh_exports n rest
  end.

(** The variables a script exports in [n] commands. *)
Definition sh_script (n : nat) (s : string) : option (list (string * string)) :=
  rest ← strip_prefix s ("#!/bin/sh" +:+ newline); sh_exports n rest.

Definition equals_sign : Ascii.ascii := Ascii.ascii_of_nat 61.

Lemma sh_word_plain s : ∀ rest acc,
  no_byte squote s = true → sh_word true (s +:+ rest) acc = sh_word true rest (acc +:+ s).
Proof.
  induction s as [|c s IH]; intros rest acc; cbn [no_byte all_bytes]; [by rewrite str_app_nil_r|].
  intros [Hc Hs]%andb_prop. apply negb_true_iff in Hc.
  change (String c s +:+ rest) with (String c (s +:+ rest)). cbn [sh_word]. rewrite Hc, IH by done.
  by rewrite str_app_assoc.
Qed.

Lemma no_quote s : contains s "'" = false → no_byte squote s = true.
Proof.
  intros Hs. induction s as [|c s IH]; [done|]. unfold no_byte. cbn [all_bytes]. apply andb_true_intro.
  split.
  - apply negb_true_iff, Ascii.eqb_neq. intros ->. apply not_true_iff_false in Hs. apply Hs, contains_spec.
    by exists "", s.
  - apply IH. apply not_true_iff_false. intros (a & b & ->)%contains_spec. apply not_true_iff_false in Hs.
    apply Hs, contains_spec. by exists (String c a), b.
Qed.

Lemma sh_word_escaped parts : ∀ rest acc,
  parts ≠ [] → Forall (λ p, no_byte squote p = true) parts →
  sh_word true (join "'\''" parts +:+ rest) acc = sh_word true rest (acc +:+ join "'" parts).
Proof.
  induction parts as [|p [|q parts] IH]; intros rest acc Hne Hall; [done| |].
  - inversion Hall; subst. by apply sh_word_plain.
  - inversion Hall; subst.
    change (join "'\''" (p :: q :: parts)) with (p +:+ "'\''" +:+ join "'\''" (q :: parts)).
    change (join "'" (p :: q :: parts)) with (p +:+ "'" +:+ join "'" (q :: parts)).
    rewrite !str_app_assoc, sh_word_plain by done.
    change (sh_word true ("'\''" +:+ join "'\''" (q :: parts) +:+ rest) (acc +:+ p))
      with (sh_word true (join "'\''" (q :: parts) +:+ rest) ((acc +:+ p) +:+ "'")).
    rewrite IH by done. by rewrite !str_app_assoc.
Qed.

Lemma escape_quotes_read value rest acc :
  sh_word true (escape_quotes value +:+ rest) acc = sh_word true rest (acc +:+ value).
Proof.
  unfold escape_quotes, replace. destruct (split_str_spec value "'") as [Hj Hall]; [done|].
  rewrite sh_word_escaped; [by rewrite Hj| |].
  - intros Hnil. rewrite Hnil in Hj. cbn in Hj. subst. by vm_compute in Hnil.
  - eapply Forall_impl; [exact Hall|]. intros p. apply no_quote.
Qed.

Lemma generate_env_file_lines vars :
  generate_env_file_content vars =
  "#!/bin/sh" +:+ newline +:+ str_concat (map (λ nv, export_line nv +:+ newline) vars).
Proof.
  unfold generate_env_file_content. generalize "#!/bin/sh" as l.
  induction vars as [|nv vars IH]; intros l; cbn [map app]; [done|].
  change (join newline (l :: export_line nv :: map export_line vars ++ [""]))
    with (l +:+ newline +:+ join newline (export_line nv :: map export_line vars ++ [""])).
  rewrite IH. cbn [str_concat]. by rewrite !str_app_assoc.
Qed.

(** A shell that reads the file of the environment gets every variable with its value,
    whatever characters the value has. *)
Theorem env_file_read vars :
  Forall (λ nv, no_byte equals_sign (fst nv) = true) vars →
  sh_script (length vars) (generate_env_file_content vars) = Some vars.
Proof.
  intros Hvars. rewrite generate_env_file_lines. unfold sh_script.
  rewrite (proj2 (strip_prefix_Some _ _ (str_concat (map (λ nv, export_line nv +:+ newline) vars))))
    by by rewrite str_app_assoc.
  cbn [mbind option_bind]. induction Hvars as [|[n v] vars Hn _ IH]; [done|]. cbn [map str_concat length sh_exports].
  unfold export_line. cbn [fst snd] in *.
  rewrite (proj2 (strip_prefix_Some _ _ (n +:+ String equals_sign ("'" +:+ escape_quotes v +:+ "'" +:+ newline
             +:+ str_concat (map (λ nv, export_line nv +:+ newline) vars))))) by by rewrite !str_app_assoc.
  cbn [mbind option_bind]. rewrite split_once_app by done. cbn [mbind option_bind].
  change (sh_word false ("'" +:+ ?x) "") with (sh_word true x "").
  rewrite escape_quotes_read. change (sh_word true ("'" +:+ newline +:+ ?r) ?a) with (Some (a, r)).
  cbn [mbind option_bind]. by rewrite IH.
Qed.

(** ** What an invocation shows and what it opens *)

Section invocations.
Context `{RustUnicode} {W : Type} `{FileSystem W}.
Context (home_dir : option string) (try_exists : W → list Component → result string bool).
Context (io_error : W → list Component → string) (macos : bool) (path_exists : W → string → bool).
Implicit Types (w : W) (cfg : ContainerAgentConfig) (providers : ProvidersConfig).

Lemma mount_args_Ok w mounts out :
  mount_args home_dir try_exists io_error w mounts = Ok out ↔
  out = mjoin (map (λ m, ["-v"; m]) mounts) ∧ Forall (not_blocked home_dir try_exists w) mounts.
Proof.
  revert out. induction mounts as [|m ms IH]; intros out; cbn [mount_args].
  - split; [by intros [= <-]|]. by intros [-> _].
  - split.
    + destruct (validate_mount_not_blocked _ _ _ _ m) as [u|e] eqn:Hm; [|done]. apply not_blocked_spec in Hm.
      destruct (mount_args _ _ _ w ms) as [rest|e] eqn:Hr; [|done]. destruct (proj1 (IH rest) eq_refl) as [-> Hall].
      intros [= <-]. split; [done|]. by constructor.
    + intros [-> Hall]. inversion Hall as [|? ? Hm Hms]; subst.
      rewrite (proj2 (not_blocked_spec home_dir io_error try_exists w m tt) Hm).
      by rewrite (proj2 (IH _) (conj eq_refl Hms)).
Qed.

(** A program that may be run in place of [docker]. *)
Definition trusted_binary w (b : string) : Prop :=
  b ∈ ALLOWED_DOCKER_BINARIES ∨
  is_absolute (components b) = true ∧ path_exists w b = true ∧
  ∀ prefix, prefix ∈ temp_prefixes macos → starts_with (to_lowercase b) prefix = false.

Lemma validate_docker_binary_trusted w cfg b :
  validate_docker_binary macos path_exists w cfg = Ok b → trusted_binary w b.
Proof.
  unfold validate_docker_binary. destruct (configured cfg) as [c|]; [|intros [= <-]; left; set_solver].
  case_bool_decide as Hin; [by intros [= <-]; left|].
  destruct (is_absolute _) eqn:Habs; [|done]. destruct (path_exists w c) eqn:Hex; [|done]. cbn [negb].
  destruct (any _ _) eqn:Ht; [done|]. intros [= <-]. right. rewrite any_false in Ht. done.
Qed.

(** The arguments depend on which keys and addresses are set, not on what they are. *)
Lemma env_args_names (vars vars' : list (string * string)) :
  map fst vars = map fst vars' →
  mjoin (map (λ nv, ["-e"; fst nv]) vars) = mjoin (map (λ nv, ["-e"; fst nv]) vars').
Proof.
  intros Hv. rewrite <- (map_map fst (λ n, ["-e"; n])), Hv. by rewrite map_map.
Qed.

(** A container of Docker is started by a trusted program, with no directory of the
    configuration that is blocked, and with the keys of the providers in its environment
    only: other keys in the same places give the same program and arguments. *)
Theorem docker_invocations w cfg providers workspace_dir sessions_dir config_path inv :
  let build := build_docker_invocation home_dir try_exists io_error macos path_exists w cfg in
  build providers workspace_dir sessions_dir config_path = Ok inv →
  trusted_binary w (binary inv) ∧
  Forall (not_blocked home_dir try_exists w) (extra_mounts cfg) ∧
  env inv = collect_env_vars providers ∧
  (∀ providers', map fst (collect_env_vars providers') = map fst (collect_env_vars providers) →
     build providers' workspace_dir sessions_dir config_path =
       Ok (mkContainerInvocation (binary inv) (args inv) (collect_env_vars providers') None)).
Proof.
  cbv zeta. unfold build_docker_invocation.
  destruct (mount_args _ _ _ _ _) as [mounts|e] eqn:Hm; [|done]. apply mount_args_Ok in Hm as [-> Hall].
  destruct (validate_docker_binary _ _ _ _) as [b|e] eqn:Hb; [|done].
  intros [= <-]. cbn [binary args env]. split; [by eapply validate_docker_binary_trusted|]. split; [done|].
  split; [done|]. intros providers' Hp. by rewrite (env_args_names _ _ Hp).
Qed.
End invocations.

(** ** What a container answers *)

Section answers.
Context {D C W : Type} `{SessionFiles W} (auto_repair : bool).
Context (request_of_json : string → result string (AgentRequest D)).
Context (response_json : AgentResponse → string) (response_of_json : string → option AgentResponse).
Context (load_config : W → result string C) (create_agent : C → D → W → result string SessionManager).
Context (process_message : C → D → SessionManager → W → InboundMessage →
                           result ZeptoError string * UsageMetrics * SessionManager * W).

(** serde_json prints an object that it reads again, and no text of the response is a
    marker. *)
Definition transmissible (r : AgentResponse) : Prop :=
  response_of_json (response_json r) = Some r ∧ object_text (response_json r) ∧
  contains (response_json r) RESPONSE_START_MARKER = false ∧
  contains (response_json r) RESPONSE_END_MARKER = false.

Lemma parse_marked before r after :
  transmissible r → contains after RESPONSE_START_MARKER = false →
  parse_marked_response response_of_json (before +:+ to_marked_json response_json r +:+ after) = Some r.
Proof.
  intros (Hr & Hobj & Hs & He) Ha. unfold to_marked_json.
  replace (before +:+ _ +:+ after) with
    (before +:+ RESPONSE_START_MARKER +:+ (newline +:+ response_json r +:+ newline) +:+ RESPONSE_END_MARKER +:+ after)
    by by rewrite !str_app_assoc.
  rewrite parse_between.
  - by rewrite trim_object.
  - change (newline +:+ response_json r +:+ newline) with ("" +:+ String lf (response_json r +:+ String lf "")).
    rewrite !str_app_assoc. apply contains_around; [done..|].
    change (String lf (response_json r +:+ String lf "") +:+ ?x) with (String lf ((response_json r +:+ String lf "") +:+ x)).
    rewrite str_app_assoc. apply contains_around; [done..|]. by apply end_then.
  - change (newline +:+ response_json r +:+ newline) with ("" +:+ String lf (response_json r +:+ String lf "")).
    apply contains_around; [done..|]. by apply contains_around.
Qed.

(** The part of a response behind a start marker in it is all that is read. *)
Lemma parse_marker_inside before r after a b :
  response_json r = a +:+ RESPONSE_START_MARKER +:+ b →
  contains b RESPONSE_START_MARKER = false → contains b RESPONSE_END_MARKER = false →
  contains after RESPONSE_START_MARKER = false →
  parse_marked_response response_of_json (before +:+ to_marked_json response_json r +:+ after) =
  response_of_json (trim (b +:+ newline)).
Proof.
  intros Hr Hs He Ha. unfold to_marked_json. rewrite Hr.
  replace (before +:+ _ +:+ after) with
    ((before +:+ RESPONSE_START_MARKER +:+ newline +:+ a) +:+ RESPONSE_START_MARKER +:+ (b +:+ newline)
     +:+ RESPONSE_END_MARKER +:+ after) by by rewrite !str_app_assoc.
  rewrite parse_between; [done| |].
  - rewrite str_app_assoc. apply contains_around; [done..|]. by apply end_then.
  - by apply contains_around.
Qed.

(** The response to a request, unless the agent could not be made or its sessions failed. *)
Definition response_to (request : AgentRequest D) (w : W) (answer : AgentResponse) : Prop :=
  match validate request with
  | Err e => answer = error (request_id request) (ZeptoError_display e) "INVALID_REQUEST"
  | Ok _ =>
    ∃ config manager manager1 w1 r metrics manager2 w2,
      load_config w = Ok config ∧ create_agent config (agent_config request) w = Ok manager ∧
      seed manager w (req_session request) = (Ok tt, manager1, w1) ∧
      process_message config (agent_config request) manager1 w1 (req_message request) = (r, metrics, manager2, w2) ∧
      match r with
      | Ok content =>
        ∃ updated manager3,
          SessionManager.get auto_repair manager2 w2 (session_key (req_message request)) = (Ok updated, manager3) ∧
          answer = with_usage (success (request_id request) content updated) (from_metrics metrics)
      | Err e =>
        answer = with_usage (error (request_id request) (ZeptoError_display e) "PROCESS_ERROR") (from_metrics metrics)
      end
  end.

End answers.

Module Example_ipc.
Import Example_sessions Example_paths Example_mount.

Example env_file :
  generate_env_file_content [("KEY", "it's")] =
    "#!/bin/sh" +:+ newline +:+ "export KEY='it'\''s'" +:+ newline.
Proof. vm_compute. reflexivity. Qed.

Definition variables : list (string * string) :=
  [("KEY", "it's $HOME; 'x'"); ("EMPTY", ""); ("LINES", "a" +:+ newline +:+ "b\")].

Lemma env_file_read_witness :
  Forall (λ nv, no_byte equals_sign (fst nv) = true) variables ∧
  sh_script 3 (generate_env_file_content variables) = Some variables.
Proof.
  assert (Forall (λ nv, no_byte equals_sign (fst nv) = true) variables) as Hv by by repeat constructor.
  split; [exact Hv|exact (env_file_read variables Hv)].
Defined.

Definition keys (anthropic_key : string) : ProvidersConfig :=
  mkProvidersConfig (Some (mkProviderConfig (Some anthropic_key) None None None None None None))
    None None None None None None None None None None None None None None None None None.

Definition config (binary : option string) : ContainerAgentConfig :=
  mkContainerAgentConfig AutoBackend "zeptoclaw:latest" binary (Some "1g") None 300 "none" ["/home/work:/work:ro"] 5.

Definition there (_ : disk) (p : list Component) : result string bool :=
  Ok (bool_decide (p = components "/home/work")).

Definition invocation (key : string) (binary : option string) : result ZeptoError ContainerInvocation :=
  build_docker_invocation (Some "/root") there (λ _ _, "") false (λ _ _, true) disk_with_twins (config binary) (keys key)
    "/root/w" "/root/s" "/root/c".

Example invocation_of_docker :
  invocation "sk-1" None =
    Ok (mkContainerInvocation "docker"
      ["run"; "--rm"; "-i"; "--network"; "none"; "--memory"; "1g"; "-v"; "/root/w:/data/.zeptoclaw/workspace";
       "-v"; "/root/s:/data/.zeptoclaw/sessions"; "-v"; "/root/c:/data/.zeptoclaw/config.json:ro";
       "-e"; "ZEPTOCLAW_PROVIDERS_ANTHROPIC_API_KEY"; "-e"; "HOME"; "-e"; "ZEPTOCLAW_AGENTS_DEFAULTS_WORKSPACE";
       "-v"; "/home/work:/work:ro"; "zeptoclaw:latest"; "zeptoclaw"; "agent-stdin"]
      [("ZEPTOCLAW_PROVIDERS_ANTHROPIC_API_KEY", "sk-1"); ("HOME", "/data");
       ("ZEPTOCLAW_AGENTS_DEFAULTS_WORKSPACE", "/data/.zeptoclaw/workspace")] None).
Proof. vm_compute. reflexivity. Qed.

(** Directories for temporary files are told by how their path is written. *)
Example temporary_binaries :
  let validate b := validate_docker_binary false (λ _ _, true) disk_with_twins (config (Some b)) in
  validate "/tmp/docker" =
    Err (SecurityViolation "docker_binary '/tmp/docker' is in a temporary directory; this is not allowed") ∧
  validate "//tmp/docker" = Ok "//tmp/docker" ∧ validate "/usr/../tmp/docker" = Ok "/usr/../tmp/docker" ∧
  validate "/tmpfiles/docker" =
    Err (SecurityViolation "docker_binary '/tmpfiles/docker' is in a temporary directory; this is not allowed").
Proof. vm_compute. split_and!; reflexivity. Qed.

Lemma docker_invocations_witness :
  ∃ inv, invocation "sk-1" (Some "podman") = Ok inv ∧ trusted_binary false (λ _ _, true) disk_with_twins (binary inv) ∧
         invocation "sk-2" (Some "podman") =
           Ok (mkContainerInvocation (binary inv) (args inv) (collect_env_vars (keys "sk-2")) None).
Proof.
  eexists. split; [vm_compute; reflexivity|].
  edestruct (docker_invocations (W := disk) (Some "/root") there (λ _ _, "") false (λ _ _, true) disk_with_twins
    (config (Some "podman")) (keys "sk-1") "/root/w" "/root/s" "/root/c") as (Hb & _ & _ & Hk).
  { vm_compute. reflexivity. }
  split; [exact Hb|]. unfold invocation. rewrite Hk; [reflexivity|]. vm_compute. reflexivity.
Defined.

(** A format for responses that hold only a text, which it copies. *)
Definition verbatim (r : AgentResponse) : string :=
  match resp_result r with Success c _ => "{" +:+ c +:+ "}" | Failure m _ => "{" +:+ m +:+ "}" end.

Definition ask : InboundMessage := InboundMessage.new "telegram" "user" "1" "Hi".
Definition the_request : AgentRequest unit := mkAgentRequest "r-1" ask tt None.
Definition answer_with (text : string) : AgentResponse :=
  with_usage (success "r-1" text None) (from_metrics UsageMetrics.new).

Definition reading (text s : string) : option AgentResponse :=
  if String.eqb s ("{" +:+ text +:+ "}") then Some (answer_with text) else None.

Definition requests (s : string) : result string (AgentRequest unit) :=
  if String.eqb s "hi" then Ok the_request else Err "expected value".

Definition echo (text : string) (_ _ : unit) (m : SessionManager) (w : Example_sessions.disk) (_ : InboundMessage) :=
  (Ok text : result ZeptoError string, UsageMetrics.new, m, w).

Definition in_container (text input : string) :=
  cmd_agent_stdin (W := Example_sessions.disk) true requests verbatim (λ _, Ok tt) (λ _ _ _, Ok SessionManager.new_memory)
    (echo text) input ∅.

Definition heard (text before stdout : string) : result ZeptoError AgentResponse :=
  run_container_process (reading text) 300 (Ok "hi") (Exited (Some 0) (before +:+ stdout) "").

(** An answer that quotes a marker is lost. *)
Example marker_lost :
  let text := "The reply starts with <<<AGENT_RESPONSE_START>>>." in
  match in_container text "hi" with
  | (Ok stdout, _) => heard text "" stdout = Err (Config "Failed to parse container response")
  | _ => False
  end.
Proof. vm_compute. reflexivity. Qed.

End Example_ipc.
