(* ===== verification/Container.v ===== *)
(** A gateway whose agents run in containers: [ContainerAgentProxy] of
    src/src/gateway/container_agent.rs, on [Bus], [Admission], [Sessions], [Health]
    and [Ipc].

    The loop and the tasks it spawns take turns; a step is what one of them does
    between two points where it waits. What a container answers is an input of the
    step that ends its task; containers also change the directory of the sessions,
    which is mounted. Identifiers of requests are inputs. The counters are attached
    before the loop starts. *)

From S2P Require Import Prelude Errors Bus RateLimit Pairing Admission Session Sessions Health Ipc.

(** ** One message *)

Section message.
Context {D W : Type} `{SessionFiles W} (auto_repair : bool) (defaults : D).

(** What the tasks share. *)
Record Services : Type := mkServices {
  session_manager : option SessionManager;
  disk : W;
  usage_metrics : option UsageMetrics;
}.
Implicit Types (sv : Services) (msg : InboundMessage).

Definition count sv (f : UsageMetrics → UsageMetrics) : Services :=
  mkServices (session_manager sv) (disk sv) (f <$> usage_metrics sv).

Definition load_session_snapshot sv (k : string) : option Session * Services :=
  match session_manager sv with
  | None => (None, sv)
  | Some manager =>
    let '(r, manager) := SessionManager.get auto_repair manager (disk sv) k in
    (match r with Ok s => s | Err _ => None end, mkServices (Some manager) (disk sv) (usage_metrics sv))
  end.

Definition persist_session_snapshot sv (expected_session_key : string) (session : option Session)
    : Services :=
  match session, session_manager sv with
  | Some session, Some manager =>
    if negb (String.eqb (key session) expected_session_key) then sv
    else
      let '(_, manager, w) := SessionManager.save manager (disk sv) session in
      mkServices (Some manager) w (usage_metrics sv)
  | _, _ => sv
  end.

(** [process_in_container] up to the container. *)
Definition begin_process sv (request_id : string) msg : AgentRequest D * Services :=
  let sv := count sv UsageMetrics.record_request in
  let '(snapshot, sv) := load_session_snapshot sv (session_key msg) in
  (mkAgentRequest request_id msg defaults snapshot, sv).

Definition replay_usage (u : UsageSnapshot) (m : UsageMetrics) : UsageMetrics :=
  let m := UsageMetrics.record_tool_calls (UsageMetrics.record_tokens m (u_input_tokens u) (u_output_tokens u))
             (u_tool_calls u) in
  if 0 <? u_errors u then UsageMetrics.add_errors m (u_errors u) else m.

(** [process_in_container] after the container. *)
Definition end_process sv msg (r : result ZeptoError AgentResponse) : OutboundMessage * Services :=
  let reply := OutboundMessage.new (channel msg) (chat_id msg) in
  match r with
  | Ok response =>
    let sv := match usage response with Some u => count sv (replay_usage u) | None => sv end in
    match resp_result response with
    | Success content session =>
      (reply content, persist_session_snapshot sv (session_key msg) session)
    | Failure err _ =>
      let sv := match usage response with None => count sv UsageMetrics.record_error | Some _ => sv end in
      (reply ("Error: " +:+ err), sv)
    end
  | Err e => (reply ("Container error: " +:+ ZeptoError_display e), count sv UsageMetrics.record_error)
  end.
End message.
Arguments Services W : clear implicits.

(** ** The loop and its tasks *)

(** A task that was spawned, one that waits for its container, and one that sends
    its reply. *)
Inductive Task (D : Type) : Type :=
| Spawned (msg : InboundMessage)
| InContainer (msg : InboundMessage) (request : AgentRequest D)
| Replying (msg : InboundMessage) (out : OutboundMessage).
Arguments Spawned {D} _.
Arguments InContainer {D} _ _.
Arguments Replying {D} _ _.

Definition task_message {D} (t : Task D) : InboundMessage :=
  match t with Spawned m | InContainer m _ | Replying m _ => m end.

Inductive Phase : Type :=
| Stopped
| Selecting
| Rejecting (out : OutboundMessage)
| Acquiring (msg : InboundMessage).

Inductive Event (D : Type) : Type :=
| Received (msg : InboundMessage) (c : Clock) (v : Verdict)
| Requested (request : AgentRequest D)
| Answered (msg : InboundMessage) (out : OutboundMessage)
| Sent (out : OutboundMessage).
Arguments Received {D} _ _ _.
Arguments Requested {D} _.
Arguments Answered {D} _ _.
Arguments Sent {D} _.

Inductive Input (W : Type) : Type :=
| Publish (msg : InboundMessage)
| Deliver
| ContainersWrite (w : W)
| Start
| Stop
| Shutdown
| Consume (c : Clock)
| SendRejection
| Acquire
| Begin (n : nat) (request_id : string)
| End (n : nat) (r : result ZeptoError AgentResponse)
| Answer (n : nat).
Arguments Publish {W} _.
Arguments Deliver {W}.
Arguments ContainersWrite {W} _.
Arguments Start {W}.
Arguments Stop {W}.
Arguments Shutdown {W}.
Arguments Consume {W} _.
Arguments SendRejection {W}.
Arguments Acquire {W}.
Arguments Begin {W} _ _.
Arguments End {W} _ _.
Arguments Answer {W} _.

Section proxy.
Context {IpAddr : Type} `{Countable IpAddr} `{MapOrder Z} {I : Type}.
Context (parse_ip : string → option IpAddr) (sha256 : string → string).
Context {D W : Type} `{SessionFiles W} (auto_repair : bool) (defaults : D).

Record Proxy : Type := mkProxy {
  bus : MessageBus I;
  guards : ContainerAgentProxy IpAddr;
  services : Services W;
  running : bool;
  shutdown : bool;                          (* a signal no receiver of [start] has seen *)
  permits : nat;
  phase : Phase;
  tasks : list (Task D);
}.
Implicit Types (st : Proxy) (msg : InboundMessage).

Definition set_bus st b : Proxy :=
  mkProxy b (guards st) (services st) (running st) (shutdown st) (permits st) (phase st) (tasks st).
Definition set_services st sv : Proxy :=
  mkProxy (bus st) (guards st) sv (running st) (shutdown st) (permits st) (phase st) (tasks st).
Definition goto st p : Proxy :=
  mkProxy (bus st) (guards st) (services st) (running st) (shutdown st) (permits st) p (tasks st).
Definition set_tasks st ts : Proxy :=
  mkProxy (bus st) (guards st) (services st) (running st) (shutdown st) (permits st) (phase st) ts.

Definition new (b : MessageBus I) guards sv (max_concurrent : nat) : Proxy :=
  mkProxy b guards sv false false (Nat.max max_concurrent 1) Stopped [].

(** [start] up to its loop. *)
Definition start st : result ZeptoError unit * Proxy :=
  if running st then (Err (Config "Container agent proxy already running"), st)
  else (Ok tt, mkProxy (bus st) (guards st) (services st) true (shutdown st) (permits st) Selecting (tasks st)).

Definition stop st : Proxy :=
  mkProxy (bus st) (guards st) (services st) (running st) true (permits st) (phase st) (tasks st).

(** The end of [start]. *)
Definition finish st : Proxy :=
  mkProxy (bus st) (guards st) (services st) false (shutdown st) (permits st) Stopped (tasks st).

Definition is_running st : bool := running st.

(** The branch of [select!] that got a message. *)
Definition handle st msg (c : Clock) : Proxy * Verdict :=
  let '(v, g) := admit_message parse_ip sha256 (guards st) msg c in
  let st := mkProxy (bus st) g (services st) (running st) (shutdown st) (permits st) (phase st) (tasks st) in
  (match v with
   | Admission.Rejected text => goto st (Rejecting (OutboundMessage.new (channel msg) (chat_id msg) text))
   | Skipped => st
   | Processed => goto st (Acquiring msg)
   end, v).

Definition send_out st (out : OutboundMessage) : option Proxy :=
  '(_, b) ← MessageBus.publish_outbound (bus st) out; Some (set_bus st b).

Definition step st (i : Input W) : option (Proxy * list (Event D)) :=
  match i with
  | Publish msg => '(_, b) ← MessageBus.publish_inbound_with_status (bus st) msg; Some (set_bus st b, [])
  | Deliver => '(_, b) ← MessageBus.consume_outbound (bus st); Some (set_bus st b, [])
  | ContainersWrite w =>
    Some (set_services st (mkServices (session_manager (services st)) w (usage_metrics (services st))), [])
  | Start => match start st with (Ok _, st) => Some (st, []) | _ => None end
  | Stop => Some (stop st, [])
  | Shutdown => match phase st with Selecting => if shutdown st then Some (finish st, []) else None | _ => None end
  | Consume c =>
    match phase st with
    | Selecting =>
      '(msg, b) ← MessageBus.consume_inbound (bus st);
      let '(st, v) := handle (set_bus st b) msg c in Some (st, [Received msg c v])
    | _ => None
    end
  | SendRejection =>
    match phase st with
    | Rejecting out => st ← send_out st out; Some (goto st Selecting, [Sent out])
    | _ => None
    end
  | Acquire =>
    match phase st, permits st with
    | Acquiring msg, S n =>
      Some (mkProxy (bus st) (guards st) (services st) (running st) (shutdown st) n Selecting
              (tasks st ++ [Spawned msg]), [])
    | _, _ => None
    end
  | Begin n request_id =>
    match tasks st !! n with
    | Some (Spawned msg) =>
      let '(request, sv) := begin_process auto_repair defaults (services st) request_id msg in
      Some (set_tasks (set_services st sv) (<[n := InContainer msg request]> (tasks st)), [Requested request])
    | _ => None
    end
  | End n r =>
    match tasks st !! n with
    | Some (InContainer msg _) =>
      let '(out, sv) := end_process (services st) msg r in
      Some (set_tasks (set_services st sv) (<[n := Replying msg out]> (tasks st)), [])
    | _ => None
    end
  | Answer n =>
    match tasks st !! n with
    | Some (Replying msg out) =>
      st ← send_out st out;
      Some (mkProxy (bus st) (guards st) (services st) (running st) (shutdown st) (S (permits st)) (phase st)
              (delete n (tasks st)), [Answered msg out; Sent out])
    | _ => None
    end
  end.

Fixpoint run_proxy st (log : list (Event D)) (ins : list (Input W)) : option (Proxy * list (Event D)) :=
  match ins with
  | [] => Some (st, log)
  | i :: ins => '(st, es) ← step st i; run_proxy st (log ++ es) ins
  end.
End proxy.

(** ** What a history tells *)

Section logs.
Context {D : Type}.
Implicit Types (log : list (Event D)).

(** The messages that were received, with the readings of the clock. *)
Definition received log : list (InboundMessage * Clock) :=
  omap (λ e, match e with Received m c _ => Some (m, c) | _ => None end) log.

Definition let_through log : list (InboundMessage * Clock) :=
  omap (λ e, match e with Received m c Processed => Some (m, c) | _ => None end) log.

Definition answered log : list InboundMessage :=
  omap (λ e, match e with Answered m _ => Some m | _ => None end) log.

(** An answer goes where its message came from. *)
Definition proper (e : Event D) : Prop :=
  match e with
  | Answered msg out => out_channel out = channel msg ∧ out_chat_id out = chat_id msg
  | _ => True
  end.

Lemma received_app log es : received (log ++ es) = received log ++ received es.
Proof. apply omap_app. Qed.
Lemma let_through_app log es : let_through (log ++ es) = let_through log ++ let_through es.
Proof. apply omap_app. Qed.
Lemma answered_app log es : answered (log ++ es) = answered log ++ answered es.
Proof. apply omap_app. Qed.
End logs.

Section histories.
Context {IpAddr : Type} `{Countable IpAddr} `{MapOrder Z} {I : Type}.
Context (parse_ip : string → option IpAddr) (sha256 : string → string).
Context {D W : Type} `{SessionFiles W} (auto_repair : bool) (defaults : D).
Notation Proxy := (Proxy (IpAddr := IpAddr) (I := I) (D := D) (W := W)).
Notation step := (step parse_ip sha256 auto_repair defaults).
Implicit Types (st : Proxy) (msg : InboundMessage).

(** The messages that were let through and have no answer yet. *)
Definition in_flight st : list InboundMessage :=
  map task_message (tasks st) ++ match phase st with Acquiring msg => [msg] | _ => [] end.

Lemma end_process_addressed (sv : Services W) msg r out sv' :
  end_process sv msg r = (out, sv') → out_channel out = channel msg ∧ out_chat_id out = chat_id msg.
Proof. unfold end_process. intros He. by repeat case_match; simplify_eq/=. Qed.

(** Every task that has its reply got it for its message. *)
Definition replies_proper st : Prop :=
  Forall (λ t, match t with Replying msg out => out_channel out = channel msg ∧ out_chat_id out = chat_id msg | _ => True end)
    (tasks st).

Record accounted (g : ContainerAgentProxy IpAddr) (n : nat) st (log : list (Event D)) : Prop := {
  slots : (length (tasks st) + permits st = n)%nat;
  admissions : admit_run parse_ip sha256 g (received log) = (guards st, let_through log);
  places : map fst (let_through log) ≡ₚ answered log ++ in_flight st;
  addressed : replies_proper st;
  all_proper : Forall proper log;
  stopped : running st = false → phase st = Stopped;
}.

Lemma admit_run_snoc g h mc :
  admit_run parse_ip sha256 g (h ++ [mc]) = admit_step parse_ip sha256 (admit_run parse_ip sha256 g h) mc.
Proof. unfold admit_run. by rewrite foldl_snoc. Qed.

(** A step that says nothing and moves no message. *)
Lemma accounted_frame g n st st' log :
  accounted g n st log → tasks st' = tasks st → permits st' = permits st → guards st' = guards st →
  in_flight st' = in_flight st → (running st' = false → phase st' = Stopped) → accounted g n st' (log ++ []).
Proof.
  intros [Hs Ha Hp Hr Hl _] Ht Hpe Hg Hi Hst. rewrite app_nil_r.
  split; [by rewrite Ht, Hpe|by rewrite Hg|by rewrite Hi|by unfold replies_proper; rewrite Ht|done|done].
Qed.

Lemma task_split st n t :
  tasks st !! n = Some t → ∀ t', task_message t' = task_message t →
  map task_message (<[n := t']> (tasks st)) = map task_message (tasks st).
Proof.
  intros Hn t' Ht.
  apply list_eq. intros i. rewrite !list_lookup_fmap. destruct (decide (i = n)) as [->|Hi].
  - rewrite list_lookup_insert_eq by by eapply lookup_lt_Some. rewrite Hn. cbn. by rewrite Ht.
  - by rewrite list_lookup_insert_ne.
Qed.

Lemma publish_outbound_bus st out st' :
  send_out st out = Some st' →
  tasks st' = tasks st ∧ permits st' = permits st ∧ guards st' = guards st ∧ phase st' = phase st ∧
  running st' = running st.
Proof. unfold send_out. destruct (MessageBus.publish_outbound _ _) as [[r b]|]; [|done]. by intros [= <-]. Qed.

Lemma consume_accounted g n st log c st' es :
  accounted g n st log → step st (Consume c) = Some (st', es) → accounted g n st' (log ++ es).
Proof.
  intros [Hs Ha Hp Hr Hl Hst] Hstep. cbn in Hstep. destruct (phase st) eqn:Hph; try done.
  destruct (MessageBus.consume_inbound _) as [[msg b]|]; [|done]. cbn [mbind option_bind] in Hstep. unfold handle in Hstep.
  cbn [guards bus services running shutdown permits phase tasks set_bus] in Hstep.
  destruct (admit_message _ _ _ _ _) as [v g'] eqn:Hv. injection Hstep as <- <-.
  unfold in_flight in Hp. rewrite Hph, app_nil_r in Hp. split.
  - by destruct v.
  - rewrite received_app, let_through_app. cbn. rewrite admit_run_snoc, Ha. cbn. rewrite Hv.
    destruct v; cbn; by rewrite ?app_nil_r.
  - rewrite let_through_app, answered_app, map_app. destruct v; cbn; rewrite Hp; unfold in_flight; cbn;
      rewrite ?Hph, ?app_nil_r; try done. by rewrite <- app_assoc.
  - by destruct v.
  - apply Forall_app. split; [done|]. by repeat constructor.
  - by destruct v; cbn; intros Hrun; specialize (Hst Hrun).
Qed.

Lemma task_step_accounted g n st st' log es i t t' :
  accounted g n st log → tasks st !! i = Some t → task_message t' = task_message t →
  tasks st' = <[i := t']> (tasks st) → permits st' = permits st → guards st' = guards st → phase st' = phase st →
  running st' = running st →
  match t' with Replying msg out => out_channel out = channel msg ∧ out_chat_id out = chat_id msg | _ => True end →
  received es = [] → let_through es = [] → answered es = [] → Forall proper es →
  accounted g n st' (log ++ es).
Proof.
  intros [Hs Ha Hp Hr Hl Hst] Hi Ht Hts Hpe Hg Hph Hrun Hok He1 He2 He3 He. split.
  - by rewrite Hts, length_insert, Hpe.
  - by rewrite received_app, let_through_app, He1, He2, !app_nil_r, Hg.
  - rewrite let_through_app, answered_app, He2, He3, !app_nil_r, Hp. unfold in_flight.
    by rewrite Hts, Hph, (task_split st i t Hi).
  - unfold replies_proper. rewrite Hts. by apply Forall_insert.
  - by apply Forall_app.
  - by rewrite Hrun, Hph.
Qed.

Lemma answer_accounted g n st log i st' es :
  accounted g n st log → step st (Answer i) = Some (st', es) → accounted g n st' (log ++ es).
Proof.
  intros [Hs Ha Hp Hr Hl Hst] Hstep. cbn in Hstep. destruct (tasks st !! i) as [[| |msg out]|] eqn:Hi; try done.
  destruct (send_out st out) as [st1|] eqn:Hout; [|done]. injection Hstep as <- <-.
  apply publish_outbound_bus in Hout as (Ht & Hpe & Hg & Hph & Hrun).
  pose proof (delete_Permutation _ _ _ Hi) as Hd. split.
  - cbn. rewrite Ht, Hpe. apply (f_equal S) in Hs. pose proof (Permutation_length Hd) as Hlen. cbn in Hlen. lia.
  - rewrite received_app, let_through_app. cbn. by rewrite !app_nil_r, Hg.
  - rewrite let_through_app, answered_app, app_nil_r, Hp. unfold in_flight. cbn. rewrite Hph, Ht.
    rewrite Hd at 1. cbn. rewrite <- app_assoc. by apply Permutation_app_head.
  - unfold replies_proper in *. cbn. rewrite Ht. by apply Forall_delete.
  - apply Forall_app. split; [done|]. repeat constructor; cbn.
    + eapply Forall_lookup_1 in Hr; [|exact Hi]. apply Hr.
    + eapply Forall_lookup_1 in Hr; [|exact Hi]. apply Hr.
  - cbn. by rewrite Hrun, Hph.
Qed.

Lemma step_accounted g n st log i st' es :
  accounted g n st log → step st i = Some (st', es) → accounted g n st' (log ++ es).
Proof.
  intros Hok Hstep. pose proof (stopped _ _ _ _ Hok) as Hst. destruct i as [msg| |w| | | |c| | |k id|k r|k];
    [| | | | | |by eapply consume_accounted| | | | |by eapply answer_accounted]; cbn in Hstep.
  - destruct (MessageBus.publish_inbound_with_status _ _) as [[r b]|]; [|done]. injection Hstep as <- <-.
    by apply (accounted_frame g n st).
  - destruct (MessageBus.consume_outbound _) as [[r b]|]; [|done]. injection Hstep as <- <-.
    by apply (accounted_frame g n st).
  - injection Hstep as <- <-. by apply (accounted_frame g n st).
  - unfold start in Hstep. destruct (running st) eqn:Hrun; [done|]. injection Hstep as <- <-.
    apply (accounted_frame g n st); try done. unfold in_flight. cbn. by rewrite Hst.
  - injection Hstep as <- <-. by apply (accounted_frame g n st).
  - destruct (phase st) eqn:Hph; try done. destruct (shutdown st); [|done]. injection Hstep as <- <-.
    apply (accounted_frame g n st); try done. unfold in_flight. cbn. by rewrite Hph.
  - destruct (phase st) as [| |out|] eqn:Hph; try done. destruct (send_out st out) as [st1|] eqn:Hout; [|done].
    injection Hstep as <- <-. apply publish_outbound_bus in Hout as (Ht & Hpe & Hg & _ & Hrun).
    destruct Hok as [Hs Ha Hp Hr Hl _]. split; cbn; rewrite ?app_nil_r, ?received_app, ?let_through_app, ?answered_app; cbn.
    + by rewrite Ht, Hpe.
    + by rewrite !app_nil_r, Hg.
    + rewrite !app_nil_r, Hp. unfold in_flight. cbn. by rewrite Ht, Hph, app_nil_r.
    + unfold replies_proper in *. cbn. by rewrite Ht.
    + apply Forall_app. split; [done|]. by repeat constructor.
    + rewrite Hrun. intros Hf. by specialize (Hst Hf).
  - destruct (phase st) as [| | |msg] eqn:Hph; try done. destruct (permits st) as [|m] eqn:Hm; [done|].
    injection Hstep as <- <-. destruct Hok as [Hs Ha Hp Hr Hl _].
    split; cbn; rewrite ?app_nil_r, ?received_app, ?let_through_app, ?answered_app; cbn; rewrite ?app_nil_r; try done.
    + rewrite length_app. cbn. lia.
    + rewrite Hp. unfold in_flight. cbn. by rewrite Hph, map_app.
    + unfold replies_proper. cbn. apply Forall_app. split; [done|]. by repeat constructor.
    + intros Hf. by specialize (Hst Hf).
  - destruct (tasks st !! k) as [[msg| |]|] eqn:Hk; try done.
    destruct (begin_process _ _ _ _ _) as [request sv]. injection Hstep as <- <-.
    apply (task_step_accounted g n st _ log _ k (Spawned msg) (InContainer msg request)); try done. by repeat constructor.
  - destruct (tasks st !! k) as [[|msg request|]|] eqn:Hk; try done.
    destruct (end_process _ _ _) as [out sv] eqn:He. injection Hstep as <- <-.
    apply end_process_addressed in He as [Hc Hi].
    by apply (task_step_accounted g n st _ log _ k (InContainer msg request) (Replying msg out)).
Qed.

Lemma run_accounted g n ins : ∀ st log st' log',
  accounted g n st log → run_proxy parse_ip sha256 auto_repair defaults st log ins = Some (st', log') →
  accounted g n st' log'.
Proof.
  induction ins as [|i ins IH]; intros st log st' log' Hok; cbn [run_proxy]; [by intros [= <- <-]|].
  destruct (step st i) as [[st1 es]|] eqn:Hstep; [|done]. cbn [mbind option_bind].
  apply IH. by eapply step_accounted.
Qed.

(** *** The sessions *)

(** The session a container answered for a message, when it is that of the message. *)
Definition own_session msg (r : result ZeptoError AgentResponse) : option Session :=
  match r with
  | Ok response =>
    match resp_result response with
    | Success _ (Some s) => if decide (key s = session_key msg) then Some s else None
    | _ => None
    end
  | Err _ => None
  end.

(** The sessions in memory and on disk stay as they are. *)
Definition keeps (sv sv' : Services W) : Prop :=
  session_manager sv' = session_manager sv ∧ disk sv' = disk sv.

(** [s] becomes the session of its key, in memory and in the file of that key. *)
Definition stores (s : Session) (sv sv' : Services W) : Prop :=
  ∃ m m', session_manager sv = Some m ∧ session_manager sv' = Some m' ∧
    storage_path m' = storage_path m ∧ sessions m' = <[key s := s]> (sessions m) ∧
    disk sv' = (if storage_path m then snd (write_body (disk sv) (file_name (key s)) (to_json s)) else disk sv).

(** The session of [k] was looked at: it may be in memory now, as its file says. *)
Definition looks_at (k : string) (sv sv' : Services W) : Prop :=
  disk sv' = disk sv ∧
  match session_manager sv, session_manager sv' with
  | None, None => True
  | Some m, Some m' =>
    storage_path m' = storage_path m ∧ delete k (sessions m') = delete k (sessions m) ∧
    (sessions m' !! k = sessions m !! k ∨
     ∃ s, SessionManager.load auto_repair m (disk sv) k = Ok (Some s) ∧ sessions m' !! k = Some s)
  | _, _ => False
  end.

(** What a step does to the sessions. *)
Definition own_changes st (i : Input W) st' : Prop :=
  match i with
  | ContainersWrite w =>
    session_manager (services st') = session_manager (services st) ∧ disk (services st') = w
  | Begin n _ => ∃ msg, tasks st !! n = Some (Spawned msg) ∧
      looks_at (session_key msg) (services st) (services st')
  | End n r => ∃ msg request, tasks st !! n = Some (InContainer msg request) ∧
      match session_manager (services st), own_session msg r with
      | Some _, Some s => key s = session_key msg ∧ stores s (services st) (services st')
      | _, _ => keeps (services st) (services st')
      end
  | _ => keeps (services st) (services st')
  end.

Lemma end_process_stores (sv : Services W) msg r :
  match session_manager sv, own_session msg r with
  | Some _, Some s => key s = session_key msg ∧ stores s sv (snd (end_process sv msg r))
  | _, _ => keeps sv (snd (end_process sv msg r))
  end.
Proof.
  unfold end_process, own_session, keeps. destruct r as [response|e];
    [|by destruct (session_manager sv) eqn:Hsv; cbn; rewrite ?Hsv].
  set (sv1 := match usage response with Some u => count sv (replay_usage u) | None => sv end).
  assert (session_manager sv1 = session_manager sv ∧ disk sv1 = disk sv) as [Hm Hd]
    by (unfold sv1; by destruct (usage response)).
  destruct (resp_result response) as [content session|err code]; cbn [snd].
  2: { clearbody sv1. rewrite <- Hm, <- Hd. by destruct (session_manager sv1) eqn:Hsv, (usage response). }
  unfold persist_session_snapshot. rewrite Hm. destruct session as [s|]; [|by destruct (session_manager sv)].
  destruct (session_manager sv) as [m|] eqn:Hsv; [|done].
  destruct (String.eqb_spec (key s) (session_key msg)) as [Hk|Hk]; cbn [negb].
  - rewrite decide_True by done. split; [done|]. unfold SessionManager.save.
    destruct (storage_path (SessionManager.cache m (key s) s)) eqn:Hp; cbn in Hp.
    + rewrite Hd. destruct (write_body (disk sv) (file_name (key s)) (to_json s)) as [x w] eqn:Hw.
      exists m, (SessionManager.cache m (key s) s). cbn. rewrite Hp. split_and!; try done. by rewrite Hw.
    + exists m, (SessionManager.cache m (key s) s). cbn. rewrite Hp. by split_and!.
  - by rewrite decide_False.
Qed.

Lemma begin_process_looks (sv : Services W) id msg :
  looks_at (session_key msg) sv (snd (begin_process auto_repair defaults sv id msg)).
Proof.
  unfold begin_process, load_session_snapshot, looks_at, SessionManager.get. cbn [session_manager disk count].
  destruct (session_manager sv) as [m|] eqn:Hm; cbn; [|by rewrite ?Hm].
  destruct (sessions m !! session_key msg) as [s|] eqn:Hk; cbn; [by auto|].
  destruct (SessionManager.load auto_repair m (disk sv) (session_key msg)) as [[s|]|e] eqn:Hl; cbn; [|by auto..].
  split; [done|]. split; [done|]. split; [apply delete_insert_eq|]. right. exists s. split; [done|].
  apply lookup_insert_eq.
Qed.

Lemma send_out_services st out st' : send_out st out = Some st' → services st' = services st.
Proof. unfold send_out. destruct (MessageBus.publish_outbound _ _) as [[x b]|]; [|done]. by intros [= <-]. Qed.

Lemma step_own_changes st i st' es : step st i = Some (st', es) → own_changes st i st'.
Proof.
  destruct i as [msg| |w| | | |c| | |k id|k r|k]; cbn; unfold keeps.
  - destruct (MessageBus.publish_inbound_with_status _ _) as [[x b]|]; [|done]. by intros [= <- <-].
  - destruct (MessageBus.consume_outbound _) as [[x b]|]; [|done]. by intros [= <- <-].
  - by intros [= <- <-].
  - unfold start. destruct (running st); [done|]. by intros [= <- <-].
  - by intros [= <- <-].
  - destruct (phase st); try done. destruct (shutdown st); [|done]. by intros [= <- <-].
  - destruct (phase st); try done. destruct (MessageBus.consume_inbound _) as [[msg b]|]; [|done].
    cbn [mbind option_bind]. unfold handle. destruct (admit_message _ _ _ _ _) as [v g].
    intros [= <- <-]. by destruct v.
  - destruct (phase st); try done. destruct (send_out st out) as [st1|] eqn:Ho; [|done].
    intros [= <- <-]. cbn. by rewrite (send_out_services _ _ _ Ho).
  - destruct (phase st); try done. destruct (permits st); [done|]. by intros [= <- <-].
  - destruct (tasks st !! k) as [[msg| |]|]; try done. intros Hs. exists msg. split; [done|].
    pose proof (begin_process_looks (services st) id msg) as Hl.
    destruct (begin_process _ _ _ _ _) as [request sv]. by injection Hs as <- <-.
  - destruct (tasks st !! k) as [[|msg request|]|]; try done. intros Hs. exists msg, request. split; [done|].
    pose proof (end_process_stores (services st) msg r) as He.
    destruct (end_process _ _ _) as [out sv]. by injection Hs as <- <-.
  - destruct (tasks st !! k) as [[| |msg out]|]; try done. destruct (send_out st out) as [st1|] eqn:Ho; [|done].
    intros [= <- <-]. cbn. by rewrite (send_out_services _ _ _ Ho).
Qed.

Lemma run_proxy_step i after : ∀ before st log st' log',
  run_proxy parse_ip sha256 auto_repair defaults st log (before ++ i :: after) = Some (st', log') →
  ∃ st1 log1 st2 es, run_proxy parse_ip sha256 auto_repair defaults st log before = Some (st1, log1) ∧
    step st1 i = Some (st2, es).
Proof.
  induction before as [|j before IH]; intros st log st' log'; cbn [app run_proxy].
  - destruct (step st i) as [[st2 es]|] eqn:Hs; [|done]. intros _. by exists st, log, st2, es.
  - destruct (step st j) as [[st1 es]|]; [|done]. cbn [mbind option_bind]. apply IH.
Qed.

(** C28: Whatever the tasks, the containers and the other users of the bus do: as many
    containers run at once as there are slots, at most; the messages that are let through
    are those that the checks admit in the order of receipt; each of them is waiting, in a
    container, about to be answered, or was answered once, in its own chat. The sessions
    are changed only by the end of a container, which stores the session it answered if
    that is the session of its message, in memory and in the file of that session, and
    nothing else; by the beginning of one, which may read its own session into memory; and
    by the containers themselves, which can write any file of the directory. *)
Theorem container_histories b g sv max_concurrent ins st log :
  run_proxy parse_ip sha256 auto_repair defaults (new b g sv max_concurrent) [] ins = Some (st, log) →
  (length (tasks st) ≤ Nat.max max_concurrent 1)%nat ∧
  admit_run parse_ip sha256 g (received log) = (guards st, let_through log) ∧
  map fst (let_through log) ≡ₚ answered log ++ in_flight st ∧
  (∀ msg out, Answered msg out ∈ log → out_channel out = channel msg ∧ out_chat_id out = chat_id msg) ∧
  (∀ before i after, ins = before ++ i :: after →
     ∃ st1 log1 st2 es,
       run_proxy parse_ip sha256 auto_repair defaults (new b g sv max_concurrent) [] before = Some (st1, log1) ∧
       step st1 i = Some (st2, es) ∧ own_changes st1 i st2).
Proof.
  intros Hrun. assert (∀ before i after, ins = before ++ i :: after →
     ∃ st1 log1 st2 es,
       run_proxy parse_ip sha256 auto_repair defaults (new b g sv max_concurrent) [] before = Some (st1, log1) ∧
       step st1 i = Some (st2, es) ∧ own_changes st1 i st2) as Hown.
  { intros before i after ->. apply run_proxy_step in Hrun as (st1 & log1 & st2 & es & Hb & Hs).
    exists st1, log1, st2, es. split_and!; try done. by eapply step_own_changes. }
  apply (run_accounted g (Nat.max max_concurrent 1)) in Hrun as [Hs Ha Hp _ Hl _].
  - rewrite Forall_forall in Hl. split_and!; [lia|done|done| |done].
    intros msg out Hin. by apply (Hl _ Hin).
  - split; try done; by constructor.
Qed.
End histories.

Module Example_container.
Import Example_sessions.
#[local] Instance no_order : MapOrder Z := {| map_iter m := map_to_list m; map_iter_list m := reflexivity _ |}.

Definition clock : Clock := mkClock 0 0 (mkReadings 0 0 0 0 0 0).
Definition free : ContainerAgentProxy Z := Admission.new 0 0 None.

Definition proxy (max_concurrent : nat) : Proxy (IpAddr := Z) (I := unit) (D := unit) (W := Example_sessions.disk) :=
  new (MessageBus.new tt) free (mkServices (Some (mkSessionManager ∅ true)) ∅ (Some UsageMetrics.new)) max_concurrent.

Definition play (max_concurrent : nat) (ins : list (Input Example_sessions.disk)) :=
  run_proxy (λ _, None) (λ s, s) true tt (proxy max_concurrent) [] ins.

Definition ask (text : string) : InboundMessage := InboundMessage.new "telegram" "user" "1" text.

(** What an agent makes of the session it was given. *)
Definition extended (text answer : string) (s : option Session) : Session :=
  let old := default (Session.new "telegram:1" 0) s in
  SessionManager.with_messages old (messages old ++ [Message.user text; Message.assistant answer]).

Definition done (text answer : string) (snapshot : option Session) : result ZeptoError AgentResponse :=
  Ok (success "id" answer (Some (extended text answer snapshot))).

Definition take_in (text : string) : list (Input Example_sessions.disk) :=
  [Publish (ask text); Consume clock; Acquire].

(** Two messages of one chat run at the same time, from the same session: the one
    that ends last overwrites what the other saved. *)
Definition overlapping : list (Input Example_sessions.disk) :=
  [Start] ++ take_in "one" ++ take_in "two" ++ [Begin 0 "a"; Begin 1 "b";
   End 0 (done "one" "first" None); Answer 0; End 0 (done "two" "second" None); Answer 0].

Example update_lost :
  ∃ st log, play 5 overlapping = Some (st, log) ∧
    answered log = [ask "one"; ask "two"] ∧
    Container.disk (services st) !! file_name "telegram:1" =
      Some (chat "telegram:1" [Message.user "two"; Message.assistant "second"]).
Proof. eexists _, _. vm_compute. split_and!; reflexivity. Qed.

(** With one slot the second message starts from what the first one saved. *)
Definition in_turn : list (Input Example_sessions.disk) :=
  [Start] ++ take_in "one" ++ [Begin 0 "a"; Publish (ask "two"); Consume clock;
   End 0 (done "one" "first" None); Answer 0; Acquire; Begin 0 "b";
   End 0 (done "two" "second" (Some (extended "one" "first" None))); Answer 0].

Example update_kept :
  ∃ st log, play 1 in_turn = Some (st, log) ∧
    omap (λ e, match e with Requested r => Some (length <$> (messages <$> req_session r)) | _ => None end) log
      = [None; Some 2%nat] ∧
    Container.disk (services st) !! file_name "telegram:1" =
      Some (chat "telegram:1" [Message.user "one"; Message.assistant "first";
                               Message.user "two"; Message.assistant "second"]).
Proof. eexists _, _. vm_compute. split_and!; reflexivity. Qed.

(** The identifier of a response is not compared, a session of another chat is not
    saved, and once it was stopped the proxy can end as soon as it is started again. *)
Example other_session :
  ∃ st log, play 1 ([Start] ++ take_in "one" ++
      [Begin 0 "a"; End 0 (Ok (success "another id" "text" (Some (Session.new "telegram:2" 0)))); Answer 0]) =
    Some (st, log) ∧ answered log = [ask "one"] ∧ Container.disk (services st) = ∅.
Proof. eexists _, _. vm_compute. split_and!; reflexivity. Qed.

Example stopped_for_good :
  ∃ st log, play 1 [Start; Stop; Shutdown; Start; Shutdown] = Some (st, log) ∧ phase st = Stopped.
Proof. eexists _, _. vm_compute. split_and!; reflexivity. Qed.

Lemma container_histories_witness :
  ∃ st log, play 5 overlapping = Some (st, log) ∧
    map fst (let_through log) ≡ₚ answered log ++ in_flight st ∧
    ∃ st1 log1 st2 es, play 5 (take 9 overlapping) = Some (st1, log1) ∧
      step (λ _, None) (λ s, s) true tt st1 (End 0 (done "one" "first" None)) = Some (st2, es) ∧
      own_changes true st1 (End 0 (done "one" "first" None)) st2.
Proof.
  destruct (play 5 overlapping) as [[st log]|] eqn:Hp; [|vm_compute in Hp; discriminate].
  exists st, log. split; [reflexivity|]. unfold play, proxy in Hp.
  destruct (container_histories (IpAddr := Z) (I := unit) (D := unit) (W := Example_sessions.disk) (λ _, None) (λ s, s) true tt (MessageBus.new tt) free
    (mkServices (Some (mkSessionManager ∅ true)) ∅ (Some UsageMetrics.new)) 5 overlapping st log Hp)
    as (_ & _ & Hplaces & _ & Hown).
  split; [exact Hplaces|].
  exact (Hown (take 9 overlapping) (End 0 (done "one" "first" None)) (drop 10 overlapping) eq_refl).
Defined.
End Example_container.
