(* ===== verification/Switches.v ===== *)
(** The commands that switch the model and the persona of a chat
    (src/src/channels/model_switch.rs, src/src/channels/persona_switch.rs), what they keep in
    the long-term memory, and how the Telegram channel handles them
    (src/src/channels/telegram.rs).

    The provider of bots, their replies and the typing indicators are left out; what a
    message of a user does to the overrides, what it is answered and what goes along with
    it on the bus is here. *)

From S2P Require Import Prelude Text Lines Errors Safety LongTerm Registry.

Definition colon : Ascii.ascii := Ascii.ascii_of_nat 58.

(** ** Preferences in the memory *)

Section preferences.
Context `{RustRegex} `{RustUnicode} `{Float32 F} `{MemorySearcher F X} `{MemoryFile W} `{MapOrder (MemoryEntry F)}.
Context (storage_path storage_dir : string).
Context (entries_json : gmap string (MemoryEntry F) → result string string).
Implicit Types (ltm : LongTermMemory F X) (w : W).

(** What the errors of the memory say is ignored. *)
Definition persist (prefix category chat_id value : string) ltm w (now : Z) : LongTermMemory F X * W :=
  let '(_, ltm, w) :=
    LongTermMemory.set storage_path storage_dir entries_json ltm w (prefix +:+ chat_id) value category [] f_fifth now in
  (ltm, w).

Definition forget (prefix chat_id : string) ltm w : LongTermMemory F X * W :=
  let '(_, ltm, w) := LongTermMemory.delete storage_path storage_dir entries_json ltm w (prefix +:+ chat_id) in
  (ltm, w).

Definition hydrate_entry {A} (prefix : string) (parse : string → option A) (store : gmap string A) (e : MemoryEntry F)
    : gmap string A :=
  match strip_prefix (key e) prefix with
  | Some chat_id => match parse (value e) with Some x => <[chat_id := x]> store | None => store end
  | None => store
  end.

Definition hydrate {A} (prefix category : string) (parse : string → option A) (store : gmap string A) ltm : gmap string A :=
  foldl (hydrate_entry prefix parse) store (LongTermMemory.list_by_category ltm category).
End preferences.

(** ** Models *)

Record KnownModel : Type := mkKnownModel { km_provider : string; km_model : string; km_label : string }.

Definition KNOWN_MODELS : list KnownModel :=
  [mkKnownModel "anthropic" "claude-opus-4-6" "Claude Opus 4.6";
   mkKnownModel "anthropic" "claude-sonnet-4-6" "Claude Sonnet 4.6";
   mkKnownModel "anthropic" "claude-haiku-4-5-20251001" "Claude Haiku 4.5";
   mkKnownModel "openai" "gpt-5.4" "GPT-5.4";
   mkKnownModel "openai" "gpt-5.4-mini" "GPT-5.4 Mini";
   mkKnownModel "openai" "gpt-5.4-nano" "GPT-5.4 Nano";
   mkKnownModel "openai" "gpt-5.3-codex" "GPT-5.3 Codex";
   mkKnownModel "openrouter" "anthropic/claude-sonnet-4-6" "Claude Sonnet 4.6 (OR)";
   mkKnownModel "openrouter" "google/gemini-3.1-pro" "Gemini 3.1 Pro (OR)";
   mkKnownModel "groq" "llama-4-scout-17b-16e-instruct" "Llama 4 Scout";
   mkKnownModel "groq" "llama-4-maverick-17b-128e-instruct" "Llama 4 Maverick";
   mkKnownModel "gemini" "gemini-3.1-pro" "Gemini 3.1 Pro";
   mkKnownModel "gemini" "gemini-3.1-flash-lite" "Gemini 3.1 Flash Lite";
   mkKnownModel "ollama" "llama3.3" "Llama 3.3 (local)";
   mkKnownModel "ollama" "mistral" "Mistral (local)";
   mkKnownModel "deepseek" "deepseek-chat" "DeepSeek V3";
   mkKnownModel "deepseek" "deepseek-reasoner" "DeepSeek R1";
   mkKnownModel "kimi" "moonshot-v1-128k" "Kimi 128K";
   mkKnownModel "kimi" "moonshot-v1-32k" "Kimi 32K"].

Record ModelOverride : Type := mkModelOverride { ov_provider : option string; ov_model : string }.

#[export] Instance ModelOverride_eq_dec : EqDecision ModelOverride.
Proof. solve_decision. Defined.

Module ModelSwitch.
Inductive ModelCommand : Type :=
| Show
| Set_ (ov : ModelOverride)
| Reset
| List
| Fetch.

Definition MODEL_PREF_CATEGORY : string := "model_pref".
Definition MODEL_PREF_PREFIX : string := "model_pref:".

Definition is_provider (p : string) : bool := any (λ s, String.eqb (name s) p) PROVIDER_REGISTRY.

(** Only a known provider before the first colon is a provider. *)
Definition override_of (arg : string) : ModelOverride :=
  match split_once colon arg with
  | Some (p, m) => if is_provider p then mkModelOverride (Some p) m else mkModelOverride None arg
  | None => mkModelOverride None arg
  end.

Definition parse_model_command (text : string) : option ModelCommand :=
  let trimmed := trim text in
  rest ← (if String.eqb trimmed "/model" then Some "" else trim <$> strip_prefix trimmed "/model ");
  if str_is_empty rest then Some Show
  else if String.eqb rest "reset" then Some Reset
  else if String.eqb rest "list" then Some List
  else if String.eqb rest "fetch" then Some Fetch
  else Some (Set_ (override_of rest)).

Definition parse_override_value (value : string) : option ModelOverride :=
  if str_is_empty value then None else Some (override_of value).

Definition override_value (ov : ModelOverride) : string :=
  match ov_provider ov with Some p => p +:+ ":" +:+ ov_model ov | None => ov_model ov end.

Fixpoint add_known (by_provider : list (string * list KnownModel)) (km : KnownModel) : list (string * list KnownModel) :=
  match by_provider with
  | [] => [(km_provider km, [km])]
  | (p, models) :: rest =>
    if String.eqb p (km_provider km) then (p, models ++ [km]) :: rest else (p, models) :: add_known rest km
  end.

Definition by_provider : list (string * list KnownModel) := foldl add_known [] KNOWN_MODELS.

Definition is_current (current : option ModelOverride) (provider model : string) : bool :=
  match current with
  | Some c => String.eqb (ov_model c) model && bool_decide (ov_provider c = Some provider)
  | None => false
  end.

Definition configured_line (current : option ModelOverride) (provider model : string) : string :=
  "  " +:+ model +:+ (if is_current current provider model then " (configured, current)" else " (configured)") +:+ newline.

Definition provider_section (configured_providers : list string) (current : option ModelOverride)
    (configured_models : list (string * string)) (pm : string * list KnownModel) : string :=
  let '(provider, models) := pm in
  let is_configured := any (String.eqb provider) configured_providers in
  (if is_configured then "[ok]" else "[warn]") +:+ " " +:+ provider +:+ ":" +:+ newline
  +:+ str_concat (map (λ km, "  " +:+ km_model km +:+ " " +:+ km_label km
        +:+ (if is_current current (km_provider km) (km_model km) then " (current)" else "") +:+ newline) models)
  +:+ str_concat (map (λ pm, if String.eqb (fst pm) provider && negb (any (λ km, String.eqb (km_model km) (snd pm)) models)
        then configured_line current provider (snd pm) else "") configured_models)
  +:+ (if is_configured then "" else "  (no API key configured)" +:+ newline) +:+ newline.

(** [Vec::dedup]: of equal neighbours the first stays. *)
Fixpoint dedup (l : list string) : list string :=
  match l with
  | x :: (y :: _) as l' => if String.eqb x y then dedup l' else x :: dedup l'
  | _ => l
  end.

Definition extra_providers (configured_models : list (string * string)) : list string :=
  dedup (List.filter (λ p, negb (any (λ known, String.eqb (fst known) p) by_provider)) (map fst configured_models)).

Definition extra_section (current : option ModelOverride) (configured_models : list (string * string)) (provider : string)
    : string :=
  "[ok] " +:+ provider +:+ ":" +:+ newline
  +:+ str_concat (map (λ pm, if String.eqb (fst pm) provider then configured_line current provider (snd pm) else "")
        configured_models) +:+ newline.

Definition format_model_list (configured_providers : list string) (current : option ModelOverride)
    (configured_models : list (string * string)) : string :=
  trim_end ("Available models:" +:+ newline +:+ newline
    +:+ str_concat (map (provider_section configured_providers current configured_models) by_provider)
    +:+ str_concat (map (extra_section current configured_models) (extra_providers configured_models))
    +:+ newline
    +:+ "Switch model:  /model <model-id>" +:+ newline
    +:+ "With provider: /model <provider>:<model-id>" +:+ newline
    +:+ "Reset:         /model reset" +:+ newline
    +:+ "Config:        agents.defaults.model in ~/.zeptoclaw/config.json").

Definition format_current_model (current : option ModelOverride) (default_model : string) : string :=
  match current with
  | Some ov =>
    "Current: " +:+ default "auto" (ov_provider ov) +:+ ":" +:+ ov_model ov +:+ " (override)" +:+ newline
    +:+ "Default: " +:+ default_model
  | None => "Current: " +:+ default_model +:+ " (default)"
  end.

Section memory.
Context `{RustRegex} `{RustUnicode} `{Float32 F} `{MemorySearcher F X} `{MemoryFile W} `{MapOrder (MemoryEntry F)}.
Context (storage_path storage_dir : string).
Context (entries_json : gmap string (MemoryEntry F) → result string string).
Implicit Types (ltm : LongTermMemory F X) (w : W).

Definition persist_single (chat_id : string) (ov : ModelOverride) ltm w (now : Z) : LongTermMemory F X * W :=
  persist storage_path storage_dir entries_json MODEL_PREF_PREFIX MODEL_PREF_CATEGORY chat_id (override_value ov) ltm w now.

Definition remove_single (chat_id : string) ltm w : LongTermMemory F X * W :=
  forget storage_path storage_dir entries_json MODEL_PREF_PREFIX chat_id ltm w.

Definition hydrate_overrides (store : gmap string ModelOverride) ltm : gmap string ModelOverride :=
  hydrate MODEL_PREF_PREFIX MODEL_PREF_CATEGORY parse_override_value store ltm.

(** The store in the order of its iteration. *)
Definition persist_overrides (store : list (string * ModelOverride)) ltm w (now : Z) : LongTermMemory F X * W :=
  foldl (λ lw co, persist_single (fst co) (snd co) (fst lw) (snd lw) now) (ltm, w) store.
End memory.
End ModelSwitch.

(** ** Personas *)

Record PersonaPreset : Type := mkPersonaPreset { pp_name : string; pp_label : string; soul_content : string }.

Definition PERSONA_PRESETS : list PersonaPreset :=
  [mkPersonaPreset "default" "Default Assistant"
     "";
   mkPersonaPreset "concise" "Concise & Direct"
     "You are extremely concise. Answer in as few words as possible. No filler, no pleasantries. Get straight to the point.";
   mkPersonaPreset "friendly" "Friendly & Warm"
     "You are warm, friendly, and encouraging. Use a conversational tone. Show genuine interest in helping. Be supportive and positive.";
   mkPersonaPreset "professional" "Professional & Formal"
     "You are professional and formal. Use precise language. Structure responses clearly. Maintain a business-appropriate tone at all times.";
   mkPersonaPreset "creative" "Creative & Playful"
     "You are creative, playful, and imaginative. Use vivid language, metaphors, and humor when appropriate. Think outside the box.";
   mkPersonaPreset "technical" "Technical Expert"
     "You are a technical expert. Provide detailed, accurate technical explanations. Include code examples when relevant. Prioritize precision over simplicity."].

Module PersonaSwitch.
Inductive PersonaCommand : Type :=
| Show
| Set_ (persona : string)
| Reset
| List.

Definition PERSONA_PREF_CATEGORY : string := "persona_pref".
Definition PERSONA_PREF_PREFIX : string := "persona_pref:".

Definition parse_persona_command (text : string) : option PersonaCommand :=
  let trimmed := trim text in
  rest ← (if String.eqb trimmed "/persona" then Some "" else trim <$> strip_prefix trimmed "/persona ");
  if str_is_empty rest then Some Show
  else if String.eqb rest "reset" then Some Reset
  else if String.eqb rest "list" then Some List
  else Some (Set_ rest).

Definition find_preset (n : string) : option PersonaPreset := List.find (λ p, String.eqb (pp_name p) n) PERSONA_PRESETS.

Definition format_persona_list (current : option string) : string :=
  trim_end ("Available personas:" +:+ newline +:+ newline
    +:+ str_concat (map (λ preset, "  " +:+ pp_name preset +:+ " — " +:+ pp_label preset
          +:+ (if bool_decide (current = Some (pp_name preset)) then " (current)" else "") +:+ newline) PERSONA_PRESETS)
    +:+ newline
    +:+ "Use /persona <name> to set a preset, or /persona <custom text> for a custom persona.").

Definition format_current_persona (current : option string) : string :=
  match current with
  | Some n =>
    match find_preset n with
    | Some preset => "Current persona: " +:+ pp_name preset +:+ " — " +:+ pp_label preset +:+ " (override)"
    | None => "Current persona: custom override" +:+ newline +:+ "Content: " +:+ n
    end
  | None => "Current persona: default (no override)"
  end.

Definition resolve_soul_content (name_or_text : string) : string :=
  match find_preset name_or_text with Some preset => soul_content preset | None => name_or_text end.

Definition parse_persona_value (v : string) : option string := if str_is_empty v then None else Some v.

Section memory.
Context `{RustRegex} `{RustUnicode} `{Float32 F} `{MemorySearcher F X} `{MemoryFile W} `{MapOrder (MemoryEntry F)}.
Context (storage_path storage_dir : string).
Context (entries_json : gmap string (MemoryEntry F) → result string string).
Implicit Types (ltm : LongTermMemory F X) (w : W).

Definition persist_single (chat_id v : string) ltm w (now : Z) : LongTermMemory F X * W :=
  persist storage_path storage_dir entries_json PERSONA_PREF_PREFIX PERSONA_PREF_CATEGORY chat_id v ltm w now.

Definition remove_single (chat_id : string) ltm w : LongTermMemory F X * W :=
  forget storage_path storage_dir entries_json PERSONA_PREF_PREFIX chat_id ltm w.

Definition hydrate_overrides (store : gmap string string) ltm : gmap string string :=
  hydrate PERSONA_PREF_PREFIX PERSONA_PREF_CATEGORY parse_persona_value store ltm.
End memory.
End PersonaSwitch.

(** ** The Telegram channel *)

Module Telegram.
(** The overrides of a channel; [memory] is the memory it shares with the agent, if any. *)
Record t (F X : Type) : Type := mkTelegram {
  model_overrides : gmap string ModelOverride;
  persona_overrides : gmap string string;
  memory : option (LongTermMemory F X);
}.
Arguments mkTelegram {F X} _ _ _.
Arguments model_overrides {F X} _.
Arguments persona_overrides {F X} _.
Arguments memory {F X} _.

(** What becomes of a text: an answer, or a message on the bus with these metadata. *)
Inductive Handled : Type :=
| Answered (reply : string)
| Published (metadata : list (string * string)).

(** Topics of a forum have overrides of their own. *)
Definition override_key (chat_id : string) (thread_id : option string) : string :=
  match thread_id with Some tid => chat_id +:+ ":" +:+ tid | None => chat_id end.

Section channel.
Context `{RustRegex} `{RustUnicode} `{Float32 F} `{MemorySearcher F X} `{MemoryFile W} `{MapOrder (MemoryEntry F)}.
Context (storage_path storage_dir : string).
Context (entries_json : gmap string (MemoryEntry F) → result string string).
Context (default_model : string) (configured_providers : list string) (configured_models : list (string * string)).
Implicit Types (self : t F X) (w : W).

(** A starting channel fills its stores from the memory. *)
Definition start self : t F X :=
  match memory self with
  | None => self
  | Some ltm =>
    mkTelegram (ModelSwitch.hydrate_overrides (model_overrides self) ltm)
      (PersonaSwitch.hydrate_overrides (persona_overrides self) ltm) (memory self)
  end.

Definition with_memory (f : LongTermMemory F X → W → LongTermMemory F X * W) self w : t F X * W :=
  match memory self with
  | None => (self, w)
  | Some ltm =>
    let '(ltm, w) := f ltm w in (mkTelegram (model_overrides self) (persona_overrides self) (Some ltm), w)
  end.

Definition set_models (f : gmap string ModelOverride → gmap string ModelOverride) self : t F X :=
  mkTelegram (f (model_overrides self)) (persona_overrides self) (memory self).

Definition set_personas (f : gmap string string → gmap string string) self : t F X :=
  mkTelegram (model_overrides self) (f (persona_overrides self)) (memory self).

Definition handle_model (cmd : ModelSwitch.ModelCommand) (k : string) (now : Z) self w : string * t F X * W :=
  match cmd with
  | ModelSwitch.Show => (ModelSwitch.format_current_model (model_overrides self !! k) default_model, self, w)
  | ModelSwitch.Set_ ov =>
    let '(self, w) := with_memory (λ ltm w, ModelSwitch.persist_single storage_path storage_dir entries_json k ov ltm w now)
      (set_models (insert k ov) self) w in
    ("Switched to " +:+ default "auto" (ov_provider ov) +:+ ":" +:+ ov_model ov, self, w)
  | ModelSwitch.Reset =>
    let '(self, w) := with_memory (ModelSwitch.remove_single storage_path storage_dir entries_json k)
      (set_models (base.delete k) self) w in
    ("Reset to default: " +:+ default_model, self, w)
  | ModelSwitch.List =>
    (ModelSwitch.format_model_list configured_providers (model_overrides self !! k) configured_models, self, w)
  | ModelSwitch.Fetch =>
    ("Use /model list to see available models." +:+ newline +:+ "/model fetch is only available in CLI mode.", self, w)
  end.

Definition handle_persona (cmd : PersonaSwitch.PersonaCommand) (k : string) (now : Z) self w : string * t F X * W :=
  match cmd with
  | PersonaSwitch.Show => (PersonaSwitch.format_current_persona (persona_overrides self !! k), self, w)
  | PersonaSwitch.Set_ v =>
    let '(self, w) := with_memory (λ ltm w, PersonaSwitch.persist_single storage_path storage_dir entries_json k v ltm w now)
      (set_personas (insert k v) self) w in
    (if str_is_empty (PersonaSwitch.resolve_soul_content v) then "Switched to default persona"
     else "Switched to persona: " +:+ v, self, w)
  | PersonaSwitch.Reset =>
    let '(self, w) := with_memory (PersonaSwitch.remove_single storage_path storage_dir entries_json k)
      (set_personas (base.delete k) self) w in
    ("Persona reset to default", self, w)
  | PersonaSwitch.List => (PersonaSwitch.format_persona_list (persona_overrides self !! k), self, w)
  end.

Definition override_metadata self (k : string) : list (string * string) :=
  match model_overrides self !! k with
  | Some ov => ("model_override", ov_model ov) :: match ov_provider ov with Some p => [("provider_override", p)] | None => [] end
  | None => []
  end ++
  match persona_overrides self !! k with Some v => [("persona_override", v)] | None => [] end.

(** The text of a message under the key of its chat and topic. *)
Definition handle_text (text k : string) (now : Z) self w : Handled * t F X * W :=
  match ModelSwitch.parse_model_command text with
  | Some cmd => let '(reply, self, w) := handle_model cmd k now self w in (Answered reply, self, w)
  | None =>
    match PersonaSwitch.parse_persona_command text with
    | Some cmd => let '(reply, self, w) := handle_persona cmd k now self w in (Answered reply, self, w)
    | None => (Published (override_metadata self k), self, w)
    end
  end.
End channel.
End Telegram.

(** ** What a text says *)

(** The argument of a command, which is not empty. *)
Definition argument (command text arg : string) : Prop :=
  ∃ rest, trim text = command +:+ " " +:+ rest ∧ trim rest = arg ∧ arg ≠ "".

(** What comes before the first colon is a provider if it is the name of one. *)
Definition known_provider (p : string) : Prop := ∃ spec, spec ∈ PROVIDER_REGISTRY ∧ name spec = p.
Definition names_model (arg : string) (ov : ModelOverride) : Prop :=
  (∃ p m, arg = p +:+ ":" +:+ m ∧ contains p ":" = false ∧ known_provider p ∧ ov = mkModelOverride (Some p) m) ∨
  (∀ p m, arg = p +:+ ":" +:+ m → contains p ":" = false → ¬ known_provider p) ∧ ov = mkModelOverride None arg.

(** A text sets the model or the persona of its chat, or takes it back ([None]). *)
Definition model_said (text : string) (o : option ModelOverride) : Prop :=
  ∃ arg, argument "/model" text arg ∧
    (arg = "reset" ∧ o = None ∨
     arg ∉ ["reset"; "list"; "fetch"] ∧ ∃ ov, o = Some ov ∧ names_model arg ov).
Definition persona_said (text : string) (o : option string) : Prop :=
  ∃ arg, argument "/persona" text arg ∧
    (arg = "reset" ∧ o = None ∨ arg ∉ ["reset"; "list"] ∧ o = Some arg).

Lemma contains_colon_cons c t : c ≠ colon → contains (String c t) ":" = contains t ":".
Proof. intros Hc. cbn. case_match; [by destruct Hc|done]. Qed.

Lemma split_once_cases (s : string) :
  match split_once colon s with
  | Some (p, m) => s = p +:+ ":" +:+ m ∧ contains p ":" = false
  | None => contains s ":" = false
  end.
Proof.
  induction s as [|c s IH]; cbn [split_once]; [done|].
  destruct (Ascii.eqb_spec c colon) as [->|Hc]; [done|].
  destruct (split_once colon s) as [[p m]|]; cbn [mbind option_bind]; [|by rewrite contains_colon_cons].
  destruct IH as [-> Hp]. by rewrite contains_colon_cons.
Qed.

Lemma split_once_unique p m : contains p ":" = false → split_once colon (p +:+ ":" +:+ m) = Some (p, m).
Proof.
  intros Hp. induction p as [|c p IH]; [done|]. cbn [String.append split_once].
  destruct (Ascii.eqb_spec c colon) as [->|Hc]; [by destruct p|].
  rewrite contains_colon_cons in Hp by done. specialize (IH Hp). cbn [String.append] in IH. by rewrite IH.
Qed.

Lemma is_provider_known p : ModelSwitch.is_provider p = true ↔ known_provider p.
Proof.
  unfold ModelSwitch.is_provider, known_provider. rewrite any_true. by setoid_rewrite String.eqb_eq.
Qed.

Lemma override_of_names arg ov : ModelSwitch.override_of arg = ov ↔ names_model arg ov.
Proof.
  unfold ModelSwitch.override_of, names_model. pose proof (split_once_cases arg) as Hs.
  destruct (split_once colon arg) as [[p m]|] eqn:Hsp.
  - destruct Hs as [-> Hp]. destruct (ModelSwitch.is_provider p) eqn:Hk.
    + apply is_provider_known in Hk. split; [intros <-; left; by exists p, m|].
      intros [(p' & m' & He & Hp' & _ & ->)|[Hno _]]; [|by destruct (Hno p m)].
      rewrite He, split_once_unique in Hsp by done. by injection Hsp as -> ->.
    + assert (¬ known_provider p) as Hn by by rewrite <- is_provider_known, Hk. split.
      * intros <-. right. split; [|done]. intros p' m' He Hp'. rewrite He, split_once_unique in Hsp by done.
        by injection Hsp as -> ->.
      * intros [(p' & m' & He & Hp' & Hk' & _)|[_ ->]]; [|done].
        rewrite He, split_once_unique in Hsp by done. by injection Hsp as -> ->.
  - assert (∀ p m, arg = p +:+ ":" +:+ m → contains p ":" = false → False) as Hno.
    { intros p m -> Hp. by rewrite split_once_unique in Hsp. }
    split; [intros <-; right; split; [|done]; intros p m He Hp; by destruct (Hno p m)|].
    intros [(p & m & He & Hp & _)|[_ ->]]; [by destruct (Hno p m)|done].
Qed.

Lemma command_argument command text arg :
  arg ≠ "" →
  (if String.eqb (trim text) command then Some ""
   else trim <$> strip_prefix (trim text) (command +:+ " ")) = Some arg ↔
  argument command text arg.
Proof.
  intros Ha. unfold argument.
  destruct (String.eqb_spec (trim text) command) as [He|He].
  - split; [by intros [= <-]|]. intros (rest & Hr & _). rewrite He in Hr. exfalso.
    apply (f_equal String.length) in Hr. rewrite !str_app_length in Hr. cbn in Hr. lia.
  - split.
    + destruct (strip_prefix _ _) as [rest|] eqn:Hs; [|done]. intros [= <-].
      apply strip_prefix_Some in Hs. exists rest. by rewrite <- str_app_assoc.
    + intros (rest & Hr & Ht & _). rewrite <- str_app_assoc in Hr.
      apply strip_prefix_Some in Hr. by rewrite Hr, <- Ht.
Qed.

Lemma model_said_iff text o :
  model_said text o ↔
  match ModelSwitch.parse_model_command text with
  | Some (ModelSwitch.Set_ ov) => o = Some ov
  | Some ModelSwitch.Reset => o = None
  | _ => False
  end.
Proof.
  unfold model_said, ModelSwitch.parse_model_command.
  pose proof (command_argument "/model" text) as Harg. change ("/model" +:+ " ") with "/model " in Harg.
  destruct (if String.eqb _ _ then _ else _) as [rest|]; cbn [mbind option_bind].
  2: { split; [|done]. intros (arg & Ha & _). pose proof Ha as (_ & _ & _ & Hne). by apply Harg in Ha. }
  destruct (str_is_empty rest) eqn:He.
  { split; [|done]. intros (arg & Ha & _). pose proof Ha as (_ & _ & _ & Hne). apply Harg in Ha; [|done].
    injection Ha as ->. by destruct arg. }
  assert (rest ≠ "") as Hne by by intros ->.
  assert (∀ arg, argument "/model" text arg ↔ arg = rest) as Heq.
  { intros arg. split; [|intros ->; by apply Harg]. intros Ha. pose proof Ha as (_ & _ & _ & Hn).
    apply Harg in Ha; [|done]. by injection Ha. }
  setoid_rewrite Heq.
  destruct (String.eqb_spec rest "reset") as [->|Hr].
  { split; [|intros ->; exists "reset"; auto]. intros (arg & -> & [[_ ?]|[Hn _]]); [done|set_solver]. }
  destruct (String.eqb_spec rest "list") as [->|Hl].
  { split; [|done]. intros (arg & -> & [[? _]|[Hn _]]); [done|set_solver]. }
  destruct (String.eqb_spec rest "fetch") as [->|Hf].
  { split; [|done]. intros (arg & -> & [[? _]|[Hn _]]); [done|set_solver]. }
  setoid_rewrite <- override_of_names. split.
  - intros (arg & -> & [[? _]|(_ & ov & -> & <-)]); done.
  - intros ->. exists rest. split; [done|]. right. split; [set_solver|]. eauto.
Qed.

Lemma persona_said_iff text o :
  persona_said text o ↔
  match PersonaSwitch.parse_persona_command text with
  | Some (PersonaSwitch.Set_ v) => o = Some v
  | Some PersonaSwitch.Reset => o = None
  | _ => False
  end.
Proof.
  unfold persona_said, PersonaSwitch.parse_persona_command.
  pose proof (command_argument "/persona" text) as Harg. change ("/persona" +:+ " ") with "/persona " in Harg.
  destruct (if String.eqb _ _ then _ else _) as [rest|]; cbn [mbind option_bind].
  2: { split; [|done]. intros (arg & Ha & _). pose proof Ha as (_ & _ & _ & Hne). by apply Harg in Ha. }
  destruct (str_is_empty rest) eqn:He.
  { split; [|done]. intros (arg & Ha & _). pose proof Ha as (_ & _ & _ & Hne). apply Harg in Ha; [|done].
    injection Ha as ->. by destruct arg. }
  assert (rest ≠ "") as Hne by by intros ->.
  assert (∀ arg, argument "/persona" text arg ↔ arg = rest) as Heq.
  { intros arg. split; [|intros ->; by apply Harg]. intros Ha. pose proof Ha as (_ & _ & _ & Hn).
    apply Harg in Ha; [|done]. by injection Ha. }
  setoid_rewrite Heq.
  destruct (String.eqb_spec rest "reset") as [->|Hr].
  { split; [|intros ->; exists "reset"; auto]. intros (arg & -> & [[_ ?]|[Hn _]]); [done|set_solver]. }
  destruct (String.eqb_spec rest "list") as [->|Hl].
  { split; [|done]. intros (arg & -> & [[? _]|[Hn _]]); [done|set_solver]. }
  split.
  - intros (arg & -> & [[? _]|[_ ->]]); done.
  - intros ->. exists rest. split; [done|]. right. split; [set_solver|done].
Qed.

(** No text is a command for both. *)
Lemma persona_not_model text o : persona_said text o → ModelSwitch.parse_model_command text = None.
Proof.
  intros (arg & (rest & Ht & _) & _). unfold ModelSwitch.parse_model_command. rewrite Ht.
  by destruct (String.eqb_spec ("/persona" +:+ " " +:+ rest) "/model").
Qed.

(** ** Round trip of an override *)

Lemma split_once_Some b s x y : split_once b s = Some (x, y) → s = x +:+ String b y.
Proof.
  revert x y. induction s as [|c s IH]; intros x y; cbn [split_once]; [done|].
  destruct (Ascii.eqb_spec c b) as [->|Hc]; [by intros [= <- <-]|].
  destruct (split_once b s) as [[x' y']|] eqn:Hs; cbn [mbind option_bind]; [|done].
  intros [= <- ->]. by rewrite (IH x' y eq_refl).
Qed.

Lemma override_value_of arg : ModelSwitch.override_value (ModelSwitch.override_of arg) = arg.
Proof.
  unfold ModelSwitch.override_of. destruct (split_once colon arg) as [[p m]|] eqn:Hs; [|done].
  apply split_once_Some in Hs. destruct (ModelSwitch.is_provider p); [|done]. by rewrite Hs.
Qed.

Lemma model_set_arg text ov :
  ModelSwitch.parse_model_command text = Some (ModelSwitch.Set_ ov) →
  ∃ arg, ov = ModelSwitch.override_of arg ∧ str_is_empty arg = false.
Proof.
  unfold ModelSwitch.parse_model_command. destruct (if String.eqb _ _ then _ else _) as [rest|]; [|done].
  cbn [mbind option_bind]. destruct (str_is_empty rest) eqn:He; [done|].
  repeat (destruct (String.eqb rest _); [done|]). intros [= <-]. by exists rest.
Qed.

Lemma parse_model_value text ov :
  ModelSwitch.parse_model_command text = Some (ModelSwitch.Set_ ov) →
  ModelSwitch.parse_override_value (ModelSwitch.override_value ov) = Some ov.
Proof.
  intros (arg & -> & He)%model_set_arg. rewrite override_value_of. unfold ModelSwitch.parse_override_value. by rewrite He.
Qed.

Lemma parse_persona_value text v :
  PersonaSwitch.parse_persona_command text = Some (PersonaSwitch.Set_ v) → PersonaSwitch.parse_persona_value v = Some v.
Proof.
  unfold PersonaSwitch.parse_persona_command. destruct (if String.eqb _ _ then _ else _) as [rest|]; [|done].
  cbn [mbind option_bind]. destruct (str_is_empty rest) eqn:He; [done|].
  repeat (destruct (String.eqb rest _); [done|]). intros [= <-]. unfold PersonaSwitch.parse_persona_value. by rewrite He.
Qed.

(** ** What a start reads *)

Section proofs.
Context `{RustRegex} `{RustUnicode} `{Float32 F} `{MemorySearcher F X} `{MemoryFile W} `{MapOrder (MemoryEntry F)}.
Implicit Types (ltm : LongTermMemory F X) (w : W).

(** A preference of a chat among the facts of a memory. *)
Definition pref {A} (prefix category : string) (parse : string → option A)
    (f : gmap string (string * string * list string * F)) (chat_id : string) : option A :=
  x ← f !! (prefix +:+ chat_id);
  if String.eqb (to_lowercase x.1.1.2) (to_lowercase category) then parse x.1.1.1 else None.

Lemma same_prefix_inj (p a b : string) : p +:+ a = p +:+ b → a = b.
Proof. intros Hp. rewrite <- (str_drop_app_exact p a), Hp. apply str_drop_app_exact. Qed.

Lemma hydrate_none {A} prefix (parse : string → option A) chat_id (l : list (MemoryEntry F)) : ∀ store,
  (∀ e, e ∈ l → key e = prefix +:+ chat_id → parse (value e) = None) →
  foldl (hydrate_entry prefix parse) store l !! chat_id = store !! chat_id.
Proof.
  induction l as [|e l IH]; intros store Hl; [done|]. cbn [foldl]. rewrite IH by set_solver.
  unfold hydrate_entry. destruct (strip_prefix (key e) prefix) as [c|] eqn:Hc; [|done].
  apply strip_prefix_Some in Hc. destruct (parse (value e)) as [x|] eqn:Hx; [|done].
  apply lookup_insert_ne. intros ->. specialize (Hl e ltac:(by left) Hc). congruence.
Qed.

Lemma hydrate_some {A} prefix (parse : string → option A) chat_id x e (l : list (MemoryEntry F)) : ∀ store,
  NoDup (map key l) → e ∈ l → key e = prefix +:+ chat_id → parse (value e) = Some x →
  foldl (hydrate_entry prefix parse) store l !! chat_id = Some x.
Proof.
  induction l as [|e' l IH]; intros store Hnd He Hk Hx; [by apply elem_of_nil in He|].
  cbn [foldl map] in *. apply NoDup_cons in Hnd as [Hn Hnd]. apply elem_of_cons in He as [<-|He]; [|by apply IH].
  rewrite hydrate_none.
  - unfold hydrate_entry. rewrite (proj2 (strip_prefix_Some _ _ _) Hk), Hx. apply lookup_insert_eq.
  - intros e' He' Hk'. destruct Hn. rewrite Hk, <- Hk'. apply list_elem_of_fmap. by exists e'.
Qed.

Lemma by_category_elem ltm c e :
  e ∈ LongTermMemory.list_by_category ltm c ↔
  (∃ k, entries ltm !! k = Some e) ∧ String.eqb (to_lowercase (category e)) (to_lowercase c) = true.
Proof.
  unfold LongTermMemory.list_by_category, LongTermMemory.values.
  rewrite sort_by_perm, list_elem_of_In, List.filter_In, <- list_elem_of_In, list_elem_of_fmap. split.
  - intros [([k e'] & -> & He) Hc]. split; [|done]. exists k. rewrite map_iter_list in He. by apply elem_of_map_to_list in He.
  - intros [[k He] Hc]. split; [|done]. exists (k, e). split; [done|]. rewrite map_iter_list. by apply elem_of_map_to_list.
Qed.

Lemma hydrate_lookup {A} prefix category (parse : string → option A) store ltm chat_id :
  sound (entries ltm) →
  hydrate prefix category parse store ltm !! chat_id =
  match pref prefix category parse (facts (entries ltm)) chat_id with Some x => Some x | None => store !! chat_id end.
Proof.
  intros Hs. unfold pref, facts. rewrite lookup_fmap. unfold hydrate.
  assert (∀ e, e ∈ LongTermMemory.list_by_category ltm category → key e = prefix +:+ chat_id →
    entries ltm !! (prefix +:+ chat_id) = Some e ∧ String.eqb (to_lowercase (LongTerm.category e)) (to_lowercase category) = true) as Hin.
  { intros e [[k He] Hc]%by_category_elem Hk. destruct (Hs k e He) as [Hke _]. by rewrite <- Hk, Hke. }
  destruct (entries ltm !! (prefix +:+ chat_id)) as [e|] eqn:He; cbn -[String.eqb].
  - destruct (String.eqb (to_lowercase (LongTerm.category e)) (to_lowercase category)) eqn:Hc.
    + destruct (parse (value e)) as [x|] eqn:Hx.
      * eapply hydrate_some; [by apply by_category_NoDup| |by apply (Hs _ e He)|exact Hx].
        apply by_category_elem. eauto.
      * apply hydrate_none. intros e' He' Hk. destruct (Hin e' He' Hk) as [[= ->] _]. done.
    + apply hydrate_none. intros e' He' Hk. destruct (Hin e' He' Hk) as [[= ->] ?]. congruence.
  - apply hydrate_none. intros e' He' Hk. by destruct (Hin e' He' Hk).
Qed.

(** ** Histories of a channel *)

(** A text in a chat, or the agent using the memory meanwhile. *)
Inductive SwitchOp : Type :=
| Text (text k : string) (now : Z)
| Meanwhile (o : MemoryOp F).

Context (storage_path storage_dir : string).
Context (entries_json : gmap string (MemoryEntry F) → result string string).
Context (entries_of_json : string → result string (gmap string (MemoryEntry F))).
Context (default_model : string) (configured_providers : list string) (configured_models : list (string * string)).

Notation handle_text :=
  (Telegram.handle_text storage_path storage_dir entries_json default_model configured_providers configured_models).
Notation open := (LongTermMemory.with_path_and_searcher storage_path entries_of_json).
Notation exec_memory := (exec_memory storage_path storage_dir entries_json entries_of_json).

Definition exec_switch (fresh : X) (st : Telegram.t F X * W) (o : SwitchOp) : Telegram.t F X * W :=
  let '(self, w) := st in
  match o with
  | Text text k now => let '(_, self, w) := handle_text text k now self w in (self, w)
  | Meanwhile o => Telegram.with_memory (λ ltm w, exec_memory fresh (ltm, w) o) self w
  end.

(** The last override that the texts under a key leave. *)
Definition model_after (k : string) (ov : option ModelOverride) (o : SwitchOp) : option ModelOverride :=
  match o with
  | Text text k' _ =>
    if String.eqb k' k then
      match ModelSwitch.parse_model_command text with
      | Some (ModelSwitch.Set_ ov) => Some ov
      | Some ModelSwitch.Reset => None
      | _ => ov
      end
    else ov
  | Meanwhile _ => ov
  end.

Definition persona_after (k : string) (v : option string) (o : SwitchOp) : option string :=
  match o with
  | Text text k' _ =>
    if String.eqb k' k then
      match ModelSwitch.parse_model_command text, PersonaSwitch.parse_persona_command text with
      | None, Some (PersonaSwitch.Set_ v) => Some v
      | None, Some PersonaSwitch.Reset => None
      | _, _ => v
      end
    else v
  | Meanwhile _ => v
  end.

(** The last text under a key that says something, if there is one, decides; a
    history without one leaves what there was [before]. *)
Definition silent {A} (said : string → option A → Prop) (k : string) (ops : list SwitchOp) : Prop :=
  ∀ text now o, Text text k now ∈ ops → ¬ said text o.

Inductive last_said {A} (said : string → option A → Prop) (k : string) (before : option A)
    : list SwitchOp → option A → Prop :=
| last_before ops : silent said k ops → last_said said k before ops before
| last_text ops text now later o :
    said text o → silent said k later → last_said said k before (ops ++ Text text k now :: later) o.

Lemma last_said_snoc {A} (said : string → option A → Prop) k before ops o a a' :
  last_said said k before ops a →
  ((∃ text now, o = Text text k now ∧ said text a') ∨
   (∀ text now b, o = Text text k now → ¬ said text b) ∧ a' = a) →
  last_said said k before (ops ++ [o]) a'.
Proof.
  intros Hl [(text & now & -> & Hs)|[Hno ->]].
  { apply last_text; [done|]. intros t n b Ht. by apply elem_of_nil in Ht. }
  assert (∀ l, silent said k l → silent said k (l ++ [o])) as Hsil.
  { intros l Hq t n b [Ht|Ht%list_elem_of_singleton]%elem_of_app; [by eapply Hq|]. by eapply Hno. }
  destruct Hl as [ops Hq|ops text now later b Hs Hq]; [apply last_before; auto|].
  rewrite <- app_assoc, <- app_comm_cons. apply last_text; auto.
Qed.

Lemma model_after_last k before ops : last_said model_said k before ops (foldl (model_after k) before ops).
Proof.
  induction ops as [|o ops IH] using rev_ind; [by apply last_before; intros t n b Ht; apply elem_of_nil in Ht|].
  rewrite foldl_snoc. apply (last_said_snoc _ _ _ _ _ _ _ IH). destruct o as [text k' now|o]; [|right; by split; [intros|]].
  cbn [model_after]. destruct (String.eqb_spec k' k) as [->|Hk]; [|right; split; [|done]; intros t n b Ht; injection Ht as _ Hkk _; by destruct Hk].
  pose proof (model_said_iff text) as Hs.
  revert Hs. destruct (ModelSwitch.parse_model_command text) as [[]|]; intros Hs; try (left; exists text, now; split; [done|by apply Hs]);
    (right; split; [|done]; intros t n b Ht; injection Ht as Htx _; rewrite <- Htx; by intros Hx%Hs).
Qed.

Lemma persona_after_last k before ops : last_said persona_said k before ops (foldl (persona_after k) before ops).
Proof.
  induction ops as [|o ops IH] using rev_ind; [by apply last_before; intros t n b Ht; apply elem_of_nil in Ht|].
  rewrite foldl_snoc. apply (last_said_snoc _ _ _ _ _ _ _ IH). destruct o as [text k' now|o]; [|right; by split; [intros|]].
  cbn [persona_after]. destruct (String.eqb_spec k' k) as [->|Hk]; [|right; split; [|done]; intros t n b Ht; injection Ht as _ Hkk _; by destruct Hk].
  pose proof (persona_said_iff text) as Hs. pose proof (persona_not_model text) as Hn. revert Hs.
  destruct (PersonaSwitch.parse_persona_command text) as [[]|]; intros Hs;
    try (rewrite (Hn _ (proj2 (Hs _) eq_refl)); left; exists text, now; split; [done|by apply Hs]);
    (right; split; [intros t n b Ht; injection Ht as Htx _; rewrite <- Htx; by intros Hx%Hs|]; by destruct (ModelSwitch.parse_model_command text)).
Qed.

(** The metadata of a message say the model, its provider and the persona. *)
Definition announces (ov : option ModelOverride) (persona : option string) (metadata : list (string * string)) : Prop :=
  NoDup (map fst metadata) ∧
  ∀ n v, (n, v) ∈ metadata ↔
    n = "model_override" ∧ ov_model <$> ov = Some v ∨
    n = "provider_override" ∧ ov ≫= ov_provider = Some v ∨
    n = "persona_override" ∧ persona = Some v.

Lemma override_metadata_announces (self : Telegram.t F X) k :
  announces (Telegram.model_overrides self !! k) (Telegram.persona_overrides self !! k)
    (Telegram.override_metadata self k).
Proof.
  unfold announces, Telegram.override_metadata.
  destruct (Telegram.model_overrides self !! k) as [[[p|] m]|], (Telegram.persona_overrides self !! k) as [v|];
    cbn; (split; [repeat constructor; set_solver|]); intros n x; rewrite ?elem_of_cons, ?elem_of_nil; naive_solver.
Qed.

Definition is_pref (k : string) : bool :=
  starts_with k ModelSwitch.MODEL_PREF_PREFIX || starts_with k PersonaSwitch.PERSONA_PREF_PREFIX.

(** Texts that the memory accepts, and an agent that leaves the preferences alone. *)
Definition kept_op (o : SwitchOp) : Prop :=
  match o with
  | Text text _ _ =>
    (∀ ov, ModelSwitch.parse_model_command text = Some (ModelSwitch.Set_ ov) →
       rejected (ModelSwitch.override_value ov) = false) ∧
    (∀ v, PersonaSwitch.parse_persona_command text = Some (PersonaSwitch.Set_ v) → rejected v = false)
  | Meanwhile (MSet k _ _ _ i _) => is_finite i = true ∧ is_pref k = false
  | Meanwhile (MGet _ _) => True
  | Meanwhile (MDelete k) => is_pref k = false
  | Meanwhile _ => False
  end.

Definition model_pref := pref ModelSwitch.MODEL_PREF_PREFIX ModelSwitch.MODEL_PREF_CATEGORY ModelSwitch.parse_override_value.
Definition persona_pref :=
  pref PersonaSwitch.PERSONA_PREF_PREFIX PersonaSwitch.PERSONA_PREF_CATEGORY PersonaSwitch.parse_persona_value.

Context `{!ReliableFile F W entries_json entries_of_json}.
Context (one_at_least : ∀ t, in_unit t = true → LongTermMemory.at_least f_one t = true).
Context (fifth_finite : is_finite (f_fifth : F) = true).

(** The stores hold what the memory says, and the file says the same. *)
Definition remembered (self : Telegram.t F X) w : Prop :=
  ∃ ltm, Telegram.memory self = Some ltm ∧
    in_step storage_path entries_of_json ltm w ∧
    (∀ k, Telegram.model_overrides self !! k = model_pref (facts (entries ltm)) k) ∧
    (∀ k, Telegram.persona_overrides self !! k = persona_pref (facts (entries ltm)) k).

Lemma pref_insert {A} prefix category (parse : string → option A) f k v ts i k' :
  pref prefix category parse (<[prefix +:+ k := (v, category, ts, i)]> f) k' =
  if decide (k = k') then parse v else pref prefix category parse f k'.
Proof.
  unfold pref. destruct (decide (k = k')) as [<-|Hk].
  - rewrite lookup_insert_eq. cbn -[String.eqb]. by rewrite String.eqb_refl.
  - rewrite lookup_insert_ne; [done|]. by intros ?%same_prefix_inj.
Qed.

Lemma pref_delete {A} prefix category (parse : string → option A) (f : gmap string (string * string * list string * F)) k k' :
  pref prefix category parse (base.delete (prefix +:+ k) f) k' =
  if decide (k = k') then None else pref prefix category parse f k'.
Proof.
  unfold pref. destruct (decide (k = k')) as [<-|Hk].
  - by rewrite lookup_delete_eq.
  - rewrite lookup_delete_ne; [done|]. by intros ?%same_prefix_inj.
Qed.

Lemma pref_other {A} prefix category (parse : string → option A) (f f' : gmap string (string * string * list string * F)) :
  (∀ k, f' !! (prefix +:+ k) = f !! (prefix +:+ k)) → ∀ k, pref prefix category parse f' k = pref prefix category parse f k.
Proof. intros Hf k. unfold pref. by rewrite Hf. Qed.

Lemma persist_in_step prefix category k v ltm w now ltm' w' :
  in_step storage_path entries_of_json ltm w → rejected v = false →
  persist storage_path storage_dir entries_json prefix category k v ltm w now = (ltm', w') →
  in_step storage_path entries_of_json ltm' w' ∧
  facts (entries ltm') = <[prefix +:+ k := (v, category, [], f_fifth)]> (facts (entries ltm)).
Proof.
  intros Hin Hv. unfold persist. destruct (LongTermMemory.set _ _ _ _ _ _ _ _ _ _ _) as [[r l] w1] eqn:Hs.
  intros [= <- <-]. apply set_in_step with (entries_of_json := entries_of_json) in Hs as [Hin' Hf]; [|done..].
  split; [done|]. apply facts_after_set in Hf. by rewrite Hv in Hf.
Qed.

Lemma forget_in_step prefix k ltm w ltm' w' :
  in_step storage_path entries_of_json ltm w →
  forget storage_path storage_dir entries_json prefix k ltm w = (ltm', w') →
  in_step storage_path entries_of_json ltm' w' ∧
  facts (entries ltm') = base.delete (prefix +:+ k) (facts (entries ltm)).
Proof.
  intros Hin. unfold forget. destruct (LongTermMemory.delete _ _ _ _ _ _) as [[r l] w1] eqn:Hs.
  intros [= <- <-]. eapply delete_in_step in Hs as [Hin' Hf]; [|done..]. split; [done|]. by apply facts_after_delete in Hf.
Qed.

#[local] Opaque persist forget.

Lemma with_memory_overrides f (self : Telegram.t F X) w self' w' :
  Telegram.with_memory f self w = (self', w') →
  Telegram.model_overrides self' = Telegram.model_overrides self ∧
  Telegram.persona_overrides self' = Telegram.persona_overrides self.
Proof.
  unfold Telegram.with_memory. destruct (Telegram.memory self) as [ltm|]; [|by intros [= <- _]].
  destruct (f ltm w) as [l w1]. by intros [= <- _].
Qed.

Lemma with_memory_some f (self : Telegram.t F X) w ltm self' w' :
  Telegram.memory self = Some ltm → Telegram.with_memory f self w = (self', w') →
  ∃ ltm', f ltm w = (ltm', w') ∧ Telegram.memory self' = Some ltm'.
Proof.
  intros Hm. unfold Telegram.with_memory. rewrite Hm. destruct (f ltm w) as [l w1]. intros [= <- <-]. by exists l.
Qed.

Lemma exec_switch_overrides fresh o self w self' w' :
  exec_switch fresh (self, w) o = (self', w') →
  (∀ k, Telegram.model_overrides self' !! k = model_after k (Telegram.model_overrides self !! k) o) ∧
  (∀ k, Telegram.persona_overrides self' !! k = persona_after k (Telegram.persona_overrides self !! k) o).
Proof.
  unfold exec_switch, model_after, persona_after. destruct o as [text k now|o].
  2: { intros [-> ->]%with_memory_overrides. done. }
  unfold Telegram.handle_text. destruct (ModelSwitch.parse_model_command text) as [cmd|].
  - destruct cmd as [|ov| | |]; cbn [Telegram.handle_model];
      try (destruct (Telegram.with_memory _ _ _) as [s1 w1] eqn:Hm; apply with_memory_overrides in Hm as [Hm Hp]);
      intros [= <- <-]; rewrite ?Hm, ?Hp; (split; intros k'; [|by destruct (String.eqb _ _)]);
      cbn [Telegram.set_models Telegram.model_overrides]; destruct (String.eqb_spec k k') as [<-|Hk];
      rewrite ?lookup_insert_eq, ?lookup_insert_ne, ?lookup_delete_eq, ?lookup_delete_ne by done; done.
  - destruct (PersonaSwitch.parse_persona_command text) as [cmd|].
    2: { intros [= <- <-]. split; intros k'; by destruct (String.eqb _ _). }
    destruct cmd as [|v| |]; cbn [Telegram.handle_persona];
      try (destruct (Telegram.with_memory _ _ _) as [s1 w1] eqn:Hm; apply with_memory_overrides in Hm as [Hm Hp]);
      intros [= <- <-]; rewrite ?Hm, ?Hp; (split; intros k'; [by destruct (String.eqb _ _)|]);
      cbn [Telegram.set_personas Telegram.persona_overrides]; destruct (String.eqb_spec k k') as [<-|Hk];
      rewrite ?lookup_insert_eq, ?lookup_insert_ne, ?lookup_delete_eq, ?lookup_delete_ne by done; done.
Qed.

Lemma prefixes_apart a b :
  ModelSwitch.MODEL_PREF_PREFIX +:+ a ≠ PersonaSwitch.PERSONA_PREF_PREFIX +:+ b.
Proof. done. Qed.

Lemma other_pref k prefix c : is_pref k = false → prefix = ModelSwitch.MODEL_PREF_PREFIX ∨ prefix = PersonaSwitch.PERSONA_PREF_PREFIX →
  k ≠ prefix +:+ c.
Proof.
  unfold is_pref, starts_with. intros [Hm Hp]%orb_false_iff [->| ->] ->; [rewrite prefix_app in Hm|rewrite prefix_app in Hp]; done.
Qed.

(** What the memory does with the facts, the stores follow. *)
Lemma remembered_step (f : LongTermMemory F X → W → LongTermMemory F X * W) self1 ltm w self' w' :
  Telegram.memory self1 = Some ltm → in_step storage_path entries_of_json ltm w →
  Telegram.with_memory f self1 w = (self', w') →
  (∀ ltm' w', f ltm w = (ltm', w') → in_step storage_path entries_of_json ltm' w' ∧
     (∀ k, Telegram.model_overrides self1 !! k = model_pref (facts (entries ltm')) k) ∧
     (∀ k, Telegram.persona_overrides self1 !! k = persona_pref (facts (entries ltm')) k)) →
  remembered self' w'.
Proof.
  intros Hm Hin Hw Hf. destruct (with_memory_some _ _ _ _ _ _ Hm Hw) as (ltm' & Hl & Hm').
  destruct (with_memory_overrides _ _ _ _ _ Hw) as [Ho Hp]. destruct (Hf _ _ Hl) as (Hin' & Hmo & Hpe).
  exists ltm'. split; [done|]. split; [done|]. by rewrite Ho, Hp.
Qed.

Lemma model_set_remembered text k ov now self w self' w' :
  remembered self w → ModelSwitch.parse_model_command text = Some (ModelSwitch.Set_ ov) →
  rejected (ModelSwitch.override_value ov) = false →
  Telegram.with_memory (λ ltm w, ModelSwitch.persist_single storage_path storage_dir entries_json k ov ltm w now)
    (Telegram.set_models (insert k ov) self) w = (self', w') →
  remembered self' w'.
Proof.
  intros (ltm & Hmem & Hin & Hmo & Hpe) Hc Hv Hw.
  eapply remembered_step; [|exact Hin|exact Hw|]; [exact Hmem|]. intros ltm' w1 Hf.
  apply persist_in_step in Hf as [Hin' ->]; [|exact Hin|exact Hv]. split; [exact Hin'|].
  split; intros c; cbn [Telegram.set_models Telegram.model_overrides Telegram.persona_overrides].
  - unfold model_pref. rewrite pref_insert, (parse_model_value _ _ Hc).
    case_decide as Hd; [rewrite Hd; apply lookup_insert_eq|]. rewrite lookup_insert_ne by exact Hd. apply Hmo.
  - rewrite Hpe. symmetry. apply pref_other. intros x. apply lookup_insert_ne, prefixes_apart.
Qed.

Lemma model_reset_remembered k self w self' w' :
  remembered self w →
  Telegram.with_memory (ModelSwitch.remove_single storage_path storage_dir entries_json k)
    (Telegram.set_models (base.delete k) self) w = (self', w') →
  remembered self' w'.
Proof.
  intros (ltm & Hmem & Hin & Hmo & Hpe) Hw.
  eapply remembered_step; [|exact Hin|exact Hw|]; [exact Hmem|]. intros ltm' w1 Hf.
  apply forget_in_step in Hf as [Hin' ->]; [|exact Hin]. split; [exact Hin'|].
  split; intros c; cbn [Telegram.set_models Telegram.model_overrides Telegram.persona_overrides].
  - unfold model_pref. rewrite pref_delete.
    case_decide as Hd; [rewrite Hd; apply lookup_delete_eq|]. rewrite lookup_delete_ne by exact Hd. apply Hmo.
  - rewrite Hpe. symmetry. apply pref_other. intros x. apply lookup_delete_ne, prefixes_apart.
Qed.

Lemma persona_set_remembered text k v now self w self' w' :
  remembered self w → PersonaSwitch.parse_persona_command text = Some (PersonaSwitch.Set_ v) → rejected v = false →
  Telegram.with_memory (λ ltm w, PersonaSwitch.persist_single storage_path storage_dir entries_json k v ltm w now)
    (Telegram.set_personas (insert k v) self) w = (self', w') →
  remembered self' w'.
Proof.
  intros (ltm & Hmem & Hin & Hmo & Hpe) Hc Hv Hw.
  eapply remembered_step; [|exact Hin|exact Hw|]; [exact Hmem|]. intros ltm' w1 Hf.
  apply persist_in_step in Hf as [Hin' ->]; [|exact Hin|exact Hv]. split; [exact Hin'|].
  split; intros c; cbn [Telegram.set_personas Telegram.model_overrides Telegram.persona_overrides].
  - rewrite Hmo. symmetry. apply pref_other. intros x. apply lookup_insert_ne, not_eq_sym, prefixes_apart.
  - unfold persona_pref. rewrite pref_insert, (parse_persona_value _ _ Hc).
    case_decide as Hd; [rewrite Hd; apply lookup_insert_eq|]. rewrite lookup_insert_ne by exact Hd. apply Hpe.
Qed.

Lemma persona_reset_remembered k self w self' w' :
  remembered self w →
  Telegram.with_memory (PersonaSwitch.remove_single storage_path storage_dir entries_json k)
    (Telegram.set_personas (base.delete k) self) w = (self', w') →
  remembered self' w'.
Proof.
  intros (ltm & Hmem & Hin & Hmo & Hpe) Hw.
  eapply remembered_step; [|exact Hin|exact Hw|]; [exact Hmem|]. intros ltm' w1 Hf.
  apply forget_in_step in Hf as [Hin' ->]; [|exact Hin]. split; [exact Hin'|].
  split; intros c; cbn [Telegram.set_personas Telegram.model_overrides Telegram.persona_overrides].
  - rewrite Hmo. symmetry. apply pref_other. intros x. apply lookup_delete_ne, not_eq_sym, prefixes_apart.
  - unfold persona_pref. rewrite pref_delete.
    case_decide as Hd; [rewrite Hd; apply lookup_delete_eq|]. rewrite lookup_delete_ne by exact Hd. apply Hpe.
Qed.

Lemma meanwhile_remembered fresh o self w self' w' :
  remembered self w → kept_op (Meanwhile o) → exec_switch fresh (self, w) (Meanwhile o) = (self', w') → remembered self' w'.
Proof.
  intros (ltm & Hmem & Hin & Hmo & Hpe) Hk Hw. cbn [exec_switch] in Hw.
  eapply remembered_step; [|exact Hin|exact Hw|]; [exact Hmem|]. intros ltm' w1 Hf.
  assert (finite_op o) as Hfin by (destruct o; try done; apply Hk).
  unfold LongTerm.exec_memory in Hf.
  destruct (step_memory storage_path storage_dir entries_json entries_of_json fresh (ltm, w) o) as [a st] eqn:Hstep.
  cbn [snd] in Hf. subst st.
  destruct (exec_in_step _ _ _ _ one_at_least _ _ _ _ _ _ _ Hin Hfin Hstep) as [Hin' Hst]. split; [exact Hin'|].
  assert (∀ prefix c, prefix = ModelSwitch.MODEL_PREF_PREFIX ∨ prefix = PersonaSwitch.PERSONA_PREF_PREFIX →
    facts (entries ltm') !! (prefix +:+ c) = facts (entries ltm) !! (prefix +:+ c)) as Hsame.
  { intros prefix c Hpre. destruct o; try done.
    - destruct Hk as [_ Hk]. rewrite (facts_after_set _ _ _ _ _ _ _ _ _ Hst). destruct (rejected _); [done|].
      apply lookup_insert_ne. by apply other_pref.
    - by rewrite (facts_after_get _ _ _ _ _ Hst).
    - rewrite (facts_after_delete _ _ _ _ Hst). apply lookup_delete_ne. by apply other_pref. }
  split; intros c; [rewrite Hmo|rewrite Hpe]; symmetry; apply pref_other; intros x; apply Hsame; auto.
Qed.

Lemma exec_switch_remembered fresh o self w self' w' :
  remembered self w → kept_op o → exec_switch fresh (self, w) o = (self', w') → remembered self' w'.
Proof.
  intros Hr Hk. destruct o as [text k now|o]; [|by apply meanwhile_remembered].
  destruct Hk as [Hkm Hkp]. cbn [exec_switch]. unfold Telegram.handle_text.
  destruct (ModelSwitch.parse_model_command text) as [cmd|] eqn:Hc.
  - destruct cmd as [|ov| | |]; cbn [Telegram.handle_model]; try (intros [= <- <-]; exact Hr);
      destruct (Telegram.with_memory _ _ _) as [s1 w1] eqn:Hw; intros [= <- <-].
    + eapply model_set_remembered; [exact Hr|exact Hc|by apply Hkm|exact Hw].
    + eapply model_reset_remembered; [exact Hr|exact Hw].
  - destruct (PersonaSwitch.parse_persona_command text) as [cmd|] eqn:Hcp; [|intros [= <- <-]; exact Hr].
    destruct cmd as [|v| |]; cbn [Telegram.handle_persona]; try (intros [= <- <-]; exact Hr);
      destruct (Telegram.with_memory _ _ _) as [s1 w1] eqn:Hw; intros [= <- <-].
    + eapply persona_set_remembered; [exact Hr|exact Hcp|by apply Hkp|exact Hw].
    + eapply persona_reset_remembered; [exact Hr|exact Hw].
Qed.

Lemma exec_switches fresh ops : ∀ self w self' w',
  remembered self w → Forall kept_op ops → foldl (exec_switch fresh) (self, w) ops = (self', w') → remembered self' w'.
Proof.
  induction ops as [|o ops IH]; intros self w self' w' Hr Hk; [by intros [= <- <-]|].
  apply Forall_cons in Hk as [Ho Hk]. cbn [foldl]. destruct (exec_switch fresh (self, w) o) as [s1 w1] eqn:He.
  apply IH; [|done]. by eapply exec_switch_remembered.
Qed.

Lemma exec_switches_overrides fresh ops : ∀ self w self' w',
  foldl (exec_switch fresh) (self, w) ops = (self', w') →
  (∀ k, Telegram.model_overrides self' !! k = foldl (model_after k) (Telegram.model_overrides self !! k) ops) ∧
  (∀ k, Telegram.persona_overrides self' !! k = foldl (persona_after k) (Telegram.persona_overrides self !! k) ops).
Proof.
  induction ops as [|o ops IH]; intros self w self' w'; [by intros [= <- <-]|]. cbn [foldl].
  destruct (exec_switch fresh (self, w) o) as [s1 w1] eqn:He. apply exec_switch_overrides in He as [Hm Hp].
  intros [Hm' Hp']%IH. split; intros k; [rewrite Hm', Hm|rewrite Hp', Hp]; done.
Qed.

Lemma start_remembered (ltm : LongTermMemory F X) w :
  in_step storage_path entries_of_json ltm w → remembered (Telegram.start (Telegram.mkTelegram ∅ ∅ (Some ltm))) w.
Proof.
  intros Hin. exists ltm. split; [done|]. split; [done|]. destruct Hin as [Hs _].
  cbn [Telegram.start Telegram.memory Telegram.model_overrides Telegram.persona_overrides].
  unfold ModelSwitch.hydrate_overrides, PersonaSwitch.hydrate_overrides.
  split; intros k; rewrite hydrate_lookup by done; rewrite lookup_empty; unfold model_pref, persona_pref; by destruct (pref _ _ _ _ _).
Qed.

End proofs.

(** ** Examples *)

Module Example_switches.
Import Example_memory.

Notation exec := (exec_switch path dir to_json of_json "gpt-5.4" ["openai"] [("local", "phi"); ("acme", "one"); ("local", "qwen")] tt).

Definition commands : list (SwitchOp (F := weight)) :=
  [Text "/model anthropic:claude-opus-4-6" "7" 0; Text "hello" "7" 1; Text "/model llama3.3:latest" "7:2" 2;
   Text "/persona concise" "7" 3; Meanwhile (MSet "user:name" "Alice" PINNED [] f_one 4);
   Text "/persona reset" "7:2" 5; Text "/model gpt-5.4-mini" "8" 6; Text "/model reset" "8" 7].

Definition idle : Telegram.t weight unit := Telegram.mkTelegram ∅ ∅ (Some no_entries).

Definition after_commands := foldl exec (Telegram.start idle, None) commands.

Example metadata_of_chats :
  Telegram.override_metadata (fst after_commands) "7"
    = [("model_override", "claude-opus-4-6"); ("provider_override", "anthropic"); ("persona_override", "concise")] ∧
  Telegram.override_metadata (fst after_commands) "7:2" = [("model_override", "llama3.3:latest")] ∧
  Telegram.override_metadata (fst after_commands) "8" = [].
Proof. vm_compute. repeat split. Qed.

Lemma commands_kept : Forall kept_op commands.
Proof.
  assert (∀ text k now, match ModelSwitch.parse_model_command text with
      | Some (ModelSwitch.Set_ ov) => negb (rejected (ModelSwitch.override_value ov)) | _ => true end &&
    match PersonaSwitch.parse_persona_command text with
      | Some (PersonaSwitch.Set_ v) => negb (rejected v) | _ => true end = true → kept_op (F := weight) (Text text k now)) as Ht.
  { intros text k now [Hm Hp]%andb_true_iff. split; intros x Hx; rewrite Hx in *; by apply negb_true_iff. }
  repeat (apply Forall_cons; split; [first [apply Ht; vm_compute; reflexivity|vm_compute; split; reflexivity]|]).
  constructor.
Qed.


(** A persona that reads like an injection is in use, and forgotten by the next start. *)
Example persona_not_kept :
  let '(h, self, w) := Telegram.handle_text path dir to_json "gpt-5.4" [] [] "/persona act as a pirate" "7" 0 idle None in
  h = Telegram.Answered "Switched to persona: act as a pirate" ∧
  Telegram.override_metadata self "7" = [("persona_override", "act as a pirate")] ∧ w = None.
Proof. vm_compute. repeat split. Qed.

(** A provider whose configured models are not next to each other is listed twice. *)
Example provider_listed_twice :
  ModelSwitch.extra_providers [("local", "phi"); ("acme", "one"); ("local", "qwen")] = ["local"; "acme"; "local"].
Proof. vm_compute. reflexivity. Qed.

Example shown :
  ModelSwitch.format_current_model (Some (mkModelOverride None "llama3.3")) "gpt-5.4" = "Current: auto:llama3.3 (override)
Default: gpt-5.4" ∧
  ModelSwitch.parse_model_command "/models" = None ∧
  ModelSwitch.parse_model_command " /model  list " = Some ModelSwitch.List.
Proof. vm_compute. repeat split. Qed.
End Example_switches.
