(* ===== verification/Manager.v ===== *)
(** The channel manager: src/src/channels/manager.rs over the trait of src/src/channels/types.rs.

    Channels live in a world that their own tasks change at any time; the manager starts
    and stops them, gives them the outbound messages, and supervises them. The supervisor
    is a machine whose steps are what happens between two awaits, so that everything else
    can happen in between. Time is in nanoseconds. *)

From S2P Require Import Prelude Text Errors Bus Health.

Definition SUPERVISOR_POLL_SECS : Z := 15.
Definition SUPERVISOR_COOLDOWN_SECS : Z := 60.
Definition SUPERVISOR_MAX_RESTARTS : Z := 5.

(** ** Channels *)

Record BaseChannelConfig : Type := mkBaseChannelConfig {
  base_name : string;
  allowlist : list string;
  deny_by_default : bool;
}.

Definition is_allowed (self : BaseChannelConfig) (user_id : string) : bool :=
  match allowlist self with
  | [] => negb (deny_by_default self)
  | l => bool_decide (user_id ∈ l)
  end.

(** The trait, for channels that are numbers into a world [W], and the clock. *)
Class Channel (W : Type) := {
  start : nat → W → result ZeptoError unit * W;
  stop : nat → W → result ZeptoError unit * W;
  send_to : nat → OutboundMessage → W → result ZeptoError unit * W;
  is_running : nat → W → bool;
  now : W → Z;
}.

Class ChannelLaws (W : Type) `{Channel W} := {
  start_clock c (w : W) : now w <= now (snd (start c w));
  stop_clock c (w : W) : now w <= now (snd (stop c w));
  send_clock c m (w : W) : now w <= now (snd (send_to c m w));
}.

(** ** The supervisor *)

Record SupervisorEntry : Type := mkSupervisorEntry {
  restarts : Z;
  last_restart : option Z;
  started : bool;
}.

(** Where the loop is: between polls, before the next channel of the snapshot, or before the
    restart it decided on. *)
Inductive Phase : Type :=
| Waiting
| Polling (snapshot : list (string * nat))
| Restarting (n : string) (c : nat) (snapshot : list (string * nat)).

Record Supervisor : Type := mkSupervisor {
  sv_entries : gmap string SupervisorEntry;
  phase : Phase;
}.

Module Supervisor.
Section steps.
Context `{Channel W} `{MapOrder SupervisorEntry}.
Implicit Types (self : Supervisor) (channels : gmap string nat) (w : W) (health : option HealthRegistry).

(** [start_supervisor], with the channels that started. *)
Definition new (started_channels : list string) : Supervisor :=
  mkSupervisor (foldl (λ es n, <[n := mkSupervisorEntry 0 None true]> es) ∅ started_channels) Waiting.

(** The poll interval is over, or the shutdown signal changed. *)
Definition wake self channels (shutdown : bool) : option Supervisor :=
  if shutdown then None
  else
    Some (mkSupervisor (sv_entries self)
      (Polling (omap (λ ne, (λ c, (fst ne, c)) <$> channels !! fst ne) (map_iter (sv_entries self))))).

(** Whether a channel is to be restarted. *)
Definition needs_restart (entry : SupervisorEntry) (running : bool) (now : Z) : bool :=
  started entry && negb running && (restarts entry <? SUPERVISOR_MAX_RESTARTS)
  && match last_restart entry with
     | Some last => negb ((now - last) / 10 ^ 9 <? SUPERVISOR_COOLDOWN_SECS)
     | None => true
     end.

Definition check self w : Supervisor :=
  match phase self with
  | Polling [] => mkSupervisor (sv_entries self) Waiting
  | Polling ((n, c) :: rest) =>
    match sv_entries self !! n with
    | Some entry =>
      if needs_restart entry (is_running c w) (now w) then mkSupervisor (sv_entries self) (Restarting n c rest)
      else mkSupervisor (sv_entries self) (Polling rest)
    | None => mkSupervisor (sv_entries self) (Polling rest)
    end
  | _ => self
  end.

Definition on_health (f : HealthRegistry → HealthRegistry) health : option HealthRegistry := f <$> health.

Definition gave_up : string := "exceeded max restarts (" +:+ fmt_Z SUPERVISOR_MAX_RESTARTS +:+ ")".

Definition report health (n : string) (restart_ok : bool) (count : Z) : option HealthRegistry :=
  let health :=
    if restart_ok then on_health (λ r, HealthRegistry.bump_restart (HealthRegistry.update r n Healthy None) n) health
    else on_health (λ r, HealthRegistry.bump_restart r n) health in
  if SUPERVISOR_MAX_RESTARTS <=? count then on_health (λ r, HealthRegistry.set_error r n gave_up) health else health.

Definition restart self w health : Supervisor * W * option HealthRegistry :=
  match phase self with
  | Restarting n c rest =>
    let '(_, w) := stop c w in
    let '(r, w) := start c w in
    let restart_ok := match r with Ok _ => true | Err _ => false end in
    let entry := default (mkSupervisorEntry 0 None true) (sv_entries self !! n) in
    let entry := mkSupervisorEntry (restarts entry + 1) (Some (now w)) (started entry) in
    (mkSupervisor (<[n := entry]> (sv_entries self)) (Polling rest), w, report health n restart_ok (restarts entry))
  | _ => (self, w, health)
  end.
End steps.
End Supervisor.

(** ** The manager *)

Record ChannelManager : Type := mkChannelManager {
  channels : gmap string nat;
  dispatcher_running : bool;
  supervisors : list Supervisor;
  shutdown : bool;
  health_registry : option HealthRegistry;
}.

Module ChannelManager.
Section methods.
Context `{Channel W} `{MapOrder SupervisorEntry} `{MapOrder nat}.
Implicit Types (self : ChannelManager) (w : W).

Definition new : ChannelManager := mkChannelManager ∅ false [] false None.

Definition set_health_registry self (r : HealthRegistry) : ChannelManager :=
  mkChannelManager (channels self) (dispatcher_running self) (supervisors self) (shutdown self) (Some r).

Definition register self (n : string) (c : nat) : ChannelManager :=
  mkChannelManager (<[n := c]> (channels self)) (dispatcher_running self) (supervisors self) (shutdown self)
    (health_registry self).

Definition channel_count self : nat := size (channels self).
Definition has_channel self (n : string) : bool := bool_decide (is_Some (channels self !! n)).

(** Those that start, in the order of the iteration. *)
Fixpoint start_each (cs : list (string * nat)) w : list string * W :=
  match cs with
  | [] => ([], w)
  | (n, c) :: cs =>
    match start c w with
    | (Err _, w) => start_each cs w
    | (Ok _, w) => let '(ns, w) := start_each cs w in (n :: ns, w)
    end
  end.

Definition register_started (r : HealthRegistry) (ns : list string) : HealthRegistry :=
  foldl (λ r n, HealthRegistry.register r
    (mkHealthCheck n Healthy (message HealthCheck_default) (restart_count HealthCheck_default) (last_error HealthCheck_default)))
    r ns.

Definition start_all self w : ChannelManager * W :=
  if dispatcher_running self then (self, w)
  else
    let '(ns, w) := start_each (map_iter (channels self)) w in
    (mkChannelManager (channels self) true (Supervisor.new ns :: supervisors self) false
       ((λ r, register_started r ns) <$> health_registry self), w).

Definition stop_each (cs : list (string * nat)) w : W := foldl (λ w nc, snd (stop (snd nc) w)) w cs.

(** The signal, and after the waits for both tasks, which have a limit, all channels stop. A
    task that takes longer goes on. *)
Definition stop_all self w : ChannelManager * W :=
  (mkChannelManager (channels self) false (supervisors self) true (health_registry self),
   stop_each (map_iter (channels self)) w).

Definition send self (n : string) (msg : OutboundMessage) w : result ZeptoError unit * W :=
  let c :=
    match channels self !! n with
    | Some c => Some c
    | None =>
      if String.eqb n "whatsapp" then channels self !! "whatsapp_web"
      else if String.eqb n "whatsapp_web" then channels self !! "whatsapp" else None
    end in
  match c with Some c => send_to c msg w | None => (Ok tt, w) end.

(** What the dispatcher does with a message. *)
Definition dispatch_outbound self (msg : OutboundMessage) w : W :=
  match channels self !! out_channel msg with
  | Some c => snd (send_to c msg w)
  | None => w
  end.
End methods.
End ChannelManager.

(** ** Histories of a supervisor *)

(** [Found]: a channel that is not running in this world is to be restarted; [Restarted]: it
    was, at this time. *)
Inductive Event (W : Type) : Type :=
| Found (n : string) (c : nat) (w : W)
| Restarted (n : string) (c : nat) (at_ : Z).
Arguments Found {W} _ _ _.
Arguments Restarted {W} _ _ _.

Section histories.
Context `{Channel W} `{MapOrder SupervisorEntry}.
Implicit Types (L : list (Event W)) (w : W).

Notation state := (Supervisor * gmap string nat * W * option HealthRegistry)%type.

(** What the supervisor does next, and what everybody else can do before. *)
Inductive sv_step : state → list (Event W) → state → Prop :=
| step_others sv chs w h chs' w' h' :
    now w <= now w' → sv_step (sv, chs, w, h) [] (sv, chs', w', h')
| step_wake sv chs w h sd sv' :
    phase sv = Waiting → Supervisor.wake sv chs sd = Some sv' → sv_step (sv, chs, w, h) [] (sv', chs, w, h)
| step_pass sv chs w h :
    (∀ n c rest, phase (Supervisor.check sv w) ≠ Restarting n c rest) →
    sv_step (sv, chs, w, h) [] (Supervisor.check sv w, chs, w, h)
| step_found sv chs w h n c rest rest' :
    phase sv = Polling rest → phase (Supervisor.check sv w) = Restarting n c rest' →
    sv_step (sv, chs, w, h) [Found n c w] (Supervisor.check sv w, chs, w, h)
| step_restart sv chs w h n c rest sv' w' h' :
    phase sv = Restarting n c rest → Supervisor.restart sv w h = (sv', w', h') →
    sv_step (sv, chs, w, h) [Restarted n c (now w')] (sv', chs, w', h').

(** Logs have the latest event first. *)
Inductive sv_run (st : state) : list (Event W) → state → Prop :=
| run_start : sv_run st [] st
| run_step L st1 es st2 : sv_run st L st1 → sv_step st1 es st2 → sv_run st (es ++ L) st2.

Definition restarted_at (n : string) (e : Event W) : option Z :=
  match e with Restarted n' _ t => if String.eqb n' n then Some t else None | _ => None end.

(** The times of the restarts of a channel, the latest first. *)
Definition restarts_of (n : string) L : list Z := omap (restarted_at n) L.

(** A log in which every restart follows a sight of the dead channel, fewer than the limit
    after the cooldown. *)
Definition due (n : string) L w : Prop :=
  Z.of_nat (length (restarts_of n L)) < SUPERVISOR_MAX_RESTARTS ∧
  ∀ last, head (restarts_of n L) = Some last → last + SUPERVISOR_COOLDOWN_SECS * 10 ^ 9 <= now w.

Inductive supervised (ns : list string) : list (Event W) → Prop :=
| supervised_nil : supervised ns []
| supervised_found n c w L :
    supervised ns L → n ∈ ns → is_running c w = false → due n L w → supervised ns (Found n c w :: L)
| supervised_restarted n c w t L :
    supervised ns (Found n c w :: L) → now w <= t → supervised ns (Restarted n c t :: Found n c w :: L).

Lemma needs_restart_due (n : string) L w entry (running : bool) :
  started entry = true → restarts entry = Z.of_nat (length (restarts_of n L)) → last_restart entry = head (restarts_of n L) →
  Supervisor.needs_restart entry running (now w) = true ↔ running = false ∧ due n L w.
Proof.
  intros Hs Hr Hl. unfold Supervisor.needs_restart, due, SUPERVISOR_COOLDOWN_SECS. rewrite Hs, Hr, Hl, !andb_true_iff, Z.ltb_lt, negb_true_iff.
  destruct (head (restarts_of n L)) as [last|]; cbn [andb].
  - rewrite negb_true_iff, Z.ltb_ge. split.
    + intros [[[_ ?] ?] Hd]. split_and!; [done..|]. intros ? [= <-].
      pose proof (Z.mul_div_le (now w - last) (10 ^ 9)). lia.
    + intros (? & ? & Hd). split_and!; [done..|]. specialize (Hd last eq_refl). apply Z.div_le_lower_bound; lia.
  - split; [|naive_solver]. intros [[[_ ?] ?] _]. split_and!; done.
Qed.

(** The entries say what the log says, and a restart is announced. *)
Definition sv_ok (ns : list string) L (st : state) : Prop :=
  let '(sv, _, w, _) := st in
  supervised ns L ∧
  (∀ n, n ∈ ns ↔ is_Some (sv_entries sv !! n)) ∧
  (∀ n entry, sv_entries sv !! n = Some entry →
     started entry = true ∧ restarts entry = Z.of_nat (length (restarts_of n L)) ∧
     last_restart entry = head (restarts_of n L)) ∧
  (∀ n c rest, phase sv = Restarting n c rest → ∃ w0 L', L = Found n c w0 :: L' ∧ now w0 <= now w) ∧
  (∀ n t, t ∈ restarts_of n L → t <= now w).

Context `{!ChannelLaws W}.

Lemma check_cases sv w :
  sv_entries (Supervisor.check sv w) = sv_entries sv ∧
  (phase (Supervisor.check sv w) = Waiting ∨
   (∃ rest, phase (Supervisor.check sv w) = Polling rest) ∨
   phase (Supervisor.check sv w) = phase sv ∨
   ∃ n c rest entry, phase sv = Polling ((n, c) :: rest) ∧ phase (Supervisor.check sv w) = Restarting n c rest ∧
     sv_entries sv !! n = Some entry ∧ Supervisor.needs_restart entry (is_running c w) (now w) = true).
Proof.
  unfold Supervisor.check. destruct (phase sv) as [|[|[n c] rest]|n c rest] eqn:Hp; [by auto 6|by auto|..|by auto 6].
  destruct (sv_entries sv !! n) as [entry|] eqn:He; [|by eauto 6].
  destruct (Supervisor.needs_restart _ _ _) eqn:Hn; [|by eauto 6]. split; [done|]. do 3 right. by exists n, c, rest, entry.
Qed.

Lemma restarts_of_found n c w n' L : restarts_of n' (Found n c w :: L) = restarts_of n' L.
Proof. done. Qed.

Lemma restarts_of_restarted n c t n' L :
  restarts_of n' (Restarted n c t :: L) = if decide (n = n') then t :: restarts_of n' L else restarts_of n' L.
Proof.
  unfold restarts_of. cbn. destruct (String.eqb_spec n n') as [->|Hn]; [by rewrite decide_True|by rewrite decide_False].
Qed.

Lemma restart_cases sv w h n c rest sv' w' h' :
  phase sv = Restarting n c rest → Supervisor.restart sv w h = (sv', w', h') →
  now w <= now w' ∧ phase sv' = Polling rest ∧
  sv_entries sv' = (let entry := default (mkSupervisorEntry 0 None true) (sv_entries sv !! n) in
    <[n := mkSupervisorEntry (restarts entry + 1) (Some (now w')) (started entry)]> (sv_entries sv)).
Proof.
  intros Hp. unfold Supervisor.restart. rewrite Hp.
  pose proof (stop_clock c w) as Hst. destruct (stop c w) as [r1 w1]. cbn in Hst.
  pose proof (start_clock c w1) as Hsa. destruct (start c w1) as [r2 w2]. cbn in Hsa.
  intros [= <- <- <-]. cbn. split; [lia|done].
Qed.

Lemma sv_step_ok ns L st es st' : sv_ok ns L st → sv_step st es st' → sv_ok ns (es ++ L) st'.
Proof.
  intros Hok Hst. destruct Hst as [sv chs w h chs' w' h' Hw|sv chs w h sd sv' Hp Hwake|sv chs w h Hno|
    sv chs w h n c rest rest' Hp Hr|sv chs w h n c rest sv' w' h' Hp Hr]; destruct Hok as (Hs & Hns & He & Hph & Ht); cbn [app].
  - split_and!; [done..| |].
    + intros n c rest Hp. destruct (Hph n c rest Hp) as (w0 & L' & -> & ?). exists w0, L'. split; [done|lia].
    + intros n t Hin. specialize (Ht n t Hin). lia.
  - unfold Supervisor.wake in Hwake. destruct sd; [done|]. injection Hwake as <-. by split_and!.
  - destruct (check_cases sv w) as [Hen _]. split_and!; [done|by rewrite Hen..|naive_solver|done].
  - destruct (check_cases sv w) as [Hen [Hc|[[r Hc]|[Hc|(n' & c' & r & entry & Hp' & Hc & Hen' & Hneed)]]]]; [congruence..|].
    rewrite Hc in Hr. injection Hr as -> -> ->. destruct (He _ _ Hen') as (Hst & Hre & Hla).
    apply (needs_restart_due n L w entry _ Hst Hre Hla) in Hneed as [Hrun Hdue].
    split_and!; [|by rewrite Hen..| |done].
    + constructor; try done. apply Hns. by eexists.
    + intros n0 c0 r0. rewrite Hc. intros [= <- <- <-]. by exists w, L.
  - destruct (restart_cases _ _ _ _ _ _ _ _ _ Hp Hr) as (Hw & Hp' & Hen'). destruct (Hph n c rest Hp) as (w0 & L' & -> & Hw0).
    assert (n ∈ ns) as Hn by (by inversion Hs). destruct (proj1 (Hns n) Hn) as [entry Hent].
    rewrite Hent in Hen'. cbn [default] in Hen'. destruct (He _ _ Hent) as (Hsta & Hre & Hla).
    split_and!.
    + constructor; [done|lia].
    + intros n'. rewrite Hen', Hns. destruct (decide (n = n')) as [<-|Hne].
      * rewrite lookup_insert_eq, Hent. split; by eexists.
      * by rewrite lookup_insert_ne.
    + intros n' entry'. rewrite Hen', restarts_of_restarted. case_decide as Hne.
      * subst n'. rewrite lookup_insert_eq. intros [= <-]. cbn [restarts last_restart started length head]. rewrite Hre.
        split_and!; [done|lia|done].
      * rewrite lookup_insert_ne by done. apply He.
    + intros n0 c0 r0. by rewrite Hp'.
    + intros n' t. rewrite restarts_of_restarted. case_decide as Hne; [|intros Hin; specialize (Ht n' t Hin); lia].
      intros [->|Hin]%elem_of_cons; [done|]. specialize (Ht n' t Hin). lia.
Qed.

Lemma new_entries (ns : list string) : ∀ (es : gmap string SupervisorEntry) n,
  foldl (λ es n, <[n := mkSupervisorEntry 0 None true]> es) es ns !! n =
  if bool_decide (n ∈ ns) then Some (mkSupervisorEntry 0 None true) else es !! n.
Proof.
  induction ns as [|n' ns IH]; intros es n; cbn [foldl]; [done|]. rewrite IH.
  destruct (decide (n ∈ ns)) as [Hin|Hin]; [by rewrite !bool_decide_eq_true_2 by set_solver|].
  rewrite (bool_decide_eq_false_2 _ Hin). destruct (decide (n = n')) as [->|Hn].
  - by rewrite lookup_insert_eq, bool_decide_eq_true_2 by set_solver.
  - by rewrite lookup_insert_ne, bool_decide_eq_false_2 by set_solver.
Qed.

Lemma sv_new_ok ns chs w h : sv_ok ns [] (Supervisor.new ns, chs, w, h).
Proof.
  unfold sv_ok. split; [constructor|]. split; [|split; [|split; [done|by intros ? ? ?%elem_of_nil]]];
    cbn [sv_entries Supervisor.new]; intros n.
  - rewrite new_entries, lookup_empty. case_bool_decide; naive_solver.
  - intros entry. rewrite new_entries, lookup_empty. case_bool_decide; [|done]. by intros [= <-].
Qed.

Lemma sv_run_ok ns chs w h L st : sv_run (Supervisor.new ns, chs, w, h) L st → sv_ok ns L st.
Proof. induction 1 as [|L st1 es st2 _ IH Hst]; [apply sv_new_ok|by eapply sv_step_ok]. Qed.

Lemma supervised_spaced ns L : supervised ns L → ∀ n,
  (length (restarts_of n L) <= 5)%nat ∧
  Sorted (λ t t', t' + SUPERVISOR_COOLDOWN_SECS * 10 ^ 9 <= t) (restarts_of n L).
Proof.
  induction 1 as [|n c w L Hs IH Hn Hr Hd|n c w t L Hs IH Hw]; intros n'; [split; [cbn; lia|constructor]|apply IH|].
  rewrite restarts_of_restarted. specialize (IH n') as [Hle Hso]. rewrite restarts_of_found in *.
  case_decide as Hn; [subst n'|done].
  assert (due n L w) as [Hlt Hla] by (by inversion Hs). unfold SUPERVISOR_MAX_RESTARTS in Hlt.
  split; [cbn [length]; lia|]. constructor; [done|].
  destruct (restarts_of n L) as [|last ts]; constructor. specialize (Hla last eq_refl). lia.
Qed.

(** C31: whatever channels, other tasks and the shutdown do in between, a supervisor restarts
    only a channel that was started with it and that it saw dead, a channel at most five
    times in its life, and again no earlier than 60 seconds after the last restart; and when
    its poll comes to a channel of which all this holds, it does restart it. *)
Theorem supervisor_histories ns chs0 w0 h0 L sv chs w h :
  sv_run (Supervisor.new ns, chs0, w0, h0) L (sv, chs, w, h) →
  supervised ns L ∧
  (∀ n, (length (restarts_of n L) <= 5)%nat ∧
        Sorted (λ t t', t' + SUPERVISOR_COOLDOWN_SECS * 10 ^ 9 <= t) (restarts_of n L)) ∧
  ∀ n c rest, phase sv = Polling ((n, c) :: rest) →
    (phase (Supervisor.check sv w) = Restarting n c rest ↔ n ∈ ns ∧ is_running c w = false ∧ due n L w).
Proof.
  intros (Hs & Hns & He & _)%sv_run_ok. split; [done|]. split; [by eapply supervised_spaced|].
  intros n c rest Hp. unfold Supervisor.check. rewrite Hp, Hns.
  destruct (sv_entries sv !! n) as [entry|] eqn:Hen; [|split; [done|by intros [[] _]]].
  destruct (He _ _ Hen) as (Hst & Hre & Hla).
  rewrite <- (needs_restart_due n L w entry (is_running c w) Hst Hre Hla).
  destruct (Supervisor.needs_restart _ _ _); cbn; split; try done; intros [_ ?]; done.
Qed.

(** The last restart is reported as a failure, whether or not the channel started. *)
Lemma report_status r n check restart_ok count :
  checks r !! n = Some check →
  ∃ check', (λ r, checks r !! n) <$> Supervisor.report (Some r) n restart_ok count = Some (Some check') ∧
    status check' = (if SUPERVISOR_MAX_RESTARTS <=? count then Down
                     else if restart_ok then Healthy else status check) ∧
    restart_count check' = wadd64 (restart_count check) 1.
Proof.
  intros Hc. unfold Supervisor.report, Supervisor.on_health.
  destruct restart_ok, (SUPERVISOR_MAX_RESTARTS <=? count); cbn -[wadd64];
    rewrite !lookup_alter_eq, Hc; cbn -[wadd64]; by eexists.
Qed.
End histories.

(** ** Messages *)

Section messages.
Context `{Channel W} `{MapOrder SupervisorEntry} `{MapOrder nat}.

(** The messages of a run of the dispatcher are given, in their order, to the channels
    registered under their names, and dropped where there is none. *)
Lemma dispatch_run (self : ChannelManager) (msgs : list OutboundMessage) : ∀ (w : W),
  foldl (λ w m, ChannelManager.dispatch_outbound self m w) w msgs =
  foldl (λ w cm, snd (send_to (fst cm) (snd cm) w)) w
    (omap (λ m, (λ c, (c, m)) <$> channels self !! out_channel m) msgs).
Proof.
  induction msgs as [|m msgs IH]; intros w; [done|]. cbn [foldl]. rewrite IH. unfold ChannelManager.dispatch_outbound.
  cbn [omap list_omap]. by destruct (channels self !! out_channel m).
Qed.

Lemma start_each_started (cs : list (string * nat)) : ∀ (w : W) ns w',
  ChannelManager.start_each cs w = (ns, w') → ns `sublist_of` map fst cs.
Proof.
  induction cs as [|[n c] cs IH]; intros w ns w'; cbn [ChannelManager.start_each map]; [by intros [= <- <-]|].
  destruct (start c w) as [[u|e] w1].
  - destruct (ChannelManager.start_each cs w1) as [l w2] eqn:Hs. intros [= <- <-]. apply sublist_skip. by eapply IH.
  - intros Hs. apply sublist_cons. by eapply IH.
Qed.
End messages.

(** ** Examples *)

Module Example_manager.
(** The clock, the running channels, and what each was given; channel 9 never starts. *)
Notation world := (Z * list nat * list (nat * OutboundMessage))%type.

#[export] Instance scripted : Channel world := {|
  start c w := let '(t, up, sent) := w in
    if Nat.eqb c 9 then (Err (Config "no token"), (t + 10 ^ 9, up, sent)) else (Ok tt, (t + 10 ^ 9, c :: up, sent));
  stop c w := let '(t, up, sent) := w in (Ok tt, (t, List.filter (λ d, negb (Nat.eqb d c)) up, sent));
  send_to c m w := let '(t, up, sent) := w in (Ok tt, (t, up, sent ++ [(c, m)]));
  is_running c w := existsb (Nat.eqb c) (snd (fst w));
  now w := fst (fst w);
|}.

#[export] Instance scripted_laws : ChannelLaws world.
Proof. split; intros c; [|intros [[t up] sent]; cbn; lia|intros m [[t up] sent]; cbn; lia]. intros [[t up] sent]. cbn. destruct (Nat.eqb c 9); cbn; lia. Qed.

#[export] Instance entry_order : MapOrder SupervisorEntry :=
  {| map_iter m := map_to_list m; map_iter_list m := reflexivity _ |}.
#[export] Instance channel_order : MapOrder nat :=
  {| map_iter m := map_to_list m; map_iter_list m := reflexivity _ |}.

Definition two : ChannelManager :=
  ChannelManager.register (ChannelManager.register
    (ChannelManager.set_health_registry ChannelManager.new (HealthRegistry.new 0)) "telegram" 1) "discord" 9.

Definition started_two : ChannelManager * world := ChannelManager.start_all two (0, [], []).

Example only_started_supervised :
  map fst (map_to_list (sv_entries (default (Supervisor.new []) (head (supervisors (fst started_two)))))) = ["telegram"].
Proof. vm_compute. reflexivity. Qed.

Definition sv0 : Supervisor := Supervisor.new ["telegram"].
Definition chs : gmap string nat := channels two.
Definition dead : world := (70 * 10 ^ 9, [], []).
Definition sv1 : Supervisor := default sv0 (Supervisor.wake sv0 chs false).
Definition sv2 : Supervisor := Supervisor.check sv1 dead.

Lemma supervisor_histories_witness :
  ∃ sv3 w3, Supervisor.restart sv2 dead None = (sv3, w3, None) ∧
  sv_run (Supervisor.new ["telegram"], chs, dead, None) [Restarted "telegram" 1 (now w3); Found "telegram" 1 dead]
    (sv3, chs, w3, None) ∧
  restarts_of (W := world) "telegram" [Restarted "telegram" 1 (now w3); Found "telegram" 1 dead] = [71 * 10 ^ 9] ∧
  supervised ["telegram"] [Restarted "telegram" 1 (now w3); Found "telegram" 1 dead].
Proof.
  destruct (Supervisor.restart sv2 dead None) as [[sv3 w3] h3] eqn:Hr.
  assert (h3 = None) as -> by (vm_compute in Hr; congruence).
  assert (sv_run (Supervisor.new ["telegram"], chs, dead, None) [Restarted "telegram" 1 (now w3); Found "telegram" 1 dead]
    (sv3, chs, w3, None)) as Hrun.
  { eapply (run_step _ [Found "telegram" 1%nat dead] _ [_]).
    - eapply (run_step _ [] _ [_]).
      + eapply (run_step _ [] _ []); [constructor|]. by apply (step_wake sv0 chs dead None false sv1).
      + by apply (step_found sv1 chs dead None "telegram" 1 [("telegram", 1%nat)] []).
    - by apply (step_restart sv2 chs dead None "telegram" 1 [] sv3 w3 None). }
  exists sv3, w3. split; [done|]. split; [exact Hrun|]. split; [vm_compute in Hr; injection Hr as <- <-; reflexivity|].
  by destruct (supervisor_histories _ _ _ _ _ _ _ _ _ Hrun) as [Hs _].
Defined.

(** The fifth restart succeeds, and the channel, which runs, is reported to be down for good. *)
Example fifth_restart_down :
  let r := HealthRegistry.register (HealthRegistry.new 0) (mkHealthCheck "telegram" Healthy None 4 None) in
  (λ r, (HealthRegistry.is_ready r, status <$> checks r !! "telegram")) <$> Supervisor.report (Some r) "telegram" true 5
    = Some (false, Some Down).
Proof. vm_compute. reflexivity. Qed.

(** A stop that does not wait for a poll in progress: the supervisor restarts what was stopped. *)
Example restarted_after_stop :
  let up := (70 * 10 ^ 9, [1%nat], []) : world in
  let '(stopped, w) := ChannelManager.stop_all (mkChannelManager chs true [sv1] false None) up in
  let '(sv, w', _) := Supervisor.restart (Supervisor.check sv1 w) w None in
  (shutdown stopped, is_running 1 w, is_running 1 w') = (true, false, true).
Proof. vm_compute. reflexivity. Qed.

(** [send] knows the two names of WhatsApp, the dispatcher does not. *)
Example whatsapp_dropped :
  let m := OutboundMessage.new "whatsapp" "7" "hello" in
  let self := ChannelManager.register ChannelManager.new "whatsapp_web" 3 in
  length (snd (snd (ChannelManager.send self "whatsapp" m dead))) = 1%nat ∧
  snd (ChannelManager.dispatch_outbound self m dead) = [].
Proof. vm_compute. split; reflexivity. Qed.
End Example_manager.
