(* ===== verification/Web.v ===== *)
(** Requests to the web that the agent makes, and what keeps them away from private networks:
    src/src/tools/web.rs, src/src/tools/http_request.rs and the checks of
    src/src/skills/registry.rs.

    An IPv4 address is a number below 2^32, an IPv6 address a number below 2^128 of which
    the code looks at the eight segments. URLs, name resolution and the HTTP client are
    libraries: an interface with what their documentation says they do. *)

From S2P Require Import Prelude Text Errors Lines.

(** ** Addresses *)

Inductive IpAddr : Type := V4 (a : Z) | V6 (a : Z).

Definition valid (ip : IpAddr) : Prop :=
  match ip with V4 a => 0 <= a < 2 ^ 32 | V6 a => 0 <= a < 2 ^ 128 end.

(** [Ipv4Addr::new], [octets] and [segments]. *)
Definition ipv4_new (a b c d : Z) : Z := a * 2 ^ 24 + b * 2 ^ 16 + c * 2 ^ 8 + d.
Definition octet (a : Z) (i : Z) : Z := Z.land (Z.shiftr a (24 - 8 * i)) 255.
Definition segment (a : Z) (i : Z) : Z := Z.land (Z.shiftr a (112 - 16 * i)) 65535.

Definition is_private (a : Z) : bool :=
  (octet a 0 =? 10) || (octet a 0 =? 172) && (16 <=? octet a 1) && (octet a 1 <=? 31)
  || (octet a 0 =? 192) && (octet a 1 =? 168).
Definition is_loopback (a : Z) : bool := octet a 0 =? 127.
Definition is_link_local (a : Z) : bool := (octet a 0 =? 169) && (octet a 1 =? 254).
Definition is_broadcast (a : Z) : bool := a =? 2 ^ 32 - 1.
Definition is_documentation (a : Z) : bool :=
  (octet a 0 =? 192) && (octet a 1 =? 0) && (octet a 2 =? 2)
  || (octet a 0 =? 198) && (octet a 1 =? 51) && (octet a 2 =? 100)
  || (octet a 0 =? 203) && (octet a 1 =? 0) && (octet a 2 =? 113).
Definition is_unspecified (a : Z) : bool := a =? 0.

Definition is_private_or_local_ipv4 (a : Z) : bool :=
  is_private a || is_loopback a || is_link_local a || is_broadcast a || is_documentation a || is_unspecified a
  || (octet a 0 =? 0).

(** The address in two segments, as bytes. *)
Definition ipv4_of_segments (s t : Z) : Z :=
  ipv4_new (Z.land (Z.shiftr s 8) 255) (Z.land s 255) (Z.land (Z.shiftr t 8) 255) (Z.land t 255).

(** [!] of a [u16]. *)
Definition not16 (s : Z) : Z := Z.lxor s 65535.

Definition is_private_or_local_ipv6 (a : Z) : bool :=
  let seg := segment a in
  let first := seg 0 in
  if (a =? 1) || (a =? 0) || (Z.land first 65024 =? 64512) || (Z.land first 65472 =? 65152)
     || (Z.land first 65280 =? 65280) then true
  else if (seg 0 =? 0) && (seg 1 =? 0) && (seg 2 =? 0) && (seg 3 =? 0) && (seg 4 =? 0)
          && ((seg 5 =? 65535) || (seg 5 =? 0))
  then is_private_or_local_ipv4 (ipv4_of_segments (seg 6) (seg 7))
  else if (seg 0 =? 100) && (seg 1 =? 65435) && (seg 2 =? 0) && (seg 3 =? 0) && (seg 4 =? 0) && (seg 5 =? 0)
  then is_private_or_local_ipv4 (ipv4_of_segments (seg 6) (seg 7))
  else if first =? 8194
  then is_private_or_local_ipv4 (ipv4_of_segments (seg 1) (seg 2))
  else if (seg 0 =? 8193) && (seg 1 =? 0)
  then is_private_or_local_ipv4 (ipv4_of_segments (not16 (seg 6)) (not16 (seg 7)))
  else if ((seg 4 =? 0) || (seg 4 =? 512)) && (seg 5 =? 24318)
  then is_private_or_local_ipv4 (ipv4_of_segments (seg 6) (seg 7))
  else false.

Definition is_private_or_local_ip (ip : IpAddr) : bool :=
  match ip with V4 a => is_private_or_local_ipv4 a | V6 a => is_private_or_local_ipv6 a end.

(** *** Texts of addresses *)

Fixpoint split_by (sep : Ascii.ascii) (fuel : nat) (s : string) : list string :=
  match fuel with
  | O => [s]
  | S f => match split_once sep s with Some (x, y) => x :: split_by sep f y | None => [s] end
  end.

Definition split_all (sep : Ascii.ascii) (s : string) : list string := split_by sep (String.length s) s.

(** At most three digits below 256, without leading zeros. *)
Definition parse_octet (s : string) : option Z :=
  match s with
  | "" => None
  | String c (String _ _) => if Ascii.eqb c (Ascii.ascii_of_nat 48) then None else
      if Nat.leb (String.length s) 3 then n ← parse_digits 0 s; if Z.of_N n <? 256 then Some (Z.of_N n) else None else None
  | _ => Z.of_N <$> parse_digits 0 s
  end.

Definition parse_ipv4 (s : string) : option Z :=
  match map parse_octet (split_all (Ascii.ascii_of_nat 46) s) with
  | [Some a; Some b; Some c; Some d] => Some (ipv4_new a b c d)
  | _ => None
  end.

Definition hex_value (c : Ascii.ascii) : option Z :=
  let n := Z.of_N (byte_val c) in
  if (48 <=? n) && (n <=? 57) then Some (n - 48)
  else if (97 <=? n) && (n <=? 102) then Some (n - 87)
  else if (65 <=? n) && (n <=? 70) then Some (n - 55)
  else None.

Fixpoint parse_hex (acc : Z) (s : string) : option Z :=
  match s with
  | "" => Some acc
  | String c s => d ← hex_value c; parse_hex (acc * 16 + d) s
  end.

Definition parse_group (s : string) : option Z :=
  if str_is_empty s || Nat.ltb 4 (String.length s) then None else parse_hex 0 s.

(** Groups; the last may be an IPv4 address, which is two, if [ipv4]. *)
Fixpoint parse_groups (ipv4 : bool) (parts : list string) : option (list Z) :=
  match parts with
  | [] => Some []
  | [p] =>
    match parse_group p with
    | Some g => Some [g]
    | None => if ipv4 then a ← parse_ipv4 p; Some [Z.shiftr a 16; Z.land a 65535] else None
    end
  | p :: parts => g ← parse_group p; gs ← parse_groups ipv4 parts; Some (g :: gs)
  end.

Definition groups_of (ipv4 : bool) (s : string) : option (list Z) :=
  if str_is_empty s then Some [] else parse_groups ipv4 (split_all (Ascii.ascii_of_nat 58) s).

Definition ipv6_of_groups (gs : list Z) : Z := foldl (λ n g, n * 65536 + g) 0 gs.

Definition parse_ipv6 (s : string) : option Z :=
  match find_str s "::" with
  | Some i =>
    head ← groups_of false (str_take i s);
    tail ← groups_of true (str_drop (i + 2) s);
    let n := (length head + length tail)%nat in
    if Nat.leb n 7 then Some (ipv6_of_groups (head ++ repeat 0 (8 - n) ++ tail)) else None
  | None =>
    gs ← groups_of true s;
    if Nat.eqb (length gs) 8 then Some (ipv6_of_groups gs) else None
  end.

Definition parse_ip (s : string) : option IpAddr :=
  match parse_ipv4 s with Some a => Some (V4 a) | None => V6 <$> parse_ipv6 s end.

Example texts :
  map parse_ip ["127.0.0.1"; "1.2.3"; "01.2.3.4"; "::1"; "::ffff:10.0.0.1"; "1::2::3"; "[::1]"; "fe80::"]
  = [Some (V4 2130706433); None; None; Some (V6 1); Some (V6 281470849515521); None; None;
     Some (V6 338288524927261089654018896841347694592)].
Proof. vm_compute. reflexivity. Qed.

(** *** Which addresses are refused *)

(** An address and a length in bits, and the addresses that begin with them. *)
Definition in_block (a : Z) (b : Z * Z) : Prop := a / 2 ^ (32 - snd b) = fst b / 2 ^ (32 - snd b).

Definition PRIVATE_BLOCKS : list (Z * Z) :=
  [(ipv4_new 0 0 0 0, 8); (ipv4_new 10 0 0 0, 8); (ipv4_new 127 0 0 0, 8); (ipv4_new 169 254 0 0, 16);
   (ipv4_new 172 16 0 0, 12); (ipv4_new 192 0 2 0, 24); (ipv4_new 192 168 0 0, 16); (ipv4_new 198 51 100 0, 24);
   (ipv4_new 203 0 113 0, 24); (ipv4_new 255 255 255 255, 32)].

Lemma octet_div a i : 0 <= 24 - 8 * i → octet a i = (a / 2 ^ (24 - 8 * i)) mod 256.
Proof. intros Hi. unfold octet. rewrite Z.shiftr_div_pow2 by done. apply (Z.land_ones _ 8). lia. Qed.

Lemma segment_div a i : 0 <= 112 - 16 * i → segment a i = (a / 2 ^ (112 - 16 * i)) mod 65536.
Proof. intros Hi. unfold segment. rewrite Z.shiftr_div_pow2 by done. apply (Z.land_ones _ 16). lia. Qed.

(** A quotient from the number it is of. *)
Ltac quotient rest := symmetry; apply (Z.div_unique_pos _ _ _ rest); lia.

Ltac closed_quotients :=
  repeat match goal with
  | |- context [ipv4_new ?a ?b ?c ?d / ?e] =>
    let v := eval vm_compute in (ipv4_new a b c d / e) in change (ipv4_new a b c d / e) with v
  end.

(** Picks the alternative that holds. *)
Ltac pick :=
  lazymatch goal with
  | |- _ ∨ _ => first [left; pick | right; pick]
  | |- _ ∧ _ => split; pick
  | |- _ => lia
  end.

Lemma octets_of a : 0 <= a < 2 ^ 32 → ∃ a0 a1 a2 a3,
  a = ipv4_new a0 a1 a2 a3 ∧ octet a 0 = a0 ∧ octet a 1 = a1 ∧ octet a 2 = a2 ∧
  0 <= a0 < 256 ∧ 0 <= a1 < 256 ∧ 0 <= a2 < 256 ∧ 0 <= a3 < 256.
Proof.
  intros Ha. exists (octet a 0), (octet a 1), (octet a 2), (a mod 256). rewrite !octet_div by lia. unfold ipv4_new.
  change (2 ^ (24 - 8 * 2)) with 256. change (2 ^ (24 - 8 * 1)) with (256 * 256). change (2 ^ (24 - 8 * 0)) with (256 * 256 * 256).
  rewrite <- !Z.div_div by lia.
  pose proof (Z.div_mod a 256). pose proof (Z.div_mod (a / 256) 256). pose proof (Z.div_mod (a / 256 / 256) 256).
  pose proof (Z.div_mod (a / 256 / 256 / 256) 256). pose proof (Z.mod_pos_bound a 256). pose proof (Z.mod_pos_bound (a / 256) 256).
  pose proof (Z.mod_pos_bound (a / 256 / 256) 256). pose proof (Z.mod_pos_bound (a / 256 / 256 / 256) 256).
  split; [|lia]. lia.
Qed.

Lemma private_ipv4 a : 0 <= a < 2 ^ 32 → is_private_or_local_ipv4 a = true ↔ Exists (in_block a) PRIVATE_BLOCKS.
Proof.
  intros Ha. destruct (octets_of a Ha) as (a0 & a1 & a2 & a3 & Hn & H0 & H1 & H2 & B0 & B1 & B2 & B3).
  unfold is_private_or_local_ipv4, is_private, is_loopback, is_link_local, is_broadcast, is_documentation, is_unspecified.
  rewrite H0, H1, H2. unfold PRIVATE_BLOCKS. rewrite !Exists_cons, Exists_nil. unfold in_block. cbn [fst snd].
  rewrite !orb_true_iff, !andb_true_iff, !Z.eqb_eq, !Z.leb_le. unfold ipv4_new in Hn.
  assert (a1 = a1 / 16 * 16 + a1 mod 16) as Hd by (rewrite Z.mul_comm; apply Z.div_mod; lia).
  pose proof (Z.mod_pos_bound a1 16 ltac:(lia)) as Hm.
  assert (a / 2 ^ (32 - 8) = a0) as -> by quotient (a1 * 2 ^ 16 + a2 * 2 ^ 8 + a3).
  assert (a / 2 ^ (32 - 16) = a0 * 256 + a1) as -> by quotient (a2 * 2 ^ 8 + a3).
  assert (a / 2 ^ (32 - 12) = a0 * 16 + a1 / 16) as -> by quotient (a1 mod 16 * 2 ^ 16 + a2 * 2 ^ 8 + a3).
  assert (a / 2 ^ (32 - 24) = a0 * 65536 + a1 * 256 + a2) as -> by quotient a3.
  closed_quotients. change (2 ^ (32 - 32)) with 1. rewrite Z.div_1_r. change (2 ^ 32 - 1) with 4294967295.
  split; intros Hx; repeat destruct Hx as [Hx|Hx]; try done; pick.
Qed.

(** The IPv4 address in an IPv6 one: IPv4-mapped, IPv4-compatible and NAT64, 6to4, Teredo and
    ISATAP. *)
Definition embedded (a : Z) : option Z :=
  let high := a / 2 ^ 32 in
  if (high =? 65535) || (high =? 0) || (high =? 6619035 * 2 ^ 64) then Some (a mod 2 ^ 32)
  else if a / 2 ^ 112 =? 8194 then Some ((a / 2 ^ 80) mod 2 ^ 32)
  else if a / 2 ^ 96 =? 536936448 then Some (2 ^ 32 - 1 - a mod 2 ^ 32)
  else if (high mod 2 ^ 32 =? 24318) || (high mod 2 ^ 32 =? 33578750) then Some (a mod 2 ^ 32)
  else None.

Fixpoint upwards (n : nat) (x : Z) : list Z := match n with O => [] | S n => x :: upwards n (x + 1) end.

Lemma upwards_elem n : ∀ x y, x <= y < x + Z.of_nat n → In y (upwards n x).
Proof.
  induction n as [|n IH]; intros x y Hy; [lia|]. cbn [upwards In].
  destruct (Z.eq_dec x y) as [->|Hn]; [by left|]. right. apply IH. lia.
Qed.

Definition seq16 : list Z := upwards (Z.to_nat 65536) 0.

Lemma seq16_elem x : 0 <= x < 65536 → In x seq16.
Proof. intros Hx. apply upwards_elem. lia. Qed.

(** What the masks of a segment say, checked for every segment. *)
Lemma masks x : 0 <= x < 65536 →
  (Z.land x 65024 =? 64512) = (64512 <=? x) && (x <? 65024) ∧
  (Z.land x 65472 =? 65152) = (65152 <=? x) && (x <? 65216) ∧
  (Z.land x 65280 =? 65280) = (65280 <=? x) ∧
  not16 x = 65535 - x ∧ Z.land (Z.shiftr x 8) 255 * 256 + Z.land x 255 = x.
Proof.
  intros Hx. assert (forallb (λ x,
    Bool.eqb (Z.land x 65024 =? 64512) ((64512 <=? x) && (x <? 65024)) &&
    Bool.eqb (Z.land x 65472 =? 65152) ((65152 <=? x) && (x <? 65216)) &&
    Bool.eqb (Z.land x 65280 =? 65280) (65280 <=? x) &&
    (not16 x =? 65535 - x) && (Z.land (Z.shiftr x 8) 255 * 256 + Z.land x 255 =? x)) seq16 = true) as Hall
    by (vm_compute; reflexivity).
  rewrite forallb_forall in Hall. specialize (Hall x (seq16_elem x Hx)).
  rewrite !andb_true_iff, !eqb_true_iff, !Z.eqb_eq in Hall. naive_solver.
Qed.

Lemma ipv4_of_segments_eq s t : 0 <= s < 65536 → 0 <= t < 65536 → ipv4_of_segments s t = s * 65536 + t.
Proof. intros (_ & _ & _ & _ & Hs)%masks (_ & _ & _ & _ & Ht)%masks. unfold ipv4_of_segments, ipv4_new. lia. Qed.

Lemma segments_of a : 0 <= a < 2 ^ 128 → ∃ s0 s1 s2 s3 s4 s5 s6 s7,
  a = s0 * 2 ^ 112 + s1 * 2 ^ 96 + s2 * 2 ^ 80 + s3 * 2 ^ 64 + s4 * 2 ^ 48 + s5 * 2 ^ 32 + s6 * 2 ^ 16 + s7 ∧
  (segment a 0 = s0 ∧ segment a 1 = s1 ∧ segment a 2 = s2 ∧ segment a 3 = s3 ∧
   segment a 4 = s4 ∧ segment a 5 = s5 ∧ segment a 6 = s6 ∧ segment a 7 = s7) ∧
  0 <= s0 < 65536 ∧ 0 <= s1 < 65536 ∧ 0 <= s2 < 65536 ∧ 0 <= s3 < 65536 ∧
  0 <= s4 < 65536 ∧ 0 <= s5 < 65536 ∧ 0 <= s6 < 65536 ∧ 0 <= s7 < 65536.
Proof.
  intros Ha.
  exists (segment a 0), (segment a 1), (segment a 2), (segment a 3), (segment a 4), (segment a 5), (segment a 6), (segment a 7).
  split; [|split; [done|]]; rewrite !segment_div by lia; [|repeat split; apply Z.mod_pos_bound; lia].
  change (112 - 16 * 0) with 112. change (112 - 16 * 1) with 96. change (112 - 16 * 2) with 80. change (112 - 16 * 3) with 64.
  change (112 - 16 * 4) with 48. change (112 - 16 * 5) with 32. change (112 - 16 * 6) with 16. change (112 - 16 * 7) with 0.
  assert (∀ k k', k' = k + 16 → 0 <= k → a / 2 ^ k = 65536 * (a / 2 ^ k') + (a / 2 ^ k) mod 65536) as Hk.
  { intros k k' -> Hk. rewrite Z.pow_add_r, <- Z.div_div by lia. apply Z.div_mod. lia. }
  pose proof (Hk 0 16 eq_refl ltac:(lia)) as H0. pose proof (Hk 16 32 eq_refl ltac:(lia)) as H1.
  pose proof (Hk 32 48 eq_refl ltac:(lia)) as H2. pose proof (Hk 48 64 eq_refl ltac:(lia)) as H3.
  pose proof (Hk 64 80 eq_refl ltac:(lia)) as H4. pose proof (Hk 80 96 eq_refl ltac:(lia)) as H5.
  pose proof (Hk 96 112 eq_refl ltac:(lia)) as H6. pose proof (Hk 112 128 eq_refl ltac:(lia)) as H7.
  rewrite (Z.div_small a (2 ^ 128)) in H7 by lia. rewrite Z.pow_0_r, Z.div_1_r in *. clear Hk Ha.
  revert H0 H1 H2 H3 H4 H5 H6 H7. generalize ((a / 2 ^ 16) mod 65536), ((a / 2 ^ 32) mod 65536), ((a / 2 ^ 48) mod 65536),
    ((a / 2 ^ 64) mod 65536), ((a / 2 ^ 80) mod 65536), ((a / 2 ^ 96) mod 65536), ((a / 2 ^ 112) mod 65536), (a mod 65536).
  generalize (a / 2 ^ 16), (a / 2 ^ 32), (a / 2 ^ 48), (a / 2 ^ 64), (a / 2 ^ 80), (a / 2 ^ 96), (a / 2 ^ 112). intros. lia.
Qed.

Lemma embedded_valid a v : embedded a = Some v → 0 <= v < 2 ^ 32.
Proof.
  unfold embedded. pose proof (Z.mod_pos_bound a (2 ^ 32)). pose proof (Z.mod_pos_bound (a / 2 ^ 80) (2 ^ 32)).
  repeat case_match; intros [= <-]; lia.
Qed.

Lemma private_ipv6_bool a : 0 <= a < 2 ^ 128 →
  is_private_or_local_ipv6 a =
  (a <=? 1) || (64512 * 2 ^ 112 <=? a) && (a <? 65024 * 2 ^ 112) || (65152 * 2 ^ 112 <=? a) && (a <? 65216 * 2 ^ 112)
  || (65280 * 2 ^ 112 <=? a) || match embedded a with Some v => is_private_or_local_ipv4 v | None => false end.
Proof.
  intros Ha. destruct (segments_of a Ha) as (s0 & s1 & s2 & s3 & s4 & s5 & s6 & s7 & Hn & (E0 & E1 & E2 & E3 & E4 & E5 & E6 & E7) & B0 & B1 & B2 & B3 & B4 & B5 & B6 & B7).
  unfold is_private_or_local_ipv6, embedded. cbv zeta. rewrite E0, E1, E2, E3, E4, E5, E6, E7.
  destruct (masks s0 B0) as (-> & -> & -> & _). destruct (masks s6 B6) as (_ & _ & _ & -> & _). destruct (masks s7 B7) as (_ & _ & _ & -> & _).
  rewrite !ipv4_of_segments_eq by lia.
  assert (a / 2 ^ 32 = s0 * 2 ^ 80 + s1 * 2 ^ 64 + s2 * 2 ^ 48 + s3 * 2 ^ 32 + s4 * 2 ^ 16 + s5) as H32 by quotient (s6 * 2 ^ 16 + s7).
  assert (a / 2 ^ 80 = s0 * 2 ^ 32 + s1 * 2 ^ 16 + s2) as H80 by
    quotient (s3 * 2 ^ 64 + s4 * 2 ^ 48 + s5 * 2 ^ 32 + s6 * 2 ^ 16 + s7).
  assert (a / 2 ^ 96 = s0 * 2 ^ 16 + s1) as H96 by
    quotient (s2 * 2 ^ 80 + s3 * 2 ^ 64 + s4 * 2 ^ 48 + s5 * 2 ^ 32 + s6 * 2 ^ 16 + s7).
  assert (a / 2 ^ 112 = s0) as H112 by
    quotient (s1 * 2 ^ 96 + s2 * 2 ^ 80 + s3 * 2 ^ 64 + s4 * 2 ^ 48 + s5 * 2 ^ 32 + s6 * 2 ^ 16 + s7).
  assert (a mod 2 ^ 32 = s6 * 65536 + s7) as M0.
  { symmetry. apply (Z.mod_unique_pos _ _ (s0 * 2 ^ 80 + s1 * 2 ^ 64 + s2 * 2 ^ 48 + s3 * 2 ^ 32 + s4 * 2 ^ 16 + s5)); lia. }
  assert ((a / 2 ^ 80) mod 2 ^ 32 = s1 * 65536 + s2) as M80.
  { rewrite H80. symmetry. apply (Z.mod_unique_pos _ _ s0); lia. }
  assert ((a / 2 ^ 32) mod 2 ^ 32 = s4 * 65536 + s5) as M32.
  { rewrite H32. symmetry. apply (Z.mod_unique_pos _ _ (s0 * 2 ^ 48 + s1 * 2 ^ 32 + s2 * 2 ^ 16 + s3)); lia. }
  rewrite M0, M80, M32, H32, H96, H112. clear M0 M80 M32 H32 H80 H96 H112 E0 E1 E2 E3 E4 E5 E6 E7.
  replace (2 ^ 32 - 1 - (s6 * 65536 + s7)) with ((65535 - s6) * 65536 + (65535 - s7)) by lia.
  assert ((a =? 1) || (a =? 0) = (a <=? 1)) as -> by (destruct (Z.eqb_spec a 1), (Z.eqb_spec a 0), (Z.leb_spec a 1); cbn; lia).
  assert ((64512 <=? s0) && (s0 <? 65024) = (64512 * 2 ^ 112 <=? a) && (a <? 65024 * 2 ^ 112)) as -> by (f_equal; lia).
  assert ((65152 <=? s0) && (s0 <? 65216) = (65152 * 2 ^ 112 <=? a) && (a <? 65216 * 2 ^ 112)) as -> by (f_equal; lia).
  assert ((65280 <=? s0) = (65280 * 2 ^ 112 <=? a)) as -> by lia.
  destruct (_ || _); [done|]. cbn [orb]. set (high := s0 * 2 ^ 80 + _ + _ + _ + _ + s5).
  assert ((s0 =? 0) && (s1 =? 0) && (s2 =? 0) && (s3 =? 0) && (s4 =? 0) && ((s5 =? 65535) || (s5 =? 0))
    = (high =? 65535) || (high =? 0)) as -> by (apply Bool.eq_true_iff_eq; lia).
  assert ((s0 =? 100) && (s1 =? 65435) && (s2 =? 0) && (s3 =? 0) && (s4 =? 0) && (s5 =? 0) = (high =? 6619035 * 2 ^ 64))
    as -> by (apply Bool.eq_true_iff_eq; lia).
  assert ((s0 =? 8193) && (s1 =? 0) = (s0 * 2 ^ 16 + s1 =? 536936448)) as -> by (apply Bool.eq_true_iff_eq; lia).
  assert (((s4 =? 0) || (s4 =? 512)) && (s5 =? 24318) = (s4 * 65536 + s5 =? 24318) || (s4 * 65536 + s5 =? 33578750)) as ->
    by (apply Bool.eq_true_iff_eq; lia).
  destruct ((high =? 65535) || (high =? 0)); cbn [orb]; [done|].
  destruct (high =? 6619035 * 2 ^ 64); [done|]. by repeat case_match.
Qed.

(** C40: exactly the addresses that are refused: the IPv4 addresses of the private, loopback,
    link-local, documentation, unspecified and broadcast blocks; of IPv6 the unspecified and
    loopback addresses, the unique local, link-local and multicast ones, and those that hold
    such an IPv4 address. *)
Theorem addresses_refused ip :
  valid ip →
  is_private_or_local_ip ip = true ↔
  match ip with
  | V4 a => Exists (in_block a) PRIVATE_BLOCKS
  | V6 a =>
    a <= 1 ∨ 64512 * 2 ^ 112 <= a < 65024 * 2 ^ 112 ∨ 65152 * 2 ^ 112 <= a < 65216 * 2 ^ 112 ∨ 65280 * 2 ^ 112 <= a ∨
    ∃ v, embedded a = Some v ∧ Exists (in_block v) PRIVATE_BLOCKS
  end.
Proof.
  destruct ip as [a|a]; intros Ha; cbn [is_private_or_local_ip]; [by apply private_ipv4|].
  rewrite private_ipv6_bool by exact Ha. rewrite !orb_true_iff, !andb_true_iff, !Z.leb_le, !Z.ltb_lt.
  pose proof (embedded_valid a) as Hv. destruct (embedded a) as [v|].
  - pose proof (private_ipv4 v (Hv v eq_refl)). naive_solver.
  - naive_solver.
Qed.

(** ** Hosts and names *)

Class UrlLib (U : Type) := {
  url_parse : string → result string U;
  scheme : U → string;
  host_str : U → option string;
  port_or_known_default : U → option Z;
  url_text : U → string;
}.

Notation SocketAddr := (IpAddr * Z)%type.

(** DNS, the environment, and how addresses are printed. *)
Class Resolver (W : Type) := {
  lookup_host : string → W → result string (list SocketAddr) * W;
  env_var : string → option string;
  fmt_ip : IpAddr → string;
}.

(** The address a host is the text of, with or without brackets. *)
Definition ip_of_host (host : string) : option IpAddr :=
  parse_ip (default host (s ← strip_prefix host "["; strip_suffix s "]")).

Section guards.
Context {U W : Type} `{UrlLib U} `{Resolver W}.
Implicit Types (u : U) (w : W).

Definition is_blocked_host u : bool :=
  match host_str u with
  | None => true
  | Some h =>
    let host := to_ascii_lowercase h in
    if String.eqb host "localhost" || ends_with host ".local" then true
    else match ip_of_host host with Some ip => is_private_or_local_ip ip | None => false end
  end.

(** The first variable that is set decides. *)
Definition has_http_proxy : bool :=
  match env_var "HTTPS_PROXY", env_var "https_proxy", env_var "HTTP_PROXY", env_var "http_proxy" with
  | Some v, _, _, _ | None, Some v, _, _ | None, None, Some v, _ | None, None, None, Some v => negb (str_is_empty v)
  | None, None, None, None => false
  end.

Definition resolve_and_check_host u w : result ZeptoError (option (string * SocketAddr)) * W :=
  match host_str u with
  | None => (Err (SecurityViolation "URL has no host"), w)
  | Some host =>
    match parse_ip host with
    | Some _ => (Ok None, w)
    | None =>
      match lookup_host (host +:+ ":" +:+ fmt_Z (default 443 (port_or_known_default u))) w with
      | (Err e, w) =>
        if has_http_proxy then (Ok None, w)
        else (Err (Tool ("DNS lookup failed for '" +:+ host +:+ "': " +:+ e)), w)
      | (Ok addrs, w) =>
        match List.find (λ a, is_private_or_local_ip (fst a)) addrs with
        | Some a =>
          (Err (SecurityViolation ("DNS for '" +:+ host +:+ "' resolved to private/local IP " +:+ fmt_ip (fst a))), w)
        | None => (Ok ((λ a, (host, a)) <$> head addrs), w)
        end
      end
    end
  end.

Definition http_scheme u : bool := String.eqb (scheme u) "http" || String.eqb (scheme u) "https".

Definition validate_redirect_target_basic u : result ZeptoError unit :=
  if negb (http_scheme u) then Err (SecurityViolation ("Redirect destination scheme is blocked: " +:+ scheme u))
  else if is_blocked_host u
  then Err (SecurityViolation ("Redirect destination is blocked (local or private network): " +:+ url_text u))
  else Ok tt.

(** [validate_redirect_target_for_policy] does the same on a thread of its own. *)
Definition validate_redirect_target u w : result ZeptoError unit * W :=
  match validate_redirect_target_basic u with
  | Err e => (Err e, w)
  | Ok _ =>
    match resolve_and_check_host u w with
    | (Err e, w) => (Err e, w)
    | (Ok _, w) => (Ok tt, w)
    end
  end.

(** Both tools follow at most five redirects. *)
Definition MAX_WEB_FETCH_REDIRECTS : nat := 5.

Definition redirect_policy (previous : nat) u w : result ZeptoError unit * W :=
  if Nat.leb MAX_WEB_FETCH_REDIRECTS previous
  then (Err (Tool ("Too many redirects (max " +:+ fmt_nat MAX_WEB_FETCH_REDIRECTS +:+ ")")), w)
  else validate_redirect_target u w.

(** ** Downloads of skills *)

Definition is_allowed_host (host : string) (allowed_hosts : list string) : bool :=
  any (λ ah, String.eqb (to_ascii_lowercase ah) (to_ascii_lowercase host)) allowed_hosts.

Definition check_ssrf (url_str : string) (allowed_hosts : list string) w
    : result ZeptoError (option (string * SocketAddr)) * W :=
  match url_parse url_str with
  | Err e => (Err (SecurityViolation ("Invalid URL '" +:+ url_str +:+ "': " +:+ e)), w)
  | Ok u =>
    if negb (http_scheme u) then (Err (SecurityViolation "Only http/https URLs are allowed for skill downloads"), w)
    else if match host_str u with Some h => is_allowed_host h allowed_hosts | None => false end then (Ok None, w)
    else if is_blocked_host u
    then (Err (SecurityViolation ("Skill URL targets a blocked host (local or private network): " +:+ url_str)), w)
    else resolve_and_check_host u w
  end.

Definition check_redirect_ssrf (final_url : U) (allowed_hosts : list string) : result ZeptoError unit :=
  if is_blocked_host final_url
     && negb (match host_str final_url with Some h => is_allowed_host h allowed_hosts | None => false end)
  then Err (SecurityViolation ("Request redirected to blocked host: " +:+ url_text final_url))
  else Ok tt.

(** ASCII letters, digits, hyphens and underscores. *)
Definition slug_char (c : Ascii.ascii) : bool :=
  let n := Z.of_N (byte_val c) in
  (48 <=? n) && (n <=? 57) || (97 <=? n) && (n <=? 122) || (65 <=? n) && (n <=? 90) || (n =? 45) || (n =? 95).

Definition validate_slug (slug : string) : result ZeptoError unit :=
  if str_is_empty slug || negb (forallb slug_char (String.list_ascii_of_string slug))
  then Err (Tool ("Invalid skill slug '" +:+ slug
    +:+ "': only alphanumeric characters, hyphens, and underscores are allowed"))
  else Ok tt.

Definition normalize_sha256 (digest : string) : result ZeptoError string :=
  let normalized := to_ascii_lowercase (trim digest) in
  if negb (Nat.eqb (String.length normalized) 64)
     || negb (forallb (λ c, bool_decide (is_Some (hex_value c))) (String.list_ascii_of_string normalized))
  then Err (Tool ("Invalid SHA-256 digest '" +:+ digest +:+ "': expected 64 hex characters"))
  else Ok normalized.

Definition resolve_verified_sha256 (requested response : option string) : result ZeptoError (option string) :=
  match requested, response with
  | Some q, Some r =>
    if String.eqb q r then Ok (Some q)
    else Err (SecurityViolation ("Skill archive SHA-256 digest conflict: provided " +:+ q +:+ ", response header " +:+ r))
  | Some q, None => Ok (Some q)
  | None, r => Ok r
  end.
End guards.

(** ** The client and the tools *)

(** A request: the name whose address is given, what is asked about every redirect, and
    what is sent. *)
Record Request (U W : Type) : Type := mkRequest {
  pin : option (string * SocketAddr);
  policy : nat → U → W → result ZeptoError unit * W;
  method : string;
  target : U;
  headers : list (string * string);
  req_body : option string;
}.
Arguments mkRequest {U W} _ _ _ _ _ _.
Arguments pin {U W} _.
Arguments policy {U W} _ _ _ _.
Arguments method {U W} _.
Arguments target {U W} _.
Arguments headers {U W} _.
Arguments req_body {U W} _.

(** [chunks] is the body as it comes in. *)
Record Response (U : Type) : Type := mkResponse {
  final_url : U;
  status : Z;
  content_type : string;
  chunks : list (result string string);
}.
Arguments mkResponse {U} _ _ _ _.
Arguments final_url {U} _.
Arguments status {U} _.
Arguments content_type {U} _.
Arguments chunks {U} _.

(** Building a client that is given an address for a name can fail. *)
Class HttpClient (U W : Type) := {
  builds : option (string * SocketAddr) → result string unit;
  send : Request U W → W → result string (Response U) * W;
}.

Record Fetched : Type := mkFetched {
  f_url : string;
  f_final_url : string;
  f_status : Z;
  f_extractor : string;
  f_truncated : bool;
  f_length : nat;
  f_text : string;
}.

Section tools.
Context {U W : Type} `{UrlLib U} `{Resolver W} `{HttpClient U W} `{RustUnicode}.
(** [String::from_utf8_lossy], and the title and the text of a document. *)
Context (lossy : string → string) (title_of : string → string) (text_of : string → bool → string → string).
Implicit Types (u : U) (w : W).

Definition WEB_USER_AGENT : string := "zeptoclaw/0.1 (+https://github.com/zeptoclaw/zeptoclaw)".
Definition MAX_FETCH_CHARS : Z := 200000.
Definition MIN_FETCH_CHARS : Z := 256.
Definition MAX_FETCH_BYTES : nat := Z.to_nat (MAX_FETCH_CHARS * 4).

(** The bytes read so far are [buf]. *)
Fixpoint read_body_limited (buf : string) (cs : list (result string string)) (max_bytes : nat) : result ZeptoError string :=
  match cs with
  | [] => Ok buf
  | Err e :: _ => Err (Tool ("Failed to read response body: " +:+ e))
  | Ok c :: cs =>
    let remaining := (max_bytes - String.length buf)%nat in
    if Nat.eqb remaining 0 then Ok buf
    else
      let buf := buf +:+ str_take (Nat.min (String.length c) remaining) c in
      if Nat.leb max_bytes (String.length buf) then Ok buf else read_body_limited buf cs max_bytes
  end.

Definition extract (ct body : string) (include_links : bool) (final : string) : string * string :=
  if contains ct "application/json" then ("json", body)
  else if contains ct "text/html" || starts_with (trim_start body) "<" then
    let title := title_of body in
    let text := text_of body include_links final in
    ("html", if str_is_empty title then text else "# " +:+ title +:+ newline +:+ newline +:+ text)
  else ("raw", body).

Definition web_fetch (self_max_chars : Z) (url_arg : option string) (max_chars_arg : option Z) (include_links : bool) w
    : result ZeptoError Fetched * W :=
  match trim <$> url_arg with
  | None | Some "" => (Err (Tool "Missing 'url' parameter"), w)
  | Some url =>
    match url_parse url with
    | Err e => (Err (Tool ("Invalid URL '" +:+ url +:+ "': " +:+ e)), w)
    | Ok u =>
      if negb (http_scheme u) then (Err (Tool "Only http/https URLs are allowed"), w)
      else if is_blocked_host u
      then (Err (SecurityViolation "Blocked URL host (local or private network)"), w)
      else
        match resolve_and_check_host u w with
        | (Err e, w) => (Err e, w)
        | (Ok pinned, w) =>
          let max_chars := Z.max MIN_FETCH_CHARS (Z.min MAX_FETCH_CHARS (default self_max_chars max_chars_arg)) in
          let pinned := if is_ok (builds pinned) then pinned else None in
          match send (mkRequest pinned redirect_policy "GET" u [("User-Agent", WEB_USER_AGENT)] None) w with
          | (Err e, w) => (Err (Tool ("Web fetch failed: " +:+ e)), w)
          | (Ok r, w) =>
            match validate_redirect_target (final_url r) w with
            | (Err e, w) => (Err e, w)
            | (Ok _, w) =>
              if negb ((200 <=? status r) && (status r <? 300)) then (Err (Tool ("HTTP error: " +:+ fmt_Z (status r))), w)
              else
                match read_body_limited "" (chunks r) MAX_FETCH_BYTES with
                | Err e => (Err e, w)
                | Ok bytes =>
                  let '(extractor, text) := extract (content_type r) (lossy bytes) include_links (url_text (final_url r)) in
                  let n := Z.to_nat max_chars in
                  let truncated := Nat.ltb n (String.length text) in
                  let text := utf8_truncate text n in
                  (Ok (mkFetched url (url_text (final_url r)) (status r) extractor truncated (String.length text) text), w)
                end
            end
          end
        end
    end
  end.

(** ** [http_request] *)

(** A pattern that begins with a star and a dot also stands for the name without them. *)
Definition host_matches (pattern host : string) : bool :=
  match strip_prefix pattern "*." with
  | Some suffix => String.eqb host suffix || ends_with host ("." +:+ suffix)
  | None => String.eqb host pattern
  end.

Definition has_whitespace (s : string) : bool := existsb is_whitespace (chars s).

Definition validate_url (allowed_domains : list string) (raw_url : string) : result ZeptoError U :=
  let url := trim raw_url in
  if str_is_empty url then Err (Tool "URL cannot be empty")
  else if has_whitespace url then Err (Tool "URL cannot contain whitespace")
  else if negb (starts_with url "http://") && negb (starts_with url "https://")
  then Err (Tool "Only http:// and https:// URLs are allowed")
  else match allowed_domains with
  | [] => Err (Tool "http_request tool: no allowed_domains configured")
  | _ =>
    match url_parse url with
    | Err e => Err (Tool ("Invalid URL: " +:+ e))
    | Ok u =>
      if is_blocked_host u then Err (Tool ("Blocked private/local host: " +:+ url))
      else
        let host := to_lowercase (default "" (host_str u)) in
        if negb (any (λ d, host_matches d host) allowed_domains)
        then Err (Tool ("Host '" +:+ host +:+ "' not in allowed_domains"))
        else Ok u
    end
  end.

Definition strip_dangerous_headers (hs : list (string * string)) : list (string * string) :=
  List.filter (λ kv, negb (bool_decide (to_lowercase (fst kv) ∈ ["authorization"; "host"; "cookie"; "set-cookie"]))) hs.

(** A JSON body gets its type when the caller names none. *)
Definition with_content_type (hs sent : list (string * string)) (body : string) : list (string * string) :=
  let trimmed := trim_start body in
  if negb (any (λ kv, String.eqb (to_lowercase (fst kv)) "content-type") hs)
     && (starts_with trimmed "{" || starts_with trimmed "[")
  then sent ++ [("Content-Type", "application/json")] else sent.

Definition truncated_body (max_response_bytes : nat) (bytes : string) : string :=
  if Nat.ltb max_response_bytes (String.length bytes)
  then lossy (str_take max_response_bytes bytes) +:+ newline +:+ "[TRUNCATED — " +:+ fmt_nat (String.length bytes) +:+ " bytes total]"
  else lossy bytes.

(** All of a body. *)
Fixpoint read_all (cs : list (result string string)) : result string string :=
  match cs with
  | [] => Ok ""
  | Err e :: _ => Err e
  | Ok c :: cs => match read_all cs with Ok s => Ok (c +:+ s) | Err e => Err e end
  end.

(** [method_ok] is what the library takes for a method. The headers whose values are no texts
    are not in [hs]; the check of the content type sees all of [keys]. *)
Definition http_request (to_uppercase : string → string) (method_ok : string → bool) (allowed_domains : list string) (max_response_bytes : nat)
    (url_arg method_arg : option string) (hs keys : list (string * string)) (body : option string) w
    : result ZeptoError string * W :=
  match method_arg with
  | None => (Err (Tool "Missing required parameter: method"), w)
  | Some m =>
    let m := to_uppercase m in
    match validate_url allowed_domains (default "" url_arg) with
    | Err e => (Err e, w)
    | Ok u =>
      match resolve_and_check_host u w with
      | (Err e, w) => (Err e, w)
      | (Ok pinned, w) =>
        if negb (method_ok m) then (Err (Tool ("Unknown HTTP method: " +:+ m)), w)
        else
        match builds pinned with
        | Err e => (Err (Tool ("HTTP client error: " +:+ e)), w)
        | Ok _ =>
          let sent := strip_dangerous_headers hs in
          let sent := match body with Some b => with_content_type keys sent b | None => sent end in
          match send (mkRequest pinned redirect_policy m u sent body) w with
          | (Err e, w) => (Err (Tool ("Request failed: " +:+ e)), w)
          | (Ok r, w) =>
            match validate_redirect_target (final_url r) w with
            | (Err e, w) => (Err e, w)
            | (Ok _, w) =>
              match read_all (chunks r) with
              | Err e => (Err (Tool ("Failed to read response body: " +:+ e)), w)
              | Ok bytes =>
                (Ok ("Status: " +:+ fmt_Z (status r) +:+ newline +:+ newline +:+ truncated_body max_response_bytes bytes), w)
              end
            end
          end
        end
      end
    end
  end.
End tools.

(** ** Where connections go *)

Section connections.
Context {U W : Type} `{UrlLib U} `{Resolver W} `{HttpClient U W} `{RustUnicode}.
Implicit Types (u : U) (w : W).

(** What was connected to so far, and for which URL. *)
Context (connections : W → list (U * IpAddr)).

Definition host_ip u : option IpAddr := h ← host_str u; ip_of_host (to_ascii_lowercase h).

(** The variables that make the client send its requests to a proxy, which then resolves the
    names and connects by itself. *)
Definition PROXY_VARIABLES : list string :=
  ["HTTPS_PROXY"; "https_proxy"; "HTTP_PROXY"; "http_proxy"; "ALL_PROXY"; "all_proxy"].
Definition direct : Prop := Forall (λ v, default "" (env_var v) = "") PROXY_VARIABLES.

(** What the documentation of the client says of the requests it makes for one: first for the
    URL, then only for URLs that the policy let through. Without a proxy it connects to the
    given address if the name is the given one, and to the address that a host is, if it is
    one; else the address is that of the proxy. *)
Record follows (req : Request U W) (hops : list (U * IpAddr)) : Prop := {
  first_hop u a rest : hops = (u, a) :: rest →
    u = target req ∧
    (direct → host_ip u = None → ∀ h p, pin req = Some (h, p) → host_str u = Some h → a = fst p);
  next_hop u a : In (u, a) (tail hops) → ∃ k w1 w2, policy req k u w1 = (Ok tt, w2);
  literal_hop u a ip : In (u, a) hops → direct → host_ip u = Some ip → a = ip;
}.

Context (lookup_quiet : ∀ h w, connections (snd (lookup_host h w)) = connections w).
Context (send_follows : ∀ req w r w', send req w = (r, w') → ∃ hops, connections w' = connections w ++ hops ∧ follows req hops).

(** A connection that is allowed: by its URL, and by its address when that is known. *)
Definition allowed_url u : Prop :=
  http_scheme u = true ∧ is_blocked_host u = false ∧ ∀ ip, host_ip u = Some ip → is_private_or_local_ip ip = false.

Lemma not_blocked_ip u : is_blocked_host u = false → ∀ ip, host_ip u = Some ip → is_private_or_local_ip ip = false.
Proof.
  unfold is_blocked_host, host_ip. destruct (host_str u) as [h|]; [|done]. cbn [mbind option_bind]. cbv zeta.
  destruct (_ || _); [done|]. intros Hb ip Hip. by rewrite Hip in Hb.
Qed.

Lemma basic_allowed u : validate_redirect_target_basic u = Ok tt → allowed_url u.
Proof.
  unfold validate_redirect_target_basic. destruct (http_scheme u) eqn:Hs; [|done]. cbn [negb].
  destruct (is_blocked_host u) eqn:Hb; [done|]. intros _. split; [done|]. split; [done|]. by apply not_blocked_ip.
Qed.

Lemma policy_allowed k u w1 w2 : redirect_policy k u w1 = (Ok tt, w2) → allowed_url u.
Proof.
  unfold redirect_policy, validate_redirect_target. destruct (Nat.leb _ _); [done|].
  destruct (validate_redirect_target_basic u) as [[]|e] eqn:Hb; [|done]. intros _. by apply basic_allowed.
Qed.

Lemma resolve_quiet u w r w' : resolve_and_check_host u w = (r, w') → connections w' = connections w.
Proof.
  unfold resolve_and_check_host. destruct (host_str u) as [h|]; [|by intros [= _ <-]].
  destruct (parse_ip h); [by intros [= _ <-]|]. pose proof (lookup_quiet (h +:+ ":" +:+ fmt_Z (default 443 (port_or_known_default u))) w) as Hq.
  destruct (lookup_host _ w) as [[addrs|e] w1]; cbn [snd] in Hq.
  - destruct (List.find _ addrs); by intros [= _ <-].
  - destruct has_http_proxy; by intros [= _ <-].
Qed.

Lemma validate_quiet u w r w' : validate_redirect_target u w = (r, w') → connections w' = connections w.
Proof.
  unfold validate_redirect_target. destruct (validate_redirect_target_basic u); [|by intros [= _ <-]].
  destruct (resolve_and_check_host u w) as [[p|e] w1] eqn:Hr; intros [= _ <-]; by eapply resolve_quiet.
Qed.

(** The address that is given is an answer of the resolver, none of whose answers is private. *)
Lemma pinned_public u w h p w' :
  resolve_and_check_host u w = (Ok (Some (h, p)), w') → host_str u = Some h ∧ is_private_or_local_ip (fst p) = false.
Proof.
  unfold resolve_and_check_host. destruct (host_str u) as [h'|]; [|done]. destruct (parse_ip h'); [done|].
  destruct (lookup_host _ w) as [[addrs|e] w1]; [|by destruct has_http_proxy].
  destruct (List.find _ addrs) as [a|] eqn:Hf; [done|]. destruct addrs as [|a addrs]; [done|].
  intros [= <- <- <-]. split; [done|]. apply (List.find_none _ _ Hf). by left.
Qed.

(** What the connections of a tool are like: every URL is allowed, and without a proxy the
    first connection goes to a public address whenever the name was resolved and a client for
    that address could be built. *)
Definition guarded u w (hops : list (U * IpAddr)) : Prop :=
  (∀ v a, In (v, a) hops → allowed_url v ∧ (direct → ∀ ip, host_ip v = Some ip → a = ip)) ∧
  ∀ v a rest, hops = (v, a) :: rest → v = u ∧
    (direct → host_ip u = None → ∀ h p w', resolve_and_check_host u w = (Ok (Some (h, p)), w') →
     is_ok (builds (Some (h, p))) = true → a = fst p ∧ is_private_or_local_ip a = false).

Lemma follows_guarded m hs b u w hops pinned given w' :
  allowed_url u → resolve_and_check_host u w = (Ok pinned, w') →
  (is_ok (builds pinned) = true → given = pinned) →
  follows (mkRequest given redirect_policy m u hs b) hops → guarded u w hops.
Proof.
  intros Hu Hres Hgiven Hf. split.
  - intros v a Hin. split; [|intros Hd ip; by apply (literal_hop _ _ Hf)].
    destruct hops as [|[v0 a0] rest]; [done|]. destruct Hin as [[= <- <-]|Hin].
    + destruct (first_hop _ _ Hf v0 a0 rest eq_refl) as [-> _]. exact Hu.
    + destruct (next_hop _ _ Hf v a Hin) as (k & w1 & w2 & Hp). by eapply policy_allowed.
  - intros v a rest ->. destruct (first_hop _ _ Hf v a rest eq_refl) as [-> Hpin]. split; [done|].
    intros Hd Hip h p w2. rewrite Hres. intros [= -> ->] Hb. destruct (pinned_public _ _ _ _ _ Hres) as [Hh Hp].
    rewrite (Hpin Hd Hip h p (Hgiven Hb) Hh). done.
Qed.

Lemma quiet_nil w w' : connections w' = connections w → connections w' = connections w ++ [].
Proof. by rewrite app_nil_r. Qed.

Ltac no_connection := intros [= _ <-]; exists []; split; [by apply quiet_nil|by left].

(** A request after the checks, and what follows it. *)
Lemma sent_guarded m hs b u w pinned given w1 r w2 w3 :
  allowed_url u → resolve_and_check_host u w = (Ok pinned, w1) →
  (is_ok (builds pinned) = true → given = pinned) →
  send (mkRequest given redirect_policy m u hs b) w1 = (r, w2) → connections w3 = connections w2 →
  ∃ hops, connections w3 = connections w ++ hops ∧ guarded u w hops.
Proof.
  intros Hu Hres Hg Hs Hq. destruct (send_follows _ _ _ _ Hs) as (hops & Hc & Hf). exists hops.
  rewrite Hq, Hc, (resolve_quiet _ _ _ _ Hres). split; [done|]. by eapply follows_guarded.
Qed.

Context (lossy title_of : string → string) (text_of : string → bool → string → string).

Lemma checked_url u : http_scheme u = true → is_blocked_host u = false → allowed_url u.
Proof. intros Hs Hb. split; [exact Hs|]. split; [exact Hb|]. by apply not_blocked_ip. Qed.

Lemma web_fetch_guarded self_max url_arg max_chars links w r w' :
  web_fetch lossy title_of text_of self_max url_arg max_chars links w = (r, w') →
  ∃ hops, connections w' = connections w ++ hops ∧
    (hops = [] ∨ ∃ url u, url_arg = Some url ∧ url_parse (trim url) = Ok u ∧ guarded u w hops).
Proof.
  unfold web_fetch. destruct url_arg as [url|]; cbn [fmap option_fmap option_map];
    [|no_connection].
  destruct (trim url) as [|c t] eqn:Ht; [no_connection|].
  destruct (url_parse (String c t)) as [u|e] eqn:Hu; [|no_connection].
  destruct (http_scheme u) eqn:Hsch; cbn [negb]; [|no_connection].
  destruct (is_blocked_host u) eqn:Hb; [no_connection|].
  destruct (resolve_and_check_host u w) as [[pinned|e] w1] eqn:Hres.
  2: { apply resolve_quiet in Hres. no_connection. }
  intros Hrun.
  set (given := if is_ok (builds pinned) then pinned else None) in Hrun.
  assert (∃ m hs b r2 w2, send (mkRequest given redirect_policy m u hs b) w1 = (r2, w2) ∧ connections w' = connections w2)
    as (m & hs & b & r2 & w2 & Hs & Hq).
  { destruct (send _ w1) as [[resp|e] w2] eqn:Hs; [|injection Hrun as _ <-; by eexists _, _, _, _, _].
    eexists _, _, _, _, w2. split; [exact Hs|].
    destruct (validate_redirect_target (final_url resp) w2) as [[v|e] w3] eqn:Hv; apply validate_quiet in Hv as <-.
    - destruct (negb _); [by injection Hrun as _ <-|]. destruct (read_body_limited _ _ _) as [bytes|e]; [|by injection Hrun as _ <-].
      destruct (extract _ _ _ _ _ _). by injection Hrun as _ <-.
    - by injection Hrun as _ <-. }
  assert (is_ok (builds pinned) = true → given = pinned) as Hgiven by (intros Hok; unfold given; by rewrite Hok).
  destruct (sent_guarded _ _ _ _ _ _ _ _ _ _ _ (checked_url u Hsch Hb) Hres Hgiven Hs Hq) as (hops & Hc & Hg). exists hops. split; [done|]. right. exists url, u. by rewrite Ht.
Qed.

(** URLs of http_request begin with their scheme; the library reads it off. *)
Context (scheme_of_text : ∀ s u, url_parse s = Ok u → starts_with s "http://" || starts_with s "https://" = true → http_scheme u = true).

Lemma validate_url_ok domains url u :
  validate_url domains url = Ok u →
  url_parse (trim url) = Ok u ∧ allowed_url u ∧ any (λ d, host_matches d (to_lowercase (default "" (host_str u)))) domains = true.
Proof.
  unfold validate_url. destruct (str_is_empty _); [done|]. destruct (has_whitespace _); [done|].
  destruct (negb _ && negb _) eqn:Hs; [done|]. destruct domains as [|d ds]; [done|].
  destruct (url_parse (trim url)) as [u'|e] eqn:Hu; [|done]. destruct (is_blocked_host u') eqn:Hb; [done|].
  destruct (any _ _) eqn:Ha; cbn [negb]; [|done]. intros [= <-]. split; [done|]. split; [|done].
  apply checked_url; [|done]. apply (scheme_of_text _ _ Hu).
  by destruct (starts_with (trim url) "http://"), (starts_with (trim url) "https://").
Qed.

Lemma http_request_guarded upper method_ok domains max url_arg method_arg hs keys body w r w' :
  http_request lossy upper method_ok domains max url_arg method_arg hs keys body w = (r, w') →
  ∃ hops, connections w' = connections w ++ hops ∧
    (hops = [] ∨ ∃ url u, url_arg = Some url ∧ url_parse (trim url) = Ok u ∧ guarded u w hops ∧
       any (λ d, host_matches d (to_lowercase (default "" (host_str u)))) domains = true).
Proof.
  unfold http_request. destruct method_arg as [m|]; [|no_connection]. cbv zeta.
  destruct url_arg as [url|]; cbn [default from_option id].
  2: { assert (validate_url domains "" = Err (A := U) (Tool "URL cannot be empty")) as -> by reflexivity. no_connection. }
  destruct (validate_url domains url) as [u|e] eqn:Hv; [|no_connection].
  apply validate_url_ok in Hv as (Hu & Hal & Hd).
  destruct (resolve_and_check_host u w) as [[pinned|e] w1] eqn:Hres.
  2: { apply resolve_quiet in Hres. no_connection. }
  destruct (method_ok (upper m)); cbn [negb]; [|apply resolve_quiet in Hres; no_connection].
  destruct (builds pinned) as [ok|e]; [|apply resolve_quiet in Hres; no_connection].
  destruct (send _ w1) as [r2 w2] eqn:Hs. intros Hrun.
  assert (connections w' = connections w2) as Hq.
  { destruct r2 as [resp|e]; [|by injection Hrun as _ <-].
    destruct (validate_redirect_target (final_url resp) w2) as [[v|e] w3] eqn:Hv; apply validate_quiet in Hv as <-.
    - destruct (read_all _); by injection Hrun as _ <-.
    - by injection Hrun as _ <-. }
  destruct (sent_guarded _ _ _ _ _ _ _ _ _ _ _ Hal Hres (λ _, eq_refl) Hs Hq) as (hops & Hc & Hg). exists hops. split; [done|]. right. by exists url, u.
Qed.

(** C13: what the two tools for requests ask for, whatever servers answer and names resolve
    to: nothing unless the checks pass; the given URL first (for http_request its host is in the
    list of allowed domains), and otherwise only http URLs whose hosts are neither local names
    nor private addresses. Where no proxy is configured, whose own resolution nothing here
    constrains, the first connection goes to an address that the check resolved and that is not
    private, if the check resolved any and a client for it could be built, and a host that is an
    address is connected to at that address. *)
Theorem web_connections self_max upper method_ok domains max w :
  (∀ url_arg max_chars links r w',
     web_fetch lossy title_of text_of self_max url_arg max_chars links w = (r, w') →
     ∃ hops, connections w' = connections w ++ hops ∧
       (hops = [] ∨ ∃ url u, url_arg = Some url ∧ url_parse (trim url) = Ok u ∧ guarded u w hops)) ∧
  (∀ url_arg method_arg hs keys body r w',
     http_request lossy upper method_ok domains max url_arg method_arg hs keys body w = (r, w') →
     ∃ hops, connections w' = connections w ++ hops ∧
       (hops = [] ∨ ∃ url u, url_arg = Some url ∧ url_parse (trim url) = Ok u ∧ guarded u w hops ∧
          any (λ d, host_matches d (to_lowercase (default "" (host_str u)))) domains = true)).
Proof.
  split; [intros; by eapply web_fetch_guarded|]. intros *. apply http_request_guarded.
Qed.
End connections.

(** ** Bounds of what is fetched *)

Lemma read_body_bounded max cs : ∀ buf s,
  (String.length buf <= max)%nat → read_body_limited buf cs max = Ok s → (String.length s <= max)%nat.
Proof.
  induction cs as [|[c|e] cs IH]; intros buf s Hb; cbn [read_body_limited]; [by intros [= <-]| |done].
  destruct (Nat.eqb_spec (max - String.length buf) 0); [by intros [= <-]|].
  set (buf' := buf +:+ _). assert (String.length buf' <= max)%nat as Hb'.
  { unfold buf'. rewrite str_app_length. pose proof (str_take_length (Nat.min (String.length c) (max - String.length buf)) c). lia. }
  destruct (Nat.leb max (String.length buf')); [by intros [= <-]|]. by apply IH.
Qed.

Section bounds.
Context {U W : Type} `{UrlLib U} `{Resolver W} `{HttpClient U W}.

Lemma fetched_bounded lossy title_of text_of self_max url_arg max_chars links (w : W) f w' :
  web_fetch (U := U) lossy title_of text_of self_max url_arg max_chars links w = (Ok f, w') →
  (String.length (f_text f) <= Z.to_nat (Z.max MIN_FETCH_CHARS (Z.min MAX_FETCH_CHARS (default self_max max_chars))))%nat ∧
  f_length f = String.length (f_text f).
Proof.
  unfold web_fetch. repeat (case_match; try done). all: cbv zeta; try (destruct (extract _ _ _ _ _ _)).
  all: intros [= <- <-]; cbn [f_text f_length]; split; [apply utf8_truncate_length|done].
Qed.
End bounds.

(** ** Examples *)

Module Example_web.
(** URLs are their texts, for names without paths; what the resolver answers, in order, and
    where requests connected to. *)
Record net : Type := mkNet { answers : list (list SocketAddr); connected : list (string * IpAddr) }.

Definition host_of (u : string) : option string :=
  match strip_prefix u "https://" with
  | Some h => Some h
  | None => strip_prefix u "http://"
  end.

#[export] Instance text_urls : UrlLib string := {|
  url_parse s := match host_of s with Some _ => Ok s | None => Err "relative URL without a base" end;
  scheme u := if starts_with u "https://" then "https" else if starts_with u "http://" then "http" else "";
  host_str := host_of;
  port_or_known_default u := Some (if starts_with u "https://" then 443 else 80);
  url_text u := u;
|}.

#[export] Instance scripted_dns : Resolver net := {|
  lookup_host _ w := match answers w with
    | [] => (Err "no answer", w) | a :: rest => (Ok a, mkNet rest (connected w)) end;
  env_var _ := None;
  fmt_ip ip := match ip with V4 a => fmt_Z a | V6 a => fmt_Z a end;
|}.

Definition connect (u : string) (given : option (string * SocketAddr)) (w : net) : option net :=
  let to a w := Some (mkNet (answers w) (connected w ++ [(u, a)])) in
  match host_ip u, given with
  | Some ip, _ => to ip w
  | None, Some (_, p) => to (fst p) w
  | None, None =>
    match lookup_host "" w with (Ok (a :: _), w) => to (fst a) w | _ => None end
  end.

(** The server of moved.example sends everybody to inner.example. *)
Definition moved (u : string) : option string :=
  if String.eqb u "https://moved.example" then Some "http://inner.example" else None.

Definition page (u : string) : Response string := mkResponse u 200 "text/plain" [Ok "hello "; Ok "world"].

#[export] Instance one_redirect : HttpClient string net := {|
  builds _ := Ok tt;
  send req w :=
    match connect (target req) (pin req) w with
    | None => (Err "connection failed", w)
    | Some w =>
      match moved (target req) with
      | None => (Ok (page (target req)), w)
      | Some v =>
        match policy req 0 v w with
        | (Err _, w2) => (Err "redirect refused", mkNet (answers w2) (connected w))
        | (Ok _, w2) =>
          match connect v None (mkNet (answers w2) (connected w)) with
          | None => (Err "connection failed", mkNet (answers w2) (connected w))
          | Some w => (Ok (page v), w)
          end
        end
      end
    end;
|}.

Notation fetch := (web_fetch (λ s, s) (λ _, "") (λ s _ _, s) 50000).
Notation public := (V4 (ipv4_new 93 184 216 34), 443).
Notation inner := (V4 (ipv4_new 10 0 0 7), 80).

Definition answering (l : list (list SocketAddr)) : net := mkNet l [].

Lemma connect_quiet u g w w' : connect u g w = Some w' →
  ∃ a, connected w' = connected w ++ [(u, a)] ∧ (∀ ip, host_ip u = Some ip → a = ip) ∧
       (host_ip u = None → ∀ h p, g = Some (h, p) → a = fst p).
Proof.
  unfold connect. destruct (host_ip u) as [ip|] eqn:Hip; [intros [= <-]; exists ip; cbn; naive_solver|].
  destruct g as [[h p]|]; [intros [= <-]; exists (fst p); cbn; naive_solver|].
  cbn [lookup_host scripted_dns]. destruct (answers w) as [|[|a l] rest]; try done. intros [= <-]. exists (fst a). cbn. naive_solver.
Qed.

Lemma one_redirect_follows (req : Request string net) w r w' :
  send req w = (r, w') → ∃ hops, connected w' = connected w ++ hops ∧ follows req hops.
Proof.
  cbn [send one_redirect]. destruct (connect (target req) (pin req) w) as [w1|] eqn:Hc.
  2: { intros [= <- <-]. exists []. rewrite app_nil_r. split; [done|]. split; done. }
  destruct (connect_quiet _ _ _ _ Hc) as (a & Ha & Hlit & Hpin).
  assert (follows req [(target req, a)]) as Hone.
  { split; cbn; [|done|].
    - intros u b rest [= <- <- <-]. split; [done|]. intros _ Hip h p Hp _. by eapply Hpin.
    - intros u b ip [[= <- <-]|[]] _. apply Hlit. }
  destruct (moved (target req)) as [v|]; [|intros [= <- <-]; by eexists].
  destruct (policy req 0 v w1) as [[[]|e] w2] eqn:Hp; [|intros [= <- <-]; cbn; by eexists].
  destruct (connect v None _) as [w3|] eqn:Hc2; intros [= <- <-]; [|cbn; by eexists].
  destruct (connect_quiet _ _ _ _ Hc2) as (b & Hb & Hlit2 & _). exists [(target req, a); (v, b)].
  cbn [connected] in Hb. rewrite Hb, Ha, <- app_assoc. split; [done|]. split; cbn.
  - intros u c rest [= <- <- <-]. split; [done|]. intros _ Hip h p Hpn _. by eapply Hpin.
  - intros u c [[= <- <-]|[]]. by exists 0%nat, w1, w2.
  - intros u c ip [[= <- <-]|[[= <- <-]|[]]] _; [apply Hlit|apply Hlit2].
Qed.

Lemma text_scheme s u : url_parse s = Ok u → starts_with s "http://" || starts_with s "https://" = true → http_scheme u = true.
Proof.
  cbn. destruct (host_of s); [|done]. intros [= <-]. unfold http_scheme. cbn [scheme text_urls].
  destruct (starts_with s "https://"), (starts_with s "http://"); done.
Qed.

Lemma addresses_refused_witness :
  valid (V4 (ipv4_new 172 31 0 1)) ∧ is_private_or_local_ip (V4 (ipv4_new 172 31 0 1)) = true ∧
  Exists (in_block (ipv4_new 172 31 0 1)) PRIVATE_BLOCKS ∧
  is_private_or_local_ip (V6 (8194 * 2 ^ 112 + ipv4_new 10 0 0 1 * 2 ^ 80)) = true ∧
  is_private_or_local_ip (V4 (ipv4_new 100 64 0 1)) = false.
Proof.
  assert (valid (V4 (ipv4_new 172 31 0 1))) as Hv by (cbn; unfold ipv4_new; lia).
  assert (is_private_or_local_ip (V4 (ipv4_new 172 31 0 1)) = true) as Hp by (vm_compute; reflexivity).
  split; [exact Hv|]. split; [exact Hp|]. split; [exact (proj1 (addresses_refused _ Hv) Hp)|]. vm_compute. split; reflexivity.
Defined.

Lemma web_connections_witness :
  let '(r, w) := fetch (Some "https://moved.example") None false (answering [[public]; [public]; [public]; [public]]) in
  match r with Ok f => f_text f = "hello world" | Err _ => False end ∧
  ∃ hops, connected w = [] ++ hops ∧ (hops = [] ∨ ∃ url u, Some "https://moved.example" = Some url ∧
    url_parse (trim url) = Ok u ∧ guarded u (answering [[public]; [public]; [public]; [public]]) hops).
Proof.
  destruct (fetch (Some "https://moved.example") None false _) as [r w] eqn:Hf.
  split; [vm_compute in Hf; injection Hf as <- _; reflexivity|].
  exact (proj1 (web_connections connected ltac:(by intros h [[|a l] c]) one_redirect_follows (λ s, s) (λ _, "") (λ s _ _, s) text_scheme
    50000 (λ s, s) (λ _, true) [] 10%nat (answering [[public]; [public]; [public]; [public]]))
    (Some "https://moved.example") None false r w Hf).
Defined.

(** The address of a redirect is checked and thrown away: the client resolves the name once
    more, and may get another answer. *)
Example redirect_rebinds :
  connected (snd (fetch (Some "https://moved.example") None false (answering [[public]; [public]; [inner]; [public]])))
  = [("https://moved.example", fst public); ("http://inner.example", fst inner)].
Proof. vm_compute. reflexivity. Qed.

(** A redirect leaves the list of allowed domains. *)
Example redirect_leaves_domains :
  connected (snd (http_request (λ s, s) (λ s, s) (λ _, true) ["moved.example"] 1000 (Some "https://moved.example") (Some "GET") [] [] None
    (answering [[public]; [public]; [public]; [public]])))
  = [("https://moved.example", fst public); ("http://inner.example", fst public)].
Proof. vm_compute. reflexivity. Qed.

(** The host is compared in lower case, the pattern as it was written. *)
Example capital_never_matches : host_matches "API.example.com" (to_lowercase "API.example.com") = false.
Proof. vm_compute. reflexivity. Qed.

(** A local name with the dot of the root is no local name. *)
Example root_dot :
  (is_blocked_host "http://localhost", is_blocked_host "http://localhost.", is_blocked_host "http://[::ffff:127.0.0.1]") = (true, false, true).
Proof. vm_compute. reflexivity. Qed.
End Example_web.
