(* ===== verification/Reminder.v ===== *)
(** Reminders: src/src/tools/reminder.rs, over the scheduler of [Cron].

    The file, its JSON, the parsers of dates and the readings of the clock are arguments, as
    are the identifiers of new jobs. A call of the tool is one step. *)

From S2P Require Import Prelude Text Lines Errors Bus Gate LongTerm Cron.

Inductive ReminderStatus : Type := Pending | Done | Snoozed.

#[export] Instance ReminderStatus_eq_dec : EqDecision ReminderStatus.
Proof. solve_decision. Defined.

Record ReminderEntry : Type := mkReminderEntry {
  r_id : string;
  title : string;
  description : option string;
  r_category : string;
  r_status : ReminderStatus;
  due_at : option Z;
  recurrence : option string;
  cron_job_id : option string;
  created : Z;
  updated : Z;
}.

Definition with_status (e : ReminderEntry) (s : ReminderStatus) (due : option Z) (now : Z) : ReminderEntry :=
  mkReminderEntry (r_id e) (title e) (description e) (r_category e) s due (recurrence e) (cron_job_id e) (created e) now.

Definition with_job (j : string) (now : Z) (e : ReminderEntry) : ReminderEntry :=
  mkReminderEntry (r_id e) (title e) (description e) (r_category e) (r_status e) (due_at e) (recurrence e) (Some j)
    (created e) now.

Definition default_category : string := "general".

Record ReminderStore : Type := mkReminderStore { reminders : gmap string ReminderEntry; next_id : Z }.

Module ReminderStore.
Section methods.
Context `{MemoryFile W} `{MapOrder ReminderEntry}.
Context (storage_path storage_dir : string).
Context (to_json : gmap string ReminderEntry → result string string).
Context (of_json : string → result string (gmap string ReminderEntry)).
Implicit Types (self : ReminderStore) (w : W) (i : string).

Definition save self w : result ZeptoError unit * W :=
  match make_dir w with
  | (Err e, w) => (Err (Errors.Tool ("Failed to create reminders directory " +:+ storage_dir +:+ ": " +:+ e)), w)
  | (Ok _, w) =>
    match to_json (reminders self) with
    | Err e => (Err (Errors.Tool ("Failed to serialize reminders: " +:+ e)), w)
    | Ok json =>
      match write_file w json with
      | (Err e, w) => (Err (Errors.Tool ("Failed to write reminders to " +:+ storage_path +:+ ": " +:+ e)), w)
      | (Ok _, w) => (Ok tt, w)
      end
    end
  end.

Definition load w : result ZeptoError (gmap string ReminderEntry) :=
  if negb (file_exists w) then Ok ∅
  else
    match read_file w with
    | Err e => Err (Errors.Tool ("Failed to read reminders from " +:+ storage_path +:+ ": " +:+ e))
    | Ok content =>
      if str_is_empty (trim content) then Ok ∅
      else
        match of_json content with
        | Ok es => Ok es
        | Err e => Err (Errors.Tool ("Failed to parse reminders JSON: " +:+ e))
        end
    end.

(** The number in a key, and the highest; the numbers of Rust wrap. *)
Definition number_of (k : string) : option Z := n ← strip_prefix k "r"; parse_usize n.

Definition max_id (es : gmap string ReminderEntry) : Z := foldr Z.max 0 (omap (λ ke, number_of (fst ke)) (map_to_list es)).

Definition with_path w : result ZeptoError ReminderStore :=
  match load w with
  | Ok es => Ok (mkReminderStore es (wadd64 (max_id es) 1))
  | Err e => Err e
  end.

Definition saved {A} self w (a : A) : result ZeptoError A * ReminderStore * W :=
  match save self w with
  | (Err e, w) => (Err e, self, w)
  | (Ok _, w) => (Ok a, self, w)
  end.

Definition add self w (t : string) (d : option string) (c : string) (due : option Z) (r : option string) (now : Z)
    : result ZeptoError ReminderEntry * ReminderStore * W :=
  let i := "r" +:+ fmt_Z (next_id self) in
  let entry := mkReminderEntry i t d (if str_is_empty c then default_category else c) Pending due r None now now in
  saved (mkReminderStore (<[i := entry]> (reminders self)) (wadd64 (next_id self) 1)) w entry.

Definition get self i : option ReminderEntry := reminders self !! i.

(** [get_mut], a change and a save, or [false] without the entry. *)
Definition change self w i (f : ReminderEntry → ReminderEntry) : result ZeptoError bool * ReminderStore * W :=
  match reminders self !! i with
  | Some e => saved (mkReminderStore (<[i := f e]> (reminders self)) (next_id self)) w true
  | None => (Ok false, self, w)
  end.

Definition complete self w i (now : Z) := change self w i (λ e, with_status e Done (due_at e) now).
Definition snooze self w i (new_due_at now : Z) := change self w i (λ e, with_status e Snoozed (Some new_due_at) now).
Definition set_cron_job_id self w i (j : string) (now : Z) := change self w i (with_job j now).

Definition remove self w i : result ZeptoError bool * ReminderStore * W :=
  match reminders self !! i with
  | Some _ => saved (mkReminderStore (base.delete i (reminders self)) (next_id self)) w true
  | None => (Ok false, self, w)
  end.

Definition list_reminders self (status_filter : option ReminderStatus) (category_filter : option string)
    : list ReminderEntry :=
  sort_by (λ a b, created a <=? created b) (List.filter (λ e,
    match status_filter with Some s => bool_decide (r_status e = s) | None => true end &&
    match category_filter with Some c => eq_ignore_ascii_case (r_category e) c | None => true end)
    (map snd (map_iter (reminders self)))).

Definition is_overdue (now : Z) (e : ReminderEntry) : bool :=
  bool_decide (r_status e = Pending) && match due_at e with Some due => due <? now | None => false end.

Definition overdue self (now : Z) : list ReminderEntry :=
  sort_by (λ a b, default 0 (due_at a) <=? default 0 (due_at b))
    (List.filter (is_overdue now) (map snd (map_iter (reminders self)))).

Definition len self : nat := size (reminders self).
Definition is_empty self : bool := Nat.eqb (len self) 0.
End methods.
End ReminderStore.

(** ** The tool *)

Section tool.
Context `{Calendar} {Value Body W : Type} `{MemoryFile W} `{MapOrder ReminderEntry}.
Context (arg_str : Value → string → option string).
(** Seconds since the epoch, of a time and of a date. *)
Context (parse_from_rfc3339 parse_date : string → option Z).
Context (storage_path storage_dir : string).
Context (to_json : gmap string ReminderEntry → result string string).
Context (cron_json : CronStore → Body).
Implicit Types (args : Value) (ctx : ToolContext) (w : W).

Definition parse_iso_to_epoch (s : string) : result ZeptoError Z :=
  let checked ts :=
    if ts <? 0 then Err (Errors.Tool ("Date '" +:+ s +:+ "' is before Unix epoch")) else Ok ts in
  match parse_from_rfc3339 s, parse_date s with
  | Some ts, _ => checked ts
  | None, Some ts => checked ts
  | None, None => Err (Errors.Tool ("Cannot parse '" +:+ s +:+ "' as ISO 8601 datetime"))
  end.

(** The store, the scheduler if there is one, and the file. *)
Record State : Type := mkState {
  store_of : ReminderStore;
  cron : option (CronService (Body := Body));
  disk : W;
}.

(** What a call reads: the clock at each of its uses, the identifier of a new job, and the
    error of the scheduler's file. *)
Record Reads : Type := mkReads {
  now_add : Z;
  now_job : Z;
  now_ms : Z;
  new_job_id : string;
  cron_write : option string;
}.

Notation add := (ReminderStore.add storage_path storage_dir to_json).
Notation complete := (ReminderStore.complete storage_path storage_dir to_json).
Notation snooze := (ReminderStore.snooze storage_path storage_dir to_json).
Notation remove := (ReminderStore.remove storage_path storage_dir to_json).
Notation set_cron_job_id := (ReminderStore.set_cron_job_id storage_path storage_dir to_json).

(** A text that is not blank. *)
Definition text_arg args (name : string) : option string :=
  match trim <$> arg_str args name with
  | Some s => if str_is_empty s then None else Some s
  | None => None
  end.

Definition reminder_job (e : ReminderEntry) (due : Z) (channel chat_id : string) (r : Reads) : CronJob :=
  new_job (new_job_id r) (title e) (At (wrap_i64 (wrap_i64 due * 1000)))
    (mkCronPayload ("Reminder: " +:+ title e) channel chat_id) true None (now_ms r).

(** The delivery of a new reminder, for which the scheduler does what it can. *)
Definition schedule_delivery (s : State) (e : ReminderEntry) (due : option Z) ctx (r : Reads) : State :=
  match cron s, due, channel ctx, chat_id ctx with
  | Some c, Some due, Some ch, Some id =>
    match add_job_with_timeout cron_json c (reminder_job e due ch id r) (cron_write r) with
    | (Ok job, c) =>
      let '(_, st, w) := set_cron_job_id (store_of s) (disk s) (r_id e) (Cron.id job) (now_job r) in
      mkState st (Some c) w
    | (Err _, c) => mkState (store_of s) (Some c) (disk s)
    end
  | _, _, _, _ => s
  end.

Definition execute_add args ctx (s : State) (r : Reads) : result ZeptoError string * State :=
  match text_arg args "title" with
  | None => (Err (Errors.Tool "Missing 'title' for reminder add"), s)
  | Some t =>
    match match arg_str args "due_at" with
          | Some d => match parse_iso_to_epoch d with Ok ts => Ok (Some ts) | Err e => Err e end
          | None => Ok None
          end with
    | Err e => (Err e, s)
    | Ok due =>
      match add (store_of s) (disk s) t (text_arg args "description") (default "general" (text_arg args "category")) due
              (text_arg args "recurrence") (now_add r) with
      | (Err e, st, w) => (Err e, mkState st (cron s) w)
      | (Ok e, st, w) =>
        (Ok ("Created reminder '" +:+ title e +:+ "' [" +:+ r_id e +:+ "]"
             +:+ match due with Some d => " (due at " +:+ fmt_Z d +:+ ")" | None => "" end),
         schedule_delivery (mkState st (cron s) w) e due ctx r)
      end
    end
  end.

Definition emoji (s : ReminderStatus) : string :=
  match s with Pending => "⏳" | Done => "✅" | Snoozed => "💤" end.

Definition plural_s (n : nat) : string := if Nat.eqb n 1 then "" else "s".

Definition execute_list args (s : State) : string :=
  let status_filter := match arg_str args "status" with
    | Some "pending" => Some Pending | Some "done" => Some Done | Some "snoozed" => Some Snoozed | _ => None end in
  match ReminderStore.list_reminders (store_of s) status_filter (text_arg args "category") with
  | [] => "No reminders found"
  | items =>
    fmt_nat (length items) +:+ " reminder" +:+ plural_s (length items) +:+ ":" +:+ newline
    +:+ join newline (map (λ e, emoji (r_status e) +:+ " [" +:+ r_id e +:+ "] " +:+ title e
          +:+ match due_at e with Some d => " (due: " +:+ fmt_Z d +:+ ")" | None => "" end
          +:+ "  [" +:+ r_category e +:+ "]") items)
  end.

(** The job of a reminder is cancelled before the reminder is completed or removed. *)
Definition cancel_job (s : State) (i : string) (r : Reads) : State :=
  match cron s, (e ← ReminderStore.get (store_of s) i; cron_job_id e) with
  | Some c, Some j => mkState (store_of s) (Some (remove_job cron_json c j (cron_write r)).2) (disk s)
  | _, _ => s
  end.

Definition answered (r : result ZeptoError bool * ReminderStore * W) (s : State) (yes no : string)
    : result ZeptoError string * State :=
  let '(b, st, w) := r in
  (match b with Ok true => Ok yes | Ok false => Ok no | Err e => Err e end, mkState st (cron s) w).

Definition execute_complete args (s : State) (r : Reads) : result ZeptoError string * State :=
  match arg_str args "id" with
  | None => (Err (Errors.Tool "Missing 'id' for reminder complete"), s)
  | Some i =>
    let s := cancel_job s i r in
    answered (complete (store_of s) (disk s) i (now_add r)) s
      ("Completed reminder " +:+ i) ("Reminder " +:+ i +:+ " not found")
  end.

Definition execute_snooze args (s : State) (r : Reads) : result ZeptoError string * State :=
  match arg_str args "id", arg_str args "due_at" with
  | None, _ => (Err (Errors.Tool "Missing 'id' for reminder snooze"), s)
  | _, None => (Err (Errors.Tool "Missing 'due_at' for reminder snooze"), s)
  | Some i, Some d =>
    match parse_iso_to_epoch d with
    | Err e => (Err e, s)
    | Ok due =>
      answered (snooze (store_of s) (disk s) i due (now_add r)) s
        ("Snoozed reminder " +:+ i +:+ " until " +:+ fmt_Z due) ("Reminder " +:+ i +:+ " not found")
    end
  end.

Definition execute_remove args (s : State) (r : Reads) : result ZeptoError string * State :=
  match arg_str args "id" with
  | None => (Err (Errors.Tool "Missing 'id' for reminder remove"), s)
  | Some i =>
    let s := cancel_job s i r in
    answered (remove (store_of s) (disk s) i) s
      ("Removed reminder " +:+ i) ("Reminder " +:+ i +:+ " not found")
  end.

Definition execute_overdue (s : State) (r : Reads) : string :=
  match ReminderStore.overdue (store_of s) (now_add r) with
  | [] => "No overdue reminders"
  | items =>
    fmt_nat (length items) +:+ " overdue reminder" +:+ plural_s (length items) +:+ ":" +:+ newline
    +:+ join newline (map (λ e, "⚠️ [" +:+ r_id e +:+ "] " +:+ title e
          +:+ match due_at e with Some d => " (was due: " +:+ fmt_Z d +:+ ")" | None => "" end
          +:+ "  [" +:+ r_category e +:+ "]") items)
  end.

Definition execute args ctx (s : State) (r : Reads) : result ZeptoError string * State :=
  match arg_str args "action" with
  | None => (Err (Errors.Tool "Missing 'action' argument"), s)
  | Some action =>
    if String.eqb action "add" then execute_add args ctx s r
    else if String.eqb action "list" then (Ok (execute_list args s), s)
    else if String.eqb action "complete" then execute_complete args s r
    else if String.eqb action "snooze" then execute_snooze args s r
    else if String.eqb action "remove" then execute_remove args s r
    else if String.eqb action "overdue" then (Ok (execute_overdue s r), s)
    else (Err (Errors.Tool ("Unknown reminder action '" +:+ action +:+ "'")), s)
  end.
End tool.

(** ** Histories *)

(** A file system whose operations succeed, and JSON that is read back. *)
Class ReliableReminders (W : Type) `{MemoryFile W} (to_json : gmap string ReminderEntry → result string string)
    (of_json : string → result string (gmap string ReminderEntry)) := {
  dir_made (w : W) : ∃ w', make_dir w = (Ok tt, w') ∧ file_exists w' = file_exists w ∧ read_file w' = read_file w;
  file_written (w : W) s : ∃ w', write_file w s = (Ok tt, w') ∧ file_exists w' = true ∧ read_file w' = Ok s;
  json_read m : ∃ json, to_json m = Ok json ∧ str_is_empty (trim json) = false ∧ of_json json = Ok m;
}.

Section histories.
Context `{Calendar} {Value Body W : Type} `{MemoryFile W} `{MapOrder ReminderEntry}.
Context (arg_str : Value → string → option string).
Context (parse_from_rfc3339 parse_date : string → option Z).
Context (storage_path storage_dir : string).
Context (to_json : gmap string ReminderEntry → result string string).
Context (of_json : string → result string (gmap string ReminderEntry)).
Context (cron_json : CronStore → Body).
Context `{!ReliableReminders W to_json of_json}.

Notation State := (State (Body := Body) (W := W)).
Notation execute := (execute arg_str parse_from_rfc3339 parse_date storage_path storage_dir to_json cron_json).
Notation load := (ReminderStore.load storage_path of_json).

Definition jobs_of (s : State) : list CronJob := match cron s with Some c => jobs (store c) | None => [] end.

(** What happens to a tool: calls, with new identifiers for its jobs, which it is to remember
    in the list; what the scheduler and others do to jobs meanwhile; and a start of the
    program, which reads the reminders again. *)
Inductive reminder_step : State → list string → State → list string → Prop :=
| step_call s ours args ctx r :
    new_job_id r ∉ ours → (∀ j, j ∈ jobs_of s → Cron.id j ≠ new_job_id r) → cron_write r = None →
    reminder_step s ours (snd (execute args ctx s r)) (new_job_id r :: ours)
| step_jobs s ours c c' :
    cron s = Some c →
    (∀ j', j' ∈ jobs (store c') → Cron.id j' ∉ ours ∨
       ∃ j, j ∈ jobs (store c) ∧ Cron.id j = Cron.id j' ∧ payload j = payload j') →
    reminder_step s ours (mkState (store_of s) (Some c') (disk s)) ours
| step_restart s ours st :
    ReminderStore.with_path storage_path of_json (disk s) = Ok st →
    reminder_step s ours (mkState st (cron s) (disk s)) ours.

Inductive reminder_run (s0 : State) : nat → State → list string → Prop :=
| run_none : reminder_run s0 0 s0 []
| run_more n s ours s' ours' :
    reminder_run s0 n s ours → reminder_step s ours s' ours' → reminder_run s0 (S n) s' ours'.

Definition key_of (n : Z) : string := "r" +:+ fmt_Z n.

(** Reminders are under their numbers. *)
Definition numbered (st : ReminderStore) (n : nat) : Prop :=
  0 < next_id st <= 1 + Z.of_nat n ∧
  ∀ k e, reminders st !! k = Some e → r_id e = k ∧ ∃ i, 0 < i < next_id st ∧ k = key_of i.

(** A job of the tool is the delivery of a reminder that is still open. *)
Definition delivers (j : CronJob) (st : ReminderStore) : Prop :=
  ∃ k e, reminders st !! k = Some e ∧ cron_job_id e = Some (Cron.id j) ∧ r_status e ≠ Done ∧
    message (payload j) = "Reminder: " +:+ title e.

Definition recorded (st : ReminderStore) (ours : list string) : Prop :=
  ∀ k e j, reminders st !! k = Some e → cron_job_id e = Some j → j ∈ ours.

Record reminders_ok (n : nat) (s : State) (ours : list string) : Prop := {
  ok_numbered : numbered (store_of s) n;
  ok_file : load (disk s) = Ok (reminders (store_of s));
  ok_jobs : ∀ j, j ∈ jobs_of s → Cron.id j ∈ ours → delivers j (store_of s);
  ok_recorded : recorded (store_of s) ours;
}.

Lemma saved_ok {A} st w (a : A) :
  ∃ w', ReminderStore.saved storage_path storage_dir to_json st w a = (Ok a, st, w') ∧ load w' = Ok (reminders st).
Proof.
  unfold ReminderStore.saved, ReminderStore.save, ReminderStore.load.
  destruct (dir_made w) as (w1 & -> & _). destruct (json_read (reminders st)) as (json & -> & Ht & Hj).
  destruct (file_written w1 json) as (w2 & -> & Hex & Hr). exists w2. split; [done|]. by rewrite Hex, Hr, Ht, Hj.
Qed.

Lemma key_of_inj i j : 0 < i → 0 < j → i <= u64_max → j <= u64_max → key_of i = key_of j → i = j.
Proof.
  intros Hi Hj Hi' Hj' Hk. unfold key_of in Hk. injection Hk as Hk.
  pose proof (parse_usize_fmt i (conj Hi Hi')). pose proof (parse_usize_fmt j (conj Hj Hj')). congruence.
Qed.

Lemma number_of_key i : 0 < i <= u64_max → ReminderStore.number_of (key_of i) = Some i.
Proof.
  intros Hi. unfold ReminderStore.number_of, key_of. rewrite (proj2 (strip_prefix_Some _ _ _) eq_refl).
  cbn [mbind option_bind]. by apply parse_usize_fmt.
Qed.

Lemma max_id_bounds (es : gmap string ReminderEntry) m :
  0 < m <= u64_max → (∀ k e, es !! k = Some e → ∃ i, 0 < i < m ∧ k = key_of i) →
  0 <= ReminderStore.max_id es < m ∧ ∀ i, 0 < i < m → is_Some (es !! key_of i) → i <= ReminderStore.max_id es.
Proof.
  intros Hm Hes. unfold ReminderStore.max_id.
  assert (∀ l, (∀ ke, ke ∈ l → es !! fst ke = Some (snd ke)) →
    0 <= foldr Z.max 0 (omap (λ ke, ReminderStore.number_of (fst ke)) l) < m ∧
    ∀ i ke, 0 < i < m → ke ∈ l → fst ke = key_of i → i <= foldr Z.max 0 (omap (λ ke, ReminderStore.number_of (fst ke)) l)) as Hl.
  { induction l as [|[k e] l IH]; intros Hin; [cbn; split; [lia|by intros ? ? _ ?%elem_of_nil]|].
    destruct IH as [Hb Hmax]; [intros ke Hke; apply Hin; by right|].
    destruct (Hes k e) as (i & Hi & ->); [by apply (Hin (k, e)); left|].
    cbn [omap list_omap]. cbn [fst]. rewrite number_of_key by lia. cbn [foldr]. split; [lia|].
    intros i' ke Hi' [->|Hke]%elem_of_cons Hk; [|specialize (Hmax i' ke Hi' Hke Hk); lia].
    cbn [fst] in Hk. apply key_of_inj in Hk; lia. }
  destruct (Hl (map_to_list es)) as [Hb Hmax]; [by intros [k e] He%elem_of_map_to_list|]. split; [done|].
  intros i Hi [e He]. apply (Hmax i (key_of i, e) Hi); [by apply elem_of_map_to_list|done].
Qed.

Lemma change_spec st w i f r st' w' :
  ReminderStore.change storage_path storage_dir to_json st w i f = (r, st', w') → load w = Ok (reminders st) →
  st' = mkReminderStore (alter f i (reminders st)) (next_id st) ∧ load w' = Ok (reminders st').
Proof.
  unfold ReminderStore.change. destruct (reminders st !! i) as [e|] eqn:He.
  - destruct (saved_ok (mkReminderStore (<[i := f e]> (reminders st)) (next_id st)) w true) as (w1 & -> & Hl).
    intros [= <- <- <-] _. split; [|done]. f_equal. apply map_eq. intros k. destruct (decide (i = k)) as [<-|Hk].
    + by rewrite lookup_insert_eq, lookup_alter_eq, He.
    + by rewrite lookup_insert_ne, lookup_alter_ne.
  - intros [= <- <- <-] Hl. assert (alter f i (reminders st) = reminders st) as Ha.
    { apply map_eq. intros k. destruct (decide (i = k)) as [<-|Hk]; [by rewrite lookup_alter_eq, He|by rewrite lookup_alter_ne]. }
    split; [|done]. rewrite Ha. by destruct st.
Qed.

Lemma remove_spec st w i r st' w' :
  ReminderStore.remove storage_path storage_dir to_json st w i = (r, st', w') → load w = Ok (reminders st) →
  st' = mkReminderStore (base.delete i (reminders st)) (next_id st) ∧ load w' = Ok (reminders st').
Proof.
  unfold ReminderStore.remove. destruct (reminders st !! i) as [e|] eqn:He.
  - destruct (saved_ok (mkReminderStore (base.delete i (reminders st)) (next_id st)) w true) as (w1 & -> & Hl).
    by intros [= <- <- <-] _.
  - intros [= <- <- <-] Hl. rewrite delete_id by done. by destruct st.
Qed.

Lemma numbered_more st n : numbered st n → numbered st (S n).
Proof. intros [Hn He]. split; [lia|done]. Qed.

Lemma numbered_alter st n f i :
  (∀ e, r_id (f e) = r_id e) → numbered st n → numbered (mkReminderStore (alter f i (reminders st)) (next_id st)) n.
Proof.
  intros Hf [Hn He]. split; [done|]. cbn [reminders next_id]. intros k e. destruct (decide (i = k)) as [<-|Hk].
  - rewrite lookup_alter_eq. intros (e' & He' & ->)%fmap_Some. rewrite Hf. by apply He.
  - rewrite lookup_alter_ne by done. apply He.
Qed.

Lemma numbered_delete st n i : numbered st n → numbered (mkReminderStore (base.delete i (reminders st)) (next_id st)) n.
Proof. intros [Hn He]. split; [done|]. cbn [reminders]. intros k e [_ Hk]%lookup_delete_Some. by apply He. Qed.

(** Jobs of a reminder that is cancelled are gone; no other is new. *)
Lemma cancel_job_jobs (s : State) i r j :
  j ∈ jobs_of (cancel_job cron_json s i r) →
  j ∈ jobs_of s ∧ ∀ e, reminders (store_of s) !! i = Some e → cron_job_id e ≠ Some (Cron.id j).
Proof.
  unfold cancel_job, ReminderStore.get. destruct (cron s) as [c|] eqn:Hc.
  2: { unfold jobs_of. rewrite Hc. by intros ?%elem_of_nil. }
  destruct (reminders (store_of s) !! i) as [e|]; cbn [mbind option_bind]; [|intros Hj; split; [done|by intros]].
  destruct (cron_job_id e) as [jid|] eqn:Hjid.
  - unfold jobs_of. cbn [cron]. rewrite remove_store, Hc. cbn. intros [Hne Hj]%list_elem_of_filter.
    split; [done|]. intros e' [= <-]. congruence.
  - intros Hj. split; [done|]. intros e' [= <-]. congruence.
Qed.

Lemma cancel_job_rest (s : State) i r :
  store_of (cancel_job cron_json s i r) = store_of s ∧ disk (cancel_job cron_json s i r) = disk s.
Proof.
  unfold cancel_job. destruct (cron s); [|done].
  by destruct (@mbind option _ _ _ _ (ReminderStore.get (store_of s) i)).
Qed.

(** What a change of one reminder keeps: the jobs of the others. *)
Lemma delivers_other st i m j :
  delivers j st → (∀ e, reminders st !! i = Some e → cron_job_id e ≠ Some (Cron.id j)) →
  (∀ k, k ≠ i → m !! k = reminders st !! k) → delivers j (mkReminderStore m (next_id st)).
Proof.
  intros (k & e & He & Hj & Hs & Hm) Hi Hsame. exists k, e. cbn [reminders]. split; [|done].
  rewrite Hsame; [done|]. intros ->. by apply (Hi e).
Qed.

Lemma recorded_subset st m ours :
  recorded st ours → (∀ k e, m !! k = Some e → ∃ e', reminders st !! k = Some e' ∧ cron_job_id e = cron_job_id e') →
  recorded (mkReminderStore m (next_id st)) ours.
Proof. intros Hr Hm k e j He Hj. destruct (Hm k e He) as (e' & He' & Hc). apply (Hr k e' j He'). congruence. Qed.

Lemma alter_recorded st ours f i :
  (∀ e, cron_job_id (f e) = cron_job_id e) → recorded st ours →
  recorded (mkReminderStore (alter f i (reminders st)) (next_id st)) ours.
Proof.
  intros Hf Hr. apply recorded_subset; [done|]. intros k e. destruct (decide (i = k)) as [<-|Hk].
  - rewrite lookup_alter_eq. intros (e' & He' & ->)%fmap_Some. by exists e'.
  - rewrite lookup_alter_ne by done. by exists e.
Qed.

Lemma alter_delivers st f i j :
  (∀ e, cron_job_id (f e) = cron_job_id e ∧ title (f e) = title e ∧ r_status (f e) ≠ Done) →
  delivers j st → delivers j (mkReminderStore (alter f i (reminders st)) (next_id st)).
Proof.
  intros Hf (k & e & He & Hj & Hs & Hm). destruct (decide (i = k)) as [<-|Hk].
  - exists i, (f e). cbn [reminders]. destruct (Hf e) as (Hc & Ht & Hd).
    rewrite lookup_alter_eq, He. repeat split; congruence.
  - exists k, e. cbn [reminders]. by rewrite lookup_alter_ne.
Qed.

(** A call that adds nothing. *)
Lemma ok_fresh n s ours i :
  reminders_ok n s ours → (∀ j, j ∈ jobs_of s → Cron.id j ≠ i) → reminders_ok (S n) s (i :: ours).
Proof.
  intros [Hn Hl Hj Hr] Hi. split; [by apply numbered_more|done| |].
  - intros j Hin [Heq|Ho]%elem_of_cons; [by destruct (Hi j Hin)|by apply Hj].
  - intros k e j He Hje. right. by apply (Hr k e).
Qed.

Lemma complete_ok n (s : State) ours i r now :
  let s1 := cancel_job cron_json s i r in
  reminders_ok n s ours →
  ∀ b st w, ReminderStore.complete storage_path storage_dir to_json (store_of s1) (disk s1) i now = (b, st, w) →
  reminders_ok n (mkState st (cron s1) w) ours.
Proof.
  intros s1 [Hn Hl Hj Hr] b st w Hc. pose proof (cancel_job_rest s i r) as [Hst Hd]. fold s1 in Hst, Hd.
  unfold ReminderStore.complete in Hc. rewrite Hst, Hd in Hc. apply change_spec in Hc as [-> Hl']; [|done].
  split; cbn [store_of disk]; [by apply numbered_alter|done| |by apply alter_recorded].
  intros j Hin Ho. change (j ∈ jobs_of s1) in Hin. apply cancel_job_jobs in Hin as [Hin Hi].
  apply (delivers_other _ i); [by apply Hj|done|]. intros k Hk. by apply lookup_alter_ne.
Qed.

Lemma remove_ok n (s : State) ours i r :
  let s1 := cancel_job cron_json s i r in
  reminders_ok n s ours →
  ∀ b st w, ReminderStore.remove storage_path storage_dir to_json (store_of s1) (disk s1) i = (b, st, w) →
  reminders_ok n (mkState st (cron s1) w) ours.
Proof.
  intros s1 [Hn Hl Hj Hr] b st w Hc. pose proof (cancel_job_rest s i r) as [Hst Hd]. fold s1 in Hst, Hd.
  rewrite Hst, Hd in Hc. apply remove_spec in Hc as [-> Hl']; [|done].
  split; cbn [store_of disk]; [by apply numbered_delete|done| |].
  - intros j Hin Ho. change (j ∈ jobs_of s1) in Hin. apply cancel_job_jobs in Hin as [Hin Hi].
    apply (delivers_other _ i); [by apply Hj|done|]. intros k Hk. by apply lookup_delete_ne.
  - apply recorded_subset; [done|]. intros k e [_ Hk]%lookup_delete_Some. by exists e.
Qed.

Lemma snooze_ok n (s : State) ours i due now :
  reminders_ok n s ours →
  ∀ b st w, ReminderStore.snooze storage_path storage_dir to_json (store_of s) (disk s) i due now = (b, st, w) →
  reminders_ok n (mkState st (cron s) w) ours.
Proof.
  intros [Hn Hl Hj Hr] b st w Hc. apply change_spec in Hc as [-> Hl']; [|done].
  split; cbn [store_of disk]; [by apply numbered_alter|done| |by apply alter_recorded].
  intros j Hin Ho. apply alter_delivers; [done|]. by apply Hj.
Qed.

(** A new reminder is under a key of its own. *)
Lemma add_spec n st w t d c due rc now :
  numbered st n → Z.of_nat n + 1 < u64_max →
  ∃ e w', ReminderStore.add storage_path storage_dir to_json st w t d c due rc now
    = (Ok e, mkReminderStore (<[r_id e := e]> (reminders st)) (next_id st + 1), w') ∧
    load w' = Ok (<[r_id e := e]> (reminders st)) ∧
    r_id e = key_of (next_id st) ∧ reminders st !! r_id e = None ∧ title e = t ∧ r_status e = Pending ∧ cron_job_id e = None.
Proof.
  intros [Hn He] Hmax. unfold ReminderStore.add.
  assert (wadd64 (next_id st) 1 = next_id st + 1) as -> by (apply wadd64_small; unfold u64_max in *; lia).
  match goal with |- context [ReminderStore.saved _ _ _ ?s ?w ?a] => destruct (saved_ok s w a) as (w' & -> & Hl); exists a, w' end.
  split; [reflexivity|]. split; [exact Hl|].
  cbn [r_id title r_status cron_job_id]. repeat split.
  destruct (reminders st !! _) as [e|] eqn:Hk; [|done]. exfalso.
  destruct (He _ _ Hk) as (_ & i & Hi & Hkey). apply (key_of_inj (next_id st) i) in Hkey; lia.
Qed.

Lemma numbered_insert st n e :
  numbered st n → r_id e = key_of (next_id st) →
  numbered (mkReminderStore (<[r_id e := e]> (reminders st)) (next_id st + 1)) (S n).
Proof.
  intros [Hn He] Hid. split; cbn [next_id reminders]; [lia|]. intros k e'. destruct (decide (r_id e = k)) as [<-|Hk].
  - rewrite lookup_insert_eq. intros [= <-]. split; [done|]. exists (next_id st). split; [lia|done].
  - rewrite lookup_insert_ne by done. intros [Hi (i & Hb & Heq)]%He. split; [done|]. exists i. split; [lia|done].
Qed.

(** The state after [add]: nothing delivers the new reminder yet. *)
Lemma insert_ok n (s : State) ours e w i :
  reminders_ok n s ours → (∀ j, j ∈ jobs_of s → Cron.id j ≠ i) →
  load w = Ok (<[r_id e := e]> (reminders (store_of s))) → r_id e = key_of (next_id (store_of s)) →
  reminders (store_of s) !! r_id e = None → cron_job_id e = None →
  reminders_ok (S n) (mkState (mkReminderStore (<[r_id e := e]> (reminders (store_of s))) (next_id (store_of s) + 1)) (cron s) w)
    (i :: ours).
Proof.
  intros [Hn _ Hj Hr] Hi Hl Hid Hfresh Hnone. split; cbn [store_of disk]; [by apply numbered_insert|done| |].
  - intros j Hin [Heq|Ho]%elem_of_cons; [by destruct (Hi j Hin)|].
    destruct (Hj j Hin Ho) as (k & e' & He' & Hrest). exists k, e'. cbn [reminders]. split; [|done].
    rewrite lookup_insert_ne; [done|]. congruence.
  - intros k e' j. cbn [reminders]. destruct (decide (r_id e = k)) as [<-|Hk].
    + rewrite lookup_insert_eq. intros [= <-]. congruence.
    + rewrite lookup_insert_ne by done. intros He' Hje. right. by apply (Hr k e').
Qed.

Lemma schedule_ok n (s : State) ours e due ctx r :
  reminders_ok n s (new_job_id r :: ours) → (∀ j, j ∈ jobs_of s → Cron.id j ≠ new_job_id r) →
  cron_write r = None → reminders (store_of s) !! r_id e = Some e → r_status e = Pending → cron_job_id e = None →
  reminders_ok n (schedule_delivery storage_path storage_dir to_json cron_json s e due ctx r) (new_job_id r :: ours).
Proof.
  intros Hok Hi Hw He Hs Hnone. unfold schedule_delivery.
  destruct (cron s) as [c|] eqn:Hc, due as [due|], (channel ctx) as [ch|], (chat_id ctx) as [cid|]; try done.
  destruct Hok as [Hn Hl Hj Hr]. rewrite Hw. pose proof (add_store cron_json c (reminder_job e due ch cid r) None) as Hadd.
  destruct (add_job_with_timeout cron_json c (reminder_job e due ch cid r) None) as [res c'] eqn:Ha.
  assert (res = Ok (reminder_job e due ch cid r)) as -> by (unfold add_job_with_timeout in Ha; cbn in Ha; congruence).
  cbn [snd] in Hadd. cbn [Cron.id reminder_job new_job].
  destruct (ReminderStore.set_cron_job_id _ _ _ _ _ _ _ _) as [[b st] w] eqn:Hset.
  apply change_spec in Hset as [-> Hl']; [|done].
  assert (∀ j, delivers j (store_of s) →
    delivers j (mkReminderStore (alter (with_job (new_job_id r) (now_job r)) (r_id e) (reminders (store_of s))) (next_id (store_of s)))) as Hkeep.
  { intros j Hd. apply (delivers_other _ (r_id e)); [done|congruence|]. intros k Hk. by apply lookup_alter_ne. }
  split; cbn [store_of disk]; [by apply numbered_alter|done| |].
  - intros j Hin Ho. unfold jobs_of in Hin. cbn [cron] in Hin. rewrite Hadd in Hin.
    apply elem_of_app in Hin as [Hin| ->%list_elem_of_singleton].
    + apply Hkeep, Hj; [|done]. unfold jobs_of. by rewrite Hc.
    + exists (r_id e), (with_job (new_job_id r) (now_job r) e). cbn [reminders]. rewrite lookup_alter_eq, He.
      repeat split. cbn. congruence.
  - intros k e' j. cbn [reminders]. destruct (decide (r_id e = k)) as [<-|Hk].
    + rewrite lookup_alter_eq, He. intros [= <-] [= <-]. by left.
    + rewrite lookup_alter_ne by done. apply Hr.
Qed.

Lemma execute_ok n (s : State) ours args ctx r :
  reminders_ok n s ours → new_job_id r ∉ ours → (∀ j, j ∈ jobs_of s → Cron.id j ≠ new_job_id r) → cron_write r = None →
  Z.of_nat n + 1 < u64_max → reminders_ok (S n) (snd (execute args ctx s r)) (new_job_id r :: ours).
Proof.
  intros Hok Hnew Hi Hw Hmax. pose proof (ok_fresh _ _ _ _ Hok Hi) as Hsame. unfold Reminder.execute.
  destruct (arg_str args "action") as [action|]; [|done].
  destruct (String.eqb action "add"); [|destruct (String.eqb action "list"); [done|]].
  - unfold execute_add. destruct (text_arg arg_str args "title") as [t|]; [|done].
    destruct (match arg_str args "due_at" with Some _ => _ | None => _ end) as [due|]; [|done].
    destruct (add_spec n (store_of s) (disk s) t (text_arg arg_str args "description")
      (default "general" (text_arg arg_str args "category")) due (text_arg arg_str args "recurrence") (now_add r))
      as (e & w' & -> & Hl & Hid & Hfresh & _ & Hs & Hnone); [apply Hok|done|].
    cbn [snd]. apply schedule_ok; [by apply insert_ok|done|done|cbn [store_of reminders]; by rewrite lookup_insert_eq|done|done].
  - destruct (String.eqb action "complete"); [|destruct (String.eqb action "snooze");
      [|destruct (String.eqb action "remove"); [|by destruct (String.eqb action "overdue")]]].
    + unfold execute_complete. destruct (arg_str args "id") as [i|]; [|done].
      destruct (ReminderStore.complete _ _ _ _ _ _ _) as [[b st] w] eqn:Hc. exact (complete_ok _ _ _ _ _ _ Hsame _ _ _ Hc).
    + unfold execute_snooze. destruct (arg_str args "id") as [i|], (arg_str args "due_at") as [d|]; try done.
      destruct (parse_iso_to_epoch parse_from_rfc3339 parse_date d) as [due|]; [|done].
      destruct (ReminderStore.snooze _ _ _ _ _ _ _ _) as [[b st] w] eqn:Hc. exact (snooze_ok _ _ _ _ _ _ Hsame _ _ _ Hc).
    + unfold execute_remove. destruct (arg_str args "id") as [i|]; [|done].
      destruct (ReminderStore.remove _ _ _ _ _ _) as [[b st] w] eqn:Hc. exact (remove_ok _ _ _ _ _ Hsame _ _ _ Hc).
Qed.

Lemma restart_ok n s ours st :
  reminders_ok n s ours → Z.of_nat n + 1 < u64_max → ReminderStore.with_path storage_path of_json (disk s) = Ok st →
  reminders_ok n (mkState st (cron s) (disk s)) ours.
Proof.
  intros [[Hn He] Hl Hj Hr] Hmax. unfold ReminderStore.with_path. rewrite Hl. intros [= <-].
  destruct (max_id_bounds (reminders (store_of s)) (next_id (store_of s))) as [Hb Hle];
    [lia|by intros k e Hk; apply (He k e)|].
  split; cbn [store_of disk reminders]; [|done|by apply Hj|by apply Hr].
  rewrite wadd64_small by (unfold u64_max in *; lia). split; cbn [next_id reminders]; [lia|].
  intros k e Hk. destruct (He k e Hk) as (Hid & i & Hi & ->). split; [done|]. exists i. split; [|done].
  specialize (Hle i Hi (mk_is_Some _ _ Hk)). lia.
Qed.

(** After any history of calls of the reminder tool, steps of the scheduler and restarts,
    in which the files are written: every reminder is under a number of its own, the file holds
    the reminders of the store, and every delivery the tool scheduled that is still with the
    scheduler is that of a reminder that is in the store, not completed, and knows it. *)
Theorem reminder_histories n (s0 s : State) ours :
  store_of s0 = mkReminderStore ∅ 1 → load (disk s0) = Ok ∅ →
  Z.of_nat n < u64_max → reminder_run s0 n s ours → reminders_ok n s ours.
Proof.
  intros Hst Hd Hmax Hrun. induction Hrun as [|n s ours s' ours' Hrun IH Hstep].
  - split; unfold recorded, delivers; rewrite Hst; [split; cbn; [lia|]|done| |]; cbn.
    + by intros k e Hk%lookup_empty_Some.
    + by intros j _ Ho%elem_of_nil.
    + by intros k e j Hk%lookup_empty_Some.
  - specialize (IH ltac:(lia)). destruct Hstep as [s ours args ctx r Hnew Hi Hw|s ours c c' Hc Hjobs|s ours st Hopen].
    + apply execute_ok; [done..|lia].
    + destruct IH as [Hn Hl Hj Hr]. split; cbn [store_of disk]; [by apply numbered_more|done| |done].
      intros j' Hin Ho. destruct (Hjobs j' Hin) as [|(j & Hin' & Hid & Hp)]; [done|].
      unfold delivers. rewrite <- Hid, <- Hp. apply Hj; [unfold jobs_of; by rewrite Hc|by rewrite Hid].
    + apply (restart_ok _ _ _ st) in IH as [Hn Hl Hj Hr]; [|lia|done].
      split; [by apply numbered_more|done..].
Qed.
End histories.

Module Example_reminder.
Import Cron.Example_cron.
#[local] Existing Instance Example_memory.one_file.
#[local] Instance listing : MapOrder ReminderEntry := {| map_iter m := map_to_list m; map_iter_list m := reflexivity _ |}.

#[local] Instance status_countable : Countable ReminderStatus.
Proof.
  refine (inj_countable' (λ s, match s with Pending => 0 | Done => 1 | Snoozed => 2 end)
    (λ n, if n =? 0 then Pending else if n =? 1 then Done else Snoozed) _). by intros [].
Defined.

#[local] Instance entry_dec : EqDecision ReminderEntry.
Proof. solve_decision. Defined.

Definition fields_of (e : ReminderEntry) : list positive :=
  [encode (r_id e); encode (title e); encode (description e); encode (r_category e); encode (r_status e);
   encode (due_at e); encode (recurrence e); encode (cron_job_id e); encode (created e); encode (updated e)].

Definition of_fields (l : list positive) : option ReminderEntry :=
  match l with
  | [i; t; d; c; s; due; r; j; a; b] =>
    i ← decode i; t ← decode t; d ← decode d; c ← decode c; s ← decode s; due ← decode due; r ← decode r;
    j ← decode j; a ← decode a; b ← decode b; Some (mkReminderEntry i t d c s due r j a b)
  | _ => None
  end.

#[local] Instance entry_countable : Countable ReminderEntry.
Proof.
  refine (inj_countable fields_of of_fields _). intros [i t d c s due r j a b]. cbn -[encode decode].
  by rewrite !decode_encode.
Defined.

Definition to_json (m : gmap string ReminderEntry) : result string string := Ok (Example_memory.bits (encode m)).

Definition of_json (s : string) : result string (gmap string ReminderEntry) :=
  match Example_memory.of_bits s ≫= decode with
  | Some m => Ok m
  | None => Err "expected value at line 1 column 1"
  end.

#[local] Instance reliable : ReliableReminders (option string) to_json of_json.
Proof.
  split.
  - intros w. by exists w.
  - intros w s. by exists (Some s).
  - intros m. unfold to_json, of_json. eexists. split; [done|]. split; [apply Example_memory.bits_not_blank|].
    rewrite Example_memory.of_bits_bits. cbn [mbind option_bind]. by rewrite decode_encode.
Qed.

(** Arguments by name; a date is the number of its seconds. *)
Notation args := (list (string * string)).
Definition arg (a : args) (name : string) : option string := (λ f, snd (snd f)) <$> list_find (λ kv, fst kv = name) a.

Notation path := "/home/user/.zeptoclaw/reminders.json".
Notation dir := "/home/user/.zeptoclaw".
Notation state := (State (Body := CronStore) (W := option string)).
Notation call a ctx s r := (execute arg parse_usize (λ _, None) path dir to_json to_file a ctx s r).

Definition fresh : state := mkState (mkReminderStore ∅ 1) (Some (new (Body := CronStore) None)) None.
Definition chat : ToolContext := ToolContext.with_channel ToolContext.new "telegram" "42".

(** Call number [n], at second [n]. *)
Definition at_call (n : Z) (i : string) : Reads := mkReads n n (n * 1000) i None.

Definition tea : args := [("action", "add"); ("title", " Make tea "); ("due_at", "600")].
Definition bins : args := [("action", "add"); ("title", "Bins"); ("due_at", "900"); ("recurrence", "every week")].
Definition later : args := [("action", "snooze"); ("id", "r1"); ("due_at", "7200")].
Definition complete (i : string) : args := [("action", "complete"); ("id", i)].
Definition remove (i : string) : args := [("action", "remove"); ("id", i)].
Definition overdue : args := [("action", "overdue")].

Definition two : state := snd (call bins chat (snd (call tea chat fresh (at_call 1 "a"))) (at_call 2 "b")).

Definition deliveries (s : state) : list (string * CronSchedule * string) :=
  map (λ j, (Cron.id j, schedule j, message (payload j))) (jobs_of s).

Example two_deliveries :
  deliveries two = [("a", At 600000, "Reminder: Make tea"); ("b", At 900000, "Reminder: Bins")].
Proof. vm_compute. reflexivity. Qed.

(** A reminder that is snoozed is delivered at its first date, and only then; once it is
    snoozed it is never overdue. *)
Example snoozed_early :
  let s := snd (call later chat two (at_call 3 "c")) in
  (deliveries s, fst (call later chat two (at_call 3 "c")), fst (call overdue chat s (at_call 8000 "d")))
  = (deliveries two, Ok "Snoozed reminder r1 until 7200",
     Ok ("1 overdue reminder:" +:+ newline +:+ "⚠️ [r2] Bins (was due: 900)  [general]")).
Proof. vm_compute. reflexivity. Qed.

(** With a scheduler whose file cannot be written, the job is scheduled all the same, and no
    call of the tool cancels it. *)
Example unknown_delivery :
  let s := snd (call tea chat fresh (mkReads 1 1 1000 "a" (Some "No space left on device"))) in
  (deliveries s, deliveries (snd (call (complete "r1") chat s (at_call 2 "b"))),
   fst (call (complete "r1") chat s (at_call 2 "b")))
  = ([("a", At 600000, "Reminder: Make tea")], [("a", At 600000, "Reminder: Make tea")], Ok "Completed reminder r1").
Proof. vm_compute. reflexivity. Qed.

(** The number of the last reminder is given again after it is removed and the program is
    started again. *)
Example number_again :
  let s := snd (call (remove "r2") chat two (at_call 3 "c")) in
  next_id <$> (match ReminderStore.with_path path of_json (disk s) with Ok st => Some st | Err _ => None end) = Some 2.
Proof. vm_compute. reflexivity. Qed.

(** Two reminders; the first is snoozed; a restart; the job of the second has run; the first
    is completed. *)
Definition reopened (s : state) : state :=
  mkState (match ReminderStore.with_path path of_json (disk s) with Ok st => st | Err _ => store_of s end) (cron s) (disk s).
Definition second_ran (s : state) : state :=
  mkState (store_of s) ((λ c, (remove_job to_file c "b" None).2) <$> cron s) (disk s).

Definition restarted : state := reopened (snd (call later chat two (at_call 3 "c"))).
Definition last_state : state := snd (call (complete "r1") chat (second_ran restarted) (at_call 8 "d")).

Definition one : state := snd (call tea chat fresh (at_call 1 "a")).
Definition snoozed : state := snd (call later chat two (at_call 3 "c")).

Notation step := (reminder_step arg parse_usize (λ _, None) path dir to_json of_json to_file).

Lemma called s ours a i n :
  bool_decide (i ∉ ours) && forallb (λ j, negb (String.eqb (Cron.id j) i)) (jobs_of s) = true →
  step s ours (snd (call a chat s (at_call n i))) (i :: ours).
Proof.
  intros [Hi Hj]%andb_true_iff. apply bool_decide_eq_true in Hi. rewrite forallb_forall in Hj.
  apply (step_call _ _ _ _ _ _ _ _ s ours a chat (at_call n i)); [done| |done].
  intros j Hin Heq. specialize (Hj j (proj1 (list_elem_of_In _ _) Hin)). cbn in Heq.
  by rewrite Heq, String.eqb_refl in Hj.
Qed.

Lemma restart_read : ReminderStore.with_path path of_json (disk snoozed) = Ok (store_of restarted).
Proof. vm_compute. reflexivity. Qed.

Lemma one_ran : step restarted ["c"; "b"; "a"] (second_ran restarted) ["c"; "b"; "a"].
Proof.
  assert (∃ c, cron restarted = Some c) as [c Hc] by (eexists; vm_compute; reflexivity).
  unfold second_ran. rewrite Hc.
  apply (step_jobs _ _ _ _ _ _ _ _ restarted _ c); [done|]. intros j. rewrite remove_store. cbn [jobs with_jobs].
  intros [_ Hj]%list_elem_of_filter. right. by exists j.
Qed.

Lemma reminder_histories_witness :
  deliveries last_state = [] ∧ reminders_ok path of_json 6 last_state ["d"; "c"; "b"; "a"].
Proof.
  split; [vm_compute; reflexivity|].
  apply (reminder_histories arg parse_usize (λ _, None) path dir to_json of_json to_file 6 fresh); [done..|].
  eapply run_more; [|apply (called (second_ran restarted)); vm_compute; reflexivity].
  eapply run_more; [|exact one_ran].
  eapply run_more; [|apply (step_restart _ _ _ _ _ _ _ _ snoozed), restart_read].
  eapply run_more; [|apply (called two); vm_compute; reflexivity].
  eapply run_more; [|apply (called one); vm_compute; reflexivity].
  eapply run_more; [|apply (called fresh); vm_compute; reflexivity]. constructor.
Defined.
End Example_reminder.
