(* ===== verification/Wire.v ===== *)
(** What the providers that speak HTTP share: the options of a request
    (src/src/providers/types.rs and structured.rs), answers and their errors, and the loop over
    the bytes of an answer that [chat_stream] has in src/src/providers/claude.rs and in
    src/src/providers/openai.rs, with the decoding of the standard library it uses.

    JSON values and floats are types of their own, the HTTP client is a function; usage is the
    pair of its tokens, without their sum. *)

From S2P Require Import Prelude Lines Errors LoopGuard Repair.

(** ** Requests *)

Section requests.
Context (Value Float : Type).

Inductive OutputFormat : Type :=
| FormatText
| FormatJson
| JsonSchema (schema_name : string) (schema : Value) (strict : bool).

Record ToolDefinition : Type := mkToolDefinition {
  def_name : string;
  def_description : string;
  parameters : Value;
}.

Record ChatOptions : Type := mkChatOptions {
  max_tokens : option Z;
  temperature : option Float;
  top_p : option Float;
  stop : option (list string);
  output_format : OutputFormat;
}.
End requests.
Arguments FormatText {Value}.
Arguments FormatJson {Value}.
Arguments JsonSchema {Value} _ _ _.
Arguments mkToolDefinition {Value} _ _ _.
Arguments def_name {Value} _.
Arguments def_description {Value} _.
Arguments parameters {Value} _.
Arguments mkChatOptions {Value Float} _ _ _ _ _.
Arguments max_tokens {Value Float} _.
Arguments temperature {Value Float} _.
Arguments top_p {Value Float} _.
Arguments stop {Value Float} _.
Arguments output_format {Value Float} _.

(** What the client gives: an error, or a status and the chunks of the body, the last of which
    may be the error of the connection. *)
Inductive Reply : Type :=
| Failed (e : string)
| Answer (status : Z) (body : list (result string string)).

Definition is_success (status : Z) : bool := (200 <=? status) && (status <=? 299).

(** The bytes of a body. *)
Fixpoint body_bytes (body : list (result string string)) : result string string :=
  match body with
  | [] => Ok ""
  | Ok c :: body => match body_bytes body with Ok s => Ok (c +:+ s) | Err e => Err e end
  | Err e :: _ => Err e
  end.

(** The text of an error that is read as far as it goes, with the type and the message of its
    JSON. *)
Definition api_error (api : string) (parse_error : string → option (string * string)) (text : string) : string :=
  match parse_error text with
  | Some (ty, msg) => api +:+ " API error: " +:+ ty +:+ " - " +:+ msg
  | None => api +:+ " API error: " +:+ text
  end.

(** ** Decoding *)

Definition between (lo hi : N) (c : Ascii.ascii) : bool := N.leb lo (byte_val c) && N.leb (byte_val c) hi.

(** The bytes that complete a character, by its first byte; [None] when it starts none. *)
Definition tail_of (b : Ascii.ascii) : option (list (Ascii.ascii → bool)) :=
  let x := byte_val b in
  if N.ltb x 128 then Some []
  else if between 194 223 b then Some [is_cont]
  else if N.eqb x 224 then Some [between 160 191; is_cont]
  else if N.eqb x 237 then Some [between 128 159; is_cont]
  else if between 225 239 b then Some [is_cont; is_cont]
  else if N.eqb x 240 then Some [between 144 191; is_cont; is_cont]
  else if between 241 243 b then Some [is_cont; is_cont; is_cont]
  else if N.eqb x 244 then Some [between 128 143; is_cont; is_cont]
  else None.

Fixpoint matched (ps : list (Ascii.ascii → bool)) (s : string) : nat :=
  match ps, s with
  | p :: ps, String b s => if p b then S (matched ps s) else 0%nat
  | _, _ => 0%nat
  end.

(** Whether [b], before [s], starts a character, and how many bytes of [s] belong to it, or to
    the beginning of one that is replaced. *)
Definition character (b : Ascii.ascii) (s : string) : bool * nat :=
  match tail_of b with
  | Some ps => let n := matched ps s in (Nat.eqb n (length ps), n)
  | None => (false, 0%nat)
  end.

(** [skip] bytes belong to the character before; they are kept if it was one. *)
Fixpoint lossy (keep : bool) (skip : nat) (s : string) : string :=
  match s with
  | EmptyString => ""
  | String b s' =>
    match skip with
    | S n => if keep then String b (lossy keep n s') else lossy keep n s'
    | O =>
      let '(ok, n) := character b s' in
      if ok then String b (lossy true n s') else replacement_char +:+ lossy false n s'
    end
  end.

(** [String::from_utf8_lossy]. *)
Definition from_utf8_lossy (s : string) : string := lossy true 0 s.

(** [str::from_utf8] succeeds. *)
Fixpoint valid_utf8 (skip : nat) (s : string) : bool :=
  match s with
  | EmptyString => Nat.eqb skip 0
  | String b s' =>
    match skip with
    | S n => valid_utf8 n s'
    | O => let '(ok, n) := character b s' in ok && valid_utf8 n s'
    end
  end.

Definition is_utf8 (s : string) : Prop := valid_utf8 0 s = true.

Lemma lossy_valid s : is_utf8 s → from_utf8_lossy s = s.
Proof.
  unfold is_utf8, from_utf8_lossy. assert (∀ n, valid_utf8 n s = true → lossy true n s = s) as Hl; [|apply Hl].
  induction s as [|b s IH]; intros n; cbn [valid_utf8 lossy]; [done|].
  destruct n as [|n]; [|intros Hv; by rewrite IH].
  destruct (character b s) as [[] n]; cbn [andb]; [intros Hv; by rewrite IH|done].
Qed.

(** [Response::text], empty when the body cannot be read. *)
Definition body_text (body : list (result string string)) : string :=
  match body_bytes body with Ok s => from_utf8_lossy s | Err _ => "" end.

(** ** Events *)

Inductive StreamEvent : Type :=
| Delta (text : string)
| ToolCalls (calls : list LLMToolCall)
| Done (content : string) (usage : option (Z * Z))
| Error (e : ZeptoError).

(** A channel and what its receiver got; [room] is what the receiver takes before it is
    dropped, [None] when it is not dropped. *)
Record Sender : Type := mkSender { received : list StreamEvent; room : option nat }.

Definition send (ch : Sender) (e : StreamEvent) : bool * Sender :=
  match room ch with
  | Some O => (false, ch)
  | Some (S n) => (true, mkSender (received ch ++ [e]) (Some n))
  | None => (true, mkSender (received ch ++ [e]) None)
  end.

Definition up_to {A} (room : option nat) (l : list A) : list A :=
  match room with Some n => take n l | None => l end.

(** The channel after some events, whatever [send] answers. *)
Definition send_all (ch : Sender) (es : list StreamEvent) : Sender := foldl (λ ch e, snd (send ch e)) ch es.

Lemma send_all_app ch a b : send_all ch (a ++ b) = send_all (send_all ch a) b.
Proof. apply foldl_app. Qed.

Lemma send_closed ch es : room ch = Some 0%nat → send_all ch es = ch.
Proof. intros Hr. induction es as [|e es IH]; [done|]. cbn. unfold send at 2. by rewrite Hr. Qed.

Lemma send_fails ch e ch' : send ch e = (false, ch') → ch' = ch ∧ room ch = Some 0%nat.
Proof. unfold send. destruct (room ch) as [[]|] eqn:Hr; by intros [= <-]. Qed.

Lemma send_all_received es ch : received (send_all ch es) = received ch ++ up_to (room ch) es.
Proof.
  revert ch. induction es as [|e es IH]; intros ch; [destruct ch as [r [[|n]|]]; symmetry; apply app_nil_r|].
  change (send_all ch (e :: es)) with (send_all (snd (send ch e)) es). rewrite IH.
  destruct ch as [r [[|n]|]]; cbn; [by destruct es|by rewrite <- app_assoc..].
Qed.

(** ** Lines *)

(** After a line: go on, leave the loop over the lines, or return. *)
Inductive LineResult (A : Type) : Type := Next (a : A) | Break (a : A) | Return (a : A).
Arguments Next {A} _. Arguments Break {A} _. Arguments Return {A} _.

(** The data of a trimmed line. *)
Definition data_of (line : string) : option string :=
  if str_is_empty line || starts_with line "event:" then None
  else match strip_prefix line "data: " with
       | Some stripped => Some stripped
       | None => strip_prefix line "data:"
       end.

Lemma split_once_length b s l r : split_once b s = Some (l, r) → (String.length r < String.length s)%nat.
Proof.
  revert l. induction s as [|c s IH]; intros l; cbn [split_once]; [done|].
  destruct (Ascii.eqb c b); [intros [= <- <-]; cbn; lia|].
  destruct (split_once b s) as [[x y]|]; cbn; [|done]. intros [= <- <-]. specialize (IH x eq_refl). lia.
Qed.

Section reader.
Context {A : Type}.
(** What is done with the data of a line, with the end of the stream and with a failure of it;
    and whether the break of the inner loop is followed by one of the outer loop. *)
Context (on_data : A → string → LineResult A) (finish : A → A) (on_error : A → string → A) (break_ends : bool).
Implicit Types (a : A) (line buffer : string).

Definition on_line a line : LineResult A :=
  match data_of (trim line) with
  | Some data => on_data a data
  | None => Next a
  end.

(** The lines of the buffer, each of which is cut off before it is looked at. *)
Fixpoint drain (fuel : nat) a buffer : LineResult (A * string) :=
  match fuel with
  | O => Next (a, buffer)
  | S fuel =>
    match split_once lf buffer with
    | None => Next (a, buffer)
    | Some (line, rest) =>
      match on_line a line with
      | Next a => drain fuel a rest
      | Break a => Break (a, rest)
      | Return a => Return (a, rest)
      end
    end
  end.

(** A chunk is its bytes, or the error of the connection. *)
Fixpoint read_chunks a buffer (chunks : list (result string string)) : A :=
  match chunks with
  | [] => finish a
  | Err e :: _ => on_error a e
  | Ok bytes :: chunks =>
    let buffer := buffer +:+ from_utf8_lossy bytes in
    match drain (S (String.length buffer)) a buffer with
    | Next (a, buffer) => read_chunks a buffer chunks
    | Break (a, buffer) => if break_ends then finish a else read_chunks a buffer chunks
    | Return (a, _) => a
    end
  end.

(** The complete lines of a text, and what follows the last line feed. *)
Fixpoint split_lines (s : string) : list string * string :=
  match s with
  | EmptyString => ([], "")
  | String c s' =>
    let '(ls, last) := split_lines s' in
    if Ascii.eqb c lf then ("" :: ls, last)
    else match ls with
         | [] => ([], String c last)
         | l :: ls => (String c l :: ls, last)
         end
  end.

(** What reading the lines of a whole response amounts to. *)
Fixpoint read_lines a (ls : list string) : LineResult A :=
  match ls with
  | [] => Next a
  | l :: ls => match on_line a l with Next a => read_lines a ls | r => r end
  end.

Lemma split_lines_once s :
  split_lines s = match split_once lf s with
                  | Some (l, rest) => let '(ls, last) := split_lines rest in (l :: ls, last)
                  | None => ([], s)
                  end.
Proof.
  induction s as [|c s IH]; [done|]. cbn [split_lines split_once].
  destruct (Ascii.eqb c lf); [by destruct (split_lines s)|].
  rewrite IH. destruct (split_once lf s) as [[l rest]|]; cbn; [by destruct (split_lines rest)|done].
Qed.

Lemma split_lines_app s t :
  split_lines (s +:+ t) =
    let '(l1, r1) := split_lines s in let '(l2, r2) := split_lines (r1 +:+ t) in (l1 ++ l2, r2).
Proof.
  induction s as [|c s IH]; [cbn; by destruct (split_lines t)|].
  change (String c s +:+ t) with (String c (s +:+ t)). cbn [split_lines]. rewrite IH.
  destruct (split_lines s) as [l1 r1]. destruct (Ascii.eqb c lf) eqn:Hc.
  - by destruct (split_lines (r1 +:+ t)).
  - destruct l1 as [|l l1]; [|by destruct (split_lines (r1 +:+ t))].
    change (String c r1 +:+ t) with (String c (r1 +:+ t)). cbn [split_lines]. rewrite Hc.
    by destruct (split_lines (r1 +:+ t)) as [[|l2 ls2] r2].
Qed.

Lemma split_lines_line l t : no_byte lf l = true → split_lines (l +:+ String lf t) =
  let '(ls, last) := split_lines t in (l :: ls, last).
Proof.
  induction l as [|c l IH]; [done|]. cbn [no_byte all_bytes]. intros [Hc Hl]%andb_prop.
  apply negb_true_iff in Hc. change (String c l +:+ String lf t) with (String c (l +:+ String lf t)).
  cbn [split_lines]. rewrite IH, Hc by done. by destruct (split_lines t).
Qed.

Lemma split_lines_unlines ls last :
  Forall (λ l, no_byte lf l = true) ls → no_byte lf last = true → split_lines (unlines ls last) = (ls, last).
Proof.
  intros Hls Hlast. unfold unlines. induction Hls as [|l ls Hl _ IH].
  - cbn. induction last as [|c s IH]; [done|]. cbn [no_byte all_bytes split_lines] in *.
    apply andb_prop in Hlast as [Hc%negb_true_iff Hs]. by rewrite (IH Hs), Hc.
  - cbn [map str_concat]. rewrite !str_app_assoc. change (newline +:+ ?x) with (String lf x).
    by rewrite split_lines_line, IH.
Qed.

(** The fuel of [drain] is enough: it reads the complete lines. *)
Lemma drain_lines fuel a buffer :
  (String.length buffer < fuel)%nat →
  match read_lines a (fst (split_lines buffer)) with
  | Next a' => drain fuel a buffer = Next (a', snd (split_lines buffer))
  | Break a' => ∃ rest, drain fuel a buffer = Break (a', rest)
  | Return a' => ∃ rest, drain fuel a buffer = Return (a', rest)
  end.
Proof.
  revert a buffer. induction fuel as [|fuel IH]; intros a buffer Hf; [lia|]. cbn [drain]. rewrite split_lines_once.
  destruct (split_once lf buffer) as [[l rest]|] eqn:Hs; [|done].
  assert (String.length rest < fuel)%nat as Hr by (apply split_once_length in Hs; lia).
  destruct (split_lines rest) as [ls last] eqn:Hsp. cbn [fst snd read_lines].
  destruct (on_line a l) as [a1|a1|a1]; [|by eexists..].
  specialize (IH a1 rest Hr). by rewrite Hsp in IH.
Qed.

Lemma read_lines_app a l1 l2 :
  read_lines a (l1 ++ l2) = match read_lines a l1 with Next a => read_lines a l2 | r => r end.
Proof. revert a. induction l1 as [|l l1 IH]; intros a; [done|]. cbn. by destruct (on_line a l). Qed.

Lemma split_lines_last s : split_lines (snd (split_lines s)) = ([], snd (split_lines s)).
Proof.
  induction s as [|c s IH]; [done|]. cbn [split_lines]. destruct (split_lines s) as [ls last]. cbn [snd] in IH.
  destruct (Ascii.eqb c lf) eqn:Hc; [done|]. destruct ls; [|done]. cbn [snd split_lines]. by rewrite IH, Hc.
Qed.

(** What a result means for the whole stream; a break that does not end it says nothing. *)
Definition settled (r : LineResult A) : option A :=
  match r with
  | Next a => Some (finish a)
  | Break a => if break_ends then Some (finish a) else None
  | Return a => Some a
  end.

(** However the bytes of a response are cut into chunks of whole characters, reading it is
    reading its lines. *)
Lemma read_chunks_lines chunks a a' buffer :
  Forall is_utf8 chunks → split_lines buffer = ([], buffer) →
  settled (read_lines a (fst (split_lines (buffer +:+ str_concat chunks)))) = Some a' →
  read_chunks a buffer (map Ok chunks) = a'.
Proof.
  intros Hc. revert a buffer. induction Hc as [|c chunks Hv _ IH]; intros a buffer Hb.
  - cbn [str_concat]. rewrite str_app_nil_r, Hb. by intros [= <-].
  - cbn [str_concat map read_chunks]. rewrite (lossy_valid c Hv), <- str_app_assoc, split_lines_app.
    set (text := buffer +:+ c). pose proof (drain_lines (S (String.length text)) a text ltac:(lia)) as Hd.
    pose proof (split_lines_last text) as Hlast. destruct (split_lines text) as [l1 r1]. cbn [fst snd] in *.
    destruct (split_lines (r1 +:+ str_concat chunks)) as [l2 r2] eqn:H2. cbn [fst]. rewrite read_lines_app.
    destruct (read_lines a l1) as [a1|a1|a1]; [rewrite Hd|destruct Hd as [rest ->]..]; cbn [settled].
    + specialize (IH a1 r1 Hlast). by rewrite H2 in IH.
    + destruct break_ends; by intros [= <-].
    + by intros [= <-].
Qed.
End reader.

Lemma send_or_closed ch e :
  (∃ ch', send ch e = (true, ch') ∧ ch' = send_all ch [e]) ∨ send ch e = (false, ch) ∧ room ch = Some 0%nat.
Proof. unfold send_all, send. cbn. unfold send. destruct (room ch) as [[]|]; [by right|left; by eexists..]. Qed.
