(* ===== verification/Claude.v ===== *)
(** The provider of src/src/providers/claude.rs: what a transcript becomes as a request, and how
    an answer is read, as a whole or as a stream.

    JSON, the HTTP client and the validity of header values are arguments. The settings of the
    client and the log line of an invalid key are left out. *)

From S2P Require Import Prelude Lines Errors LoopGuard Session AgentLoop Wire.

Definition DEFAULT_MODEL : string := "claude-sonnet-4-6".
Definition CLAUDE_API_URL : string := "https://api.anthropic.com/v1/messages".
Definition ANTHROPIC_VERSION : string := "2023-06-01".

Inductive ResolvedCredential : Type :=
| ApiKey (key : string)
| BearerToken (access_token : string) (expires_at : option Z).

(** The headers of a credential; [header_value] is what [HeaderValue::from_str] makes of a text. *)
Definition auth_headers (header_value : string → option string) (credential : ResolvedCredential)
    : list (string * string) :=
  match credential with
  | ApiKey key => match header_value key with Some v => [("x-api-key", v)] | None => [] end
  | BearerToken access_token _ =>
    match header_value ("Bearer " +:+ access_token) with Some v => [("authorization", v)] | None => [] end
    ++ [("anthropic-beta", "claude-code-20250219,oauth-2025-04-20")]
  end.

Section claude.
Context {Value Float : Type}.
(** [serde_json::from_str], the empty object, and [to_string]. *)
Context (json_value : string → option Value) (empty_object : Value) (json_text : Value → string).
Context (json_pretty : Value → string).

Inductive ClaudeContentBlock : Type :=
| BText (text : string)
| BToolUse (id name : string) (input : Value)
| BToolResult (tool_use_id content : string)
| BImage (media_type data : string).

Inductive ClaudeContent : Type := CText (text : string) | CBlocks (blocks : list ClaudeContentBlock).

Record ClaudeMessage : Type := mkClaudeMessage { cm_role : string; cm_content : ClaudeContent }.

Record ClaudeTool : Type := mkClaudeTool { ct_name : string; ct_description : string; input_schema : Value }.

Record ClaudeRequest : Type := mkClaudeRequest {
  cr_model : string;
  cr_max_tokens : Z;
  cr_messages : list ClaudeMessage;
  cr_system : option string;
  cr_tools : option (list ClaudeTool);
  cr_temperature : option Float;
  cr_top_p : option Float;
  stop_sequences : option (list string);
  stream : option bool;
}.

(** ** Requests *)

(** What has been converted: the system message, the messages, and results that wait for the
    end of their run. *)
Record Converted : Type := mkConverted {
  system : option string;
  claude_messages : list ClaudeMessage;
  pending_tool_results : list ClaudeContentBlock;
}.

Definition flushed (c : Converted) : list ClaudeMessage :=
  match pending_tool_results c with
  | [] => claude_messages c
  | results => claude_messages c ++ [mkClaudeMessage "user" (CBlocks results)]
  end.

Definition part_block (p : ContentPart) : option ClaudeContentBlock :=
  match p with
  | Session.Text text => Some (BText text)
  | Session.Image (Base64 data) media_type => Some (BImage media_type data)
  | Session.Image _ _ => None
  end.

Definition user_content (msg : Message) : ClaudeContent :=
  if Message.has_images msg then CBlocks (omap part_block (content_parts msg)) else CText (content msg).

Definition use_block (tc : ToolCall) : ClaudeContentBlock :=
  BToolUse (id tc) (name tc) (default empty_object (json_value (arguments tc))).

Definition assistant_content (msg : Message) : ClaudeContent :=
  match tool_calls msg with
  | Some tool_calls =>
    CBlocks ((if str_is_empty (content msg) then [] else [BText (content msg)]) ++ map use_block tool_calls)
  | None => CText (content msg)
  end.

Definition convert_message (c : Converted) (msg : Message) : Converted :=
  match role msg with
  | System => mkConverted (Some (content msg)) (claude_messages c) (pending_tool_results c)
  | User => mkConverted (system c) (flushed c ++ [mkClaudeMessage "user" (user_content msg)]) []
  | Assistant => mkConverted (system c) (flushed c ++ [mkClaudeMessage "assistant" (assistant_content msg)]) []
  | Session.Tool =>
    match tool_call_id msg with
    | Some tool_call_id =>
      mkConverted (system c) (claude_messages c)
        (pending_tool_results c ++ [BToolResult tool_call_id (content msg)])
    | None => c
    end
  end.

Definition convert_messages (messages : list Message) : result ZeptoError (option string * list ClaudeMessage) :=
  let c := foldl convert_message (mkConverted None [] []) messages in Ok (system c, flushed c).

Definition convert_tools (tools : list (ToolDefinition Value)) : list ClaudeTool :=
  map (λ t, mkClaudeTool (def_name t) (def_description t) (parameters t)) tools.

Definition to_claude_system_suffix (f : OutputFormat Value) : option string :=
  match f with
  | FormatText => None
  | FormatJson => Some (newline +:+ newline +:+ "IMPORTANT: You MUST respond with valid JSON only. No markdown, no explanation, just JSON.")
  | JsonSchema _ schema _ =>
    Some (newline +:+ newline +:+ "IMPORTANT: You MUST respond with valid JSON matching this schema:" +:+ newline
          +:+ "```json" +:+ newline +:+ json_pretty schema +:+ newline +:+ "```" +:+ newline
          +:+ "Respond with JSON only, no markdown fences, no explanation.")
  end.

Definition build_request (messages : list Message) (tools : list (ToolDefinition Value)) (model : option string)
    (options : ChatOptions Value Float) (stream : option bool) : result ZeptoError ClaudeRequest :=
  match convert_messages messages with
  | Err e => Err e
  | Ok (system, claude_messages) =>
    let system := match to_claude_system_suffix (output_format options) with
                  | Some suffix => Some (default "" system +:+ suffix)
                  | None => system
                  end in
    Ok (mkClaudeRequest (default DEFAULT_MODEL model) (default 8192 (max_tokens options)) claude_messages system
          (match tools with [] => None | _ => Some (convert_tools tools) end)
          (temperature options) (top_p options) (stop options) stream)
  end.

(** ** Answers *)

Record ClaudeResponse : Type := mkClaudeResponse {
  response_blocks : list ClaudeContentBlock;
  input_tokens : Z;
  output_tokens : Z;
}.

Definition respond (r : string * list LLMToolCall) (block : ClaudeContentBlock) : string * list LLMToolCall :=
  let '(content, calls) := r in
  match block with
  | BText text => ((if str_is_empty content then content else content +:+ newline) +:+ text, calls)
  | BToolUse id name input => (content, calls ++ [mkLLMToolCall id name (json_text input)])
  | _ => r
  end.

Definition convert_response (response : ClaudeResponse) : LLMResponse :=
  let '(content, calls) := foldl respond ("", []) (response_blocks response) in
  mkLLMResponse content calls (Some (input_tokens response, output_tokens response)).

(** ** The stream *)

Record SseUsage : Type := mkSseUsage { usage_input : option Z; usage_output : option Z }.

Record SseDelta : Type := mkSseDelta {
  delta_type : option string;
  delta_text : option string;
  partial_json : option string;
}.

Record SseContentBlock : Type := mkSseContentBlock {
  block_type : string;
  block_id : option string;
  block_name : option string;
}.

(** [message] is the usage in it. *)
Record SseEvent : Type := mkSseEvent {
  event_type : string;
  delta : option SseDelta;
  content_block : option SseContentBlock;
  usage : option SseUsage;
  message : option (option SseUsage);
}.

Record Reading : Type := mkReading {
  assembled_content : string;
  calls : list LLMToolCall;
  current_tool_id : option string;
  current_tool_name : option string;
  current_tool_json : string;
  tokens_in : Z;
  tokens_out : Z;
  tx : Sender;
}.

Definition reading_new (tx : Sender) : Reading := mkReading "" [] None None "" 0 0 tx.

Definition finish (s : Reading) : Reading :=
  let '(calls, tx) := match calls s with
                      | [] => ([], tx s)
                      | calls => ([], snd (send (tx s) (ToolCalls calls)))
                      end in
  let tx := snd (send tx (Done (assembled_content s) (Some (tokens_in s, tokens_out s)))) in
  mkReading (assembled_content s) calls (current_tool_id s) (current_tool_name s) (current_tool_json s)
    (tokens_in s) (tokens_out s) tx.

Definition on_error (s : Reading) (e : string) : Reading :=
  mkReading (assembled_content s) (calls s) (current_tool_id s) (current_tool_name s) (current_tool_json s)
    (tokens_in s) (tokens_out s) (snd (send (tx s) (Error (Provider ("Stream read error: " +:+ e))))).

Definition on_delta (s : Reading) (d : SseDelta) : LineResult Reading :=
  match delta_type d with
  | Some "text_delta" =>
    match delta_text d with
    | Some text =>
      let '(sent, tx) := send (tx s) (Delta text) in
      let s := mkReading (assembled_content s +:+ text) (calls s) (current_tool_id s) (current_tool_name s)
                 (current_tool_json s) (tokens_in s) (tokens_out s) tx in
      if sent then Next s else Return s
    | None => Next s
    end
  | Some "input_json_delta" =>
    match partial_json d with
    | Some json_chunk =>
      Next (mkReading (assembled_content s) (calls s) (current_tool_id s) (current_tool_name s)
              (current_tool_json s +:+ json_chunk) (tokens_in s) (tokens_out s) (tx s))
    | None => Next s
    end
  | _ => Next s
  end.

Definition on_block_stop (s : Reading) : Reading :=
  match current_tool_id s, current_tool_name s with
  | Some id, Some name =>
    let args := if str_is_empty (current_tool_json s) then "{}" else current_tool_json s in
    mkReading (assembled_content s) (calls s ++ [mkLLMToolCall id name args]) None None "" (tokens_in s)
      (tokens_out s) (tx s)
  | _, _ =>
    mkReading (assembled_content s) (calls s) None None (current_tool_json s) (tokens_in s) (tokens_out s) (tx s)
  end.

Definition on_event (s : Reading) (sse : SseEvent) : LineResult Reading :=
  let kind := event_type sse in
  if String.eqb kind "message_start" then
    match message sse with
    | Some (Some usage) =>
      Next (mkReading (assembled_content s) (calls s) (current_tool_id s) (current_tool_name s)
              (current_tool_json s) (default 0 (usage_input usage)) (tokens_out s) (tx s))
    | _ => Next s
    end
  else if String.eqb kind "content_block_start" then
    match content_block sse with
    | Some block =>
      if String.eqb (block_type block) "tool_use" then
        Next (mkReading (assembled_content s) (calls s) (block_id block) (block_name block) "" (tokens_in s)
                (tokens_out s) (tx s))
      else Next s
    | None => Next s
    end
  else if String.eqb kind "content_block_delta" then
    match delta sse with Some d => on_delta s d | None => Next s end
  else if String.eqb kind "content_block_stop" then Next (on_block_stop s)
  else if String.eqb kind "message_delta" then
    match usage sse with
    | Some usage =>
      Next (mkReading (assembled_content s) (calls s) (current_tool_id s) (current_tool_name s)
              (current_tool_json s) (tokens_in s) (default 0 (usage_output usage)) (tx s))
    | None => Next s
    end
  else if String.eqb kind "message_stop" then Return (finish s)
  else Next s.

(** The end of the data leaves the loop over the lines of the buffer, not the one over the
    chunks. *)
Definition on_data (parse_sse : string → option SseEvent) (s : Reading) (data : string) : LineResult Reading :=
  if String.eqb data "[DONE]" then Break s
  else match parse_sse data with
       | Some sse => on_event s sse
       | None => Next s
       end.

Definition read_stream (parse_sse : string → option SseEvent) (sender : Sender)
    (chunks : list (result string string)) : Sender :=
  tx (read_chunks (on_data parse_sse) finish on_error false (reading_new sender) "" chunks).

(** ** The provider *)

Section provider.
Context `{RustUnicode}.
Context (post : list (string * string) → ClaudeRequest → Reply) (header_value : string → option string).
Context (parse_response : string → result string ClaudeResponse) (parse_error : string → option (string * string)).
Context (parse_sse : string → option SseEvent).

Definition failure (status : Z) (body : list (result string string)) : ZeptoError :=
  ProviderTyped (parse_provider_error status (api_error "Claude" parse_error (body_text body))).

Definition headers (credential : ResolvedCredential) : list (string * string) :=
  auth_headers header_value credential
  ++ [("anthropic-version", ANTHROPIC_VERSION); ("content-type", "application/json")].

Definition chat (credential : ResolvedCredential) messages tools model (options : ChatOptions Value Float)
    : result ZeptoError LLMResponse :=
  match build_request messages tools model options None with
  | Err e => Err e
  | Ok request =>
    match post (headers credential) request with
    | Failed e => Err (Http e)
    | Answer status body =>
      if negb (is_success status) then Err (failure status body)
      else match body_bytes body with
           | Err e => Err (Http e)
           | Ok bytes => match parse_response bytes with
                         | Ok response => Ok (convert_response response)
                         | Err e => Err (Http e)
                         end
           end
    end
  end.

(** The stream is read while its receiver takes the events. *)
Definition chat_stream (credential : ResolvedCredential) messages tools model (options : ChatOptions Value Float)
    (room : option nat) : result ZeptoError (list StreamEvent) :=
  match build_request messages tools model options (Some true) with
  | Err e => Err e
  | Ok request =>
    match post (headers credential) request with
    | Failed e => Err (Http e)
    | Answer status body =>
      if negb (is_success status) then Err (failure status body)
      else Ok (received (read_stream parse_sse (mkSender [] room) body))
    end
  end.
End provider.

(** ** What a request says *)

(** The parts of a conversation. *)
Inductive Item : Type :=
| Said (who text : string)
| Shown (media_type data : string)
| Called (id name : string) (input : Value)
| Answered (id text : string).

Definition part_item (p : ContentPart) : option Item :=
  match p with
  | Session.Text text => Some (Said "user" text)
  | Session.Image (Base64 data) media_type => Some (Shown media_type data)
  | _ => None
  end.

Definition message_items (m : Message) : list Item :=
  match role m with
  | System => []
  | User => if Message.has_images m then omap part_item (content_parts m) else [Said "user" (content m)]
  | Assistant =>
    match tool_calls m with
    | Some tcs =>
      (if str_is_empty (content m) then [] else [Said "assistant" (content m)])
      ++ map (λ tc, Called (id tc) (name tc) (default empty_object (json_value (arguments tc)))) tcs
    | None => [Said "assistant" (content m)]
    end
  | Session.Tool => match tool_call_id m with Some i => [Answered i (content m)] | None => [] end
  end.

Definition block_item (who : string) (b : ClaudeContentBlock) : Item :=
  match b with
  | BText text => Said who text
  | BToolUse id name input => Called id name input
  | BToolResult id text => Answered id text
  | BImage media_type data => Shown media_type data
  end.

Definition claude_items (m : ClaudeMessage) : list Item :=
  match cm_content m with
  | CText text => [Said (cm_role m) text]
  | CBlocks blocks => map (block_item (cm_role m)) blocks
  end.

Definition uses (m : ClaudeMessage) : list string := omap (λ i, match i with Called i _ _ => Some i | _ => None end) (claude_items m).
Definition results (m : ClaudeMessage) : list string := omap (λ i, match i with Answered i _ => Some i | _ => None end) (claude_items m).

(** What the interface demands of a conversation: the calls of an assistant are answered, all and
    in their order, by the next message, which is one of the user; nothing else is answered.
    [open] are the calls of the message before. *)
Fixpoint paired (open : list string) (ms : list ClaudeMessage) : Prop :=
  match ms with
  | [] => open = []
  | m :: ms =>
    results m = open ∧ (open ≠ [] → cm_role m = "user") ∧ (uses m ≠ [] → cm_role m = "assistant") ∧
    paired (uses m) ms
  end.

Definition system_of (messages : list Message) : option string :=
  content <$> last (filter (λ m, role m = System) messages).

(** The messages from a state on. *)
Fixpoint converted (pending : list ClaudeContentBlock) (messages : list Message) : list ClaudeMessage :=
  let flush := match pending with [] => [] | _ => [mkClaudeMessage "user" (CBlocks pending)] end in
  match messages with
  | [] => flush
  | m :: messages =>
    match role m with
    | System => converted pending messages
    | User => flush ++ [mkClaudeMessage "user" (user_content m)] ++ converted [] messages
    | Assistant => flush ++ [mkClaudeMessage "assistant" (assistant_content m)] ++ converted [] messages
    | Session.Tool =>
      match tool_call_id m with
      | Some i => converted (pending ++ [BToolResult i (content m)]) messages
      | None => converted pending messages
      end
    end
  end.

Lemma flushed_app s out pending :
  flushed (mkConverted s out pending) = out ++ match pending with [] => [] | _ => [mkClaudeMessage "user" (CBlocks pending)] end.
Proof. destruct pending; [by rewrite app_nil_r|done]. Qed.

Lemma convert_converted messages s out pending :
  flushed (foldl convert_message (mkConverted s out pending) messages) = out ++ converted pending messages ∧
  system (foldl convert_message (mkConverted s out pending) messages) =
    match system_of messages with Some text => Some text | None => s end.
Proof.
  unfold system_of. revert s out pending.
  induction messages as [|m messages IH]; intros s out pending; [split; [apply flushed_app|done]|].
  cbn [foldl converted]. unfold convert_message at 2 4. cbn [system claude_messages pending_tool_results].
  rewrite filter_cons. destruct (role m); cbn [decide].
  - destruct (IH (Some (content m)) out pending) as [-> ->]. split; [done|].
    rewrite decide_True, last_cons by done. by destruct (last (filter _ messages)).
  - rewrite flushed_app. edestruct IH as [-> ->]. by rewrite <- !app_assoc.
  - rewrite flushed_app. edestruct IH as [-> ->]. by rewrite <- !app_assoc.
  - destruct (tool_call_id m); apply IH.
Qed.

Lemma part_items ps : map (block_item "user") (omap part_block ps) = omap part_item ps.
Proof. induction ps as [|[t|[d|f|u] mt] ps IH]; cbn; by rewrite ?IH. Qed.

Lemma user_items m : claude_items (mkClaudeMessage "user" (user_content m)) =
  if Message.has_images m then omap part_item (content_parts m) else [Said "user" (content m)].
Proof. unfold claude_items, user_content. cbn. destruct (Message.has_images m); [apply part_items|done]. Qed.

Lemma assistant_items m : claude_items (mkClaudeMessage "assistant" (assistant_content m)) =
  match tool_calls m with
  | Some tcs =>
    (if str_is_empty (content m) then [] else [Said "assistant" (content m)])
    ++ map (λ tc, Called (id tc) (name tc) (default empty_object (json_value (arguments tc)))) tcs
  | None => [Said "assistant" (content m)]
  end.
Proof.
  unfold claude_items, assistant_content. cbn. destruct (tool_calls m) as [tcs|]; [|done].
  rewrite map_app, map_map. by destruct (str_is_empty (content m)).
Qed.

Definition results_message (pending : list ClaudeContentBlock) : list ClaudeMessage :=
  match pending with [] => [] | _ => [mkClaudeMessage "user" (CBlocks pending)] end.

Lemma results_items pending : results_message pending ≫= claude_items = map (block_item "user") pending.
Proof. destruct pending as [|b pending]; [done|]. apply app_nil_r. Qed.

Lemma converted_items messages pending :
  converted pending messages ≫= claude_items = map (block_item "user") pending ++ (messages ≫= message_items).
Proof.
  revert pending. induction messages as [|m messages IH]; intros pending;
    cbn [converted]; fold (results_message pending).
  - rewrite results_items. by rewrite app_nil_r.
  - rewrite bind_cons. unfold message_items at 1. destruct (role m).
    + apply IH.
    + by rewrite !bind_app, IH, results_items, bind_cons, app_nil_r, user_items.
    + by rewrite !bind_app, IH, results_items, bind_cons, app_nil_r, assistant_items.
    + destruct (tool_call_id m); rewrite IH; [|done]. by rewrite map_app, <- app_assoc.
Qed.

Notation result_blocks rs := (map (λ r, BToolResult (fst r) (snd r)) rs).

Lemma block_results (rs : list (string * string)) who :
  results (mkClaudeMessage who (CBlocks (result_blocks rs))) = map fst rs ∧
  uses (mkClaudeMessage who (CBlocks (result_blocks rs))) = [].
Proof.
  unfold results, uses, claude_items. cbn [cm_content cm_role].
  induction rs as [|r rs [IH1 IH2]]; [done|]. split; [|exact IH2]. cbn. by rewrite IH1.
Qed.

Lemma paired_results (rs : list (string * string)) ms :
  paired [] ms → paired (map fst rs) (results_message (result_blocks rs) ++ ms).
Proof.
  intros Hms. destruct (decide (rs = [])) as [->|Hne]; [done|].
  assert (results_message (result_blocks rs) = [mkClaudeMessage "user" (CBlocks (result_blocks rs))]) as ->
    by (by destruct rs).
  cbn [app paired]. destruct (block_results rs "user") as [-> ->]. done.
Qed.

Lemma paired_plain who c ms :
  uses (mkClaudeMessage who c) = [] → results (mkClaudeMessage who c) = [] → paired [] ms →
  paired [] (mkClaudeMessage who c :: ms).
Proof. intros Hu Hr Hms. cbn [paired]. by rewrite Hu, Hr. Qed.

Lemma use_ids tcs : omap (λ i, match i with Called i _ _ => Some i | _ => None end)
  (map (λ tc, Called (id tc) (name tc) (default empty_object (json_value (arguments tc)))) tcs) = map id tcs.
Proof. induction tcs as [|tc tcs IH]; [done|]. cbn. by rewrite IH. Qed.

Lemma use_results tcs : omap (λ i, match i with Answered i _ => Some i | _ => None end)
  (map (λ tc, Called (id tc) (name tc) (default empty_object (json_value (arguments tc)))) tcs) = [].
Proof. induction tcs as [|tc tcs IH]; [done|exact IH]. Qed.

Lemma plain_parts ps (f : Item → option string) :
  (∀ p i, part_item p = Some i → f i = None) → omap f (omap part_item ps) = [].
Proof.
  intros Hf. induction ps as [|p ps IH]; [done|]. cbn. destruct (part_item p) as [i|] eqn:Hp; [|exact IH].
  cbn. rewrite (Hf p i Hp). exact IH.
Qed.

(** Tool results in a row are gathered. *)
Lemma converted_results (rs : list Message) pending messages :
  Forall (λ r, role r = Session.Tool ∧ tool_calls r = None) rs → Forall (λ r, is_Some (tool_call_id r)) rs →
  converted pending (rs ++ messages) =
    converted (pending ++ result_blocks (map (λ r, (default "" (tool_call_id r), content r)) rs)) messages.
Proof.
  intros Hrs. revert pending. induction Hrs as [|r rs [Hr _] _ IH]; intros pending; [by rewrite app_nil_r|].
  intros [[i Hi] Hs]%Forall_cons. cbn [app converted map]. rewrite Hr, Hi, IH by done. cbn [default from_option id fst snd].
  by rewrite <- app_assoc.
Qed.

Lemma converted_paired messages :
  rounds messages → ∀ rs : list (string * string), paired (map fst rs) (converted (result_blocks rs) messages).
Proof.
  induction 1 as [|m l Hr Hc Hl IH|m calls rs' l Hr Hc Hids Hrs Hl IH]; intros rs;
    cbn [converted]; fold (results_message (result_blocks rs)).
  - rewrite <- (app_nil_r (results_message _)). by apply paired_results.
  - destruct (role m) eqn:Hm; [by apply IH|..|done]; apply paired_results; cbn [app]; apply paired_plain; try apply (IH []).
    1,2: unfold uses, results; rewrite user_items; destruct (Message.has_images m); [apply plain_parts|done];
      by intros [t|[d|f|u] mt] i [= <-].
    1,2: unfold uses, results; by rewrite assistant_items, Hc.
  - rewrite Hr. apply paired_results. cbn [app paired]. unfold uses, results. rewrite assistant_items, Hc, !omap_app, use_ids.
    assert (Forall (λ r, is_Some (tool_call_id r)) rs') as Hsome.
    { apply Forall_forall. intros r Hin. assert (tool_call_id r ∈ map tool_call_id rs') as Hi by (by apply list_elem_of_fmap_2).
      rewrite Hids in Hi. apply list_elem_of_fmap in Hi as (c & -> & _). done. }
    rewrite (converted_results rs' []) by done. cbn [app].
    assert (map id calls = map fst (map (λ r, (default "" (tool_call_id r), content r)) rs')) as ->.
    { rewrite map_map. cbn [fst]. apply (inj (map Some)). rewrite !map_map, <- Hids.
      clear -Hsome. induction Hsome as [|r rs [i Hi] _ IH]; [done|]. cbn. by rewrite Hi, IH. }
    assert (omap (λ i, match i with Called i _ _ => Some i | _ => None end)
      (if str_is_empty (content m) then [] else [Said "assistant" (content m)]) = []) as ->
      by (by destruct (str_is_empty (content m))).
    split; [|split; [done|split; [done|apply IH]]].
    rewrite use_results. by destruct (str_is_empty (content m)).
Qed.

(** C15: What Claude is sent says what the transcript says: the same texts, pictures, calls and
    results in the same order, with the last system message as the system prompt. Of a transcript
    of complete rounds, every call is answered by the message after it, as the interface of Claude
    demands, and nothing else is answered. *)
Theorem claude_requests messages :
  ∃ ms, convert_messages messages = Ok (system_of messages, ms) ∧
    ms ≫= claude_items = messages ≫= message_items ∧
    (rounds messages → paired [] ms).
Proof.
  unfold convert_messages. destruct (convert_converted messages None [] []) as [-> ->].
  exists (converted [] messages). split; [by destruct (system_of messages)|]. split; [apply converted_items|].
  intros Hr. exact (converted_paired messages Hr []).
Qed.

(** ** What a stream says *)

(** The events of an answer: its blocks in pieces, between its two counts of tokens. *)
Inductive AnswerBlock : Type :=
| AText (pieces : list string)
| ACall (id name : string) (pieces : list string).

Definition plain_event (kind : string) : SseEvent := mkSseEvent kind None None None None.

Definition delta_event (d : SseDelta) : SseEvent := mkSseEvent "content_block_delta" (Some d) None None None.
Definition text_piece (t : string) : SseEvent := delta_event (mkSseDelta (Some "text_delta") (Some t) None).
Definition json_piece (t : string) : SseEvent := delta_event (mkSseDelta (Some "input_json_delta") None (Some t)).

Definition block_start (b : AnswerBlock) : SseEvent :=
  mkSseEvent "content_block_start" None
    (Some (match b with
           | AText _ => mkSseContentBlock "text" None None
           | ACall id name _ => mkSseContentBlock "tool_use" (Some id) (Some name)
           end)) None None.

Definition block_pieces (b : AnswerBlock) : list SseEvent :=
  match b with AText pieces => map text_piece pieces | ACall _ _ pieces => map json_piece pieces end.

Definition block_events (b : AnswerBlock) : list SseEvent :=
  block_start b :: block_pieces b ++ [plain_event "content_block_stop"].

Definition answer_events (blocks : list AnswerBlock) (i o : Z) (i' o' : option Z) : list SseEvent :=
  mkSseEvent "message_start" None None None (Some (Some (mkSseUsage (Some i) o')))
    :: (blocks ≫= block_events)
    ++ [mkSseEvent "message_delta" None None (Some (mkSseUsage i' (Some o))) None; plain_event "message_stop"].

Definition texts (b : AnswerBlock) : list string := match b with AText pieces => pieces | ACall _ _ _ => [] end.

Definition tool_call (b : AnswerBlock) : option LLMToolCall :=
  match b with
  | AText _ => None
  | ACall id name pieces =>
    let json := str_concat pieces in Some (mkLLMToolCall id name (if str_is_empty json then "{}" else json))
  end.

(** What the receiver of an answer should get. *)
Definition answer_stream (blocks : list AnswerBlock) (i o : Z) : list StreamEvent :=
  map Delta (blocks ≫= texts)
  ++ match omap tool_call blocks with [] => [] | calls => [ToolCalls calls] end
  ++ [Done (str_concat (blocks ≫= texts)) (Some (i, o))].

(** The events the code looks at. *)
Definition event_kinds : list string :=
  ["message_start"; "content_block_start"; "content_block_delta"; "content_block_stop"; "message_delta"; "message_stop"].

Definition relevant (e : SseEvent) : bool := bool_decide (event_type e ∈ event_kinds).

Definition event_of (parse_sse : string → option SseEvent) (line : string) : option SseEvent :=
  data_of (trim line) ≫= parse_sse.

Fixpoint run_events (s : Reading) (es : list SseEvent) : LineResult Reading :=
  match es with
  | [] => Next s
  | e :: es => match on_event s e with Next s => run_events s es | r => r end
  end.

Lemma on_irrelevant s e : relevant e = false → on_event s e = Next s.
Proof.
  unfold relevant, on_event. intros Hr%bool_decide_eq_false.
  assert (∀ k, k ∈ event_kinds → String.eqb (event_type e) k = false) as Hk
    by (intros k Hk; apply String.eqb_neq; intros Heq; apply Hr; by rewrite Heq).
  by rewrite !Hk by (apply (bool_decide_unpack _); reflexivity).
Qed.

Lemma read_lines_events parse_sse ls s :
  Forall (λ l, data_of (trim l) ≠ Some "[DONE]") ls →
  read_lines (on_data parse_sse) s ls = run_events s (filter (λ e, relevant e = true) (omap (event_of parse_sse) ls)).
Proof.
  intros Hls. revert s. induction Hls as [|l ls Hl _ IH]; intros s; [done|]. cbn [read_lines omap list_omap].
  unfold on_line, event_of at 1. destruct (data_of (trim l)) as [data|]; [|apply IH]. cbn [mbind option_bind].
  unfold on_data at 1. destruct (String.eqb_spec data "[DONE]") as [->|_]; [done|].
  destruct (parse_sse data) as [e|]; [|apply IH]. rewrite filter_cons. destruct (relevant e) eqn:He.
  - rewrite decide_True by done. cbn [run_events]. destruct (on_event s e); [apply IH|done..].
  - rewrite decide_False, on_irrelevant by done. apply IH.
Qed.

(** A run whose receiver is gone, with what it was sent until then. *)
Definition cut_off (r : LineResult Reading) (sender : Sender) (es : list StreamEvent) : Prop :=
  ∃ s, r = Return s ∧ room (tx s) = Some 0%nat ∧ tx s = send_all sender es.

Lemma cut_off_more r sender es more : cut_off r sender es → cut_off r sender (es ++ more).
Proof.
  intros (s & -> & Hr & Hs). exists s. split; [done|]. split; [done|].
  rewrite send_all_app, <- Hs. symmetry. by apply send_closed.
Qed.

Lemma cut_off_after r sender es es' : cut_off r (send_all sender es) es' → cut_off r sender (es ++ es').
Proof. intros (s & -> & Hr & Hs). exists s. split; [done|]. split; [done|]. by rewrite send_all_app. Qed.

(** Between two blocks. *)
Definition at_ (content : string) (cs : list LLMToolCall) (json : string) (i o : Z) (sender : Sender) : Reading :=
  mkReading content cs None None json i o sender.

Lemma text_pieces_run pieces content cs json i o sender es :
  let deltas := map Delta pieces in
  let r := run_events (at_ content cs json i o sender) (map text_piece pieces ++ es) in
  r = run_events (at_ (content +:+ str_concat pieces) cs json i o (send_all sender deltas)) es ∨ cut_off r sender deltas.
Proof.
  cbv zeta. revert content sender. induction pieces as [|p pieces IH]; intros content sender.
  - left. cbn [map app str_concat]. by rewrite str_app_nil_r.
  - cbn [map app run_events].
    change (on_event (at_ content cs json i o sender) (text_piece p)) with
      (let '(sent, tx) := send sender (Delta p) in
       let s := at_ (content +:+ p) cs json i o tx in if sent then Next s else Return s).
    destruct (send_or_closed sender (Delta p)) as [(ch & -> & ->)|[-> Hc]].
    + destruct (IH (content +:+ p) (send_all sender [Delta p])) as [Hr|Hr].
      * left. etransitivity; [exact Hr|]. rewrite str_app_assoc. by rewrite <- send_all_app.
      * right. apply (cut_off_after _ sender [Delta p]) in Hr. exact Hr.
    + right. eexists. split; [reflexivity|]. cbn [tx]. split; [done|]. symmetry. by apply send_closed.
Qed.

Lemma json_pieces_run pieces content cs i n json tin tout sender es :
  run_events (mkReading content cs (Some i) (Some n) json tin tout sender) (map json_piece pieces ++ es) =
  run_events (mkReading content cs (Some i) (Some n) (json +:+ str_concat pieces) tin tout sender) es.
Proof.
  revert json. induction pieces as [|p pieces IH]; intros json; [cbn; by rewrite str_app_nil_r|].
  cbn [map app run_events str_concat]. rewrite <- str_app_assoc, <- IH. done.
Qed.

Lemma block_run b content cs json i o sender es :
  let deltas := map Delta (texts b) in
  let r := run_events (at_ content cs json i o sender) (block_events b ++ es) in
  (∃ json', r = run_events (at_ (content +:+ str_concat (texts b)) (cs ++ option_list (tool_call b)) json' i o
                             (send_all sender deltas)) es)
  ∨ cut_off r sender deltas.
Proof.
  cbv zeta. destruct b as [pieces|id name pieces]; unfold block_events; cbn [block_pieces texts tool_call];
    rewrite <- app_comm_cons, <- app_assoc; cbn [run_events block_start app].
  - change (on_event _ _) with (Next (at_ content cs json i o sender)). cbv iota.
    destruct (text_pieces_run pieces content cs json i o sender (plain_event "content_block_stop" :: es)) as [Hr|Hr];
      [left; exists json; rewrite Hr, app_nil_r; done|by right].
  - left. change (on_event _ _) with (Next (mkReading content cs (Some id) (Some name) "" i o sender)). cbv iota.
    rewrite json_pieces_run. cbn [run_events str_concat]. rewrite str_app_nil_r. by eexists.
Qed.

Lemma blocks_run blocks content cs json i o sender es :
  let deltas := map Delta (blocks ≫= texts) in
  let r := run_events (at_ content cs json i o sender) ((blocks ≫= block_events) ++ es) in
  (∃ json', r = run_events (at_ (content +:+ str_concat (blocks ≫= texts)) (cs ++ omap tool_call blocks) json' i o
                             (send_all sender deltas)) es)
  ∨ cut_off r sender deltas.
Proof.
  cbv zeta. revert content cs json sender. induction blocks as [|b blocks IH]; intros content cs json sender.
  - left. exists json. cbn. by rewrite str_app_nil_r, app_nil_r.
  - rewrite !bind_cons, <- app_assoc, map_app.
    destruct (block_run b content cs json i o sender ((blocks ≫= block_events) ++ es)) as [[j Hr]|Hr];
      [|right; by apply cut_off_more]. cbv zeta in Hr. rewrite Hr.
    destruct (IH (content +:+ str_concat (texts b)) (cs ++ option_list (tool_call b)) j (send_all sender (map Delta (texts b))))
      as [[j' ->]|Hc]; [left|right; by apply cut_off_after].
    exists j'. f_equal. rewrite str_app_assoc, <- str_concat_app, send_all_app, <- app_assoc. f_equal. f_equal.
    cbn. by destruct (tool_call b).
Qed.

Lemma finish_events s : tx (finish s) = send_all (tx s)
  (match calls s with [] => [] | cs => [ToolCalls cs] end ++ [Done (assembled_content s) (Some (tokens_in s, tokens_out s))]).
Proof. unfold finish. by destruct (calls s). Qed.

End claude.

Module Example_claude.
(** A value is its text; the pieces of a stream are in a plain format of their own. *)
Definition value (s : string) : option string := if str_is_empty s then None else Some s.
Notation convert := (convert_messages value "{}").

Definition parse (data : string) : option SseEvent :=
  if String.eqb data "start" then Some (mkSseEvent "message_start" None None None (Some (Some (mkSseUsage (Some 12) (Some 1)))))
  else if String.eqb data "text block" then Some (block_start (AText []))
  else if String.eqb data "call block" then Some (block_start (ACall "c1" "read_file" []))
  else if String.eqb data "end block" then Some (plain_event "content_block_stop")
  else if String.eqb data "usage" then Some (mkSseEvent "message_delta" None None (Some (mkSseUsage None (Some 7))) None)
  else if String.eqb data "end" then Some (plain_event "message_stop")
  else if String.eqb data "error" then Some (plain_event "error")
  else match strip_prefix data "text ", strip_prefix data "json " with
       | Some t, _ => Some (text_piece t)
       | _, Some j => Some (json_piece j)
       | None, None => None
       end.

Definition stream_lines (ls : list string) : string := str_concat (map (λ l, "event: x" +:+ newline +:+ "data: " +:+ l +:+ newline +:+ newline) ls).

Definition hello : string :=
  stream_lines ["start"; "text block"; "text Hel"; "ping"; "text lo, 5 €"; "end block";
                "call block"; "json {'path':"; "json 'a.txt'}"; "end block"; "usage"; "end"].

Definition cut (n : nat) (s : string) : list string := [str_take n s; str_drop n s].

Definition read (room : option nat) (chunks : list string) : list StreamEvent :=
  received (read_stream parse (mkSender [] room) (map Ok chunks)).

Example hello_read :
  read None (cut 70 hello) =
    [Delta "Hel"; Delta "lo, 5 €"; ToolCalls [mkLLMToolCall "c1" "read_file" "{'path':'a.txt'}"];
     Done "Hello, 5 €" (Some (12, 7))].
Proof. vm_compute. reflexivity. Qed.


(** A character of three bytes that is cut after its first becomes three replacement
    characters. *)
Example character_cut :
  match read None (cut 122 hello) with _ :: Delta t :: _ => Some t | _ => None end
  = Some ("lo, 5 " +:+ str_concat (repeat Repair.replacement_char 3)).
Proof. vm_compute. reflexivity. Qed.

(** An error in the middle of a stream is passed over: what came before it is the answer. *)
Example error_passed_over :
  read None [stream_lines ["start"; "text block"; "text The file is safe to"; "error"]] =
    [Delta "The file is safe to"; Done "The file is safe to" (Some (12, 0))].
Proof. vm_compute. reflexivity. Qed.

(** Two texts of an answer are separate lines in an answer, and one text in a stream. *)
Example two_texts :
  (lr_content (convert_response (λ v : string, v) (mkClaudeResponse [BText "Yes."; BText "Done."] 3 2)),
   last (answer_stream [AText ["Yes."]; AText ["Done."]] 3 2))
  = ("Yes." +:+ newline +:+ "Done.", Some (Done "Yes.Done." (Some (3, 2)))).
Proof. reflexivity. Qed.

(** A note of the loop guard, or the summary of a compaction, takes the place of the system
    prompt. *)
Definition guarded : list Message :=
  [Message.system "You are a careful assistant. Never delete files."; Message.user "Clean up, please.";
   Message.assistant_with_tools "" [mkToolCall "c1" "list_dir" "{'path':'.'}"]; Message.tool_result "c1" "a.txt";
   Message.system "[LoopGuard] warning"].

Example prompt_replaced :
  convert guarded = Ok (Some "[LoopGuard] warning",
    [mkClaudeMessage "user" (CText "Clean up, please.");
     mkClaudeMessage "assistant" (CBlocks [BToolUse "c1" "list_dir" "{'path':'.'}"]);
     mkClaudeMessage "user" (CBlocks [BToolResult "c1" "a.txt"])]).
Proof. reflexivity. Qed.

Lemma claude_requests_witness :
  match convert guarded with
  | Ok (s, ms) => s = Some "[LoopGuard] warning" ∧ paired [] ms
  | Err _ => False
  end.
Proof.
  destruct (claude_requests value "{}" guarded) as (ms & -> & _ & Hp). split; [reflexivity|]. apply Hp.
  apply rounds_plain; [done..|]. apply rounds_plain; [done..|].
  apply (rounds_calls _ [mkToolCall "c1" "list_dir" "{'path':'.'}"] [Message.tool_result "c1" "a.txt"]); [done..| |].
  - by repeat constructor.
  - apply rounds_plain; [done..|constructor].
Defined.

(** A repair leaves a call without its result, which the interface of Claude refuses. *)
Definition interrupted : list Message :=
  [Message.user "Clean up, please."; Message.assistant_with_tools "" [mkToolCall "c1" "list_dir" "{}"];
   Message.user "Hello?"].

Example call_left_open :
  fst (Repair.repair_messages interrupted) = interrupted ∧
  ¬ match convert interrupted with Ok (_, ms) => paired [] ms | Err _ => False end.
Proof. split; [vm_compute; reflexivity|]. vm_compute. by intros (_ & _ & _ & _ & _ & _ & [=] & _). Qed.
End Example_claude.
