(* ===== verification/OpenAI.v ===== *)
(** The provider of src/src/providers/openai.rs, for the interface of OpenAI and those that copy
    it: requests and answers, streams whose calls come in fragments, and the field for the limit
    of tokens, which is learned from a refusal.

    JSON is an argument; the HTTP client is a function over a world of its own. Embeddings and the
    settings of the client are left out. *)

From S2P Require Import Prelude Lines Errors LoopGuard Session AgentLoop Wire.

Definition OPENAI_API_URL : string := "https://api.openai.com/v1".
Definition DEFAULT_MODEL : string := "gpt-5.1".

Inductive OpenAIContentPart : Type := PText (text : string) | PImageUrl (url : string).
Inductive OpenAIContent : Type := OText (text : string) | OParts (parts : list OpenAIContentPart).

#[export] Instance OpenAIContentPart_eq_dec : EqDecision OpenAIContentPart.
Proof. solve_decision. Defined.
#[export] Instance OpenAIContent_eq_dec : EqDecision OpenAIContent.
Proof. solve_decision. Defined.

(** A call; its type is always that of a function. *)
Record OpenAIToolCallRequest : Type := mkOpenAIToolCallRequest { oc_id : string; oc_name : string; oc_arguments : string }.

Record OpenAIMessage : Type := mkOpenAIMessage {
  om_role : string;
  om_content : option OpenAIContent;
  om_tool_calls : option (list OpenAIToolCallRequest);
  om_tool_call_id : option string;
}.

Inductive MaxTokenField : Type := MaxTokens | MaxCompletionTokens.

#[export] Instance MaxTokenField_eq_dec : EqDecision MaxTokenField.
Proof. solve_decision. Defined.

Definition part_of (p : ContentPart) : option OpenAIContentPart :=
  match p with
  | Session.Text text => Some (PText text)
  | Session.Image (Base64 data) media_type => Some (PImageUrl ("data:" +:+ media_type +:+ ";base64," +:+ data))
  | Session.Image _ _ => None
  end.

Definition convert_message (msg : Message) : OpenAIMessage :=
  let tool_calls := map (λ tc, mkOpenAIToolCallRequest (id tc) (name tc) (arguments tc)) <$> tool_calls msg in
  let content :=
    if str_is_empty (content msg) && bool_decide (is_Some tool_calls) then None
    else if Message.has_images msg then Some (OParts (omap part_of (content_parts msg)))
    else Some (OText (content msg)) in
  mkOpenAIMessage (Role_display (role msg)) content tool_calls (tool_call_id msg).

Definition convert_messages (messages : list Message) : list OpenAIMessage := map convert_message messages.

Section openai.
Context {Value Float : Type}.

(** A tool; its type is always that of a function. *)
Record OpenAITool : Type := mkOpenAITool { ot_name : string; ot_description : string; ot_parameters : Value }.

Record OpenAIRequest : Type := mkOpenAIRequest {
  or_model : string;
  or_messages : list OpenAIMessage;
  or_tools : option (list OpenAITool);
  or_max_tokens : option Z;
  max_completion_tokens : option Z;
  or_temperature : option Float;
  or_top_p : option Float;
  or_stop : option (list string);
  or_stream : option bool;
  response_format : option Value;
}.

Definition convert_tools (tools : list (ToolDefinition Value)) : list OpenAITool :=
  map (λ t, mkOpenAITool (def_name t) (def_description t) (parameters t)) tools.

(** The values of [json_object] and of a schema with its name and strictness. *)
Context (json_object : Value) (json_schema : string → Value → bool → Value).

Definition to_openai_response_format (f : OutputFormat Value) : option Value :=
  match f with
  | FormatText => None
  | FormatJson => Some json_object
  | JsonSchema name schema strict => Some (json_schema name schema strict)
  end.

Definition build_request (model : string) (messages : list Message) (tools : list (ToolDefinition Value))
    (options : ChatOptions Value Float) (token_field : MaxTokenField) (stream : option bool) : OpenAIRequest :=
  let '(max_tokens, max_completion_tokens) :=
    match token_field with
    | MaxTokens => (max_tokens options, None)
    | MaxCompletionTokens => (None, max_tokens options)
    end in
  mkOpenAIRequest model (convert_messages messages) (match tools with [] => None | _ => Some (convert_tools tools) end)
    max_tokens max_completion_tokens (temperature options) (top_p options) (stop options) stream
    (to_openai_response_format (output_format options)).

(** ** Answers *)

(** The first choice of a response, if there is one: its text and its calls. *)
Record OpenAIResponse : Type := mkOpenAIResponse {
  choices : list (option string * option (list LLMToolCall));
  response_usage : option (Z * Z);
}.

Definition convert_response (response : OpenAIResponse) : LLMResponse :=
  let '(content, tool_calls) :=
    match choices response with
    | (content, tool_calls) :: _ => (default "" content, default [] tool_calls)
    | [] => ("", [])
    end in
  mkLLMResponse content tool_calls (response_usage response).

(** ** Streams *)

Record ToolCallDelta : Type := mkToolCallDelta {
  index : nat;
  delta_id : option string;
  function : option (option string * option string);
}.

Record OpenAIStreamChunk : Type := mkOpenAIStreamChunk {
  stream_choices : list (option string * option (list ToolCallDelta));
  stream_usage : option (Z * Z);
}.

Record PendingToolCall : Type := mkPendingToolCall { p_id : string; p_name : string; p_arguments : string }.

Definition no_call : PendingToolCall := mkPendingToolCall "" "" "".

(** One fragment, into the call of its index. *)
Definition add_fragment (d : ToolCallDelta) (p : PendingToolCall) : PendingToolCall :=
  let p := match delta_id d with Some i => mkPendingToolCall i (p_name p) (p_arguments p) | None => p end in
  match function d with
  | Some (name, arguments) =>
    mkPendingToolCall (p_id p) (default (p_name p) name) (p_arguments p +:+ default "" arguments)
  | None => p
  end.

Definition apply_fragment (pending : list PendingToolCall) (d : ToolCallDelta) : list PendingToolCall :=
  alter (add_fragment d) (index d)
    (if Nat.leb (length pending) (index d) then pending ++ repeat no_call (S (index d) - length pending) else pending).

Record Assembly : Type := mkAssembly {
  assembled_content : string;
  pending_tool_calls : list PendingToolCall;
  assembly_usage : option (Z * Z);
}.

Definition apply_choice (r : Assembly * list string) (choice : option string * option (list ToolCallDelta))
    : Assembly * list string :=
  let '(a, deltas) := r in
  let '(content, tool_calls) := choice in
  (mkAssembly (assembled_content a +:+ default "" content)
     (foldl apply_fragment (pending_tool_calls a) (default [] tool_calls)) (assembly_usage a),
   deltas ++ option_list content).

Definition apply_stream_chunk (chunk : OpenAIStreamChunk) (a : Assembly) : Assembly * list string :=
  let usage := match stream_usage chunk with Some u => Some u | None => assembly_usage a end in
  foldl apply_choice (mkAssembly (assembled_content a) (pending_tool_calls a) usage, []) (stream_choices chunk).

Definition finalize (p : PendingToolCall) : option LLMToolCall :=
  if str_is_empty (p_id p) || str_is_empty (p_name p) then None
  else Some (mkLLMToolCall (p_id p) (p_name p) (p_arguments p)).

Definition finalize_tool_calls (pending : list PendingToolCall) : list LLMToolCall := omap finalize pending.

Record Reading : Type := mkReading { assembly : Assembly; tx : Sender }.

(** The deltas of a chunk, until the receiver is gone. *)
Fixpoint send_deltas (sender : Sender) (deltas : list string) : bool * Sender :=
  match deltas with
  | [] => (true, sender)
  | d :: deltas =>
    let '(sent, sender) := send sender (Delta d) in
    if sent then send_deltas sender deltas else (false, sender)
  end.

Definition finish (s : Reading) : Reading :=
  let a := assembly s in
  let sender := match finalize_tool_calls (pending_tool_calls a) with
                | [] => tx s
                | calls => snd (send (tx s) (ToolCalls calls))
                end in
  mkReading a (snd (send sender (Done (assembled_content a) (assembly_usage a)))).

Definition on_error (s : Reading) (e : string) : Reading :=
  mkReading (assembly s) (snd (send (tx s) (Error (Provider ("Stream read error: " +:+ e))))).

Definition on_data (parse_chunk : string → option OpenAIStreamChunk) (s : Reading) (data : string)
    : LineResult Reading :=
  if String.eqb data "[DONE]" then Break s
  else match parse_chunk data with
       | Some chunk =>
         let '(a, deltas) := apply_stream_chunk chunk (assembly s) in
         let '(sent, sender) := send_deltas (tx s) deltas in
         if sent then Next (mkReading a sender) else Return (mkReading a sender)
       | None => Next s
       end.

Definition read_stream (parse_chunk : string → option OpenAIStreamChunk) (sender : Sender)
    (chunks : list (result string string)) : Sender :=
  tx (read_chunks (on_data parse_chunk) finish on_error true (mkReading (mkAssembly "" [] None) sender) "" chunks).

(** ** The provider *)

Record OpenAIProvider : Type := mkOpenAIProvider {
  api_key : string;
  api_base : string;
  model_token_fields : gmap string MaxTokenField;
  auth_key_header : option string;
  api_version : option string;
}.

Definition slash : Ascii.ascii := Ascii.ascii_of_nat 47.

Definition with_config (api_key api_base : string) (auth_key_header api_version : option string) : OpenAIProvider :=
  mkOpenAIProvider api_key (trim_end_byte slash api_base) ∅ auth_key_header api_version.
Definition with_base_url (api_key api_base : string) : OpenAIProvider := with_config api_key api_base None None.
Definition new (api_key : string) : OpenAIProvider := mkOpenAIProvider api_key OPENAI_API_URL ∅ None None.

Section provider.
Context `{RustUnicode} {W : Type}.
Context (post : string → list (string * string) → OpenAIRequest → W → Reply * W).
Context (parse_response : string → result string OpenAIResponse) (parse_error : string → option (string * string)).
Context (parse_chunk : string → option OpenAIStreamChunk).
Implicit Types (self : OpenAIProvider) (w : W).

Definition static_token_field_for_model (model : string) : MaxTokenField :=
  let m := to_lowercase model in
  if starts_with m "o1" || starts_with m "o2" || starts_with m "o3" || starts_with m "o4" then MaxCompletionTokens
  else if starts_with m "gpt-5" && negb (starts_with m "gpt-5o") then MaxCompletionTokens
  else MaxTokens.

Definition token_field_for_model self (model : string) : MaxTokenField :=
  default (static_token_field_for_model model) (model_token_fields self !! model).

Definition remember_token_field self (model : string) (token_field : MaxTokenField) : OpenAIProvider :=
  mkOpenAIProvider (api_key self) (api_base self) (<[model := token_field]> (model_token_fields self))
    (auth_key_header self) (api_version self).

Definition auth_header_pair self : string * string :=
  if str_is_empty (api_key self) then ("", "")
  else match auth_key_header self with
       | Some name => (name, api_key self)
       | None => ("Authorization", "Bearer " +:+ api_key self)
       end.

Definition versioned_url self (path : string) : string :=
  match api_version self with
  | Some v => api_base self +:+ "/" +:+ path +:+ "?api-version=" +:+ v
  | None => api_base self +:+ "/" +:+ path
  end.

Definition headers self : list (string * string) :=
  let '(name, value) := auth_header_pair self in
  ("Content-Type", "application/json") :: if str_is_empty name then [] else [(name, value)].

Definition is_max_tokens_unsupported_error (error_text : string) : bool :=
  let message := match parse_error error_text with Some (_, message) => message | None => error_text end in
  let message_lower := to_lowercase message in
  contains message_lower "unsupported parameter" && contains message_lower "max_tokens"
  && contains message_lower "max_completion_tokens".

Definition failure (status : Z) (error_text : string) : ZeptoError :=
  ProviderTyped (parse_provider_error status (api_error "OpenAI" parse_error error_text)).

(** What a turn of the loop sent and got, in order. *)
Notation Log := (list (OpenAIRequest * Reply)).

(** The loop of both operations; [on_success] reads the body. [None] is no fuel. *)
Fixpoint attempts {R} (fuel : nat) (on_success : list (result string string) → result ZeptoError R) (stream : option bool)
    (model : string) (messages : list Message) (tools : list (ToolDefinition Value)) (options : ChatOptions Value Float)
    self (token_field : MaxTokenField) (retried_for_token_field : bool) w
    : option (result ZeptoError R * OpenAIProvider * W * Log) :=
  match fuel with
  | O => None
  | S fuel =>
    let request := build_request model messages tools options token_field stream in
    match post (versioned_url self "chat/completions") (headers self) request w with
    | (Failed e, w) => Some (Err (Provider ("OpenAI request failed: " +:+ e)), self, w, [(request, Failed e)])
    | (Answer status body, w) =>
      let log := [(request, Answer status body)] in
      if is_success status then Some (on_success body, self, w, log)
      else
        let error_text := body_text body in
        if (status =? 400) && negb retried_for_token_field && bool_decide (token_field = MaxTokens)
           && bool_decide (is_Some (max_tokens options)) && is_max_tokens_unsupported_error error_text
        then
          let self := remember_token_field self model MaxCompletionTokens in
          '(r, self, w, log') ← attempts fuel on_success stream model messages tools options self MaxCompletionTokens true w;
          Some (r, self, w, log ++ log')
        else Some (Err (failure status error_text), self, w, log)
    end
  end.

(** Two turns are enough. *)
Definition requests {R} (on_success : list (result string string) → result ZeptoError R) stream self messages tools
    (model : option string) options w : option (result ZeptoError R * OpenAIProvider * W * Log) :=
  let model := default DEFAULT_MODEL model in
  let token_field := token_field_for_model self model in
  attempts 2 on_success stream model messages tools options self token_field
    (bool_decide (token_field = MaxCompletionTokens)) w.

Definition read_response (body : list (result string string)) : result ZeptoError LLMResponse :=
  match match body_bytes body with Ok bytes => parse_response bytes | Err e => Err e end with
  | Ok response => Ok (convert_response response)
  | Err e => Err (Provider ("Failed to parse OpenAI response: " +:+ e))
  end.

Definition chat := requests read_response None.

(** The stream is read while its receiver takes the events. *)
Definition chat_stream (room : option nat) :=
  requests (λ body, Ok (received (read_stream parse_chunk (mkSender [] room) body))) (Some true).

(** *** What is sent over time *)

(** A request of either kind. *)
Record Op : Type := mkOp {
  op_room : option (option nat);
  op_messages : list Message;
  op_tools : list (ToolDefinition Value);
  op_model : option string;
  op_options : ChatOptions Value Float;
}.

Definition model_of (op : Op) : string := default DEFAULT_MODEL (op_model op).

Definition run_op self w (op : Op) : option (OpenAIProvider * W * Log) :=
  match op_room op with
  | None =>
    '(_, self, w, log) ← chat self (op_messages op) (op_tools op) (op_model op) (op_options op) w; Some (self, w, log)
  | Some room =>
    '(_, self, w, log) ← chat_stream room self (op_messages op) (op_tools op) (op_model op) (op_options op) w;
    Some (self, w, log)
  end.

Fixpoint run_ops self w (ops : list Op) : option (OpenAIProvider * W * list Log) :=
  match ops with
  | [] => Some (self, w, [])
  | op :: ops =>
    '(self, w, log) ← run_op self w op; '(self, w, logs) ← run_ops self w ops; Some (self, w, log :: logs)
  end.

Definition request_of (op : Op) (f : MaxTokenField) : OpenAIRequest :=
  build_request (model_of op) (op_messages op) (op_tools op) (op_options op) f (const true <$> op_room op).

(** The answer that asks for the other field. *)
Definition rejected (op : Op) (r : Reply) : bool :=
  match r with
  | Answer status body =>
    (status =? 400) && bool_decide (is_Some (max_tokens (op_options op))) && is_max_tokens_unsupported_error (body_text body)
  | Failed _ => false
  end.

(** What one request may send: with one field, or with the limit of tokens in its old field and,
    when that was refused, once more the same with the limit in the new field. *)
Definition turns (op : Op) (f : MaxTokenField) (log : Log) : Prop :=
  match log with
  | [(q, r)] => q = request_of op f ∧ (f = MaxTokens → rejected op r = false)
  | [(q1, r1); (q2, _)] =>
    f = MaxTokens ∧ q1 = request_of op MaxTokens ∧ rejected op r1 = true ∧ q2 = request_of op MaxCompletionTokens
  | _ => False
  end.

(** The fields over time, by the models that refused the old one. *)
Fixpoint expected (refused : list string) (ops : list Op) (logs : list Log) : Prop :=
  match ops, logs with
  | [], [] => True
  | op :: ops, log :: logs =>
    turns op (if bool_decide (model_of op ∈ refused) then MaxCompletionTokens else static_token_field_for_model (model_of op)) log ∧
    expected (if bool_decide (length log = 2%nat) then model_of op :: refused else refused) ops logs
  | _, _ => False
  end.

(** A turn that may not be repeated is the last. *)
Lemma last_attempt {R} fuel (on_success : list (result string string) → result ZeptoError R) stream model messages tools options
    self f retried w :
  retried = true ∨ f = MaxCompletionTokens →
  ∃ r w' reply, attempts (S fuel) on_success stream model messages tools options self f retried w
    = Some (r, self, w', [(build_request model messages tools options f stream, reply)]).
Proof.
  intros Hr. cbn [attempts]. destruct (post _ _ _ w) as [[e|status body] w1]; [by eexists _, _, _|].
  destruct (is_success status); [by eexists _, _, _|].
  assert ((status =? 400) && negb retried && bool_decide (f = MaxTokens) = false) as Hf.
  { destruct Hr as [-> | ->]; [by rewrite andb_false_r|apply andb_false_r]. }
  rewrite Hf. by eexists _, _, _.
Qed.

Lemma requests_turns {R} (on_success : list (result string string) → result ZeptoError R) self w (op : Op) :
  ∃ r self' w' log,
    requests on_success (const true <$> op_room op) self (op_messages op) (op_tools op) (op_model op) (op_options op) w
      = Some (r, self', w', log) ∧
    turns op (token_field_for_model self (model_of op)) log ∧
    self' = (if bool_decide (length log = 2%nat) then remember_token_field self (model_of op) MaxCompletionTokens else self).
Proof.
  unfold requests. fold (model_of op). destruct (token_field_for_model self (model_of op)) eqn:Hf.
  2: { destruct (last_attempt 1 on_success (const true <$> op_room op) (model_of op) (op_messages op) (op_tools op)
         (op_options op) self MaxCompletionTokens (bool_decide (MaxCompletionTokens = MaxCompletionTokens)) w)
         as (r & w' & reply & ->); [by right|]. by eexists _, _, _, _. }
  rewrite (bool_decide_eq_false_2 (MaxTokens = MaxCompletionTokens)) by done.
  assert (∃ one, one = 1%nat) as [one Hone] by eauto. replace 2%nat with (S one) by lia. cbn [attempts].
  fold (request_of op MaxTokens). destruct (post _ _ (request_of op MaxTokens) w) as [[e|status body] w1] eqn:Hp.
  { subst one. by eexists _, _, _, _. }
  destruct (is_success status) eqn:Hs.
  { subst one. eexists _, _, _, _. split; [reflexivity|]. split; [split; [done|]|done]. intros _. cbn.
    by destruct (Z.eqb_spec status 400) as [->|]. }
  rewrite (bool_decide_eq_true_2 (MaxTokens = MaxTokens)) by done. cbn [negb]. rewrite !andb_true_r.
  destruct ((status =? 400) && bool_decide (is_Some (max_tokens (op_options op)))
            && is_max_tokens_unsupported_error (body_text body)) eqn:Hr; [|subst one; by eexists _, _, _, _].
  set (self' := remember_token_field self (model_of op) MaxCompletionTokens).
  destruct (last_attempt 0 on_success (const true <$> op_room op) (model_of op) (op_messages op) (op_tools op)
    (op_options op) self' MaxCompletionTokens true w1) as (r & w' & reply & Hlast); [by left|].
  subst one. rewrite Hlast. by eexists _, _, _, _.
Qed.

Lemma run_op_turns self w op : ∃ self' w' log,
  run_op self w op = Some (self', w', log) ∧ turns op (token_field_for_model self (model_of op)) log ∧
  self' = (if bool_decide (length log = 2%nat) then remember_token_field self (model_of op) MaxCompletionTokens else self).
Proof.
  destruct (op_room op) as [room|] eqn:Hop; unfold run_op; rewrite Hop; unfold chat, chat_stream.
  - destruct (requests_turns (λ body, Ok (received (read_stream parse_chunk (mkSender [] room) body))) self w op)
      as (r & self' & w' & log & Hreq & Ht). rewrite Hop in Hreq. cbn [fmap option_fmap option_map] in Hreq.
    unfold const in Hreq. rewrite Hreq. by exists self', w', log.
  - destruct (requests_turns read_response self w op) as (r & self' & w' & log & Hreq & Ht). rewrite Hop in Hreq.
    cbn [fmap option_fmap option_map] in Hreq. rewrite Hreq. by exists self', w', log.
Qed.

(** C38: Over any requests to one provider, streamed or not, with whatever answers: every request
    comes back after at most two turns; the limit of tokens is sent in the field of its model, and
    when the old field is refused the same request is sent once more with the new one, and the old
    field never again for that model. *)
Theorem token_fields self w ops :
  model_token_fields self = ∅ →
  ∃ self' w' logs, run_ops self w ops = Some (self', w', logs) ∧ expected [] ops logs.
Proof.
  intros Hself.
  assert (∀ m, model_token_fields self !! m = if bool_decide (m ∈ @nil string) then Some MaxCompletionTokens else None) as Hl
    by (intros m; by rewrite Hself, lookup_empty).
  clear Hself. revert self w Hl. generalize (@nil string) as refused. induction ops as [|op ops IH]; intros refused self w Hl.
  { by exists self, w, []. }
  cbn [run_ops]. destruct (run_op_turns self w op) as (self1 & w1 & log & -> & Ht & Hself1). cbn [mbind option_bind].
  destruct (IH (if bool_decide (length log = 2%nat) then model_of op :: refused else refused) self1 w1) as (self' & w' & logs & -> & He).
  { intros m. subst self1. destruct (bool_decide (length log = 2%nat)); [|apply Hl]. cbn [remember_token_field model_token_fields].
    destruct (decide (model_of op = m)) as [<-|Hne].
    - rewrite lookup_insert_eq, bool_decide_eq_true_2; [done|by left].
    - rewrite lookup_insert_ne, Hl by done. erewrite bool_decide_ext; [done|]. rewrite elem_of_cons. naive_solver. }
  cbn [mbind option_bind]. exists self', w', (log :: logs). split; [done|]. cbn [expected]. split; [|done].
  unfold token_field_for_model in Ht. rewrite Hl in Ht. by destruct (bool_decide (model_of op ∈ refused)).
Qed.
End provider.

(** ** What a stream says *)

Definition chunk_texts (c : OpenAIStreamChunk) : list string := omap fst (stream_choices c).
Definition chunk_fragments (c : OpenAIStreamChunk) : list ToolCallDelta := stream_choices c ≫= λ ch, default [] (snd ch).
Definition last_usage (cs : list OpenAIStreamChunk) : option (Z * Z) := last (omap stream_usage cs).

(** The fragments of one call: the first has its id and its name, all have pieces of its
    arguments. *)
Definition spells (k : nat) (c : LLMToolCall) (frs : list ToolCallDelta) : Prop :=
  ∃ a pieces, frs = mkToolCallDelta k (Some (call_id c)) (Some (Some (call_name c), a))
                    :: map (λ p, mkToolCallDelta k None (Some (None, Some p))) pieces ∧
    call_arguments c = default "" a +:+ str_concat pieces.

Definition call_at (pending : list PendingToolCall) (k : nat) : PendingToolCall := default no_call (pending !! k).

Lemma apply_fragment_at pending d k :
  call_at (apply_fragment pending d) k = if decide (index d = k) then add_fragment d (call_at pending k) else call_at pending k.
Proof.
  unfold apply_fragment. set (p := if Nat.leb _ _ then _ else _).
  assert (∀ k, call_at p k = call_at pending k) as Hp.
  { intros k'. subst p. destruct (Nat.leb_spec (length pending) (index d)); [|done]. unfold call_at.
    destruct (decide (k' < length pending)%nat); [by rewrite lookup_app_l|].
    rewrite lookup_app_r, (lookup_ge_None_2 pending) by lia. cbn [default from_option].
    destruct (repeat no_call _ !! _) as [x|] eqn:Hx; [|done].
    apply list_elem_of_lookup_2, list_elem_of_In, repeat_spec in Hx. by subst. }
  assert (index d < length p)%nat as Hlen.
  { subst p. destruct (Nat.leb_spec (length pending) (index d)); [rewrite length_app, repeat_length|]; lia. }
  rewrite <- Hp. unfold call_at. destruct (decide (index d = k)) as [<-|Hne].
  - rewrite list_lookup_alter_eq. apply lookup_lt_is_Some in Hlen as [x ->]. done.
  - by rewrite list_lookup_alter_ne.
Qed.

Lemma fragments_at frs pending k :
  call_at (foldl apply_fragment pending frs) k =
    foldl (λ p d, add_fragment d p) (call_at pending k) (filter (λ d, index d = k) frs).
Proof.
  revert pending. induction frs as [|d frs IH]; intros pending; [done|]. cbn [foldl]. rewrite IH, apply_fragment_at, filter_cons.
  by destruct (decide (index d = k)).
Qed.

Lemma pieces_spelled k i n acc pieces :
  foldl (λ p d, add_fragment d p) (mkPendingToolCall i n acc) (map (λ p, mkToolCallDelta k None (Some (None, Some p))) pieces)
    = mkPendingToolCall i n (acc +:+ str_concat pieces).
Proof.
  revert acc. induction pieces as [|p pieces IH]; intros acc; [cbn; by rewrite str_app_nil_r|].
  cbn [map foldl str_concat]. rewrite <- str_app_assoc, <- IH. done.
Qed.

Lemma spelled k c frs :
  spells k c frs → foldl (λ p d, add_fragment d p) no_call frs = mkPendingToolCall (call_id c) (call_name c) (call_arguments c).
Proof. intros (a & pieces & -> & Hargs). rewrite Hargs. apply (pieces_spelled k (call_id c) (call_name c)). Qed.

Lemma fragments_length frs pending n :
  (length pending ≤ n)%nat → Forall (λ d, index d < n)%nat frs → (length (foldl apply_fragment pending frs) ≤ n)%nat.
Proof.
  intros Hp Hf. revert pending Hp. induction Hf as [|d frs Hd _ IH]; intros pending Hp; [done|]. apply IH.
  unfold apply_fragment. rewrite length_alter. destruct (Nat.leb_spec (length pending) (index d)); [|done].
  rewrite length_app, repeat_length. lia.
Qed.

Lemma finalize_at pending calls :
  (length pending ≤ length calls)%nat →
  (∀ k c, calls !! k = Some c → finalize (call_at pending k) = Some c) → finalize_tool_calls pending = calls.
Proof.
  unfold finalize_tool_calls. revert pending. induction calls as [|c calls IH]; intros [|p pending] Hlen Hc; cbn in Hlen; try lia.
  - done.
  - specialize (Hc 0%nat c eq_refl). discriminate Hc.
  - pose proof (Hc 0%nat c eq_refl) as H0. cbn in H0. cbn. rewrite H0. f_equal. apply IH; [lia|]. intros k. apply (Hc (S k)).
Qed.

Lemma choices_applied choices a ds :
  foldl apply_choice (a, ds) choices =
    (mkAssembly (assembled_content a +:+ str_concat (omap fst choices))
       (foldl apply_fragment (pending_tool_calls a) (choices ≫= λ ch, default [] (snd ch))) (assembly_usage a),
     ds ++ omap fst choices).
Proof.
  revert a ds. induction choices as [|[c frs] choices IH]; intros [content pending usage] ds.
  - cbn. by rewrite str_app_nil_r, app_nil_r.
  - cbn [foldl apply_choice]. rewrite IH, bind_cons, foldl_app. cbn [assembled_content pending_tool_calls assembly_usage snd].
    destruct c as [c|]; cbn; [by rewrite str_app_assoc, <- app_assoc|by rewrite str_app_nil_r, app_nil_r].
Qed.

(** What has been read after some chunks. *)
Definition assembled (a : Assembly) (cs : list OpenAIStreamChunk) : Assembly :=
  mkAssembly (assembled_content a +:+ str_concat (cs ≫= chunk_texts))
    (foldl apply_fragment (pending_tool_calls a) (cs ≫= chunk_fragments))
    (match last_usage cs with Some u => Some u | None => assembly_usage a end).

Lemma chunk_applied c a cs :
  assembled (fst (apply_stream_chunk c a)) cs = assembled a (c :: cs) ∧ snd (apply_stream_chunk c a) = chunk_texts c.
Proof.
  unfold apply_stream_chunk. rewrite choices_applied. cbn [fst snd]. split; [|done].
  unfold assembled. cbn [assembled_content pending_tool_calls assembly_usage].
  rewrite !bind_cons, foldl_app, str_concat_app, str_app_assoc. f_equal. unfold last_usage. cbn [omap list_omap].
  destruct (stream_usage c); [rewrite last_cons; by destruct (last _)|done].
Qed.

Lemma send_deltas_all sender ds :
  send_deltas sender ds = (true, send_all sender (map Delta ds)) ∨
  ∃ ch, send_deltas sender ds = (false, ch) ∧ room ch = Some 0%nat ∧ ch = send_all sender (map Delta ds).
Proof.
  revert sender. induction ds as [|d ds IH]; intros sender; [by left|]. cbn [send_deltas map].
  destruct (send_or_closed sender (Delta d)) as [(ch & -> & ->)|[-> Hr]].
  - destruct (IH (send_all sender [Delta d])) as [->|(ch & -> & Hr & ->)]; [by left|right]. by eexists.
  - right. exists sender. split; [done|]. split; [done|]. symmetry. by apply send_closed.
Qed.

Section stream.
Context (parse_chunk : string → option OpenAIStreamChunk).

(** The chunks in some lines, up to the end of the data. *)
Fixpoint stream_chunks (ls : list string) : list OpenAIStreamChunk :=
  match ls with
  | [] => []
  | l :: ls =>
    match data_of (trim l) with
    | Some data =>
      if String.eqb data "[DONE]" then [] else option_list (parse_chunk data) ++ stream_chunks ls
    | None => stream_chunks ls
    end
  end.

Lemma read_lines_chunks ls a sender :
  let cs := stream_chunks ls in
  let sent := send_all sender (map Delta (cs ≫= chunk_texts)) in
  match read_lines (on_data parse_chunk) (mkReading a sender) ls with
  | Next s | Break s => s = mkReading (assembled a cs) sent
  | Return s => room (tx s) = Some 0%nat ∧ tx s = sent
  end.
Proof.
  cbv zeta. revert a sender. induction ls as [|l ls IH]; intros a sender; cbn [read_lines stream_chunks].
  { unfold assembled. cbn. rewrite str_app_nil_r. by destruct a. }
  unfold on_line. destruct (data_of (trim l)) as [data|]; [|apply IH]. unfold on_data at 1.
  destruct (String.eqb data "[DONE]").
  { unfold assembled. cbn. rewrite str_app_nil_r. by destruct a. }
  destruct (parse_chunk data) as [c|]; [|apply IH]. cbn [assembly tx].
  change (option_list (Some c) ++ stream_chunks ls) with (c :: stream_chunks ls).
  destruct (chunk_applied c a (stream_chunks ls)) as [Ha Hd]. destruct (apply_stream_chunk c a) as [a1 ds]. cbn [fst snd] in Ha, Hd.
  subst ds. rewrite bind_cons, map_app, send_all_app.
  destruct (send_deltas_all sender (chunk_texts c)) as [->|(ch & -> & Hr & ->)].
  - specialize (IH a1 (send_all sender (map Delta (chunk_texts c)))). by rewrite Ha in IH.
  - cbn [tx]. split; [done|]. symmetry. by apply send_closed.
Qed.

Lemma finish_sends s : tx (finish s) = send_all (tx s)
  (match finalize_tool_calls (pending_tool_calls (assembly s)) with [] => [] | calls => [ToolCalls calls] end
   ++ [Done (assembled_content (assembly s)) (assembly_usage (assembly s))]).
Proof. unfold finish. by destruct (finalize_tool_calls _). Qed.

End stream.
End openai.

Module Example_openai.
#[local] Existing Instance ascii_unicode.
Notation text := string.

(** A table of the JSON of a stream. *)
Definition chunk_of (content : option string) (frs : list ToolCallDelta) (usage : option (Z * Z)) : OpenAIStreamChunk :=
  mkOpenAIStreamChunk [(content, match frs with [] => None | _ => Some frs end)] usage.

Definition table : list (string * OpenAIStreamChunk) :=
  [("t1", chunk_of (Some "Two ") [] None);
   ("first", chunk_of None [mkToolCallDelta 1 (Some "c2") (Some (Some "grep", None))] None);
   ("both", chunk_of (Some "files.") [mkToolCallDelta 0 (Some "c1") (Some (Some "read_file", Some "{'path':"));
                                      mkToolCallDelta 1 None (Some (None, Some "{'re':'x'}"))] None);
   ("rest", chunk_of None [mkToolCallDelta 0 None (Some (None, Some "'a'}"))] None);
   ("count", mkOpenAIStreamChunk [] (Some (20, 9)))].

Definition parse (data : string) : option OpenAIStreamChunk := (λ f, snd (snd f)) <$> list_find (λ kv, fst kv = data) table.

Definition stream_lines (ls : list string) : string := str_concat (map (λ l, "data: " +:+ l +:+ newline +:+ newline) ls).

Definition answer : string := stream_lines ["t1"; "first"; "both"; "rest"; "count"; "[DONE]"; "t1"].
Definition two_calls : list LLMToolCall := [mkLLMToolCall "c1" "read_file" "{'path':'a'}"; mkLLMToolCall "c2" "grep" "{'re':'x'}"].


(** A backend that demands the new field, which it does not say of its model's name. *)
Definition strict_backend (url : string) (hs : list (string * string)) (q : OpenAIRequest (Value := text) (Float := unit)) (w : nat)
    : Reply * nat :=
  (match or_max_tokens q with
   | Some _ => Answer 400 [Ok "Unsupported parameter: 'max_tokens'. Use 'max_completion_tokens' instead."]
   | None => Answer 200 [Ok "ok"]
   end, S w).

Definition ask (model : string) (room : option (option nat)) : Op (Value := text) (Float := unit) :=
  mkOp room [Message.user "Hi"] [] (Some model) (mkChatOptions (Some 100) None None None FormatText).

Definition asked : list Op := [ask "thinker" None; ask "o3-mini" None; ask "thinker" (Some None)].

Definition response (s : string) : result string OpenAIResponse := Ok (mkOpenAIResponse [(Some s, None)] None).

Notation run := (run_ops "json_object" (λ n _ _, n) strict_backend response (λ _, None) parse).

Example fields_learned :
  option_map (λ r, map (map (λ qr, (or_model (fst qr), or_max_tokens (fst qr), max_completion_tokens (fst qr)))) (snd r))
    (run (new "sk-key") 0%nat asked)
  = Some [[("thinker", Some 100, None); ("thinker", None, Some 100)]; [("o3-mini", None, Some 100)];
          [("thinker", None, Some 100)]].
Proof. vm_compute. reflexivity. Qed.

Lemma token_fields_witness :
  ∃ self w logs, run (new "sk-key") 0%nat asked = Some (self, w, logs) ∧ w = 4%nat ∧
    expected "json_object" (λ n _ _, n) (λ _, None) [] asked logs.
Proof.
  destruct (token_fields "json_object" (λ n _ _, n) strict_backend response (λ _, None) parse (new "sk-key") 0%nat asked)
    as (self & w & logs & Hrun & He); [reflexivity|].
  exists self, w, logs. split; [exact Hrun|]. split; [|exact He]. vm_compute in Hrun. by injection Hrun as _ <- _.
Defined.

(** A picture that is not in the message itself is left out. *)
Example url_left_out :
  om_content (convert_message (Message.user_with_images "What is this?" [Session.Image (Url "https://x.org/a.png") "image/png"]))
  = Some (OParts [PText "What is this?"]).
Proof. reflexivity. Qed.
End Example_openai.
