(* ===== verification/Gemini.v ===== *)
(** The provider of src/src/providers/gemini.rs: credentials, the body of a request and what is
    read of an answer.

    A JSON answer is what the code looks up in it; the HTTP client, the environment, the file of
    the command line client and RFC 3339 are arguments. *)

From S2P Require Import Prelude Errors LoopGuard Session AgentLoop Wire.

Definition GEMINI_API_BASE : string := "https://generativelanguage.googleapis.com/v1beta".
Definition DEFAULT_GEMINI_MODEL : string := "gemini-2.0-flash".

(** ** Credentials *)

Inductive GeminiAuth : Type := ApiKey (key : string) | BearerToken (token : string).

#[export] Instance GeminiAuth_eq_dec : EqDecision GeminiAuth.
Proof. solve_decision. Defined.

Definition non_empty (k : option string) : option string :=
  match k with Some k => if str_is_empty k then None else Some k | None => None end.

Definition resolve (explicit_key env_key oauth_token : option string) : option GeminiAuth :=
  match non_empty explicit_key, non_empty env_key with
  | Some k, _ => Some (ApiKey k)
  | None, Some k => Some (ApiKey k)
  | None, None => BearerToken <$> oauth_token
  end.

(** The fields of the file of credentials. *)
Record CliToken : Type := mkCliToken {
  expiry : option string;
  expires_at : option string;
  access_token : option string;
  token : option string;
  oauth_token : option string;
}.

Definition or_else {A} (a b : option A) : option A := match a with Some _ => a | None => b end.

(** A time that cannot be read does not count. *)
Definition load_cli_token (parse_rfc3339 : string → option Z) (now : Z) (file : option CliToken) : option string :=
  match file with
  | None => None
  | Some json =>
    let expired := match or_else (expiry json) (expires_at json) with
                   | Some e => match parse_rfc3339 e with Some t => t <? now | None => false end
                   | None => false
                   end in
    if expired then None else or_else (or_else (access_token json) (token json)) (oauth_token json)
  end.

Record GeminiProvider : Type := mkGeminiProvider { auth : GeminiAuth; model_of_provider : string }.

(** [gemini_key] and [google_key] are the variables of the environment. *)
Definition from_config (gemini_key google_key : option string) (cli_token : option string) (api_key : option string)
    (model : string) (prefer_oauth : bool) : option GeminiProvider :=
  let env_key := or_else gemini_key google_key in
  let oauth_token :=
    if prefer_oauth || match api_key with Some k => str_is_empty k | None => true end then cli_token else None in
  auth ← resolve api_key env_key oauth_token; Some (mkGeminiProvider auth model).

(** ** Requests *)

Inductive Part : Type := GText (text : string) | InlineData (mime_type data : string).

Record GeminiContent : Type := mkGeminiContent { g_role : string; parts : list Part }.

Section gemini.
Context {Value Float : Type}.

Record GeminiBody : Type := mkGeminiBody {
  contents : list GeminiContent;
  max_output_tokens : option Z;
  g_temperature : option Float;
  g_top_p : option Float;
  system_instruction : option string;
}.

Definition part_of (p : ContentPart) : option Part :=
  match p with
  | Session.Text text => Some (GText text)
  | Session.Image (Base64 data) media_type => Some (InlineData media_type data)
  | Session.Image _ _ => None
  end.

Definition gemini_content (m : Message) : GeminiContent :=
  mkGeminiContent (match role m with Assistant => "model" | _ => "user" end)
    (if Message.has_images m then omap part_of (content_parts m) else [GText (content m)]).

Definition build_messages_body (messages : list Message) (options : ChatOptions Value Float) : GeminiBody :=
  let system_prompt := content <$> head (filter (λ m, role m = System) messages) in
  mkGeminiBody (map gemini_content (filter (λ m, role m ≠ System) messages))
    (max_tokens options) (temperature options) (top_p options) system_prompt.

(** ** Answers *)

(** The parts of the first candidate, each with its mark of a thought and its text, and the
    counts of tokens; [None] where the answer has no such field, or not of that type. *)
Record GeminiAnswer : Type := mkGeminiAnswer {
  answer_parts : option (list (option bool * option string));
  usage_metadata : option (option Z * option Z);
}.

Definition extract_text (response : GeminiAnswer) : option string :=
  match answer_parts response with
  | None => None
  | Some parts =>
    let final_parts := omap snd (filter (λ p, default false (fst p) = false) parts) in
    match final_parts with
    | [] => match omap snd parts with [] => None | thought_parts => Some (str_concat thought_parts) end
    | _ => Some (str_concat final_parts)
    end
  end.

(** The counts are cut to 32 bits. *)
Definition extract_usage (response : GeminiAnswer) : option (Z * Z) :=
  match usage_metadata response with
  | Some (Some prompt, Some completion) => Some (prompt mod u32_mod, completion mod u32_mod)
  | _ => None
  end.

Definition api_url (model : string) : string := GEMINI_API_BASE +:+ "/models/" +:+ model +:+ ":generateContent".

(** A key is a parameter of the URL, a token a header. *)
Definition apply_auth (self : GeminiProvider) : list (string * string) * list (string * string) :=
  match auth self with
  | ApiKey key => ([("key", key)], [])
  | BearerToken token => ([], [("Authorization", "Bearer " +:+ token)])
  end.

Section provider.
Context `{RustUnicode}.
Context (post : string → list (string * string) → list (string * string) → GeminiBody → Reply).
Context (parse_answer : string → result string GeminiAnswer) (error_message : string → option string).

(** The tools are not looked at. *)
Definition chat (self : GeminiProvider) (messages : list Message) (tools : list (ToolDefinition Value))
    (model : option string) (options : ChatOptions Value Float) : result ZeptoError LLMResponse :=
  let '(query, headers) := apply_auth self in
  match post (api_url (default (model_of_provider self) model)) query
          (("Content-Type", "application/json") :: headers) (build_messages_body messages options) with
  | Failed e => Err (Provider ("Gemini request failed: " +:+ e))
  | Answer status body =>
    if is_success status then
      match match body_bytes body with Ok bytes => parse_answer bytes | Err e => Err e end with
      | Err e => Err (Provider ("Failed to parse Gemini response: " +:+ e))
      | Ok json => Ok (mkLLMResponse (default "" (extract_text json)) [] (extract_usage json))
      end
    else
      let error_text := body_text body in
      let body_msg := "Gemini API error: " +:+ default error_text (error_message error_text) in
      Err (ProviderTyped (parse_provider_error status body_msg))
  end.

(** An answer has no calls, whatever tools there are. *)
Lemma no_calls self messages tools model options r :
  chat self messages tools model options = Ok r → lr_tool_calls r = [].
Proof.
  unfold chat. destruct (apply_auth self) as [query headers].
  destruct (post _ _ _ _) as [e|status body]; [done|]. destruct (is_success status); [|done].
  destruct (body_bytes body) as [bytes|e]; [|done]. destruct (parse_answer bytes) as [json|e]; [|done].
  by intros [= <-].
Qed.
End provider.

(** What each message becomes: one content, except for the system messages, of which only the
    first is kept. *)
Theorem gemini_requests messages options :
  let body := build_messages_body messages options in
  contents body = map gemini_content (filter (λ m, role m ≠ System) messages) ∧
  (∀ before m after, messages = before ++ m :: after → role m = System →
    Forall (λ m, role m ≠ System) before → system_instruction body = Some (content m)) ∧
  (Forall (λ m, role m ≠ System) messages → system_instruction body = None).
Proof.
  cbv zeta. split; [done|]. assert (∀ l, Forall (λ m, role m ≠ System) l → filter (λ m, role m = System) l = []) as Hnone.
  { intros l Hl. induction Hl as [|m l Hm _ IH]; [done|]. by rewrite filter_cons_False. }
  split.
  - intros before m after -> Hm Hb. cbn [build_messages_body system_instruction].
    by rewrite filter_app, Hnone, filter_cons_True.
  - intros Hl. cbn [build_messages_body system_instruction]. by rewrite Hnone.
Qed.
End gemini.

Module Example_gemini.
Notation body := (build_messages_body (Value := string) (Float := unit)).

(** Of a request for a tool and its result, two texts are left, the first of them empty. *)
Example calls_left_out :
  let m := [Message.assistant_with_tools "" [mkToolCall "c1" "list_dir" "{}"]; Message.tool_result "c1" "a.txt"] in
  contents (body m (mkChatOptions None None None None FormatText))
  = [mkGeminiContent "model" [GText ""]; mkGeminiContent "user" [GText "a.txt"]].
Proof. reflexivity. Qed.

Example thoughts_left_out :
  extract_text (mkGeminiAnswer (Some [(Some true, Some "Let me see."); (None, Some "42")]) None) = Some "42".
Proof. reflexivity. Qed.

(** The key of the configuration, though empty, is passed over; that of the environment wins
    over a token. *)
Example environment_first :
  from_config (Some "env-key") None (Some "token") (Some "") "m" true = Some (mkGeminiProvider (ApiKey "env-key") "m").
Proof. reflexivity. Qed.
End Example_gemini.
