(* ===== verification/Facade.v ===== *)
(** The agent for embedding, src/src/agent/facade.rs: a conversation whose history is kept
    between chats, with tools run one at a time behind the approval gate and the gate of [Gate].

    A chat may be dropped wherever it waits, as a caller does that cancels it; what it has put
    into the history stays. The model, the approval handler and JSON are arguments; log lines are
    left out. *)

From S2P Require Import Prelude Text Errors Provider Context Session Approval Safety Taint.
From S2P Require Import AuditChain Gate Sanitize LoopGuard AgentLoop.

Definition DEFAULT_MAX_ITERATIONS : nat := 10.
(** In milliseconds. *)
Definition DEFAULT_TOOL_TIMEOUT : Z := 60000.

Definition preview_text (text : string) (max_chars : nat) : string :=
  str_concat (take max_chars (chars text)) +:+ if Nat.ltb max_chars (length (chars text)) then "..." else "".

(** How a wait for a tool ends, in which state. *)
Inductive Wait (S : Type) : Type := Completes | TimesOut (s : S) | IsDropped (s : S).
Arguments Completes {S}. Arguments TimesOut {S} _. Arguments IsDropped {S} _.

Section facade.
Context {Value W : Type} `{World W} `{RustRegex} `{RustFormat} `{HashOrder}.
Context (sha256 : string → string) (utc_now : M W string) (now_secs : M (Kernel * W) Z).
Context (get_str : Value → string → option string) (json_to_string pretty_json : Value → string).
Context (parse_json : string → option Value) (null : Value) (secs_f64 : Z → string).
Notation St := (Kernel * W)%type.

(** The model and the handler; [None] is a chat dropped while it waits for them. *)
Context (ask : list Message → M St (option (result ZeptoError LLMResponse))).
Context (wait : Z → St → St → Wait St).

Record ZeptoAgent : Type := mkZeptoAgent {
  tools : ToolRegistry Value St;
  system_prompt : string;
  max_iterations : nat;
  tool_context : ToolContext;
  safety : option SafetyConfig;
  tool_timeout : Z;
  approval_gate : ApprovalGate;
  approval_handler : option (ApprovalRequest Value → M St (option ApprovalResponse));
}.

(** What is seen of a chat from outside. *)
Inductive Event : Type :=
| Asked (messages : list Message)
| Step (tool text : string)
| Ran (tool : string) (args : Value).

(** [None]: dropped. The inner value is the refusal. *)
Definition resolve_tool_approval (self : ZeptoAgent) (tool_name : string) (args : Value)
    : M St (option (option string)) :=
  if negb (ApprovalGate.requires_approval (approval_gate self) tool_name) then ret (Some None)
  else match approval_handler self with
       | Some handler =>
         let* request := create_request now_secs (approval_gate self) tool_name args in
         let* response := handler request in
         ret (match response with
              | None => None
              | Some Approved => Some None
              | Some (Denied reason) =>
                Some (Some ("Tool '" +:+ tool_name +:+ "' was denied by user approval. " +:+ reason))
              | Some TimedOut =>
                Some (Some ("Tool '" +:+ tool_name +:+ "' approval timed out and was not executed."))
              end)
       | None =>
         ret (Some (Some ("Tool '" +:+ tool_name +:+ "' requires user approval and was not executed. "
                            +:+ format_approval_request pretty_json tool_name args)))
       end.

(** The call through the gate, under the time limit; a panic is caught. *)
Definition run_tool (self : ZeptoAgent) (tool_name : string) (args : Value) : M St (option string) :=
  λ st,
    let '(ran, st') := Gate.execute_tool sha256 utc_now get_str json_to_string (tools self) tool_name args
                         (tool_context self) (safety self) st in
    match wait (tool_timeout self) st st' with
    | IsDropped st => (None, st)
    | TimesOut st =>
      (Some ("Tool error: Tool '" +:+ tool_name +:+ "' timed out after " +:+ secs_f64 (tool_timeout self) +:+ "s"), st)
    | Completes =>
      (Some match ran with
            | Ret (Ok output) => for_llm output
            | Ret (Err e) => "Tool error: " +:+ ZeptoError_display e
            | Panic => "Tool error: Tool '" +:+ tool_name +:+ "' panicked during execution"
            end, st')
    end.

(** The result of one call, and the events of it. *)
Definition call_result (self : ZeptoAgent) (tool_name : string) (args : Value) : M St (option string * list Event) :=
  if ToolRegistry.has (tools self) tool_name then
    let* denial := resolve_tool_approval self tool_name args in
    match denial with
    | None => ret (None, [])
    | Some (Some denial) => ret (Some denial, [])
    | Some None => let* result := run_tool self tool_name args in ret (result, [Ran tool_name args])
    end
  else ret (Some ("Unknown tool: " +:+ tool_name), []).

(** How a chat ends; [None] is dropped. *)
Definition Ending : Type := option (result ZeptoError string).

(** The loop with [n] iterations left; [messages] is what the model is sent, [history] what is
    kept. *)
Fixpoint iterate (self : ZeptoAgent) (n : nat) (messages history : list Message)
    : M St (Ending * list Message * list Event) :=
  match n with
  | O =>
    let cap_msg := "I've completed the requested actions." in
    ret (Some (Ok cap_msg), history ++ [Message.assistant cap_msg], [])
  | S n =>
    let* response := ask messages in
    match response with
    | None => ret (None, history, [Asked messages])
    | Some (Err e) => ret (Some (Err e), history, [Asked messages])
    | Some (Ok response) =>
      match lr_tool_calls response with
      | [] => ret (Some (Ok (lr_content response)), history ++ [Message.assistant (lr_content response)], [Asked messages])
      | tc :: _ =>
        let assistant_msg := Message.assistant_with_tools (lr_content response) [call_of tc] in
        let messages' := messages ++ [assistant_msg] in
        let history := history ++ [assistant_msg] in
        let args := default null (parse_json (call_arguments tc)) in
        let begun := [Asked messages;
                      Step (call_name tc) ("Executing: " +:+ call_name tc +:+ " " +:+ json_to_string args)] in
        let* called := call_result self (call_name tc) args in
        match called with
        | (None, events) => ret (None, history, begun ++ events)
        | (Some result, events) =>
          let tool_msg := Message.tool_result (call_id tc) result in
          let* rest := iterate self n (messages' ++ [tool_msg]) (history ++ [tool_msg]) in
          let '(ending, history, events') := rest in
          ret (ending, history,
               begun ++ events ++ [Step (call_name tc) ("Done: " +:+ preview_text result 147)] ++ events')
        end
      end
    end
  end.

Definition chat_with_callback (self : ZeptoAgent) (history : list Message) (user_message : string)
    : M St (Ending * list Message * list Event) :=
  let history := history ++ [Message.user user_message] in
  iterate self (max_iterations self) (Message.system (system_prompt self) :: history) history.

Definition is_dangling (m : Message) : bool := bool_decide (role m = Session.Assistant) && Message.has_tool_calls m.

(** The loop over the end of the history, from its last message. *)
Fixpoint drop_dangling (reversed : list Message) : list Message :=
  match reversed with
  | m :: rest => if is_dangling m then drop_dangling rest else reversed
  | [] => []
  end.

Definition repair_history (history : list Message) : list Message := rev (drop_dangling (rev history)).

(** What its owner does with an agent. *)
Inductive Op : Type := Chat (text : string) | Clear | RepairHistory.

Definition run_op (self : ZeptoAgent) (op : Op) (history : list Message)
    : M St (Ending * list Message * list Event) :=
  match op with
  | Chat text => chat_with_callback self history text
  | Clear => ret (Some (Ok ""), [], [])
  | RepairHistory => ret (Some (Ok ""), repair_history history, [])
  end.

(** ** The builder *)

Record ZeptoAgentBuilder : Type := mkZeptoAgentBuilder {
  b_provider : bool;
  b_tools : list (Gate.Tool Value St);
  b_system_prompt : option string;
  b_max_iterations : nat;
  b_history : list Message;
  b_tool_context : ToolContext;
  b_safety : option SafetyConfig;
  b_tool_timeout : Z;
  b_approval_gate : ApprovalGate;
  b_approval_handler : option (ApprovalRequest Value → M St (option ApprovalResponse));
}.

Definition with_tool_timeout (self : ZeptoAgentBuilder) (ms : Z) : ZeptoAgentBuilder :=
  mkZeptoAgentBuilder (b_provider self) (b_tools self) (b_system_prompt self) (b_max_iterations self) (b_history self)
    (b_tool_context self) (b_safety self) (Z.max ms 1) (b_approval_gate self) (b_approval_handler self).

(** The agent with its history; a later tool replaces an earlier one of its name. *)
Definition build (self : ZeptoAgentBuilder) : result ZeptoError (ZeptoAgent * list Message) :=
  if b_provider self then
    Ok (mkZeptoAgent (foldl ToolRegistry.register ToolRegistry.new (b_tools self))
          (default "You are a helpful AI assistant." (b_system_prompt self)) (b_max_iterations self)
          (b_tool_context self) (b_safety self) (b_tool_timeout self) (b_approval_gate self) (b_approval_handler self),
        b_history self)
  else Err (Config "ZeptoAgent requires a provider. Call .provider() on the builder.").

(** ** Histories *)

Definition asked (e : Event) : option (list Message) := match e with Asked ms => Some ms | _ => None end.
Definition ran (e : Event) : option (string * Value) := match e with Ran tool args => Some (tool, args) | _ => None end.

(** A tool may run: it is there, and the gate does not ask for it or its handler agreed. *)
Definition allowed (self : ZeptoAgent) (tool_name : string) : Prop :=
  ToolRegistry.has (tools self) tool_name = true ∧
  (ApprovalGate.requires_approval (approval_gate self) tool_name = false ∨
   ∃ handler request st, approval_handler self = Some handler ∧ Approval.tool_name request = tool_name ∧
     fst (handler request st) = Some Approved).

(** One round of a chat, or one whose result never came. *)
Definition one_call (m : Message) : Prop := ∃ text tc, m = Message.assistant_with_tools text [tc].

Lemma approval_allows self tool_name args st st' :
  ToolRegistry.has (tools self) tool_name = true →
  resolve_tool_approval self tool_name args st = (Some None, st') → allowed self tool_name.
Proof.
  intros Hhas. unfold resolve_tool_approval. destruct (ApprovalGate.requires_approval _ _) eqn:Hreq; cbn [negb];
    [|intros _; split; [done|by left]].
  destruct (approval_handler self) as [handler|] eqn:Hh; [|done]. unfold create_request, bind, ret.
  destruct (now_secs st) as [now st1]. cbn.
  destruct (handler _ st1) as [r st2] eqn:Hr. intros [= Hr' <-]. split; [done|]. right.
  eexists handler, _, st1. split; [done|]. split; [|rewrite Hr; by destruct r as [[]|]]. done.
Qed.

Lemma call_result_spec self tool_name args st result events st' :
  call_result self tool_name args st = ((result, events), st') →
  events = [] ∨ events = [Ran tool_name args] ∧ allowed self tool_name.
Proof.
  unfold call_result. destruct (ToolRegistry.has (tools self) tool_name) eqn:Hhas; [|intros [= _ <- _]; by left].
  unfold bind. destruct (resolve_tool_approval self tool_name args st) as [[[denial|]|] st1] eqn:Hr;
    [intros [= _ <- _]; by left| |intros [= _ <- _]; by left].
  destruct (run_tool self tool_name args st1) as [res st2]. intros [= _ <- _]. right. split; [done|]. by eapply approval_allows.
Qed.

(** What the loop does from a history of complete rounds. *)
Definition chatted (self : ZeptoAgent) (n : nat) (h : list Message) (r : Ending * list Message * list Event) : Prop :=
  let '(ending, h', events) := r in
  (∃ added pending, h' = h ++ added ++ pending ∧ rounds added ∧ Forall one_call pending ∧ (length pending ≤ 1)%nat ∧
     (ending ≠ None → pending = []) ∧ ∀ t, ending = Some (Ok t) → last added = Some (Message.assistant t)) ∧
  (length (omap asked events) ≤ n)%nat ∧ (length (omap ran events) ≤ length (omap asked events))%nat ∧
  (∀ ms, Asked ms ∈ events → ∃ added, ms = Message.system (system_prompt self) :: h ++ added ∧ rounds added) ∧
  ∀ name args, Ran name args ∈ events → allowed self name.

Lemma rounds_call text tc result :
  rounds [Message.assistant_with_tools text [call_of tc]; Message.tool_result (call_id tc) result].
Proof.
  apply (rounds_calls _ [call_of tc] [Message.tool_result (call_id tc) result] []); [done..| |constructor].
  by repeat constructor.
Qed.

Lemma rounds_text text : rounds [Message.assistant text].
Proof. by repeat constructor. Qed.

(** The last request of a chat. *)
Lemma chatted_last self n h ending added :
  rounds added → (∀ t, ending = Some (Ok t) → last added = Some (Message.assistant t)) →
  chatted self (S n) h (ending, h ++ added, [Asked (Message.system (system_prompt self) :: h)]).
Proof.
  intros Hr Hlast. split; [|split; [cbn; lia|split; [cbn; lia|split]]].
  - exists added, []. rewrite app_nil_r. split; [done|]. split; [done|]. split; [done|]. split; [cbn; lia|]. by split.
  - intros ms Hin%list_elem_of_singleton. injection Hin as ->. exists []. rewrite app_nil_r. split; [done|constructor].
  - by intros name args ?%list_elem_of_singleton.
Qed.

(** A request whose call got no result, as the chat was dropped. *)
Lemma chatted_dropped self n h text tc step step_text events args :
  events = [] ∨ events = [Ran (call_name tc) args] ∧ allowed self (call_name tc) →
  chatted self (S n) h (None, h ++ [Message.assistant_with_tools text [call_of tc]],
    [Asked (Message.system (system_prompt self) :: h); Step step step_text] ++ events).
Proof.
  intros Hev. split; [|split; [|split; [|split]]].
  - exists [], [Message.assistant_with_tools text [call_of tc]]. cbn [app]. split; [done|]. split; [constructor|].
    split; [repeat constructor; by exists text, (call_of tc)|]. split; [cbn; lia|]. by split.
  - destruct Hev as [->|[-> _]]; cbn; lia.
  - destruct Hev as [->|[-> _]]; cbn; lia.
  - intros ms [Heq|[Heq|Hin]%elem_of_cons]%elem_of_cons; [|done|].
    + injection Heq as ->. exists []. rewrite app_nil_r. split; [done|constructor].
    + by destruct Hev as [->|[-> _]]; [apply elem_of_nil in Hin|apply list_elem_of_singleton in Hin].
  - intros name a [Heq|[Heq|Hin]%elem_of_cons]%elem_of_cons; [done..|].
    destruct Hev as [->|[-> Hall]]; [by apply elem_of_nil in Hin|]. apply list_elem_of_singleton in Hin. by injection Hin as ->.
Qed.

(** A request whose call got its result, and the rest of the chat. *)
Lemma chatted_round self n h text tc result step t1 t2 events args r :
  events = [] ∨ events = [Ran (call_name tc) args] ∧ allowed self (call_name tc) →
  chatted self n (h ++ [Message.assistant_with_tools text [call_of tc]; Message.tool_result (call_id tc) result]) r →
  chatted self (S n) h (fst (fst r), snd (fst r),
    [Asked (Message.system (system_prompt self) :: h); Step step t1] ++ events ++ [Step step t2] ++ snd r).
Proof.
  intros Hev. destruct r as [[ending h'] events']. cbn [fst snd].
  set (round := [Message.assistant_with_tools text [call_of tc]; Message.tool_result (call_id tc) result]).
  assert (rounds round) as Hround by apply rounds_call.
  intros ((added & pending & -> & Hr & Hp & Hlen & Hend & Hlast) & Hn & Hran & Hask & Hall). split; [|split; [|split; [|split]]].
  - exists (round ++ added), pending. rewrite <- !app_assoc. split; [done|]. split; [by apply rounds_app|]. split; [done|].
    split; [done|]. split; [done|]. intros t Ht. specialize (Hlast t Ht). rewrite last_app, Hlast. done.
  - destruct Hev as [->|[-> _]]; cbn; lia.
  - destruct Hev as [->|[-> _]]; cbn; lia.
  - intros ms Hin. apply elem_of_app in Hin as [[Heq|[Heq|Hin]%elem_of_cons]%elem_of_cons|Hin]; [|done|by apply elem_of_nil in Hin|].
    { injection Heq as ->. exists []. rewrite app_nil_r. split; [done|constructor]. }
    apply elem_of_app in Hin as [Hin|[Heq|Hin]%elem_of_cons]; [|done|].
    + by destruct Hev as [->|[-> _]]; [apply elem_of_nil in Hin|apply list_elem_of_singleton in Hin].
    + destruct (Hask ms Hin) as (a & -> & Ha). exists (round ++ a). rewrite <- app_assoc. split; [done|]. by apply rounds_app.
  - intros name a Hin. apply elem_of_app in Hin as [[Heq|[Heq|Hin]%elem_of_cons]%elem_of_cons|Hin]; [done..|by apply elem_of_nil in Hin|].
    apply elem_of_app in Hin as [Hin|[Heq|Hin]%elem_of_cons]; [|done|by eapply Hall].
    destruct Hev as [->|[-> Hal]]; [by apply elem_of_nil in Hin|]. apply list_elem_of_singleton in Hin. by injection Hin as ->.
Qed.

Lemma iterate_chatted self n h st : chatted self n h (fst (iterate self n (Message.system (system_prompt self) :: h) h st)).
Proof.
  revert h st. induction n as [|n IH]; intros h st; cbn [iterate].
  - cbn. split; [|split; [lia|split; [lia|split; by intros ? *; intros ?%elem_of_nil]]].
    eexists [_], []. rewrite app_nil_r. split; [done|]. split; [apply rounds_text|]. split; [done|]. split; [cbn; lia|].
    split; [done|]. by intros t [= <-].
  - unfold bind at 1. destruct (ask _ st) as [[[response|e]|] st1].
    + destruct (lr_tool_calls response) as [|tc others]; cbn [fst ret].
      { apply chatted_last; [apply rounds_text|]. by intros t [= <-]. }
      unfold bind at 1. destruct (call_result self (call_name tc) _ st1) as [[[result|] events] st2] eqn:Hc;
        apply call_result_spec in Hc; [|by apply (chatted_dropped self n h _ tc _ _ _ _ Hc)].
      unfold bind. specialize (IH (h ++ [Message.assistant_with_tools (lr_content response) [call_of tc];
                                       Message.tool_result (call_id tc) result]) st2).
      rewrite <- !app_assoc. cbn [app] in IH |- *.
      destruct (iterate self n _ _ st2) as [[[ending h'] events'] st3]. cbn [fst ret] in IH |- *.
      exact (chatted_round self n h _ tc result _ _ _ events _ (ending, h', events') Hc IH).
    + pose proof (chatted_last self n h (Some (Err e)) [] rounds_nil ltac:(done)) as Hl. by rewrite app_nil_r in Hl.
    + pose proof (chatted_last self n h None [] rounds_nil ltac:(done)) as Hl. by rewrite app_nil_r in Hl.
Qed.

Lemma rounds_not_dangling h m : rounds h → last h = Some m → is_dangling m = false.
Proof.
  intros Hr. revert m. induction Hr as [|x l Hx Hc Hl IH|x calls results l Hx Hc Hids Hres Hl IH]; intros m; [done|..].
  - destruct l as [|y l]; [|apply IH]. intros [= <-]. unfold is_dangling, Message.has_tool_calls. rewrite Hc. apply andb_false_r.
  - destruct l as [|y l]; [rewrite app_nil_r|rewrite app_comm_cons, last_app_cons; apply IH].
    destruct results as [|r results _] using rev_ind.
    + intros [= <-]. unfold is_dangling, Message.has_tool_calls. rewrite Hc. destruct calls; [apply andb_false_r|done].
    + rewrite app_comm_cons, last_snoc. intros [= <-]. apply Forall_app in Hres as [_ [[Hr _] _]%Forall_cons].
      unfold is_dangling. by rewrite Hr.
Qed.

Lemma drop_dangling_rounds h : rounds h → drop_dangling (rev h) = rev h.
Proof.
  intros Hr. destruct h as [|m h _] using rev_ind; [done|]. rewrite rev_unit. cbn [drop_dangling].
  by rewrite (rounds_not_dangling (h ++ [m]) m Hr (last_snoc _ _)).
Qed.

Lemma repair_rounds h : rounds h → repair_history h = h.
Proof. intros Hr. unfold repair_history. by rewrite drop_dangling_rounds, rev_involutive. Qed.

Lemma repair_pending h pending :
  rounds h → Forall one_call pending → (length pending ≤ 1)%nat → repair_history (h ++ pending) = h.
Proof.
  intros Hr Hp Hlen. destruct Hp as [|m pending (text & tc & ->) _]; [rewrite app_nil_r; by apply repair_rounds|].
  destruct pending; [|cbn in Hlen; lia]. unfold repair_history. rewrite rev_unit. cbn [drop_dangling].
  change (is_dangling _) with true. cbv iota. by rewrite drop_dangling_rounds, rev_involutive.
Qed.

Lemma user_round text : rounds [Message.user text].
Proof. by repeat constructor. Qed.

(** The histories of an agent, and whether its last chat was dropped and nothing was done about
    it: the owner repairs or clears the history before the next chat. *)
Inductive reached (self : ZeptoAgent) (h0 : list Message) : list Message → bool → Prop :=
| reached_start : reached self h0 h0 false
| reached_op op h d st ending h' events st' :
    reached self h0 h d → (d = true → ∀ text, op ≠ Chat text) →
    run_op self op h st = ((ending, h', events), st') → reached self h0 h' (bool_decide (ending = None)).

(** Whatever the model answers, the handler decides and the owner drops: a history that began
    with complete rounds consists of complete rounds again after every chat that came back and
    after every repair, which changes nothing else. A chat sends the model the prompt, the history
    and complete rounds, at most [max_iterations] times, ends the history with its answer, and runs
    at most one tool per request, which is one it has and which the approval gate lets pass. *)
Theorem facade_histories self h0 h d :
  rounds h0 → reached self h0 h d →
  rounds (repair_history h) ∧ (d = false → rounds h ∧ repair_history h = h) ∧
  (d = false → ∀ text st,
    let '(ending, h', events) := fst (chat_with_callback self h text st) in
    (∃ added pending, h' = h ++ [Message.user text] ++ added ++ pending ∧ (ending ≠ None → pending = []) ∧
       repair_history h' = h ++ [Message.user text] ++ added ∧
       ∀ t, ending = Some (Ok t) → last h' = Some (Message.assistant t)) ∧
    (length (omap asked events) ≤ max_iterations self)%nat ∧ (length (omap ran events) ≤ length (omap asked events))%nat ∧
    (∀ ms, Asked ms ∈ events → ∃ added,
       ms = Message.system (system_prompt self) :: h ++ [Message.user text] ++ added ∧ rounds added) ∧
    ∀ name args, Ran name args ∈ events → allowed self name).
Proof.
  intros Hstart Hreach.
  assert (rounds (repair_history h) ∧ (d = false → rounds h)) as [Hrep Hr].
  { induction Hreach as [|op h d st ending h' events st' Hreach [IHrep IH] Hop Hrun].
    { split; [by rewrite repair_rounds|done]. }
    destruct op as [text| |]; cbn in Hrun.
    - destruct d; [by destruct (Hop eq_refl text)|]. specialize (IH eq_refl).
      pose proof (iterate_chatted self (max_iterations self) (h ++ [Message.user text]) st) as Hc.
      unfold chat_with_callback in Hrun. rewrite Hrun in Hc.
      destruct Hc as ((added & pending & -> & Ha & Hp & Hlen & Hend & _) & _).
      assert (rounds ((h ++ [Message.user text]) ++ added)) as Hall
        by (apply rounds_app; [apply rounds_app; [done|apply user_round]|done]).
      rewrite app_assoc. split; [by rewrite repair_pending|]. intros Hb%bool_decide_eq_false. rewrite (Hend Hb). by rewrite app_nil_r.
    - injection Hrun as <- <- <- <-. split; [|intros _]; constructor.
    - injection Hrun as <- <- <- <-. split; [by rewrite repair_rounds|done]. }
  split; [done|]. split; [intros Hd; specialize (Hr Hd); split; [done|by apply repair_rounds]|].
  intros Hd text st. specialize (Hr Hd).
  pose proof (iterate_chatted self (max_iterations self) (h ++ [Message.user text]) st) as Hc. unfold chat_with_callback.
  destruct (fst (iterate _ _ _ _ st)) as [[ending h'] events].
  destruct Hc as ((added & pending & -> & Ha & Hp & Hlen & Hend & Hlast) & Hn & Hran & Hask & Hall).
  assert (rounds ((h ++ [Message.user text]) ++ added)) as Hrounds
    by (apply rounds_app; [apply rounds_app; [done|apply user_round]|done]).
  split; [|split; [done|split; [done|split; [|done]]]].
  - exists added, pending. rewrite <- !app_assoc. split; [done|]. split; [done|]. split.
    + rewrite !app_assoc. rewrite repair_pending by done. by rewrite <- !app_assoc.
    + intros t Ht. rewrite (Hend ltac:(congruence)), app_nil_r, app_assoc, last_app. by rewrite (Hlast t Ht).
  - intros ms Hin. destruct (Hask ms Hin) as (a & -> & Hra). exists a. by rewrite <- app_assoc.
Qed.
End facade.

Module Example_facade.
#[local] Existing Instance Example_gate.order.
Notation St := (Kernel * Scripted.t)%type.

(** A model that wants [tool] run, until it sees a result. *)
Definition model (tool : string) (messages : list Message) : M St (option (result ZeptoError LLMResponse)) :=
  ret (Some (Ok (match last messages with
                 | Some m => if bool_decide (role m = Session.Tool) then mkLLMResponse "done" [] None
                             else mkLLMResponse "" [mkLLMToolCall "c1" tool "rm -rf /"] None
                 | None => mkLLMResponse "" [] None
                 end))).

Definition shell : Gate.Tool string St :=
  mkTool "shell" "" "" "" Shell (λ args _, ret (Ret (Ok (ToolOutput.llm_only "ok")))).

Definition agent (gate : ApprovalGate) : ZeptoAgent (Value := string) (W := Scripted.t) :=
  mkZeptoAgent (ToolRegistry.register ToolRegistry.new shell) "You help." 3 ToolContext.new None 1000 gate None.

Definition open_gate : ApprovalGate := mkApprovalGate false AlwaysAllow 0.
Definition asking_gate : ApprovalGate := mkApprovalGate true AlwaysRequire 0.

Definition start : St := (mkKernel AuditHashChain.default ∅ None, Scripted.start []).

Notation run wait self h text :=
  (fst (chat_with_callback (λ x, x) (λ w, ("now", w)) (λ w, (0, w)) (λ _ _, None) (λ v, v) (λ v, v) Some "" fmt_Z
     (model "shell") wait self h text start)).

Definition whole : Z → St → St → Wait St := λ _ _ _, Completes.
Definition dropped : Z → St → St → Wait St := λ _ _ st, IsDropped st.

Definition asked_tool : Message := Message.assistant_with_tools "" [mkToolCall "c1" "shell" "rm -rf /"].

(** Nobody is asked about a command that the hard floor is there for, which the agent loop never
    runs without a person's consent. *)
Example no_hard_floor :
  (hard_floor_check (λ _ _, true) Some "shell" "rm -rf /" ≠ None) ∧
  match run whole (agent open_gate) [] "Clean up" with
  | (ending, _, events) => ending = Some (Ok "done") ∧ omap ran events = [("shell", "rm -rf /")]
  end.
Proof. split; [discriminate|]. vm_compute. split; reflexivity. Qed.

Example refused_without_handler :
  match run whole (agent asking_gate) [] "Clean up" with
  | (ending, _, events) => ending = Some (Ok "done") ∧ omap ran events = []
  end.
Proof. vm_compute. split; reflexivity. Qed.

(** A chat that is dropped while its tool runs leaves the call; a repair takes it out. *)
Example dropped_and_repaired :
  match run dropped (agent open_gate) [] "Clean up" with
  | (ending, h, _) =>
    ending = None ∧ h = [Message.user "Clean up"; asked_tool] ∧ repair_history h = [Message.user "Clean up"]
  end.
Proof. vm_compute. repeat split; reflexivity. Qed.

(** A repair that comes after the next chat no longer finds it. *)
Example repaired_too_late :
  match run whole (agent open_gate) [Message.user "Clean up"; asked_tool] "And now?" with
  | (_, h, _) => repair_history h = h ∧ take 3 h = [Message.user "Clean up"; asked_tool; Message.user "And now?"]
  end.
Proof. vm_compute. split; reflexivity. Qed.

Lemma facade_histories_witness :
  rounds (repair_history [Message.user "Clean up"; asked_tool]).
Proof.
  refine (proj1 (facade_histories (λ x, x) (λ w, ("now", w)) (λ w, (0, w)) (λ _ _, None) (λ v, v) (λ v, v) Some "" fmt_Z
    (model "shell") dropped (agent open_gate) [] _ (bool_decide (@None (result ZeptoError string) = None)) rounds_nil _)).
  destruct (chat_with_callback (λ x, x) (λ w, ("now", w)) (λ w, (0, w)) (λ _ _, None) (λ v, v) (λ v, v) Some "" fmt_Z
    (model "shell") dropped (agent open_gate) [] "Clean up" start) as [[[ending h] events] st'] eqn:Hrun.
  assert (ending = None ∧ h = [Message.user "Clean up"; asked_tool]) as [-> ->]
    by (pose proof dropped_and_repaired as Hd; rewrite Hrun in Hd; cbn in Hd; naive_solver).
  refine (reached_op _ _ _ _ _ _ _ _ _ _ _ _ _ (Chat "Clean up") [] false start _ _ _ _ _ _ Hrun); [constructor|done].
Defined.
End Example_facade.
