(* ===== verification/Delegate.v ===== *)
(** Delegation to sub-agents, src/src/tools/delegate.rs, and the tool with which agents send
    messages, src/src/tools/message.rs.

    The run of a sub-agent is an argument: its system prompt, its tools and its task give a result.
    Sub-agents that run at the same time are a machine of their own. JSON is what the code looks up
    in it; log lines and descriptions are left out. *)

From S2P Require Import Prelude Text Lines Errors LongTerm Provider Bus Gate Budget.

(** ** The message tool *)

Definition ALLOWED_CHANNELS : list string :=
  ["telegram"; "slack"; "discord"; "webhook"; "whatsapp"; "whatsapp_web"; "whatsapp_cloud"].

(** The arguments, each [None] when it is missing or of another type; the minutes are those of a
    number or of a text with one. *)
Record MessageArgs : Type := mkMessageArgs {
  m_content : option string;
  m_channel : option string;
  m_chat_id : option string;
  m_reply_to : option string;
  thread_name : option string;
  thread_message_id : option string;
  auto_archive_minutes : option Z;
  m_action : option string;
  emoji : option string;
  react_message_id : option string;
  blocks : option string;
  buttons : option string;
}.

Definition some_text (s : option string) : option string :=
  match trim <$> s with
  | Some s => if str_is_empty s then None else Some s
  | None => None
  end.

Definition or_context (a b : option string) : option string := match a with Some _ => a | None => b end.

Section message.
(** The JSON of an action of a channel. *)
Context (react_json : string → string → string) (rich_json : string → string) (keyboard_json : string → string → string).

(** What is published, and the answer once it is. *)
Definition compose (args : MessageArgs) (content channel chat_id : string) : result ZeptoError (OutboundMessage * string) :=
  let reply_to := some_text (m_reply_to args) in
  let name := some_text (thread_name args) in
  let message_id := some_text (thread_message_id args) in
  let minutes := fmt_Z <$> auto_archive_minutes args in
  let has_discord_thread_options := bool_decide (is_Some name) || bool_decide (is_Some message_id) || bool_decide (is_Some minutes) in
  let action := default "send" (m_action args) in
  let only ch := eq_ignore_ascii_case channel ch in
  let unsupported what ch :=
    Err (Errors.Tool ("Action '" +:+ what +:+ "' is not supported on channel '" +:+ channel +:+ "'. Only supported on: " +:+ ch)) in
  if negb (existsb (λ c, eq_ignore_ascii_case c channel) ALLOWED_CHANNELS) then
    Err (Errors.Tool ("Unknown channel '" +:+ channel +:+ "'. Allowed: " +:+ join ", " ALLOWED_CHANNELS))
  else if has_discord_thread_options && negb (only "discord") then
    Err (Errors.Tool "Discord thread options require channel='discord'")
  else if has_discord_thread_options && negb (bool_decide (is_Some name)) then
    Err (Errors.Tool "Missing 'discord_thread_name' for Discord thread creation")
  else if (bool_decide (is_Some reply_to) || has_discord_thread_options) && negb (String.eqb action "send") then
    Err (Errors.Tool "reply_to and Discord thread options are only supported with action='send'")
  else if String.eqb action "send" then
    let out := OutboundMessage.new channel chat_id content in
    let out := match reply_to with Some r => OutboundMessage.with_reply out r | None => out end in
    let out := match name with Some n => OutboundMessage.with_metadata out "discord_thread_name" n | None => out end in
    let out := match message_id with Some i => OutboundMessage.with_metadata out "discord_thread_message_id" i | None => out end in
    let out := match minutes with
               | Some m => OutboundMessage.with_metadata out "discord_thread_auto_archive_minutes" m
               | None => out
               end in
    Ok (out, "Message sent to " +:+ channel +:+ ":" +:+ chat_id)
  else if String.eqb action "react" then
    if negb (only "discord") then unsupported "react" "discord"
    else match emoji args with
         | None => Err (Errors.Tool "Action 'react' requires payload.emoji (string)")
         | Some e =>
           Ok (OutboundMessage.new channel chat_id (react_json e (default "" (react_message_id args))),
               "Reaction '" +:+ e +:+ "' sent to " +:+ channel +:+ ":" +:+ chat_id)
         end
  else if String.eqb action "rich_message" then
    if negb (only "slack") then unsupported "rich_message" "slack"
    else match blocks args with
         | None => Err (Errors.Tool "Action 'rich_message' requires payload.blocks (array)")
         | Some b =>
           Ok (OutboundMessage.new channel chat_id (rich_json b), "Rich message sent to " +:+ channel +:+ ":" +:+ chat_id)
         end
  else if String.eqb action "inline_keyboard" then
    if negb (only "telegram") then unsupported "inline_keyboard" "telegram"
    else match buttons args with
         | None => Err (Errors.Tool "Action 'inline_keyboard' requires payload.buttons (array of arrays)")
         | Some b =>
           Ok (OutboundMessage.new channel chat_id (keyboard_json content b),
               "Inline keyboard sent to " +:+ channel +:+ ":" +:+ chat_id)
         end
  else Err (Errors.Tool ("Unknown action '" +:+ action +:+ "'. Supported actions: send, react, rich_message, inline_keyboard")).

(** The name of a failed publication depends on the action. *)
Definition publish_failure (action : string) : string :=
  if String.eqb action "react" then "Failed to publish react: "
  else if String.eqb action "rich_message" then "Failed to publish rich message: "
  else if String.eqb action "inline_keyboard" then "Failed to publish inline keyboard: "
  else "Failed to publish message: ".

(** [publish] is [publish_outbound] of the bus. *)
Definition message_tool {W} (publish : OutboundMessage → M W (result ZeptoError unit)) (args : MessageArgs)
    (ctx : ToolContext) : M W (result ZeptoError ToolOutput) :=
  match some_text (m_content args) with
  | None => ret (Err (Errors.Tool "Missing 'content' parameter"))
  | Some content =>
    match or_context (m_channel args) (channel ctx) with
    | None => ret (Err (Errors.Tool "No target channel specified"))
    | Some ch =>
      let ch := if eq_ignore_ascii_case ch "whatsapp" then "whatsapp_web" else ch in
      match or_context (m_chat_id args) (chat_id ctx) with
      | None => ret (Err (Errors.Tool "No target chat_id specified"))
      | Some chat =>
        match compose args content ch chat with
        | Err e => ret (Err e)
        | Ok (out, answer) =>
          let* published := publish out in
          ret (match published with
               | Ok _ => Ok (ToolOutput.llm_only answer)
               | Err e => Err (Errors.Tool (publish_failure (default "send" (m_action args)) +:+ ZeptoError_display e))
               end)
        end
      end
    end
  end.
End message.

(** ** Delegation *)

Record SwarmRole : Type := mkSwarmRole { role_prompt : string; role_tools : list string }.

Record SwarmConfig : Type := mkSwarmConfig {
  swarm_enabled : bool;
  max_concurrent : Z;
  roles : gmap string SwarmRole;
}.

(** What a tool of the swarm is made from: [memory] tells whether there is a memory backend. *)
Record DelegateTool : Type := mkDelegateTool { swarm : SwarmConfig; memory : bool; capacity : nat }.

Definition new (swarm : SwarmConfig) (memory : bool) : DelegateTool :=
  mkDelegateTool swarm memory (if max_concurrent swarm =? 0 then 1 else Z.to_nat (max_concurrent swarm)).

(** The names of the tools a sub-agent gets. *)
Definition create_sub_agent_tools (self : DelegateTool) (whitelist : option (list string)) : list string :=
  let all_tools :=
    ["echo"; "read_file"; "write_file"; "list_dir"; "edit_file"; "shell"; "web_fetch"; "message"]
    ++ if memory self then ["memory_search"; "memory_get"] else [] in
  match whitelist with
  | Some names => filter (λ t, t ∈ names) all_tools
  | None => all_tools
  end.

Section delegate.
Context `{RustUnicode} {W : Type}.
(** A sub-agent with its prompt and its tools, on its task. *)
Context (run_agent : string → list string → string → M W (outcome (result ZeptoError string))).
Implicit Types (self : DelegateTool) (scratchpad : SwarmScratchpad).

Definition role_config self (role : string) : option SwarmRole := roles (swarm self) !! to_lowercase role.

Definition base_prompt self (role : string) : string :=
  let preset := "You are a specialist with the role: " +:+ role +:+ ". "
    +:+ "Complete the task given to you thoroughly and return your findings. "
    +:+ "You can send interim updates to the user via the message tool." in
  match role_config self role with
  | Some rc => if str_is_empty (role_prompt rc) then preset else role_prompt rc
  | None => preset
  end.

Definition prompt_for self scratchpad (role : string) (inject_prior_context : bool) : outcome string :=
  if inject_prior_context then
    context ← SwarmScratchpad.format_for_prompt scratchpad;
    mret (match context with
          | Some context => base_prompt self role +:+ newline +:+ newline +:+ context
          | None => base_prompt self role
          end)
  else mret (base_prompt self role).

Definition allowed_tool_names self (role : string) (tools : option (list string)) : option (list string) :=
  match tools with
  | Some ts => Some ts
  | None => rc ← role_config self role; match role_tools rc with [] => None | ts => Some ts end
  end.

Definition run_single_delegate self scratchpad (role task : string) (tools : option (list string)) (inject_prior_context : bool)
    : M W (outcome (result ZeptoError string)) :=
  match prompt_for self scratchpad role inject_prior_context with
  | Panic => ret Panic
  | Ret system_prompt =>
    let* r := run_agent system_prompt (create_sub_agent_tools self (allowed_tool_names self role tools)) task in
    ret (match r with
         | Ret (Err e) => Ret (Err (Errors.Tool ("Sub-agent '" +:+ role +:+ "' failed: " +:+ ZeptoError_display e)))
         | _ => r
         end)
  end.

(** A task: its role, its text and its tools. *)
Abbreviation TaskSpec := (string * string * option (list string))%type.

(** The arguments; a task may lack its role or its text. *)
Record DelegateArgs : Type := mkDelegateArgs {
  d_action : option string;
  d_role : option string;
  d_task : option string;
  d_tools : option (list string);
  d_tasks : option (list (option string * option string * option (list string)));
  parallel : option bool;
  merge_strategy : option string;
}.

Definition task_spec (t : option string * option string * option (list string)) : result ZeptoError TaskSpec :=
  match t with
  | (role, Some task, tools) => Ok (default "assistant" role, task, tools)
  | (_, None, _) => Err (Errors.Tool "Each task in aggregate must have 'task' field")
  end.

(** All specifications, or the first error. *)
Fixpoint task_specs (ts : list (option string * option string * option (list string))) : result ZeptoError (list TaskSpec) :=
  match ts with
  | [] => Ok []
  | t :: ts =>
    match task_spec t with
    | Err e => Err e
    | Ok s => match task_specs ts with Ok ss => Ok (s :: ss) | Err e => Err e end
    end
  end.

(** One after the other; the first failure ends it. *)
Fixpoint run_sequential self scratchpad (specs : list TaskSpec)
    : M W (outcome (result ZeptoError (list (string * string))) * SwarmScratchpad) :=
  match specs with
  | [] => ret (Ret (Ok []), scratchpad)
  | (role, task, tools) :: specs =>
    let* r := run_single_delegate self scratchpad role task tools true in
    match r with
    | Panic => ret (Panic, scratchpad)
    | Ret (Err e) => ret (Ret (Err e), scratchpad)
    | Ret (Ok result) =>
      let* rest := run_sequential self (SwarmScratchpad.write scratchpad role result) specs in
      let '(rs, scratchpad) := rest in
      ret (match rs with
           | Ret (Ok rs) => Ret (Ok ((role, result) :: rs))
           | _ => rs
           end, scratchpad)
    end
  end.

(** What becomes of the results of sub-agents that ran at the same time. *)
Fixpoint collect scratchpad (raw : list (TaskSpec * result ZeptoError string)) : list (string * string) * SwarmScratchpad :=
  match raw with
  | [] => ([], scratchpad)
  | ((role, _, _), Ok output) :: raw =>
    let '(rs, scratchpad) := collect (SwarmScratchpad.write scratchpad role output) raw in ((role, output) :: rs, scratchpad)
  | ((role, _, _), Err e) :: raw =>
    let '(rs, scratchpad) := collect scratchpad raw in ((role, "[error]: " +:+ ZeptoError_display e) :: rs, scratchpad)
  end.

Definition format_results (results : list (string * string)) (strategy : string) : string :=
  if String.eqb strategy "summarize" then
    "## Aggregated Results" +:+ newline +:+ newline
    +:+ str_concat (map (λ r, "### " +:+ fst r +:+ newline +:+ snd r +:+ newline +:+ newline) results)
  else join (newline +:+ newline) (map (λ r, "[" +:+ fst r +:+ "]: " +:+ snd r) results).

(** [join_all] of the sub-agents, whose steps are below; [None] when one of them panics. *)
Context (join_all : list TaskSpec → M W (option (list (result ZeptoError string)))).

Definition execute self scratchpad (args : DelegateArgs) (ctx : ToolContext)
    : M W (outcome (result ZeptoError ToolOutput) * SwarmScratchpad) :=
  if bool_decide (channel ctx = Some "delegate") then
    ret (Ret (Err (Errors.Tool "Cannot delegate from within a delegated task (recursion limit)")), scratchpad)
  else if negb (swarm_enabled (swarm self)) then
    ret (Ret (Err (Errors.Tool "Delegation is disabled in configuration")), scratchpad)
  else
    let action := default "run" (d_action args) in
    if String.eqb action "run" then
      match d_role args, d_task args with
      | None, _ => ret (Ret (Err (Errors.Tool "Missing required 'role' argument")), scratchpad)
      | Some _, None => ret (Ret (Err (Errors.Tool "Missing required 'task' argument")), scratchpad)
      | Some role, Some task =>
        let* r := run_single_delegate self scratchpad role task (d_tools args) true in
        ret (match r with
             | Panic => (Panic, scratchpad)
             | Ret (Err e) => (Ret (Err e), scratchpad)
             | Ret (Ok result) =>
               (Ret (Ok (ToolOutput.user_visible ("[" +:+ role +:+ "]: " +:+ result))), SwarmScratchpad.write scratchpad role result)
             end)
      end
    else if String.eqb action "aggregate" then
      match d_tasks args with
      | None => ret (Ret (Err (Errors.Tool "'aggregate' requires 'tasks' array")), scratchpad)
      | Some tasks =>
        match task_specs tasks with
        | Err e => ret (Ret (Err e), scratchpad)
        | Ok specs =>
          let done_with results := Ret (Ok (ToolOutput.user_visible
                                              (format_results results (default "concatenate" (merge_strategy args))))) in
          if default false (parallel args) then
            let* raw := join_all specs in
            ret (match raw with
                 | None => (Panic, scratchpad)
                 | Some raw =>
                   let '(results, scratchpad) := collect scratchpad (zip specs raw) in (done_with results, scratchpad)
                 end)
          else
            let* r := run_sequential self scratchpad specs in
            let '(rs, scratchpad) := r in
            ret (match rs with
                 | Panic => (Panic, scratchpad)
                 | Ret (Err e) => (Ret (Err e), scratchpad)
                 | Ret (Ok results) => (done_with results, scratchpad)
                 end)
        end
      end
    else ret (Ret (Err (Errors.Tool ("Unknown action '" +:+ action +:+ "'. Valid actions are: run, aggregate"))), scratchpad).

(** *** One after the other *)

(** Each sub-agent gave its result with the results before it in the scratchpad. *)
Fixpoint in_sequence self scratchpad (specs : list TaskSpec) (rs : list (string * string)) : Prop :=
  match specs, rs with
  | [], [] => True
  | (role, task, tools) :: specs, (role', result) :: rs =>
    role' = role ∧ (∃ w, fst (run_single_delegate self scratchpad role task tools true w) = Ret (Ok result)) ∧
    in_sequence self (SwarmScratchpad.write scratchpad role result) specs rs
  | _, _ => False
  end.

(** A failure: the tasks before it gave results, and no task after it was started. *)
Definition fails_at self scratchpad (specs : list TaskSpec) (e : ZeptoError) (scratchpad' : SwarmScratchpad) : Prop :=
  ∃ before role task tools after rs w, specs = before ++ (role, task, tools) :: after ∧
    in_sequence self scratchpad before rs ∧
    scratchpad' = foldl (λ sp r, SwarmScratchpad.write sp (fst r) (snd r)) scratchpad rs ∧
    fst (run_single_delegate self scratchpad' role task tools true w) = Ret (Err e).

(** Tasks in sequence: each sub-agent is given the results of those before it, all of them are in
    the scratchpad at the end, and the first failure is the answer. *)
Theorem delegated_in_sequence self scratchpad specs w r scratchpad' w' :
  run_sequential self scratchpad specs w = ((Ret r, scratchpad'), w') →
  match r with
  | Ok rs =>
    in_sequence self scratchpad specs rs ∧
    scratchpad' = foldl (λ sp r, SwarmScratchpad.write sp (fst r) (snd r)) scratchpad rs
  | Err e => fails_at self scratchpad specs e scratchpad'
  end.
Proof.
  revert scratchpad w r. induction specs as [|[[role task] tools] specs IH]; intros scratchpad w r; cbn [run_sequential].
  { by intros [= <- <- _]. }
  unfold bind at 1. destruct (run_single_delegate self scratchpad role task tools true w) as [[[result|e]|] w1] eqn:Hr; [| |done].
  - unfold bind. destruct (run_sequential self _ specs w1) as [[rs sp] w2] eqn:Hs. intros [= Hrs -> ->].
    destruct rs as [[rs|e]|]; [| |done]; injection Hrs as <-; apply IH in Hs.
    + destruct Hs as [Hs ->]. split; [|done]. cbn [in_sequence]. split; [done|]. split; [by exists w; rewrite Hr|done].
    + destruct Hs as (before & role' & task' & tools' & after & rs & w0 & -> & Hin & -> & He).
      exists ((role, task, tools) :: before), role', task', tools', after, ((role, result) :: rs), w0.
      split; [done|]. split; [|by split]. cbn [in_sequence]. split; [done|]. split; [by exists w; rewrite Hr|done].
  - intros [= <- <- _]. exists [], role, task, tools, specs, [], w. split; [done|]. split; [done|]. split; [done|]. by rewrite Hr.
Qed.

(** A sub-agent does not delegate: it has no such tool, and a call in its channel changes and runs
    nothing. *)
Theorem no_recursion self scratchpad args ctx w whitelist :
  "delegate" ∉ create_sub_agent_tools self whitelist ∧ "spawn" ∉ create_sub_agent_tools self whitelist ∧
  (channel ctx = Some "delegate" →
   ∃ e, execute self scratchpad args ctx w = ((Ret (Err e), scratchpad), w)).
Proof.
  assert (∀ t, t = "delegate" ∨ t = "spawn" → t ∉ create_sub_agent_tools self None) as Hall.
  { intros t Ht. unfold create_sub_agent_tools. apply (bool_decide_unpack _).
    by destruct Ht as [-> | ->], (memory self); vm_compute. }
  assert (∀ t, t ∈ create_sub_agent_tools self whitelist → t ∈ create_sub_agent_tools self None) as Hsub.
  { intros t. destruct whitelist; [|done]. by intros [_ Ht]%list_elem_of_filter. }
  split; [intros Hin%Hsub; by apply (Hall "delegate"); [left|]|].
  split; [intros Hin%Hsub; by apply (Hall "spawn"); [right|]|].
  intros Hc. eexists. unfold execute. by rewrite bool_decide_eq_true_2.
Qed.
End delegate.

(** *** At the same time *)

(** The sub-agents of one call, by their places: those that wait for a permit, those that run with
    one, and the results. *)
Record Fan (R : Type) : Type := mkFan {
  permits : nat;
  waiting : list nat;
  running : list nat;
  results : gmap nat R;
}.
Arguments mkFan {R} _ _ _ _.
Arguments permits {R} _.
Arguments waiting {R} _.
Arguments running {R} _.
Arguments results {R} _.

Definition fan (R : Type) (capacity n : nat) : Fan R := mkFan capacity (seq 0 n) [] ∅.

Inductive fan_step {R} : Fan R → Fan R → Prop :=
| fan_acquire p a i b run rs :
    fan_step (mkFan (S p) (a ++ i :: b) run rs) (mkFan p (a ++ b) (i :: run) rs)
| fan_finish p wait a i b rs r :
    fan_step (mkFan p wait (a ++ i :: b) rs) (mkFan (S p) wait (a ++ b) (<[i := r]> rs)).

Inductive fan_run {R} (f0 : Fan R) : nat → Fan R → Prop :=
| fan_none : fan_run f0 0 f0
| fan_more k f f' : fan_run f0 k f → fan_step f f' → fan_run f0 (S k) f'.

Definition places {R} (f : Fan R) : list nat := waiting f ++ running f ++ map fst (map_to_list (results f)).

Lemma fan_step_places {R} (f f' : Fan R) : NoDup (places f) → fan_step f f' → places f' ≡ₚ places f.
Proof.
  intros Hnd Hstep. destruct Hstep as [p a i b run rs|p wait a i b rs r]; unfold places in *; cbn in *.
  - rewrite <- !app_assoc. cbn. apply Permutation_app_head. rewrite <- !Permutation_middle. done.
  - assert (rs !! i = None) as Hi.
    { destruct (rs !! i) as [x|] eqn:Hx; [|done]. exfalso.
      apply NoDup_app in Hnd as (_ & _ & Hnd). rewrite <- app_assoc in Hnd. apply NoDup_app in Hnd as (_ & _ & Hnd).
      apply NoDup_cons in Hnd as [Hni _]. apply Hni, elem_of_app. right.
      apply list_elem_of_fmap. exists (i, x). split; [done|]. by apply elem_of_map_to_list. }
    rewrite (map_to_list_insert rs i r Hi). cbn. apply Permutation_app_head. rewrite <- !app_assoc. apply Permutation_app_head.
    symmetry. apply Permutation_middle.
Qed.

(** Whatever the order of steps: at most [capacity] sub-agents run; each task is at one place; a
    step is possible until all have their results, which takes two steps per task. *)
Theorem delegated_at_once {R} capacity n k (f : Fan R) (r : R) :
  (0 < capacity)%nat → fan_run (fan R capacity n) k f →
  (length (running f) + permits f = capacity)%nat ∧ places f ≡ₚ seq 0 n ∧
  (k = length (running f) + 2 * size (results f) ∧ k ≤ 2 * n)%nat ∧
  ((∃ f', fan_step f f') ∨ ∀ i, (i < n)%nat → is_Some (results f !! i)).
Proof.
  intros Hc Hrun.
  assert ((length (running f) + permits f = capacity)%nat ∧ places f ≡ₚ seq 0 n ∧
    (k = length (running f) + 2 * size (results f))%nat) as (Hp & Hpl & Hk).
  { induction Hrun as [|k f f' Hrun (Hp & Hpl & Hk) Hstep].
    - split; [done|]. split; [|done]. unfold places, fan. cbn. by rewrite app_nil_r.
    - assert (NoDup (places f)) as Hnd by (rewrite Hpl; apply NoDup_seq).
      pose proof (fan_step_places f f' Hnd Hstep) as Hperm. split; [|split; [by rewrite Hperm|]].
      + destruct Hstep; cbn in *; rewrite ?length_app in *; cbn in *; lia.
      + assert (length (places f') = length (places f)) as Hlen by (by rewrite Hperm). unfold places in Hlen.
        rewrite !length_app, !length_map, !length_map_to_list in Hlen.
        destruct Hstep; cbn in *; rewrite ?length_app in *; cbn in *; lia. }
  split; [done|]. split; [done|]. split.
  - split; [done|]. assert (length (places f) = n) as Hlen by (rewrite Hpl; apply length_seq). unfold places in Hlen.
    rewrite !length_app, !length_map, !length_map_to_list in Hlen. lia.
  - destruct f as [p wait run rs]. cbn in *. destruct run as [|i run].
    + destruct p as [|p]; [cbn in Hp; lia|]. destruct wait as [|i wait]; [right|left; eexists; apply (fan_acquire p [] i wait)].
      intros i Hi. assert (i ∈ places (mkFan (S p) [] [] rs)) as Hin by (rewrite Hpl; apply elem_of_seq; lia).
      unfold places in Hin. cbn in Hin. apply list_elem_of_fmap in Hin as ([j x] & -> & Hj). apply elem_of_map_to_list in Hj. by exists x.
    + left. eexists. apply (fan_finish p wait [] i run rs r).
Qed.

Lemma compose_where react_json rich_json keyboard_json args content ch chat out answer :
  compose react_json rich_json keyboard_json args content ch chat = Ok (out, answer) →
  existsb (λ c, eq_ignore_ascii_case c ch) ALLOWED_CHANNELS = true ∧ out_channel out = ch ∧ out_chat_id out = chat.
Proof.
  unfold compose. destruct (existsb _ ALLOWED_CHANNELS) eqn:Hall; [|done]. cbn [negb].
  intros Hc. split; [done|]. revert Hc. repeat case_match; try done; by intros [= <- _].
Qed.

(** The tool publishes one message, to a channel of the list in some case and to the chat it was
    given or comes from, or it answers with an error and publishes nothing. *)
Theorem message_published {W} react_json rich_json keyboard_json (publish : OutboundMessage → M W (result ZeptoError unit)) args ctx w :
  (∃ e, message_tool react_json rich_json keyboard_json publish args ctx w = (Err e, w)) ∨
  (∃ out answer, existsb (λ c, eq_ignore_ascii_case c (out_channel out)) ALLOWED_CHANNELS = true ∧
     or_context (m_chat_id args) (chat_id ctx) = Some (out_chat_id out) ∧
     message_tool react_json rich_json keyboard_json publish args ctx w =
       (match fst (publish out w) with
        | Ok _ => Ok (ToolOutput.llm_only answer)
        | Err e => Err (Errors.Tool (publish_failure (default "send" (m_action args)) +:+ ZeptoError_display e))
        end, snd (publish out w))).
Proof.
  unfold message_tool. destruct (some_text (m_content args)) as [content|]; [|left; by eexists].
  destruct (or_context (m_channel args) (channel ctx)) as [ch|]; [|left; by eexists].
  destruct (or_context (m_chat_id args) (chat_id ctx)) as [chat|]; [|left; by eexists].
  destruct (compose _ _ _ _ _ _ _) as [[out answer]|e] eqn:Hc; [right|left; by eexists].
  apply compose_where in Hc as (Hall & Hch & <-). exists out, answer. split; [by rewrite Hch|]. split; [done|].
  unfold bind. by destruct (publish out w).
Qed.

Module Example_delegate.
Definition no_args : MessageArgs := mkMessageArgs None None None None None None None None None None None None.
Definition sent (args : MessageArgs) (ch : string) : result ZeptoError ToolOutput * list OutboundMessage :=
  message_tool (λ e i, e) (λ b, b) (λ c b, c) (λ out w, (Ok tt, (w ++ [out])%list)) args
    (mkToolContext (Some ch) (Some "7") None true) [].

(** A name in capitals is accepted, and published as it is: the manager, which looks names up as
    they are, has no such channel. *)
Example capitals_lost :
  snd (sent (mkMessageArgs (Some "hello") (Some "Telegram") None None None None None None None None None None) "telegram")
  = [OutboundMessage.new "Telegram" "7" "hello"].
Proof. reflexivity. Qed.

(** The channel of a sub-agent is not one of the list: without another channel its messages are refused. *)
Example no_interim_updates :
  sent (mkMessageArgs (Some "half done") None None None None None None None None None None None) "delegate"
  = (Err (Errors.Tool ("Unknown channel 'delegate'. Allowed: " +:+ join ", " ALLOWED_CHANNELS)), []).
Proof. reflexivity. Qed.
End Example_delegate.
